(* ===== verification/_CoqProject ===== *)
-Q . S2P
Prelude.v
Float.v
FloatExact.v
Value.v
Catalog.v
CatalogFacts.v
TableFacts.v
RowStore.v
Transaction.v
Concurrency.v
Snapshot.v
Crc32.v
Persistence.v
PersistenceFacts.v
TableReload.v
Storage.v
Database.v
VectorSearch.v
Overlay.v
Tokenizer.v
Policy.v
Ast.v
Numeral.v
Parser.v
ParserRules.v
ParserFacts.v
Grammar.v
TokenWindow.v
ParserCut.v
ViewText.v
Eval.v
QuerySource.v
QueryFacts.v
AggregateFacts.v
Registries.v
Substitution.v
ProcedureBody.v
ProcedureFacts.v
Executor.v
ExecutorFacts.v
Preserves.v
Recovery.v
ExecutorInvariant.v
StoredTexts.v
TestImport.v
TestImportFacts.v
Cli.v
CliFacts.v
BenchmarkWorkloads.v
Benchmark.v
ExecutorRuns.v
TablePointers.v
Abi.v
AbiFacts.v
AbiHeader.v
Tap.v
CollationTables.v
CollationSuite.v
CollationFacts.v
CollationRanks.v
JsonWriterSuite.v
JsonWriterFacts.v
SyncSuite.v
SyncFacts.v
IoCacheSuite.v
IoCacheFacts.v
RbtSuite.v
FtsSuite.v
ApcSuite.v
ApcFacts.v
JsonLibSuite.v
JsonLibFacts.v
JsonNormSuite.v
AhiSuite.v
ExplainSuite.v
DecimalSuite.v
