(* ===== verification/Prelude.v ===== *)
(** * ShovelerDB: a verified model of the engine

    ShovelerDB is an embedded SQL and vector store written in Zig.  A C host opens a database
    file ([src/src/abi]), sends SQL text, the tokenizer and parser ([src/src/sql]) turn it into a
    statement, the executor ([src/src/db/executor.zig]) runs it for a session against the in-memory
    catalog and row stores, and a checkpoint writes everything into one checksummed snapshot file
    ([src/src/db/persistence.zig]).  Readers see the generation their BEGIN took; commits are numbered by
    a queue, keep the rows that older readers still need in a snapshot registry, and record vector
    changes in an overlay.

    ** Files, bottom up

    - [Prelude]: this file.  Errors and results, checked integers, byte strings, ASCII case folding, list
      lemmas, the tactic [inv_ok] and the hint database [shoveler] the other files use.
    - [Float]: IEEE-754 values as bit patterns, with the Standard Library's executable operations; [FloatExact]: an [f32] taken to
      [f64] and back is unchanged.
    - [Value] ([db/value.zig]), [Catalog] ([db/catalog.zig], [db/ddl.zig]), with [CatalogFacts] (the catalog
      is one finite map) and [TableFacts] (what table definitions guarantee, cloning).
    - [RowStore] ([db/row_store.zig]) and [Transaction] ([db/transaction.zig]): rows with stable ids, staged changes, commit.
    - [Concurrency] ([db/concurrency.zig], [commit_queue.zig], [backpressure.zig], [checkpoint_worker.zig]) and
      [Snapshot] ([db/snapshot.zig]): commit numbers, limits, and retained generations.
    - [Crc32], [Persistence], [PersistenceFacts], [TableReload], [Storage]: the snapshot format ([db/persistence.zig]), its round
      trip and error detection, which accepted table definitions it brings back, and the write-temporary-sync-rename protocol over
      a directory with faults and crashes.
    - [Database] ([db/database.zig]): the direct embedded handle over a snapshot.
    - [VectorSearch] ([vector/distance.zig], [vector/search.zig]) and [Overlay] ([vector/overlay.zig]).
    - [Tokenizer] ([sql/tokenizer.zig]), [Policy] ([sql/policy.zig]), [Ast] ([sql/ast.zig]).
    - [Numeral] (the number conversions of Zig's library), [Parser] ([sql/parser.zig], every parsing function and both entry
      points).  [ParserRules] and [ParserFacts]: the rules by which every function ends and reports real positions.
      [Grammar]: the grammar of expressions.  [TokenWindow], [ParserCut], [ViewText]: the tokens of a piece of a text, parsing
      what was consumed again, and the text a view is stored as.
    - [Eval] (scalar evaluation), [QuerySource] ([db/query_source.zig], [db/aggregate.zig]), [QueryFacts] and [AggregateFacts].
    - [Registries] ([db/view.zig], [db/procedure.zig], the statement type of [sql/procedure_body.zig], procedure
      variables), [Substitution] (what writing variables into a statement means), [ProcedureBody] and [ProcedureFacts] (the parser
      of [sql/procedure_body.zig]), [Executor] ([db/executor.zig]), [ExecutorFacts].  [Preserves]: the judgement and the class
      [executor_invariant] by which a property of the database is shown to survive every statement; [ExecutorInvariant] and
      [StoredTexts] are its two instances.  [Recovery]: export and import of a database.  [ExecutorInvariant]: the engine stays
      consistent.  [StoredTexts]: the executor run on SQL text, with both parsers, and restarted.  [ExecutorRuns]: single runs.
      [TablePointers]: the pointers of transactions into the list of tables, and what COMMIT publishes.
    - [TestImport] and [TestImportFacts] ([mariadb/*.zig]: the analyzer, the classifier and the runner of imported tests), [Cli]
      and [CliFacts] ([cli/commands.zig], the options of [cli/benchmark.zig], [cli/benchmark_metrics.zig]).
    - [BenchmarkWorkloads] ([cli/benchmark_workloads.zig]) and [Benchmark] ([cli/benchmark.zig]): the workloads, as a client of the
      whole engine.
    - [Abi] ([abi/*.zig], the enumerations of [include/shovelerdb.h]) and [AbiFacts]; [AbiHeader]: the types and prototypes of
      the header next to the signatures of the exported functions.
    - The test programs in C and C++ that the repository carries under [references/mariadb], one component each, as programs
      over the TAP library ([Tap]): [CollationTables], [CollationSuite], [CollationFacts], [CollationRanks]
      ([unittest/strings/strings-t.c]); [JsonWriterSuite], [JsonWriterFacts] ([unittest/sql/my_json_writer-t.cc]);
      [SyncSuite], [SyncFacts] ([innodb_sync-t.cc]); [IoCacheSuite], [IoCacheFacts] ([mf_iocache-t.cc]); [RbtSuite]
      ([innodb_rbt-t.cc]); [FtsSuite] ([innodb_fts-t.cc]); [ApcSuite], [ApcFacts] ([my_apc-t.cc]); [JsonLibSuite], [JsonLibFacts]
      ([json_lib-t.c], [json-t.c]); [JsonNormSuite] ([json_normalize-t.c]); [AhiSuite] ([innodb_ahi-t.cc]); [ExplainSuite]
      ([explain_filename-t.cc]); [DecimalSuite] ([my_decimal-t.cc]).  The libraries these programs test are not in the
      repository: they are parameters, with their documented behaviour as named laws where a theorem needs it.

    Every definition has the name of the function or type it models where the names are free; helpers that
    cut a long function into pieces are named after their part.

    ** Conventions

    - A function returning [!T] returns [Result T]: [Ok], [Err] with the error of the source, or [Panic] for a
      failed safety check (overflow, index out of range, [unreachable]).  Overflow is checked, as in Zig's safe
      builds; [usize] is 64 bits.
    - Memory is not modelled: allocation succeeds, [deinit] and ownership have no counterpart, and a clone is equal
      to its source.  The exception is the heap of handles of the C interface, where release matters.
    - A pointer to a table definition is its value, refreshed where the code refreshes it.  A transaction's pointer to a row
      store ([TablePointer]) is a place in memory and a slot: [TableMemory] numbers the places the array of the list of tables has
      had, an [Allocator], which is an argument, says which append moves it, and following a pointer into an old place has the
      outcome [Panic], which stands for undefined behaviour.  Removing a table shifts those behind it under the pointers, as in
      the code.
    - State is passed explicitly: the executor in a state monad that keeps the state of a failed call, file
      operations in a monad with the directory, the log of the calls that took effect and injected faults.
    - A crash ([Storage.crash]) leaves the names as some prefix of the calls left them; a file written or created since it was
      last synced may then have any content or be missing.
    - Theorems on runs of several statements are about runs whose statements all have a defined outcome ([reached], [run_system],
      [run_texts]): a statement that ends in [Panic] ends the run.
    - [begin] and [commit] hold the commit lock; sessions interleave between statements.
    - [Registries], [Executor] and [Recovery] take the two parsers as arguments ([parse], [parse_body]), so that their theorems
      hold for any parser; where a view is re-read from its text they ask for [exportable] (definitions that are accepted again, texts that parse) and
      [registries_match] (the registries hold what the texts are parsed to).  [StoredTexts] instantiates them with [Parser.parse]
      and [ProcedureBody.parse_procedure] and proves what both ask of the texts.
    - NaN results carry the canonical quiet bit pattern.

    ** What the theorems show

    - Transactions: a transaction is a private copy until commit; commit keeps stores well-formed; conflicts
      with deleted rows are errors ([Transaction]).  Sessions are isolated: whatever data statements others run, a
      session's SELECTs read what they read before ([ExecutorFacts.snapshot_isolation]), by an invariant that ties
      reference counts, retained generations and commit numbers together; COMMIT publishes its table transactions in order and
      counts once if there is one, staged rows or not ([TablePointers.transaction_end]).  The store pointers of transactions stay
      valid as long as no table is created or dropped meanwhile ([TablePointers.pointers_stay_home]).
    - Storage: encode and decode are inverse on well-formed snapshots, any changed byte and any wrong length is
      detected, a crash or fault at any point leaves the old or the new file, and closing or checkpointing and
      reopening brings everything back ([PersistenceFacts], [Storage], [Database], [Recovery], [AbiFacts]), if the table
      definitions are accepted a second time: [TableReload.written_file_reloads] says which of those that CREATE TABLE accepts are.
    - Queries: SELECT terminates, returns the matching rows stably sorted by its keys, joins are
      relational joins, GROUP BY is a partition ([QueryFacts]), COUNT, SUM, AVG, MIN and MAX compute what they are named after
      ([AggregateFacts.aggregate_semantics]); top-k vector search returns the nearest candidates, by distances and an order stated on their own
      ([VectorSearch.topK_nearest]).
    - The engine as a whole: whatever statements any number of sessions execute, in any order and each with any defined outcome,
      catalog and row stores stay in step and well-formed ([ExecutorInvariant.engine_stays_consistent]).
    - Procedures: writing variables into a statement is evaluating it with the variables in scope
      ([Substitution.substitution_shadows]).
    - Catalog, overlay, registry, queue and worker refine their abstract descriptions or keep their invariants under
      every sequence of operations.
    - The tokenizer terminates and covers its input; the policy refuses exactly the listed features.
    - The parsers end on every input and their diagnostics point into it ([ProcedureFacts.parsers_total]); the expressions they
      accept are those of a grammar with four levels of precedence ([Grammar.expression_grammar]), and no content of a quoted
      string ends it ([Grammar.quoted_is_literal]).
    - Views and procedures are stored as text: whatever SQL with closed quotes any number of sessions execute, with a defined
      outcome, the registries hold what the texts are parsed to ([StoredTexts.texts_stay_matched]), so a restart finds the same views, procedures, tables and rows, if the
      table definitions can be read back ([StoredTexts.restart_restores_views]).  The texts must close their quotes:
      [unclosed_view_changes] is a view whose text is parsed to something else.
    - The C interface: clients read results back exactly, diagnostics follow statuses; header and exports, as transcribed, are one
      interface up to the sign of [char] ([AbiHeader.interface_agrees]).
    - The benchmark: a run that returns reports every measurement with the numbers asked for and leaves the engine consistent
      ([Benchmark.benchmark_reports]); its persistence workload succeeds
      ([BenchmarkWorkloads.persistence_workload_succeeds]).
    - [TablePointers] states what goes wrong with tables that change under a transaction: a CREATE TABLE that moves the list strands
      every open table transaction, a DROP TABLE redirects a COMMIT into another table, and a COMMIT that fails on one of its
      tables has published the ones before it and leaves a session that cannot end its transaction.
    - [ExecutorRuns] and a few named lemmas record runs in which the code does something other than it
      documents: procedures restored without parameters, a view that captures the caller's CTE, a COMMIT that counts though
      nothing changed.
    - Tools: an adapted test executes exactly the statements of its SQL blocks ([TestImportFacts.fixture_runs_steps]); a plain file is
      classified by what the policy says of its statements; exit statuses report what policy, parser, executor and test
      runner decided ([CliFacts.commands_report]).
    - Test programs: each makes the checks it plans and passes exactly if the library under test behaves as its tables
      say; the threaded ones ([SyncFacts], [ApcFacts]) neither fail an assertion nor block in any interleaving, given the
      documented behaviour of the lock and of the call mechanism; buffers are not overrun ([IoCacheFacts], with the sizes for
      which they are).

    ** Fuel and bounds

    - [executeSelect] recurses through views, CTEs and derived tables; its fuel is the size of the statement plus
      [max_view_depth] (8, from the source) times one more than the largest view, and
      [select_terminates] proves that this is enough and that more fuel changes nothing.
    - The WHILE loop of procedures counts down the 10000 iterations the source allows.
    - Tokenizer loops recurse on what is left of the input; the client of [AbiFacts] makes one call more than rows.
    - Each loop of the parsers has one unit of fuel more than tokens are left, and so do the two recursions (expressions in
      expressions, queries in queries) where they are entered; [parsers_total] proves that none runs out.
    - The scanning loops of [JsonLibSuite] take fuel, and the laws of the scanner give the amount that is enough.

    ** Not modelled

    - The clock and the allocation counters of the benchmark: their readings are arguments of [Benchmark], as the decimal form of
      floating-point numbers is one of [Cli].
    - [lib.zig], [build.zig]: re-exports and the build graph.
    - [references/mariadb/unittest/sql/dummy_builtins.cc]: an empty table for the linker.  The rest of [references/] is data.
    - The functions [skipColumnAttributes] and [unexpected] of [sql/parser.zig], which nothing calls.
    - Threads inside one commit: the code serialises commits with a lock, taken here as atomic steps.

    - Calling conventions and compilers: [AbiHeader] compares declarations.
    - The outcome of the checks of [JsonWriterSuite], which is that of a writer the repository does not have: only the helpers and
      the number of checks are proved about.

    The fuel of the benchmark is the number of iterations each loop is asked for; the persistence theorem covers up to a
    million rows ([run] asks for at most 64), which still fit into the largest file that is read back.

    Open in the plan: a grammar of whole statements, and that every statement text the benchmark prints is parsed. *)

From Stdlib Require Strings.Byte.
From stdpp Require Export base list numbers option strings.
From Stdlib Require Import Lia.

#[global] Open Scope Z_scope.

(** ** Error set

    Zig errors are members of one global error set ([anyerror]); the constructors carry the
    names the sources use. *)
Inductive Error :=
  | OutOfMemory | InvalidArgument | InvalidHandle | ParseDiagnostic
  | DuplicateColumn | DuplicateObject | UnknownObject | NameConflict
  | UnknownColumn | AmbiguousColumn | ColumnCountMismatch
  | TransactionRequired | TransactionActive | NoActiveTransaction
  | AlreadyCommitted | AlreadyRolledBack
  | TypeMismatch | InvalidGrouping
  | VectorDimensionMismatch | InvalidVectorDimension | ZeroVector
  | DuplicateRow | UnknownRow
  | InvalidHeader | UnsupportedVersion | TruncatedPayload | PayloadLengthMismatch
  | PayloadChecksumMismatch | InvalidColumnType | InvalidValueTag
  | InvalidBooleanEncoding | InvalidVectorElementType | RowStoreMismatch | ValueTooLarge
  | FileNotFound | AccessDenied | FileTooBig | IsDir | NoSpaceLeft | NotDir
  | PathAlreadyExists | SystemResources | WouldBlock | InputOutput | StreamTooLong
  | UnsupportedExpression | UnsupportedView | UnsupportedProcedure
  | DatabaseClosed
  | CommitQueueFull | SnapshotRetentionExceeded | CheckpointAlreadyRunning
  | VectorOverlayBacklogExceeded | InvalidCommitQueueLimit
  | InvalidSnapshotRetentionLimit | InvalidCheckpointBudget | InvalidVectorOverlayBudget
  | MissingSqlBlock | UnsupportedDirective | ExpectedErrorMismatch | UnexpectedSuccess
  | MissingOptionValue | InvalidOption | InvalidBenchmarkState.

#[global] Instance Error_eq_dec : EqDecision Error.
Proof. solve_decision. Defined.

(** ** Results

    [Ok] and [Err] are the two sides of a Zig error union [!T]; [Panic] is a safety-checked
    failure (integer overflow, failed assertion, [unreachable], null unwrap). *)
Inductive Result (A : Type) :=
  | Ok (a : A)
  | Err (e : Error)
  | Panic.
Arguments Ok {A} a.
Arguments Err {A} e.
Arguments Panic {A}.

#[global] Instance Result_eq_dec {A} `{EqDecision A} : EqDecision (Result A).
Proof. solve_decision. Defined.

#[global] Instance result_ret : MRet Result := @Ok.
#[global] Instance result_bind : MBind Result := λ A B f m,
  match m with Ok a => f a | Err e => Err e | Panic => Panic end.
#[global] Instance result_fmap : FMap Result := λ A B f m,
  match m with Ok a => Ok (f a) | Err e => Err e | Panic => Panic end.
Arguments result_bind _ _ _ !_ /.
Arguments result_fmap _ _ _ !_ /.

Definition is_ok {A} (r : Result A) : bool := match r with Ok _ => true | _ => false end.

(** [o orelse return e] *)
Definition orelse {A} (o : option A) (e : Error) : Result A :=
  match o with Some a => Ok a | None => Err e end.

(** [if (c) return e;] *)
Definition fail_if (c : bool) (e : Error) : Result () := if c then Err e else Ok ().

(** [items[i]], bounds-checked *)
Definition item_at {A} (l : list A) (i : nat) : Result A :=
  match l !! i with Some a => Ok a | None => Panic end.

(** [std.debug.assert(c)] *)
Definition assert_ (c : bool) : Result () := if c then Ok () else Panic.

Section result.
Context {A B C : Type}.

Lemma bind_ok_inv (m : Result A) (f : A → Result B) (b : B) :
  (m ≫= f) = Ok b ↔ ∃ a, m = Ok a ∧ f a = Ok b.
Proof. destruct m; naive_solver. Qed.

Lemma bind_err_inv (m : Result A) (f : A → Result B) e :
  (m ≫= f) = Err e ↔ m = Err e ∨ ∃ a, m = Ok a ∧ f a = Err e.
Proof. destruct m; naive_solver. Qed.

Lemma bind_assoc (m : Result A) (f : A → Result B) (g : B → Result C) :
  (m ≫= f) ≫= g = m ≫= (λ a, f a ≫= g).
Proof. by destruct m. Qed.

Lemma orelse_ok_inv (o : option A) e a : orelse o e = Ok a ↔ o = Some a.
Proof. destruct o; naive_solver. Qed.

Lemma item_at_ok (l : list A) i a : item_at l i = Ok a ↔ l !! i = Some a.
Proof. unfold item_at. destruct (l !! i); naive_solver. Qed.

Lemma fail_if_ok c e u : fail_if c e = Ok u ↔ c = false.
Proof. destruct c, u; naive_solver. Qed.
End result.

(** A [for] loop whose body may fail, threading an accumulator. *)
Fixpoint foldM {S A} (f : S → A → Result S) (s : S) (l : list A) : Result S :=
  match l with
  | [] => Ok s
  | a :: l' => s' ← f s a; foldM f s' l'
  end.

(** A [for] loop that fills a freshly allocated slice of the same length. *)
Fixpoint mapR {A B} (f : A → Result B) (l : list A) : Result (list B) :=
  match l with
  | [] => Ok []
  | a :: l' => b ← f a; bs ← mapR f l'; Ok (b :: bs)
  end.

(** Destructs every [_ = Ok _] equation about a bind or a guard. *)
Ltac inv_ok :=
  repeat match goal with
  | H : (_ ≫= _) = Ok _ |- _ =>
      let a := fresh "a" in let Ha := fresh "Ha" in
      apply bind_ok_inv in H as (a & Ha & H)
  | H : orelse _ _ = Ok _ |- _ => apply orelse_ok_inv in H
  | H : fail_if _ _ = Ok _ |- _ => apply fail_if_ok in H
  | H : mret _ = Ok _ |- _ => injection H as H
  | H : Ok _ = Ok _ |- _ => injection H as H
  | H : Err _ = Ok _ |- _ => discriminate H
  | H : Panic = Ok _ |- _ => discriminate H
  | H : (_, _) = (_, _) |- _ => injection H as ? ?
  | x : unit |- _ => destruct x
  end; try subst.

Section loops.
Context {S A B : Type}.

Lemma foldM_app (f : S → A → Result S) s l1 l2 :
  foldM f s (l1 ++ l2) = foldM f s l1 ≫= λ s', foldM f s' l2.
Proof.
  revert s. induction l1 as [|a l1 IH]; intros s; simpl; [done|].
  destruct (f s a); simpl; auto.
Qed.

Lemma foldM_invariant (P : S → Prop) (f : S → A → Result S) s l s' :
  (∀ s a s', a ∈ l → P s → f s a = Ok s' → P s') →
  P s → foldM f s l = Ok s' → P s'.
Proof.
  revert s. induction l as [|a l IH]; intros s Hstep HP H; simpl in H; inv_ok; [done|].
  eapply IH; [|by eapply Hstep; [apply list_elem_of_here|..]|done].
  intros s1 b s2 Hb. apply Hstep. by apply list_elem_of_further.
Qed.

Lemma mapR_ok_inv (f : A → Result B) l bs :
  mapR f l = Ok bs ↔ Forall2 (λ a b, f a = Ok b) l bs.
Proof.
  revert bs. induction l as [|a l IH]; intros bs; simpl.
  - split; [intros [= <-]; constructor | by intros ->%Forall2_nil_inv_l].
  - split.
    + intros H. inv_ok. constructor; [done|]. by apply IH.
    + intros (b & bs' & Hb & Hbs & ->)%Forall2_cons_inv_l.
      rewrite Hb. simpl. apply IH in Hbs. by rewrite Hbs.
Qed.

Lemma mapR_length (f : A → Result B) l bs : mapR f l = Ok bs → length bs = length l.
Proof. intros H%mapR_ok_inv. symmetry. by eapply Forall2_length. Qed.

Lemma mapR_id (f : A → Result B) (g : B → A) bs :
  Forall (λ b, f (g b) = Ok b) bs → mapR f (g <$> bs) = Ok bs.
Proof. induction 1 as [|b bs Hb _ IH]; csimpl; [done|]. rewrite Hb. simpl. by rewrite IH. Qed.
End loops.

(** ** Array search

    The linear search loops [for (items, 0..) |x, i| if (p(x)) return i; return null]. *)
Fixpoint find_index {A} (p : A → bool) (l : list A) : option nat :=
  match l with
  | [] => None
  | a :: l' => if p a then Some 0%nat else S <$> find_index p l'
  end.

Section find_index.
Context {A : Type} (p : A → bool).

Lemma find_index_Some l i :
  find_index p l = Some i ↔
  (∃ a, l !! i = Some a ∧ p a = true) ∧
  (∀ j a, (j < i)%nat → l !! j = Some a → p a = false).
Proof.
  revert i. induction l as [|a l IH]; intros i; simpl.
  - split; [done|]. intros [(a & Ha & _) _]. by rewrite lookup_nil in Ha.
  - destruct (p a) eqn:Hp.
    + split.
      * intros [= <-]. split; [by exists a|]. intros j b Hj. lia.
      * intros [_ Hlt]. destruct i as [|i]; [done|].
        specialize (Hlt 0%nat a). simpl in Hlt. rewrite Hlt in Hp; [done|lia|done].
    + destruct i as [|i].
      * split.
        -- by destruct (find_index p l).
        -- intros [(b & [= <-] & Hpb) _]. congruence.
      * rewrite fmap_Some. split.
        -- intros (k & Hk%IH & [= ->]). destruct Hk as [(b & Hb & Hpb) Hlt].
           split; [by exists b|]. intros [|j] c Hj Hc; simpl in Hc; [congruence|].
           eapply Hlt; [|done]. lia.
        -- intros [(b & Hb & Hpb) Hlt]. exists i. split; [|done]. apply IH. split; [by exists b|].
           intros j c Hj Hc. apply (Hlt (S j)); [lia|done].
Qed.

Lemma find_index_None l : find_index p l = None ↔ Forall (λ a, p a = false) l.
Proof.
  induction l as [|a l IH]; simpl; [by split; [constructor|]|].
  rewrite Forall_cons, <-IH. destruct (p a); [naive_solver|].
  destruct (find_index p l); naive_solver.
Qed.

Lemma find_index_lookup l i :
  find_index p l = Some i → ∃ a, l !! i = Some a ∧ p a = true.
Proof. intros H. by apply find_index_Some in H as [? _]. Qed.

Lemma find_index_is_Some l : is_Some (find_index p l) ↔ Exists (λ a, p a = true) l.
Proof.
  induction l as [|a l IH]; simpl.
  - split; [by intros []|by inversion 1].
  - rewrite Exists_cons, <-IH. destruct (p a) eqn:Hp.
    + split; [by left|by intros _; eexists].
    + rewrite fmap_is_Some. naive_solver.
Qed.

Lemma find_index_app l1 l2 :
  find_index p (l1 ++ l2) =
  match find_index p l1 with
  | Some i => Some i
  | None => Nat.add (length l1) <$> find_index p l2
  end.
Proof.
  induction l1 as [|a l1 IH]; simpl.
  - by destruct (find_index p l2).
  - destruct (p a); [done|]. rewrite IH.
    destruct (find_index p l1), (find_index p l2); done.
Qed.
End find_index.

Lemma find_index_ext {A} (p q : A → bool) l :
  (∀ a, a ∈ l → p a = q a) → find_index p l = find_index q l.
Proof.
  induction l as [|a l IH]; intros H; simpl; [done|].
  rewrite (H a) by apply list_elem_of_here.
  rewrite IH; [done|]. intros b Hb. apply H. by apply list_elem_of_further.
Qed.

Lemma find_index_fmap {A B} (f : A → B) (p : B → bool) l :
  find_index p (f <$> l) = find_index (λ a, p (f a)) l.
Proof. induction l as [|a l IH]; csimpl; [done|]. by rewrite IH. Qed.

(** ** Filters *)
Section filter.
Context {A : Type}.
Implicit Types (P Q : A → Prop).

Lemma filter_ext P Q `{!∀ x, Decision (P x), !∀ x, Decision (Q x)} (l : list A) :
  (∀ x, x ∈ l → P x ↔ Q x) → filter P l = filter Q l.
Proof.
  induction l as [|a l IH]; intros HPQ; [done|]. rewrite !filter_cons.
  rewrite IH by (intros x Hx; apply HPQ; by apply list_elem_of_further).
  pose proof (HPQ a (list_elem_of_here a l)). destruct (decide (P a)), (decide (Q a)); tauto.
Qed.

Lemma filter_all P `{!∀ x, Decision (P x)} (l : list A) : Forall P l → filter P l = l.
Proof. induction 1; [done|]. rewrite filter_cons, decide_True by done. by f_equal. Qed.

Lemma filter_fmap {C} (f : C → A) P `{!∀ x, Decision (P x)} (l : list C) :
  filter P (f <$> l) = f <$> filter (λ x, P (f x)) l.
Proof.
  induction l as [|a l IH]; [done|]. rewrite fmap_cons, !filter_cons, IH. by case_decide.
Qed.
End filter.

(** ** Machine integers

    Zig integers are kept as [Z] with their width; [+], [-] on a runtime integer trap on
    overflow in the safety-checked build modes, which the model renders as [Panic]. *)
Definition u32_max : Z := 4294967295.
Definition u64_max : Z := 18446744073709551615.
Definition i64_min : Z := -9223372036854775808.
Definition i64_max : Z := 9223372036854775807.

Definition is_u32 (z : Z) : Prop := 0 ≤ z ≤ u32_max.
Definition is_u64 (z : Z) : Prop := 0 ≤ z ≤ u64_max.
Definition is_i64 (z : Z) : Prop := i64_min ≤ z ≤ i64_max.

#[global] Instance is_u32_dec z : Decision (is_u32 z) := ltac:(unfold is_u32; apply _).
#[global] Instance is_u64_dec z : Decision (is_u64 z) := ltac:(unfold is_u64; apply _).
#[global] Instance is_i64_dec z : Decision (is_i64 z) := ltac:(unfold is_i64; apply _).

Definition checked_u64 (z : Z) : Result Z := if decide (is_u64 z) then Ok z else Panic.
Definition checked_i64 (z : Z) : Result Z := if decide (is_i64 z) then Ok z else Panic.

Lemma checked_u64_ok z r : checked_u64 z = Ok r ↔ is_u64 z ∧ r = z.
Proof. unfold checked_u64. case_decide; naive_solver. Qed.

Lemma checked_u64_in z : is_u64 z → checked_u64 z = Ok z.
Proof. intros. by apply checked_u64_ok. Qed.

Lemma checked_i64_ok z r : checked_i64 z = Ok r ↔ is_i64 z ∧ r = z.
Proof. unfold checked_i64. case_decide; naive_solver. Qed.

(** ** Bytes *)
Abbreviation byte := Byte.byte.
Abbreviation bytes := (list byte).

#[global] Instance byte_eq_dec : EqDecision byte := Byte.byte_eq_dec.

(** A source string literal. *)
Definition B (s : string) : bytes := String.list_byte_of_string s.

Definition byte_val (b : byte) : Z := Z.of_N (Byte.to_N b).

(** [@intCast(z & 0xff)] *)
Definition byte_of (z : Z) : byte := default Byte.x00 (Byte.of_N (Z.to_N (z mod 256))).

Lemma byte_val_range b : 0 ≤ byte_val b < 256.
Proof. unfold byte_val. pose proof (Byte.to_N_bounded b). lia. Qed.

Lemma byte_val_inj a b : byte_val a = byte_val b → a = b.
Proof.
  unfold byte_val. intros H%N2Z.inj.
  pose proof (Byte.of_to_N a) as Ha. rewrite H, Byte.of_to_N in Ha. by injection Ha.
Qed.

Lemma byte_of_val z : byte_val (byte_of z) = z mod 256.
Proof.
  unfold byte_val, byte_of.
  pose proof (Z.mod_pos_bound z 256 ltac:(lia)) as Hz.
  destruct (Byte.of_N (Z.to_N (z mod 256))) as [b|] eqn:Hb; simpl.
  - apply Byte.to_of_N in Hb. rewrite Hb. lia.
  - apply Byte.of_N_None_iff in Hb. lia.
Qed.

Lemma byte_of_byte_val b : byte_of (byte_val b) = b.
Proof.
  apply byte_val_inj. rewrite byte_of_val.
  apply Z.mod_small, byte_val_range.
Qed.

(** ** [std.ascii] *)
Definition isUpper (c : byte) : bool := (65 <=? byte_val c) && (byte_val c <=? 90).
Definition isLower (c : byte) : bool := (97 <=? byte_val c) && (byte_val c <=? 122).
Definition isAlphabetic (c : byte) : bool := isUpper c || isLower c.
Definition isDigit (c : byte) : bool := (48 <=? byte_val c) && (byte_val c <=? 57).
Definition isAlphanumeric (c : byte) : bool := isAlphabetic c || isDigit c.

(** space, tab, newline, vertical tab, form feed, carriage return *)
Definition isWhitespace (c : byte) : bool :=
  (byte_val c =? 32) || ((9 <=? byte_val c) && (byte_val c <=? 13)).

Definition toLower (c : byte) : byte := if isUpper c then byte_of (byte_val c + 32) else c.

Definition lower (s : bytes) : bytes := toLower <$> s.

Fixpoint eqlIgnoreCase (a b : bytes) : bool :=
  match a, b with
  | [], [] => true
  | x :: a', y :: b' => bool_decide (toLower x = toLower y) && eqlIgnoreCase a' b'
  | _, _ => false
  end.

Lemma eqlIgnoreCase_spec a b : eqlIgnoreCase a b = true ↔ lower a = lower b.
Proof.
  revert b. induction a as [|x a IH]; intros [|y b]; simpl; try done.
  rewrite andb_true_iff, bool_decide_eq_true, IH.
  unfold lower. simpl. split; [intros [-> ->]; done | intros [= -> ->]; done].
Qed.

Lemma eqlIgnoreCase_false a b : eqlIgnoreCase a b = false ↔ lower a ≠ lower b.
Proof. rewrite <-eqlIgnoreCase_spec. by destruct (eqlIgnoreCase a b). Qed.

Lemma eqlIgnoreCase_refl a : eqlIgnoreCase a a = true.
Proof. by apply eqlIgnoreCase_spec. Qed.

Lemma eqlIgnoreCase_sym a b : eqlIgnoreCase a b = eqlIgnoreCase b a.
Proof.
  destruct (eqlIgnoreCase b a) eqn:H.
  - apply eqlIgnoreCase_spec. by apply eqlIgnoreCase_spec in H.
  - apply eqlIgnoreCase_false. apply eqlIgnoreCase_false in H. congruence.
Qed.

(** Object names are compared up to ASCII case. *)
Definition same_name (a b : bytes) : Prop := eqlIgnoreCase a b = true.

#[global] Instance same_name_equiv : Equivalence same_name.
Proof.
  unfold same_name. split.
  - intros a. apply eqlIgnoreCase_refl.
  - intros a b H. by rewrite eqlIgnoreCase_sym.
  - intros a b c H1 H2. rewrite eqlIgnoreCase_spec in *. congruence.
Qed.

#[global] Instance eqlIgnoreCase_proper :
  Proper (same_name ==> same_name ==> eq) eqlIgnoreCase.
Proof.
  intros a a' Ha b b' Hb. unfold same_name in *. rewrite eqlIgnoreCase_spec in *.
  destruct (eqlIgnoreCase a' b') eqn:H.
  - apply eqlIgnoreCase_spec. apply eqlIgnoreCase_spec in H. congruence.
  - apply eqlIgnoreCase_false. apply eqlIgnoreCase_false in H. congruence.
Qed.

(** ** Hint databases *)
Create HintDb shoveler.
#[export] Hint Resolve byte_val_range eqlIgnoreCase_refl : shoveler.
#[export] Hint Rewrite byte_of_val byte_of_byte_val : shoveler.
