(* ===== verification/Float.v ===== *)
(** * IEEE-754 floats

    [f64] and [f32] runtime values are kept as their bit patterns (a [Z] below [2^64], resp.
    [2^32]), which is what [@bitCast] exposes to the persistence layer; arithmetic goes through
    the Standard Library's executable [spec_float] operations at the two formats.  A NaN result
    is given the canonical quiet pattern. *)

From Stdlib Require Import SpecFloat.
From S2P Require Import Prelude.

(** A binary interchange format: [mw] mantissa bits, [ew] exponent bits. *)
Record format := Format { mw : Z; ew : Z }.
Definition binary64 : format := Format 52 11.
Definition binary32 : format := Format 23 8.

Definition prec (f : format) : Z := mw f + 1.
Definition emax (f : format) : Z := 2 ^ (ew f - 1).
Definition fmin (f : format) : Z := emin (prec f) (emax f).

Definition decode_float (f : format) (x : Z) : spec_float :=
  let s := Z.testbit x (mw f + ew f) in
  let e := Z.shiftr x (mw f) mod 2 ^ ew f in
  let m := x mod 2 ^ mw f in
  if e =? 2 ^ ew f - 1 then (if m =? 0 then S754_infinity s else S754_nan)
  else if e =? 0 then
    match m with Z.pos p => S754_finite s p (fmin f) | _ => S754_zero s end
  else
    match m + 2 ^ mw f with
    | Z.pos p => S754_finite s p (e + fmin f - 1)
    | _ => S754_nan
    end.

Definition assemble (f : format) (s : bool) (e m : Z) : Z :=
  Z.b2z s * 2 ^ (mw f + ew f) + e * 2 ^ mw f + m.

Definition encode_float (f : format) (x : spec_float) : Z :=
  match x with
  | S754_zero s => assemble f s 0 0
  | S754_infinity s => assemble f s (2 ^ ew f - 1) 0
  | S754_nan => assemble f false (2 ^ ew f - 1) (2 ^ (mw f - 1))
  | S754_finite s m e =>
      if Z.pos m <? 2 ^ mw f then assemble f s 0 (Z.pos m)
      else assemble f s (e - fmin f + 1) (Z.pos m - 2 ^ mw f)
  end.

Definition is_nan (f : format) (x : Z) : bool :=
  match decode_float f x with S754_nan => true | _ => false end.

Definition f64_binop (op : spec_float → spec_float → spec_float) (x y : Z) : Z :=
  encode_float binary64 (op (decode_float binary64 x) (decode_float binary64 y)).

Definition f64_add : Z → Z → Z := f64_binop (SFadd 53 1024).
Definition f64_sub : Z → Z → Z := f64_binop (SFsub 53 1024).
Definition f64_mul : Z → Z → Z := f64_binop (SFmul 53 1024).
Definition f64_div : Z → Z → Z := f64_binop (SFdiv 53 1024).
Definition f64_sqrt (x : Z) : Z :=
  encode_float binary64 (SFsqrt 53 1024 (decode_float binary64 x)).

Definition f64_lt (x y : Z) : bool :=
  match SFcompare (decode_float binary64 x) (decode_float binary64 y) with
  | Some Lt => true | _ => false end.
Definition f64_gt (x y : Z) : bool := f64_lt y x.
Definition f64_eq (x y : Z) : bool :=
  match SFcompare (decode_float binary64 x) (decode_float binary64 y) with
  | Some Eq => true | _ => false end.

Definition f64_zero : Z := 0.
Definition f64_one : Z := encode_float binary64 (binary_normalize 53 1024 1 0 false).

(** [@floatFromInt] *)
Definition f64_of_int (z : Z) : Z := encode_float binary64 (binary_normalize 53 1024 z 0 false).

Definition renormalize (f : format) (x : spec_float) : spec_float :=
  match x with
  | S754_finite s m e => binary_normalize (prec f) (emax f) (cond_Zopp s (Z.pos m)) e s
  | _ => x
  end.

(** [@as(f64, x)] on an [f32] and [@floatCast] the other way. *)
Definition f64_of_f32 (x : Z) : Z := encode_float binary64 (renormalize binary64 (decode_float binary32 x)).
Definition f32_of_f64 (x : Z) : Z := encode_float binary32 (renormalize binary32 (decode_float binary64 x)).

(** ** The comparison order

    [SFcompare] compares lexicographically, so it is a strict weak order on the non-NaN values. *)
Definition sf_nan (x : spec_float) : bool := match x with S754_nan => true | _ => false end.

(** An order embedding of the non-NaN [spec_float]s into integer triples. *)
Definition sf_rank (x : spec_float) : Z * Z * Z :=
  match x with
  | S754_zero _ | S754_nan => (0, 0, 0)
  | S754_infinity true => (-2, 0, 0)
  | S754_infinity false => (2, 0, 0)
  | S754_finite true m e => (-1, - e, Z.neg m)
  | S754_finite false m e => (1, e, Z.pos m)
  end.

Definition lex3 (a b : Z * Z * Z) : Prop :=
  a.1.1 < b.1.1 ∨ (a.1.1 = b.1.1 ∧ (a.1.2 < b.1.2 ∨ (a.1.2 = b.1.2 ∧ a.2 < b.2))).

Lemma SFcompare_rank x y :
  sf_nan x = false → sf_nan y = false →
  match SFcompare x y with
  | Some Lt => lex3 (sf_rank x) (sf_rank y)
  | Some Gt => lex3 (sf_rank y) (sf_rank x)
  | Some Eq => sf_rank x = sf_rank y
  | None => False
  end.
Proof.
  unfold lex3. destruct x as [sx|[]| |[] mx ex], y as [sy|[]| |[] my ey]; simpl;
    try discriminate; intros _ _; try lia; try done.
  - destruct (Z.compare_spec ex ey) as [->| |]; simpl; try lia.
    change (PosDef.Pos.compare_cont Eq mx my) with (Pos.compare mx my).
    destruct (Pos.compare_spec mx my); subst; simpl; lia || done.
  - destruct (Z.compare_spec ex ey) as [->| |]; simpl; try lia.
    change (PosDef.Pos.compare_cont Eq mx my) with (Pos.compare mx my).
    destruct (Pos.compare_spec mx my); subst; simpl; lia || done.
Qed.

Definition f64_rank (x : Z) : Z * Z * Z := sf_rank (decode_float binary64 x).

Lemma f64_lt_rank x y :
  is_nan binary64 x = false → is_nan binary64 y = false →
  f64_lt x y = true ↔ lex3 (f64_rank x) (f64_rank y).
Proof.
  unfold is_nan, f64_lt, f64_rank. intros Hx Hy.
  pose proof (SFcompare_rank (decode_float binary64 x) (decode_float binary64 y)) as H.
  specialize (H ltac:(by destruct decode_float) ltac:(by destruct decode_float)).
  destruct (SFcompare _ _) as [[]|]; split; try done.
  - rewrite H. unfold lex3. lia.
  - revert H. unfold lex3. lia.
Qed.

Lemma decode_float_range_sign f x :
  0 ≤ mw f → 0 ≤ ew f → 0 ≤ x < 2 ^ (mw f + ew f + 1) →
  x = assemble f (Z.testbit x (mw f + ew f)) (Z.shiftr x (mw f) mod 2 ^ ew f) (x mod 2 ^ mw f).
Proof.
  intros Hm He Hx. unfold assemble.
  rewrite Z.shiftr_div_pow2 by lia.
  assert (Hb : Z.b2z (Z.testbit x (mw f + ew f)) = x / 2 ^ (mw f + ew f)).
  { rewrite Z.testbit_spec' by lia. apply Z.mod_small. split; [apply Z.div_pos; lia|].
    apply Z.div_lt_upper_bound; [lia|]. rewrite (Z.add_comm _ 1), Z.pow_add_r in Hx by lia. lia. }
  rewrite Hb, Z.pow_add_r by lia. rewrite <-Z.div_div by lia.
  pose proof (Z.div_mod x (2 ^ mw f) ltac:(lia)).
  pose proof (Z.div_mod (x / 2 ^ mw f) (2 ^ ew f) ltac:(lia)). lia.
Qed.

(** Decoding then encoding gives the bit pattern back, except for NaN payloads. *)
Lemma encode_decode_float f x :
  0 < mw f → 0 < ew f → 0 ≤ x < 2 ^ (mw f + ew f + 1) → is_nan f x = false →
  encode_float f (decode_float f x) = x.
Proof.
  intros Hm He Hx Hn. rewrite (decode_float_range_sign f x) at 2 by lia.
  unfold is_nan, decode_float in *.
  set (s := Z.testbit x (mw f + ew f)) in *.
  set (e := Z.shiftr x (mw f) mod 2 ^ ew f) in *.
  pose proof (Z.mod_pos_bound x (2 ^ mw f) ltac:(lia)) as Hmb.
  set (m := x mod 2 ^ mw f) in *.
  clearbody s e m.
  destruct (Z.eqb_spec e (2 ^ ew f - 1)) as [->|].
  - destruct (Z.eqb_spec m 0) as [Hm0|]; [by rewrite Hm0|done].
  - destruct (Z.eqb_spec e 0) as [->|].
    + destruct m as [|p|p] eqn:Hp; simpl; [done| |lia].
      destruct (Z.ltb_spec (Z.pos p) (2 ^ mw f)); [done|lia].
    + destruct (m + 2 ^ mw f) as [|p|p] eqn:Hp; simpl; try lia.
      destruct (Z.ltb_spec (Z.pos p) (2 ^ mw f)); [lia|].
      f_equal; lia.
Qed.
