(* ===== verification/FloatExact.v ===== *)
(** * Widening and narrowing floats

    An [f32] taken to [f64] and back is the [f32] it was: the conversions of [Float] round to nearest even at either format,
    and between two formats of which one contains the other there is nothing to round.  Procedure variables that hold
    vectors are written into statements that way ([Substitution]). *)

From Stdlib Require Import SpecFloat.
From S2P Require Import Prelude Float.

(** ** Shifts *)

(** [m * 2 ^ k] *)
Fixpoint shl (m : positive) (k : nat) : positive := match k with O => m | S k' => xO (shl m k') end.

Lemma shl_iter m p : Pos.iter xO m p = shl m (Pos.to_nat p).
Proof. rewrite Pos2Nat.inj_iter. induction (Pos.to_nat p) as [|n IH]; [done|]. cbn. by rewrite IH. Qed.

Lemma digits_shl m k : Z.pos (digits2_pos (shl m k)) = Z.pos (digits2_pos m) + Z.of_nat k.
Proof. induction k as [|k IH]; [cbn; lia|]. cbn [shl digits2_pos]. rewrite Pos2Z.inj_succ. lia. Qed.

Lemma digits_bounds m : 2 ^ (Z.pos (digits2_pos m) - 1) ≤ Z.pos m < 2 ^ Z.pos (digits2_pos m).
Proof.
  assert (Hs : ∀ d : positive, 2 ^ (Z.pos (Pos.succ d) - 1) = 2 * 2 ^ (Z.pos d - 1) ∧ 2 ^ Z.pos (Pos.succ d) = 2 * 2 ^ Z.pos d).
  { intros d. rewrite Pos2Z.inj_succ, <- !Z.pow_succ_r by lia. split; f_equal; lia. }
  induction m as [m IH|m IH|]; cbn [digits2_pos]; [destruct (Hs (digits2_pos m)) as [-> ->]; lia..|cbn; lia].
Qed.

Lemma digits_le m n : 0 ≤ n → Z.pos m < 2 ^ n → Z.pos (digits2_pos m) ≤ n.
Proof.
  intros Hn H. destruct (digits_bounds m) as [Hd _]. apply Z.lt_pred_le, (Z.pow_lt_mono_r_iff 2); [lia|lia|].
  replace (Z.pred (Z.pos (digits2_pos m))) with (Z.pos (digits2_pos m) - 1) by lia. lia.
Qed.

Lemma digits_gt m n : 0 ≤ n → 2 ^ n ≤ Z.pos m → n < Z.pos (digits2_pos m).
Proof. intros Hn H. destruct (digits_bounds m) as [_ Hd]. apply (Z.pow_lt_mono_r_iff 2); lia. Qed.

Lemma iter_pos_nat {A} (f : A → A) (p : positive) (x : A) : SpecFloat.iter_pos f p x = Nat.iter (Pos.to_nat p) f x.
Proof.
  revert x. induction p as [p IH|p IH|]; intros x; cbn [SpecFloat.iter_pos]; [| |done].
  - rewrite !IH, Pos2Nat.inj_xI, <- Nat.iter_add, <- Nat.iter_succ_r. f_equal. lia.
  - rewrite !IH, Pos2Nat.inj_xO, <- Nat.iter_add. f_equal. lia.
Qed.

(** Shifting back what was shifted in loses nothing. *)
Lemma shr_shl m k : Nat.iter k shr_1 (Build_shr_record (Z.pos (shl m k)) false false) = Build_shr_record (Z.pos m) false false.
Proof. induction k as [|k IH]; [done|]. rewrite Nat.iter_succ_r. exact IH. Qed.

(** ** Rounding what needs none *)
Section format.
Context (prec emax : Z).

Local Notation canonical m e := (fexp prec emax (Z.pos (digits2_pos m) + e%Z) = e%Z).

Lemma round_aux_canonical s m e :
  canonical m e → e ≤ emax - prec → binary_round_aux prec emax s (Z.pos m) e loc_Exact = S754_finite s m e.
Proof.
  intros Hc He. unfold binary_round_aux, shr_fexp. cbn [Zdigits2]. rewrite Hc, Z.sub_diag. cbn [shr shr_record_of_loc shr_m loc_of_shr_record round_nearest_even Zdigits2].
  rewrite Hc, Z.sub_diag. cbn [shr shr_m shr_record_of_loc]. by rewrite (proj2 (Z.leb_le _ _) He).
Qed.

(** More digits than the value has. *)
Lemma round_widens s m e k :
  fexp prec emax (Z.pos (digits2_pos m) + e) = e - Z.of_nat k → e - Z.of_nat k ≤ emax - prec →
  binary_round prec emax s m e = S754_finite s (shl m k) (e - Z.of_nat k).
Proof.
  intros Hf He. unfold binary_round, shl_align. rewrite Hf.
  assert (E : match e - Z.of_nat k - e with Z.neg d => (Pos.iter xO m d, e - Z.of_nat k) | _ => (m, e) end = (shl m k, e - Z.of_nat k)).
  { destruct k as [|k]; [by replace (e - Z.of_nat 0 - e) with 0 by lia; rewrite Z.sub_0_r|].
    replace (e - Z.of_nat (S k) - e) with (Z.neg (Pos.of_succ_nat k)) by lia. by rewrite shl_iter, SuccNat2Pos.id_succ. }
  rewrite E. apply round_aux_canonical; [|done]. rewrite digits_shl.
  by replace (Z.pos (digits2_pos m) + Z.of_nat k + (e - Z.of_nat k)) with (Z.pos (digits2_pos m) + e) by lia.
Qed.

(** Trailing zeros. *)
Lemma round_narrows s m e k :
  canonical m e → e ≤ emax - prec → binary_round prec emax s (shl m k) (e - Z.of_nat k) = S754_finite s m e.
Proof.
  intros Hc He.
  assert (Hd : fexp prec emax (Z.pos (digits2_pos (shl m k)) + (e - Z.of_nat k)) = e).
  { rewrite digits_shl. by replace (Z.pos (digits2_pos m) + Z.of_nat k + (e - Z.of_nat k)) with (Z.pos (digits2_pos m) + e) by lia. }
  assert (Hleft : shl_align (shl m k) (e - Z.of_nat k) e = (shl m k, e - Z.of_nat k)).
  { unfold shl_align. replace (e - (e - Z.of_nat k)) with (Z.of_nat k) by lia. by destruct k. }
  assert (Hright : shr_fexp prec emax (Z.pos (shl m k)) (e - Z.of_nat k) loc_Exact = (Build_shr_record (Z.pos m) false false, e)).
  { unfold shr_fexp, Zdigits2. rewrite Hd. replace (e - (e - Z.of_nat k)) with (Z.of_nat k) by lia. unfold shr_record_of_loc, shr.
    destruct k as [|k]; [f_equal; lia|].
    change (Z.of_nat (S k)) with (Z.pos (Pos.of_succ_nat k)). cbv iota beta. rewrite iter_pos_nat, SuccNat2Pos.id_succ, shr_shl. f_equal. lia. }
  unfold binary_round. rewrite Hd, Hleft. unfold binary_round_aux. rewrite Hright. cbn [loc_of_shr_record shr_m round_nearest_even].
  unfold shr_fexp, Zdigits2. rewrite Hc, Z.sub_diag. cbn [shr shr_m shr_record_of_loc]. by rewrite (proj2 (Z.leb_le _ _) He).
Qed.
End format.

(** ** Fields *)
Lemma assemble_fields f s e m :
  0 < mw f → 0 < ew f → 0 ≤ e < 2 ^ ew f → 0 ≤ m < 2 ^ mw f →
  Z.testbit (assemble f s e m) (mw f + ew f) = s ∧ Z.shiftr (assemble f s e m) (mw f) mod 2 ^ ew f = e ∧ assemble f s e m mod 2 ^ mw f = m.
Proof.
  intros Hm He Hem Hmm. unfold assemble.
  assert (Hp : 2 ^ (mw f + ew f) = 2 ^ ew f * 2 ^ mw f) by (rewrite Z.pow_add_r by lia; lia). rewrite Hp.
  assert (Hx : Z.b2z s * (2 ^ ew f * 2 ^ mw f) + e * 2 ^ mw f + m = (Z.b2z s * 2 ^ ew f + e) * 2 ^ mw f + m) by lia. rewrite Hx.
  split_and!.
  - apply Z.b2z_inj. rewrite Z.testbit_spec', Z.pow_add_r, <- Z.div_div by lia. rewrite Z.div_add_l, (Z.div_small m), Z.add_0_r by lia.
    rewrite Z.div_add_l, (Z.div_small e), Z.add_0_r by lia. by destruct s.
  - rewrite Z.shiftr_div_pow2, Z.div_add_l, (Z.div_small m), Z.add_0_r by lia. rewrite Z.add_comm, Z.mod_add, Z.mod_small; lia.
  - rewrite Z.add_comm, Z.mod_add, Z.mod_small; lia.
Qed.

(** A number of the format: subnormal, or with the leading digit. *)
Definition representable (f : format) (m : positive) (e : Z) : Prop :=
  (Z.pos m < 2 ^ mw f ∧ e = fmin f) ∨ (2 ^ mw f ≤ Z.pos m < 2 ^ (mw f + 1) ∧ fmin f ≤ e ≤ fmin f + 2 ^ ew f - 3).

Lemma decode_encode_finite f s m e :
  0 < mw f → 1 < ew f → representable f m e → decode_float f (encode_float f (S754_finite s m e)) = S754_finite s m e.
Proof.
  intros Hm He Hr. assert (H2 : 4 ≤ 2 ^ ew f) by (change 4 with (2 ^ 2); apply Z.pow_le_mono_r; lia).
  unfold encode_float. destruct Hr as [[Hlt ->]|[Hge Hb]].
  - rewrite (proj2 (Z.ltb_lt _ _) Hlt). unfold decode_float.
    destruct (assemble_fields f s 0 (Z.pos m)) as (-> & -> & ->); [lia..|]. rewrite (proj2 (Z.eqb_neq _ _)) by lia. by rewrite Z.eqb_refl.
  - rewrite (proj2 (Z.ltb_ge _ _)) by lia. unfold decode_float. rewrite Z.pow_add_r, Z.pow_1_r in Hge by lia.
    destruct (assemble_fields f s (e - fmin f + 1) (Z.pos m - 2 ^ mw f)) as (-> & -> & ->); [lia..|].
    rewrite !(proj2 (Z.eqb_neq _ _)) by lia. replace (Z.pos m - 2 ^ mw f + 2 ^ mw f) with (Z.pos m) by lia. f_equal. lia.
Qed.

(** ** From [f32] to [f64] and back *)

(** What a pattern of 32 bits decodes to. *)
Lemma decode32_finite x s m e :
  0 ≤ x < 2 ^ 32 → decode_float binary32 x = S754_finite s m e →
  Z.pos m < 2 ^ 24 ∧ -149 ≤ e ≤ 104 ∧ fexp 24 128 (Z.pos (digits2_pos m) + e) = e.
Proof.
  intros Hx. unfold decode_float. cbn [mw ew binary32]. change (fmin binary32) with (-149).
  pose proof (Z.mod_pos_bound x (2 ^ 23) ltac:(lia)) as Hm. pose proof (Z.mod_pos_bound (Z.shiftr x 23) (2 ^ 8) ltac:(lia)) as Hb.
  set (b := Z.shiftr x 23 mod 2 ^ 8) in *. set (k := x mod 2 ^ 23) in *. clearbody b k.
  destruct (Z.eqb_spec b (2 ^ 8 - 1)); [by destruct (k =? 0)|]. unfold fexp, emin. destruct (Z.eqb_spec b 0) as [->|].
  - destruct k as [|p|p]; [done| |lia]. intros [= _ <- <-]. pose proof (digits_le p 23 ltac:(lia) ltac:(lia)). lia.
  - destruct (k + 2 ^ 23) as [|p|p] eqn:Hp; [done| |done]. intros [= _ <- <-].
    pose proof (digits_le p 24 ltac:(lia) ltac:(lia)). pose proof (digits_gt p 23 ltac:(lia) ltac:(lia)). lia.
Qed.

Lemma renormalize_round f s m e : renormalize f (S754_finite s m e) = binary_round (prec f) (emax f) s m e.
Proof. by destruct s. Qed.

(** Every [f32] but a NaN survives. *)
Theorem f32_f64_f32 (x : Z) : 0 ≤ x < 2 ^ 32 → is_nan binary32 x = false → f32_of_f64 (f64_of_f32 x) = x.
Proof.
  intros Hx Hn. unfold f32_of_f64, f64_of_f32.
  enough (E : renormalize binary32 (decode_float binary64 (encode_float binary64 (renormalize binary64 (decode_float binary32 x)))) =
              decode_float binary32 x) by (rewrite E; apply encode_decode_float; (done || cbn; lia)).
  unfold is_nan in Hn. destruct (decode_float binary32 x) as [s|s| |s m e] eqn:Ed; [by destruct s|by destruct s|done|].
  destruct (decode32_finite x s m e Hx Ed) as (Hm & He & Hc). pose proof (digits_le m 24 ltac:(lia) Hm) as Hd.
  set (k := Z.to_nat (53 - Z.pos (digits2_pos m))). assert (Hk : Z.of_nat k = 53 - Z.pos (digits2_pos m)) by (unfold k; lia).
  clearbody k. rewrite (renormalize_round binary64). change (prec binary64) with 53. change (emax binary64) with 1024.
  rewrite (round_widens 53 1024 s m e k) by (unfold fexp, emin; lia).
  rewrite (decode_encode_finite binary64 s (shl m k)); [|done|done|right; change (fmin binary64) with (-1074); cbn [mw ew binary64]; split].
  - rewrite renormalize_round. change (prec binary32) with 24. change (emax binary32) with 128. apply round_narrows; [exact Hc|lia].
  - pose proof (digits_bounds (shl m k)) as Hb. rewrite digits_shl, Hk in Hb.
    replace (Z.pos (digits2_pos m) + (53 - Z.pos (digits2_pos m))) with 53 in Hb by lia. exact Hb.
  - rewrite Hk. change (2 ^ 11) with 2048. lia.
Qed.
