(* ===== verification/Value.v ===== *)
(** * Runtime values (src/db/value.zig)

    [Value] is the tagged union of SQL runtime values; a [Vector] carries its dimension next to
    the element slice.  Cloning re-validates vectors, as the source does. *)

From S2P Require Import Prelude Float.

Inductive VectorElementType := float32.

#[global] Instance VectorElementType_eq_dec : EqDecision VectorElementType.
Proof. solve_decision. Defined.

Module Vector.
Record t := mk {
  element_type : VectorElementType;
  dimension : Z;
  values : list Z;
}.

Definition init (et : VectorElementType) (dim : Z) (vals : list Z) : Result t :=
  _ ← fail_if (dim =? 0) InvalidVectorDimension;
  _ ← fail_if (negb (Z.of_nat (length vals) =? dim)) VectorDimensionMismatch;
  Ok (mk et dim vals).

Definition clone (self : t) : Result t :=
  init (element_type self) (dimension self) (values self).

(** What [init] establishes. *)
Definition wf (v : t) : Prop :=
  0 < dimension v ∧ dimension v = Z.of_nat (length (values v)) ∧
  Forall (λ x, 0 ≤ x < 2 ^ 32) (values v).

Lemma vector_clone_wf v : wf v → clone v = Ok v.
Proof.
  intros (Hpos & Hlen & _). destruct v as [et d vs]; simpl in *.
  unfold clone, init. simpl.
  destruct (Z.eqb_spec d 0); [lia|]. simpl.
  destruct (Z.eqb_spec (Z.of_nat (length vs)) d); [done|lia].
Qed.

Lemma init_ok et d vs v :
  init et d vs = Ok v ↔ d ≠ 0 ∧ Z.of_nat (length vs) = d ∧ v = mk et d vs.
Proof.
  unfold init. destruct (Z.eqb_spec d 0); simpl; [naive_solver|].
  destruct (Z.eqb_spec (Z.of_nat (length vs)) d); simpl; naive_solver.
Qed.

Lemma vector_clone_id v v' : clone v = Ok v' → v' = v.
Proof. intros (_ & _ & ->)%init_ok. by destruct v. Qed.
End Vector.

#[global] Instance Vector_eq_dec : EqDecision Vector.t.
Proof. solve_decision. Defined.

Module Value.
Inductive t :=
  | null
  | integer (v : Z)
  | float (v : Z)
  | boolean (v : bool)
  | text (v : bytes)
  | blob (v : bytes)
  | vector (v : Vector.t).

Definition initText (s : bytes) : t := text s.
Definition initBlob (s : bytes) : t := blob s.
Definition initVector (et : VectorElementType) (dim : Z) (vals : list Z) : Result t :=
  v ← Vector.init et dim vals; Ok (vector v).

Definition clone (self : t) : Result t :=
  match self with
  | null => Ok null
  | integer v => Ok (integer v)
  | float v => Ok (float v)
  | boolean v => Ok (boolean v)
  | text v => Ok (text v)
  | blob v => Ok (blob v)
  | vector v => v' ← Vector.clone v; Ok (vector v')
  end.

(** [deinit] frees the payload and leaves the slot [.null]. *)
Definition deinit (self : t) : t := null.

Definition is_null (v : t) : bool := match v with null => true | _ => false end.

(** Width bounds of the payloads; every constructor function establishes it. *)
Definition wf (v : t) : Prop :=
  match v with
  | integer z => is_i64 z
  | float x => is_u64 x
  | vector v => Vector.wf v
  | _ => True
  end.

Lemma clone_wf v : wf v → clone v = Ok v.
Proof. destruct v; simpl; try done. intros H. by rewrite (Vector.vector_clone_wf _ H). Qed.

Lemma clone_id v v' : clone v = Ok v' → v' = v.
Proof. destruct v; simpl; intros H; inv_ok; try done. by apply Vector.vector_clone_id in Ha as ->. Qed.

Lemma initVector_wf et dim vals v :
  Forall (λ x, 0 ≤ x < 2 ^ 32) vals → initVector et dim vals = Ok v → wf v.
Proof.
  unfold initVector. intros Hv H. inv_ok. apply Vector.init_ok in Ha as (? & ? & ->).
  simpl. unfold Vector.wf. simpl. split_and!; [lia|done|done].
Qed.
End Value.

#[global] Instance Value_eq_dec : EqDecision Value.t.
Proof. solve_decision. Defined.

Inductive ValueDiagnosticKind :=
  | value_type_mismatch | value_vector_dimension_mismatch | value_invalid_vector_dimension.

Definition value_diagnosticFromError (err : Error) : option ValueDiagnosticKind :=
  match err with
  | TypeMismatch => Some value_type_mismatch
  | VectorDimensionMismatch => Some value_vector_dimension_mismatch
  | InvalidVectorDimension => Some value_invalid_vector_dimension
  | _ => None
  end.

#[export] Hint Resolve Value.clone_wf Vector.vector_clone_wf : shoveler.

(** Cloning a slice of values. *)
Definition cloneValues (vs : list Value.t) : Result (list Value.t) := mapR Value.clone vs.

Lemma cloneValues_wf vs : Forall Value.wf vs → cloneValues vs = Ok vs.
Proof.
  intros H. unfold cloneValues. rewrite <-(list_fmap_id vs) at 1. apply mapR_id.
  eapply Forall_impl; [done|]. intros. by apply Value.clone_wf.
Qed.

Lemma cloneValues_id vs vs' : cloneValues vs = Ok vs' → vs' = vs.
Proof.
  unfold cloneValues. rewrite mapR_ok_inv.
  induction 1 as [|v v' vs vs' H _ IH]; [done|]. apply Value.clone_id in H as ->. by rewrite IH.
Qed.
