(* ===== verification/Catalog.v ===== *)
(** * Catalog (src/db/catalog.zig, src/db/ddl.zig)

    Column, index and table metadata, and the database catalog of tables, views and procedures
    that share one case-insensitive name space.  [TableDef.init] validates a specification and
    builds the definition; [cloneTableDef] (src/db/snapshot.zig, src/db/executor.zig) rebuilds a
    definition from itself, which is what snapshots, exports and reopening rely on. *)

From S2P Require Import Prelude Float Value.

(** ** src/db/ddl.zig *)
Inductive IndexKind := primary | secondary.

#[global] Instance IndexKind_eq_dec : EqDecision IndexKind.
Proof. solve_decision. Defined.

Definition primary_index_name : bytes := B "PRIMARY".

Definition namesEqual (a b : bytes) : bool := eqlIgnoreCase a b.

Inductive CatalogDiagnosticKind :=
  | cat_duplicate_column | cat_duplicate_object | cat_unknown_object | cat_name_conflict
  | cat_type_mismatch | cat_vector_dimension_mismatch | cat_invalid_vector_dimension.

Definition catalog_diagnosticFromError (err : Error) : option CatalogDiagnosticKind :=
  match err with
  | DuplicateColumn => Some cat_duplicate_column
  | DuplicateObject => Some cat_duplicate_object
  | UnknownObject => Some cat_unknown_object
  | NameConflict => Some cat_name_conflict
  | TypeMismatch => Some cat_type_mismatch
  | VectorDimensionMismatch => Some cat_vector_dimension_mismatch
  | InvalidVectorDimension => Some cat_invalid_vector_dimension
  | _ => None
  end.

(** ** Column types *)
Module VectorType.
Record t := mk { element_type : VectorElementType; dimension : Z }.
Definition validate (self : t) : Result () := fail_if (dimension self =? 0) InvalidVectorDimension.
End VectorType.

Module ColumnType.
Inductive t := integer | float | boolean | text | blob | vector (v : VectorType.t).

Definition is_integer (c : t) : bool := match c with integer => true | _ => false end.

Definition validate (self : t) : Result () :=
  match self with vector vt => VectorType.validate vt | _ => Ok () end.

Definition acceptsValue (self : t) (v : Value.t) : Result () :=
  match self with
  | integer => match v with Value.integer _ => Ok () | _ => Err TypeMismatch end
  | float => match v with Value.float _ => Ok () | _ => Err TypeMismatch end
  | boolean => match v with Value.boolean _ => Ok () | _ => Err TypeMismatch end
  | text => match v with Value.text _ => Ok () | _ => Err TypeMismatch end
  | blob => match v with Value.blob _ => Ok () | _ => Err TypeMismatch end
  | vector vt =>
      match v with
      | Value.vector x =>
          if bool_decide (Vector.element_type x ≠ VectorType.element_type vt)
             || negb (Vector.dimension x =? VectorType.dimension vt)
          then Err VectorDimensionMismatch else Ok ()
      | _ => Err TypeMismatch
      end
  end.
End ColumnType.

#[global] Instance VectorType_eq_dec : EqDecision VectorType.t.
Proof. solve_decision. Defined.
#[global] Instance ColumnType_eq_dec : EqDecision ColumnType.t.
Proof. solve_decision. Defined.

(** ** Columns *)
Module ColumnSpec.
Record t := mk {
  name : bytes;
  column_type : ColumnType.t;
  nullable : bool;
  default_value : option Value.t;
  primary_key : bool;
  auto_increment : bool;
}.
End ColumnSpec.

Definition effectiveNullable (spec : ColumnSpec.t) : bool :=
  ColumnSpec.nullable spec && negb (ColumnSpec.primary_key spec) && negb (ColumnSpec.auto_increment spec).

Module ColumnDef.
Record t := mk {
  name : bytes;
  column_type : ColumnType.t;
  nullable : bool;
  default_value : option Value.t;
  primary_key : bool;
  auto_increment : bool;
}.

Definition init_default (spec : ColumnSpec.t) : Result (option Value.t) :=
  match ColumnSpec.default_value spec with
  | None => Ok None
  | Some default =>
      _ ← (if Value.is_null default
           then fail_if (negb (effectiveNullable spec)) TypeMismatch
           else ColumnType.acceptsValue (ColumnSpec.column_type spec) default);
      v ← Value.clone default;
      Ok (Some v)
  end.

Definition init (spec : ColumnSpec.t) : Result t :=
  _ ← ColumnType.validate (ColumnSpec.column_type spec);
  default_value ← init_default spec;
  Ok (mk (ColumnSpec.name spec) (ColumnSpec.column_type spec) (effectiveNullable spec)
         default_value (ColumnSpec.primary_key spec) (ColumnSpec.auto_increment spec)).

Definition validateValue (self : t) (v : Value.t) : Result () :=
  if Value.is_null v then (if nullable self then Ok () else Err TypeMismatch)
  else ColumnType.acceptsValue (column_type self) v.

(** The column with [primary_key = true; nullable = false], set by a primary index. *)
Definition make_primary (c : t) : t :=
  mk (name c) (column_type c) false (default_value c) true (auto_increment c).
End ColumnDef.

#[global] Instance ColumnDef_eq_dec : EqDecision ColumnDef.t.
Proof. solve_decision. Defined.

(** ** Indexes *)
Module IndexSpec.
Record t := mk { name : option bytes; columns : list bytes; kind : IndexKind }.
End IndexSpec.

Module IndexDef.
Record t := mk { name : bytes; columns : list bytes; kind : IndexKind }.

Definition init (spec : IndexSpec.t) : Result t :=
  match IndexSpec.columns spec with
  | [] => Err UnknownObject
  | first :: _ =>
      let index_name :=
        match IndexSpec.name spec with
        | Some n => n
        | None => if decide (IndexSpec.kind spec = primary) then primary_index_name else first
        end in
      Ok (mk index_name (IndexSpec.columns spec) (IndexSpec.kind spec))
  end.
End IndexDef.

#[global] Instance IndexDef_eq_dec : EqDecision IndexDef.t.
Proof. solve_decision. Defined.

(** ** Tables *)
Module TableSpec.
Record t := mk { name : bytes; columns : list ColumnSpec.t; indexes : list IndexSpec.t }.
End TableSpec.

Definition columnIndexInSpecs (columns : list ColumnSpec.t) (name : bytes) : option nat :=
  find_index (λ c, namesEqual (ColumnSpec.name c) name) columns.

(** The loop of [validateColumns]; [previous] is [columns[0..index]]. *)
Fixpoint validateColumnsFrom (previous columns : list ColumnSpec.t) : Result () :=
  match columns with
  | [] => Ok ()
  | column :: rest =>
      _ ← ColumnType.validate (ColumnSpec.column_type column);
      _ ← fail_if (ColumnSpec.auto_increment column
                   && negb (ColumnType.is_integer (ColumnSpec.column_type column))) TypeMismatch;
      _ ← fail_if (existsb (λ p, namesEqual (ColumnSpec.name column) (ColumnSpec.name p)) previous)
                  DuplicateColumn;
      validateColumnsFrom (previous ++ [column]) rest
  end.

Definition validateColumns (columns : list ColumnSpec.t) : Result () :=
  validateColumnsFrom [] columns.

Definition is_primary (k : IndexKind) : bool := match k with primary => true | secondary => false end.

(** The loop of [validateIndexes]; [previous] is [indexes[0..offset]]. *)
Fixpoint validateIndexesFrom (columns : list ColumnSpec.t) (primary_count : nat)
    (previous indexes : list IndexSpec.t) : Result () :=
  match indexes with
  | [] => Ok ()
  | index :: rest =>
      let primary_count' :=
        (primary_count + (if is_primary (IndexSpec.kind index) then 1 else 0))%nat in
      _ ← fail_if (bool_decide (1 < primary_count')%nat) DuplicateObject;
      _ ← (match IndexSpec.name index with
           | None => Ok ()
           | Some name =>
               fail_if (existsb (λ p, match IndexSpec.name p with
                                      | Some previous_name => namesEqual name previous_name
                                      | None => false
                                      end) previous) DuplicateObject
           end);
      _ ← fail_if (existsb (λ c, bool_decide (columnIndexInSpecs columns c = None))
                           (IndexSpec.columns index)) UnknownObject;
      validateIndexesFrom columns primary_count' (previous ++ [index]) rest
  end.

Definition validateIndexes (columns : list ColumnSpec.t) (indexes : list IndexSpec.t) : Result () :=
  validateIndexesFrom columns 0 [] indexes.

Module TableDef.
Record t := mk { name : bytes; columns : list ColumnDef.t; indexes : list IndexDef.t }.

(** [columns[i].primary_key = true; columns[i].nullable = false] for a named column *)
Definition mark_primary (specs : list ColumnSpec.t) (columns : list ColumnDef.t)
    (column_name : bytes) : Result (list ColumnDef.t) :=
  column_index ← orelse (columnIndexInSpecs specs column_name) UnknownObject;
  Ok (alter ColumnDef.make_primary column_index columns).

(** One iteration of the index loop of [init]. *)
Definition init_index (specs : list ColumnSpec.t)
    (st : list ColumnDef.t * list IndexDef.t) (index_spec : IndexSpec.t)
    : Result (list ColumnDef.t * list IndexDef.t) :=
  let '(columns, indexes) := st in
  index ← IndexDef.init index_spec;
  columns' ← (if is_primary (IndexSpec.kind index_spec)
              then foldM (mark_primary specs) columns (IndexSpec.columns index_spec)
              else Ok columns);
  Ok (columns', indexes ++ [index]).

Definition init (spec : TableSpec.t) : Result t :=
  _ ← validateColumns (TableSpec.columns spec);
  _ ← validateIndexes (TableSpec.columns spec) (TableSpec.indexes spec);
  columns ← mapR ColumnDef.init (TableSpec.columns spec);
  st ← foldM (init_index (TableSpec.columns spec)) (columns, []) (TableSpec.indexes spec);
  Ok (mk (TableSpec.name spec) st.1 st.2).

Definition columnIndex (self : t) (n : bytes) : option nat :=
  find_index (λ c, namesEqual (ColumnDef.name c) n) (columns self).

Definition column (self : t) (n : bytes) : option ColumnDef.t :=
  index ← columnIndex self n; columns self !! index.

Definition columnAt (self : t) (index : nat) : option ColumnDef.t :=
  if decide (length (columns self) ≤ index)%nat then None else columns self !! index.
End TableDef.

#[global] Instance TableDef_eq_dec : EqDecision TableDef.t.
Proof. solve_decision. Defined.

(** [cloneTableDef]: the specification read off an existing definition, and its re-validation. *)
Definition column_spec_of (c : ColumnDef.t) : ColumnSpec.t :=
  ColumnSpec.mk (ColumnDef.name c) (ColumnDef.column_type c) (ColumnDef.nullable c)
    (ColumnDef.default_value c) (ColumnDef.primary_key c) (ColumnDef.auto_increment c).
Definition index_spec_of (i : IndexDef.t) : IndexSpec.t :=
  IndexSpec.mk (Some (IndexDef.name i)) (IndexDef.columns i) (IndexDef.kind i).
Definition table_spec_of (source : TableDef.t) : TableSpec.t :=
  TableSpec.mk (TableDef.name source) (column_spec_of <$> TableDef.columns source)
    (index_spec_of <$> TableDef.indexes source).
Definition cloneTableDef (source : TableDef.t) : Result TableDef.t :=
  TableDef.init (table_spec_of source).

(** ** Views and procedures *)
Module ViewDef.
Record t := mk { name : bytes; body : bytes }.
Definition init (name body : bytes) : t := mk name body.
End ViewDef.

Module ProcedureDef.
Record t := mk { name : bytes; body : bytes }.
Definition init (name body : bytes) : t := mk name body.
End ProcedureDef.

(** ** The database catalog *)
Module DatabaseCatalog.
Record t := mk {
  tables : list TableDef.t;
  views : list ViewDef.t;
  procedures : list ProcedureDef.t;
}.

Definition init : t := mk [] [] [].

Definition findTableIndex (self : t) (name : bytes) : option nat :=
  find_index (λ x, namesEqual (TableDef.name x) name) (tables self).
Definition findViewIndex (self : t) (name : bytes) : option nat :=
  find_index (λ x, namesEqual (ViewDef.name x) name) (views self).
Definition findProcedureIndex (self : t) (name : bytes) : option nat :=
  find_index (λ x, namesEqual (ProcedureDef.name x) name) (procedures self).

Definition is_some {A} (o : option A) : bool := match o with Some _ => true | None => false end.

Definition nameUsedOutsideTables (self : t) (name : bytes) : bool :=
  is_some (findViewIndex self name) || is_some (findProcedureIndex self name).
Definition nameUsedOutsideViews (self : t) (name : bytes) : bool :=
  is_some (findTableIndex self name) || is_some (findProcedureIndex self name).
Definition nameUsedOutsideProcedures (self : t) (name : bytes) : bool :=
  is_some (findTableIndex self name) || is_some (findViewIndex self name).

Definition createTable (self : t) (spec : TableSpec.t) : Result t :=
  _ ← fail_if (is_some (findTableIndex self (TableSpec.name spec))) DuplicateObject;
  _ ← fail_if (nameUsedOutsideTables self (TableSpec.name spec)) NameConflict;
  table ← TableDef.init spec;
  Ok (mk (tables self ++ [table]) (views self) (procedures self)).

Definition dropTable (self : t) (name : bytes) : Result t :=
  index ← orelse (findTableIndex self name) UnknownObject;
  Ok (mk (delete index (tables self)) (views self) (procedures self)).

Definition getTable (self : t) (name : bytes) : option TableDef.t :=
  index ← findTableIndex self name; tables self !! index.

Definition listTables (self : t) : list TableDef.t := tables self.

Definition registerView (self : t) (name body : bytes) : Result t :=
  _ ← fail_if (is_some (findViewIndex self name)) DuplicateObject;
  _ ← fail_if (nameUsedOutsideViews self name) NameConflict;
  Ok (mk (tables self) (views self ++ [ViewDef.init name body]) (procedures self)).

Definition dropView (self : t) (name : bytes) : Result t :=
  index ← orelse (findViewIndex self name) UnknownObject;
  Ok (mk (tables self) (delete index (views self)) (procedures self)).

Definition getView (self : t) (name : bytes) : option ViewDef.t :=
  index ← findViewIndex self name; views self !! index.

Definition listViews (self : t) : list ViewDef.t := views self.

Definition registerProcedure (self : t) (name body : bytes) : Result t :=
  _ ← fail_if (is_some (findProcedureIndex self name)) DuplicateObject;
  _ ← fail_if (nameUsedOutsideProcedures self name) NameConflict;
  Ok (mk (tables self) (views self) (procedures self ++ [ProcedureDef.init name body])).

Definition dropProcedure (self : t) (name : bytes) : Result t :=
  index ← orelse (findProcedureIndex self name) UnknownObject;
  Ok (mk (tables self) (views self) (delete index (procedures self))).

Definition getProcedure (self : t) (name : bytes) : option ProcedureDef.t :=
  index ← findProcedureIndex self name; procedures self !! index.

Definition listProcedures (self : t) : list ProcedureDef.t := procedures self.
End DatabaseCatalog.
