(* ===== verification/CatalogFacts.v ===== *)
(** * The catalog is one finite map

    The three lists of tables, views and procedures implement one finite map from lower-cased names to objects:
    the operations with their errors, the lookups and the listings ([catalog_refines_map]). *)

From stdpp Require Import gmap.
From S2P Require Import Prelude Float Value Catalog.

#[global] Instance byte_countable : Countable byte.
Proof.
  refine (inj_countable Byte.to_N Byte.of_N _). intros x. apply Byte.of_to_N.
Defined.

(** ** The abstract catalog: one name space *)
Module CatalogSpec.
Inductive object :=
  | ObjTable (t : TableDef.t)
  | ObjView (v : ViewDef.t)
  | ObjProcedure (p : ProcedureDef.t).

Inductive op :=
  | CreateTable (spec : TableSpec.t)
  | DropTable (name : bytes)
  | RegisterView (name body : bytes)
  | DropView (name : bytes)
  | RegisterProcedure (name body : bytes)
  | DropProcedure (name : bytes).

Abbreviation cmap := (gmap bytes object).

Definition is_table (o : object) : bool := match o with ObjTable _ => true | _ => false end.
Definition is_view (o : object) : bool := match o with ObjView _ => true | _ => false end.
Definition is_procedure (o : object) : bool := match o with ObjProcedure _ => true | _ => false end.

Definition as_table (o : object) : option TableDef.t := match o with ObjTable t => Some t | _ => None end.
Definition as_view (o : object) : option ViewDef.t := match o with ObjView v => Some v | _ => None end.
Definition as_procedure (o : object) : option ProcedureDef.t := match o with ObjProcedure p => Some p | _ => None end.

(** Creating an object of kind [same]: the name must be free; a clash with the same kind is
    [DuplicateObject], with another kind [NameConflict]. *)
Definition spec_create (same : object → bool) (m : cmap) (name : bytes) (mk : Result object) : Result cmap :=
  match m !! lower name with
  | Some o => Err (if same o then DuplicateObject else NameConflict)
  | None => o ← mk; Ok (<[lower name := o]> m)
  end.

Definition spec_drop (same : object → bool) (m : cmap) (name : bytes) : Result cmap :=
  match m !! lower name with
  | Some o => if same o then Ok (delete (lower name) m) else Err UnknownObject
  | None => Err UnknownObject
  end.

Definition run (m : cmap) (o : op) : Result cmap :=
  match o with
  | CreateTable spec => spec_create is_table m (TableSpec.name spec) (ObjTable <$> TableDef.init spec)
  | DropTable n => spec_drop is_table m n
  | RegisterView n b => spec_create is_view m n (Ok (ObjView (ViewDef.init n b)))
  | DropView n => spec_drop is_view m n
  | RegisterProcedure n b => spec_create is_procedure m n (Ok (ObjProcedure (ProcedureDef.init n b)))
  | DropProcedure n => spec_drop is_procedure m n
  end.
End CatalogSpec.
Import CatalogSpec.

Definition run_catalog (c : DatabaseCatalog.t) (o : op) : Result DatabaseCatalog.t :=
  match o with
  | CreateTable spec => DatabaseCatalog.createTable c spec
  | DropTable n => DatabaseCatalog.dropTable c n
  | RegisterView n b => DatabaseCatalog.registerView c n b
  | DropView n => DatabaseCatalog.dropView c n
  | RegisterProcedure n b => DatabaseCatalog.registerProcedure c n b
  | DropProcedure n => DatabaseCatalog.dropProcedure c n
  end.

Definition table_entry (t : TableDef.t) : bytes * object := (lower (TableDef.name t), ObjTable t).
Definition view_entry (v : ViewDef.t) : bytes * object := (lower (ViewDef.name v), ObjView v).
Definition procedure_entry (p : ProcedureDef.t) : bytes * object :=
  (lower (ProcedureDef.name p), ObjProcedure p).

Definition entries (c : DatabaseCatalog.t) : list (bytes * object) :=
  (table_entry <$> DatabaseCatalog.tables c) ++ (view_entry <$> DatabaseCatalog.views c) ++
  (procedure_entry <$> DatabaseCatalog.procedures c).

(** The catalog invariant: object names are distinct up to case, across all three kinds. *)
Definition catalog_inv (c : DatabaseCatalog.t) : Prop := NoDup (entries c).*1.

Definition catalog_abs (c : DatabaseCatalog.t) : CatalogSpec.cmap := list_to_map (entries c).

(** ** Finding an entry of one kind inside the combined list *)
Section kind.
Context {X : Type} (entry : X → bytes * object) (nm : X → bytes) (same : object → bool).
Hypothesis Hkey : ∀ x, (entry x).1 = lower (nm x).
Hypothesis Hsame : ∀ x, same (entry x).2 = true.

Lemma find_kind_None l n :
  find_index (λ x, namesEqual (nm x) n) l = None ↔ lower n ∉ (entry <$> l).*1.
Proof.
  rewrite find_index_None, Forall_forall. split.
  - intros H Hin. apply list_elem_of_fmap in Hin as (e & He & Hin).
    apply list_elem_of_fmap in Hin as (x & -> & Hx). apply H in Hx.
    apply eqlIgnoreCase_false in Hx. rewrite Hkey in He. congruence.
  - intros H x Hx. apply eqlIgnoreCase_false. intros E. apply H.
    rewrite <-E, <-Hkey. do 2 apply list_elem_of_fmap_2. done.
Qed.

Lemma find_kind_Some l n i :
  find_index (λ x, namesEqual (nm x) n) l = Some i → ∃ x, l !! i = Some x ∧ (entry x).1 = lower n.
Proof.
  intros (x & Hx & Heq)%find_index_lookup. exists x. split; [done|].
  apply eqlIgnoreCase_spec in Heq. by rewrite Hkey.
Qed.

(** Looking up by name among the objects of one kind. *)
Lemma get_kind (as_kind : object → option X) (l1 l l2 : list (bytes * object)) xs n :
  (∀ x, as_kind (entry x).2 = Some x) → (∀ e, e ∈ l1 ++ l2 → as_kind e.2 = None) → l = entry <$> xs →
  NoDup (l1 ++ l ++ l2).*1 →
  (i ← find_index (λ x, namesEqual (nm x) n) xs; xs !! i) = ((list_to_map (l1 ++ l ++ l2) : CatalogSpec.cmap) !! lower n) ≫= as_kind.
Proof.
  intros Has Hother -> Hnd. destruct (find_index _ xs) as [i|] eqn:Hf; cbn.
  - apply find_kind_Some in Hf as (x & Hx & Hk). rewrite Hx.
    assert (Hin : (list_to_map (l1 ++ (entry <$> xs) ++ l2) : CatalogSpec.cmap) !! lower n = Some (entry x).2).
    { apply elem_of_list_to_map; [done|]. rewrite <-Hk, <-surjective_pairing. rewrite !elem_of_app. right. left.
      apply list_elem_of_fmap_2. by eapply list_elem_of_lookup_2. }
    rewrite Hin. cbn. by rewrite Has.
  - apply find_kind_None in Hf. destruct ((list_to_map (l1 ++ (entry <$> xs) ++ l2) : CatalogSpec.cmap) !! lower n) as [o|] eqn:Ho; [|done].
    apply elem_of_list_to_map in Ho; [|done]. rewrite !elem_of_app in Ho. cbn. symmetry.
    destruct Ho as [Ho|[Ho|Ho]].
    + apply (Hother (lower n, o)), elem_of_app. by left.
    + destruct Hf. by apply (list_elem_of_fmap_2 fst) in Ho.
    + apply (Hother (lower n, o)), elem_of_app. by right.
Qed.

Context (l1 l2 : list (bytes * object)).
Hypothesis Hl1 : ∀ e, e ∈ l1 → same e.2 = false.
Hypothesis Hl2 : ∀ e, e ∈ l2 → same e.2 = false.

(** Dropping by name: remove the entry of this kind, refuse anything else. *)
Lemma drop_kind l n :
  NoDup (l1 ++ (entry <$> l) ++ l2).*1 →
  let m : CatalogSpec.cmap := list_to_map (l1 ++ (entry <$> l) ++ l2) in
  match find_index (λ x, namesEqual (nm x) n) l with
  | Some i => spec_drop same m n = Ok (list_to_map (l1 ++ (entry <$> delete i l) ++ l2)) ∧
              NoDup (l1 ++ (entry <$> delete i l) ++ l2).*1
  | None => spec_drop same m n = Err UnknownObject
  end.
Proof.
  intros Hnd m. destruct (find_index _ l) as [i|] eqn:Hf.
  - apply find_kind_Some in Hf as (x & Hx & Hk).
    pose proof (take_drop_middle l i x Hx) as Hl.
    assert (Hsplit : l1 ++ (entry <$> l) ++ l2 =
              (l1 ++ (entry <$> take i l)) ++ entry x :: ((entry <$> drop (S i) l) ++ l2)).
    { rewrite <-Hl at 1. rewrite fmap_app, fmap_cons. by rewrite <-!app_assoc. }
    assert (Hdel : l1 ++ (entry <$> delete i l) ++ l2 =
              (l1 ++ (entry <$> take i l)) ++ ((entry <$> drop (S i) l) ++ l2)).
    { rewrite delete_take_drop, fmap_app. by rewrite <-!app_assoc. }
    rewrite Hdel. rewrite Hsplit in Hnd.
    set (a := l1 ++ (entry <$> take i l)) in *. set (b := (entry <$> drop (S i) l) ++ l2) in *.
    rewrite fmap_app, fmap_cons in Hnd.
    assert (Hperm : (a.*1 ++ (entry x).1 :: b.*1) ≡ₚ (entry x).1 :: (a ++ b).*1)
      by (rewrite fmap_app; symmetry; apply Permutation_middle).
    rewrite Hperm in Hnd. apply NoDup_cons in Hnd as [Hnin Hnd].
    split; [|done]. unfold spec_drop, m. rewrite Hsplit.
    assert (Hm : list_to_map (a ++ entry x :: b) = <[lower n := (entry x).2]> (list_to_map (a ++ b)) :> CatalogSpec.cmap).
    { rewrite <-Hk. transitivity (list_to_map (entry x :: a ++ b) : CatalogSpec.cmap); [|done].
      apply list_to_map_proper; [|by rewrite <-Permutation_middle].
      rewrite fmap_app, fmap_cons, Hperm. by apply NoDup_cons. }
    rewrite Hm, lookup_insert_eq, Hsame. f_equal.
    apply delete_insert_id. apply not_elem_of_list_to_map_1. by rewrite <-Hk.
  - apply find_kind_None in Hf. unfold spec_drop.
    destruct (m !! lower n) as [o|] eqn:Ho; [|done].
    apply elem_of_list_to_map_2 in Ho. rewrite !elem_of_app in Ho.
    destruct Ho as [Ho%Hl1|[Ho|Ho%Hl2]]; [by simpl in Ho; rewrite Ho| |by simpl in Ho; rewrite Ho].
    destruct Hf. by apply (list_elem_of_fmap_2 fst) in Ho.
Qed.

(** Creating by name: append an entry when the name is free, else the right error. *)
Lemma create_kind l n (mkx : Result X) :
  NoDup (l1 ++ (entry <$> l) ++ l2).*1 →
  (∀ x, mkx = Ok x → lower (nm x) = lower n) →
  let m : CatalogSpec.cmap := list_to_map (l1 ++ (entry <$> l) ++ l2) in
  spec_create same m n ((λ x, (entry x).2) <$> mkx) =
    (if DatabaseCatalog.is_some (find_index (λ x, namesEqual (nm x) n) l) then Err DuplicateObject
     else if bool_decide (lower n ∈ l1.*1 ∨ lower n ∈ l2.*1) then Err NameConflict
     else x ← mkx; Ok (list_to_map (l1 ++ (entry <$> (l ++ [x])) ++ l2))) ∧
  (∀ x, mkx = Ok x → is_ok (spec_create same m n ((λ x, (entry x).2) <$> mkx)) = true →
        NoDup (l1 ++ (entry <$> (l ++ [x])) ++ l2).*1).
Proof.
  intros Hnd Hnm m.
  assert (Hlook : ∀ k o, m !! k = Some o ↔ (k, o) ∈ l1 ++ (entry <$> l) ++ l2)
    by (intros k o; symmetry; by apply elem_of_list_to_map).
  destruct (m !! lower n) as [o|] eqn:Ho.
  - split; [|by unfold spec_create; rewrite Ho].
    unfold spec_create. rewrite Ho. apply Hlook in Ho as Hin. rewrite !elem_of_app in Hin.
    destruct (find_index _ l) as [i|] eqn:Hf; simpl.
    + apply find_kind_Some in Hf as (x & Hx & Hk).
      assert (o = (entry x).2) as ->.
      { enough (Some o = Some (entry x).2) by congruence. rewrite <-Ho. apply Hlook.
        rewrite !elem_of_app. right. left. rewrite <-Hk. rewrite <-surjective_pairing.
        apply list_elem_of_fmap_2. by eapply list_elem_of_lookup_2. }
      by rewrite Hsame.
    + apply find_kind_None in Hf.
      destruct Hin as [Hin|[Hin|Hin]].
      * rewrite bool_decide_eq_true_2; [by apply Hl1 in Hin as Hs; simpl in Hs; rewrite Hs|].
        left. by apply (list_elem_of_fmap_2 fst) in Hin.
      * destruct Hf. by apply (list_elem_of_fmap_2 fst) in Hin.
      * rewrite bool_decide_eq_true_2; [by apply Hl2 in Hin as Hs; simpl in Hs; rewrite Hs|].
        right. by apply (list_elem_of_fmap_2 fst) in Hin.
  - apply not_elem_of_list_to_map_2 in Ho as Hnin. rewrite !fmap_app, !not_elem_of_app in Hnin.
    destruct Hnin as (Hn1 & Hn & Hn2).
    assert (Hnew : ∀ x, mkx = Ok x →
      NoDup (l1 ++ (entry <$> (l ++ [x])) ++ l2).*1 ∧
      <[lower n := (entry x).2]> m = list_to_map (l1 ++ (entry <$> (l ++ [x])) ++ l2)).
    { intros x Hx%Hnm.
      assert (Hp : l1 ++ (entry <$> (l ++ [x])) ++ l2 ≡ₚ (lower n, (entry x).2) :: l1 ++ (entry <$> l) ++ l2).
      { rewrite fmap_app. simpl. rewrite <-(app_assoc _ [entry x]). simpl.
        rewrite <-Hx, <-Hkey, <-surjective_pairing.
        rewrite !app_assoc. symmetry. apply Permutation_middle. }
      assert (Hnd' : NoDup (l1 ++ (entry <$> (l ++ [x])) ++ l2).*1).
      { rewrite Hp. simpl. apply NoDup_cons. split; [|done].
        by rewrite !fmap_app, !not_elem_of_app. }
      split; [done|]. transitivity (list_to_map ((lower n, (entry x).2) :: l1 ++ (entry <$> l) ++ l2) : CatalogSpec.cmap); [done|].
      symmetry. by apply list_to_map_proper. }
    unfold spec_create. rewrite Ho.
    apply find_kind_None in Hn. rewrite Hn. simpl.
    rewrite bool_decide_eq_false_2 by naive_solver.
    split; [|intros x -> _; by apply Hnew].
    destruct mkx as [x|e|]; simpl; try done. f_equal. by apply Hnew.
Qed.
End kind.

(** ** Refinement *)
Lemma is_some_find_kind {X} (entry : X → bytes * object) (nm : X → bytes) l n :
  (∀ x, (entry x).1 = lower (nm x)) →
  DatabaseCatalog.is_some (find_index (λ x, namesEqual (nm x) n) l) =
  bool_decide (lower n ∈ (entry <$> l).*1).
Proof.
  intros Hkey. destruct (find_index _ l) eqn:Hf; symmetry.
  - apply bool_decide_eq_true. destruct (decide (lower n ∈ (entry <$> l).*1)) as [|Hn]; [done|].
    apply (find_kind_None entry nm Hkey) in Hn. congruence.
  - apply bool_decide_eq_false. by apply (find_kind_None entry nm Hkey).
Qed.

Lemma bool_decide_orb (P Q : Prop) `{!Decision P, !Decision Q} :
  bool_decide P || bool_decide Q = bool_decide (P ∨ Q).
Proof. by rewrite bool_decide_or. Qed.

Lemma fail_if_bind {A} c e (k : Result A) : (_ ← fail_if c e; k) = if c then Err e else k.
Proof. by destruct c. Qed.

Lemma orelse_bind {A C} (o : option A) e (k : A → Result C) :
  (orelse o e ≫= k) = match o with Some a => k a | None => Err e end.
Proof. by destruct o. Qed.

Ltac solve_other_kind :=
  let e := fresh in let He := fresh in let x := fresh in
  intros e He; rewrite ?elem_of_app in He;
  repeat match goal with
  | H : _ ∨ _ |- _ => destruct H
  | H : _ ∈ (_ <$> _) |- _ => apply list_elem_of_fmap in H as (x & -> & _)
  | H : _ ∈ [] |- _ => by apply not_elem_of_nil in H
  end; done.

Lemma not_elem_of_nil_fst (k : bytes) : k ∈ ([] : list (bytes * object)).*1 → False.
Proof. simpl. by intros ?%not_elem_of_nil. Qed.

(** Regrouping the combined list so that one kind is in the middle. *)
Lemma entries_tables ts vs ps :
  entries (DatabaseCatalog.mk ts vs ps) =
  [] ++ (table_entry <$> ts) ++ ((view_entry <$> vs) ++ (procedure_entry <$> ps)).
Proof. done. Qed.
Lemma entries_views ts vs ps :
  entries (DatabaseCatalog.mk ts vs ps) =
  (table_entry <$> ts) ++ (view_entry <$> vs) ++ (procedure_entry <$> ps).
Proof. done. Qed.
Lemma entries_procedures ts vs ps :
  entries (DatabaseCatalog.mk ts vs ps) =
  ((table_entry <$> ts) ++ (view_entry <$> vs)) ++ (procedure_entry <$> ps) ++ [].
Proof. unfold entries. simpl. by rewrite app_nil_r, app_assoc. Qed.

Lemma tableDef_init_name spec t : TableDef.init spec = Ok t → TableDef.name t = TableSpec.name spec.
Proof. unfold TableDef.init. intros H. inv_ok. done. Qed.

(** The refinement diagram for one operation. *)
Definition refines (c : DatabaseCatalog.t) (o : op) : Prop :=
  catalog_abs <$> run_catalog c o = CatalogSpec.run (catalog_abs c) o ∧
  (∀ c', run_catalog c o = Ok c' → catalog_inv c').

Lemma refine_create_step {X} (mk : X → DatabaseCatalog.t) (same : object → bool)
    (entry : X → bytes * object) (m : CatalogSpec.cmap) n mkx r (dup conf : bool) :
  spec_create same m n ((λ x, (entry x).2) <$> mkx) =
    (if dup then Err DuplicateObject else if conf then Err NameConflict
     else x ← mkx; Ok (catalog_abs (mk x))) →
  (∀ x, mkx = Ok x → is_ok (spec_create same m n ((λ x, (entry x).2) <$> mkx)) = true →
     catalog_inv (mk x)) →
  r = (if dup then Err DuplicateObject else if conf then Err NameConflict
       else x ← mkx; Ok (mk x)) →
  catalog_abs <$> r = spec_create same m n ((λ x, (entry x).2) <$> mkx) ∧
  (∀ c', r = Ok c' → catalog_inv c').
Proof.
  intros Hs Hinv ->. rewrite Hs in *. destruct dup; [done|]. destruct conf; [done|].
  destruct mkx as [x| |]; simpl in *; try done. split; [done|].
  intros c' [= <-]. by apply Hinv.
Qed.

Lemma refines_create_table c spec : catalog_inv c → refines c (CreateTable spec).
Proof.
  destruct c as [ts vs ps]. unfold refines, catalog_inv. intros Hinv. rewrite entries_tables in Hinv.
  pose proof (create_kind table_entry TableDef.name is_table (λ _, eq_refl) (λ _, eq_refl)
    [] ((view_entry <$> vs) ++ (procedure_entry <$> ps)) ltac:(solve_other_kind) ltac:(solve_other_kind)
    ts (TableSpec.name spec) (TableDef.init spec) Hinv
    ltac:(by intros x ->%tableDef_init_name)) as [Hs Hi].
  eapply (refine_create_step (λ x, DatabaseCatalog.mk (ts ++ [x]) vs ps) is_table table_entry);
    [exact Hs|exact Hi|].
  unfold run_catalog, DatabaseCatalog.createTable, DatabaseCatalog.nameUsedOutsideTables,
    DatabaseCatalog.findTableIndex, DatabaseCatalog.findViewIndex, DatabaseCatalog.findProcedureIndex.
  simpl. rewrite !fail_if_bind.
  rewrite (is_some_find_kind view_entry ViewDef.name),
    (is_some_find_kind procedure_entry ProcedureDef.name) by done.
  rewrite bool_decide_orb. erewrite (bool_decide_ext (_ ∈ [] ∨ _)); [done|].
  pose proof (not_elem_of_nil_fst (lower (TableSpec.name spec))). rewrite fmap_app, elem_of_app. tauto.
Qed.

Lemma refines_register_view c n b : catalog_inv c → refines c (RegisterView n b).
Proof.
  destruct c as [ts vs ps]. unfold refines, catalog_inv. intros Hinv. rewrite entries_views in Hinv.
  pose proof (create_kind view_entry ViewDef.name is_view (λ _, eq_refl) (λ _, eq_refl)
    (table_entry <$> ts) (procedure_entry <$> ps) ltac:(solve_other_kind) ltac:(solve_other_kind)
    vs n (Ok (ViewDef.init n b)) Hinv ltac:(by intros x [= <-])) as [Hs Hi].
  eapply (refine_create_step (λ x, DatabaseCatalog.mk ts (vs ++ [x]) ps) is_view view_entry
    _ n (Ok (ViewDef.init n b)));
    [exact Hs|exact Hi|].
  unfold run_catalog, DatabaseCatalog.registerView, DatabaseCatalog.nameUsedOutsideViews,
    DatabaseCatalog.findTableIndex, DatabaseCatalog.findViewIndex, DatabaseCatalog.findProcedureIndex.
  simpl. rewrite !fail_if_bind, <-bool_decide_orb.
  by rewrite (is_some_find_kind table_entry TableDef.name), (is_some_find_kind procedure_entry ProcedureDef.name).
Qed.

Lemma refines_register_procedure c n b : catalog_inv c → refines c (RegisterProcedure n b).
Proof.
  destruct c as [ts vs ps]. unfold refines, catalog_inv, catalog_abs. intros Hinv.
  rewrite entries_procedures in Hinv.
  pose proof (create_kind procedure_entry ProcedureDef.name is_procedure (λ _, eq_refl) (λ _, eq_refl)
    ((table_entry <$> ts) ++ (view_entry <$> vs)) [] ltac:(solve_other_kind) ltac:(solve_other_kind)
    ps n (Ok (ProcedureDef.init n b)) Hinv ltac:(by intros x [= <-])) as [Hs Hi].
  rewrite entries_procedures.
  eapply (refine_create_step (λ x, DatabaseCatalog.mk ts vs (ps ++ [x])) is_procedure procedure_entry
    _ n (Ok (ProcedureDef.init n b))).
  - rewrite Hs. simpl. unfold catalog_abs. by rewrite entries_procedures.
  - intros x Hx Hok. unfold catalog_inv. rewrite entries_procedures. by apply Hi.
  - unfold run_catalog, DatabaseCatalog.registerProcedure, DatabaseCatalog.nameUsedOutsideProcedures,
      DatabaseCatalog.findTableIndex, DatabaseCatalog.findViewIndex, DatabaseCatalog.findProcedureIndex.
    simpl. rewrite !fail_if_bind.
    rewrite (is_some_find_kind table_entry TableDef.name), (is_some_find_kind view_entry ViewDef.name) by done.
    rewrite bool_decide_orb. erewrite (bool_decide_ext (_ ∨ _ ∈ [])); [done|].
    pose proof (not_elem_of_nil_fst (lower n)). rewrite fmap_app, elem_of_app. tauto.
Qed.

Lemma refines_drop c o : catalog_inv c →
  match o with DropTable _ | DropView _ | DropProcedure _ => refines c o | _ => True end.
Proof.
  destruct c as [ts vs ps]. unfold refines, catalog_inv, catalog_abs. intros Hinv.
  destruct o as [|n| |n| |n]; try done; simpl.
  - pose proof (drop_kind table_entry TableDef.name is_table (λ _, eq_refl) (λ _, eq_refl)
      [] ((view_entry <$> vs) ++ (procedure_entry <$> ps)) ltac:(solve_other_kind) ltac:(solve_other_kind)
      ts n Hinv) as H.
    unfold DatabaseCatalog.dropTable, DatabaseCatalog.findTableIndex. simpl. rewrite orelse_bind.
    destruct (find_index _ ts); [destruct H as [H1 H2]; split; [done|by intros ? [= <-]]|done].
  - pose proof (drop_kind view_entry ViewDef.name is_view (λ _, eq_refl) (λ _, eq_refl)
      (table_entry <$> ts) (procedure_entry <$> ps) ltac:(solve_other_kind) ltac:(solve_other_kind)
      vs n Hinv) as H.
    unfold DatabaseCatalog.dropView, DatabaseCatalog.findViewIndex. simpl. rewrite orelse_bind.
    destruct (find_index _ vs); [destruct H as [H1 H2]; split; [done|by intros ? [= <-]]|done].
  - rewrite entries_procedures in *.
    pose proof (drop_kind procedure_entry ProcedureDef.name is_procedure (λ _, eq_refl) (λ _, eq_refl)
      ((table_entry <$> ts) ++ (view_entry <$> vs)) [] ltac:(solve_other_kind) ltac:(solve_other_kind)
      ps n Hinv) as H.
    unfold DatabaseCatalog.dropProcedure, DatabaseCatalog.findProcedureIndex. simpl. rewrite orelse_bind.
    destruct (find_index _ ps); simpl.
    + destruct H as [H1 H2]. split; [by unfold catalog_abs; rewrite entries_procedures|].
      intros ? [= <-]. by rewrite entries_procedures.
    + done.
Qed.

Lemma run_catalog_refines c o : catalog_inv c → refines c o.
Proof.
  intros H. destruct o as [spec|n|n b|n|n b|n].
  - by apply refines_create_table.
  - exact (refines_drop c (DropTable n) H).
  - by apply refines_register_view.
  - exact (refines_drop c (DropView n) H).
  - by apply refines_register_procedure.
  - exact (refines_drop c (DropProcedure n) H).
Qed.

(** Catalogs reachable from the empty one by any sequence of successful operations. *)
Inductive catalog_reachable : DatabaseCatalog.t → Prop :=
  | catalog_init : catalog_reachable DatabaseCatalog.init
  | catalog_step c o c' : catalog_reachable c → run_catalog c o = Ok c' → catalog_reachable c'.

Lemma catalog_reachable_inv c : catalog_reachable c → catalog_inv c.
Proof.
  induction 1 as [|c o c' _ IH Hrun].
  - unfold catalog_inv. simpl. constructor.
  - destruct (run_catalog_refines c o IH) as [_ H]. by apply H.
Qed.

Lemma gets_refine c n :
  catalog_inv c →
  DatabaseCatalog.getTable c n = (catalog_abs c !! lower n) ≫= as_table ∧
  DatabaseCatalog.getView c n = (catalog_abs c !! lower n) ≫= as_view ∧
  DatabaseCatalog.getProcedure c n = (catalog_abs c !! lower n) ≫= as_procedure.
Proof.
  destruct c as [ts vs ps]. unfold catalog_inv, catalog_abs. intros Hinv. split_and!.
  - rewrite entries_tables in *. apply (get_kind table_entry TableDef.name (λ _, eq_refl)); [done| |done|done]. solve_other_kind.
  - rewrite entries_views in *. apply (get_kind view_entry ViewDef.name (λ _, eq_refl)); [done| |done|done]. solve_other_kind.
  - rewrite entries_procedures in *. apply (get_kind procedure_entry ProcedureDef.name (λ _, eq_refl)); [done| |done|done]. solve_other_kind.
Qed.

(** C6: every operation of the catalog is the operation of one finite map from names, without regard to case, to objects: creating
    and dropping, their errors included, and looking a table, view or procedure up; and the three listings together hold every
    object of the map once. *)
Theorem catalog_refines_map (c : DatabaseCatalog.t) :
  catalog_reachable c →
  (∀ o, catalog_abs <$> run_catalog c o = CatalogSpec.run (catalog_abs c) o) ∧
  (∀ n, DatabaseCatalog.getTable c n = (catalog_abs c !! lower n) ≫= as_table ∧
        DatabaseCatalog.getView c n = (catalog_abs c !! lower n) ≫= as_view ∧
        DatabaseCatalog.getProcedure c n = (catalog_abs c !! lower n) ≫= as_procedure) ∧
  map_to_list (catalog_abs c) ≡ₚ
    ((λ t, (lower (TableDef.name t), ObjTable t)) <$> DatabaseCatalog.listTables c) ++
    ((λ v, (lower (ViewDef.name v), ObjView v)) <$> DatabaseCatalog.listViews c) ++
    ((λ p, (lower (ProcedureDef.name p), ObjProcedure p)) <$> DatabaseCatalog.listProcedures c).
Proof.
  intros H%catalog_reachable_inv. split_and!; [intros o; by apply run_catalog_refines|intros n; by apply gets_refine|].
  unfold catalog_abs. rewrite map_to_list_to_map by done. done.
Qed.

Definition sample_view_spec : TableSpec.t :=
  TableSpec.mk (B "users") [ColumnSpec.mk (B "id") ColumnType.integer false None true false] [].

Lemma catalog_refines_map_witness :
  ∃ c t, run_catalog DatabaseCatalog.init (CreateTable sample_view_spec) = Ok c ∧
       CatalogSpec.run (catalog_abs c) (RegisterView (B "USERS") (B "SELECT 1")) = Err NameConflict ∧
       (catalog_abs c !! lower (B "Users")) ≫= as_table = Some t.
Proof.
  assert (Hc : ∃ c, run_catalog DatabaseCatalog.init (CreateTable sample_view_spec) = Ok c) by (eexists; vm_compute; reflexivity).
  destruct Hc as [c Hc].
  destruct (catalog_refines_map c (catalog_step _ (CreateTable sample_view_spec) _ catalog_init Hc)) as (H1 & H2 & _).
  destruct (DatabaseCatalog.getTable c (B "Users")) as [t|] eqn:Ht.
  - exists c, t. split; [exact Hc|]. split; [rewrite <-H1|].
    + vm_compute in Hc. injection Hc as <-. vm_compute. reflexivity.
    + by rewrite <-(proj1 (H2 (B "Users"))).
  - exfalso. vm_compute in Hc. injection Hc as <-. vm_compute in Ht. discriminate Ht.
Defined.
