(* ===== verification/TableFacts.v ===== *)
(** * Table definitions: what [TableDef.init] establishes and when a definition can be rebuilt

    [cloneTableDef] runs [TableDef.init] on the specification read off a definition; snapshots,
    exports and reopening all go through it.  [table_wf] is the exact condition under which it
    gives the definition back. *)

From S2P Require Import Prelude Float Value Catalog.

(** ** Well-formedness *)
Definition column_core (c : ColumnDef.t) : Prop :=
  ColumnType.validate (ColumnDef.column_type c) = Ok () ∧
  (ColumnDef.auto_increment c = true → ColumnDef.column_type c = ColumnType.integer) ∧
  (ColumnDef.nullable c = true → ColumnDef.primary_key c = false ∧ ColumnDef.auto_increment c = false).

(** The default is [NULL] only on a nullable column, and otherwise has the column's type. *)
Definition default_ok (c : ColumnDef.t) : Prop :=
  match ColumnDef.default_value c with
  | None => True
  | Some v =>
      Value.clone v = Ok v ∧
      (if Value.is_null v then ColumnDef.nullable c = true
       else ColumnType.acceptsValue (ColumnDef.column_type c) v = Ok ())
  end.

Definition column_names (cs : list ColumnDef.t) : list bytes := (λ c, lower (ColumnDef.name c)) <$> cs.
Definition index_names (ixs : list IndexDef.t) : list bytes := (λ i, lower (IndexDef.name i)) <$> ixs.

Definition locked (c : ColumnDef.t) : Prop :=
  ColumnDef.primary_key c = true ∧ ColumnDef.nullable c = false.

Definition known (cs : list ColumnDef.t) (n : bytes) : option nat :=
  find_index (λ c, namesEqual (ColumnDef.name c) n) cs.

Definition index_wf (cs : list ColumnDef.t) (i : IndexDef.t) : Prop :=
  IndexDef.columns i ≠ [] ∧
  Forall (λ n, is_Some (known cs n)) (IndexDef.columns i) ∧
  (IndexDef.kind i = primary →
   ∀ n j c, n ∈ IndexDef.columns i → known cs n = Some j → cs !! j = Some c → locked c).

Definition primaries (ks : list IndexKind) : nat := length (filter (λ k, k = primary) ks).

(** What [TableDef.init] establishes. *)
Record table_core (t : TableDef.t) : Prop := {
  core_columns : Forall column_core (TableDef.columns t);
  core_names : NoDup (column_names (TableDef.columns t));
  core_indexes : Forall (index_wf (TableDef.columns t)) (TableDef.indexes t);
  core_primary : (primaries (IndexDef.kind <$> TableDef.indexes t) ≤ 1)%nat;
}.

(** What a definition must satisfy to be rebuilt. *)
Record table_wf (t : TableDef.t) : Prop := {
  wf_core : table_core t;
  wf_defaults : Forall default_ok (TableDef.columns t);
  wf_index_names : NoDup (index_names (TableDef.indexes t));
}.

(** ** The validation loops *)
Definition spec_column_ok (c : ColumnSpec.t) : Prop :=
  ColumnType.validate (ColumnSpec.column_type c) = Ok () ∧
  (ColumnSpec.auto_increment c = true → ColumnSpec.column_type c = ColumnType.integer).

Definition spec_names (cs : list ColumnSpec.t) : list bytes := (λ c, lower (ColumnSpec.name c)) <$> cs.

Lemma existsb_false {A} (f : A → bool) l : existsb f l = false ↔ ∀ x, x ∈ l → f x = false.
Proof.
  induction l as [|a l IH]; simpl.
  - split; [|done]. intros _ x Hx. by apply not_elem_of_nil in Hx.
  - rewrite orb_false_iff, IH. split.
    + intros [Ha Hl] x [->|Hx]%elem_of_cons; auto.
    + intros H. split; [apply H, list_elem_of_here|]. intros x Hx. apply H. by apply list_elem_of_further.
Qed.

Lemma existsb_names_false (n : bytes) (ps : list ColumnSpec.t) :
  existsb (λ p, namesEqual n (ColumnSpec.name p)) ps = false ↔ lower n ∉ spec_names ps.
Proof.
  rewrite existsb_false. unfold spec_names. split.
  - intros H (p & Hp & Hin)%list_elem_of_fmap. apply H in Hin. by apply eqlIgnoreCase_false in Hin.
  - intros H p Hp. apply eqlIgnoreCase_false. intros E. apply H. rewrite E.
    by apply (list_elem_of_fmap_2 (λ c, lower (ColumnSpec.name c))).
Qed.

Lemma validateColumnsFrom_ok prev cs :
  validateColumnsFrom prev cs = Ok () ↔
  Forall spec_column_ok cs ∧ NoDup (spec_names cs) ∧ (∀ n, n ∈ spec_names cs → n ∉ spec_names prev).
Proof.
  revert prev. induction cs as [|c cs IH]; intros prev; simpl.
  - split; [|done]. intros _. split_and!; [constructor|constructor|]. intros n Hn.
    by apply not_elem_of_nil in Hn.
  - unfold spec_column_ok at 1.
    split.
    + intros H. inv_ok. rename Ha into H1, Ha0 into H2, Ha1 into H3.
      apply existsb_names_false in H3. apply IH in H as (Hok & Hnd & Hdis).
      unfold spec_names in Hdis at 2. rewrite fmap_app in Hdis. simpl in Hdis.
      split_and!.
      * constructor; [|done]. split; [done|]. intros Hai. rewrite Hai in H2. simpl in H2.
        by destruct (ColumnSpec.column_type c).
      * apply NoDup_cons. split; [|done]. intros Hin. apply (Hdis _ Hin).
        apply elem_of_app. right. by apply list_elem_of_singleton.
      * intros n [->|Hn]%elem_of_cons; [done|]. intros Hp. apply (Hdis _ Hn). apply elem_of_app. by left.
    + intros (Hok & Hnd & Hdis). apply Forall_cons in Hok as [[H1 H2] Hok].
      apply NoDup_cons in Hnd as [Hnin Hnd].
      rewrite H1. simpl.
      assert (ColumnSpec.auto_increment c && negb (ColumnType.is_integer (ColumnSpec.column_type c)) = false) as ->.
      { destruct (ColumnSpec.auto_increment c); [|done]. by rewrite H2. }
      rewrite (proj2 (existsb_names_false _ _)) by (apply Hdis, list_elem_of_here). simpl.
      apply IH. split_and!; [done|done|]. intros n Hn. unfold spec_names. rewrite fmap_app, not_elem_of_app.
      split; [by apply Hdis, list_elem_of_further|]. simpl. rewrite list_elem_of_singleton. congruence.
Qed.

(** The explicit index names of a specification. *)
Definition given_names (ixs : list IndexSpec.t) : list bytes :=
  omap (λ i, lower <$> IndexSpec.name i) ixs.

Definition spec_index_ok (cs : list ColumnSpec.t) (i : IndexSpec.t) : Prop :=
  Forall (λ n, is_Some (columnIndexInSpecs cs n)) (IndexSpec.columns i).

Lemma existsb_given_false (n : bytes) (ps : list IndexSpec.t) :
  existsb (λ p, match IndexSpec.name p with Some m => namesEqual n m | None => false end) ps = false ↔
  lower n ∉ given_names ps.
Proof.
  rewrite existsb_false. unfold given_names. rewrite list_elem_of_omap. split.
  - intros H (p & Hp & Hm). apply H in Hp. destruct (IndexSpec.name p); [|done].
    simpl in Hm. injection Hm as Hm. by apply eqlIgnoreCase_false in Hp.
  - intros H p Hp. destruct (IndexSpec.name p) as [m|] eqn:Hm; [|done].
    apply eqlIgnoreCase_false. intros E. apply H. exists p. split; [done|]. rewrite Hm. by rewrite E.
Qed.

Lemma existsb_unknown_false cs ns :
  existsb (λ c, bool_decide (columnIndexInSpecs cs c = None)) ns = false ↔
  Forall (λ n, is_Some (columnIndexInSpecs cs n)) ns.
Proof.
  rewrite existsb_false, Forall_forall.
  split; intros H n Hn; specialize (H n Hn); [|rewrite <-not_eq_None_Some in H];
    [apply bool_decide_eq_false in H; by apply not_eq_None_Some|by apply bool_decide_eq_false].
Qed.

Lemma primaries_cons k ks :
  primaries (k :: ks) = ((if is_primary k then 1 else 0) + primaries ks)%nat.
Proof. unfold primaries. destruct k; done. Qed.

Lemma validateIndexesFrom_ok cs pc prev ixs :
  (pc ≤ 1)%nat →
  validateIndexesFrom cs pc prev ixs = Ok () ↔
  Forall (spec_index_ok cs) ixs ∧ NoDup (given_names ixs) ∧
  (∀ n, n ∈ given_names ixs → n ∉ given_names prev) ∧
  (pc + primaries (IndexSpec.kind <$> ixs) ≤ 1)%nat.
Proof.
  revert pc prev. induction ixs as [|i ixs IH]; intros pc prev Hpc.
  - split; [|done]. intros _. split_and!; [constructor|constructor| |simpl; unfold primaries; simpl; lia].
    intros n Hn. by apply not_elem_of_nil in Hn.
  - cbn [validateIndexesFrom]. rewrite fmap_cons, primaries_cons.
    set (pc' := (pc + (if is_primary (IndexSpec.kind i) then 1 else 0))%nat).
    assert (Hgiven : ∀ l, given_names (l ++ [i]) = given_names l ++ given_names [i])
      by (intros; apply omap_app).
    assert (Hcons : given_names (i :: ixs) = given_names [i] ++ given_names ixs)
      by apply (omap_app _ [i] ixs).
    split.
    + intros H. inv_ok. rename Ha into H1, Ha0 into H2, Ha1 into H3.
      apply bool_decide_eq_false in H1. apply existsb_unknown_false in H3.
      apply IH in H as (Hok & Hnd & Hdis & Hp); [|lia]. rewrite Hcons.
      split_and!; [by constructor| | |subst pc'; lia].
      * apply NoDup_app. split_and!; [|intros n Hn Hn'; apply (Hdis n Hn'); rewrite Hgiven, elem_of_app; by right|done].
        unfold given_names. simpl. destruct (IndexSpec.name i); simpl; [apply NoDup_singleton|constructor].
      * intros n [Hn|Hn]%elem_of_app.
        -- unfold given_names in Hn. simpl in Hn. destruct (IndexSpec.name i) as [m|]; simpl in Hn.
           ++ apply list_elem_of_singleton in Hn as ->. inv_ok. by apply existsb_given_false.
           ++ by apply not_elem_of_nil in Hn.
        -- intros Hp'. apply (Hdis n Hn). rewrite Hgiven, elem_of_app. by left.
    + intros (Hok & Hnd & Hdis & Hp). apply Forall_cons in Hok as [H3 Hok].
      rewrite Hcons in Hnd, Hdis. apply NoDup_app in Hnd as (_ & Hd & Hnd).
      rewrite bool_decide_eq_false_2 by (subst pc'; lia). simpl.
      assert (Hname : match IndexSpec.name i with
         | Some name => fail_if (existsb (λ p, match IndexSpec.name p with
             | Some m => namesEqual name m | None => false end) prev) DuplicateObject
         | None => Ok () end = Ok ()).
      { destruct (IndexSpec.name i) as [m|] eqn:Hm; [|done].
        rewrite (proj2 (existsb_given_false _ _)); [done|].
        apply Hdis. rewrite elem_of_app. left. unfold given_names. simpl. rewrite Hm. apply list_elem_of_here. }
      rewrite Hname. simpl. rewrite (proj2 (existsb_unknown_false _ _)) by done. simpl.
      apply IH; [subst pc'; lia|]. split_and!; [done|done| |subst pc'; lia].
      intros n Hn. rewrite Hgiven, not_elem_of_app. split; [apply Hdis; rewrite elem_of_app; by right|].
      intros Hn'. by apply (Hd n).
Qed.

(** ** Rebuilding a column and an index *)
Lemma columnDef_init_spec_of c :
  column_core c → default_ok c → ColumnDef.init (column_spec_of c) = Ok c.
Proof.
  destruct c as [n ty nl dv pk ai]. unfold column_core, default_ok. simpl. intros (Hty & _ & Hnl) Hd.
  assert (Heff : effectiveNullable (column_spec_of (ColumnDef.mk n ty nl dv pk ai)) = nl).
  { unfold effectiveNullable, column_spec_of. simpl. destruct nl; [|done].
    by destruct (Hnl eq_refl) as [-> ->]. }
  unfold ColumnDef.init, ColumnDef.init_default. rewrite Heff. simpl. rewrite Hty. simpl.
  destruct dv as [v|]; simpl; [|done]. destruct Hd as [Hcl Hv].
  destruct (Value.is_null v).
  - rewrite Hv. simpl. by rewrite Hcl.
  - rewrite Hv. simpl. by rewrite Hcl.
Qed.

Lemma indexDef_init_spec_of i : IndexDef.columns i ≠ [] → IndexDef.init (index_spec_of i) = Ok i.
Proof. destruct i as [n [|c cs] k]; done. Qed.

Lemma spec_names_spec_of cs : spec_names (column_spec_of <$> cs) = column_names cs.
Proof. unfold spec_names, column_names. by rewrite <-list_fmap_compose. Qed.

Lemma columnIndexInSpecs_known specs cs n :
  ColumnSpec.name <$> specs = ColumnDef.name <$> cs → columnIndexInSpecs specs n = known cs n.
Proof.
  intros H. unfold columnIndexInSpecs, known.
  rewrite <-(find_index_fmap ColumnSpec.name (λ m, namesEqual m n)).
  by rewrite H, find_index_fmap.
Qed.

Lemma column_spec_of_names (cs : list ColumnDef.t) : ColumnSpec.name <$> (column_spec_of <$> cs) = ColumnDef.name <$> cs.
Proof. by rewrite <-list_fmap_compose. Qed.

Lemma given_names_spec_of ixs : given_names (index_spec_of <$> ixs) = index_names ixs.
Proof.
  unfold given_names, index_names. induction ixs as [|i ixs IH]; csimpl; [done|]. by rewrite IH.
Qed.

(** Marking a column that already is primary changes nothing. *)
Lemma mark_primary_locked cs n j c :
  known cs n = Some j → cs !! j = Some c → locked c →
  TableDef.mark_primary (column_spec_of <$> cs) cs n = Ok cs.
Proof.
  intros Hk Hc [Hpk Hnl]. unfold TableDef.mark_primary.
  rewrite (columnIndexInSpecs_known _ cs) by apply column_spec_of_names.
  rewrite Hk. simpl. f_equal. apply list_eq. intros k. rewrite list_lookup_alter.
  case_decide; [subst k|done]. rewrite Hc. simpl. f_equal.
  destruct c as [? ? ? ? ? ?]; simpl in *; subst; done.
Qed.

Lemma known_lookup cs n j : known cs n = Some j → is_Some (cs !! j).
Proof. intros (c & Hc & _)%find_index_lookup. by exists c. Qed.

Lemma init_index_rebuild cs done i :
  index_wf cs i →
  TableDef.init_index (column_spec_of <$> cs) (cs, done) (index_spec_of i) = Ok (cs, done ++ [i]).
Proof.
  intros (Hne & Hkn & Hpr). unfold TableDef.init_index.
  rewrite indexDef_init_spec_of by done. simpl.
  destruct (is_primary (IndexDef.kind i)) eqn:Hk; simpl; [|done].
  assert (IndexDef.kind i = primary) as Hkind by (by destruct (IndexDef.kind i)).
  assert (Hfold : foldM (TableDef.mark_primary (column_spec_of <$> cs)) cs (IndexDef.columns i) = Ok cs).
  { specialize (Hpr Hkind). clear Hne Hk Hkind. induction Hkn as [|n ns [j Hj] Hkn IH]; simpl; [done|].
    destruct (known_lookup _ _ _ Hj) as [c Hc].
    rewrite (mark_primary_locked cs n j c); [simpl|done|done|].
    - apply IH. intros m k d Hm. apply Hpr. by apply list_elem_of_further.
    - eapply Hpr; [apply list_elem_of_here|done|done]. }
  by rewrite Hfold.
Qed.

(** The specification read off a definition passes the column checks, and its indexes name known columns. *)
Lemma spec_of_validateColumns t : table_core t → validateColumns (column_spec_of <$> TableDef.columns t) = Ok ().
Proof.
  intros [Hcol Hnd _ _]. apply (proj2 (validateColumnsFrom_ok [] _)).
  split_and!; [|by rewrite spec_names_spec_of|by intros ? _ ?%not_elem_of_nil].
  apply Forall_fmap. eapply Forall_impl; [exact Hcol|]. intros c (H1 & H2 & _). done.
Qed.

Lemma spec_of_indexes t :
  table_core t →
  Forall (spec_index_ok (column_spec_of <$> TableDef.columns t)) (index_spec_of <$> TableDef.indexes t) ∧
  (primaries (IndexSpec.kind <$> (index_spec_of <$> TableDef.indexes t)) ≤ 1)%nat.
Proof.
  intros [_ _ Hix Hpr]. split; [|by rewrite <-list_fmap_compose].
  apply Forall_fmap. eapply Forall_impl; [exact Hix|]. intros i (_ & H & _).
  unfold spec_index_ok. simpl. eapply Forall_impl; [exact H|]. intros m Hm.
  by rewrite (columnIndexInSpecs_known _ (TableDef.columns t)) by apply column_spec_of_names.
Qed.

Lemma spec_of_validateIndexes t :
  table_core t → NoDup (index_names (TableDef.indexes t)) →
  validateIndexes (column_spec_of <$> TableDef.columns t) (index_spec_of <$> TableDef.indexes t) = Ok ().
Proof.
  intros Hc Hin. destruct (spec_of_indexes t Hc) as [Hix Hpr].
  apply (proj2 (validateIndexesFrom_ok _ 0 [] _ ltac:(lia))).
  split_and!; [done|by rewrite given_names_spec_of|by intros ? _ ?%not_elem_of_nil|done].
Qed.

Lemma cloneTableDef_wf t : table_wf t → cloneTableDef t = Ok t.
Proof.
  intros [Hcore Hdef Hin]. pose proof (spec_of_validateColumns t Hcore) as Hvc.
  pose proof (spec_of_validateIndexes t Hcore Hin) as Hvi. destruct Hcore as [Hcol _ Hix _].
  destruct t as [n cs ixs]; simpl in *.
  unfold cloneTableDef, TableDef.init. simpl. rewrite Hvc. simpl. rewrite Hvi. simpl.
  rewrite (mapR_id ColumnDef.init column_spec_of cs); simpl.
  2:{ apply Forall_forall. intros c Hc. rewrite Forall_forall in Hcol, Hdef.
      apply columnDef_init_spec_of; auto. }
  assert (Hfold : ∀ done, foldM (TableDef.init_index (column_spec_of <$> cs)) (cs, done)
                            (index_spec_of <$> ixs) = Ok (cs, done ++ ixs)).
  { clear Hin Hvi. induction Hix as [|i ixs Hi Hix IH]; intros done;
      [by rewrite app_nil_r|].
    rewrite fmap_cons. cbn [foldM]. rewrite init_index_rebuild by done. simpl. rewrite IH. by rewrite <-app_assoc. }
  by rewrite Hfold.
Qed.

(** ** What [TableDef.init] establishes *)
Lemma columnDef_init_core spec c :
  spec_column_ok spec → ColumnDef.init spec = Ok c →
  column_core c ∧ ColumnDef.name c = ColumnSpec.name spec.
Proof.
  unfold ColumnDef.init. intros [Hty Hai] H. inv_ok. simpl. split; [|done].
  split_and!; simpl; [done|done|]. unfold effectiveNullable.
  destruct (ColumnSpec.nullable spec), (ColumnSpec.primary_key spec), (ColumnSpec.auto_increment spec); done.
Qed.

(** Columns only ever become primary: names stay, and [locked] columns stay [locked]. *)
Record extends (cs cs' : list ColumnDef.t) : Prop := {
  ext_names : ColumnDef.name <$> cs' = ColumnDef.name <$> cs;
  ext_core : Forall column_core cs → Forall column_core cs';
  ext_locked : ∀ j c, cs !! j = Some c → locked c → ∃ c', cs' !! j = Some c' ∧ locked c';
}.

#[local] Instance extends_preorder : PreOrder extends.
Proof.
  split.
  - intros cs. split; [done|done|]. intros j c Hc Hl. by exists c.
  - intros c1 c2 c3 [N1 C1 L1] [N2 C2 L2]. split; [congruence|auto|].
    intros j c Hc Hl. destruct (L1 j c Hc Hl) as (c' & Hc' & Hl'). eauto.
Qed.

Lemma mark_primary_extends specs cs n cs' :
  ColumnSpec.name <$> specs = ColumnDef.name <$> cs →
  TableDef.mark_primary specs cs n = Ok cs' →
  extends cs cs' ∧ (∀ j c, known cs' n = Some j → cs' !! j = Some c → locked c).
Proof.
  intros Hnames H. unfold TableDef.mark_primary in H. inv_ok.
  rewrite (columnIndexInSpecs_known _ cs) in Ha by done.
  assert (Hn : ColumnDef.name <$> alter ColumnDef.make_primary a cs = ColumnDef.name <$> cs).
  { apply list_eq. intros k. rewrite !list_lookup_fmap, list_lookup_alter.
    case_decide; [|done]. subst. by destruct (cs !! k). }
  split; [split; [done| |]|].
  - intros Hc. apply Forall_lookup. intros k c. rewrite list_lookup_alter. case_decide.
    + subst. intros (d & Hd & ->)%fmap_Some. rewrite Forall_lookup in Hc.
      destruct (Hc _ _ Hd) as (H1 & H2 & _). done.
    + intros Hk. rewrite Forall_lookup in Hc. by eapply Hc.
  - intros j c Hc Hl. rewrite list_lookup_alter. case_decide; [|by exists c].
    subst. rewrite Hc. simpl. by eexists.
  - intros j c Hj Hc. assert (Hjk : known cs n = Some j).
    { rewrite <-Hj. unfold known. rewrite <-!(find_index_fmap ColumnDef.name (λ m, namesEqual m n)).
      by rewrite Hn. }
    assert (j = a) as -> by congruence. rewrite list_lookup_alter in Hc.
    rewrite decide_True in Hc by done. apply fmap_Some in Hc as (d & _ & ->). done.
Qed.

Lemma known_extends cs cs' n : extends cs cs' → known cs' n = known cs n.
Proof.
  intros [Hn _ _]. unfold known. rewrite <-!(find_index_fmap ColumnDef.name (λ m, namesEqual m n)).
  by rewrite Hn.
Qed.

Lemma extends_locked cs cs' n :
  extends cs cs' →
  (∀ j c, known cs n = Some j → cs !! j = Some c → locked c) →
  (∀ j c, known cs' n = Some j → cs' !! j = Some c → locked c).
Proof.
  intros Hext H j c Hj Hc. rewrite (known_extends cs cs') in Hj by done.
  destruct (known_lookup _ _ _ Hj) as [d Hd].
  destruct (ext_locked _ _ Hext j d Hd (H j d Hj Hd)) as (d' & Hd' & Hl). congruence.
Qed.

Lemma foldM_mark_primary specs cs ns cs' :
  ColumnSpec.name <$> specs = ColumnDef.name <$> cs →
  foldM (TableDef.mark_primary specs) cs ns = Ok cs' →
  extends cs cs' ∧
  (∀ n, n ∈ ns → is_Some (known cs n) ∧ ∀ j c, known cs' n = Some j → cs' !! j = Some c → locked c).
Proof.
  revert cs. induction ns as [|n ns IH]; intros cs Hnames H; simpl in H; inv_ok.
  - split; [done|]. intros n Hn. by apply not_elem_of_nil in Hn.
  - rename a into cs1. pose proof (mark_primary_extends _ _ _ _ Hnames Ha) as [Hext Hl].
    assert (Hnames1 : ColumnSpec.name <$> specs = ColumnDef.name <$> cs1)
      by (rewrite (ext_names _ _ Hext); done).
    destruct (IH cs1 Hnames1 H) as [Hext' Hl']. split; [by etransitivity|].
    intros m [->|Hm]%elem_of_cons.
    + split; [|by eapply extends_locked].
      unfold TableDef.mark_primary in Ha. inv_ok.
      rewrite <-(columnIndexInSpecs_known specs) by done. by eexists.
    + destruct (Hl' m Hm) as [Hk Hll]. split; [|done]. by rewrite <-(known_extends cs cs1).
Qed.

Lemma index_wf_extends cs cs' i : extends cs cs' → index_wf cs i → index_wf cs' i.
Proof.
  intros Hext (H1 & H2 & H3). split_and!; [done| |].
  - eapply Forall_impl; [done|]. intros n. by rewrite (known_extends cs cs').
  - intros Hk n j c Hn. eapply extends_locked; [done|]. intros k d. by apply H3.
Qed.

Lemma init_index_wf specs cs ixs i st' :
  ColumnSpec.name <$> specs = ColumnDef.name <$> cs →
  spec_index_ok specs i →
  TableDef.init_index specs (cs, ixs) i = Ok st' →
  ∃ ix cs', st' = (cs', ixs ++ [ix]) ∧ extends cs cs' ∧ index_wf cs' ix ∧
            IndexDef.kind ix = IndexSpec.kind i.
Proof.
  unfold TableDef.init_index. intros Hnames Hok H. inv_ok. rename a into ix, a0 into cs'.
  assert (Hix : IndexDef.columns ix = IndexSpec.columns i ∧ IndexDef.kind ix = IndexSpec.kind i ∧
                IndexSpec.columns i ≠ []).
  { unfold IndexDef.init in Ha. destruct (IndexSpec.columns i) eqn:E; [done|]. inv_ok. by simpl; rewrite ?E. }
  destruct Hix as (Hc & Hk & Hne).
  exists ix, cs'. split; [done|].
  destruct (is_primary (IndexSpec.kind i)) eqn:Hp.
  - destruct (foldM_mark_primary _ _ _ _ Hnames Ha0) as [Hext Hl].
    split_and!; [done| |done]. split_and!; [by rewrite Hc| |].
    + rewrite Hc. apply Forall_forall. intros n Hn. rewrite (known_extends cs cs') by done. by apply Hl.
    + intros _ n j c Hn. rewrite Hc in Hn. by apply Hl.
  - inv_ok. split_and!; [done| |done]. split_and!; [by rewrite Hc| |].
    + rewrite Hc. unfold spec_index_ok in Hok. eapply Forall_impl; [done|]. intros n Hn.
      by rewrite <-(columnIndexInSpecs_known specs).
    + rewrite Hk. by destruct (IndexSpec.kind i).
Qed.

Lemma foldM_init_index_wf specs ispecs cs ixs st' :
  ColumnSpec.name <$> specs = ColumnDef.name <$> cs →
  Forall (spec_index_ok specs) ispecs → Forall (index_wf cs) ixs →
  foldM (TableDef.init_index specs) (cs, ixs) ispecs = Ok st' →
  extends cs st'.1 ∧ Forall (index_wf st'.1) st'.2 ∧
  IndexDef.kind <$> st'.2 = (IndexDef.kind <$> ixs) ++ (IndexSpec.kind <$> ispecs).
Proof.
  revert cs ixs. induction ispecs as [|i ispecs IH]; intros cs ixs Hnames Hok Hwf H;
    cbn [foldM] in H; inv_ok.
  - simpl. by rewrite app_nil_r.
  - apply Forall_cons in Hok as [Hi Hok].
    destruct (init_index_wf _ _ _ _ _ Hnames Hi Ha) as (ix & cs' & -> & Hext & Hix & Hk).
    apply IH in H as (Hext' & Hwf' & Hkinds); [|by rewrite (ext_names _ _ Hext)|done|].
    + split_and!; [by etransitivity|done|]. rewrite Hkinds, fmap_app. simpl. rewrite Hk.
      by rewrite <-app_assoc.
    + apply Forall_app. split; [|by constructor]. eapply Forall_impl; [done|].
      intros x. by apply index_wf_extends.
Qed.

Lemma tableDef_init_core spec t : TableDef.init spec = Ok t → table_core t.
Proof.
  unfold TableDef.init. intros H. inv_ok. rename a1 into cs, a2 into st.
  unfold validateColumns, validateIndexes in *.
  apply validateColumnsFrom_ok in Ha as (Hok & Hnd & _).
  apply validateIndexesFrom_ok in Ha0 as (Hix & _ & _ & Hpr); [|lia].
  apply mapR_ok_inv in Ha1.
  assert (Hcs : Forall column_core cs ∧ ColumnSpec.name <$> TableSpec.columns spec = ColumnDef.name <$> cs).
  { clear Ha2 Hnd Hix Hpr. induction Ha1 as [|s c specs cs Hc _ IH]; [by split; [constructor|]|].
    apply Forall_cons in Hok as [Hs Hok]. destruct (IH Hok) as [H1 H2].
    destruct (columnDef_init_core _ _ Hs Hc) as [H3 H4]. split; [by constructor|]. csimpl. congruence. }
  destruct Hcs as [Hcore Hnames].
  destruct (foldM_init_index_wf _ _ _ _ _ Hnames Hix (Forall_nil_2 _) Ha2) as (Hext & Hwf & Hkinds).
  destruct st as [cs' ixs]; simpl in *. split; simpl.
  - by apply (ext_core _ _ Hext).
  - unfold column_names. rewrite (list_fmap_compose ColumnDef.name lower).
    rewrite (ext_names _ _ Hext), <-Hnames, <-list_fmap_compose. done.
  - done.
  - by rewrite Hkinds.
Qed.

(** ** Properties *)

(** Decision procedures, so that concrete tables can be checked by computation. *)
#[global] Instance column_core_dec c : Decision (column_core c).
Proof. unfold column_core. apply _. Defined.
#[global] Instance default_ok_dec c : Decision (default_ok c).
Proof. unfold default_ok. destruct (ColumnDef.default_value c); [destruct (Value.is_null _)|]; apply _. Defined.

Definition locked_b (c : ColumnDef.t) : bool := ColumnDef.primary_key c && negb (ColumnDef.nullable c).
Definition index_wf_b (cs : list ColumnDef.t) (i : IndexDef.t) : bool :=
  bool_decide (IndexDef.columns i ≠ []) &&
  forallb (λ n, match known cs n with
                | Some j => negb (is_primary (IndexDef.kind i)) ||
                            match cs !! j with Some c => locked_b c | None => false end
                | None => false end) (IndexDef.columns i).

Lemma index_wf_b_spec cs i : index_wf_b cs i = true → index_wf cs i.
Proof.
  unfold index_wf_b. rewrite andb_true_iff, bool_decide_eq_true, forallb_forall. intros [Hne H].
  split_and!; [done| |].
  - apply Forall_forall. intros n Hn%list_elem_of_In. apply H in Hn. by destruct (known cs n).
  - intros Hk n j c Hn%list_elem_of_In Hj Hc. apply H in Hn. rewrite Hj, Hc, Hk in Hn. simpl in Hn.
    unfold locked_b in Hn. unfold locked. destruct (ColumnDef.primary_key c), (ColumnDef.nullable c); done.
Qed.

Definition table_wf_b (t : TableDef.t) : bool :=
  bool_decide (Forall column_core (TableDef.columns t)) &&
  bool_decide (NoDup (column_names (TableDef.columns t))) &&
  forallb (index_wf_b (TableDef.columns t)) (TableDef.indexes t) &&
  bool_decide (primaries (IndexDef.kind <$> TableDef.indexes t) ≤ 1)%nat &&
  bool_decide (Forall default_ok (TableDef.columns t)) &&
  bool_decide (NoDup (index_names (TableDef.indexes t))).

Lemma table_wf_b_spec t : table_wf_b t = true → table_wf t.
Proof.
  unfold table_wf_b. rewrite !andb_true_iff, !bool_decide_eq_true, forallb_forall.
  intros (((((H1 & H2) & H3) & H4) & H5) & H6). split; [split|..]; try done.
  apply Forall_forall. intros i Hi%list_elem_of_In. by apply index_wf_b_spec, H3.
Qed.

(** A table with a primary auto-increment key, a default, a vector column and two indexes. *)
Definition sample_spec : TableSpec.t :=
  TableSpec.mk (B "memories")
    [ColumnSpec.mk (B "id") ColumnType.integer true None true true;
     ColumnSpec.mk (B "body") ColumnType.text false (Some (Value.text (B "seed"))) false false;
     ColumnSpec.mk (B "embedding") (ColumnType.vector (VectorType.mk float32 2)) true None false false]
    [IndexSpec.mk None [B "id"] primary; IndexSpec.mk (Some (B "idx_body")) [B "body"] secondary].

Definition sample_table : TableDef.t :=
  Eval vm_compute in
  match TableDef.init sample_spec with Ok t => t | _ => TableDef.mk [] [] [] end.

(** A table definition accepted by [TableDef.init] has valid column types, distinct
    column names (up to case), auto-increment only on integers, no nullable key column, indexes over
    existing columns, key columns marked non-nullable and at most one primary index. *)
Theorem tableDef_init_establishes (spec : TableSpec.t) (t : TableDef.t) :
  TableDef.init spec = Ok t → table_core t ∧ TableDef.name t = TableSpec.name spec.
Proof.
  intros H. split; [by eapply tableDef_init_core|]. unfold TableDef.init in H. inv_ok. done.
Qed.

Lemma tableDef_init_establishes_witness :
  table_core sample_table ∧ TableDef.name sample_table = TableSpec.name sample_spec.
Proof. apply (tableDef_init_establishes sample_spec). vm_compute. reflexivity. Defined.

(** Re-validating a well-formed table definition, as every snapshot, export and
    reopening does, succeeds and gives back the very same definition. *)
Theorem cloneTableDef_roundtrip (t : TableDef.t) : table_wf t → cloneTableDef t = Ok t.
Proof. apply cloneTableDef_wf. Qed.

Lemma cloneTableDef_roundtrip_witness :
  table_wf sample_table ∧ cloneTableDef sample_table = Ok sample_table.
Proof.
  assert (H : table_wf sample_table) by (apply table_wf_b_spec; vm_compute; reflexivity).
  split; [exact H|]. apply cloneTableDef_roundtrip. exact H.
Defined.

(** Two unnamed secondary indexes that start with the same column get the same generated name;
    [validateIndexes] compares only explicit names, so [init] accepts them. *)
Definition twin_index_spec (n : bytes) : TableSpec.t :=
  TableSpec.mk n
    [ColumnSpec.mk (B "a") ColumnType.integer true None false false;
     ColumnSpec.mk (B "b") ColumnType.integer true None false false]
    [IndexSpec.mk None [B "a"] secondary; IndexSpec.mk None [B "a"; B "b"] secondary].

(** A column declared [DEFAULT NULL] that a table-level primary index then makes non-nullable. *)
Definition null_default_key_spec (n : bytes) : TableSpec.t :=
  TableSpec.mk n
    [ColumnSpec.mk (B "a") ColumnType.integer true (Some Value.null) false false]
    [IndexSpec.mk None [B "a"] primary].

(** [TableDef.init] accepts definitions that [cloneTableDef] rejects: two unnamed
    indexes on one column clash ([DuplicateObject]) and a [DEFAULT NULL] key column no longer
    validates ([TypeMismatch]); such a table can be created but not copied or reloaded. *)
Theorem cloneTableDef_rejects_accepted (n : bytes) :
  (∃ t, TableDef.init (twin_index_spec n) = Ok t ∧ cloneTableDef t = Err DuplicateObject) ∧
  (∃ t, TableDef.init (null_default_key_spec n) = Ok t ∧ cloneTableDef t = Err TypeMismatch).
Proof. split; eexists; split; reflexivity. Qed.
