(* ===== verification/RowStore.v ===== *)
(** * Row stores (src/db/row_store.zig)

    A table's rows in insertion order with their 64-bit row ids and the next id to hand out.
    [store.table] is a pointer in the source; here the store carries the definition it points to. *)

From stdpp Require Import gmap.
From S2P Require Import Prelude Float Value Catalog TableFacts.

Abbreviation RowId := Z (only parsing).

Inductive RowStoreDiagnosticKind :=
  | rs_column_count_mismatch | rs_duplicate_row | rs_unknown_row
  | rs_type_mismatch | rs_vector_dimension_mismatch | rs_invalid_vector_dimension.

Definition row_store_diagnosticFromError (err : Error) : option RowStoreDiagnosticKind :=
  match err with
  | ColumnCountMismatch => Some rs_column_count_mismatch
  | DuplicateRow => Some rs_duplicate_row
  | UnknownRow => Some rs_unknown_row
  | TypeMismatch => Some rs_type_mismatch
  | VectorDimensionMismatch => Some rs_vector_dimension_mismatch
  | InvalidVectorDimension => Some rs_invalid_vector_dimension
  | _ => None
  end.

(** The column check of [validateValues]; any other error of [validateValue] is [unreachable]. *)
Definition validateColumnValue (column : ColumnDef.t) (v : Value.t) : Result () :=
  match ColumnDef.validateValue column v with
  | Ok _ => Ok ()
  | Err TypeMismatch => Err TypeMismatch
  | Err VectorDimensionMismatch => Err VectorDimensionMismatch
  | Err InvalidVectorDimension => Err InvalidVectorDimension
  | _ => Panic
  end.

Definition validateValues (table : TableDef.t) (values : list Value.t) : Result () :=
  _ ← fail_if (negb (length values =? length (TableDef.columns table))%nat) ColumnCountMismatch;
  foldM (λ _ '(v, column), validateColumnValue column v) () (zip values (TableDef.columns table)).

Module Row.
Record t := mk { id : RowId; values : list Value.t }.

Definition init (table : TableDef.t) (id : RowId) (values : list Value.t) : Result t :=
  _ ← validateValues table values;
  owned ← cloneValues values;
  Ok (mk id owned).

Definition clone (self : t) (table : TableDef.t) : Result t := init table (id self) (values self).

Definition replaceValues (self : t) (table : TableDef.t) (next_values : list Value.t) : Result t :=
  replacement ← init table (id self) next_values;
  Ok (mk (id self) (values replacement)).
End Row.

#[global] Instance Row_eq_dec : EqDecision Row.t.
Proof. solve_decision. Defined.

(** The search loops over a row list by id (row store, transaction inserts and updates). *)
Definition findRow (rows : list Row.t) (id : RowId) : option nat :=
  find_index (λ r, Row.id r =? id) rows.

Module RowStore.
Record t := mk {
  table : TableDef.t;
  rows_list : list Row.t;
  next_id : RowId;
}.

Definition init (table : TableDef.t) : t := mk table [] 1.

Definition findRowIndex (self : t) (id : RowId) : option nat := findRow (rows_list self) id.

Definition clone (self : t) : Result t :=
  rows ← mapR (λ row, Row.clone row (table self)) (rows_list self);
  Ok (mk (table self) rows (next_id self)).

Definition nextRowId (self : t) : RowId := next_id self.

Definition allocateRowId (self : t) : Result (t * RowId) :=
  next ← checked_u64 (next_id self + 1);
  Ok (mk (table self) (rows_list self) next, next_id self).

Definition insertWithId (self : t) (id : RowId) (values : list Value.t) : Result t :=
  _ ← fail_if (bool_decide (is_Some (findRowIndex self id))) DuplicateRow;
  row ← Row.init (table self) id values;
  next ← (if next_id self <=? id then checked_u64 (id + 1) else Ok (next_id self));
  Ok (mk (table self) (rows_list self ++ [row]) next).

Definition insert (self : t) (values : list Value.t) : Result (t * RowId) :=
  let id := nextRowId self in
  self' ← insertWithId self id values;
  Ok (self', id).

Definition update (self : t) (id : RowId) (values : list Value.t) : Result t :=
  index ← orelse (findRowIndex self id) UnknownRow;
  row ← item_at (rows_list self) index;
  row' ← Row.replaceValues row (table self) values;
  Ok (mk (table self) (<[index := row']> (rows_list self)) (next_id self)).

Definition delete (self : t) (id : RowId) : Result t :=
  index ← orelse (findRowIndex self id) UnknownRow;
  Ok (mk (table self) (base.delete index (rows_list self)) (next_id self)).

Definition get (self : t) (id : RowId) : option Row.t :=
  index ← findRowIndex self id; rows_list self !! index.

Definition rows (self : t) : list Row.t := rows_list self.

(** [store.table = &...], done by the owners of the store when their tables move. *)
Definition set_table (self : t) (table : TableDef.t) : t := mk table (rows_list self) (next_id self).
End RowStore.

(** ** Row validity *)
Definition values_ok (table : TableDef.t) (vs : list Value.t) : Prop :=
  validateValues table vs = Ok () ∧ cloneValues vs = Ok vs.

Definition row_ok (table : TableDef.t) (r : Row.t) : Prop := values_ok table (Row.values r).

#[global] Instance values_ok_dec table vs : Decision (values_ok table vs).
Proof. unfold values_ok. apply _. Defined.
#[global] Instance row_ok_dec table r : Decision (row_ok table r).
Proof. unfold row_ok. apply _. Defined.

Lemma row_init_ok table id vs r :
  Row.init table id vs = Ok r ↔ values_ok table vs ∧ r = Row.mk id vs.
Proof.
  unfold Row.init, values_ok. split.
  - intros H. inv_ok. pose proof (cloneValues_id _ _ Ha0) as ->. done.
  - intros [[-> H2] ->]. simpl. by rewrite H2.
Qed.

Lemma row_init_row_ok table id vs r : Row.init table id vs = Ok r → row_ok table r.
Proof. by intros [H ->]%row_init_ok. Qed.

Lemma row_clone_ok table r : row_ok table r → Row.clone r table = Ok r.
Proof. intros H. apply row_init_ok. split; [done|]. by destruct r. Qed.

Lemma replaceValues_init table r vs :
  Row.replaceValues r table vs = Row.init table (Row.id r) vs.
Proof.
  unfold Row.replaceValues. destruct (Row.init table (Row.id r) vs) eqn:H; simpl; try done.
  apply row_init_ok in H as [_ ->]. done.
Qed.

Lemma mapR_clone_ok table rows :
  Forall (row_ok table) rows → mapR (λ r, Row.clone r table) rows = Ok rows.
Proof.
  intros H. rewrite <-(list_fmap_id rows) at 1. apply mapR_id.
  eapply Forall_impl; [done|]. intros. by apply row_clone_ok.
Qed.

(** ** Searching by id *)
Definition ids (rows : list Row.t) : list Z := Row.id <$> rows.

Lemma findRow_None rows id : findRow rows id = None ↔ id ∉ ids rows.
Proof.
  unfold findRow, ids. rewrite find_index_None, Forall_forall, list_elem_of_fmap. split.
  - intros H (r & -> & Hr). apply H in Hr. lia.
  - intros H r Hr. apply Z.eqb_neq. intros E. apply H. by exists r.
Qed.

Lemma findRow_is_Some rows id : is_Some (findRow rows id) ↔ id ∈ ids rows.
Proof.
  destruct (findRow rows id) eqn:H.
  - split; [intros _|by eauto]. apply dec_stable. intros Hn. apply findRow_None in Hn. congruence.
  - apply findRow_None in H. split; [by intros []|done].
Qed.

Lemma findRow_Some rows id i :
  findRow rows id = Some i → ∃ r, rows !! i = Some r ∧ Row.id r = id.
Proof. intros (r & Hr & Heq)%find_index_lookup. exists r. split; [done|]. lia. Qed.

Lemma findRow_lookup rows i r :
  NoDup (ids rows) → rows !! i = Some r → findRow rows (Row.id r) = Some i.
Proof.
  intros Hnd Hr. apply find_index_Some. split; [exists r; split; [done|lia]|].
  intros j r' Hj Hr'. apply Z.eqb_neq. intros E.
  assert (j = i) as ->; [|lia]. eapply NoDup_lookup; [exact Hnd| |];
    unfold ids; rewrite list_lookup_fmap.
  - by rewrite Hr'.
  - rewrite Hr. simpl. by rewrite E.
Qed.

Lemma findRow_app rows1 rows2 id :
  findRow (rows1 ++ rows2) id =
  match findRow rows1 id with
  | Some i => Some i
  | None => Nat.add (length rows1) <$> findRow rows2 id
  end.
Proof. apply find_index_app. Qed.

(** ** The store invariant *)
Record store_wf (s : RowStore.t) : Prop := {
  store_ids : NoDup (ids (RowStore.rows_list s));
  store_bounds : Forall (λ id, 0 ≤ id < RowStore.next_id s) (ids (RowStore.rows_list s));
  store_next : 0 < RowStore.next_id s ≤ u64_max;
  store_rows : Forall (row_ok (RowStore.table s)) (RowStore.rows_list s);
}.

#[global] Instance store_wf_dec s : Decision (store_wf s).
Proof.
  refine (cast_if (decide (
    NoDup (ids (RowStore.rows_list s)) ∧
    Forall (λ id, 0 ≤ id < RowStore.next_id s) (ids (RowStore.rows_list s)) ∧
    0 < RowStore.next_id s ≤ u64_max ∧
    Forall (row_ok (RowStore.table s)) (RowStore.rows_list s)))).
  - abstract (by destruct_and!; split).
  - abstract (intros []; naive_solver).
Defined.

Lemma store_init_wf t : store_wf (RowStore.init t).
Proof. split; simpl; [constructor|constructor|unfold u64_max; lia|constructor]. Qed.

Lemma store_clone_wf s : store_wf s → RowStore.clone s = Ok s.
Proof.
  intros [_ _ _ H]. unfold RowStore.clone. rewrite mapR_clone_ok by done. by destruct s.
Qed.

Lemma ids_app l1 l2 : ids (l1 ++ l2) = ids l1 ++ ids l2.
Proof. apply fmap_app. Qed.

Lemma insertWithId_ok s id vs s' :
  RowStore.insertWithId s id vs = Ok s' ↔
  id ∉ ids (RowStore.rows_list s) ∧ values_ok (RowStore.table s) vs ∧
  (RowStore.next_id s ≤ id → is_u64 (id + 1)) ∧
  s' = RowStore.mk (RowStore.table s) (RowStore.rows_list s ++ [Row.mk id vs])
         (Z.max (RowStore.next_id s) (if RowStore.next_id s <=? id then id + 1 else RowStore.next_id s)).
Proof.
  unfold RowStore.insertWithId, RowStore.findRowIndex. split.
  - intros H. inv_ok. apply bool_decide_eq_false in Ha. rewrite findRow_is_Some in Ha.
    apply row_init_ok in Ha0 as [Hv ->]. split_and!; [done|done| |].
    + intros Hle. apply Z.leb_le in Hle. rewrite Hle in Ha1. by apply checked_u64_ok in Ha1 as [? _].
    + f_equal. destruct (Z.leb_spec (RowStore.next_id s) id).
      * apply checked_u64_ok in Ha1 as [_ ->]. lia.
      * inv_ok. lia.
  - intros (Hid & Hv & Hb & ->). rewrite bool_decide_eq_false_2 by (by rewrite findRow_is_Some).
    simpl. rewrite (proj2 (row_init_ok _ id vs (Row.mk id vs))) by done. simpl.
    destruct (Z.leb_spec (RowStore.next_id s) id).
    + rewrite checked_u64_in by auto. simpl. do 2 f_equal. lia.
    + simpl. do 2 f_equal. lia.
Qed.

Lemma insertWithId_wf s id vs s' :
  store_wf s → 0 ≤ id → RowStore.insertWithId s id vs = Ok s' → store_wf s'.
Proof.
  intros [Hnd Hb Hn Hr] Hid (Hnin & Hv & Hov & ->)%insertWithId_ok. split; simpl.
  - rewrite ids_app. apply NoDup_app. split_and!; [done| |apply NoDup_singleton].
    intros x Hx ->%list_elem_of_singleton. done.
  - rewrite ids_app. apply Forall_app. split.
    + eapply Forall_impl; [done|]. intros; simpl in *. destruct (Z.leb_spec (RowStore.next_id s) id); lia.
    + repeat constructor; simpl; destruct (Z.leb_spec (RowStore.next_id s) id); lia.
  - destruct (Z.leb_spec (RowStore.next_id s) id) as [Hle|]; [|lia]. destruct (Hov Hle). lia.
  - apply Forall_app. split; [done|]. by constructor; [|constructor].
Qed.

Lemma store_update_ok s id vs s' :
  RowStore.update s id vs = Ok s' →
  ∃ i, findRow (RowStore.rows_list s) id = Some i ∧ values_ok (RowStore.table s) vs ∧
       s' = RowStore.mk (RowStore.table s) (<[i := Row.mk id vs]> (RowStore.rows_list s)) (RowStore.next_id s).
Proof.
  unfold RowStore.update, RowStore.findRowIndex. intros H. inv_ok. rename a into i, a0 into r.
  rewrite replaceValues_init in Ha1. apply row_init_ok in Ha1 as [Hv ->].
  apply item_at_ok in Ha0.
  apply findRow_Some in Ha as Hr. destruct Hr as (r' & Hr' & <-). exists i. split_and!; [done|done|].
  simplify_eq. done.
Qed.

Lemma ids_insert rows i r vs :
  rows !! i = Some r → ids (<[i := Row.mk (Row.id r) vs]> rows) = ids rows.
Proof.
  intros H. unfold ids. rewrite list_fmap_insert. simpl. apply list_insert_id.
  by rewrite list_lookup_fmap, H.
Qed.

Lemma store_update_wf s id vs s' : store_wf s → RowStore.update s id vs = Ok s' → store_wf s'.
Proof.
  intros [Hnd Hb Hn Hr] (i & Hi & Hv & ->)%store_update_ok.
  apply findRow_Some in Hi as (r & Hri & <-).
  split; simpl; rewrite ?(ids_insert _ _ _ vs Hri); try done.
  by apply Forall_insert.
Qed.

Lemma ids_delete i rows : ids (delete i rows) = delete i (ids rows).
Proof.
  unfold ids. rewrite !delete_take_drop, fmap_app, fmap_take, fmap_drop. done.
Qed.

Lemma Forall_list_delete {A} (P : A → Prop) i l : Forall P l → Forall P (delete i l).
Proof. rewrite delete_take_drop. intros H. apply Forall_app. auto using Forall_take, Forall_drop. Qed.

Lemma NoDup_list_delete {A} i (l : list A) : NoDup l → NoDup (delete i l).
Proof. intros H. eapply sublist_NoDup; [exact H|apply sublist_delete]. Qed.

Lemma store_delete_wf s id s' : store_wf s → RowStore.delete s id = Ok s' → store_wf s'.
Proof.
  unfold RowStore.delete. intros [Hnd Hb Hn Hr] H. inv_ok.
  split; simpl; rewrite ?ids_delete; auto using NoDup_list_delete, Forall_list_delete.
Qed.

(** ** Rebuilding a store row by row

    Retained snapshots, snapshot files and database images all rebuild a store by inserting its
    rows with their ids and then restoring [next_id]. *)
Definition insert_rows (store : RowStore.t) (rows : list Row.t) : Result RowStore.t :=
  foldM (λ s row, RowStore.insertWithId s (Row.id row) (Row.values row)) store rows.

Lemma insert_rows_ok s rows :
  NoDup (ids (RowStore.rows_list s ++ rows)) →
  Forall (λ id, is_u64 (id + 1)) (ids rows) → Forall (row_ok (RowStore.table s)) rows →
  ∃ n, insert_rows s rows = Ok (RowStore.mk (RowStore.table s) (RowStore.rows_list s ++ rows) n).
Proof.
  unfold insert_rows. revert s. induction rows as [|r rows IH]; intros s Hnd Hb Hr; cbn [foldM].
  - exists (RowStore.next_id s). rewrite app_nil_r. by destruct s.
  - apply Forall_cons in Hr as [Hr Hrs]. unfold ids in Hb. rewrite fmap_cons in Hb.
    apply Forall_cons in Hb as [Hb Hbs].
    assert (Row.id r ∉ ids (RowStore.rows_list s)).
    { rewrite ids_app in Hnd. apply NoDup_app in Hnd as (_ & Hd & _). intros Hin.
      apply (Hd _ Hin). unfold ids. rewrite fmap_cons. apply list_elem_of_here. }
    rewrite (proj2 (insertWithId_ok s _ _ _)) by (split_and!; [done|done|done|reflexivity]).
    cbn [mbind result_bind].
    match goal with |- context [foldM _ ?s' _] => destruct (IH s') as [n Hn] end; cbn in *.
    + by rewrite <-app_assoc; destruct r.
    + done.
    + done.
    + exists n. rewrite Hn, <-app_assoc. by destruct r.
Qed.

Lemma insert_rows_init s :
  store_wf s → ∃ n, insert_rows (RowStore.init (RowStore.table s)) (RowStore.rows_list s) =
                    Ok (RowStore.mk (RowStore.table s) (RowStore.rows_list s) n).
Proof.
  intros [Hnd Hb Hn Hr]. apply (insert_rows_ok (RowStore.init (RowStore.table s))); simpl; [done| |done].
  eapply Forall_impl; [exact Hb|]. unfold is_u64. intros; simpl in *. lia.
Qed.

Lemma insert_rows_exact s rows :
  NoDup (ids (RowStore.rows_list s ++ rows)) →
  Forall (λ id, id < RowStore.next_id s) (ids rows) → Forall (row_ok (RowStore.table s)) rows →
  insert_rows s rows = Ok (RowStore.mk (RowStore.table s) (RowStore.rows_list s ++ rows) (RowStore.next_id s)).
Proof.
  unfold insert_rows. revert s. induction rows as [|r rows IH]; intros s Hnd Hb Hr; cbn [foldM].
  - rewrite app_nil_r. by destruct s.
  - apply Forall_cons in Hr as [Hr Hrs]. unfold ids in Hb. rewrite fmap_cons in Hb.
    apply Forall_cons in Hb as [Hb Hbs].
    assert (Row.id r ∉ ids (RowStore.rows_list s)).
    { rewrite ids_app in Hnd. apply NoDup_app in Hnd as (_ & Hd & _). intros Hin.
      apply (Hd _ Hin). unfold ids. rewrite fmap_cons. apply list_elem_of_here. }
    rewrite (proj2 (insertWithId_ok s _ _ _)) by (split_and!; [done|done|lia|reflexivity]).
    cbn [mbind result_bind]. destruct (Z.leb_spec (RowStore.next_id s) (Row.id r)); [lia|]. rewrite Z.max_id.
    rewrite IH; cbn; [|by rewrite <-app_assoc; destruct r|done|done].
    rewrite <-app_assoc. by destruct r.
Qed.
