(* ===== verification/Transaction.v ===== *)
(** * Transactions over one row store (src/db/transaction.zig)

    A transaction stages inserts, updates and deletes against a row store it points to; [store]
    is that pointee and is passed to the operations that read or replace it.  The main result is
    [transaction_private_copy]: between [begin] and [commit] the staged operations behave, errors
    included, like operations on a private copy of the store, [scan] shows that copy, and
    [commit] installs its rows. *)

From S2P Require Import Prelude Float Value Catalog RowStore.

Inductive TransactionState := active | committed | rolled_back.

#[global] Instance TransactionState_eq_dec : EqDecision TransactionState.
Proof. solve_decision. Defined.

Inductive TransactionDiagnosticKind :=
  | tx_already_committed | tx_already_rolled_back | tx_column_count_mismatch | tx_duplicate_row
  | tx_unknown_row | tx_type_mismatch | tx_vector_dimension_mismatch | tx_invalid_vector_dimension.

Definition transaction_diagnosticFromError (err : Error) : option TransactionDiagnosticKind :=
  match err with
  | AlreadyCommitted => Some tx_already_committed
  | AlreadyRolledBack => Some tx_already_rolled_back
  | ColumnCountMismatch => Some tx_column_count_mismatch
  | DuplicateRow => Some tx_duplicate_row
  | UnknownRow => Some tx_unknown_row
  | TypeMismatch => Some tx_type_mismatch
  | VectorDimensionMismatch => Some tx_vector_dimension_mismatch
  | InvalidVectorDimension => Some tx_invalid_vector_dimension
  | _ => None
  end.

Module Transaction.
Record t := mk {
  state : TransactionState;
  next_id : RowId;
  inserts : list Row.t;
  updates : list Row.t;
  deletes : list RowId;
}.

Definition begin (store : RowStore.t) : t := mk active (RowStore.nextRowId store) [] [] [].

Definition ensureActive (self : t) : Result () :=
  match state self with
  | active => Ok ()
  | committed => Err AlreadyCommitted
  | rolled_back => Err AlreadyRolledBack
  end.

Definition findInsertedIndex (self : t) (id : RowId) : option nat := findRow (inserts self) id.
Definition findUpdatedIndex (self : t) (id : RowId) : option nat := findRow (updates self) id.
Definition isDeleted (self : t) (id : RowId) : bool := existsb (λ deleted, deleted =? id) (deletes self).

(** [clearLocalRows] together with the state change of its callers *)
Definition clearLocalRows (self : t) (st : TransactionState) : t := mk st (next_id self) [] [] [].

Definition insert (self : t) (store : RowStore.t) (values : list Value.t) : Result (t * RowId) :=
  _ ← ensureActive self;
  let id := next_id self in
  row ← Row.init (RowStore.table store) id values;
  next ← checked_u64 (next_id self + 1);
  Ok (mk (state self) next (inserts self ++ [row]) (updates self) (deletes self), id).

Definition update (self : t) (store : RowStore.t) (id : RowId) (values : list Value.t) : Result t :=
  _ ← ensureActive self;
  match findInsertedIndex self id with
  | Some index =>
      row ← item_at (inserts self) index;
      row' ← Row.replaceValues row (RowStore.table store) values;
      Ok (mk (state self) (next_id self) (<[index := row']> (inserts self)) (updates self) (deletes self))
  | None =>
      _ ← fail_if (isDeleted self id || bool_decide (RowStore.get store id = None)) UnknownRow;
      match findUpdatedIndex self id with
      | Some index =>
          row ← item_at (updates self) index;
          row' ← Row.replaceValues row (RowStore.table store) values;
          Ok (mk (state self) (next_id self) (inserts self) (<[index := row']> (updates self)) (deletes self))
      | None =>
          update_row ← Row.init (RowStore.table store) id values;
          Ok (mk (state self) (next_id self) (inserts self) (updates self ++ [update_row]) (deletes self))
      end
  end.

Definition delete (self : t) (store : RowStore.t) (id : RowId) : Result t :=
  _ ← ensureActive self;
  match findInsertedIndex self id with
  | Some index =>
      Ok (mk (state self) (next_id self) (base.delete index (inserts self)) (updates self) (deletes self))
  | None =>
      _ ← fail_if (bool_decide (RowStore.get store id = None) || isDeleted self id) UnknownRow;
      let updates' :=
        match findUpdatedIndex self id with
        | Some index => base.delete index (updates self)
        | None => updates self
        end in
      Ok (mk (state self) (next_id self) (inserts self) updates' (deletes self ++ [id]))
  end.

(** The rows a scan shows for one committed row: none when deleted, the staged update if any. *)
Definition visible_row (self : t) (row : Row.t) : Result Row.t :=
  match findUpdatedIndex self (Row.id row) with
  | Some index => item_at (updates self) index
  | None => Ok row
  end.

Definition scan_committed (self : t) (base : RowStore.t) (visible : list Row.t) (row : Row.t)
    : Result (list Row.t) :=
  if isDeleted self (Row.id row) then Ok visible
  else
    r ← visible_row self row;
    cloned ← Row.clone r (RowStore.table base);
    Ok (visible ++ [cloned]).

Definition scanWithBase (self : t) (store base : RowStore.t) : Result (list Row.t) :=
  _ ← ensureActive self;
  visible ← foldM (scan_committed self base) [] (RowStore.rows base);
  foldM (λ visible inserted,
           cloned ← Row.clone inserted (RowStore.table store);
           Ok (visible ++ [cloned])) visible (inserts self).

Definition scan (self : t) (store : RowStore.t) : Result (list Row.t) := scanWithBase self store store.

(** The id a staged insert gets at commit: its own if still free, else the store's next id. *)
Definition commit_insert (next : RowStore.t) (inserted : Row.t) : Result RowStore.t :=
  let commit_id :=
    match RowStore.get next (Row.id inserted) with
    | None => Row.id inserted
    | Some _ => RowStore.nextRowId next
    end in
  RowStore.insertWithId next commit_id (Row.values inserted).

Definition commit (self : t) (store : RowStore.t) : Result (t * RowStore.t) :=
  _ ← ensureActive self;
  next ← RowStore.clone store;
  next ← foldM RowStore.delete next (deletes self);
  next ← foldM (λ s updated, RowStore.update s (Row.id updated) (Row.values updated)) next (updates self);
  next ← foldM commit_insert next (inserts self);
  Ok (clearLocalRows self committed, next).

Definition rollback (self : t) : Result t :=
  _ ← ensureActive self;
  Ok (clearLocalRows self rolled_back).
End Transaction.

(** ** The private copy a transaction stands for *)
Definition deleted (tx : Transaction.t) (id : Z) : Prop := id ∈ Transaction.deletes tx.

Lemma isDeleted_spec tx id : Transaction.isDeleted tx id = bool_decide (id ∈ Transaction.deletes tx).
Proof.
  apply eq_true_iff_eq. rewrite bool_decide_eq_true. unfold Transaction.isDeleted.
  rewrite existsb_exists. split.
  - intros (d & Hd & Heq). apply list_elem_of_In in Hd. assert (d = id) as <- by lia. done.
  - intros H. exists id. split; [by apply list_elem_of_In|lia].
Qed.

(** The staged replacement of a row, if any. *)
Definition subst_row (ups : list Row.t) (r : Row.t) : Row.t :=
  default r (i ← findRow ups (Row.id r); ups !! i).

Definition base_view (tx : Transaction.t) (rows : list Row.t) : list Row.t :=
  subst_row (Transaction.updates tx) <$> filter (λ r, Row.id r ∉ Transaction.deletes tx) rows.

Definition view (tx : Transaction.t) (rows : list Row.t) : list Row.t :=
  base_view tx rows ++ Transaction.inserts tx.

Definition private (tx : Transaction.t) (store : RowStore.t) : RowStore.t :=
  RowStore.mk (RowStore.table store) (view tx (RowStore.rows_list store)) (Transaction.next_id tx).

(** The transaction invariant relative to the store it was begun on. *)
Record tx_wf (tx : Transaction.t) (store : RowStore.t) : Prop := {
  tx_store : store_wf store;
  tx_active : Transaction.state tx = active;
  tx_next : RowStore.next_id store ≤ Transaction.next_id tx ≤ u64_max;
  tx_inserts_nodup : NoDup (ids (Transaction.inserts tx));
  tx_inserts_bounds : Forall (λ id, RowStore.next_id store ≤ id < Transaction.next_id tx)
                             (ids (Transaction.inserts tx));
  tx_updates_nodup : NoDup (ids (Transaction.updates tx));
  tx_updates_known : Forall (λ id, id ∈ ids (RowStore.rows_list store) ∧ id ∉ Transaction.deletes tx)
                            (ids (Transaction.updates tx));
  tx_deletes_nodup : NoDup (Transaction.deletes tx);
  tx_deletes_known : Forall (λ id, id ∈ ids (RowStore.rows_list store)) (Transaction.deletes tx);
  tx_rows_ok : Forall (row_ok (RowStore.table store)) (Transaction.inserts tx ++ Transaction.updates tx);
}.

Lemma begin_wf store : store_wf store → tx_wf (Transaction.begin store) store.
Proof.
  intros H. pose proof (store_next _ H). unfold RowStore.nextRowId in *.
  split; simpl; try done; try constructor; unfold Transaction.begin, RowStore.nextRowId; simpl; lia.
Qed.

(** *** Row lists with distinct ids: updating and deleting by id, pointwise *)
Lemma subst_row_id ups r : Row.id (subst_row ups r) = Row.id r.
Proof.
  unfold subst_row. destruct (findRow ups (Row.id r)) as [i|] eqn:Hi; simpl; [|done].
  apply findRow_Some in Hi as (u & -> & Hu). done.
Qed.

Lemma ids_base_view tx rows :
  ids (base_view tx rows) = filter (λ id, id ∉ Transaction.deletes tx) (ids rows).
Proof.
  unfold base_view, ids. rewrite <-list_fmap_compose.
  rewrite (list_fmap_ext _ Row.id); [|intros; apply subst_row_id].
  induction rows as [|r rows IH]; [done|]. rewrite filter_cons, fmap_cons, filter_cons.
  case_decide; csimpl; by rewrite IH.
Qed.

Lemma insert_by_id rows id i x :
  NoDup (ids rows) → findRow rows id = Some i →
  <[i := x]> rows = (λ r, if Row.id r =? id then x else r) <$> rows.
Proof.
  intros Hnd Hi. apply findRow_Some in Hi as (r & Hr & <-).
  apply list_eq. intros j. rewrite list_lookup_fmap. destruct (decide (i = j)) as [<-|Hij].
  - rewrite list_lookup_insert_eq by (by eapply lookup_lt_Some). rewrite Hr. simpl.
    by rewrite Z.eqb_refl.
  - rewrite list_lookup_insert_ne by done. destruct (rows !! j) as [r'|] eqn:Hr'; [|done]. simpl.
    destruct (Z.eqb_spec (Row.id r') (Row.id r)) as [E|]; [|done].
    destruct Hij. eapply NoDup_lookup; [exact Hnd| |]; unfold ids; rewrite list_lookup_fmap;
      [by rewrite Hr | by rewrite Hr'; simpl; rewrite E].
Qed.

Lemma delete_by_id rows id i :
  NoDup (ids rows) → findRow rows id = Some i →
  delete i rows = filter (λ r, Row.id r ≠ id) rows.
Proof.
  unfold findRow. revert i. induction rows as [|r rows IH]; intros i Hnd Hi; simpl in Hi; [done|].
  unfold ids in Hnd. rewrite fmap_cons in Hnd. apply NoDup_cons in Hnd as [Hnin Hnd].
  rewrite filter_cons. destruct (Z.eqb_spec (Row.id r) id) as [<-|Hne].
  - injection Hi as <-. simpl. rewrite decide_False by (intros []; done).
    symmetry. apply filter_all.
    apply Forall_forall. intros r' Hr' E. apply Hnin. rewrite <-E. by apply list_elem_of_fmap_2.
  - apply fmap_Some in Hi as (j & Hj & ->). rewrite decide_True by done. simpl. f_equal. by apply IH.
Qed.

(** *** One staged operation = the same operation on the private copy *)
Section simulation.
Context (tx : Transaction.t) (store : RowStore.t).
Hypothesis Hwf : tx_wf tx store.

Let rows := RowStore.rows_list store.

Lemma base_view_bounds : Forall (λ id, 0 ≤ id < RowStore.next_id store) (ids (base_view tx rows)).
Proof.
  rewrite ids_base_view. apply Forall_forall. intros id [_ Hid]%list_elem_of_filter.
  pose proof (store_bounds _ (tx_store _ _ Hwf)) as H. rewrite Forall_forall in H. by apply H.
Qed.

Lemma base_view_inserts_disjoint id :
  id ∈ ids (base_view tx rows) → id ∉ ids (Transaction.inserts tx).
Proof.
  intros H1 H2. pose proof base_view_bounds as Hb.
  pose proof (tx_inserts_bounds _ _ Hwf) as Hi. rewrite Forall_forall in Hb, Hi.
  apply Hb in H1. apply Hi in H2. lia.
Qed.

Lemma base_view_nodup : NoDup (ids (base_view tx rows)).
Proof. rewrite ids_base_view. apply NoDup_filter, (store_ids _ (tx_store _ _ Hwf)). Qed.

Lemma view_nodup : NoDup (ids (view tx rows)).
Proof.
  unfold view. rewrite ids_app. apply NoDup_app.
  split_and!; [apply base_view_nodup|apply base_view_inserts_disjoint|apply (tx_inserts_nodup _ _ Hwf)].
Qed.

Lemma view_bounds : Forall (λ id, 0 ≤ id < Transaction.next_id tx) (ids (view tx rows)).
Proof.
  unfold view. rewrite ids_app. pose proof (tx_next _ _ Hwf). pose proof (store_next _ (tx_store _ _ Hwf)).
  apply Forall_app. split.
  - eapply Forall_impl; [apply base_view_bounds|]. simpl. lia.
  - eapply Forall_impl; [apply (tx_inserts_bounds _ _ Hwf)|]. simpl. lia.
Qed.

Lemma subst_row_ok r :
  row_ok (RowStore.table store) r → row_ok (RowStore.table store) (subst_row (Transaction.updates tx) r).
Proof.
  intros Hr. unfold subst_row. destruct (findRow _ _) as [i|]; simpl; [|done].
  destruct (Transaction.updates tx !! i) as [u|] eqn:Hu; simpl; [|done].
  pose proof (tx_rows_ok _ _ Hwf) as H. apply Forall_app in H as [_ H].
  rewrite Forall_lookup in H. by eapply H.
Qed.

Lemma base_view_rows_ok : Forall (row_ok (RowStore.table store)) (base_view tx rows).
Proof.
  unfold base_view. apply Forall_fmap, Forall_forall. intros r [_ Hr]%list_elem_of_filter.
  apply subst_row_ok. pose proof (store_rows _ (tx_store _ _ Hwf)) as H. rewrite Forall_forall in H. by apply H.
Qed.

Lemma view_rows_ok : Forall (row_ok (RowStore.table store)) (view tx rows).
Proof.
  unfold view. apply Forall_app. split; [apply base_view_rows_ok|].
  pose proof (tx_rows_ok _ _ Hwf) as H. by apply Forall_app in H as [? _].
Qed.

Lemma private_wf : store_wf (private tx store).
Proof.
  pose proof (tx_next _ _ Hwf). pose proof (store_next _ (tx_store _ _ Hwf)).
  split; simpl; [apply view_nodup|apply view_bounds|lia|apply view_rows_ok].
Qed.

Lemma ensureActive_wf : Transaction.ensureActive tx = Ok ().
Proof. unfold Transaction.ensureActive. by rewrite (tx_active _ _ Hwf). Qed.

Lemma store_get_None id : RowStore.get store id = None ↔ id ∉ ids rows.
Proof.
  unfold RowStore.get, RowStore.findRowIndex. rewrite <-findRow_None. fold rows.
  destruct (findRow rows id) as [i|] eqn:Hi; simpl; [|done].
  apply findRow_Some in Hi as (r & Hr & _). fold rows. by rewrite Hr.
Qed.

Lemma in_base_view id : id ∈ ids (base_view tx rows) ↔ id ∉ Transaction.deletes tx ∧ id ∈ ids rows.
Proof. rewrite ids_base_view. by rewrite list_elem_of_filter. Qed.

(** [insert] *)
Lemma insert_simulates vs :
  (λ '(tx', id), (private tx' store, id)) <$> Transaction.insert tx store vs =
  RowStore.insert (private tx store) vs.
Proof.
  unfold Transaction.insert, RowStore.insert, RowStore.insertWithId. rewrite ensureActive_wf. simpl.
  assert (Hfresh : Transaction.next_id tx ∉ ids (view tx rows)).
  { intros Hin. pose proof view_bounds as Hb. rewrite Forall_forall in Hb. apply Hb in Hin. lia. }
  unfold RowStore.findRowIndex, RowStore.nextRowId. simpl. fold rows.
  rewrite bool_decide_eq_false_2 by (by rewrite findRow_is_Some). simpl.
  destruct (Row.init _ _ vs) as [row|e|]; simpl; try done.
  rewrite (proj2 (Z.leb_le _ _)) by lia.
  destruct (checked_u64 _) as [n|e|]; simpl; try done.
  unfold private, view, base_view. simpl. by rewrite app_assoc.
Qed.

Lemma findRow_view_insert id i :
  findRow (Transaction.inserts tx) id = Some i →
  findRow (view tx rows) id = Some (length (base_view tx rows) + i)%nat.
Proof.
  intros Hi. unfold view. rewrite findRow_app, Hi.
  assert (findRow (base_view tx rows) id = None) as ->; [|done].
  apply findRow_None. intros Hin. apply (base_view_inserts_disjoint id Hin).
  apply findRow_is_Some. by eexists.
Qed.

Lemma findRow_view_base id :
  findRow (Transaction.inserts tx) id = None →
  findRow (view tx rows) id = findRow (base_view tx rows) id.
Proof. intros Hi. unfold view. rewrite findRow_app, Hi. by destruct (findRow (base_view tx rows) id). Qed.

(** Replacing the staged row of [id] replaces it in the view. *)
Lemma base_view_update tx' id x :
  Row.id x = id → Transaction.deletes tx' = Transaction.deletes tx →
  (∀ r, subst_row (Transaction.updates tx') r =
        if Row.id r =? id then x else subst_row (Transaction.updates tx) r) →
  base_view tx' rows = (λ r, if Row.id r =? id then x else r) <$> base_view tx rows.
Proof.
  intros Hx Hd Hs. unfold base_view. rewrite Hd, <-list_fmap_compose.
  apply list_fmap_ext. intros _ r _. simpl. rewrite Hs, subst_row_id. done.
Qed.

Lemma subst_row_insert id i x :
  findRow (Transaction.updates tx) id = Some i → Row.id x = id →
  ∀ r, subst_row (<[i := x]> (Transaction.updates tx)) r =
       if Row.id r =? id then x else subst_row (Transaction.updates tx) r.
Proof.
  intros Hi Hx r. pose proof (tx_updates_nodup _ _ Hwf) as Hnd.
  apply findRow_Some in Hi as Hu. destruct Hu as (u & Hu & Huid).
  assert (Hids : ids (<[i := x]> (Transaction.updates tx)) = ids (Transaction.updates tx)).
  { unfold ids. rewrite list_fmap_insert. apply list_insert_id.
    rewrite list_lookup_fmap, Hu. simpl. congruence. }
  assert (Hfind : ∀ k, findRow (<[i := x]> (Transaction.updates tx)) k = findRow (Transaction.updates tx) k).
  { intros k. unfold findRow. rewrite <-!(find_index_fmap Row.id (λ z, z =? k)).
    unfold ids in Hids. by rewrite Hids. }
  unfold subst_row. rewrite Hfind. destruct (Z.eqb_spec (Row.id r) id) as [->|Hne].
  - rewrite Hi. simpl. by rewrite list_lookup_insert_eq by (by eapply lookup_lt_Some).
  - destruct (findRow _ (Row.id r)) as [j|] eqn:Hj; simpl; [|done].
    apply findRow_Some in Hj as (u' & Hu' & Hid'). rewrite list_lookup_insert_ne; [done|].
    intros <-. congruence.
Qed.

Lemma subst_row_app id x :
  findRow (Transaction.updates tx) id = None → Row.id x = id →
  ∀ r, subst_row (Transaction.updates tx ++ [x]) r =
       if Row.id r =? id then x else subst_row (Transaction.updates tx) r.
Proof.
  intros Hi Hx r. unfold subst_row. rewrite findRow_app.
  destruct (Z.eqb_spec (Row.id r) id) as [->|Hne].
  - rewrite Hi. unfold findRow at 1. simpl. rewrite Hx, Z.eqb_refl. simpl.
    by rewrite list_lookup_middle by lia.
  - destruct (findRow (Transaction.updates tx) (Row.id r)) as [j|] eqn:Hj; simpl.
    + apply findRow_Some in Hj as (u & Hu & _). by rewrite (lookup_app_l_Some _ _ _ _ Hu), Hu.
    + unfold findRow. simpl. destruct (Z.eqb_spec (Row.id x) (Row.id r)); [congruence|done].
Qed.

(** A staged update of a visible row replaces it in the private copy. *)
Lemma private_update tx' id x j r :
  findRow (base_view tx rows) id = Some j → base_view tx rows !! j = Some r → Row.id x = id →
  Transaction.deletes tx' = Transaction.deletes tx → Transaction.inserts tx' = Transaction.inserts tx →
  Transaction.next_id tx' = Transaction.next_id tx →
  (∀ r, subst_row (Transaction.updates tx') r = if Row.id r =? id then x else subst_row (Transaction.updates tx) r) →
  private tx' store = RowStore.mk (RowStore.table store) (<[j := x]> (view tx rows)) (Transaction.next_id tx).
Proof.
  intros Hj Hr Hx Hd Hins Hn Hs. unfold private, view. rewrite Hn, Hins. fold rows. f_equal.
  rewrite (base_view_update tx' id x) by done.
  rewrite insert_app_l by (by eapply lookup_lt_Some). f_equal.
  symmetry. apply insert_by_id; [apply base_view_nodup|done].
Qed.

(** [update] *)
Lemma update_simulates id vs :
  (λ tx', private tx' store) <$> Transaction.update tx store id vs =
  RowStore.update (private tx store) id vs.
Proof.
  unfold Transaction.update, RowStore.update, RowStore.findRowIndex. rewrite ensureActive_wf.
  unfold Transaction.findInsertedIndex, Transaction.findUpdatedIndex.
  cbn [private RowStore.rows_list RowStore.table RowStore.next_id mbind result_bind]. fold rows.
  destruct (findRow (Transaction.inserts tx) id) as [i|] eqn:Hi.
  - rewrite (findRow_view_insert _ _ Hi). cbn [orelse mbind result_bind].
    apply findRow_Some in Hi as (r & Hr & <-).
    assert (Hvr : view tx rows !! (length (base_view tx rows) + i)%nat = Some r).
    { unfold view. rewrite lookup_app_r by lia. by rewrite Nat.add_comm, Nat.add_sub. }
    unfold item_at. rewrite Hr, Hvr. cbn [mbind result_bind].
    rewrite !replaceValues_init. destruct (Row.init _ _ vs) as [row|e|]; simpl; try done.
    unfold private, view. simpl. fold rows. do 2 f_equal.
    rewrite insert_app_r_alt by lia. f_equal. f_equal. lia.
  - rewrite (findRow_view_base _ Hi). rewrite isDeleted_spec.
    destruct (findRow (base_view tx rows) id) as [j|] eqn:Hj.
    + assert (Hin : id ∈ ids (base_view tx rows)) by (apply findRow_is_Some; by eexists).
      apply in_base_view in Hin as [Hnd Hin].
      rewrite bool_decide_eq_false_2 by done.
      rewrite bool_decide_eq_false_2 by (rewrite store_get_None; tauto).
      cbn [orb fail_if orelse mbind result_bind].
      apply findRow_Some in Hj as Hr. destruct Hr as (r & Hr & Hrid).
      assert (Hvr : view tx rows !! j = Some r) by (by apply lookup_app_l_Some).
      unfold item_at. rewrite Hvr. cbn [mbind result_bind]. rewrite (replaceValues_init _ r), Hrid.
      destruct (findRow (Transaction.updates tx) id) as [k|] eqn:Hk.
      * apply findRow_Some in Hk as Hu. destruct Hu as (u & Hu & Huid). rewrite Hu. cbn [mbind result_bind].
        rewrite replaceValues_init, Huid. destruct (Row.init _ _ vs) as [row|e|] eqn:Hrow; simpl; try done.
        apply row_init_ok in Hrow as [_ ->].
        f_equal. eapply private_update; try done. simpl. by apply subst_row_insert.
      * destruct (Row.init _ _ vs) as [row|e|] eqn:Hrow; simpl; try done.
        apply row_init_ok in Hrow as [_ ->].
        f_equal. eapply private_update; try done. simpl. by apply subst_row_app.
    + assert (Hnin : id ∉ ids (base_view tx rows)) by (by apply findRow_None).
      rewrite in_base_view in Hnin.
      assert (bool_decide (id ∈ Transaction.deletes tx) || bool_decide (RowStore.get store id = None) = true) as ->.
      { apply orb_true_iff. rewrite !bool_decide_eq_true, store_get_None.
        destruct (decide (id ∈ Transaction.deletes tx)); [by left|]. right. tauto. }
      done.
Qed.

Lemma subst_row_delete id r :
  Row.id r ≠ id →
  subst_row (match findRow (Transaction.updates tx) id with
             | Some i => delete i (Transaction.updates tx)
             | None => Transaction.updates tx end) r = subst_row (Transaction.updates tx) r.
Proof.
  intros Hne. destruct (findRow (Transaction.updates tx) id) as [i|] eqn:Hi; [|done].
  rewrite (delete_by_id _ id) by (done || apply (tx_updates_nodup _ _ Hwf)).
  unfold subst_row. clear Hi. generalize (Transaction.updates tx) as ups.
  intros ups. induction ups as [|u ups IH]; [done|]. rewrite filter_cons. unfold findRow in *. case_decide.
  - simpl. destruct (Row.id u =? Row.id r); [done|].
    destruct (find_index _ (filter _ ups)), (find_index _ ups); simpl in *; done.
  - simpl. assert (Row.id u = id) as -> by (apply dec_stable; tauto).
    destruct (Z.eqb_spec id (Row.id r)); [congruence|].
    rewrite IH. by destruct (find_index _ ups).
Qed.

(** [delete] *)
Lemma delete_simulates id :
  (λ tx', private tx' store) <$> Transaction.delete tx store id =
  RowStore.delete (private tx store) id.
Proof.
  unfold Transaction.delete, RowStore.delete, RowStore.findRowIndex. rewrite ensureActive_wf.
  unfold Transaction.findInsertedIndex, Transaction.findUpdatedIndex.
  cbn [private RowStore.rows_list RowStore.table RowStore.next_id mbind result_bind]. fold rows.
  destruct (findRow (Transaction.inserts tx) id) as [i|] eqn:Hi.
  - rewrite (findRow_view_insert _ _ Hi). simpl. unfold private. simpl. do 2 f_equal.
    unfold view. simpl. fold rows. rewrite !delete_take_drop.
    apply findRow_Some in Hi as (r & Hr & _).
    rewrite take_app_ge, drop_app_ge by lia. rewrite <-app_assoc. do 2 f_equal; do 2 f_equal; lia.
  - rewrite (findRow_view_base _ Hi). rewrite isDeleted_spec.
    destruct (findRow (base_view tx rows) id) as [j|] eqn:Hj.
    + assert (Hin : id ∈ ids (base_view tx rows)) by (apply findRow_is_Some; by eexists).
      apply in_base_view in Hin as [Hnd Hin].
      rewrite (bool_decide_eq_false_2 (id ∈ _)) by done.
      rewrite bool_decide_eq_false_2 by (rewrite store_get_None; tauto). simpl.
      unfold private. simpl. do 2 f_equal. unfold view. simpl. fold rows.
      apply findRow_Some in Hj as Hr. destruct Hr as (r & Hr & _).
      assert (Hdel : delete j (base_view tx rows ++ Transaction.inserts tx) =
                     delete j (base_view tx rows) ++ Transaction.inserts tx).
      { apply lookup_lt_Some in Hr. rewrite !delete_take_drop, take_app_le, drop_app_le by lia.
        by rewrite app_assoc. }
      rewrite Hdel. f_equal. rewrite (delete_by_id _ id) by (done || apply base_view_nodup).
      unfold base_view. simpl. rewrite filter_fmap, list_filter_filter.
      rewrite (filter_ext _ (λ r, Row.id r ≠ id ∧ Row.id r ∉ Transaction.deletes tx)).
      2:{ intros x _. rewrite not_elem_of_app, list_elem_of_singleton. tauto. }
      rewrite (filter_ext (λ x, Row.id (subst_row _ x) ≠ id ∧ _)
                          (λ r, Row.id r ≠ id ∧ Row.id r ∉ Transaction.deletes tx)).
      2:{ intros x _. by rewrite subst_row_id. }
      apply list_fmap_ext. intros k x Hx. apply list_elem_of_lookup_2, list_elem_of_filter in Hx.
      apply subst_row_delete. tauto.
    + assert (Hnin : id ∉ ids (base_view tx rows)) by (by apply findRow_None).
      rewrite in_base_view in Hnin.
      assert (bool_decide (RowStore.get store id = None) || bool_decide (id ∈ Transaction.deletes tx) = true) as ->.
      { apply orb_true_iff. rewrite !bool_decide_eq_true, store_get_None.
        destruct (decide (id ∈ Transaction.deletes tx)); [by right|]. left. tauto. }
      done.
Qed.
End simulation.

(** *** The invariant is preserved by every staged operation *)
Lemma tx_insert_wf tx store vs tx' id :
  tx_wf tx store → Transaction.insert tx store vs = Ok (tx', id) → tx_wf tx' store.
Proof.
  intros Hwf. pose proof Hwf as [Hs Ha Hn Hi1 Hi2 Hu1 Hu2 Hd1 Hd2 Hr].
  unfold Transaction.insert. intros H. inv_ok. apply row_init_ok in Ha1 as [Hv ->].
  apply checked_u64_ok in Ha2 as [Hb ->]. unfold is_u64 in Hb.
  split; simpl; try done; [lia| | |].
  - rewrite ids_app. apply NoDup_app. split_and!; [done| |apply NoDup_singleton].
    intros x Hx ->%list_elem_of_singleton. rewrite Forall_forall in Hi2. apply Hi2 in Hx. simpl in Hx. lia.
  - rewrite ids_app. apply Forall_app. split; [eapply Forall_impl; [done|]; simpl; lia|].
    constructor; [simpl; lia|constructor].
  - rewrite <-app_assoc. apply Forall_app in Hr as [Hr1 Hr2]. apply Forall_app. split; [done|].
    by constructor.
Qed.

Lemma tx_update_wf tx store id vs tx' :
  tx_wf tx store → Transaction.update tx store id vs = Ok tx' → tx_wf tx' store.
Proof.
  intros Hwf. pose proof Hwf as [Hs Ha Hn Hi1 Hi2 Hu1 Hu2 Hd1 Hd2 Hr].
  apply Forall_app in Hr as [Hr1 Hr2].
  unfold Transaction.update, Transaction.findInsertedIndex, Transaction.findUpdatedIndex.
  intros H. inv_ok. destruct (findRow (Transaction.inserts tx) id) as [i|] eqn:Hi; inv_ok.
  - apply item_at_ok in Ha1. rewrite replaceValues_init in Ha2. apply row_init_ok in Ha2 as [Hv ->].
    split; simpl; rewrite ?(ids_insert _ _ _ vs Ha1); try done.
    apply Forall_app. split; [|done]. by apply Forall_insert.
  - apply orb_false_iff in Ha1 as [Hdel Hget].
    rewrite isDeleted_spec in Hdel. apply bool_decide_eq_false in Hdel, Hget.
    rewrite store_get_None in Hget. apply dec_stable in Hget.
    destruct (findRow (Transaction.updates tx) id) as [k|] eqn:Hk; inv_ok.
    + apply item_at_ok in Ha1. rewrite replaceValues_init in Ha2. apply row_init_ok in Ha2 as [Hv ->].
      split; simpl; rewrite ?(ids_insert _ _ _ vs Ha1); try done.
      apply Forall_app. split; [done|]. by apply Forall_insert.
    + apply row_init_ok in Ha1 as [Hv ->]. apply findRow_None in Hk.
      split; simpl; rewrite ?ids_app; try done.
      * apply NoDup_app. split_and!; [done| |apply NoDup_singleton].
        intros x Hx ->%list_elem_of_singleton. done.
      * apply Forall_app. split; [done|]. by constructor; [|constructor].
      * rewrite app_assoc. apply Forall_app. split; [by apply Forall_app|]. by constructor; [|constructor].
Qed.

Lemma ids_filter_ne rows id : id ∉ ids (filter (λ r, Row.id r ≠ id) rows).
Proof. unfold ids. intros (r & -> & [Hr _]%list_elem_of_filter)%list_elem_of_fmap. done. Qed.

Lemma tx_delete_wf tx store id tx' :
  tx_wf tx store → Transaction.delete tx store id = Ok tx' → tx_wf tx' store.
Proof.
  intros Hwf. pose proof Hwf as [Hs Ha Hn Hi1 Hi2 Hu1 Hu2 Hd1 Hd2 Hr].
  apply Forall_app in Hr as [Hr1 Hr2].
  unfold Transaction.delete, Transaction.findInsertedIndex, Transaction.findUpdatedIndex.
  intros H. inv_ok. destruct (findRow (Transaction.inserts tx) id) as [i|] eqn:Hi; inv_ok.
  - split; simpl; rewrite ?ids_delete; try done; auto using NoDup_list_delete, Forall_list_delete.
    apply Forall_app. auto using Forall_list_delete.
  - apply orb_false_iff in Ha1 as [Hget Hdel].
    rewrite isDeleted_spec in Hdel. apply bool_decide_eq_false in Hdel, Hget.
    rewrite store_get_None in Hget. apply dec_stable in Hget.
    set (ups := match findRow (Transaction.updates tx) id with
                | Some k => delete k (Transaction.updates tx) | None => Transaction.updates tx end).
    assert (Hups : ids ups `sublist_of` ids (Transaction.updates tx) ∧ id ∉ ids ups ∧
                   Forall (row_ok (RowStore.table store)) ups).
    { subst ups. destruct (findRow (Transaction.updates tx) id) as [k|] eqn:Hk.
      - split_and!; [rewrite ids_delete; apply sublist_delete| |by apply Forall_list_delete].
        rewrite (delete_by_id _ id) by done. apply ids_filter_ne.
      - apply findRow_None in Hk. done. }
    destruct Hups as (Hsub & Hnin & Hok). clearbody ups.
    split; simpl; try done.
    + eapply sublist_NoDup; [exact Hu1|exact Hsub].
    + apply Forall_forall. intros x Hx. rewrite Forall_forall in Hu2.
      destruct (Hu2 x) as [H1 H2]; [by eapply elem_of_sublist|].
      split; [done|]. rewrite not_elem_of_app, list_elem_of_singleton. split; [done|]. congruence.
    + apply NoDup_app. split_and!; [done| |apply NoDup_singleton].
      intros x Hx ->%list_elem_of_singleton. done.
    + apply Forall_app. split; [done|]. by constructor; [|constructor].
    + by apply Forall_app.
Qed.

(** *** Scanning *)
Lemma visible_row_subst tx r : Transaction.visible_row tx r = Ok (subst_row (Transaction.updates tx) r).
Proof.
  unfold Transaction.visible_row, Transaction.findUpdatedIndex, subst_row, item_at.
  destruct (findRow (Transaction.updates tx) (Row.id r)) as [i|] eqn:Hi; simpl; [|done].
  apply findRow_Some in Hi as (u & -> & _). done.
Qed.

Lemma foldM_clone_append table acc rows :
  Forall (row_ok table) rows →
  foldM (λ visible inserted, cloned ← Row.clone inserted table; Ok (visible ++ [cloned])) acc rows =
  Ok (acc ++ rows).
Proof.
  intros H. revert acc. induction H as [|r rows Hr _ IH]; intros acc; simpl; [by rewrite app_nil_r|].
  rewrite row_clone_ok by done. simpl. rewrite IH. by rewrite <-app_assoc.
Qed.

Lemma foldM_scan_committed tx base acc rows :
  Forall (row_ok (RowStore.table base)) (subst_row (Transaction.updates tx) <$> rows) →
  foldM (Transaction.scan_committed tx base) acc rows = Ok (acc ++ base_view tx rows).
Proof.
  revert acc. induction rows as [|r rows IH]; intros acc H; [by rewrite app_nil_r|].
  apply Forall_cons in H as [Hr H]. cbn [foldM].
  assert (Hstep : Transaction.scan_committed tx base acc r =
    Ok (if decide (Row.id r ∈ Transaction.deletes tx) then acc
        else acc ++ [subst_row (Transaction.updates tx) r])).
  { unfold Transaction.scan_committed. rewrite isDeleted_spec. case_decide as Hd.
    - by rewrite bool_decide_eq_true_2.
    - rewrite bool_decide_eq_false_2 by done. rewrite visible_row_subst. simpl.
      by rewrite row_clone_ok. }
  rewrite Hstep. cbn [mbind result_bind]. rewrite IH by done.
  unfold base_view. rewrite filter_cons. do 2 case_decide; try tauto.
  csimpl. by rewrite <-app_assoc.
Qed.

(** A scan over any valid base: the base rows with the staged changes applied, then the inserts. *)
Lemma scanWithBase_view tx store base :
  Transaction.state tx = active →
  Forall (row_ok (RowStore.table base)) (Transaction.updates tx) →
  Forall (row_ok (RowStore.table store)) (Transaction.inserts tx) →
  Forall (row_ok (RowStore.table base)) (RowStore.rows_list base) →
  Transaction.scanWithBase tx store base = Ok (view tx (RowStore.rows_list base)).
Proof.
  intros Ha Hu Hi Hr. unfold Transaction.scanWithBase, Transaction.ensureActive. rewrite Ha. simpl.
  unfold RowStore.rows. rewrite foldM_scan_committed.
  - simpl. by rewrite foldM_clone_append.
  - apply Forall_fmap. eapply Forall_impl; [exact Hr|]. intros r Hok. simpl. unfold subst_row.
    destruct (findRow _ _) as [i|]; simpl; [|done].
    destruct (Transaction.updates tx !! i) as [u|] eqn:E; simpl; [|done].
    rewrite Forall_lookup in Hu. by eapply Hu.
Qed.

Lemma scan_private tx store :
  tx_wf tx store → Transaction.scan tx store = Ok (RowStore.rows_list (private tx store)).
Proof.
  intros Hwf. pose proof (tx_rows_ok _ _ Hwf) as Hr. apply Forall_app in Hr as [Hr1 Hr2].
  apply scanWithBase_view; try done; [apply (tx_active _ _ Hwf)|apply (store_rows _ (tx_store _ _ Hwf))].
Qed.

(** *** Committing *)
Lemma ids_filter (P : Z → Prop) `{!∀ x, Decision (P x)} rows :
  ids (filter (λ r, P (Row.id r)) rows) = filter P (ids rows).
Proof. unfold ids. by rewrite filter_fmap. Qed.

Lemma store_delete_by_id s id :
  NoDup (ids (RowStore.rows_list s)) → id ∈ ids (RowStore.rows_list s) →
  RowStore.delete s id =
  Ok (RowStore.mk (RowStore.table s) (filter (λ r, Row.id r ≠ id) (RowStore.rows_list s)) (RowStore.next_id s)).
Proof.
  intros Hnd Hin. unfold RowStore.delete, RowStore.findRowIndex.
  apply findRow_is_Some in Hin as [i Hi]. rewrite Hi. simpl. by rewrite (delete_by_id _ id).
Qed.

Lemma foldM_delete s ds :
  NoDup (ids (RowStore.rows_list s)) → NoDup ds → Forall (λ d, d ∈ ids (RowStore.rows_list s)) ds →
  foldM RowStore.delete s ds =
  Ok (RowStore.mk (RowStore.table s) (filter (λ r, Row.id r ∉ ds) (RowStore.rows_list s)) (RowStore.next_id s)).
Proof.
  revert s. induction ds as [|d ds IH]; intros s Hnd Hds Hin; simpl.
  - destruct s as [t rows n]; simpl. do 2 f_equal. symmetry. apply filter_all.
    apply Forall_forall. intros r _. apply not_elem_of_nil.
  - apply NoDup_cons in Hds as [Hd Hds]. apply Forall_cons in Hin as [Hdi Hin].
    assert (Hfil : ids (filter (λ r, Row.id r ≠ d) (RowStore.rows_list s)) =
                   filter (λ x, x ≠ d) (ids (RowStore.rows_list s))) by exact (ids_filter (λ x, x ≠ d) (RowStore.rows_list s)).
    rewrite store_delete_by_id by done. simpl. rewrite IH; simpl; [| |done|].
    + do 2 f_equal. rewrite list_filter_filter. apply filter_ext. intros r _.
      rewrite elem_of_cons. tauto.
    + rewrite Hfil. by apply NoDup_filter.
    + apply Forall_forall. intros x Hx. rewrite Forall_forall in Hin. specialize (Hin x Hx).
      rewrite Hfil. apply list_elem_of_filter. split; [congruence|done].
Qed.

Lemma subst_row_cons u ups r :
  Row.id u ∉ ids ups → subst_row (u :: ups) r = subst_row ups (if Row.id r =? Row.id u then u else r).
Proof.
  intros Hnin. unfold subst_row, findRow at 1. simpl. rewrite (Z.eqb_sym (Row.id r)).
  destruct (Z.eqb_spec (Row.id u) (Row.id r)) as [E|E]; simpl.
  - by rewrite (proj2 (findRow_None ups (Row.id u)) Hnin).
  - unfold findRow. by destruct (find_index _ ups).
Qed.

Lemma foldM_update s ups :
  NoDup (ids (RowStore.rows_list s)) → NoDup (ids ups) →
  Forall (λ u, u ∈ ids (RowStore.rows_list s)) (ids ups) → Forall (row_ok (RowStore.table s)) ups →
  foldM (λ s updated, RowStore.update s (Row.id updated) (Row.values updated)) s ups =
  Ok (RowStore.mk (RowStore.table s) (subst_row ups <$> RowStore.rows_list s) (RowStore.next_id s)).
Proof.
  revert s. induction ups as [|u ups IH]; intros s Hnd Hu Hin Hok; cbn [foldM].
  - destruct s as [t rows n]; simpl. do 2 f_equal. rewrite (list_fmap_ext _ id); [by rewrite list_fmap_id|done].
  - unfold ids in Hu, Hin. rewrite fmap_cons in Hu, Hin.
    apply NoDup_cons in Hu as [Hun Hu]. apply Forall_cons in Hin as [Hui Hin]. apply Forall_cons in Hok as [Huo Hok].
    assert (Hstep : RowStore.update s (Row.id u) (Row.values u) =
      Ok (RowStore.mk (RowStore.table s) ((λ r, if Row.id r =? Row.id u then u else r) <$> RowStore.rows_list s)
                      (RowStore.next_id s))).
    { unfold RowStore.update, RowStore.findRowIndex. apply findRow_is_Some in Hui as [i Hi]. rewrite Hi.
      apply findRow_Some in Hi as Hr. destruct Hr as (r & Hr & Hrid). cbn [orelse mbind result_bind].
      unfold item_at. rewrite Hr. cbn [mbind result_bind]. rewrite replaceValues_init, Hrid.
      rewrite (proj2 (row_init_ok _ (Row.id u) (Row.values u) u)) by (split; [done|by destruct u]). simpl.
      do 2 f_equal. by apply insert_by_id. }
    rewrite Hstep. cbn [mbind result_bind].
    assert (Hids : ids ((λ r, if Row.id r =? Row.id u then u else r) <$> RowStore.rows_list s) = ids (RowStore.rows_list s)).
    { unfold ids. rewrite <-list_fmap_compose. apply list_fmap_ext. intros _ r _. simpl.
      destruct (Z.eqb_spec (Row.id r) (Row.id u)); done. }
    rewrite IH; simpl; rewrite ?Hids; try done.
    do 2 f_equal. rewrite <-list_fmap_compose. apply list_fmap_ext. intros _ r _. simpl.
    symmetry. by apply subst_row_cons.
Qed.

Lemma foldM_commit_insert s ins lim :
  NoDup (ids (RowStore.rows_list s) ++ ids ins) → Forall (row_ok (RowStore.table s)) ins →
  Forall (λ id, RowStore.next_id s ≤ id < lim → is_u64 (id + 1)) (ids ins) →
  Forall (λ id, 0 ≤ id < lim) (ids ins) → RowStore.next_id s ≤ lim ≤ u64_max →
  ∃ n, foldM Transaction.commit_insert s ins = Ok (RowStore.mk (RowStore.table s) (RowStore.rows_list s ++ ins) n) ∧
       RowStore.next_id s ≤ n ≤ lim ∧ Forall (λ id, id < n) (ids ins).
Proof.
  revert s. induction ins as [|r ins IH]; intros s Hnd Hok Hov Hb Hlim; cbn [foldM].
  - exists (RowStore.next_id s). rewrite app_nil_r. destruct s; simpl in *. split_and!; [done|lia|lia|constructor].
  - apply Forall_cons in Hok as [Hr Hok]. apply Forall_cons in Hov as [Ho Hov]. apply Forall_cons in Hb as [Hrb Hb].
    unfold ids in Hnd. rewrite fmap_cons in Hnd.
    assert (Hfresh : Row.id r ∉ ids (RowStore.rows_list s)).
    { intros Hin. apply NoDup_app in Hnd as (_ & Hd & _). apply (Hd _ Hin). apply list_elem_of_here. }
    assert (Hstep : Transaction.commit_insert s r = Ok (RowStore.mk (RowStore.table s)
      (RowStore.rows_list s ++ [Row.mk (Row.id r) (Row.values r)])
      (Z.max (RowStore.next_id s) (if RowStore.next_id s <=? Row.id r then Row.id r + 1 else RowStore.next_id s)))).
    { unfold Transaction.commit_insert. rewrite (proj2 (store_get_None s (Row.id r)) Hfresh).
      apply insertWithId_ok. split_and!; [done|done| |done]. intros. apply Ho. lia. }
    rewrite Hstep. cbn [mbind result_bind].
    set (n1 := Z.max _ _). assert (Hn1 : RowStore.next_id s ≤ n1 ≤ lim ∧ Row.id r < n1).
    { subst n1. destruct (Z.leb_spec (RowStore.next_id s) (Row.id r)); lia. }
    destruct (IH (RowStore.mk (RowStore.table s) (RowStore.rows_list s ++ [Row.mk (Row.id r) (Row.values r)]) n1))
      as (n & Hn & Hbn & Hlt); simpl; try done; try lia.
    + rewrite ids_app, <-app_assoc. done.
    + rewrite Forall_forall in *. intros x Hx Hxb. apply Hov; [done|lia].
    + exists n. rewrite Hn. simpl in *. split_and!; [|lia|lia|constructor; [lia|done]].
      destruct r; simpl. by rewrite <-app_assoc.
Qed.

Lemma commit_private tx store :
  tx_wf tx store →
  ∃ n, Transaction.commit tx store =
       Ok (Transaction.clearLocalRows tx committed,
           RowStore.mk (RowStore.table store) (RowStore.rows_list (private tx store)) n) ∧
       RowStore.next_id store ≤ n ≤ Transaction.next_id tx ∧
       store_wf (RowStore.mk (RowStore.table store) (RowStore.rows_list (private tx store)) n).
Proof.
  intros Hwf. pose proof Hwf as [Hs Ha Hn Hi1 Hi2 Hu1 Hu2 Hd1 Hd2 Hr]. apply Forall_app in Hr as [Hr1 Hr2].
  unfold Transaction.commit. rewrite (ensureActive_wf _ _ Hwf), store_clone_wf by done. cbn [mbind result_bind].
  rewrite foldM_delete; [|apply store_ids, Hs|done|done]. cbn [mbind result_bind].
  assert (Hfids : ids (filter (λ r, Row.id r ∉ Transaction.deletes tx) (RowStore.rows_list store)) =
                  filter (λ id, id ∉ Transaction.deletes tx) (ids (RowStore.rows_list store)))
    by (unfold ids; by rewrite filter_fmap).
  rewrite foldM_update; simpl; rewrite ?Hfids; try done.
  2:{ apply NoDup_filter, store_ids, Hs. }
  2:{ eapply Forall_impl; [exact Hu2|]. intros id [H1 H2]. by apply list_elem_of_filter. }
  fold (base_view tx (RowStore.rows_list store)).
  destruct (foldM_commit_insert
    (RowStore.mk (RowStore.table store) (base_view tx (RowStore.rows_list store)) (RowStore.next_id store))
    (Transaction.inserts tx) (Transaction.next_id tx)) as (n & -> & Hb & Hlt); simpl; try done; try lia.
  - rewrite <-ids_app. by apply view_nodup.
  - eapply Forall_impl; [exact Hi2|]. simpl. unfold is_u64. pose proof (store_next _ Hs). lia.
  - eapply Forall_impl; [exact Hi2|]. simpl. pose proof (store_next _ Hs). lia.
  - exists n. pose proof (store_next _ Hs). split_and!; [done|simpl in *; lia|simpl in *; lia|].
    split; simpl; [by apply view_nodup| |simpl in *; lia|by apply view_rows_ok].
    fold (view tx (RowStore.rows_list store)). unfold view. rewrite ids_app. apply Forall_app. split.
    + eapply Forall_impl; [by apply base_view_bounds|]. simpl in *. lia.
    + rewrite Forall_forall in *. intros x Hx. specialize (Hi2 x Hx). specialize (Hlt x Hx). simpl in *. lia.
Qed.

(** ** Whole transactions *)
Inductive tx_op := TInsert (vs : list Value.t) | TUpdate (id : RowId) (vs : list Value.t) | TDelete (id : RowId).

(** What the caller of an operation gets back. *)
Definition outcome {A} (f : A → option RowId) (r : Result A) : Result (option RowId) := f <$> r.

(** Running an operation on the transaction; an error leaves it unchanged. *)
Definition run_tx (store : RowStore.t) (tx : Transaction.t) (o : tx_op) : Transaction.t * Result (option RowId) :=
  match o with
  | TInsert vs => match Transaction.insert tx store vs with
                  | Ok (tx', id) => (tx', Ok (Some id)) | Err e => (tx, Err e) | Panic => (tx, Panic) end
  | TUpdate id vs => match Transaction.update tx store id vs with
                     | Ok tx' => (tx', Ok None) | Err e => (tx, Err e) | Panic => (tx, Panic) end
  | TDelete id => match Transaction.delete tx store id with
                  | Ok tx' => (tx', Ok None) | Err e => (tx, Err e) | Panic => (tx, Panic) end
  end.

(** Running the same operation directly on a row store. *)
Definition run_store (s : RowStore.t) (o : tx_op) : RowStore.t * Result (option RowId) :=
  match o with
  | TInsert vs => match RowStore.insert s vs with
                  | Ok (s', id) => (s', Ok (Some id)) | Err e => (s, Err e) | Panic => (s, Panic) end
  | TUpdate id vs => match RowStore.update s id vs with
                     | Ok s' => (s', Ok None) | Err e => (s, Err e) | Panic => (s, Panic) end
  | TDelete id => match RowStore.delete s id with
                  | Ok s' => (s', Ok None) | Err e => (s, Err e) | Panic => (s, Panic) end
  end.

(** A sequence of operations and the outcomes the caller saw. *)
Fixpoint run_all {S} (step : S → tx_op → S * Result (option RowId)) (s : S) (ops : list tx_op)
    : S * list (Result (option RowId)) :=
  match ops with
  | [] => (s, [])
  | o :: ops' => let '(s1, r) := step s o in let '(s2, rs) := run_all step s1 ops' in (s2, r :: rs)
  end.

Lemma run_tx_simulates tx store o :
  tx_wf tx store →
  run_store (private tx store) o = (private (run_tx store tx o).1 store, (run_tx store tx o).2) ∧
  tx_wf (run_tx store tx o).1 store.
Proof.
  intros Hwf. destruct o as [vs|id vs|id]; simpl.
  - rewrite <-(insert_simulates _ _ Hwf).
    destruct (Transaction.insert tx store vs) as [[tx' id]| |] eqn:H; simpl; try done.
    split; [done|]. by eapply tx_insert_wf.
  - rewrite <-(update_simulates _ _ Hwf).
    destruct (Transaction.update tx store id vs) as [tx'| |] eqn:H; simpl; try done.
    split; [done|]. by eapply tx_update_wf.
  - rewrite <-(delete_simulates _ _ Hwf).
    destruct (Transaction.delete tx store id) as [tx'| |] eqn:H; simpl; try done.
    split; [done|]. by eapply tx_delete_wf.
Qed.

Lemma run_all_simulates store ops tx :
  tx_wf tx store →
  run_all run_store (private tx store) ops =
    (private (run_all (run_tx store) tx ops).1 store, (run_all (run_tx store) tx ops).2) ∧
  tx_wf (run_all (run_tx store) tx ops).1 store.
Proof.
  revert tx. induction ops as [|o ops IH]; intros tx Hwf; simpl; [done|].
  destruct (run_tx_simulates tx store o Hwf) as [Hs Hwf']. rewrite Hs.
  destruct (run_tx store tx o) as [tx1 r]; simpl in *.
  destruct (IH tx1 Hwf') as [Hall Hwf'']. rewrite Hall.
  by destruct (run_all (run_tx store) tx1 ops).
Qed.

Lemma private_begin store : private (Transaction.begin store) store = store.
Proof.
  destruct store as [t rows n]. unfold private, view, base_view, Transaction.begin. simpl.
  f_equal. rewrite app_nil_r, filter_all; [|by apply Forall_forall; intros r _; apply not_elem_of_nil].
  rewrite (list_fmap_ext _ id); [by rewrite list_fmap_id|done].
Qed.

(** ** Committing onto a store that other transactions have changed *)
Lemma foldM_delete_wf s ds s' : store_wf s → foldM RowStore.delete s ds = Ok s' → store_wf s'.
Proof. apply foldM_invariant. intros. by eapply store_delete_wf. Qed.

Lemma store_delete_shape s id :
  RowStore.delete s id = Err UnknownRow ∧ id ∉ ids (RowStore.rows_list s) ∨
  ∃ s', RowStore.delete s id = Ok s' ∧ ids (RowStore.rows_list s') `sublist_of` ids (RowStore.rows_list s) ∧
        RowStore.table s' = RowStore.table s.
Proof.
  unfold RowStore.delete, RowStore.findRowIndex. destruct (findRow (RowStore.rows_list s) id) as [i|] eqn:Hi; simpl.
  - right. eexists. split_and!; [done| |done]. simpl. rewrite ids_delete. apply sublist_delete.
  - left. split; [done|]. by apply findRow_None.
Qed.

Lemma store_update_shape s u :
  row_ok (RowStore.table s) u →
  RowStore.update s (Row.id u) (Row.values u) = Err UnknownRow ∧ Row.id u ∉ ids (RowStore.rows_list s) ∨
  ∃ s', RowStore.update s (Row.id u) (Row.values u) = Ok s' ∧
        ids (RowStore.rows_list s') = ids (RowStore.rows_list s) ∧ RowStore.table s' = RowStore.table s.
Proof.
  intros Hu. unfold RowStore.update, RowStore.findRowIndex.
  destruct (findRow (RowStore.rows_list s) (Row.id u)) as [i|] eqn:Hi; simpl.
  - right. apply findRow_Some in Hi as (r & Hr & Hid). unfold item_at. rewrite Hr. simpl.
    rewrite replaceValues_init, (proj2 (row_init_ok _ _ _ (Row.mk (Row.id r) (Row.values u)))) by done. simpl.
    eexists. split_and!; [done| |done]. simpl. by apply ids_insert.
  - left. split; [done|]. by apply findRow_None.
Qed.

Lemma foldM_delete_shape s ds :
  foldM RowStore.delete s ds = Err UnknownRow ∨
  ∃ s', foldM RowStore.delete s ds = Ok s' ∧ Forall (λ d, d ∈ ids (RowStore.rows_list s)) ds ∧
        ids (RowStore.rows_list s') `sublist_of` ids (RowStore.rows_list s) ∧
        RowStore.table s' = RowStore.table s.
Proof.
  revert s. induction ds as [|d ds IH]; intros s; simpl.
  { right. exists s. split; [done|]. split; [constructor|]. by split. }
  destruct (store_delete_shape s d) as [[-> _]|(s1 & H1 & Hsub & Ht)]; [by left|].
  assert (Hd : d ∈ ids (RowStore.rows_list s)).
  { apply dec_stable. intros Hn. unfold RowStore.delete, RowStore.findRowIndex in H1.
    by rewrite (proj2 (findRow_None _ _) Hn) in H1. }
  rewrite H1. simpl. destruct (IH s1) as [->|(s2 & -> & Hf & Hsub' & Ht')]; [by left|]. right.
  exists s2. split_and!; [done| |by etransitivity|congruence]. constructor; [done|].
  eapply Forall_impl; [exact Hf|]. intros x Hx. exact (elem_of_sublist _ _ _ Hx Hsub).
Qed.

Lemma foldM_update_shape s ups :
  Forall (row_ok (RowStore.table s)) ups →
  let f := λ s updated, RowStore.update s (Row.id updated) (Row.values updated) in
  foldM f s ups = Err UnknownRow ∨
  ∃ s', foldM f s ups = Ok s' ∧ Forall (λ u, u ∈ ids (RowStore.rows_list s)) (ids ups).
Proof.
  intros Hok f. revert s Hok. induction ups as [|u ups IH]; intros s Hok.
  { right. exists s. split; [done|]. constructor. }
  apply Forall_cons in Hok as [Hu Hok]. cbn [foldM]. change (f s u) with (RowStore.update s (Row.id u) (Row.values u)).
  destruct (store_update_shape s u Hu) as [[-> _]|(s1 & H1 & Hids & Ht)]; [by left|].
  assert (Hd : Row.id u ∈ ids (RowStore.rows_list s)).
  { apply dec_stable. intros Hn. unfold RowStore.update, RowStore.findRowIndex in H1.
    by rewrite (proj2 (findRow_None _ _) Hn) in H1. }
  rewrite H1. simpl. destruct (IH s1) as [->|(s2 & -> & Hf)]; [by rewrite Ht|by left|]. right.
  exists s2. split; [done|]. rewrite Hids in Hf. by constructor.
Qed.

Lemma commit_wf tx tx' store store' :
  store_wf store → Forall (λ id, 0 ≤ id) (ids (Transaction.inserts tx)) →
  Transaction.commit tx store = Ok (tx', store') → store_wf store'.
Proof.
  unfold Transaction.commit. intros Hs Hid H. rewrite store_clone_wf in H by done. inv_ok.
  rename a1 into s1, a2 into s2. apply foldM_delete_wf in Ha1; [|done].
  apply (foldM_invariant store_wf) in Ha2; [|intros; by eapply store_update_wf|done].
  eapply (foldM_invariant store_wf); [|exact Ha2|exact Ha3].
  intros s r s' Hr Hwf. unfold Transaction.commit_insert. apply insertWithId_wf; [done|].
  destruct (RowStore.get s (Row.id r)); [pose proof (store_next _ Hwf); unfold RowStore.nextRowId; lia|].
  rewrite Forall_forall in Hid. apply Hid. by apply list_elem_of_fmap_2.
Qed.

Lemma commit_table tx st tx' st' :
  Transaction.commit tx st = Ok (tx', st') → RowStore.table st' = RowStore.table st.
Proof.
  unfold Transaction.commit. intros H. inv_ok. set (P := λ s, RowStore.table s = RowStore.table st).
  unfold RowStore.clone in Ha0. inv_ok. assert (HP : P (RowStore.mk (RowStore.table st) a (RowStore.next_id st))) by done.
  apply (foldM_invariant P) in Ha1; [| |exact HP].
  2: { unfold P, RowStore.delete. intros s d s' _ Hs Hd. by inv_ok. }
  apply (foldM_invariant P) in Ha2; [| |exact Ha1].
  2: { unfold P. intros s r s' _ Hs (i & _ & _ & ->)%store_update_ok. done. }
  eapply (foldM_invariant P); [|exact Ha2|exact Ha3].
  unfold P, Transaction.commit_insert. intros s r s' _ Hs (_ & _ & _ & ->)%insertWithId_ok. done.
Qed.

(** ** Properties *)

(** C3: between [begin] and [commit] a transaction behaves like a private copy of the store:
    for every sequence of inserts, updates and deletes the caller sees the outcomes (ids, errors and
    traps) the same sequence gives on the store itself, [scan] returns that copy's rows, and [commit]
    succeeds, installs exactly those rows in the same order and keeps the store well-formed. *)
Theorem transaction_private_copy (store : RowStore.t) (ops : list tx_op) :
  store_wf store →
  let '(tx, outs) := run_all (run_tx store) (Transaction.begin store) ops in
  let '(copy, outs') := run_all run_store store ops in
  outs = outs' ∧
  Transaction.scan tx store = Ok (RowStore.rows copy) ∧
  ∃ tx' store', Transaction.commit tx store = Ok (tx', store') ∧
    Transaction.state tx' = committed ∧
    RowStore.rows store' = RowStore.rows copy ∧ RowStore.table store' = RowStore.table store ∧
    store_wf store'.
Proof.
  intros Hs. destruct (run_all_simulates store ops _ (begin_wf store Hs)) as [Hsim Hwf].
  rewrite private_begin in Hsim. destruct (run_all (run_tx store) _ ops) as [tx outs].
  rewrite Hsim. simpl in *. split; [done|]. split; [by apply scan_private|].
  destruct (commit_private tx store Hwf) as (n & Hc & _ & Hw). eexists _, _. split_and!; [exact Hc|done..].
Qed.

Definition sample_store : RowStore.t :=
  RowStore.mk (TableDef.mk (B "t") [ColumnDef.mk (B "a") ColumnType.integer false None false false] [])
    [Row.mk 1 [Value.integer 10]; Row.mk 2 [Value.integer 20]] 3.

Definition sample_ops : list tx_op :=
  [TInsert [Value.integer 30]; TUpdate 1 [Value.integer 11]; TDelete 2; TDelete 7; TInsert [Value.null]].

Lemma transaction_private_copy_witness :
  run_all (run_tx sample_store) (Transaction.begin sample_store) sample_ops ≠
    (Transaction.begin sample_store, []) ∧
  (run_all (run_tx sample_store) (Transaction.begin sample_store) sample_ops).2 =
  (run_all run_store sample_store sample_ops).2.
Proof.
  split; [vm_compute; discriminate|].
  pose proof (transaction_private_copy sample_store sample_ops
    ltac:(apply (bool_decide_eq_true_1 _); vm_compute; reflexivity)) as H.
  destruct (run_all (run_tx sample_store) _ sample_ops), (run_all run_store _ sample_ops). exact (proj1 H).
Defined.

(** Committing onto any well-formed store, even one changed by other commits since
    [begin], keeps row ids distinct and below the next id and every row valid: a staged insert
    whose id was taken meanwhile is renumbered. *)
Theorem commit_keeps_store_wf (tx tx' : Transaction.t) (store store' : RowStore.t) :
  store_wf store → Forall (λ id, 0 ≤ id) (ids (Transaction.inserts tx)) →
  Transaction.commit tx store = Ok (tx', store') → store_wf store'.
Proof. apply commit_wf. Qed.

(** Two transactions begun on one store both staged row id 3; the second commit renumbers. *)
Definition sample_tx : Transaction.t := Transaction.mk active 4 [Row.mk 3 [Value.integer 30]] [] [].
Definition sample_other : RowStore.t :=
  RowStore.mk (RowStore.table sample_store)
    (RowStore.rows_list sample_store ++ [Row.mk 3 [Value.integer 99]]) 4.

Lemma commit_keeps_store_wf_witness :
  ∃ store', Transaction.commit sample_tx sample_other = Ok (Transaction.mk committed 4 [] [] [], store') ∧
            ids (RowStore.rows store') = [1; 2; 3; 4] ∧ store_wf store'.
Proof.
  eexists. split; [vm_compute; reflexivity|]. split; [vm_compute; reflexivity|].
  eapply (commit_keeps_store_wf sample_tx _ sample_other).
  - apply (bool_decide_eq_true_1 _). vm_compute. reflexivity.
  - constructor; [simpl; lia|constructor].
  - vm_compute. reflexivity.
Defined.

(** A commit whose staged delete or update targets a row that is no longer in the store
    fails with [UnknownRow]; nothing is installed. *)
Theorem commit_conflict_unknown_row (tx : Transaction.t) (store : RowStore.t) (id : RowId) :
  store_wf store → Transaction.state tx = active →
  Forall (row_ok (RowStore.table store)) (Transaction.updates tx) →
  id ∈ Transaction.deletes tx ∨ id ∈ ids (Transaction.updates tx) →
  id ∉ ids (RowStore.rows store) →
  Transaction.commit tx store = Err UnknownRow.
Proof.
  intros Hs Ha Hu Hid Hnin. unfold Transaction.commit, Transaction.ensureActive. rewrite Ha, store_clone_wf by done.
  cbn [mbind result_bind].
  destruct (foldM_delete_shape store (Transaction.deletes tx)) as [->|(s1 & -> & Hf & Hsub & Ht)]; [done|].
  cbn [mbind result_bind]. rewrite <-Ht in Hu.
  destruct (foldM_update_shape s1 (Transaction.updates tx) Hu) as [->|(s2 & _ & Hf')]; [done|].
  exfalso. rewrite Forall_forall in Hf, Hf'. destruct Hid as [Hid|Hid].
  - by apply Hf in Hid.
  - apply Hf' in Hid. by eapply Hnin, elem_of_sublist.
Qed.

Lemma commit_conflict_unknown_row_witness :
  2 ∈ [2] ∧ Transaction.commit (Transaction.mk active 3 [] [] [2])
    (RowStore.mk (RowStore.table sample_store) [Row.mk 1 [Value.integer 10]] 3) = Err UnknownRow.
Proof.
  split; [apply list_elem_of_here|]. apply (commit_conflict_unknown_row _ _ 2).
  - apply (bool_decide_eq_true_1 _). vm_compute. reflexivity.
  - reflexivity.
  - constructor.
  - left. apply list_elem_of_here.
  - apply (bool_decide_eq_true_1 _). vm_compute. reflexivity.
Defined.

(** Once committed or rolled back a transaction refuses every operation with the error
    naming its state, and neither [commit] nor [rollback] leaves staged rows behind. *)
Theorem closed_transaction_rejects (tx tx' : Transaction.t) (store : RowStore.t) (vs : list Value.t) (id : RowId) :
  (∃ s, Transaction.commit tx store = Ok (tx', s)) ∨ Transaction.rollback tx = Ok tx' →
  let e := if decide (Transaction.state tx' = committed) then AlreadyCommitted else AlreadyRolledBack in
  Transaction.inserts tx' = [] ∧ Transaction.updates tx' = [] ∧ Transaction.deletes tx' = [] ∧
  ∀ st, Transaction.insert tx' st vs = Err e ∧ Transaction.update tx' st id vs = Err e ∧
        Transaction.delete tx' st id = Err e ∧ Transaction.scan tx' st = Err e ∧
        Transaction.commit tx' st = Err e ∧ Transaction.rollback tx' = Err e.
Proof.
  intros H. assert (∃ st, tx' = Transaction.clearLocalRows tx st ∧ st ≠ active) as (st & -> & Hst).
  { destruct H as [[s H]|H]; [unfold Transaction.commit in H|unfold Transaction.rollback in H]; inv_ok; eauto. }
  by destruct st.
Qed.

Lemma closed_transaction_rejects_witness :
  Transaction.rollback sample_tx = Ok (Transaction.mk rolled_back 4 [] [] []) ∧
  Transaction.commit (Transaction.mk rolled_back 4 [] [] []) sample_store = Err AlreadyRolledBack.
Proof.
  split; [reflexivity|].
  apply (closed_transaction_rejects sample_tx _ sample_store [] 0 (or_intror eq_refl)).
Defined.
