(* ===== verification/Concurrency.v ===== *)
(** * Commit queue, backpressure and the checkpoint worker

    Models [src/src/db/concurrency.zig] (limits and typed diagnostics), [commit_queue.zig]
    (module [Queue]), [backpressure.zig] and [checkpoint_worker.zig] (modules [Worker] and
    [Ticket]).  [usize] is taken to be 64 bits wide.  A [Ticket]'s pointer to its worker is the
    worker argument of the operations. *)

From S2P Require Import Prelude.

Inductive DiagnosticKind :=
  | commit_queue_full | snapshot_retention_exceeded | checkpoint_already_running
  | vector_overlay_backlog_exceeded | invalid_commit_queue_limit
  | invalid_snapshot_retention_limit | invalid_checkpoint_budget | invalid_vector_overlay_budget.

#[global] Instance DiagnosticKind_eq_dec : EqDecision DiagnosticKind.
Proof. solve_decision. Defined.

Definition diagnosticKindFromError (err : Error) : option DiagnosticKind :=
  match err with
  | CommitQueueFull => Some commit_queue_full
  | SnapshotRetentionExceeded => Some snapshot_retention_exceeded
  | CheckpointAlreadyRunning => Some checkpoint_already_running
  | VectorOverlayBacklogExceeded => Some vector_overlay_backlog_exceeded
  | InvalidCommitQueueLimit => Some invalid_commit_queue_limit
  | InvalidSnapshotRetentionLimit => Some invalid_snapshot_retention_limit
  | InvalidCheckpointBudget => Some invalid_checkpoint_budget
  | InvalidVectorOverlayBudget => Some invalid_vector_overlay_budget
  | _ => None
  end.

Module Config.
Record t := mk {
  max_pending_writes : Z;
  snapshot_retention_generations : Z;
  checkpoint_generation_budget : Z;
  vector_overlay_drain_budget : Z }.

Definition validate (self : t) : Result () :=
  _ ← fail_if (max_pending_writes self =? 0) InvalidCommitQueueLimit;
  _ ← fail_if (snapshot_retention_generations self =? 0) InvalidSnapshotRetentionLimit;
  _ ← fail_if (checkpoint_generation_budget self =? 0) InvalidCheckpointBudget;
  fail_if (vector_overlay_drain_budget self =? 0) InvalidVectorOverlayBudget.
End Config.

Definition default_config : Config.t := Config.mk 1024 64 64 1024.

Inductive BackpressureReason :=
  | bp_commit_queue_full | bp_snapshot_retention_exceeded
  | bp_checkpoint_already_running | bp_vector_overlay_backlog_exceeded.

Module BackpressureDiagnostic.
Record t := mk {
  reason : BackpressureReason;
  queued_writes : Z;
  queue_limit : Z;
  committed_generation : Z;
  last_assigned_sequence : Z }.

Definition kind (self : t) : DiagnosticKind :=
  match reason self with
  | bp_commit_queue_full => commit_queue_full
  | bp_snapshot_retention_exceeded => snapshot_retention_exceeded
  | bp_checkpoint_already_running => checkpoint_already_running
  | bp_vector_overlay_backlog_exceeded => vector_overlay_backlog_exceeded
  end.

Definition toError (self : t) : Error :=
  match reason self with
  | bp_commit_queue_full => CommitQueueFull
  | bp_snapshot_retention_exceeded => SnapshotRetentionExceeded
  | bp_checkpoint_already_running => CheckpointAlreadyRunning
  | bp_vector_overlay_backlog_exceeded => VectorOverlayBacklogExceeded
  end.
End BackpressureDiagnostic.

Module ConfigurationDiagnostic.
Record t := mk { kind : DiagnosticKind; configured_value : Z; minimum_value : Z }.

(** [else => unreachable] traps. *)
Definition toError (self : t) : Result Error :=
  match kind self with
  | invalid_commit_queue_limit => Ok InvalidCommitQueueLimit
  | invalid_snapshot_retention_limit => Ok InvalidSnapshotRetentionLimit
  | invalid_checkpoint_budget => Ok InvalidCheckpointBudget
  | invalid_vector_overlay_budget => Ok InvalidVectorOverlayBudget
  | _ => Panic
  end.
End ConfigurationDiagnostic.

Module Diagnostic.
Inductive t :=
  | backpressure (d : BackpressureDiagnostic.t)
  | configuration (d : ConfigurationDiagnostic.t).

Definition kind (self : t) : DiagnosticKind :=
  match self with
  | backpressure d => BackpressureDiagnostic.kind d
  | configuration d => ConfigurationDiagnostic.kind d
  end.

Definition toError (self : t) : Result Error :=
  match self with
  | backpressure d => Ok (BackpressureDiagnostic.toError d)
  | configuration d => ConfigurationDiagnostic.toError d
  end.
End Diagnostic.

Module CommitQueueSnapshot.
Record t := mk { queued_writes : Z; queue_limit : Z; last_assigned_sequence : Z }.

Definition validate (self : t) : Result () := fail_if (queue_limit self =? 0) InvalidCommitQueueLimit.

Definition canAcceptWrite (self : t) : bool :=
  (0 <? queue_limit self) && (queued_writes self <? queue_limit self).

Definition nextCommitSequence (self : t) : Result Z := checked_u64 (last_assigned_sequence self + 1).

Definition backpressureDiagnostic (self : t) : option Diagnostic.t :=
  if canAcceptWrite self then None
  else Some (Diagnostic.backpressure
    (BackpressureDiagnostic.mk bp_commit_queue_full (queued_writes self) (queue_limit self)
       0 (last_assigned_sequence self))).
End CommitQueueSnapshot.

Module CheckpointSnapshot.
Record t := mk { in_progress : bool; committed_generation : Z }.

Definition busyDiagnostic (self : t) : option Diagnostic.t :=
  if negb (in_progress self) then None
  else Some (Diagnostic.backpressure
    (BackpressureDiagnostic.mk bp_checkpoint_already_running
       0 (Config.max_pending_writes default_config) (committed_generation self) 0)).
End CheckpointSnapshot.

Module VectorOverlaySnapshot.
Record t := mk { committed_delta_count : Z; drain_budget : Z; last_drained_generation : Z }.

Definition validate (self : t) : Result () := fail_if (drain_budget self =? 0) InvalidVectorOverlayBudget.

Definition backlogDiagnostic (self : t) : option Diagnostic.t :=
  if (0 <? drain_budget self) && (committed_delta_count self <=? drain_budget self) then None
  else Some (Diagnostic.backpressure
    (BackpressureDiagnostic.mk bp_vector_overlay_backlog_exceeded
       0 (drain_budget self) (last_drained_generation self) 0)).
End VectorOverlaySnapshot.

Definition configurationDiagnostic (config : Config.t) : option Diagnostic.t :=
  let report k v := Some (Diagnostic.configuration (ConfigurationDiagnostic.mk k v 1)) in
  if Config.max_pending_writes config =? 0
  then report invalid_commit_queue_limit (Config.max_pending_writes config)
  else if Config.snapshot_retention_generations config =? 0
  then report invalid_snapshot_retention_limit (Config.snapshot_retention_generations config)
  else if Config.checkpoint_generation_budget config =? 0
  then report invalid_checkpoint_budget (Config.checkpoint_generation_budget config)
  else if Config.vector_overlay_drain_budget config =? 0
  then report invalid_vector_overlay_budget (Config.vector_overlay_drain_budget config)
  else None.

(** ** [backpressure.zig] *)
Definition diagnosticForCommitQueue (snapshot : CommitQueueSnapshot.t) : option Diagnostic.t :=
  CommitQueueSnapshot.backpressureDiagnostic snapshot.
Definition errorForDiagnostic (diagnostic : Diagnostic.t) : Result Error := Diagnostic.toError diagnostic.
Definition kindForError (err : Error) : option DiagnosticKind := diagnosticKindFromError err.

(** ** [commit_queue.zig] *)
Module Queue.
Record t := mk { config : Config.t; pending_writes : Z; last_assigned_sequence : Z }.

Definition init (config : Config.t) : t := mk config 0 0.

Definition snapshot (self : t) : CommitQueueSnapshot.t :=
  CommitQueueSnapshot.mk (pending_writes self) (Config.max_pending_writes (config self))
    (last_assigned_sequence self).

Definition enqueue (self : t) : Result t :=
  _ ← CommitQueueSnapshot.validate (snapshot self);
  match diagnosticForCommitQueue (snapshot self) with
  | Some diagnostic => e ← Diagnostic.toError diagnostic; Err e
  | None =>
      pending ← checked_u64 (pending_writes self + 1);
      Ok (mk (config self) pending (last_assigned_sequence self))
  end.

Definition abortQueuedCommit (self : t) : Result t :=
  _ ← assert_ (0 <? pending_writes self);
  pending ← checked_u64 (pending_writes self - 1);
  Ok (mk (config self) pending (last_assigned_sequence self)).

Definition completeQueuedCommit (self : t) : Result (t * Z) :=
  _ ← assert_ (0 <? pending_writes self);
  pending ← checked_u64 (pending_writes self - 1);
  sequence ← checked_u64 (last_assigned_sequence self + 1);
  Ok (mk (config self) pending sequence, sequence).

Definition syncToSequence (self : t) (sequence : Z) : t :=
  mk (config self) (pending_writes self) sequence.
End Queue.

(** ** [checkpoint_worker.zig] *)
Module Worker.
Record t := mk {
  in_progress : bool;
  active_generation : option Z;
  last_completed_generation : Z }.

(** [Snapshot] has the fields of the worker it describes. *)
Definition snapshot (self : t) : t := self.

Definition busyDiagnostic (self : t) : option Diagnostic.t :=
  if negb (in_progress self) then None
  else Some (Diagnostic.backpressure
    (BackpressureDiagnostic.mk bp_checkpoint_already_running
       0 (Config.max_pending_writes default_config)
       (default (last_completed_generation self) (active_generation self)) 0)).

Definition init : t := mk false None 0.

Definition complete (self : t) (generation : Z) : Result t :=
  _ ← assert_ (in_progress self);
  Ok (mk false None generation).

Definition fail (self : t) (generation : Z) : Result t :=
  _ ← assert_ (in_progress self);
  Ok (mk false None (last_completed_generation self)).
End Worker.

Module Ticket.
Record t := mk { generation : Z; closed : bool }.

Definition complete (worker : Worker.t) (self : t) : Result (Worker.t * t) :=
  if closed self then Ok (worker, self)
  else w ← Worker.complete worker (generation self); Ok (w, mk (generation self) true).

Definition fail (worker : Worker.t) (self : t) : Result (Worker.t * t) :=
  if closed self then Ok (worker, self)
  else w ← Worker.fail worker (generation self); Ok (w, mk (generation self) true).
End Ticket.

Definition worker_begin (self : Worker.t) (generation : Z) : Result (Worker.t * Ticket.t) :=
  _ ← fail_if (Worker.in_progress self) CheckpointAlreadyRunning;
  Ok (Worker.mk true (Some generation) (Worker.last_completed_generation self),
      Ticket.mk generation false).

(** ** Clients of the commit queue

    A client that was accepted closes its reservation exactly once, by completing or aborting.
    [clients] counts the open reservations; closing without one is not a move. *)
Inductive queue_op := QEnqueue | QAbort | QComplete.

Inductive queue_event := QAccepted | QRefused (e : Error) | QAborted | QCompleted (sequence : Z).

Record queue_run := QueueRun { run_queue : Queue.t; clients : Z; events : list queue_event }.

Definition queue_step (s : queue_run) (o : queue_op) : Result queue_run :=
  match o with
  | QEnqueue =>
      match Queue.enqueue (run_queue s) with
      | Ok q => Ok (QueueRun q (clients s + 1) (events s ++ [QAccepted]))
      | Err e => Ok (QueueRun (run_queue s) (clients s) (events s ++ [QRefused e]))
      | Panic => Panic
      end
  | QAbort =>
      if clients s =? 0 then Ok s
      else q ← Queue.abortQueuedCommit (run_queue s);
           Ok (QueueRun q (clients s - 1) (events s ++ [QAborted]))
  | QComplete =>
      if clients s =? 0 then Ok s
      else r ← Queue.completeQueuedCommit (run_queue s);
           Ok (QueueRun r.1 (clients s - 1) (events s ++ [QCompleted r.2]))
  end.

Definition sequences (evs : list queue_event) : list Z :=
  omap (λ ev, match ev with QCompleted n => Some n | _ => None end) evs.

(** What holds after [n] moves of the clients. *)
Record queue_inv (config : Config.t) (n : nat) (s : queue_run) : Prop := {
  qi_config : Queue.config (run_queue s) = config;
  qi_pending : Queue.pending_writes (run_queue s) = clients s;
  qi_bound : 0 ≤ clients s ≤ Config.max_pending_writes config;
  qi_sequence : Queue.last_assigned_sequence (run_queue s) = Z.of_nat (length (sequences (events s)));
  qi_moves : (length (sequences (events s)) ≤ n)%nat;
  qi_seqs : sequences (events s) = seqZ 1 (Z.of_nat (length (sequences (events s))));
  qi_refused : ∀ e, QRefused e ∈ events s → e = CommitQueueFull }.

Lemma sequences_app a b : sequences (a ++ b) = sequences a ++ sequences b.
Proof. apply omap_app. Qed.

Lemma seqZ_snoc (m : Z) (n : nat) : seqZ m (Z.of_nat n) ++ [m + Z.of_nat n] = seqZ m (Z.of_nat (S n)).
Proof. replace (Z.of_nat (S n)) with (Z.of_nat n + 1) by lia. by rewrite seqZ_app by lia. Qed.

Lemma enqueue_cases q :
  0 < Config.max_pending_writes (Queue.config q) ≤ u64_max → 0 ≤ Queue.pending_writes q →
  Queue.enqueue q =
    if Queue.pending_writes q <? Config.max_pending_writes (Queue.config q)
    then Ok (Queue.mk (Queue.config q) (Queue.pending_writes q + 1) (Queue.last_assigned_sequence q))
    else Err CommitQueueFull.
Proof.
  intros Hl Hp. unfold Queue.enqueue, diagnosticForCommitQueue, CommitQueueSnapshot.validate,
    CommitQueueSnapshot.backpressureDiagnostic, CommitQueueSnapshot.canAcceptWrite. simpl.
  destruct (Z.eqb_spec (Config.max_pending_writes (Queue.config q)) 0); [lia|]. simpl.
  destruct (Z.ltb_spec 0 (Config.max_pending_writes (Queue.config q))); [|lia]. simpl.
  destruct (Z.ltb_spec (Queue.pending_writes q) (Config.max_pending_writes (Queue.config q))); simpl; [|done].
  by rewrite checked_u64_in by (unfold is_u64; lia).
Qed.

Section queue_run.
Context (config : Config.t) (Hlimit : 0 < Config.max_pending_writes config ≤ u64_max).

Lemma queue_step_inv n s o :
  Z.of_nat n < u64_max → queue_inv config n s →
  ∃ s', queue_step s o = Ok s' ∧ queue_inv config (S n) s'.
Proof.
  intros Hn [Hc Hp Hb Hq Hm Hs Hr]. destruct s as [q k evs]; simpl in *. subst config. destruct o; simpl.
  - rewrite enqueue_cases by lia. rewrite Hp.
    destruct (Z.ltb_spec k (Config.max_pending_writes (Queue.config q)));
      (eexists; split; [done|]; split; simpl; rewrite ?sequences_app, ?app_nil_r by done; try done; try lia).
    + intros e [?|?%list_elem_of_singleton]%elem_of_app; [auto|done].
    + intros e [?|[= ->]%list_elem_of_singleton]%elem_of_app; [auto|done].
  - destruct (Z.eqb_spec k 0).
    + eexists. split; [done|]. split; simpl; auto; lia.
    + unfold Queue.abortQueuedCommit. rewrite Hp. destruct (Z.ltb_spec 0 k); [|lia]. simpl.
      rewrite checked_u64_in by (unfold is_u64; lia). simpl. eexists. split; [done|].
      split; simpl; rewrite ?sequences_app, ?app_nil_r by done; try done; try lia.
      intros e [?|?%list_elem_of_singleton]%elem_of_app; [auto|done].
  - destruct (Z.eqb_spec k 0).
    + eexists. split; [done|]. split; simpl; auto; lia.
    + unfold Queue.completeQueuedCommit. rewrite Hp, Hq. destruct (Z.ltb_spec 0 k); [|lia]. simpl.
      rewrite !checked_u64_in by (unfold is_u64; lia). simpl. eexists. split; [done|].
      split; simpl; rewrite ?sequences_app, ?length_app; simpl; try done; try lia.
      * rewrite Nat.add_1_r, <-seqZ_snoc, <-Hs. do 2 f_equal. lia.
      * intros e [?|?%list_elem_of_singleton]%elem_of_app; [auto|done].
Qed.

Lemma queue_run_inv ops n s :
  Z.of_nat (n + length ops) ≤ u64_max → queue_inv config n s →
  ∃ s', foldM queue_step s ops = Ok s' ∧ queue_inv config (n + length ops) s'.
Proof.
  revert n s. induction ops as [|o ops IH]; intros n s Hn Hs; simpl in *.
  - exists s. by rewrite Nat.add_0_r.
  - destruct (queue_step_inv n s o ltac:(lia) Hs) as (s1 & -> & Hs1). simpl.
    rewrite <-Nat.add_succ_comm in *. by apply IH.
Qed.
End queue_run.

(** C28: whatever the interleaving of clients, the commit queue never traps, never holds more
    than [max_pending_writes] reservations, holds exactly the open ones, refuses only with
    [CommitQueueFull], and completed commits receive the sequence numbers 1, 2, 3, ... in order
    with no gap and no repetition. *)
Theorem commit_queue_trace (config : Config.t) (ops : list queue_op) :
  0 < Config.max_pending_writes config ≤ u64_max → Z.of_nat (length ops) ≤ u64_max →
  ∃ s, foldM queue_step (QueueRun (Queue.init config) 0 []) ops = Ok s ∧
    Queue.pending_writes (run_queue s) = clients s ∧
    0 ≤ clients s ≤ Config.max_pending_writes config ∧
    sequences (events s) = seqZ 1 (Queue.last_assigned_sequence (run_queue s)) ∧
    (∀ e, QRefused e ∈ events s → e = CommitQueueFull).
Proof.
  intros Hl Hn. destruct (queue_run_inv config Hl ops 0 (QueueRun (Queue.init config) 0 [])) as (s & H & Hi).
  - done.
  - split; simpl; try done; [lia|]. by intros e ?%not_elem_of_nil.
  - exists s. destruct Hi as [_ Hp Hb Hq _ Hs Hr]. rewrite Hq. auto.
Qed.

Lemma commit_queue_trace_witness :
  ∃ s, foldM queue_step (QueueRun (Queue.init (Config.mk 1 64 64 1024)) 0 [])
         [QEnqueue; QEnqueue; QComplete; QEnqueue; QComplete] = Ok s ∧
       events s = [QAccepted; QRefused CommitQueueFull; QCompleted 1; QAccepted; QCompleted 2] ∧
       sequences (events s) = seqZ 1 (Queue.last_assigned_sequence (run_queue s)).
Proof.
  destruct (commit_queue_trace (Config.mk 1 64 64 1024)
    [QEnqueue; QEnqueue; QComplete; QEnqueue; QComplete]) as (s & H & _ & _ & Hs & _).
  - simpl. unfold u64_max. lia.
  - simpl. unfold u64_max. lia.
  - exists s. split; [exact H|]. vm_compute in H. injection H as <-. split; [reflexivity|exact Hs].
Defined.

(** [Config.validate] fails exactly when [configurationDiagnostic] reports, with the error
    the report maps to, and that error maps back to the report's kind. *)
Theorem configuration_diagnostic_agrees (config : Config.t) :
  Config.validate config =
    match configurationDiagnostic config with
    | None => Ok ()
    | Some d => e ← Diagnostic.toError d; Err e
    end ∧
  (∀ d e, configurationDiagnostic config = Some d → Diagnostic.toError d = Ok e →
     kindForError e = Some (Diagnostic.kind d)).
Proof.
  unfold Config.validate, configurationDiagnostic. split.
  - by destruct (Config.max_pending_writes config =? 0), (Config.snapshot_retention_generations config =? 0),
      (Config.checkpoint_generation_budget config =? 0), (Config.vector_overlay_drain_budget config =? 0).
  - intros d e Hd He. revert He.
    repeat case_match; simplify_eq; simpl; intros [= <-]; reflexivity.
Qed.

(** ** Checkpoint tickets

    The worker and every ticket handed out so far, the last completed generation as a ghost. *)
Inductive worker_op := WBegin (generation : Z) | WComplete (i : nat) | WFail (i : nat).

Record worker_run := WorkerRun { worker : Worker.t; tickets : list Ticket.t; published : Z }.

Definition worker_step (s : worker_run) (o : worker_op) : Result worker_run :=
  match o with
  | WBegin g =>
      match worker_begin (worker s) g with
      | Ok (w, t) => Ok (WorkerRun w (tickets s ++ [t]) (published s))
      | Err _ => Ok s
      | Panic => Panic
      end
  | WComplete i =>
      match tickets s !! i with
      | None => Ok s
      | Some t => r ← Ticket.complete (worker s) t;
                  Ok (WorkerRun r.1 (<[i := r.2]> (tickets s))
                        (if Ticket.closed t then published s else Ticket.generation t))
      end
  | WFail i =>
      match tickets s !! i with
      | None => Ok s
      | Some t => r ← Ticket.fail (worker s) t; Ok (WorkerRun r.1 (<[i := r.2]> (tickets s)) (published s))
      end
  end.

Definition open_tickets (ts : list Ticket.t) : list Ticket.t := filter (λ t, Ticket.closed t = false) ts.

(** The worker is busy exactly while one ticket is open, and its active generation is that
    ticket's. *)
Definition worker_inv (s : worker_run) : Prop :=
  Worker.last_completed_generation (worker s) = published s ∧
  match Worker.in_progress (worker s), Worker.active_generation (worker s) with
  | true, Some g => open_tickets (tickets s) = [Ticket.mk g false]
  | false, None => open_tickets (tickets s) = []
  | _, _ => False
  end.

Lemma open_tickets_close ts i g t :
  open_tickets ts = [Ticket.mk g false] → ts !! i = Some t → Ticket.closed t = false →
  t = Ticket.mk g false ∧ open_tickets (<[i := Ticket.mk (Ticket.generation t) true]> ts) = [].
Proof.
  intros Ho Hi Hc. rewrite <-(take_drop_middle ts i t Hi) in Ho. unfold open_tickets in *.
  rewrite filter_app, filter_cons, decide_True in Ho by done.
  assert (Hi' : (i < length ts)%nat) by by eapply lookup_lt_Some.
  destruct (filter _ (take i ts)) as [|a l] eqn:H1; simpl in Ho.
  - injection Ho as -> H2. split; [done|].
    rewrite (insert_take_drop _ _ _ Hi'), filter_app, filter_cons, decide_False by done. by rewrite H1, H2.
  - injection Ho as _ Ho. by destruct l.
Qed.

Lemma open_tickets_idle ts i t :
  open_tickets ts = [] → ts !! i = Some t → Ticket.closed t = false → False.
Proof.
  intros Ho Hi Hc. assert (t ∈ open_tickets ts) as Hin.
  { apply list_elem_of_filter. split; [done|]. by eapply list_elem_of_lookup_2. }
  rewrite Ho in Hin. by apply not_elem_of_nil in Hin.
Qed.

Lemma worker_step_inv s o : worker_inv s → ∃ s', worker_step s o = Ok s' ∧ worker_inv s'.
Proof.
  intros [Hl Hi]. destruct s as [w ts p]; simpl in *. destruct w as [b ag lc]; simpl in *. destruct o as [g|i|i]; simpl.
  - destruct b; simpl; (eexists; split; [done|split; [done|]]); [done|]. simpl.
    destruct ag; [done|]. unfold open_tickets in *. by rewrite filter_app, Hi.
  - destruct (ts !! i) as [t|] eqn:Ht; [|by eexists; split; [|split]].
    unfold Ticket.complete. destruct (Ticket.closed t) eqn:Hc; simpl.
    + eexists. split; [done|]. split; [done|]. simpl. by rewrite list_insert_id.
    + destruct b, ag as [g|]; try done; simpl.
      * eexists. split; [done|]. split; [done|]. simpl. by destruct (open_tickets_close ts i g t).
      * by destruct (open_tickets_idle ts i t).
  - destruct (ts !! i) as [t|] eqn:Ht; [|by eexists; split; [|split]].
    unfold Ticket.fail. destruct (Ticket.closed t) eqn:Hc; simpl.
    + eexists. split; [done|]. split; [done|]. simpl. by rewrite list_insert_id.
    + destruct b, ag as [g|]; try done; simpl.
      * eexists. split; [done|]. split; [done|]. simpl. by destruct (open_tickets_close ts i g t).
      * by destruct (open_tickets_idle ts i t).
Qed.

(** For every sequence of checkpoint begins, completions and failures through any tickets
    (closed ones and repeats included) no assertion of the worker fails, at most one ticket is open, the worker
    is busy exactly while it is, and the last completed generation is the generation of the last
    ticket completed: a failed checkpoint leaves it unchanged. *)
Theorem checkpoint_worker_trace (ops : list worker_op) :
  ∃ s, foldM worker_step (WorkerRun Worker.init [] 0) ops = Ok s ∧
    (length (open_tickets (tickets s)) ≤ 1)%nat ∧
    (Worker.in_progress (worker s) = true ↔ open_tickets (tickets s) ≠ []) ∧
    Worker.last_completed_generation (worker s) = published s.
Proof.
  assert (Hrun : ∀ ops s, worker_inv s → ∃ s', foldM worker_step s ops = Ok s' ∧ worker_inv s').
  { induction ops0 as [|o ops0 IH]; intros s Hs; simpl; [by exists s|].
    destruct (worker_step_inv s o Hs) as (s1 & -> & Hs1). by apply IH. }
  destruct (Hrun ops (WorkerRun Worker.init [] 0)) as (s & H & Hl & Hi); [by split|].
  exists s. split; [done|]. destruct s as [[b [g|] lc] ts p], b; simpl in *; try done; rewrite Hi; simpl;
    (split_and!; [lia|naive_solver|done]).
Qed.
