(* ===== verification/Snapshot.v ===== *)
(** * The snapshot registry

    Models [src/src/db/snapshot.zig]: readers acquire reference-counted handles on a commit
    generation; a writer about to change a generation that still has readers first retains a
    deep copy of it; releasing the last handle drops the copy.  A retained store's pointer to
    its table is the table it carries, which [refreshStorePointers] re-establishes. *)

From S2P Require Import Prelude Value Catalog TableFacts RowStore Concurrency.

Abbreviation SnapshotGeneration := Z.

Module TableSource.
Record t := mk { table : TableDef.t; store : RowStore.t }.
End TableSource.

Module RetainedTable.
Record t := mk { table : TableDef.t; store : RowStore.t }.

Definition init (source : TableSource.t) : Result t :=
  table ← cloneTableDef (TableSource.table source);
  store ← insert_rows (RowStore.init table) (RowStore.rows (TableSource.store source));
  Ok (mk table (RowStore.mk (RowStore.table store) (RowStore.rows_list store)
                  (RowStore.nextRowId (TableSource.store source)))).
End RetainedTable.

Module RetainedGeneration.
Record t := mk { generation : SnapshotGeneration; tables : list RetainedTable.t }.

Definition init (generation : SnapshotGeneration) : t := mk generation [].

Definition refreshStorePointers (self : t) : t :=
  mk (generation self)
    ((λ rt, RetainedTable.mk (RetainedTable.table rt)
              (RowStore.set_table (RetainedTable.store rt) (RetainedTable.table rt))) <$> tables self).

Definition capture (self : t) (sources : list TableSource.t) : Result t :=
  tables' ← foldM (λ ts source, table ← RetainedTable.init source; Ok (ts ++ [table])) (tables self) sources;
  Ok (refreshStorePointers (mk (generation self) tables')).

Definition storeForTable (self : t) (table_name : bytes) : option RowStore.t :=
  i ← find_index (λ rt, eqlIgnoreCase (TableDef.name (RetainedTable.table rt)) table_name) (tables self);
  RetainedTable.store <$> tables self !! i.
End RetainedGeneration.

Module ActiveGeneration.
Record t := mk { generation : SnapshotGeneration; ref_count : Z }.
End ActiveGeneration.

Module SnapshotHandle.
Record t := mk { generation : SnapshotGeneration; released : bool }.
End SnapshotHandle.

Module Registry.
Record t := mk {
  retention_limit : Z;
  active : list ActiveGeneration.t;
  retained : list RetainedGeneration.t }.

Definition init (config : Config.t) : t := mk (Config.snapshot_retention_generations config) [] [].

Definition findActiveIndex (self : t) (g : SnapshotGeneration) : option nat :=
  find_index (λ a, ActiveGeneration.generation a =? g) (active self).

Definition findRetainedIndex (self : t) (g : SnapshotGeneration) : option nat :=
  find_index (λ r, RetainedGeneration.generation r =? g) (retained self).

Definition activeRefCount (self : t) (g : SnapshotGeneration) : Z :=
  match findActiveIndex self g with
  | None => 0
  | Some index => default 0 (ActiveGeneration.ref_count <$> active self !! index)
  end.

Definition acquire (self : t) (g : SnapshotGeneration) : Result (t * SnapshotHandle.t) :=
  active' ←
    match findActiveIndex self g with
    | Some index =>
        a ← item_at (active self) index;
        n ← checked_u64 (ActiveGeneration.ref_count a + 1);
        Ok (<[index := ActiveGeneration.mk (ActiveGeneration.generation a) n]> (active self))
    | None => Ok (active self ++ [ActiveGeneration.mk g 1])
    end;
  Ok (mk (retention_limit self) active' (retained self), SnapshotHandle.mk g false).

Definition needsRetention (self : t) (g : SnapshotGeneration) (excluding : option SnapshotHandle.t) : bool :=
  let refs := activeRefCount self g in
  let refs :=
    match excluding with
    | Some handle =>
        if negb (SnapshotHandle.released handle) && (SnapshotHandle.generation handle =? g) && (0 <? refs)
        then refs - 1 else refs
    | None => refs
    end in
  (0 <? refs) && bool_decide (findRetainedIndex self g = None).

(** The [while] loop over [retained]: every iteration advances the index or removes the entry
    at it, so [fuel] iterations are enough when [fuel] is the number of entries left. *)
Fixpoint sweep_loop (self : t) (fuel : nat) (index : nat) (items : list RetainedGeneration.t)
    : list RetainedGeneration.t :=
  match fuel with
  | O => items
  | S fuel' =>
      match items !! index with
      | None => items
      | Some r =>
          if negb (activeRefCount self (RetainedGeneration.generation r) =? 0)
          then sweep_loop self fuel' (S index) items
          else sweep_loop self fuel' index (delete index items)
      end
  end.

Definition sweepReleasedGenerations (self : t) : t :=
  mk (retention_limit self) (active self) (sweep_loop self (length (retained self)) 0 (retained self)).

(** The registry is returned with the error: the sweep precedes the limit check. *)
Definition retainGeneration (self : t) (g : SnapshotGeneration) (sources : list TableSource.t) : t * Result () :=
  if decide (is_Some (findRetainedIndex self g)) then (self, Ok ())
  else
    let self := sweepReleasedGenerations self in
    if retention_limit self <=? Z.of_nat (length (retained self)) then (self, Err SnapshotRetentionExceeded)
    else match RetainedGeneration.capture (RetainedGeneration.init g) sources with
         | Ok r => (mk (retention_limit self) (active self) (retained self ++ [r]), Ok ())
         | Err e => (self, Err e)
         | Panic => (self, Panic)
         end.

Definition retainedStoreForTable (self : t) (g : SnapshotGeneration) (table_name : bytes) : option RowStore.t :=
  index ← findRetainedIndex self g;
  r ← retained self !! index;
  RetainedGeneration.storeForTable r table_name.

Definition retainedGenerationCount (self : t) : Z := Z.of_nat (length (retained self)).

Definition retainedRowCount (self : t) (g : SnapshotGeneration) (table_name : bytes) : option Z :=
  store ← retainedStoreForTable self g table_name; Some (Z.of_nat (length (RowStore.rows store))).

Definition releaseGeneration (self : t) (g : SnapshotGeneration) : t :=
  match findActiveIndex self g with
  | None => self
  | Some index =>
      let n := default 0 (ActiveGeneration.ref_count <$> active self !! index) in
      let active' := if 1 <? n then <[index := ActiveGeneration.mk g (n - 1)]> (active self)
                     else delete index (active self) in
      sweepReleasedGenerations (mk (retention_limit self) active' (retained self))
  end.
End Registry.

(** [SnapshotHandle.release]; the handle's registry pointer is the registry argument. *)
Definition handle_release (self : SnapshotHandle.t) (registry : Registry.t) : SnapshotHandle.t * Registry.t :=
  if SnapshotHandle.released self then (self, registry)
  else (SnapshotHandle.mk (SnapshotHandle.generation self) true,
        Registry.releaseGeneration registry (SnapshotHandle.generation self)).

(** ** The sweep loop is a filter *)
Lemma sweep_loop_filter self fuel index items :
  (length items - index ≤ fuel)%nat →
  Registry.sweep_loop self fuel index items =
    take index items ++
    filter (λ r, Registry.activeRefCount self (RetainedGeneration.generation r) ≠ 0) (drop index items).
Proof.
  revert index items. induction fuel as [|fuel IH]; intros index items Hf; simpl.
  - rewrite take_ge, drop_ge by lia. by rewrite filter_nil, app_nil_r.
  - destruct (items !! index) as [r|] eqn:Hr.
    + pose proof (lookup_lt_Some _ _ _ Hr) as Hlt. rewrite (drop_S items r index Hr), filter_cons.
      destruct (Z.eqb_spec (Registry.activeRefCount self (RetainedGeneration.generation r)) 0) as [Hz|Hz]; simpl.
      * rewrite IH by (rewrite length_delete by eauto; lia). rewrite decide_False by (intros []; lia).
        rewrite delete_take_drop, take_app_le, take_take, Nat.min_id by (rewrite length_take; lia).
        by rewrite drop_app_length' by (rewrite length_take; lia).
      * rewrite IH by lia. rewrite decide_True by done.
        rewrite (take_S_r items index r Hr), <-app_assoc. done.
    + apply lookup_ge_None in Hr. rewrite take_ge, drop_ge by done. by rewrite filter_nil, app_nil_r.
Qed.

Lemma sweep_filter self :
  Registry.retained (Registry.sweepReleasedGenerations self) =
  filter (λ r, Registry.activeRefCount self (RetainedGeneration.generation r) ≠ 0) (Registry.retained self).
Proof. simpl. rewrite sweep_loop_filter by lia. done. Qed.

(** ** Lookup by generation *)
Section by_generation.
Context {A : Type} (gen : A → Z).

Definition find_gen (l : list A) (g : Z) : option A :=
  find_index (λ a, gen a =? g) l ≫= λ i, l !! i.

Lemma find_gen_Some l g a : NoDup (gen <$> l) → find_gen l g = Some a ↔ a ∈ l ∧ gen a = g.
Proof.
  intros Hnd. unfold find_gen. split.
  - intros (i & Hi & Ha)%bind_Some. apply find_index_lookup in Hi as (b & Hb & Hg).
    simplify_eq. split; [by eapply list_elem_of_lookup_2|lia].
  - intros [(i & Hi)%list_elem_of_lookup <-].
    assert (find_index (λ b, gen b =? gen a) l = Some i) as ->; [|done].
    apply find_index_Some. split; [exists a; split; [done|lia]|].
    intros j b Hj Hb. apply Z.eqb_neq. intros E.
    assert (j = i); [|lia]. eapply NoDup_lookup; [exact Hnd|..]; rewrite list_lookup_fmap.
    + by rewrite Hb.
    + rewrite Hi. simpl. by rewrite E.
Qed.

Lemma find_gen_None l g : find_index (λ a, gen a =? g) l = None ↔ g ∉ gen <$> l.
Proof.
  rewrite find_index_None, Forall_forall, list_elem_of_fmap. split.
  - intros H (a & -> & Ha). apply H in Ha. lia.
  - intros H a Ha. apply Z.eqb_neq. intros E. apply H. by exists a.
Qed.

Lemma find_gen_filter P `{!∀ a, Decision (P a)} l g a :
  NoDup (gen <$> l) → find_gen l g = Some a → P a → find_gen (filter P l) g = Some a.
Proof.
  intros Hnd Hf HP. apply find_gen_Some in Hf; [|done]. apply find_gen_Some.
  - eapply sublist_NoDup; [exact Hnd|]. apply fmap_sublist, sublist_filter.
  - destruct Hf. split; [|done]. by apply list_elem_of_filter.
Qed.

Lemma find_gen_app l l' g a : find_gen l g = Some a → find_gen (l ++ l') g = Some a.
Proof.
  unfold find_gen. intros (i & Hi & Ha)%bind_Some. rewrite find_index_app, Hi. simpl.
  by apply lookup_app_l_Some.
Qed.
End by_generation.

(** ** Registry runs

    The registry together with every handle it has handed out. *)
Record registry_run := RegistryRun { registry : Registry.t; handles : list SnapshotHandle.t }.

Inductive registry_step : registry_run → registry_run → Prop :=
  | step_acquire s g r' h :
      Registry.acquire (registry s) g = Ok (r', h) → registry_step s (RegistryRun r' (handles s ++ [h]))
  | step_release s i h h' r' :
      handles s !! i = Some h → handle_release h (registry s) = (h', r') →
      registry_step s (RegistryRun r' (<[i := h']> (handles s)))
  | step_retain s g sources r' res :
      Registry.retainGeneration (registry s) g sources = (r', res) →
      registry_step s (RegistryRun r' (handles s)).

Inductive registry_reachable (config : Config.t) : registry_run → Prop :=
  | registry_start : registry_reachable config (RegistryRun (Registry.init config) [])
  | registry_next s s' : registry_reachable config s → registry_step s s' → registry_reachable config s'.

Definition live (hs : list SnapshotHandle.t) (g : Z) : Z :=
  Z.of_nat (length (filter (λ h, SnapshotHandle.released h = false ∧ SnapshotHandle.generation h = g) hs)).

Record registry_inv (limit : Z) (s : registry_run) : Prop := {
  ri_limit : Registry.retention_limit (registry s) = limit;
  ri_active : NoDup (ActiveGeneration.generation <$> Registry.active (registry s));
  ri_positive : Forall (λ a, 0 < ActiveGeneration.ref_count a) (Registry.active (registry s));
  ri_counts : ∀ g, Registry.activeRefCount (registry s) g = live (handles s) g;
  ri_retained : NoDup (RetainedGeneration.generation <$> Registry.retained (registry s));
  ri_bound : Z.of_nat (length (Registry.retained (registry s))) ≤ Z.max 0 limit }.

(** ** Reference counts *)
Fixpoint refs (l : list ActiveGeneration.t) (g : Z) : Z :=
  match l with
  | [] => 0
  | a :: l' => if ActiveGeneration.generation a =? g then ActiveGeneration.ref_count a else refs l' g
  end.

Abbreviation is_gen g := (λ a, ActiveGeneration.generation a =? g).

Lemma activeRefCount_refs r g : Registry.activeRefCount r g = refs (Registry.active r) g.
Proof.
  unfold Registry.activeRefCount, Registry.findActiveIndex.
  induction (Registry.active r) as [|a l IH]; simpl; [done|].
  destruct (ActiveGeneration.generation a =? g); simpl; [done|]. rewrite <-IH. by destruct (find_index _ l).
Qed.

Lemma refs_find l g i : find_index (is_gen g) l = Some i → ∃ a, l !! i = Some a ∧ a = ActiveGeneration.mk g (refs l g).
Proof.
  revert i. induction l as [|a l IH]; intros i; simpl; [done|].
  destruct (Z.eqb_spec (ActiveGeneration.generation a) g) as [<-|].
  - intros [= <-]. exists a. by destruct a.
  - intros (j & Hj & ->)%fmap_Some. by apply IH.
Qed.

Lemma refs_None l g : find_index (is_gen g) l = None → refs l g = 0.
Proof.
  induction l as [|a l IH]; simpl; [done|]. case_match; [done|]. intros H1%fmap_None. auto.
Qed.

Lemma refs_insert l g i n g' :
  find_index (is_gen g) l = Some i →
  refs (<[i := ActiveGeneration.mk g n]> l) g' = if g =? g' then n else refs l g'.
Proof.
  revert i. induction l as [|a l IH]; intros i; simpl; [done|].
  destruct (Z.eqb_spec (ActiveGeneration.generation a) g) as [<-|Hne].
  - intros [= <-]. simpl. by case_match.
  - intros (j & Hj & ->)%fmap_Some. simpl. rewrite (IH _ Hj).
    destruct (Z.eqb_spec (ActiveGeneration.generation a) g'), (Z.eqb_spec g g'); congruence.
Qed.

Lemma refs_append l g n g' :
  find_index (is_gen g) l = None →
  refs (l ++ [ActiveGeneration.mk g n]) g' = if g =? g' then n else refs l g'.
Proof.
  induction l as [|a l IH]; simpl; [done|].
  destruct (Z.eqb_spec (ActiveGeneration.generation a) g) as [<-|Hne]; [done|].
  intros H%fmap_None. rewrite (IH H).
  destruct (Z.eqb_spec (ActiveGeneration.generation a) g'), (Z.eqb_spec g g'); congruence.
Qed.

Lemma refs_delete l g i g' :
  NoDup (ActiveGeneration.generation <$> l) → find_index (is_gen g) l = Some i →
  refs (delete i l) g' = if g =? g' then 0 else refs l g'.
Proof.
  revert i. induction l as [|a l IH]; intros i Hnd; [done|]. apply NoDup_cons in Hnd as [Hn Hnd]. simpl.
  destruct (Z.eqb_spec (ActiveGeneration.generation a) g) as [<-|Hne].
  - intros [= <-]. simpl. destruct (Z.eqb_spec (ActiveGeneration.generation a) g') as [Hg|]; [rewrite <-Hg|done].
    apply refs_None, find_index_None, Forall_forall. intros b Hb. apply Z.eqb_neq. intros E.
    apply Hn. rewrite <-E. by apply list_elem_of_fmap_2.
  - intros (j & Hj & ->)%fmap_Some. simpl. rewrite (IH _ Hnd Hj).
    destruct (Z.eqb_spec (ActiveGeneration.generation a) g'), (Z.eqb_spec g g'); congruence.
Qed.

(** ** Live handles *)
Lemma live_snoc hs g g' : live (hs ++ [SnapshotHandle.mk g false]) g' = live hs g' + if g =? g' then 1 else 0.
Proof.
  unfold live. rewrite filter_app, length_app, filter_cons, filter_nil. simpl.
  destruct (Z.eqb_spec g g'), (decide (false = false ∧ g = g')); simpl; try lia; naive_solver.
Qed.

Lemma live_release hs i h g' :
  hs !! i = Some h → SnapshotHandle.released h = false →
  live hs g' = live (<[i := SnapshotHandle.mk (SnapshotHandle.generation h) true]> hs) g' +
    if SnapshotHandle.generation h =? g' then 1 else 0.
Proof.
  intros Hi Hr. unfold live. rewrite (insert_take_drop _ _ _ (lookup_lt_Some _ _ _ Hi)).
  rewrite <-(take_drop_middle hs i h Hi) at 1. rewrite !filter_app, !length_app.
  rewrite (filter_cons_False _ (SnapshotHandle.mk _ true)) by (by intros []). rewrite filter_cons.
  destruct (Z.eqb_spec (SnapshotHandle.generation h) g'),
    (decide (SnapshotHandle.released h = false ∧ SnapshotHandle.generation h = g')); simpl; try lia; naive_solver.
Qed.

Lemma live_pos hs i h : hs !! i = Some h → SnapshotHandle.released h = false → 0 < live hs (SnapshotHandle.generation h).
Proof. intros Hi Hr. rewrite (live_release hs i h _ Hi Hr), Z.eqb_refl. unfold live. lia. Qed.

(** ** Every step keeps the invariant *)
Lemma retained_filter_NoDup P `{!∀ r, Decision (P r)} l :
  NoDup (RetainedGeneration.generation <$> l) → NoDup (RetainedGeneration.generation <$> filter P l).
Proof. intros Hnd. eapply sublist_NoDup; [exact Hnd|]. apply fmap_sublist, sublist_filter. Qed.

Lemma sweep_inv limit r hs :
  registry_inv limit (RegistryRun r hs) → registry_inv limit (RegistryRun (Registry.sweepReleasedGenerations r) hs).
Proof.
  intros [Hl Ha Hp Hc Hr Hb]. split; cbn [registry handles] in *; rewrite ?sweep_filter; try done.
  - by apply retained_filter_NoDup.
  - etransitivity; [|exact Hb]. apply Nat2Z.inj_le, length_filter.
Qed.

Lemma acquire_inv limit r hs g r' h :
  registry_inv limit (RegistryRun r hs) → Registry.acquire r g = Ok (r', h) →
  registry_inv limit (RegistryRun r' (hs ++ [h])).
Proof.
  intros [Hl Ha Hp Hc Hr Hb] H. simpl in *. unfold Registry.acquire in H.
  assert (Hc' : ∀ g', refs (Registry.active r) g' = live hs g') by (intros; by rewrite <-activeRefCount_refs).
  destruct (Registry.findActiveIndex r g) as [i|] eqn:Hi; unfold Registry.findActiveIndex in Hi.
  - destruct (refs_find _ _ _ Hi) as (a' & Ha' & ->). unfold item_at in H. rewrite Ha' in H.
    cbn [mbind result_bind] in H. inv_ok. cbn [ActiveGeneration.ref_count ActiveGeneration.generation] in *.
    match goal with Hck : checked_u64 _ = Ok _ |- _ => apply checked_u64_ok in Hck as [_ ->] end.
    pose proof (Forall_lookup_1 _ _ _ _ Hp Ha') as Hpos. simpl in Hpos.
    split; simpl; try done.
    + rewrite list_fmap_insert. rewrite list_insert_id; [done|]. by rewrite list_lookup_fmap, Ha'.
    + apply Forall_insert; [done|]. simpl. lia.
    + intros g'. rewrite activeRefCount_refs, live_snoc. simpl. rewrite (refs_insert _ _ _ _ _ Hi), <-Hc'.
      destruct (Z.eqb_spec g g') as [->|]; lia.
  - inv_ok. split; simpl; try done.
    + rewrite fmap_app. apply NoDup_app. split_and!; [done| |apply NoDup_singleton].
      intros x Hx ->%list_elem_of_singleton. by apply find_gen_None in Hi.
    + apply Forall_app. split; [done|]. repeat constructor.
    + intros g'. rewrite activeRefCount_refs, live_snoc. simpl. rewrite (refs_append _ _ _ _ Hi).
      destruct (Z.eqb_spec g g') as [->|]; rewrite <-Hc'; [rewrite (refs_None _ _ Hi)|]; lia.
Qed.

Lemma release_inv limit r hs i h :
  registry_inv limit (RegistryRun r hs) → hs !! i = Some h → SnapshotHandle.released h = false →
  registry_inv limit (RegistryRun (Registry.releaseGeneration r (SnapshotHandle.generation h))
    (<[i := SnapshotHandle.mk (SnapshotHandle.generation h) true]> hs)).
Proof.
  intros [Hl Ha Hp Hc Hr Hb] Hi Hrel. simpl in *. unfold Registry.releaseGeneration.
  assert (Hc' : ∀ g', refs (Registry.active r) g' = live hs g') by (intros; by rewrite <-activeRefCount_refs).
  pose proof (live_pos hs i h Hi Hrel) as Hpos. set (g := SnapshotHandle.generation h) in *.
  destruct (Registry.findActiveIndex r g) as [k|] eqn:Hk; unfold Registry.findActiveIndex in Hk.
  2: { apply refs_None in Hk. rewrite Hc' in Hk. lia. }
  destruct (refs_find _ _ _ Hk) as (a & Hka & ->). rewrite Hka. simpl. apply sweep_inv.
  assert (Hlive : ∀ g', live (<[i := SnapshotHandle.mk g true]> hs) g' = refs (Registry.active r) g' - if g =? g' then 1 else 0).
  { intros g'. rewrite Hc', (live_release hs i h g' Hi Hrel). fold g. lia. }
  destruct (Z.ltb_spec 1 (refs (Registry.active r) g)) as [H1|H1]; split; simpl; try done.
  - rewrite list_fmap_insert, list_insert_id; [done|]. by rewrite list_lookup_fmap, Hka.
  - apply Forall_insert; [done|]. simpl. lia.
  - intros g'. rewrite activeRefCount_refs, Hlive. simpl. rewrite (refs_insert _ _ _ _ _ Hk).
    destruct (Z.eqb_spec g g') as [<-|]; lia.
  - rewrite delete_take_drop, fmap_app, fmap_take, fmap_drop, <-delete_take_drop. by apply NoDup_list_delete.
  - by apply Forall_list_delete.
  - intros g'. rewrite activeRefCount_refs, Hlive. simpl. rewrite (refs_delete _ _ _ _ Ha Hk).
    destruct (Z.eqb_spec g g') as [<-|]; [rewrite Hc' in *|]; lia.
Qed.

Lemma capture_generation g sources r :
  RetainedGeneration.capture (RetainedGeneration.init g) sources = Ok r → RetainedGeneration.generation r = g.
Proof. unfold RetainedGeneration.capture. intros H. inv_ok. done. Qed.

Lemma retain_inv limit r hs g sources r' res :
  registry_inv limit (RegistryRun r hs) → Registry.retainGeneration r g sources = (r', res) →
  registry_inv limit (RegistryRun r' hs).
Proof.
  intros Hinv H. unfold Registry.retainGeneration in H. case_decide as Hret; [by simplify_eq|].
  pose proof (sweep_inv _ _ _ Hinv) as Hs.
  destruct (Z.leb_spec (Registry.retention_limit (Registry.sweepReleasedGenerations r))
    (Z.of_nat (length (Registry.retained (Registry.sweepReleasedGenerations r))))) as [|Hlt]; [by simplify_eq|].
  destruct (RetainedGeneration.capture _ _) as [c| |] eqn:Hcap; simplify_eq; try done.
  apply capture_generation in Hcap. destruct Hs as [Hl Ha Hp Hc Hr Hb]. cbn [registry handles] in *.
  split; cbn [registry handles Registry.active Registry.retained Registry.retention_limit]; try done.
  - rewrite fmap_app. apply NoDup_app. split_and!; [done| |apply NoDup_singleton].
    intros x Hx ->%list_elem_of_singleton. apply Hret, not_eq_None_Some. intros Hn.
    apply find_gen_None in Hn. apply Hn. rewrite sweep_filter in Hx. rewrite Hcap in Hx.
    apply list_elem_of_fmap in Hx as (c' & Hc1 & [_ Hc2]%list_elem_of_filter).
    rewrite Hc1. by apply list_elem_of_fmap_2.
  - rewrite Hl in Hlt. rewrite length_app. cbn [length]. lia.
Qed.

Lemma registry_reachable_inv config s :
  registry_reachable config s → registry_inv (Config.snapshot_retention_generations config) s.
Proof.
  induction 1 as [|s s' _ IH Hstep].
  - split; simpl; try done; try constructor. lia.
  - destruct Hstep as [s g r' h H|s i h h' r' Hi H|s g src r' res H]; destruct s as [r hs]; simpl in *.
    + by eapply acquire_inv.
    + unfold handle_release in H. destruct (SnapshotHandle.released h) eqn:Hrel; simplify_eq.
      * by rewrite list_insert_id.
      * by apply release_inv.
    + by eapply retain_inv.
Qed.

(** ** Capturing a generation *)
Definition source_wf (src : TableSource.t) : Prop :=
  table_wf (TableSource.table src) ∧ store_wf (TableSource.store src) ∧
  RowStore.table (TableSource.store src) = TableSource.table src.

Lemma retained_init_ok src :
  source_wf src →
  RetainedTable.init src = Ok (RetainedTable.mk (TableSource.table src) (TableSource.store src)).
Proof.
  intros (Ht & Hs & He). unfold RetainedTable.init. rewrite cloneTableDef_wf by done. cbn [mbind result_bind].
  rewrite <-He. unfold RowStore.rows. destruct (insert_rows_init _ Hs) as [n ->]. simpl. by destruct (TableSource.store src).
Qed.

Lemma capture_ok g sources :
  Forall source_wf sources →
  RetainedGeneration.capture (RetainedGeneration.init g) sources =
    Ok (RetainedGeneration.mk g ((λ src, RetainedTable.mk (TableSource.table src) (TableSource.store src)) <$> sources)).
Proof.
  intros Hs. unfold RetainedGeneration.capture. cbn [RetainedGeneration.init RetainedGeneration.tables].
  assert (Hfold : ∀ ts, foldM (λ ts source, table ← RetainedTable.init source; Ok (ts ++ [table])) ts sources =
    Ok (ts ++ ((λ src, RetainedTable.mk (TableSource.table src) (TableSource.store src)) <$> sources))).
  { induction Hs as [|src sources Hsrc _ IH]; intros ts; cbn [foldM]; [by rewrite app_nil_r|].
    rewrite retained_init_ok by done. cbn [mbind result_bind]. rewrite IH, <-app_assoc. done. }
  rewrite Hfold. simpl. unfold RetainedGeneration.refreshStorePointers. simpl. do 2 f_equal.
  rewrite <-list_fmap_compose. apply list_fmap_ext. intros i src Hi. simpl.
  pose proof (Forall_lookup_1 _ _ _ _ Hs Hi) as (_ & _ & He). rewrite <-He. by destruct (TableSource.store src).
Qed.

(** ** Properties *)

(** In every state reachable by acquiring, releasing (repeatedly or not) and retaining, the
    registry's reference count of a generation is the number of its unreleased handles, and no
    more generations are retained than the retention limit, each at most once. *)
Theorem registry_counts_live_handles (config : Config.t) (s : registry_run) (g : Z) :
  registry_reachable config s → 0 ≤ Config.snapshot_retention_generations config →
  Registry.activeRefCount (registry s) g = live (handles s) g ∧
  Registry.retainedGenerationCount (registry s) ≤ Config.snapshot_retention_generations config ∧
  NoDup (RetainedGeneration.generation <$> Registry.retained (registry s)).
Proof.
  intros [_ _ _ Hc Hr Hb]%registry_reachable_inv Hl. split_and!; [apply Hc| |done].
  unfold Registry.retainedGenerationCount. lia.
Qed.

Definition tiny_config : Config.t := Config.mk 1 1 1 1.

Lemma registry_counts_live_handles_witness :
  ∃ s, registry_reachable tiny_config s ∧ live (handles s) 7 = 1 ∧
       Registry.activeRefCount (registry s) 7 = 1.
Proof.
  exists (RegistryRun (Registry.mk 1 [ActiveGeneration.mk 7 1] []) [SnapshotHandle.mk 7 false]).
  assert (Hr : registry_reachable tiny_config
    (RegistryRun (Registry.mk 1 [ActiveGeneration.mk 7 1] []) [SnapshotHandle.mk 7 false])).
  { eapply registry_next; [apply registry_start|]. apply (step_acquire (RegistryRun _ []) 7). reflexivity. }
  split; [exact Hr|]. split; [reflexivity|].
  apply (registry_counts_live_handles tiny_config _ 7 Hr). simpl. lia.
Defined.

(** A step leaves the retained generations alone, or sweeps them and appends. *)
Lemma step_retained s s' :
  registry_step s s' →
  Registry.retained (registry s') = Registry.retained (registry s) ∨
  ∃ l, Registry.retained (registry s') =
         filter (λ c, Registry.activeRefCount (registry s') (RetainedGeneration.generation c) ≠ 0)
           (Registry.retained (registry s)) ++ l.
Proof.
  intros Hstep. destruct Hstep as [s g r' h H|s i h h' r' Hi H|s g src r' res H]; cbn [registry].
  - left. unfold Registry.acquire in H. inv_ok. done.
  - unfold handle_release in H. destruct (SnapshotHandle.released h); simplify_eq; [by left|].
    unfold Registry.releaseGeneration. case_match; [|by left]. right. exists [].
    rewrite app_nil_r. etransitivity; [apply sweep_filter|]. done.
  - unfold Registry.retainGeneration in H. case_decide; [simplify_eq; by left|]. right.
    repeat case_match; simplify_eq; first [exists []; rewrite app_nil_r; exact (sweep_filter _)
      | eexists; apply (f_equal (λ l, l ++ _)); exact (sweep_filter _)].
Qed.

Lemma retainedStore_find r g name :
  Registry.retainedStoreForTable r g name =
  find_gen RetainedGeneration.generation (Registry.retained r) g ≫= λ c, RetainedGeneration.storeForTable c name.
Proof.
  unfold Registry.retainedStoreForTable, Registry.findRetainedIndex, find_gen. by destruct (find_index _ _).
Qed.

(** C11: a retained snapshot is stable: while a generation has an unreleased handle, no step of the
    registry (acquiring, releasing other handles, retaining or sweeping) changes or drops the
    store retained for any of its tables. *)
Theorem retained_snapshot_stable (config : Config.t) (s s' : registry_run) (g : Z) (name : bytes) (st : RowStore.t) :
  registry_reachable config s → registry_step s s' → 0 < live (handles s') g →
  Registry.retainedStoreForTable (registry s) g name = Some st →
  Registry.retainedStoreForTable (registry s') g name = Some st.
Proof.
  intros Hs Hstep Hlive. rewrite !retainedStore_find. intros (c & Hc & H)%bind_Some.
  apply bind_Some. exists c. split; [|done].
  pose proof (registry_reachable_inv _ _ (registry_next _ _ _ Hs Hstep)) as Hinv.
  apply registry_reachable_inv in Hs. destruct (step_retained _ _ Hstep) as [->|[l ->]]; [done|].
  apply find_gen_app, find_gen_filter; [apply Hs|done|].
  apply find_gen_Some in Hc as [_ ->]; [|apply Hs]. rewrite (ri_counts _ _ Hinv). lia.
Qed.

(** Retaining a generation captures it exactly: when the retention limit is not reached and
    the sources are well-formed tables with distinct names, every table's store is afterwards
    served unchanged (rows, order, ids and next row id) under its name in any letter case. *)
Theorem retain_captures_sources (r : Registry.t) (g : Z) (sources : list TableSource.t) (src : TableSource.t) (name : bytes) :
  Registry.findRetainedIndex r g = None → 
  Z.of_nat (length (Registry.retained r)) < Registry.retention_limit r →
  Forall source_wf sources → NoDup ((λ src, lower (TableDef.name (TableSource.table src))) <$> sources) →
  src ∈ sources → same_name (TableDef.name (TableSource.table src)) name →
  ∃ r', Registry.retainGeneration r g sources = (r', Ok ()) ∧
        Registry.retainedStoreForTable r' g name = Some (TableSource.store src).
Proof.
  intros Hn Hl Hs Hnd Hin Hname. unfold Registry.retainGeneration. rewrite decide_False by (rewrite Hn; by intros []).
  destruct (Z.leb_spec (Registry.retention_limit (Registry.sweepReleasedGenerations r))
    (Z.of_nat (length (Registry.retained (Registry.sweepReleasedGenerations r))))) as [Hle|_].
  { rewrite sweep_filter in Hle. simpl in Hle.
    pose proof (length_filter (λ c, Registry.activeRefCount r (RetainedGeneration.generation c) ≠ 0)
      (Registry.retained r)). lia. }
  rewrite capture_ok by done. eexists. split; [done|]. rewrite retainedStore_find.
  cbn [Registry.retained]. rewrite sweep_filter. unfold find_gen. rewrite find_index_app.
  rewrite (proj2 (find_gen_None RetainedGeneration.generation _ g)).
  2: { intros (c & -> & [_ Hc]%list_elem_of_filter)%list_elem_of_fmap. apply find_gen_None in Hn.
       apply Hn. by apply list_elem_of_fmap_2. }
  simpl. rewrite Z.eqb_refl. simpl. rewrite Nat.add_0_r, list_lookup_middle by done. simpl.
  unfold RetainedGeneration.storeForTable. simpl. rewrite find_index_fmap.
  apply list_elem_of_lookup in Hin as [i Hi].
  assert (find_index (λ s, eqlIgnoreCase (TableDef.name (TableSource.table s)) name) sources = Some i) as Hf.
  { apply find_index_Some. split; [by exists src|]. intros j s' Hj Hs'. apply eqlIgnoreCase_false.
    intros E. apply eqlIgnoreCase_spec in Hname. rewrite <-Hname in E. assert (j = i); [|lia].
    eapply (NoDup_lookup _ _ _ (lower (TableDef.name (TableSource.table src))) Hnd); rewrite list_lookup_fmap.
    - rewrite Hs'. simpl. by rewrite E.
    - by rewrite Hi. }
  match goal with |- context [find_index ?p sources] => assert (find_index p sources = Some i) as -> by exact Hf end.
  simpl. by rewrite list_lookup_fmap, Hi.
Qed.

Definition sample_source : TableSource.t :=
  TableSource.mk sample_table (RowStore.mk sample_table [] 5).

Lemma retain_captures_sources_witness :
  ∃ r', Registry.retainGeneration (Registry.init tiny_config) 3 [sample_source] = (r', Ok ()) ∧
        Registry.retainedStoreForTable r' 3 (lower (TableDef.name sample_table)) = Some (RowStore.mk sample_table [] 5).
Proof.
  apply (retain_captures_sources (Registry.init tiny_config) 3 [sample_source] sample_source).
  - reflexivity.
  - simpl. lia.
  - constructor; [|constructor]. split; [|split; [|reflexivity]].
    + apply table_wf_b_spec. vm_compute. reflexivity.
    + apply (bool_decide_eq_true_1 _). vm_compute. reflexivity.
  - constructor; [apply not_elem_of_nil|constructor].
  - apply list_elem_of_here.
  - vm_compute. reflexivity.
Defined.

Lemma retained_snapshot_stable_witness :
  ∃ s s', registry_step s s' ∧ s ≠ s' ∧
    Registry.retainedStoreForTable (registry s') 0 (TableDef.name sample_table) = Some (RowStore.mk sample_table [] 5).
Proof.
  pose (r1 := Registry.mk 1 [ActiveGeneration.mk 0 1] []).
  pose (s1 := RegistryRun r1 [SnapshotHandle.mk 0 false]).
  pose (s2 := RegistryRun (Registry.mk 1 [ActiveGeneration.mk 0 1]
     [RetainedGeneration.mk 0 [RetainedTable.mk sample_table (RowStore.mk sample_table [] 5)]]) [SnapshotHandle.mk 0 false]).
  pose (s3 := RegistryRun (Registry.mk 1 [ActiveGeneration.mk 0 2]
     [RetainedGeneration.mk 0 [RetainedTable.mk sample_table (RowStore.mk sample_table [] 5)]])
     [SnapshotHandle.mk 0 false; SnapshotHandle.mk 0 false]).
  assert (H1 : registry_reachable tiny_config s1).
  { eapply registry_next; [apply registry_start|]. apply (step_acquire (RegistryRun _ []) 0). reflexivity. }
  assert (H2 : registry_reachable tiny_config s2).
  { eapply registry_next; [exact H1|]. apply (step_retain s1 0 [sample_source] _ (Ok ())). vm_compute. reflexivity. }
  assert (H3 : registry_step s2 s3) by (apply (step_acquire s2 0); reflexivity).
  exists s2, s3. split; [exact H3|]. split; [discriminate|].
  apply (retained_snapshot_stable tiny_config s2 s3 0 _ _ H2 H3).
  - reflexivity.
  - vm_compute. reflexivity.
Defined.
