(* ===== verification/Crc32.v ===== *)
(** * CRC-32

    [std.hash.Crc32] (CRC-32/ISO-HDLC: reflected, initial value and final xor all ones) as the
    snapshot codec uses it: the table-driven byte loop, its equivalence with the bit-serial
    definition, and the injectivity facts behind error detection. *)

From S2P Require Import Prelude.

Definition crc_polynomial : Z := 0xedb88320.

(** One step of the bit-serial register. *)
Definition crc_bit (c : Z) : Z :=
  if Z.odd c then Z.lxor (Z.shiftr c 1) crc_polynomial else Z.shiftr c 1.

Definition crc_bits (n : nat) (c : Z) : Z := Nat.iter n crc_bit c.

(** The 256-entry table the library computes at compile time. *)
Definition crc_table : list Z := crc_bits 8 ∘ Z.of_nat <$> seq 0 256.

Definition crc_update (c : Z) (b : byte) : Z :=
  Z.lxor (nth (Z.to_nat (Z.land (Z.lxor c (byte_val b)) 255)) crc_table 0) (Z.shiftr c 8).

Definition crc_run (c : Z) (data : bytes) : Z := fold_left crc_update data c.

Definition crc32 (data : bytes) : Z := Z.lxor (crc_run 0xffffffff data) 0xffffffff.

Example crc32_check_value : crc32 (B "123456789") = 0xcbf43926.
Proof. vm_compute. reflexivity. Qed.

(** ** The table step is eight bit steps *)
Lemma odd_lxor a b : Z.odd (Z.lxor a b) = xorb (Z.odd a) (Z.odd b).
Proof. by rewrite <-!Z.bit0_odd, Z.lxor_spec. Qed.

Lemma crc_bit_lxor a b : crc_bit (Z.lxor a b) = Z.lxor (crc_bit a) (crc_bit b).
Proof.
  unfold crc_bit. rewrite odd_lxor, Z.shiftr_lxor. generalize crc_polynomial. intros p.
  destruct (Z.odd a), (Z.odd b); simpl; apply Z.bits_inj'; intros n _; rewrite !Z.lxor_spec;
    destruct (Z.testbit (Z.shiftr a 1) n), (Z.testbit (Z.shiftr b 1) n), (Z.testbit p n); done.
Qed.

Lemma crc_bits_lxor n a b : crc_bits n (Z.lxor a b) = Z.lxor (crc_bits n a) (crc_bits n b).
Proof.
  revert a b. unfold crc_bits. induction n as [|n IH]; intros a b; [done|].
  rewrite !Nat.iter_succ. by rewrite IH, crc_bit_lxor.
Qed.

Lemma crc_bit_double c : crc_bit (Z.shiftl c 1) = c.
Proof.
  unfold crc_bit. rewrite <-Z.bit0_odd, Z.shiftl_spec_low by lia.
  by rewrite Z.shiftr_shiftl_l, Z.shiftl_0_r by lia.
Qed.

Lemma crc_bits_shift n c : crc_bits n (Z.shiftl c (Z.of_nat n)) = c.
Proof.
  unfold crc_bits. induction n as [|n IH]; [apply Z.shiftl_0_r|].
  rewrite Nat.iter_succ_r, Nat2Z.inj_succ, <-Z.add_1_r, <-Z.shiftl_shiftl by lia.
  by rewrite crc_bit_double.
Qed.

Lemma split_low_byte c : Z.lxor (Z.land c 255) (Z.shiftl (Z.shiftr c 8) 8) = c.
Proof.
  apply Z.bits_inj'. intros n Hn. rewrite Z.lxor_spec, Z.land_spec.
  change 255 with (Z.ones 8). destruct (Z.lt_ge_cases n 8).
  - rewrite Z.ones_spec_low, Z.shiftl_spec_low by lia. by rewrite andb_true_r, xorb_false_r.
  - rewrite Z.ones_spec_high, Z.shiftl_spec_high, Z.shiftr_spec by lia.
    rewrite andb_false_r. simpl. f_equal. lia.
Qed.

Lemma crc_table_lookup i : 0 ≤ i < 256 → nth (Z.to_nat i) crc_table 0 = crc_bits 8 i.
Proof.
  intros Hi. apply nth_lookup_Some. unfold crc_table. rewrite list_lookup_fmap, lookup_seq_lt by lia.
  simpl. by rewrite Z2Nat.id by lia.
Qed.

Lemma land_255_range c : 0 ≤ Z.land c 255 < 256.
Proof. change 255 with (Z.ones 8). rewrite Z.land_ones by lia. apply Z.mod_pos_bound. lia. Qed.

Lemma shiftr_byte b : Z.shiftr (byte_val b) 8 = 0.
Proof. rewrite Z.shiftr_div_pow2 by lia. apply Z.div_small, byte_val_range. Qed.

Lemma crc_update_bits c b : crc_update c b = crc_bits 8 (Z.lxor c (byte_val b)).
Proof.
  unfold crc_update. rewrite crc_table_lookup by apply land_255_range.
  rewrite <-(split_low_byte (Z.lxor c (byte_val b))) at 2. rewrite crc_bits_lxor.
  rewrite (crc_bits_shift 8). by rewrite Z.shiftr_lxor, shiftr_byte, Z.lxor_0_r.
Qed.

(** ** Injectivity on 32-bit registers *)
Lemma is_u32_bits c : is_u32 c ↔ 0 ≤ c ∧ ∀ n, 32 ≤ n → Z.testbit c n = false.
Proof.
  unfold is_u32, u32_max. split.
  - intros [Hc Hm]. split; [done|]. intros n Hn. destruct (Z.eq_dec c 0) as [->|]; [apply Z.bits_0|].
    apply Z.bits_above_log2; [lia|]. apply Z.log2_lt_pow2; [lia|].
    apply Z.lt_le_trans with (2 ^ 32); [lia|]. apply Z.pow_le_mono_r; lia.
  - intros [Hc Hb]. split; [done|]. assert (c = c mod 2 ^ 32) as ->.
    + apply Z.bits_inj'. intros n Hn. destruct (Z.lt_ge_cases n 32).
      * by rewrite Z.mod_pow2_bits_low by lia.
      * rewrite Z.mod_pow2_bits_high by lia. auto.
    + pose proof (Z.mod_pos_bound c (2 ^ 32)). lia.
Qed.

Lemma crc_bit_u32 c : is_u32 c → is_u32 (crc_bit c).
Proof.
  intros Hc. assert (Hs : is_u32 (Z.shiftr c 1)).
  { unfold is_u32 in *. rewrite Z.shiftr_div_pow2 by lia. change (2 ^ 1) with 2.
    split; [apply Z.div_pos; lia|]. apply Z.div_le_upper_bound; lia. }
  unfold crc_bit. destruct (Z.odd c); [|done]. apply is_u32_bits. apply is_u32_bits in Hs as [H0 Hs].
  split; [by apply Z.lxor_nonneg|]. intros n Hn. rewrite Z.lxor_spec, Hs by done.
  apply (proj1 (is_u32_bits crc_polynomial)); [|done]. unfold is_u32, u32_max, crc_polynomial. lia.
Qed.

Lemma shiftr_1_bit31 c : is_u32 c → Z.testbit (Z.shiftr c 1) 31 = false.
Proof. intros Hc. rewrite Z.shiftr_spec by lia. apply is_u32_bits in Hc as [_ Hc]. by apply Hc. Qed.

Lemma crc_bit_bit31 c : is_u32 c → Z.testbit (crc_bit c) 31 = Z.odd c.
Proof.
  intros Hc. unfold crc_bit. destruct (Z.odd c); rewrite ?Z.lxor_spec, shiftr_1_bit31 by done; done.
Qed.

Lemma crc_bit_inj c d : is_u32 c → is_u32 d → crc_bit c = crc_bit d → c = d.
Proof.
  intros Hc Hd H. assert (Ho : Z.odd c = Z.odd d) by by rewrite <-!crc_bit_bit31, H.
  assert (Hs : Z.shiftr c 1 = Z.shiftr d 1).
  { unfold crc_bit in H. rewrite Ho in H. destruct (Z.odd d); [|done].
    apply (f_equal (λ x, Z.lxor x crc_polynomial)) in H.
    by rewrite !Z.lxor_assoc, !Z.lxor_nilpotent, !Z.lxor_0_r in H. }
  rewrite <-!Z.div2_spec in Hs. by rewrite (Z.div2_odd c), (Z.div2_odd d), Hs, Ho.
Qed.

Lemma crc_bits_u32 n c : is_u32 c → is_u32 (crc_bits n c).
Proof. intros Hc. unfold crc_bits. induction n; [done|]. rewrite Nat.iter_succ. by apply crc_bit_u32. Qed.

Lemma crc_bits_inj n c d : is_u32 c → is_u32 d → crc_bits n c = crc_bits n d → c = d.
Proof.
  revert c d. unfold crc_bits. induction n as [|n IH]; intros c d Hc Hd; [done|]. rewrite !Nat.iter_succ.
  intros H. apply crc_bit_inj in H; [by apply IH|..]; by apply crc_bits_u32.
Qed.

Lemma lxor_byte_u32 c b : is_u32 c → is_u32 (Z.lxor c (byte_val b)).
Proof.
  intros Hc. assert (Hb : is_u32 (byte_val b)).
  { pose proof (byte_val_range b). unfold is_u32, u32_max. lia. }
  apply is_u32_bits in Hc as [H0 Hc], Hb as [H1 Hb]. apply is_u32_bits.
  split; [by apply Z.lxor_nonneg|]. intros n Hn. by rewrite Z.lxor_spec, Hc, Hb.
Qed.

Lemma crc_update_u32 c b : is_u32 c → is_u32 (crc_update c b).
Proof. intros Hc. rewrite crc_update_bits. by apply crc_bits_u32, lxor_byte_u32. Qed.

Lemma lxor_inj_r a b c : Z.lxor a c = Z.lxor b c → a = b.
Proof.
  intros H. apply (f_equal (λ x, Z.lxor x c)) in H.
  by rewrite !Z.lxor_assoc, !Z.lxor_nilpotent, !Z.lxor_0_r in H.
Qed.

Lemma crc_update_inj_state c d b : is_u32 c → is_u32 d → crc_update c b = crc_update d b → c = d.
Proof.
  rewrite !crc_update_bits. intros Hc Hd H.
  apply crc_bits_inj in H; [by apply lxor_inj_r in H|..]; by apply lxor_byte_u32.
Qed.

Lemma crc_update_inj_byte c a b : is_u32 c → crc_update c a = crc_update c b → a = b.
Proof.
  rewrite !crc_update_bits. intros Hc H. apply crc_bits_inj in H; [|by apply lxor_byte_u32..].
  rewrite !(Z.lxor_comm c) in H. by apply lxor_inj_r, byte_val_inj in H.
Qed.

Lemma crc_run_u32 data c : is_u32 c → is_u32 (crc_run c data).
Proof. revert c. induction data as [|b data IH]; intros c Hc; [done|]. by apply IH, crc_update_u32. Qed.

Lemma crc_run_inj data c d : is_u32 c → is_u32 d → crc_run c data = crc_run d data → c = d.
Proof.
  revert c d. induction data as [|b data IH]; intros c d Hc Hd; [done|]. cbn. intros H.
  apply IH in H; [by apply crc_update_inj_state in H|..]; by apply crc_update_u32.
Qed.

Lemma crc32_u32 data : is_u32 (crc32 data).
Proof.
  assert (Hi : is_u32 0xffffffff) by (unfold is_u32, u32_max; lia).
  pose proof (crc_run_u32 data _ Hi) as Hr. apply is_u32_bits in Hr as [H0 Hr], Hi as [_ Hi].
  unfold crc32. apply is_u32_bits. split; [by apply Z.lxor_nonneg|].
  intros n Hn. by rewrite Z.lxor_spec, Hr, Hi.
Qed.

(** Replacing one byte always changes the checksum. *)
Lemma crc32_single_byte pre post a b : a ≠ b → crc32 (pre ++ a :: post) ≠ crc32 (pre ++ b :: post).
Proof.
  intros Hab H%lxor_inj_r. unfold crc_run in H. rewrite !fold_left_app in H. cbn in H.
  assert (Hp : is_u32 (fold_left crc_update pre 0xffffffff)).
  { apply crc_run_u32. unfold is_u32, u32_max. lia. }
  apply crc_run_inj in H; [|by apply crc_update_u32..]. by apply crc_update_inj_byte in H.
Qed.
