(* ===== verification/Persistence.v ===== *)
(** * The snapshot file format

    Models [src/src/db/persistence.zig]: the little-endian append functions, the bounds-checked
    [Cursor], the payload encoder and decoder, and the checksummed envelope.  Buffers are byte
    lists; a cursor is the slice it reads and an index. *)

From S2P Require Import Prelude Value Catalog CatalogFacts TableFacts RowStore Crc32.

Definition current_version : Z := 2.
Definition max_snapshot_bytes : Z := 128 * 1024 * 1024.
Definition magic : bytes := B "SHOVELERDB".
Definition header_size : nat := length magic + 4 + 8 + 4.

Inductive PersistenceDiagnosticKind :=
  | invalid_header | unsupported_version | truncated_payload | payload_length_mismatch
  | payload_checksum_mismatch | invalid_column_type | invalid_value_tag
  | invalid_boolean_encoding | invalid_vector_element_type | row_store_mismatch | value_too_large.

Definition persistence_diagnosticFromError (err : Error) : option PersistenceDiagnosticKind :=
  match err with
  | InvalidHeader => Some invalid_header
  | UnsupportedVersion => Some unsupported_version
  | TruncatedPayload => Some truncated_payload
  | PayloadLengthMismatch => Some payload_length_mismatch
  | PayloadChecksumMismatch => Some payload_checksum_mismatch
  | InvalidColumnType => Some invalid_column_type
  | InvalidValueTag => Some invalid_value_tag
  | InvalidBooleanEncoding => Some invalid_boolean_encoding
  | InvalidVectorElementType => Some invalid_vector_element_type
  | RowStoreMismatch => Some row_store_mismatch
  | ValueTooLarge => Some value_too_large
  | _ => None
  end.

(** ** [DatabaseSnapshot] *)
Module DatabaseSnapshot.
Record t := mk { catalog : DatabaseCatalog.t; stores : list RowStore.t }.

Definition init : t := mk DatabaseCatalog.init [].

Definition refreshStoreTablePointers (self : t) : t :=
  mk (catalog self)
    (imap (λ index store,
       match DatabaseCatalog.tables (catalog self) !! index with
       | Some table => RowStore.set_table store table
       | None => store
       end) (stores self)).

Definition tableIndex (self : t) (name : bytes) : option nat :=
  find_index (λ table, eqlIgnoreCase (TableDef.name table) name) (DatabaseCatalog.tables (catalog self)).

Definition storeForTable (self : t) (name : bytes) : option RowStore.t :=
  index ← tableIndex self name; stores self !! index.
End DatabaseSnapshot.

(** ** Appending *)
Definition appendU8 (buf : bytes) (v : Z) : bytes := buf ++ [byte_of v].

Definition appendU32 (buf : bytes) (v : Z) : bytes :=
  buf ++ [byte_of (Z.land v 0xff)] ++ [byte_of (Z.land (Z.shiftr v 8) 0xff)]
      ++ [byte_of (Z.land (Z.shiftr v 16) 0xff)] ++ [byte_of (Z.land (Z.shiftr v 24) 0xff)].

Definition appendU64 (buf : bytes) (v : Z) : bytes :=
  buf ++ [byte_of (Z.land v 0xff)] ++ [byte_of (Z.land (Z.shiftr v 8) 0xff)]
      ++ [byte_of (Z.land (Z.shiftr v 16) 0xff)] ++ [byte_of (Z.land (Z.shiftr v 24) 0xff)]
      ++ [byte_of (Z.land (Z.shiftr v 32) 0xff)] ++ [byte_of (Z.land (Z.shiftr v 40) 0xff)]
      ++ [byte_of (Z.land (Z.shiftr v 48) 0xff)] ++ [byte_of (Z.land (Z.shiftr v 56) 0xff)].

Definition appendCount (buf : bytes) (count : Z) : Result bytes :=
  if u32_max <? count then Err ValueTooLarge else Ok (appendU32 buf count).

Definition appendBool (buf : bytes) (b : bool) : bytes := appendU8 buf (if b then 1 else 0).

Definition appendBytes (buf : bytes) (data : bytes) : Result bytes :=
  buf ← appendCount buf (Z.of_nat (length data)); Ok (buf ++ data).

Definition appendVectorElementType (buf : bytes) (et : VectorElementType) : bytes :=
  match et with float32 => appendU8 buf 1 end.

Definition appendColumnType (buf : bytes) (column_type : ColumnType.t) : Result bytes :=
  match column_type with
  | ColumnType.integer => Ok (appendU8 buf 1)
  | ColumnType.float => Ok (appendU8 buf 2)
  | ColumnType.boolean => Ok (appendU8 buf 3)
  | ColumnType.text => Ok (appendU8 buf 4)
  | ColumnType.blob => Ok (appendU8 buf 5)
  | ColumnType.vector vt =>
      appendCount (appendVectorElementType (appendU8 buf 6) (VectorType.element_type vt))
        (VectorType.dimension vt)
  end.

(** [@as(u64, @bitCast(integer))] and back. *)
Definition u64_of_i64 (z : Z) : Z := z mod 2 ^ 64.
Definition i64_of_u64 (z : Z) : Z := if z <? 2 ^ 63 then z else z - 2 ^ 64.

Definition appendValue (buf : bytes) (v : Value.t) : Result bytes :=
  match v with
  | Value.null => Ok (appendU8 buf 0)
  | Value.integer i => Ok (appendU64 (appendU8 buf 1) (u64_of_i64 i))
  | Value.float f => Ok (appendU64 (appendU8 buf 2) f)
  | Value.boolean b => Ok (appendBool (appendU8 buf 3) b)
  | Value.text s => appendBytes (appendU8 buf 4) s
  | Value.blob s => appendBytes (appendU8 buf 5) s
  | Value.vector v =>
      buf ← appendCount (appendVectorElementType (appendU8 buf 6) (Vector.element_type v)) (Vector.dimension v);
      Ok (fold_left appendU32 (Vector.values v) buf)
  end.

(** ** The payload encoder *)
Definition appendColumn (buf : bytes) (column : ColumnDef.t) : Result bytes :=
  buf ← appendBytes buf (ColumnDef.name column);
  buf ← appendColumnType buf (ColumnDef.column_type column);
  let buf := appendBool buf (ColumnDef.nullable column) in
  buf ← match ColumnDef.default_value column with
        | Some default_value => appendValue (appendBool buf true) default_value
        | None => Ok (appendBool buf false)
        end;
  Ok (appendBool (appendBool buf (ColumnDef.primary_key column)) (ColumnDef.auto_increment column)).

Definition appendIndex (buf : bytes) (index : IndexDef.t) : Result bytes :=
  let buf := appendBool buf (bool_decide (IndexDef.kind index = primary)) in
  buf ← appendBytes buf (IndexDef.name index);
  buf ← appendCount buf (Z.of_nat (length (IndexDef.columns index)));
  foldM appendBytes buf (IndexDef.columns index).

Definition appendRow (buf : bytes) (row : Row.t) : Result bytes :=
  buf ← appendCount (appendU64 buf (Row.id row)) (Z.of_nat (length (Row.values row)));
  foldM appendValue buf (Row.values row).

Definition appendTable (buf : bytes) (entry : TableDef.t * RowStore.t) : Result bytes :=
  let '(table, store) := entry in
  buf ← appendBytes buf (TableDef.name table);
  buf ← appendCount buf (Z.of_nat (length (TableDef.columns table)));
  buf ← foldM appendColumn buf (TableDef.columns table);
  buf ← appendCount buf (Z.of_nat (length (TableDef.indexes table)));
  buf ← foldM appendIndex buf (TableDef.indexes table);
  buf ← appendCount (appendU64 buf (RowStore.nextRowId store)) (Z.of_nat (length (RowStore.rows store)));
  foldM appendRow buf (RowStore.rows store).

(** Views and procedures: a name and a body. *)
Definition appendObject (buf : bytes) (object : bytes * bytes) : Result bytes :=
  buf ← appendBytes buf object.1; appendBytes buf object.2.

Definition encodePayload (snapshot : DatabaseSnapshot.t) : Result bytes :=
  let catalog := DatabaseSnapshot.catalog snapshot in
  let tables := DatabaseCatalog.tables catalog in
  let stores := DatabaseSnapshot.stores snapshot in
  let views := (λ v, (ViewDef.name v, ViewDef.body v)) <$> DatabaseCatalog.views catalog in
  let procedures := (λ p, (ProcedureDef.name p, ProcedureDef.body p)) <$> DatabaseCatalog.procedures catalog in
  _ ← fail_if (negb (length tables =? length stores)%nat) RowStoreMismatch;
  buf ← appendCount [] (Z.of_nat (length tables));
  buf ← foldM appendTable buf (zip tables stores);
  buf ← appendCount buf (Z.of_nat (length views));
  buf ← foldM appendObject buf views;
  buf ← appendCount buf (Z.of_nat (length procedures));
  foldM appendObject buf procedures.

Definition encodeSnapshot (snapshot : DatabaseSnapshot.t) : Result bytes :=
  payload ← encodePayload snapshot;
  len ← checked_u64 (Z.of_nat (length payload));
  Ok (appendU32 (appendU64 (appendU32 magic current_version) len) (crc32 payload) ++ payload).

(** ** [Cursor] *)
Module Cursor.
Record t := mk { data : bytes; index : nat }.

Definition init (data : bytes) : t := mk data 0.

Definition finished (self : t) : bool := (index self =? length (data self))%nat.

Definition readBytes (self : t) (len : Z) : Result (bytes * t) :=
  if (length (data self) <? index self)%nat then Panic
  else if Z.of_nat (length (data self) - index self) <? len then Err TruncatedPayload
  else Ok (take (Z.to_nat len) (drop (index self) (data self)),
           mk (data self) (index self + Z.to_nat len)).

Definition readU8 (self : t) : Result (Z * t) :=
  '(bs, self) ← readBytes self 1;
  b0 ← item_at bs 0;
  Ok (byte_val b0, self).

Definition readU32 (self : t) : Result (Z * t) :=
  '(bs, self) ← readBytes self 4;
  b0 ← item_at bs 0; b1 ← item_at bs 1; b2 ← item_at bs 2; b3 ← item_at bs 3;
  Ok (Z.lor (Z.lor (Z.lor (byte_val b0) (Z.shiftl (byte_val b1) 8))
        (Z.shiftl (byte_val b2) 16)) (Z.shiftl (byte_val b3) 24), self).

Definition readU64 (self : t) : Result (Z * t) :=
  '(bs, self) ← readBytes self 8;
  b0 ← item_at bs 0; b1 ← item_at bs 1; b2 ← item_at bs 2; b3 ← item_at bs 3;
  b4 ← item_at bs 4; b5 ← item_at bs 5; b6 ← item_at bs 6; b7 ← item_at bs 7;
  Ok (Z.lor (Z.lor (Z.lor (Z.lor (Z.lor (Z.lor (Z.lor (byte_val b0) (Z.shiftl (byte_val b1) 8))
        (Z.shiftl (byte_val b2) 16)) (Z.shiftl (byte_val b3) 24)) (Z.shiftl (byte_val b4) 32))
        (Z.shiftl (byte_val b5) 40)) (Z.shiftl (byte_val b6) 48)) (Z.shiftl (byte_val b7) 56), self).

Definition readBool (self : t) : Result (bool * t) :=
  '(v, self) ← readU8 self;
  if v =? 0 then Ok (false, self) else if v =? 1 then Ok (true, self) else Err InvalidBooleanEncoding.

Definition readLengthPrefixedBytes (self : t) : Result (bytes * t) :=
  '(len, self) ← readU32 self; readBytes self len.
End Cursor.

(** [for (0..n)] and [for (slice) |*item|] loops over a cursor: [n] reads, collected. *)
Fixpoint read_many {A} (read : Cursor.t → Result (A * Cursor.t)) (n : nat) (c : Cursor.t)
    : Result (list A * Cursor.t) :=
  match n with
  | O => Ok ([], c)
  | S n' => '(a, c) ← read c; '(l, c) ← read_many read n' c; Ok (a :: l, c)
  end.

(** The same loop threading a state instead of filling a slice. *)
Fixpoint read_fold {S} (read : Cursor.t → S → Result (S * Cursor.t)) (n : nat) (c : Cursor.t) (s : S)
    : Result (S * Cursor.t) :=
  match n with
  | O => Ok (s, c)
  | S n' => '(s, c) ← read c s; read_fold read n' c s
  end.

(** ** Decoders *)
Definition decodeVectorElementType (c : Cursor.t) : Result (VectorElementType * Cursor.t) :=
  '(tag, c) ← Cursor.readU8 c;
  if tag =? 1 then Ok (float32, c) else Err InvalidVectorElementType.

Definition decodeColumnType (c : Cursor.t) : Result (ColumnType.t * Cursor.t) :=
  '(tag, c) ← Cursor.readU8 c;
  if tag =? 1 then Ok (ColumnType.integer, c)
  else if tag =? 2 then Ok (ColumnType.float, c)
  else if tag =? 3 then Ok (ColumnType.boolean, c)
  else if tag =? 4 then Ok (ColumnType.text, c)
  else if tag =? 5 then Ok (ColumnType.blob, c)
  else if tag =? 6 then
    '(et, c) ← decodeVectorElementType c;
    '(dimension, c) ← Cursor.readU32 c;
    Ok (ColumnType.vector (VectorType.mk et dimension), c)
  else Err InvalidColumnType.

Definition decodeValue (c : Cursor.t) : Result (Value.t * Cursor.t) :=
  '(tag, c) ← Cursor.readU8 c;
  if tag =? 0 then Ok (Value.null, c)
  else if tag =? 1 then '(v, c) ← Cursor.readU64 c; Ok (Value.integer (i64_of_u64 v), c)
  else if tag =? 2 then '(v, c) ← Cursor.readU64 c; Ok (Value.float v, c)
  else if tag =? 3 then '(v, c) ← Cursor.readBool c; Ok (Value.boolean v, c)
  else if tag =? 4 then '(v, c) ← Cursor.readLengthPrefixedBytes c; Ok (Value.initText v, c)
  else if tag =? 5 then '(v, c) ← Cursor.readLengthPrefixedBytes c; Ok (Value.initBlob v, c)
  else if tag =? 6 then
    '(et, c) ← decodeVectorElementType c;
    '(dimension, c) ← Cursor.readU32 c;
    '(vals, c) ← read_many Cursor.readU32 (Z.to_nat dimension) c;
    v ← Value.initVector et dimension vals;
    Ok (v, c)
  else Err InvalidValueTag.

Definition decodeColumnSpec (c : Cursor.t) : Result (ColumnSpec.t * Cursor.t) :=
  '(column_name, c) ← Cursor.readLengthPrefixedBytes c;
  '(column_type, c) ← decodeColumnType c;
  '(nullable, c) ← Cursor.readBool c;
  '(has_default, c) ← Cursor.readBool c;
  '(default_value, c) ← (if has_default : bool
     then '(v, c) ← decodeValue c; Ok (Some v, c) else Ok (None, c));
  '(primary_key, c) ← Cursor.readBool c;
  '(auto_increment, c) ← Cursor.readBool c;
  Ok (ColumnSpec.mk column_name column_type nullable default_value primary_key auto_increment, c).

Definition decodeIndexSpec (c : Cursor.t) : Result (IndexSpec.t * Cursor.t) :=
  '(is_primary, c) ← Cursor.readBool c;
  '(name, c) ← Cursor.readLengthPrefixedBytes c;
  '(column_count, c) ← Cursor.readU32 c;
  '(columns, c) ← read_many Cursor.readLengthPrefixedBytes (Z.to_nat column_count) c;
  Ok (IndexSpec.mk (Some name) columns (if is_primary : bool then primary else secondary), c).

Definition decodeRow (c : Cursor.t) (store : RowStore.t) : Result (RowStore.t * Cursor.t) :=
  '(id, c) ← Cursor.readU64 c;
  '(value_count, c) ← Cursor.readU32 c;
  '(values, c) ← read_many decodeValue (Z.to_nat value_count) c;
  store ← RowStore.insertWithId store id values;
  Ok (store, c).

Definition decodeTable (c : Cursor.t) (snapshot : DatabaseSnapshot.t) : Result (DatabaseSnapshot.t * Cursor.t) :=
  '(table_name, c) ← Cursor.readLengthPrefixedBytes c;
  '(column_count, c) ← Cursor.readU32 c;
  '(specs, c) ← read_many decodeColumnSpec (Z.to_nat column_count) c;
  '(index_count, c) ← Cursor.readU32 c;
  '(indexes, c) ← read_many decodeIndexSpec (Z.to_nat index_count) c;
  catalog ← DatabaseCatalog.createTable (DatabaseSnapshot.catalog snapshot)
              (TableSpec.mk table_name specs indexes);
  let snapshot := DatabaseSnapshot.refreshStoreTablePointers
                    (DatabaseSnapshot.mk catalog (DatabaseSnapshot.stores snapshot)) in
  table ← orelse (DatabaseCatalog.getTable catalog table_name) RowStoreMismatch;
  let store := RowStore.init table in
  '(next_id, c) ← Cursor.readU64 c;
  let store := RowStore.mk (RowStore.table store) (RowStore.rows_list store) next_id in
  '(row_count, c) ← Cursor.readU32 c;
  '(store, c) ← read_fold decodeRow (Z.to_nat row_count) c store;
  Ok (DatabaseSnapshot.mk (DatabaseSnapshot.catalog snapshot) (DatabaseSnapshot.stores snapshot ++ [store]), c).

Definition decodeView (c : Cursor.t) (snapshot : DatabaseSnapshot.t) : Result (DatabaseSnapshot.t * Cursor.t) :=
  '(name, c) ← Cursor.readLengthPrefixedBytes c;
  '(body, c) ← Cursor.readLengthPrefixedBytes c;
  catalog ← DatabaseCatalog.registerView (DatabaseSnapshot.catalog snapshot) name body;
  Ok (DatabaseSnapshot.mk catalog (DatabaseSnapshot.stores snapshot), c).

Definition decodeProcedure (c : Cursor.t) (snapshot : DatabaseSnapshot.t) : Result (DatabaseSnapshot.t * Cursor.t) :=
  '(name, c) ← Cursor.readLengthPrefixedBytes c;
  '(body, c) ← Cursor.readLengthPrefixedBytes c;
  catalog ← DatabaseCatalog.registerProcedure (DatabaseSnapshot.catalog snapshot) name body;
  Ok (DatabaseSnapshot.mk catalog (DatabaseSnapshot.stores snapshot), c).

Definition decodePayload (c : Cursor.t) : Result (DatabaseSnapshot.t * Cursor.t) :=
  '(table_count, c) ← Cursor.readU32 c;
  '(snapshot, c) ← read_fold decodeTable (Z.to_nat table_count) c DatabaseSnapshot.init;
  let snapshot := DatabaseSnapshot.refreshStoreTablePointers snapshot in
  '(view_count, c) ← Cursor.readU32 c;
  '(snapshot, c) ← read_fold decodeView (Z.to_nat view_count) c snapshot;
  '(procedure_count, c) ← Cursor.readU32 c;
  read_fold decodeProcedure (Z.to_nat procedure_count) c snapshot.

Definition decodeSnapshot (data : bytes) : Result DatabaseSnapshot.t :=
  _ ← fail_if (length data <? header_size)%nat InvalidHeader;
  let c := Cursor.init data in
  '(found_magic, c) ← Cursor.readBytes c (Z.of_nat (length magic));
  _ ← fail_if (negb (bool_decide (found_magic = magic))) InvalidHeader;
  '(version, c) ← Cursor.readU32 c;
  _ ← fail_if (negb (version =? current_version)) UnsupportedVersion;
  '(payload_len, c) ← Cursor.readU64 c;
  '(checksum, c) ← Cursor.readU32 c;
  _ ← fail_if (negb (payload_len =? Z.of_nat (length data - header_size))) PayloadLengthMismatch;
  let payload := drop header_size data in
  _ ← fail_if (negb (crc32 payload =? checksum)) PayloadChecksumMismatch;
  '(snapshot, c) ← decodePayload (Cursor.init payload);
  _ ← fail_if (negb (Cursor.finished c)) PayloadLengthMismatch;
  Ok snapshot.
