(* ===== verification/PersistenceFacts.v ===== *)
(** * Correctness of the snapshot file format

    The codec class: what an append function writes, the matching decoder reads back.  From it,
    the round trip of whole snapshots, detection of every single-byte corruption and of
    truncation.  The table definitions the format cannot bring back are in TableReload.v. *)

From S2P Require Import Prelude Value Catalog CatalogFacts TableFacts RowStore Crc32 Persistence.

(** ** Little-endian integers *)
Lemma lor_shiftl_add a b n : 0 ≤ n → 0 ≤ a < 2 ^ n → Z.lor a (Z.shiftl b n) = a + b * 2 ^ n.
Proof.
  intros Hn Ha. rewrite <-Z.shiftl_mul_pow2 by done. symmetry. apply Z.add_nocarry_lor.
  apply Z.bits_inj'. intros k Hk. rewrite Z.land_spec, Z.bits_0.
  destruct (Z.lt_ge_cases k n).
  - by rewrite Z.shiftl_spec_low, andb_false_r by lia.
  - destruct (Z.eq_dec a 0) as [->|]; [by rewrite Z.bits_0|].
    assert (2 ^ n ≤ 2 ^ k) by (apply Z.pow_le_mono_r; lia).
    rewrite (Z.bits_above_log2 a); [done|lia|]. apply Z.log2_lt_pow2; lia.
Qed.

Lemma byte_of_land v : byte_of (Z.land v 0xff) = byte_of v.
Proof.
  apply byte_val_inj. rewrite !byte_of_val. change 0xff with (Z.ones 8).
  rewrite Z.land_ones by lia. change (2 ^ 8) with 256. by rewrite Z.mod_mod by lia.
Qed.

Definition le32 (v : Z) : bytes :=
  [byte_of v; byte_of (Z.shiftr v 8); byte_of (Z.shiftr v 16); byte_of (Z.shiftr v 24)].
Definition le64 (v : Z) : bytes := le32 v ++ le32 (Z.shiftr v 32).

Lemma appendU32_le buf v : appendU32 buf v = buf ++ le32 v.
Proof. unfold appendU32. by rewrite !byte_of_land. Qed.

Lemma appendU64_le buf v : appendU64 buf v = buf ++ le64 v.
Proof. unfold appendU64, le64, le32. rewrite !byte_of_land, !Z.shiftr_shiftr by lia. done. Qed.

Definition sum32 (b0 b1 b2 b3 : Z) : Z := b0 + b1 * 2 ^ 8 + b2 * 2 ^ 16 + b3 * 2 ^ 24.

Lemma le32_sum v : is_u32 v →
  sum32 (byte_val (byte_of v)) (byte_val (byte_of (Z.shiftr v 8)))
    (byte_val (byte_of (Z.shiftr v 16))) (byte_val (byte_of (Z.shiftr v 24))) = v.
Proof.
  unfold is_u32, u32_max, sum32. intros Hv. rewrite !byte_of_val, !Z.shiftr_div_pow2 by lia.
  change (2 ^ 8) with 256. change (2 ^ 16) with 65536. change (2 ^ 24) with 16777216.
  Z.to_euclidean_division_equations. lia.
Qed.

Lemma lor32_sum b0 b1 b2 b3 :
  Z.lor (Z.lor (Z.lor (byte_val b0) (Z.shiftl (byte_val b1) 8)) (Z.shiftl (byte_val b2) 16))
    (Z.shiftl (byte_val b3) 24) = sum32 (byte_val b0) (byte_val b1) (byte_val b2) (byte_val b3).
Proof.
  pose proof (byte_val_range b0). pose proof (byte_val_range b1).
  pose proof (byte_val_range b2). pose proof (byte_val_range b3).
  unfold sum32. rewrite (lor_shiftl_add _ (byte_val b1) 8) by lia.
  rewrite (lor_shiftl_add _ (byte_val b2) 16) by lia. by rewrite (lor_shiftl_add _ (byte_val b3) 24) by lia.
Qed.

Lemma lor64_sum b0 b1 b2 b3 b4 b5 b6 b7 :
  Z.lor (Z.lor (Z.lor (Z.lor (Z.lor (Z.lor (Z.lor (byte_val b0) (Z.shiftl (byte_val b1) 8))
        (Z.shiftl (byte_val b2) 16)) (Z.shiftl (byte_val b3) 24)) (Z.shiftl (byte_val b4) 32))
        (Z.shiftl (byte_val b5) 40)) (Z.shiftl (byte_val b6) 48)) (Z.shiftl (byte_val b7) 56) =
  sum32 (byte_val b0) (byte_val b1) (byte_val b2) (byte_val b3) +
  sum32 (byte_val b4) (byte_val b5) (byte_val b6) (byte_val b7) * 2 ^ 32.
Proof.
  pose proof (byte_val_range b0). pose proof (byte_val_range b1). pose proof (byte_val_range b2).
  pose proof (byte_val_range b3). pose proof (byte_val_range b4). pose proof (byte_val_range b5).
  pose proof (byte_val_range b6). pose proof (byte_val_range b7).
  unfold sum32. rewrite (lor_shiftl_add _ (byte_val b1) 8), (lor_shiftl_add _ (byte_val b2) 16),
    (lor_shiftl_add _ (byte_val b3) 24), (lor_shiftl_add _ (byte_val b4) 32), (lor_shiftl_add _ (byte_val b5) 40),
    (lor_shiftl_add _ (byte_val b6) 48), (lor_shiftl_add _ (byte_val b7) 56); lia.
Qed.

(** ** Reading what was written

    [reads r e x]: wherever the bytes [e] stand in a slice, [r] at their start consumes exactly
    [e] and yields [x]. *)
Definition reads {A} (r : Cursor.t → Result (A * Cursor.t)) (e : bytes) (x : A) : Prop :=
  ∀ pre rest, r (Cursor.mk (pre ++ e ++ rest) (length pre)) =
              Ok (x, Cursor.mk (pre ++ e ++ rest) (length pre + length e)).

Lemma reads_ret {A} (x : A) : reads (λ c, Ok (x, c)) [] x.
Proof. intros pre rest. simpl. by rewrite Nat.add_0_r. Qed.

Lemma reads_bind {A B} (r : Cursor.t → Result (A * Cursor.t)) (k : A → Cursor.t → Result (B * Cursor.t)) e1 e2 x y :
  reads r e1 x → reads (k x) e2 y → reads (λ c, '(a, c') ← r c; k a c') (e1 ++ e2) y.
Proof.
  intros H1 H2 pre rest. rewrite <-app_assoc, (H1 pre (e2 ++ rest)). simpl.
  specialize (H2 (pre ++ e1) rest). rewrite <-!app_assoc, !length_app in H2.
  rewrite H2, length_app. by rewrite Nat.add_assoc.
Qed.

Lemma reads_map {A B} (r : Cursor.t → Result (A * Cursor.t)) (f : A → B) e x :
  reads r e x → reads (λ c, '(a, c') ← r c; Ok (f a, c')) e (f x).
Proof. intros H. rewrite <-(app_nil_r e). eapply reads_bind; [exact H|]. apply reads_ret. Qed.

Lemma reads_ext {A} (r r' : Cursor.t → Result (A * Cursor.t)) e x :
  (∀ c, r c = r' c) → reads r e x → reads r' e x.
Proof. intros He H pre rest. rewrite <-He. apply H. Qed.

Lemma reads_bytes e : reads (λ c, Cursor.readBytes c (Z.of_nat (length e))) e e.
Proof.
  intros pre rest. unfold Cursor.readBytes. simpl. rewrite !length_app.
  destruct (Nat.ltb_spec (length pre + (length e + length rest)) (length pre)); [lia|].
  destruct (Z.ltb_spec (Z.of_nat (length pre + (length e + length rest) - length pre)) (Z.of_nat (length e))); [lia|].
  rewrite Nat2Z.id, drop_app_length, take_app_length. done.
Qed.

Lemma reads_u8 v : 0 ≤ v < 256 → reads Cursor.readU8 [byte_of v] v.
Proof.
  intros Hv. unfold Cursor.readU8. rewrite <-(app_nil_r [byte_of v]).
  eapply reads_bind; [apply (reads_bytes [byte_of v])|].
  cbn [item_at lookup list_lookup mbind result_bind]. rewrite byte_of_val, Z.mod_small by lia. apply reads_ret.
Qed.

Lemma reads_u32 v : is_u32 v → reads Cursor.readU32 (le32 v) v.
Proof.
  intros Hv. unfold Cursor.readU32. rewrite <-(app_nil_r (le32 v)).
  eapply reads_bind; [apply (reads_bytes (le32 v))|].
  cbn [le32 item_at lookup list_lookup mbind result_bind]. rewrite lor32_sum, le32_sum by done. apply reads_ret.
Qed.

Lemma reads_u64 v : is_u64 v → reads Cursor.readU64 (le64 v) v.
Proof.
  intros Hv. unfold Cursor.readU64. rewrite <-(app_nil_r (le64 v)).
  eapply reads_bind; [apply (reads_bytes (le64 v))|].
  cbn [le64 le32 app item_at lookup list_lookup mbind result_bind]. rewrite lor64_sum.
  rewrite (le32_sum (Z.shiftr v 32)).
  2: { unfold is_u32, u32_max. unfold is_u64, u64_max in Hv. rewrite Z.shiftr_div_pow2 by lia.
       change (2 ^ 32) with 4294967296. Z.to_euclidean_division_equations. lia. }
  assert (sum32 (byte_val (byte_of v)) (byte_val (byte_of (Z.shiftr v 8)))
    (byte_val (byte_of (Z.shiftr v 16))) (byte_val (byte_of (Z.shiftr v 24))) + Z.shiftr v 32 * 2 ^ 32 = v) as ->;
    [|apply reads_ret].
  unfold sum32. rewrite !byte_of_val, !Z.shiftr_div_pow2 by lia. unfold is_u64, u64_max in Hv.
  change (2 ^ 8) with 256. change (2 ^ 16) with 65536. change (2 ^ 24) with 16777216.
  change (2 ^ 32) with 4294967296. Z.to_euclidean_division_equations. lia.
Qed.

(** ** The codec interface

    [append] writes values of type [A]; [decode] reads back their [image]. *)
Class Codec {A B : Type} (append : bytes → A → Result bytes) (decode : Cursor.t → Result (B * Cursor.t))
    (valid : A → Prop) (image : A → B) : Prop :=
  codec_law : ∀ buf x buf', valid x → append buf x = Ok buf' →
                ∃ e, buf' = buf ++ e ∧ reads decode e (image x).

(** Consumes the next field of the goal's reader with the fact [H] about it. *)
Ltac read_field H := eapply (reads_bind _ _ _ _ _ _ H); cbn beta iota.

Lemma appendCount_ok buf n buf' : appendCount buf n = Ok buf' → n ≤ u32_max ∧ buf' = buf ++ le32 n.
Proof. unfold appendCount. destruct (Z.ltb_spec u32_max n); [done|]. intros [= <-]. by rewrite appendU32_le. Qed.

Lemma appendCount_length {A} buf (l : list A) buf' :
  appendCount buf (Z.of_nat (length l)) = Ok buf' →
  buf' = buf ++ le32 (Z.of_nat (length l)) ∧
  reads Cursor.readU32 (le32 (Z.of_nat (length l))) (Z.of_nat (length l)).
Proof. intros [Hn ->]%appendCount_ok. split; [done|]. apply reads_u32. unfold is_u32. lia. Qed.

Lemma reads_bool b : reads Cursor.readBool [byte_of (if b : bool then 1 else 0)] b.
Proof.
  unfold Cursor.readBool. rewrite <-(app_nil_r [_]).
  read_field (reads_u8 (if b then 1 else 0) ltac:(destruct b; lia)). destruct b; apply reads_ret.
Qed.

#[export] Instance bytes_codec : Codec appendBytes Cursor.readLengthPrefixedBytes (λ _, True) id.
Proof.
  intros buf x buf' _ H. unfold appendBytes in H. inv_ok. apply appendCount_length in Ha as [-> Hr].
  eexists. rewrite <-app_assoc. split; [reflexivity|]. unfold Cursor.readLengthPrefixedBytes.
  read_field Hr. apply reads_bytes.
Qed.

Lemma bytes_reads buf x buf' :
  appendBytes buf x = Ok buf' → ∃ e, buf' = buf ++ e ∧ reads Cursor.readLengthPrefixedBytes e x.
Proof. apply (codec_law (Codec := bytes_codec) buf x buf' I). Qed.

Lemma codec_list {A B} (append : bytes → A → Result bytes) (decode : Cursor.t → Result (B * Cursor.t)) valid image
    `{!Codec append decode valid image} xs buf buf' :
  Forall valid xs → foldM append buf xs = Ok buf' →
  ∃ e, buf' = buf ++ e ∧ reads (read_many decode (length xs)) e (image <$> xs).
Proof.
  intros Hv. revert buf. induction Hv as [|x xs Hx _ IH]; intros buf H; cbn [foldM] in H; inv_ok.
  - exists []. rewrite app_nil_r. split; [done|]. apply reads_ret.
  - apply codec_law in Ha as (e1 & -> & H1); [|done]. apply IH in H as (e2 & -> & H2).
    exists (e1 ++ e2). rewrite app_assoc. split; [done|]. cbn [length read_many].
    read_field H1. rewrite <-(app_nil_r e2). read_field H2. apply reads_ret.
Qed.

Lemma reads_element_type : reads decodeVectorElementType [byte_of 1] float32.
Proof.
  unfold decodeVectorElementType. rewrite <-(app_nil_r [_]).
  read_field (reads_u8 1 ltac:(lia)). apply reads_ret.
Qed.

#[export] Instance column_type_codec :
  Codec appendColumnType decodeColumnType
    (λ ty, match ty with ColumnType.vector vt => 0 ≤ VectorType.dimension vt | _ => True end) id.
Proof.
  intros buf ty buf' Hv H. unfold decodeColumnType.
  destruct ty as [| | | | |[[] d]]; simpl in H; inv_ok;
    try (eexists; split; [reflexivity|]; rewrite <-(app_nil_r [_]);
         (read_field (reads_u8 1 ltac:(lia)) || read_field (reads_u8 2 ltac:(lia)) || read_field (reads_u8 3 ltac:(lia))
          || read_field (reads_u8 4 ltac:(lia)) || read_field (reads_u8 5 ltac:(lia))); apply reads_ret).
  apply appendCount_ok in H as [Hd ->]. simpl in Hv. unfold appendU8. rewrite <-!app_assoc. eexists. split; [reflexivity|].
  read_field (reads_u8 6 ltac:(lia)). read_field reads_element_type.
  apply (reads_map Cursor.readU32 (λ dimension, ColumnType.vector (VectorType.mk float32 dimension))).
  apply reads_u32. unfold is_u32. lia.
Qed.

Lemma i64_of_u64_of_i64 z : is_i64 z → i64_of_u64 (u64_of_i64 z) = z.
Proof.
  unfold is_i64, i64_min, i64_max, i64_of_u64, u64_of_i64. intros Hz.
  change (2 ^ 64) with 18446744073709551616. change (2 ^ 63) with 9223372036854775808.
  destruct (Z.ltb_spec (z mod 18446744073709551616) 9223372036854775808);
    Z.to_euclidean_division_equations; lia.
Qed.

Lemma u64_of_i64_range z : is_u64 (u64_of_i64 z).
Proof. unfold is_u64, u64_max, u64_of_i64. pose proof (Z.mod_pos_bound z (2 ^ 64)). lia. Qed.

Lemma fold_appendU32 vals buf :
  Forall (λ x, 0 ≤ x < 2 ^ 32) vals →
  ∃ e, fold_left appendU32 vals buf = buf ++ e ∧ reads (read_many Cursor.readU32 (length vals)) e vals.
Proof.
  intros Hv. revert buf. induction Hv as [|x vals Hx _ IH]; intros buf; simpl.
  - exists []. rewrite app_nil_r. split; [done|]. apply reads_ret.
  - destruct (IH (appendU32 buf x)) as (e & -> & He). rewrite appendU32_le, <-app_assoc.
    eexists. split; [reflexivity|]. read_field (reads_u32 x ltac:(unfold is_u32, u32_max; lia)).
    rewrite <-(app_nil_r e). read_field He. apply reads_ret.
Qed.

Lemma appendU8_buf buf v (rest : bytes) : appendU8 buf v ++ rest = buf ++ [byte_of v] ++ rest.
Proof. unfold appendU8. by rewrite <-app_assoc. Qed.

#[export] Instance value_codec : Codec appendValue decodeValue Value.wf id.
Proof.
  intros buf v buf' Hv H. unfold decodeValue. destruct v as [|z|x|b|s|s|v]; simpl in Hv, H; inv_ok.
  - eexists. split; [reflexivity|]. rewrite <-(app_nil_r [_]). read_field (reads_u8 0 ltac:(lia)). apply reads_ret.
  - rewrite appendU64_le, appendU8_buf. eexists. split; [reflexivity|]. read_field (reads_u8 1 ltac:(lia)).
    rewrite <-(i64_of_u64_of_i64 z) at 2 by done.
    apply (reads_map _ (λ v, Value.integer (i64_of_u64 v))), reads_u64, u64_of_i64_range.
  - rewrite appendU64_le, appendU8_buf. eexists. split; [reflexivity|]. read_field (reads_u8 2 ltac:(lia)).
    apply (reads_map _ Value.float), reads_u64, Hv.
  - unfold appendBool, appendU8. rewrite <-app_assoc. eexists. split; [reflexivity|].
    read_field (reads_u8 3 ltac:(lia)). apply (reads_map _ Value.boolean), reads_bool.
  - apply bytes_reads in H as (e & -> & He). rewrite appendU8_buf. eexists. split; [reflexivity|].
    read_field (reads_u8 4 ltac:(lia)). by apply (reads_map _ Value.initText).
  - apply bytes_reads in H as (e & -> & He). rewrite appendU8_buf. eexists. split; [reflexivity|].
    read_field (reads_u8 5 ltac:(lia)). by apply (reads_map _ Value.initBlob).
  - destruct v as [[] d vals]; simpl in *. apply appendCount_ok in Ha as [Hd ->].
    destruct Hv as (Hpos & Hlen & Hvals). simpl in *. destruct (fold_appendU32 vals
      (appendU8 (appendU8 buf 6) 1 ++ le32 d) Hvals) as (e & -> & He).
    rewrite !appendU8_buf, <-!app_assoc. eexists. split; [reflexivity|]. 
    read_field (reads_u8 6 ltac:(lia)). read_field reads_element_type.
    read_field (reads_u32 d ltac:(unfold is_u32; lia)). rewrite <-(app_nil_r e).
    replace (Z.to_nat d) with (length vals) by lia. read_field He.
    unfold Value.initVector. rewrite (proj2 (Vector.init_ok float32 d vals _)) by (split_and!; [lia|lia|reflexivity]).
    apply reads_ret.
Qed.

Definition column_valid (c : ColumnDef.t) : Prop :=
  match ColumnDef.column_type c with ColumnType.vector vt => 0 ≤ VectorType.dimension vt | _ => True end ∧
  match ColumnDef.default_value c with Some v => Value.wf v | None => True end.

#[export] Instance column_codec : Codec appendColumn decodeColumnSpec column_valid column_spec_of.
Proof.
  intros buf c buf' [Hty Hdv] H. unfold appendColumn in H. unfold decodeColumnSpec.
  destruct c as [n ty nl dv pk ai]; simpl in *. inv_ok.
  apply bytes_reads in Ha as (e1 & -> & H1).
  apply (codec_law (Codec := column_type_codec)) in Ha0 as (e2 & -> & H2); [|done]. unfold id in H2.
  assert (∃ e3, a1 = (((buf ++ e1) ++ e2) ++ [byte_of (if nl then 1 else 0)]) ++ e3 ∧
    reads (λ c, '(has_default, c) ← Cursor.readBool c; if has_default : bool
       then '(v, c) ← decodeValue c; Ok (Some v, c) else Ok (None, c)) e3 dv) as (e3 & -> & H3).
  { unfold appendBool, appendU8 in *. destruct dv as [v|].
    - apply (codec_law (Codec := value_codec)) in Ha1 as (e & -> & He); [|done].
      rewrite <-(app_assoc _ _ e). eexists. split; [reflexivity|]. read_field (reads_bool true).
      by apply (reads_map _ Some).
    - inv_ok. eexists. split; [reflexivity|]. rewrite <-(app_nil_r [_]).
      read_field (reads_bool false). apply reads_ret. }
  unfold appendBool, appendU8. rewrite <-!app_assoc. eexists. split; [reflexivity|].
  read_field H1. read_field H2. read_field (reads_bool nl).
  eapply (reads_ext (λ c, '(default_value, c) ← ('(has_default, c) ← Cursor.readBool c; if has_default : bool
       then '(v, c) ← decodeValue c; Ok (Some v, c) else Ok (None, c));
       '(primary_key, c) ← Cursor.readBool c; '(auto_increment, c) ← Cursor.readBool c;
       Ok (ColumnSpec.mk n ty nl default_value primary_key auto_increment, c))).
  { intros c. destruct (Cursor.readBool c) as [[]| |]; simpl; by repeat case_match. }
  read_field H3. read_field (reads_bool pk). rewrite <-(app_nil_r [_]). read_field (reads_bool ai). apply reads_ret.
Qed.

#[export] Instance index_codec : Codec appendIndex decodeIndexSpec (λ _, True) index_spec_of.
Proof.
  intros buf i buf' _ H. unfold appendIndex in H. destruct i as [n cols k]; simpl in *. inv_ok.
  apply bytes_reads in Ha as (e1 & -> & H1). apply appendCount_length in Ha0 as [-> H2].
  apply (codec_list appendBytes Cursor.readLengthPrefixedBytes (λ _, True) id) in H as (e3 & -> & H3); [|by apply Forall_true].
  rewrite list_fmap_id in H3. unfold appendBool, appendU8. rewrite <-!app_assoc. eexists. split; [reflexivity|].
  unfold decodeIndexSpec. read_field (reads_bool (bool_decide (k = primary))).
  read_field H1. read_field H2. rewrite Nat2Z.id, <-(app_nil_r e3). read_field H3.
  destruct k; apply reads_ret.
Qed.

(** ** Decoders that load into a state *)
Lemma codec_fold {A S} (append : bytes → A → Result bytes) (decode : Cursor.t → S → Result (S * Cursor.t))
    (step : S → A → Result S) (valid : A → Prop) xs buf buf' s s' :
  (∀ buf x buf' s s', valid x → append buf x = Ok buf' → step s x = Ok s' →
     ∃ e, buf' = buf ++ e ∧ reads (λ c, decode c s) e s') →
  Forall valid xs → foldM append buf xs = Ok buf' → foldM step s xs = Ok s' →
  ∃ e, buf' = buf ++ e ∧ reads (λ c, read_fold decode (length xs) c s) e s'.
Proof.
  intros Hstep Hv. revert buf s. induction Hv as [|x xs Hx _ IH]; intros buf s H Hs; cbn [foldM] in H, Hs; inv_ok.
  - exists []. rewrite app_nil_r. split; [done|]. apply reads_ret.
  - destruct (Hstep _ _ _ _ _ Hx Ha0 Ha) as (e1 & -> & H1). destruct (IH _ _ H Hs) as (e2 & -> & H2).
    exists (e1 ++ e2). rewrite app_assoc. split; [done|]. cbn [length read_fold]. read_field H1. exact H2.
Qed.

Definition row_valid (r : Row.t) : Prop := is_u64 (Row.id r) ∧ Forall Value.wf (Row.values r).

Lemma row_reads buf r buf' s s' :
  row_valid r → appendRow buf r = Ok buf' → RowStore.insertWithId s (Row.id r) (Row.values r) = Ok s' →
  ∃ e, buf' = buf ++ e ∧ reads (λ c, decodeRow c s) e s'.
Proof.
  intros [Hid Hv] H Hs. unfold appendRow in H. inv_ok. apply appendCount_length in Ha as [-> H2].
  apply (codec_list appendValue decodeValue Value.wf id) in H as (e3 & -> & H3); [|done].
  rewrite list_fmap_id in H3. rewrite appendU64_le, <-!app_assoc. eexists. split; [reflexivity|].
  unfold decodeRow. read_field (reads_u64 (Row.id r) Hid). read_field H2. rewrite Nat2Z.id, <-(app_nil_r e3).
  read_field H3. rewrite Hs. apply reads_ret.
Qed.

(** What [decodeTable] does to the snapshot once the bytes are read. *)
Definition load_table (snapshot : DatabaseSnapshot.t) (entry : TableDef.t * RowStore.t) : Result DatabaseSnapshot.t :=
  let '(table, store) := entry in
  catalog ← DatabaseCatalog.createTable (DatabaseSnapshot.catalog snapshot) (table_spec_of table);
  let snapshot := DatabaseSnapshot.refreshStoreTablePointers
                    (DatabaseSnapshot.mk catalog (DatabaseSnapshot.stores snapshot)) in
  loaded ← orelse (DatabaseCatalog.getTable catalog (TableDef.name table)) RowStoreMismatch;
  store' ← insert_rows (RowStore.mk loaded [] (RowStore.next_id store)) (RowStore.rows_list store);
  Ok (DatabaseSnapshot.mk (DatabaseSnapshot.catalog snapshot) (DatabaseSnapshot.stores snapshot ++ [store'])).

Definition entry_valid (entry : TableDef.t * RowStore.t) : Prop :=
  Forall column_valid (TableDef.columns entry.1) ∧ is_u64 (RowStore.next_id entry.2) ∧
  Forall row_valid (RowStore.rows_list entry.2).

Lemma table_reads buf entry buf' s s' :
  entry_valid entry → appendTable buf entry = Ok buf' → load_table s entry = Ok s' →
  ∃ e, buf' = buf ++ e ∧ reads (λ c, decodeTable c s) e s'.
Proof.
  destruct entry as [t st]. intros (Hc & Hn & Hr) H Hs. unfold appendTable in H. cbn [fst snd] in *.
  apply bind_ok_inv in H as (b1 & H1 & H). apply bytes_reads in H1 as (e1 & -> & H1).
  apply bind_ok_inv in H as (b2 & H2 & H). apply appendCount_length in H2 as [-> H2].
  apply bind_ok_inv in H as (b3 & H3 & H).
  apply (codec_list appendColumn decodeColumnSpec column_valid column_spec_of) in H3 as (e3 & -> & H3); [|done].
  apply bind_ok_inv in H as (b4 & H4 & H). apply appendCount_length in H4 as [-> H4].
  apply bind_ok_inv in H as (b5 & H5 & H).
  apply (codec_list appendIndex decodeIndexSpec (λ _, True) index_spec_of) in H5 as (e5 & -> & H5); [|by apply Forall_true].
  apply bind_ok_inv in H as (b6 & H6 & H). apply appendCount_length in H6 as [-> H6].
  unfold load_table in Hs. apply bind_ok_inv in Hs as (catalog' & Hcat & Hs).
  apply bind_ok_inv in Hs as (t' & Ht' & Hs). apply bind_ok_inv in Hs as (st' & Hst' & [= <-]).
  apply (codec_fold appendRow decodeRow _ row_valid _ _ _ _ _ row_reads Hr H) in Hst' as (e7 & -> & H7).
  rewrite appendU64_le, <-!app_assoc. eexists. split; [reflexivity|].
  unfold decodeTable. read_field H1. read_field H2. rewrite Nat2Z.id. read_field H3. read_field H4.
  rewrite Nat2Z.id. read_field H5. unfold table_spec_of in Hcat. rewrite Hcat. cbn [mbind result_bind].
  rewrite Ht'. cbn [mbind result_bind]. read_field (reads_u64 (RowStore.next_id st) Hn).
  read_field H6. rewrite Nat2Z.id, <-(app_nil_r e7). read_field H7. apply reads_ret.
Qed.

Lemma view_reads buf o buf' s s' :
  True → appendObject buf o = Ok buf' →
  (λ s (o : bytes * bytes), catalog ← DatabaseCatalog.registerView (DatabaseSnapshot.catalog s) o.1 o.2;
     Ok (DatabaseSnapshot.mk catalog (DatabaseSnapshot.stores s))) s o = Ok s' →
  ∃ e, buf' = buf ++ e ∧ reads (λ c, decodeView c s) e s'.
Proof.
  intros _ H Hs. unfold appendObject in H. apply bind_ok_inv in H as (b1 & H1 & H2).
  apply bytes_reads in H1 as (e1 & -> & H1), H2 as (e2 & -> & H2). rewrite <-app_assoc.
  eexists. split; [reflexivity|]. unfold decodeView. read_field H1. rewrite <-(app_nil_r e2). read_field H2.
  apply bind_ok_inv in Hs as (c & -> & [= <-]). apply reads_ret.
Qed.

Lemma procedure_reads buf o buf' s s' :
  True → appendObject buf o = Ok buf' →
  (λ s (o : bytes * bytes), catalog ← DatabaseCatalog.registerProcedure (DatabaseSnapshot.catalog s) o.1 o.2;
     Ok (DatabaseSnapshot.mk catalog (DatabaseSnapshot.stores s))) s o = Ok s' →
  ∃ e, buf' = buf ++ e ∧ reads (λ c, decodeProcedure c s) e s'.
Proof.
  intros _ H Hs. unfold appendObject in H. apply bind_ok_inv in H as (b1 & H1 & H2).
  apply bytes_reads in H1 as (e1 & -> & H1), H2 as (e2 & -> & H2). rewrite <-app_assoc.
  eexists. split; [reflexivity|]. unfold decodeProcedure. read_field H1. rewrite <-(app_nil_r e2). read_field H2.
  apply bind_ok_inv in Hs as (c & -> & [= <-]). apply reads_ret.
Qed.

(** ** Loading a well-formed snapshot *)
Lemma fresh_finds c n :
  lower n ∉ (entries c).*1 →
  DatabaseCatalog.findTableIndex c n = None ∧ DatabaseCatalog.findViewIndex c n = None ∧
  DatabaseCatalog.findProcedureIndex c n = None.
Proof.
  unfold entries. rewrite !fmap_app, !not_elem_of_app. intros (Ht & Hv & Hp). split_and!.
  - by apply (find_kind_None table_entry TableDef.name).
  - by apply (find_kind_None view_entry ViewDef.name).
  - by apply (find_kind_None procedure_entry ProcedureDef.name).
Qed.

Lemma createTable_fresh c t :
  table_wf t → lower (TableDef.name t) ∉ (entries c).*1 →
  DatabaseCatalog.createTable c (table_spec_of t) =
    Ok (DatabaseCatalog.mk (DatabaseCatalog.tables c ++ [t]) (DatabaseCatalog.views c) (DatabaseCatalog.procedures c)).
Proof.
  intros Ht (Hf & Hv & Hp)%fresh_finds. unfold DatabaseCatalog.createTable, DatabaseCatalog.nameUsedOutsideTables.
  cbn [table_spec_of TableSpec.name]. rewrite Hf, Hv, Hp. simpl.
  pose proof (cloneTableDef_wf t Ht) as Hc. unfold cloneTableDef in Hc. by rewrite Hc.
Qed.

Lemma registerView_fresh c v :
  lower (ViewDef.name v) ∉ (entries c).*1 →
  DatabaseCatalog.registerView c (ViewDef.name v) (ViewDef.body v) =
    Ok (DatabaseCatalog.mk (DatabaseCatalog.tables c) (DatabaseCatalog.views c ++ [v]) (DatabaseCatalog.procedures c)).
Proof.
  intros (Hf & Hv & Hp)%fresh_finds. unfold DatabaseCatalog.registerView, DatabaseCatalog.nameUsedOutsideViews.
  rewrite Hf, Hv, Hp. by destruct v.
Qed.

Lemma registerProcedure_fresh c p :
  lower (ProcedureDef.name p) ∉ (entries c).*1 →
  DatabaseCatalog.registerProcedure c (ProcedureDef.name p) (ProcedureDef.body p) =
    Ok (DatabaseCatalog.mk (DatabaseCatalog.tables c) (DatabaseCatalog.views c) (DatabaseCatalog.procedures c ++ [p])).
Proof.
  intros (Hf & Hv & Hp)%fresh_finds. unfold DatabaseCatalog.registerProcedure, DatabaseCatalog.nameUsedOutsideProcedures.
  rewrite Hf, Hv, Hp. by destruct p.
Qed.

(** A table with its store: well-formed, consistent with each other, machine-width payloads. *)
Definition entry_wf (t : TableDef.t) (st : RowStore.t) : Prop :=
  table_wf t ∧ store_wf st ∧ RowStore.table st = t ∧
  Forall column_valid (TableDef.columns t) ∧ Forall (λ r, Forall Value.wf (Row.values r)) (RowStore.rows_list st).

Record snapshot_wf (s : DatabaseSnapshot.t) : Prop := {
  sn_names : catalog_inv (DatabaseSnapshot.catalog s);
  sn_entries : Forall2 entry_wf (DatabaseCatalog.tables (DatabaseSnapshot.catalog s)) (DatabaseSnapshot.stores s) }.

Lemma store_entry_valid t st :
  store_wf st → Forall column_valid (TableDef.columns t) → Forall (λ r, Forall Value.wf (Row.values r)) (RowStore.rows_list st) →
  entry_valid (t, st).
Proof.
  intros [_ Hb Hn _] Hc Hr. split_and!; [done|unfold is_u64; simpl; lia|]. simpl.
  apply Forall_forall. intros r Hin. split.
  - rewrite Forall_forall in Hb. unfold is_u64. pose proof (Hb (Row.id r) ltac:(by apply list_elem_of_fmap_2)). lia.
  - by apply (proj1 (Forall_forall _ _) Hr).
Qed.

Lemma entry_wf_valid t st : entry_wf t st → entry_valid (t, st).
Proof. intros (_ & Hs & _ & Hc & Hr). by apply store_entry_valid. Qed.

Lemma refresh_consistent c stores extra :
  Forall2 (λ t st, RowStore.table st = t) (DatabaseCatalog.tables c) stores →
  DatabaseSnapshot.refreshStoreTablePointers
    (DatabaseSnapshot.mk (DatabaseCatalog.mk (DatabaseCatalog.tables c ++ extra) (DatabaseCatalog.views c)
      (DatabaseCatalog.procedures c)) stores) =
    DatabaseSnapshot.mk (DatabaseCatalog.mk (DatabaseCatalog.tables c ++ extra) (DatabaseCatalog.views c)
      (DatabaseCatalog.procedures c)) stores.
Proof.
  intros H. unfold DatabaseSnapshot.refreshStoreTablePointers. simpl. f_equal.
  apply list_eq. intros i. rewrite list_lookup_imap. destruct (stores !! i) as [st|] eqn:Hi; simpl; [|done].
  destruct (Forall2_lookup_r _ _ _ _ _ H Hi) as (t & Ht & He).
  rewrite (lookup_app_l_Some _ _ _ _ Ht), <-He. by destruct st.
Qed.

Lemma getTable_appended c t :
  lower (TableDef.name t) ∉ (entries c).*1 →
  DatabaseCatalog.getTable (DatabaseCatalog.mk (DatabaseCatalog.tables c ++ [t]) (DatabaseCatalog.views c)
    (DatabaseCatalog.procedures c)) (TableDef.name t) = Some t.
Proof.
  intros (Hf & _ & _)%fresh_finds. unfold DatabaseCatalog.getTable, DatabaseCatalog.findTableIndex in *. simpl.
  rewrite find_index_app, Hf. simpl. unfold namesEqual. rewrite eqlIgnoreCase_refl. simpl.
  by rewrite Nat.add_0_r, list_lookup_middle.
Qed.

Lemma load_table_ok c stores t st :
  entry_wf t st → lower (TableDef.name t) ∉ (entries c).*1 →
  Forall2 (λ t st, RowStore.table st = t) (DatabaseCatalog.tables c) stores →
  load_table (DatabaseSnapshot.mk c stores) (t, st) =
    Ok (DatabaseSnapshot.mk (DatabaseCatalog.mk (DatabaseCatalog.tables c ++ [t]) (DatabaseCatalog.views c)
         (DatabaseCatalog.procedures c)) (stores ++ [st])).
Proof.
  intros (Ht & Hs & He & _) Hn Hp. unfold load_table. cbn [DatabaseSnapshot.catalog DatabaseSnapshot.stores].
  rewrite createTable_fresh by done. cbn [mbind result_bind]. rewrite refresh_consistent by done.
  rewrite getTable_appended by done. cbn [orelse mbind result_bind].
  destruct Hs as [Hnd Hb Hnx Hr]. subst t. rewrite insert_rows_exact; [by destruct st|done| |done].
  eapply Forall_impl; [exact Hb|]. intros; simpl in *; lia.
Qed.

Lemma load_tables_ok ts sts ts0 sts0 :
  Forall2 entry_wf ts sts → Forall2 (λ t st, RowStore.table st = t) ts0 sts0 →
  NoDup (table_entry <$> ts0 ++ ts).*1 →
  foldM load_table (DatabaseSnapshot.mk (DatabaseCatalog.mk ts0 [] []) sts0) (zip ts sts) =
    Ok (DatabaseSnapshot.mk (DatabaseCatalog.mk (ts0 ++ ts) [] []) (sts0 ++ sts)).
Proof.
  intros Hw. revert ts0 sts0. induction Hw as [|t st ts sts Hts Hw IH]; intros ts0 sts0 Hp Hnd.
  - by rewrite !app_nil_r.
  - cbn [zip zip_with foldM]. rewrite load_table_ok; [|done| |done].
    + cbn [mbind result_bind DatabaseCatalog.tables DatabaseCatalog.views DatabaseCatalog.procedures].
      unfold zip in IH. rewrite IH; [by rewrite <-!app_assoc| |by rewrite <-app_assoc].
      apply Forall2_app; [done|]. constructor; [|constructor]. apply Hts.
    + unfold entries. simpl. rewrite !fmap_app in *. simpl in *. rewrite app_nil_r.
      apply NoDup_app in Hnd as (_ & Hd & _). intros Hin. apply (Hd _ Hin). apply list_elem_of_here.
Qed.

Abbreviation add_view := (λ s (o : bytes * bytes),
  catalog ← DatabaseCatalog.registerView (DatabaseSnapshot.catalog s) o.1 o.2;
  Ok (DatabaseSnapshot.mk catalog (DatabaseSnapshot.stores s))).
Abbreviation add_procedure := (λ s (o : bytes * bytes),
  catalog ← DatabaseCatalog.registerProcedure (DatabaseSnapshot.catalog s) o.1 o.2;
  Ok (DatabaseSnapshot.mk catalog (DatabaseSnapshot.stores s))).

Lemma load_views_ok ts vs vs0 sts :
  NoDup (entries (DatabaseCatalog.mk ts (vs0 ++ vs) [])).*1 →
  foldM add_view (DatabaseSnapshot.mk (DatabaseCatalog.mk ts vs0 []) sts)
    ((λ v, (ViewDef.name v, ViewDef.body v)) <$> vs) =
    Ok (DatabaseSnapshot.mk (DatabaseCatalog.mk ts (vs0 ++ vs) []) sts).
Proof.
  revert vs0. induction vs as [|v vs IH]; intros vs0 Hnd; [by rewrite app_nil_r|].
  rewrite fmap_cons. cbn [foldM fst snd DatabaseSnapshot.catalog]. rewrite registerView_fresh.
  - cbn [mbind result_bind DatabaseCatalog.tables DatabaseCatalog.views DatabaseCatalog.procedures DatabaseSnapshot.stores].
    rewrite IH; by rewrite <-!app_assoc.
  - unfold entries in *. simpl in *. rewrite !fmap_app, !app_nil_r in *. simpl in *.
    rewrite app_assoc in Hnd. apply NoDup_app in Hnd as (_ & Hd & _). intros Hin. apply (Hd _ Hin), list_elem_of_here.
Qed.

Lemma load_procedures_ok ts vs ps ps0 sts :
  NoDup (entries (DatabaseCatalog.mk ts vs (ps0 ++ ps))).*1 →
  foldM add_procedure (DatabaseSnapshot.mk (DatabaseCatalog.mk ts vs ps0) sts)
    ((λ p, (ProcedureDef.name p, ProcedureDef.body p)) <$> ps) =
    Ok (DatabaseSnapshot.mk (DatabaseCatalog.mk ts vs (ps0 ++ ps)) sts).
Proof.
  revert ps0. induction ps as [|p ps IH]; intros ps0 Hnd; [by rewrite app_nil_r|].
  rewrite fmap_cons. cbn [foldM fst snd DatabaseSnapshot.catalog]. rewrite registerProcedure_fresh.
  - cbn [mbind result_bind DatabaseCatalog.tables DatabaseCatalog.views DatabaseCatalog.procedures DatabaseSnapshot.stores].
    rewrite IH; by rewrite <-!app_assoc.
  - unfold entries in *. simpl in *. rewrite !fmap_app in *. simpl in *.
    rewrite !app_assoc in Hnd. apply NoDup_app in Hnd as (_ & Hd & _). rewrite app_assoc. intros Hin.
    apply (Hd _ Hin), list_elem_of_here.
Qed.

Lemma payload_reads s payload :
  snapshot_wf s → encodePayload s = Ok payload → reads decodePayload payload s.
Proof.
  destruct s as [[ts vs ps] sts]. intros [Hnd Hen] H. unfold encodePayload in H. simpl in Hnd, Hen, H.
  apply bind_ok_inv in H as (u & _ & H). apply bind_ok_inv in H as (b1 & H1 & H).
  apply appendCount_length in H1 as [-> H1]. apply bind_ok_inv in H as (b2 & H2 & H).
  apply bind_ok_inv in H as (b3 & H3 & H). apply appendCount_length in H3 as [-> H3].
  apply bind_ok_inv in H as (b4 & H4 & H). apply bind_ok_inv in H as (b5 & H5 & H6).
  apply appendCount_length in H5 as [-> H5].
  assert (Hlen : length ts = length sts) by by eapply Forall2_length.
  unfold catalog_inv, entries in Hnd. simpl in Hnd. rewrite !fmap_app in Hnd.
  assert (Hzip : length (zip ts sts) = length ts) by (rewrite length_zip_with; lia).
  assert (Hvalid : Forall entry_valid (zip ts sts)).
  { clear -Hen. induction Hen; [constructor|]. constructor; [by apply entry_wf_valid|done]. }
  assert (Hptr : Forall2 (λ t st, RowStore.table st = t) ts sts).
  { eapply Forall2_impl; [exact Hen|]. intros t st Hw. apply Hw. }
  pose proof (load_tables_ok ts sts [] [] Hen ltac:(constructor) ltac:(by apply NoDup_app in Hnd as [? _])) as R2.
  apply (codec_fold appendTable decodeTable load_table entry_valid _ _ _ _ _ table_reads Hvalid H2) in R2 as (e2 & -> & R2).
  pose proof (load_views_ok ts vs [] sts) as R4. unfold entries in R4. cbn [DatabaseCatalog.tables DatabaseCatalog.views
    DatabaseCatalog.procedures] in R4. rewrite !fmap_app, fmap_nil, app_nil_r in R4.
  specialize (R4 ltac:(rewrite app_assoc in Hnd; by apply NoDup_app in Hnd as [? _])).
  apply (codec_fold appendObject decodeView _ (λ _, True) _ _ _ _ _ view_reads ltac:(by apply Forall_true) H4) in R4 as (e4 & -> & R4).
  pose proof (load_procedures_ok ts vs ps [] sts) as R6. unfold entries in R6. cbn [DatabaseCatalog.tables DatabaseCatalog.views
    DatabaseCatalog.procedures] in R6. rewrite !fmap_app in R6. specialize (R6 Hnd).
  apply (codec_fold appendObject decodeProcedure _ (λ _, True) _ _ _ _ _ procedure_reads ltac:(by apply Forall_true) H6) in R6 as (e6 & -> & R6).
  rewrite <-!app_assoc, app_nil_l. unfold decodePayload. read_field H1. rewrite Nat2Z.id, <-Hzip. read_field R2.
  replace (DatabaseSnapshot.refreshStoreTablePointers _) with (DatabaseSnapshot.mk (DatabaseCatalog.mk ts [] []) sts).
  2: { pose proof (refresh_consistent (DatabaseCatalog.mk ts [] []) sts [] Hptr) as Hr. simpl in Hr.
       rewrite app_nil_r in Hr. done. }
  read_field H3. rewrite Nat2Z.id. read_field R4.
  read_field H5. rewrite Nat2Z.id. exact R6.
Qed.

Lemma Ok_inj {A} (a b : A) : Ok a = Ok b → a = b.
Proof. congruence. Qed.

Lemma encode_shape s data :
  encodeSnapshot s = Ok data →
  ∃ payload, encodePayload s = Ok payload ∧ is_u64 (Z.of_nat (length payload)) ∧
    data = magic ++ le32 current_version ++ le64 (Z.of_nat (length payload)) ++ le32 (crc32 payload) ++ payload.
Proof.
  unfold encodeSnapshot. intros H. apply bind_ok_inv in H as (payload & Hp & H).
  apply bind_ok_inv in H as (len & [Hl ->]%checked_u64_ok & H). apply Ok_inj in H as <-.
  exists payload. split; [done|]. split; [done|]. by rewrite !appendU32_le, appendU64_le, <-!app_assoc.
Qed.

(** ** The envelope *)
Definition num32 (l : bytes) : Z :=
  match l with [b0; b1; b2; b3] => sum32 (byte_val b0) (byte_val b1) (byte_val b2) (byte_val b3) | _ => 0 end.
Definition num64 (l : bytes) : Z := num32 (take 4 l) + num32 (drop 4 l) * 2 ^ 32.

Lemma num32_range l : 0 ≤ num32 l < 2 ^ 32.
Proof.
  unfold num32. destruct l as [|b0 [|b1 [|b2 [|b3 [|]]]]]; try lia.
  pose proof (byte_val_range b0). pose proof (byte_val_range b1).
  pose proof (byte_val_range b2). pose proof (byte_val_range b3). unfold sum32. lia.
Qed.

Lemma num32_inj l l' : length l = 4%nat → length l' = 4%nat → num32 l = num32 l' → l = l'.
Proof.
  destruct l as [|a0 [|a1 [|a2 [|a3 [|]]]]]; try done. destruct l' as [|b0 [|b1 [|b2 [|b3 [|]]]]]; try done.
  intros _ _. simpl. unfold sum32. intros H.
  pose proof (byte_val_range a0). pose proof (byte_val_range a1). pose proof (byte_val_range a2).
  pose proof (byte_val_range a3). pose proof (byte_val_range b0). pose proof (byte_val_range b1).
  pose proof (byte_val_range b2). pose proof (byte_val_range b3).
  f_equal; [|f_equal; [|f_equal; [|f_equal]]]; apply byte_val_inj; lia.
Qed.

Lemma num64_inj l l' : length l = 8%nat → length l' = 8%nat → num64 l = num64 l' → l = l'.
Proof.
  intros Hl Hl' H. unfold num64 in H.
  pose proof (num32_range (take 4 l)). pose proof (num32_range (take 4 l')).
  rewrite <-(take_drop 4 l), <-(take_drop 4 l'). f_equal; apply num32_inj; rewrite ?length_take, ?length_drop; lia.
Qed.

Lemma num32_le32 v : is_u32 v → num32 (le32 v) = v.
Proof. apply le32_sum. Qed.

Lemma reads_num32 l : length l = 4%nat → reads Cursor.readU32 l (num32 l).
Proof.
  destruct l as [|b0 [|b1 [|b2 [|b3 [|]]]]]; try done. intros _. unfold Cursor.readU32.
  rewrite <-(app_nil_r [_; _; _; _]). read_field (reads_bytes [b0; b1; b2; b3]).
  cbn [item_at lookup list_lookup mbind result_bind]. rewrite lor32_sum. apply reads_ret.
Qed.

Lemma reads_num64 l : length l = 8%nat → reads Cursor.readU64 l (num64 l).
Proof.
  destruct l as [|b0 [|b1 [|b2 [|b3 [|b4 [|b5 [|b6 [|b7 [|]]]]]]]]]; try done. intros _. unfold Cursor.readU64.
  rewrite <-(app_nil_r [_; _; _; _; _; _; _; _]). read_field (reads_bytes [b0; b1; b2; b3; b4; b5; b6; b7]).
  cbn [item_at lookup list_lookup mbind result_bind]. rewrite lor64_sum. apply reads_ret.
Qed.

Lemma num64_le64 v : is_u64 v → num64 (le64 v) = v.
Proof.
  intros Hv. pose proof (reads_u64 v Hv [] []) as H1. pose proof (reads_num64 (le64 v) eq_refl [] []) as H2. congruence.
Qed.

(** What [decodeSnapshot] does with any ten, four, eight and four header bytes. *)
Lemma decode_envelope m v4 l8 c4 payload :
  length m = 10%nat → length v4 = 4%nat → length l8 = 8%nat → length c4 = 4%nat →
  decodeSnapshot (m ++ v4 ++ l8 ++ c4 ++ payload) =
    if negb (bool_decide (m = magic)) then Err InvalidHeader
    else if negb (num32 v4 =? current_version) then Err UnsupportedVersion
    else if negb (num64 l8 =? Z.of_nat (length payload)) then Err PayloadLengthMismatch
    else if negb (crc32 payload =? num32 c4) then Err PayloadChecksumMismatch
    else '(snapshot, c) ← decodePayload (Cursor.init payload);
         _ ← fail_if (negb (Cursor.finished c)) PayloadLengthMismatch; Ok snapshot.
Proof.
  intros Hm Hv Hl Hc. unfold decodeSnapshot. rewrite !length_app, Hm, Hv, Hl, Hc.
  change (length magic) with 10%nat. change header_size with 26%nat.
  destruct (Nat.ltb_spec (10 + (4 + (8 + (4 + length payload)))) 26); [lia|]. cbn [fail_if mbind result_bind].
  pose proof (reads_bytes m [] (v4 ++ l8 ++ c4 ++ payload)) as R1. rewrite Hm in R1. unfold Cursor.init.
  cbn [app length] in R1. rewrite Nat.add_0_l in R1. rewrite R1. cbn [mbind result_bind]. clear R1.
  destruct (bool_decide (m = magic)); [|done]. cbn [negb fail_if mbind result_bind].
  pose proof (reads_num32 v4 Hv m (l8 ++ c4 ++ payload)) as R2. rewrite Hm, Hv in R2. rewrite R2. clear R2.
  cbn [mbind result_bind]. destruct (num32 v4 =? current_version); [|done]. cbn [negb fail_if mbind result_bind].
  pose proof (reads_num64 l8 Hl (m ++ v4) (c4 ++ payload)) as R3. rewrite <-!app_assoc, length_app, Hm, Hv, Hl in R3.
  rewrite R3. clear R3. cbn [mbind result_bind].
  pose proof (reads_num32 c4 Hc (m ++ v4 ++ l8) payload) as R4. rewrite <-!app_assoc, !length_app, Hm, Hv, Hl, Hc in R4.
  change (10 + (4 + 8))%nat with (10 + 4 + 8)%nat in R4.
  rewrite R4. clear R4. cbn [mbind result_bind].
  replace (10 + (4 + (8 + (4 + length payload))) - 26)%nat with (length payload) by lia.
  destruct (num64 l8 =? Z.of_nat (length payload)); [|done]. cbn [negb fail_if mbind result_bind].
  assert (drop 26 (m ++ v4 ++ l8 ++ c4 ++ payload) = payload) as ->.
  { rewrite !app_assoc. rewrite drop_app_length'; [done|]. rewrite !length_app. lia. }
  by destruct (crc32 payload =? num32 c4).
Qed.

Lemma insert_app_cases {A} (l k : list A) i x :
  <[i := x]> (l ++ k) = if decide (i < length l)%nat then <[i := x]> l ++ k else l ++ <[(i - length l)%nat := x]> k.
Proof. case_decide; [by apply insert_app_l|]. by rewrite insert_app_r_alt by lia. Qed.

Lemma lookup_app_cases {A} (l k : list A) i :
  (l ++ k) !! i = if decide (i < length l)%nat then l !! i else k !! (i - length l)%nat.
Proof. case_decide; [by apply lookup_app_l|]. by apply lookup_app_r; lia. Qed.

Lemma crc32_insert payload i a b :
  payload !! i = Some a → a ≠ b → crc32 (<[i := b]> payload) ≠ crc32 payload.
Proof.
  intros Hi Hab. rewrite (insert_take_drop _ _ _ (lookup_lt_Some _ _ _ Hi)).
  rewrite <-(take_drop_middle payload i a Hi) at 3. apply not_eq_sym, crc32_single_byte. done.
Qed.

(** When every count fits its 32-bit field, encoding succeeds. *)
Definition fits {A} (l : list A) : Prop := Z.of_nat (length l) ≤ u32_max.

Definition value_fits (v : Value.t) : Prop :=
  match v with
  | Value.text s | Value.blob s => fits s
  | Value.vector v => Vector.dimension v ≤ u32_max
  | _ => True
  end.

Definition column_fits (c : ColumnDef.t) : Prop :=
  fits (ColumnDef.name c) ∧
  match ColumnDef.column_type c with ColumnType.vector vt => VectorType.dimension vt ≤ u32_max | _ => True end ∧
  match ColumnDef.default_value c with Some v => value_fits v | None => True end.

Definition index_fits (i : IndexDef.t) : Prop :=
  fits (IndexDef.name i) ∧ fits (IndexDef.columns i) ∧ Forall fits (IndexDef.columns i).

Definition entry_fits (entry : TableDef.t * RowStore.t) : Prop :=
  fits (TableDef.name entry.1) ∧ fits (TableDef.columns entry.1) ∧ Forall column_fits (TableDef.columns entry.1) ∧
  fits (TableDef.indexes entry.1) ∧ Forall index_fits (TableDef.indexes entry.1) ∧
  fits (RowStore.rows_list entry.2) ∧
  Forall (λ r, fits (Row.values r) ∧ Forall value_fits (Row.values r)) (RowStore.rows_list entry.2).

Definition snapshot_fits (s : DatabaseSnapshot.t) : Prop :=
  let c := DatabaseSnapshot.catalog s in
  fits (DatabaseCatalog.tables c) ∧ Forall entry_fits (zip (DatabaseCatalog.tables c) (DatabaseSnapshot.stores s)) ∧
  fits (DatabaseCatalog.views c) ∧ Forall (λ v, fits (ViewDef.name v) ∧ fits (ViewDef.body v)) (DatabaseCatalog.views c) ∧
  fits (DatabaseCatalog.procedures c) ∧
  Forall (λ p, fits (ProcedureDef.name p) ∧ fits (ProcedureDef.body p)) (DatabaseCatalog.procedures c).

Definition succeeds {A} (r : Result A) : Prop := ∃ a, r = Ok a.

Lemma succeeds_bind {A B} (m : Result A) (k : A → Result B) :
  succeeds m → (∀ a, succeeds (k a)) → succeeds (m ≫= k).
Proof. intros [a ->] H. apply H. Qed.

Lemma succeeds_foldM {S A} (f : S → A → Result S) s l :
  Forall (λ x, ∀ s, succeeds (f s x)) l → succeeds (foldM f s l).
Proof.
  intros H. revert s. induction H as [|x l Hx _ IH]; intros s; [by exists s|]. by apply succeeds_bind.
Qed.

Lemma succeeds_ok {A} (a : A) : succeeds (Ok a).
Proof. by exists a. Qed.

Lemma succeeds_count buf n : n ≤ u32_max → succeeds (appendCount buf n).
Proof. intros H. unfold appendCount. destruct (Z.ltb_spec u32_max n); [lia|]. apply succeeds_ok. Qed.

Lemma succeeds_bytes buf s : fits s → succeeds (appendBytes buf s).
Proof. intros H. apply succeeds_bind; [by apply succeeds_count|]. intros. apply succeeds_ok. Qed.

#[local] Hint Resolve succeeds_bind succeeds_foldM succeeds_ok succeeds_count succeeds_bytes : encode.

Lemma succeeds_value buf v : value_fits v → succeeds (appendValue buf v).
Proof. destruct v; simpl; eauto with encode. Qed.

Lemma succeeds_column buf c : column_fits c → succeeds (appendColumn buf c).
Proof.
  intros (Hn & Ht & Hd). unfold appendColumn. apply succeeds_bind; [by apply succeeds_bytes|intros b1].
  apply succeeds_bind; [destruct (ColumnDef.column_type c); simpl; eauto with encode|intros b2].
  apply succeeds_bind; [|intros; apply succeeds_ok].
  destruct (ColumnDef.default_value c); [by apply succeeds_value|apply succeeds_ok].
Qed.

Lemma succeeds_index buf i : index_fits i → succeeds (appendIndex buf i).
Proof.
  intros (Hn & Hl & Hc). unfold appendIndex. apply succeeds_bind; [by apply succeeds_bytes|intros b1].
  apply succeeds_bind; [by apply succeeds_count|intros b2]. apply succeeds_foldM.
  eapply Forall_impl; [exact Hc|]. intros. by apply succeeds_bytes.
Qed.

Lemma succeeds_table buf entry : entry_fits entry → succeeds (appendTable buf entry).
Proof.
  destruct entry as [t st]. intros (Hn & Hc & Hcs & Hi & His & Hr & Hrs). unfold appendTable. simpl in *.
  repeat (apply succeeds_bind; [first [by apply succeeds_bytes | by apply succeeds_count |
    apply succeeds_foldM; eapply Forall_impl; [eassumption|]; intros; first [by apply succeeds_column | by apply succeeds_index]]|intros]).
  apply succeeds_foldM. eapply Forall_impl; [exact Hrs|]. intros r [Hv Hvs] buf'. unfold appendRow.
  apply succeeds_bind; [by apply succeeds_count|]. intros b. apply succeeds_foldM.
  eapply Forall_impl; [exact Hvs|]. intros. by apply succeeds_value.
Qed.

Lemma succeeds_object buf (o : bytes * bytes) : fits o.1 ∧ fits o.2 → succeeds (appendObject buf o).
Proof. intros []. apply succeeds_bind; [by apply succeeds_bytes|]. intros. by apply succeeds_bytes. Qed.

Lemma encodePayload_fits s :
  length (DatabaseCatalog.tables (DatabaseSnapshot.catalog s)) = length (DatabaseSnapshot.stores s) →
  snapshot_fits s → succeeds (encodePayload s).
Proof.
  intros Hlen (Ht & Hts & Hv & Hvs & Hp & Hps). unfold encodePayload. rewrite Hlen, Nat.eqb_refl, <-Hlen. simpl.
  apply succeeds_bind; [by apply succeeds_count|intros b1].
  apply succeeds_bind; [apply succeeds_foldM; eapply Forall_impl; [exact Hts|]; intros; by apply succeeds_table|intros b2].
  apply succeeds_bind; [apply succeeds_count; by rewrite length_fmap|intros b3].
  apply succeeds_bind; [apply succeeds_foldM, Forall_fmap; eapply Forall_impl; [exact Hvs|]; intros v Hv' b; by apply succeeds_object|intros b4].
  apply succeeds_bind; [apply succeeds_count; by rewrite length_fmap|intros b5].
  apply succeeds_foldM, Forall_fmap. eapply Forall_impl; [exact Hps|]. intros p Hp' b. by apply succeeds_object.
Qed.

Lemma snapshot_decodes s data : snapshot_wf s → encodeSnapshot s = Ok data → decodeSnapshot data = Ok s.
Proof.
  intros Hwf (payload & Hp & Hl & ->)%encode_shape. rewrite decode_envelope by done.
  rewrite bool_decide_eq_true_2 by done. rewrite num64_le64 by done.
  rewrite (num32_le32 current_version) by (by unfold is_u32).
  rewrite (num32_le32 (crc32 payload)) by apply crc32_u32. rewrite !Z.eqb_refl. cbn [negb].
  pose proof (payload_reads s payload Hwf Hp [] []) as Hr. cbn [app length] in Hr.
  rewrite app_nil_r in Hr. unfold Cursor.init. rewrite Hr. cbn [mbind result_bind].
  unfold Cursor.finished. simpl. by rewrite Nat.eqb_refl.
Qed.

(** ** Properties *)

(** C2: a well-formed snapshot whose counts fit the format's 32-bit fields is always encodable
    (the payload staying addressable), and decoding the encoding gives back exactly that
    snapshot: tables with every column, default and index, rows in order with their ids, next row
    ids, views and procedures. *)
Theorem snapshot_roundtrip (s : DatabaseSnapshot.t) :
  snapshot_wf s → snapshot_fits s →
  (∃ payload, encodePayload s = Ok payload ∧
     (Z.of_nat (length payload) ≤ u64_max → ∃ data, encodeSnapshot s = Ok data)) ∧
  (∀ data, encodeSnapshot s = Ok data → decodeSnapshot data = Ok s).
Proof.
  intros Hwf Hfits. split.
  - destruct (encodePayload_fits s) as [payload Hp]; [|done|].
    { eapply Forall2_length, (sn_entries _ Hwf). }
    exists payload. split; [done|]. intros Hl. unfold encodeSnapshot. rewrite Hp. cbn [mbind result_bind].
    rewrite checked_u64_in by (unfold is_u64; lia). by eexists.
  - intros data. by apply snapshot_decodes.
Qed.

Lemma insert_changes {A} (l : list A) k a b : l !! k = Some a → a ≠ b → <[k := b]> l ≠ l.
Proof.
  intros Hk Hab E. apply (f_equal (.!! k)) in E. rewrite list_lookup_insert_eq in E by by eapply lookup_lt_Some.
  congruence.
Qed.

Definition envelope_error (e : Error) : Prop :=
  e = InvalidHeader ∨ e = UnsupportedVersion ∨ e = PayloadLengthMismatch ∨ e = PayloadChecksumMismatch.

(** Changing the header, or the payload so that its checksum changes, is rejected. *)
Lemma decode_rejects payload m v4 l8 c4 p :
  is_u64 (Z.of_nat (length payload)) →
  length m = 10%nat → length v4 = 4%nat → length l8 = 8%nat → length c4 = 4%nat → length p = length payload →
  m ≠ magic ∨ v4 ≠ le32 current_version ∨ l8 ≠ le64 (Z.of_nat (length payload)) ∨
    (c4 = le32 (crc32 payload) ∧ crc32 p ≠ crc32 payload) ∨ (p = payload ∧ c4 ≠ le32 (crc32 payload)) →
  ∃ e, decodeSnapshot (m ++ v4 ++ l8 ++ c4 ++ p) = Err e ∧ envelope_error e.
Proof.
  intros Hu Hm Hv Hl Hc Hp H. rewrite decode_envelope by done. unfold envelope_error. rewrite Hp.
  destruct (decide (m = magic)) as [->|?]; [|rewrite bool_decide_eq_false_2 by done; eexists; split; [reflexivity|tauto]].
  rewrite bool_decide_eq_true_2 by done. cbn [negb].
  destruct (Z.eqb_spec (num32 v4) current_version) as [E1|]; [|eexists; split; [reflexivity|tauto]]. cbn [negb].
  destruct (Z.eqb_spec (num64 l8) (Z.of_nat (length payload))) as [E2|]; [|eexists; split; [reflexivity|tauto]]. cbn [negb].
  destruct (Z.eqb_spec (crc32 p) (num32 c4)) as [E3|]; [|eexists; split; [reflexivity|tauto]]. exfalso.
  assert (v4 = le32 current_version) by (apply num32_inj; [done|done|]; by rewrite num32_le32 by (by unfold is_u32)).
  assert (l8 = le64 (Z.of_nat (length payload))) by (apply num64_inj; [done|done|]; by rewrite num64_le64).
  assert (Hcrc : c4 = le32 (crc32 p)).
  { apply num32_inj; [done|done|]. by rewrite num32_le32 by apply crc32_u32. }
  destruct H as [H|[H|[H|[[Hx Hy]|[Hx Hy]]]]]; [done|done|done| |congruence].
  apply Hy. rewrite E3, Hx. apply num32_le32, crc32_u32.
Qed.

(** C7: no single-byte corruption of a snapshot file goes unnoticed: replacing any one byte of an
    encoded snapshot makes decoding fail with a header, version, length or checksum error. *)
Theorem snapshot_corruption_detected (s : DatabaseSnapshot.t) (data : bytes) (i : nat) (a b : byte) :
  encodeSnapshot s = Ok data → data !! i = Some a → a ≠ b →
  ∃ e, decodeSnapshot (<[i := b]> data) = Err e ∧ envelope_error e.
Proof.
  intros (payload & _ & Hl & ->)%encode_shape Hi Hab.
  rewrite !insert_app_cases. rewrite !lookup_app_cases in Hi.
  repeat case_decide; apply (decode_rejects payload); rewrite ?length_insert; try done.
  - left. by eapply insert_changes.
  - right; left. by eapply insert_changes.
  - right; right; left. by eapply insert_changes.
  - do 4 right. split; [done|]. by eapply insert_changes.
  - do 3 right. left. split; [done|]. by eapply crc32_insert.
Qed.

(** The snapshot of the source's own tests ([makeSnapshot]). *)
Definition sample_snapshot : DatabaseSnapshot.t :=
  DatabaseSnapshot.mk
    (DatabaseCatalog.mk [sample_table] [ViewDef.mk (B "recent_memories") (B "SELECT body FROM memories")]
      [ProcedureDef.mk (B "remember") (B "BEGIN INSERT INTO memories VALUES (1); END")])
    [RowStore.mk sample_table
      [Row.mk 7 [Value.integer 1; Value.text (B "hello");
                 Value.vector (Vector.mk float32 2 [0x3e800000; 0x3f400000])]] 8].

Lemma sample_snapshot_wf : snapshot_wf sample_snapshot.
Proof.
  split.
  - apply (bool_decide_eq_true_1 _). vm_compute. reflexivity.
  - constructor; [|constructor]. split_and!.
    + apply table_wf_b_spec. vm_compute. reflexivity.
    + apply (bool_decide_eq_true_1 _). vm_compute. reflexivity.
    + reflexivity.
    + repeat constructor; vm_compute; congruence.
    + repeat constructor; vm_compute; congruence.
Qed.

Lemma sample_snapshot_fits : snapshot_fits sample_snapshot.
Proof. repeat constructor; vm_compute; congruence. Qed.

Lemma snapshot_roundtrip_witness :
  ∃ data, encodeSnapshot sample_snapshot = Ok data ∧ decodeSnapshot data = Ok sample_snapshot.
Proof.
  eexists. split; [vm_compute; reflexivity|].
  apply (snapshot_roundtrip sample_snapshot sample_snapshot_wf sample_snapshot_fits). vm_compute. reflexivity.
Defined.

Definition sample_data : bytes :=
  Eval vm_compute in match encodeSnapshot sample_snapshot with Ok data => data | _ => [] end.

Lemma snapshot_corruption_detected_witness :
  sample_data !! 40%nat = Some Byte.x65 ∧
  ∃ e, decodeSnapshot (<[40%nat := Byte.x00]> sample_data) = Err e ∧ envelope_error e.
Proof.
  split; [reflexivity|].
  apply (snapshot_corruption_detected sample_snapshot sample_data 40 Byte.x65 Byte.x00).
  - vm_compute. reflexivity.
  - reflexivity.
  - discriminate.
Defined.

(** A truncated or extended snapshot file is rejected: any proper prefix of an encoded
    snapshot and any extension of it fails with a header or length error. *)
Theorem snapshot_wrong_length_detected (s : DatabaseSnapshot.t) (data extra : bytes) (n : nat) :
  encodeSnapshot s = Ok data →
  ((n < length data)%nat →
     decodeSnapshot (take n data) = Err (if (n <? header_size)%nat then InvalidHeader else PayloadLengthMismatch)) ∧
  (extra ≠ [] → decodeSnapshot (data ++ extra) = Err PayloadLengthMismatch).
Proof.
  intros (payload & _ & Hl & ->)%encode_shape.
  assert (Hlen : ∀ p : bytes, length p ≠ length payload →
    decodeSnapshot (magic ++ le32 current_version ++ le64 (Z.of_nat (length payload)) ++ le32 (crc32 payload) ++ p) =
    Err PayloadLengthMismatch).
  { intros p Hp. rewrite decode_envelope by done. rewrite bool_decide_eq_true_2 by done.
    rewrite num64_le64, (num32_le32 current_version), Z.eqb_refl by (done || by unfold is_u32). cbn [negb].
    destruct (Z.eqb_spec (Z.of_nat (length payload)) (Z.of_nat (length p))); [lia|done]. }
  split.
  - intros Hn. change header_size with 26%nat. destruct (Nat.ltb_spec n 26) as [H|H].
    + unfold decodeSnapshot. change header_size with 26%nat. rewrite length_take.
      destruct (Nat.ltb_spec (n `min` length (magic ++ le32 current_version ++ le64 (Z.of_nat (length payload)) ++
        le32 (crc32 payload) ++ payload)) 26); [done|lia].
    + rewrite (app_assoc (le64 _)), (app_assoc (le32 current_version)), (app_assoc magic).
      rewrite take_app_ge by (rewrite !length_app; simpl; lia). rewrite <-!app_assoc. apply Hlen.
      rewrite !length_app in *. simpl in *. rewrite length_take. lia.
  - intros He. rewrite <-!app_assoc. apply Hlen. rewrite length_app. destruct extra; [done|]. simpl. lia.
Qed.

Lemma snapshot_wrong_length_detected_witness :
  decodeSnapshot (take 60 sample_data) = Err PayloadLengthMismatch ∧
  decodeSnapshot (sample_data ++ [Byte.x00]) = Err PayloadLengthMismatch.
Proof.
  destruct (snapshot_wrong_length_detected sample_snapshot sample_data [Byte.x00] 60) as [H1 H2].
  - vm_compute. reflexivity.
  - split; [apply H1; vm_compute; lia|apply H2; discriminate].
Defined.
