(* ===== verification/TableReload.v ===== *)
(** * Which table definitions survive a snapshot

    [CREATE TABLE] (catalog.zig, [TableDef.init]) runs once over the statement and once more, in
    [decodeTable] of persistence.zig and in [cloneTableDef] of snapshot.zig and executor.zig, over the
    definition it built.  [reload] says what the second run does to any definition the first one
    accepts, and the theorem carries it to whole snapshot files. *)

From S2P Require Import Prelude Value Catalog CatalogFacts TableFacts RowStore Crc32 Persistence PersistenceFacts.

(** ** The second run, written without the first *)

(** A definition that [CREATE TABLE] accepted. *)
Definition accepted (t : TableDef.t) : Prop := ∃ spec, TableDef.init spec = Ok t.

(** A column that may not be null and has the default [NULL]. *)
Definition null_locked (c : ColumnDef.t) : bool :=
  negb (ColumnDef.nullable c) && match ColumnDef.default_value c with Some v => Value.is_null v | None => false end.

Definition reload (t : TableDef.t) : Result TableDef.t :=
  if bool_decide (NoDup (index_names (TableDef.indexes t)))
  then if existsb null_locked (TableDef.columns t) then Err TypeMismatch else Ok t
  else Err DuplicateObject.

(** ** Defaults that [CREATE TABLE] checked *)
Definition default_held (c : ColumnDef.t) : Prop :=
  match ColumnDef.default_value c with
  | None => True
  | Some v => Value.clone v = Ok v ∧ (Value.is_null v = true ∨ ColumnType.acceptsValue (ColumnDef.column_type c) v = Ok ())
  end.

Lemma init_default_held spec c : ColumnDef.init spec = Ok c → default_held c.
Proof.
  unfold ColumnDef.init, ColumnDef.init_default, default_held. intros H. apply bind_ok_inv in H as (? & _ & H).
  apply bind_ok_inv in H as (dv & Hd & [= <-]). simpl. destruct (ColumnSpec.default_value spec) as [v|]; [|by injection Hd as <-].
  apply bind_ok_inv in Hd as ([] & Hv & Hd). apply bind_ok_inv in Hd as (w & Hw & [= <-]).
  pose proof Hw as ->%Value.clone_id. split; [done|]. destruct (Value.is_null v); [by left|by right].
Qed.

Lemma mark_primary_held specs cs n cs' :
  TableDef.mark_primary specs cs n = Ok cs' → Forall default_held cs → Forall default_held cs'.
Proof.
  unfold TableDef.mark_primary. intros H Hc. inv_ok. apply Forall_lookup. intros k c. rewrite list_lookup_alter.
  rewrite Forall_lookup in Hc. case_decide; [|by apply Hc]. intros (d & Hd & ->)%fmap_Some. by apply (Hc _ _ Hd).
Qed.

Lemma init_index_held specs st i st' :
  TableDef.init_index specs st i = Ok st' → Forall default_held st.1 → Forall default_held st'.1.
Proof.
  destruct st as [cs ixs]. unfold TableDef.init_index. intros H Hc. inv_ok. simpl in *.
  destruct (is_primary _); inv_ok; [|done].
  eapply (foldM_invariant (Forall default_held) (TableDef.mark_primary specs)); [|exact Hc|exact Ha0].
  intros st1 x st2 _ Hs Hm. by eapply mark_primary_held.
Qed.

Lemma accepted_held t : accepted t → Forall default_held (TableDef.columns t).
Proof.
  intros [spec H]. unfold TableDef.init in H. inv_ok. simpl.
  eapply (foldM_invariant (λ st, Forall default_held st.1) (TableDef.init_index _)); [| |exact Ha2].
  - intros st1 x st2 _ Hs Hm. by eapply init_index_held.
  - simpl. apply mapR_ok_inv in Ha1. eapply Forall2_Forall_r; [exact Ha1|]. apply Forall_true.
    intros sp c Hc. by eapply init_default_held.
Qed.

Lemma accepted_core t : accepted t → table_core t.
Proof. intros [spec H]. by eapply tableDef_init_core. Qed.

Lemma default_ok_held c : default_held c → default_ok c ↔ null_locked c = false.
Proof.
  unfold default_held, default_ok, null_locked. destruct (ColumnDef.default_value c) as [v|]; [|by rewrite andb_false_r].
  intros [Hc Hv]. destruct (Value.is_null v), (ColumnDef.nullable c); naive_solver.
Qed.

(** ** Running [TableDef.init] again *)
Lemma columns_again cs :
  Forall column_core cs → Forall default_held cs →
  mapR ColumnDef.init (column_spec_of <$> cs) = if existsb null_locked cs then Err TypeMismatch else Ok cs.
Proof.
  intros Hc Hd. induction cs as [|c cs IH]; [done|]. apply Forall_cons in Hc as [Hc Hcs], Hd as [Hd Hds].
  rewrite fmap_cons. cbn [mapR existsb]. destruct (null_locked c) eqn:E; cbn [orb].
  - unfold null_locked in E. apply andb_true_iff in E as [En Ev]. unfold ColumnDef.init, ColumnDef.init_default.
    cbn [column_spec_of ColumnSpec.column_type ColumnSpec.default_value]. rewrite (proj1 Hc). cbn [mbind result_bind].
    destruct (ColumnDef.default_value c) as [v|]; [|done]. rewrite Ev. unfold effectiveNullable.
    cbn [column_spec_of ColumnSpec.nullable]. by destruct (ColumnDef.nullable c).
  - rewrite columnDef_init_spec_of by (done || by apply default_ok_held). cbn [mbind result_bind].
    rewrite IH by done. by destruct (existsb null_locked cs).
Qed.

(** Over known columns and with one primary index at most, only a repeated name is refused. *)
Lemma validateIndexes_duplicate specs pc prev ixs :
  Forall (spec_index_ok specs) ixs → (pc + primaries (IndexSpec.kind <$> ixs) ≤ 1)%nat →
  validateIndexesFrom specs pc prev ixs = Ok () ∨ validateIndexesFrom specs pc prev ixs = Err DuplicateObject.
Proof.
  intros H. revert pc prev. induction H as [|i ixs Hi _ IH]; intros pc prev Hp; [by left|].
  rewrite fmap_cons, primaries_cons in Hp. cbn [validateIndexesFrom].
  rewrite bool_decide_eq_false_2 by lia. cbn [fail_if mbind result_bind].
  apply existsb_unknown_false in Hi. rewrite Hi. cbn [fail_if mbind result_bind].
  destruct (IndexSpec.name i) as [n|]; [destruct (existsb _ prev); [by right|]|]; cbn [fail_if mbind result_bind];
    apply IH; lia.
Qed.

Lemma cloneTableDef_reload t : accepted t → cloneTableDef t = reload t.
Proof.
  intros Ha. pose proof (accepted_core t Ha) as Hcore. pose proof (accepted_held t Ha) as Hheld. unfold reload.
  case_bool_decide as Hnd.
  - destruct (existsb null_locked (TableDef.columns t)) eqn:E.
    + unfold cloneTableDef, TableDef.init. cbn [table_spec_of TableSpec.columns TableSpec.indexes].
      rewrite spec_of_validateColumns, spec_of_validateIndexes by done. cbn [mbind result_bind].
      rewrite columns_again, E by (done || apply Hcore). done.
    + apply cloneTableDef_wf. split; [done| |done]. rewrite existsb_false in E. apply Forall_forall. intros c Hc.
      rewrite Forall_forall in Hheld. by apply default_ok_held; [apply Hheld|apply E].
  - unfold cloneTableDef, TableDef.init. cbn [table_spec_of TableSpec.columns TableSpec.indexes].
    rewrite spec_of_validateColumns by done. cbn [mbind result_bind].
    destruct (spec_of_indexes t Hcore) as [Hix Hpr].
    destruct (validateIndexes_duplicate _ 0 [] _ Hix Hpr) as [H|H]; unfold validateIndexes; [|by rewrite H].
    apply (validateIndexesFrom_ok _ 0 []) in H as (_ & Hn & _); [|lia]. by rewrite given_names_spec_of in Hn.
Qed.

Lemma reload_wf t : accepted t → reload t = Ok t ↔ table_wf t.
Proof.
  intros Ha. rewrite <-cloneTableDef_reload by done. split; [|by apply cloneTableDef_wf].
  rewrite cloneTableDef_reload by done. unfold reload. case_bool_decide as Hnd; [|done].
  destruct (existsb null_locked _) eqn:E; [done|]. intros _. split; [by apply accepted_core| |done].
  pose proof (accepted_held t Ha) as Hheld. rewrite existsb_false in E. apply Forall_forall. intros c Hc.
  rewrite Forall_forall in Hheld. by apply default_ok_held; [apply Hheld|apply E].
Qed.

(** ** Refused bytes

    [refuses r e err]: wherever the bytes [e] stand in a slice, [r] at their start fails with [err]. *)
Definition refuses {A} (r : Cursor.t → Result (A * Cursor.t)) (e : bytes) (err : Error) : Prop :=
  ∀ pre rest, r (Cursor.mk (pre ++ e ++ rest) (length pre)) = Err err.

Lemma refuses_err {A} err : refuses (λ c, @Err (A * Cursor.t) err) [] err.
Proof. by intros pre rest. Qed.

Lemma refuses_bind {A B} (r : Cursor.t → Result (A * Cursor.t)) (k : A → Cursor.t → Result (B * Cursor.t)) e1 e2 x err :
  reads r e1 x → refuses (k x) e2 err → refuses (λ c, '(a, c') ← r c; k a c') (e1 ++ e2) err.
Proof.
  intros H1 H2 pre rest. rewrite <-app_assoc, (H1 pre (e2 ++ rest)). simpl.
  specialize (H2 (pre ++ e1) rest). rewrite <-!app_assoc, !length_app in H2. exact H2.
Qed.

Lemma refuses_stop {A B} (r : Cursor.t → Result (A * Cursor.t)) (k : A → Cursor.t → Result (B * Cursor.t)) e err :
  refuses r e err → refuses (λ c, '(a, c') ← r c; k a c') e err.
Proof. intros H pre rest. by rewrite H. Qed.

Lemma refuses_more {A} (r : Cursor.t → Result (A * Cursor.t)) e e' err : refuses r e err → refuses r (e ++ e') err.
Proof. intros H pre rest. rewrite <-app_assoc. apply H. Qed.

Ltac skip_field H := eapply (refuses_bind _ _ _ _ _ _ H); cbn beta iota.

(** Appending only appends. *)
Definition appends {A} (append : bytes → A → Result bytes) (valid : A → Prop) : Prop :=
  ∀ buf x buf', valid x → append buf x = Ok buf' → ∃ e, buf' = buf ++ e.

Lemma appends_fold {A} (append : bytes → A → Result bytes) valid :
  appends append valid → appends (foldM append) (Forall valid).
Proof.
  intros Ha buf xs buf' Hv. revert buf. induction Hv as [|x xs Hx _ IH]; intros buf H; cbn [foldM] in H.
  - injection H as <-. exists []. by rewrite app_nil_r.
  - apply bind_ok_inv in H as (b & Hb & H). destruct (Ha _ _ _ Hx Hb) as [e1 ->], (IH _ H) as [e2 ->].
    exists (e1 ++ e2). by rewrite app_assoc.
Qed.

Lemma appends_codec {A B} append (decode : Cursor.t → Result (B * Cursor.t)) valid (image : A → B)
    `{!Codec append decode valid image} : appends append valid.
Proof. intros buf x buf' Hx H. destruct (codec_law buf x buf' Hx H) as (e & -> & _). by exists e. Qed.

Lemma appends_row : appends appendRow row_valid.
Proof.
  intros buf r buf' [_ Hv] H. unfold appendRow in H. apply bind_ok_inv in H as (b & Hb & H).
  apply appendCount_ok in Hb as [_ ->].
  apply (appends_fold appendValue Value.wf (appends_codec _ _ _ _)) in H as [e ->]; [|done].
  rewrite appendU64_le, <-!app_assoc. by eexists.
Qed.

Lemma appends_object : appends appendObject (λ _, True).
Proof.
  intros buf o buf' _ H. unfold appendObject in H. apply bind_ok_inv in H as (b & H1 & H2).
  apply bytes_reads in H1 as (e1 & -> & _), H2 as (e2 & -> & _). rewrite <-app_assoc. by eexists.
Qed.

(** A table whose definition is not accepted again stops the decoder, whatever it already holds. *)
Lemma table_refuses buf entry buf' s err :
  entry_valid entry → appendTable buf entry = Ok buf' →
  DatabaseCatalog.createTable (DatabaseSnapshot.catalog s) (table_spec_of entry.1) = Err err →
  ∃ e, buf' = buf ++ e ∧ refuses (λ c, decodeTable c s) e err.
Proof.
  destruct entry as [t st]. intros (Hc & Hn & Hr) H Hs. unfold appendTable in H. cbn [fst snd] in *.
  apply bind_ok_inv in H as (b1 & H1 & H). apply bytes_reads in H1 as (e1 & -> & H1).
  apply bind_ok_inv in H as (b2 & H2 & H). apply appendCount_length in H2 as [-> H2].
  apply bind_ok_inv in H as (b3 & H3 & H).
  apply (codec_list appendColumn decodeColumnSpec column_valid column_spec_of) in H3 as (e3 & -> & H3); [|done].
  apply bind_ok_inv in H as (b4 & H4 & H). apply appendCount_length in H4 as [-> H4].
  apply bind_ok_inv in H as (b5 & H5 & H).
  apply (codec_list appendIndex decodeIndexSpec (λ _, True) index_spec_of) in H5 as (e5 & -> & H5); [|by apply Forall_true].
  apply bind_ok_inv in H as (b6 & H6 & H). apply appendCount_ok in H6 as [_ ->].
  apply (appends_fold appendRow row_valid appends_row) in H as [e7 ->]; [|done].
  rewrite appendU64_le, <-!app_assoc. eexists. split; [reflexivity|].
  unfold decodeTable. skip_field H1. skip_field H2. rewrite Nat2Z.id. skip_field H3. skip_field H4.
  rewrite Nat2Z.id. skip_field H5. unfold table_spec_of in Hs. rewrite Hs. cbn [mbind result_bind].
  apply (refuses_more _ []), refuses_err.
Qed.

Lemma appends_table : appends appendTable entry_valid.
Proof.
  intros buf [t st] buf' Hv H.
  destruct (table_refuses buf (t, st) buf' (DatabaseSnapshot.mk (DatabaseCatalog.mk [t] [] []) []) DuplicateObject Hv H)
    as (e & -> & _); [|by exists e].
  unfold DatabaseCatalog.createTable, DatabaseCatalog.findTableIndex, namesEqual. simpl. by rewrite eqlIgnoreCase_refl.
Qed.

(** Loops of reads, cut in two. *)
Lemma read_fold_refuses {S} (read : Cursor.t → S → Result (S * Cursor.t)) n k s s' e1 e2 err :
  reads (λ c, read_fold read n c s) e1 s' → refuses (λ c, read c s') e2 err →
  refuses (λ c, read_fold read (n + Datatypes.S k) c s) (e1 ++ e2) err.
Proof.
  intros H1 H2 pre rest. rewrite <-app_assoc.
  assert (Happ : ∀ m c s, read_fold read (m + Datatypes.S k) c s =
    '(s, c) ← read_fold read m c s; read_fold read (Datatypes.S k) c s).
  { induction m as [|m IH]; intros c z; [done|]. cbn [read_fold Nat.add].
    destruct (read c z) as [[z' c']| |]; cbn [mbind result_bind]; [apply IH|done..]. }
  rewrite Happ, (H1 pre (e2 ++ rest)). cbn [mbind result_bind read_fold].
  specialize (H2 (pre ++ e1) rest). rewrite <-!app_assoc, !length_app in H2. by rewrite H2.
Qed.

(** ** Snapshot files *)

(** A table as [CREATE TABLE] and the data statements leave it, with its store. *)
Definition entry_held (t : TableDef.t) (st : RowStore.t) : Prop :=
  accepted t ∧ store_wf st ∧ RowStore.table st = t ∧
  Forall column_valid (TableDef.columns t) ∧ Forall (λ r, Forall Value.wf (Row.values r)) (RowStore.rows_list st).

Record snapshot_held (s : DatabaseSnapshot.t) : Prop := {
  held_names : catalog_inv (DatabaseSnapshot.catalog s);
  held_entries : Forall2 entry_held (DatabaseCatalog.tables (DatabaseSnapshot.catalog s)) (DatabaseSnapshot.stores s) }.

Lemma entry_held_valid t st : entry_held t st → entry_valid (t, st).
Proof. intros (_ & Hs & _ & Hc & Hr). by apply store_entry_valid. Qed.

Lemma entry_held_wf t st : entry_held t st → reload t = Ok t → entry_wf t st.
Proof. intros (Ha & Hrest) Hr. split; [by apply reload_wf|done]. Qed.

Lemma createTable_refused c t err :
  reload t = Err err → accepted t → lower (TableDef.name t) ∉ (entries c).*1 →
  DatabaseCatalog.createTable c (table_spec_of t) = Err err.
Proof.
  intros Hr Ha (Hf & Hv & Hp)%fresh_finds. rewrite <-cloneTableDef_reload in Hr by done.
  unfold DatabaseCatalog.createTable, DatabaseCatalog.nameUsedOutsideTables.
  cbn [table_spec_of TableSpec.name]. rewrite Hf, Hv, Hp. simpl. unfold cloneTableDef in Hr. by rewrite Hr.
Qed.

(** The tables up to the first one that is not accepted again. *)
Lemma reload_split ts :
  (Forall (λ t, reload t = Ok t) ts ∧ mapR reload ts = Ok ts) ∨
  ∃ pre t post err, ts = pre ++ t :: post ∧ Forall (λ t, reload t = Ok t) pre ∧ reload t = Err err ∧ mapR reload ts = Err err.
Proof.
  induction ts as [|t ts IH]; [by left|]. cbn [mapR].
  assert (Ht : reload t = Ok t ∨ ∃ err, reload t = Err err).
  { unfold reload. repeat case_match; eauto. }
  destruct Ht as [Ht|[err Ht]]; rewrite Ht; cbn [mbind result_bind].
  - destruct IH as [[Hts ->]|(pre & t' & post & err & -> & Hpre & Ht' & ->)]; [left; by split; [constructor|]|right].
    exists (t :: pre), t', post, err. split_and!; [done|by constructor|done|done].
  - right. by exists [], t, ts, err.
Qed.

Lemma payload_refuses s payload pre t post err :
  snapshot_held s → encodePayload s = Ok payload →
  DatabaseCatalog.tables (DatabaseSnapshot.catalog s) = pre ++ t :: post →
  Forall (λ t, reload t = Ok t) pre → reload t = Err err → refuses decodePayload payload err.
Proof.
  destruct s as [[ts vs ps] sts]. intros [Hnd Hen] H Hts Hpre Ht. unfold encodePayload in H. simpl in Hnd, Hen, H, Hts. subst ts.
  apply bind_ok_inv in H as (u & _ & H). apply bind_ok_inv in H as (b1 & H1 & H).
  apply appendCount_length in H1 as [-> H1]. apply bind_ok_inv in H as (b2 & H2 & H).
  apply bind_ok_inv in H as (b3 & H3 & H). apply appendCount_ok in H3 as [_ ->].
  apply bind_ok_inv in H as (b4 & H4 & H). apply bind_ok_inv in H as (b5 & H5 & H6).
  apply appendCount_ok in H5 as [_ ->].
  apply (appends_fold appendObject (λ _, True) appends_object) in H4 as [e4 ->], H6 as [e6 ->]; [|by apply Forall_true..].
  apply Forall2_app_inv_l in Hen as (spre & sts' & Hpres & Hrest & ->).
  apply Forall2_cons_inv_l in Hrest as (st & spost & Hst & Hposts & ->).
  assert (Hlen : length pre = length spre) by by eapply Forall2_length.
  rewrite zip_with_app in H2 by done. rewrite foldM_app in H2. apply bind_ok_inv in H2 as (b & Hb & H2).
  cbn [zip_with foldM] in H2. apply bind_ok_inv in H2 as (b' & Hb' & H2).
  assert (Hvalid : ∀ l k, Forall2 entry_held l k → Forall entry_valid (zip l k)).
  { clear. induction 1 as [|x y l k Hxy _ IH]; constructor; [by apply entry_held_valid|done]. }
  pose proof (load_tables_ok pre spre [] []) as R2.
  assert (Hwf : Forall2 entry_wf pre spre).
  { clear -Hpres Hpre. induction Hpres; [constructor|]. apply Forall_cons in Hpre as [? ?].
    constructor; [by apply entry_held_wf|auto]. }
  unfold catalog_inv, entries in Hnd. simpl in Hnd. rewrite !fmap_app, !fmap_cons, <-!app_assoc in Hnd.
  specialize (R2 Hwf ltac:(constructor) ltac:(by apply NoDup_app in Hnd as [? _])).
  apply (codec_fold appendTable decodeTable load_table entry_valid _ _ _ _ _ table_reads (Hvalid _ _ Hpres) Hb) in R2 as (e2 & -> & R2).
  eapply (table_refuses _ (t, st) _ (DatabaseSnapshot.mk (DatabaseCatalog.mk pre [] []) spre)) in Hb' as (e & -> & Re);
    [|by apply entry_held_valid|apply createTable_refused; [exact Ht|apply Hst|]].
  2: { unfold entries. simpl. rewrite app_nil_r. apply NoDup_app in Hnd as (_ & Hd & _). intros Hin.
       apply (Hd _ Hin). apply list_elem_of_here. }
  apply (appends_fold appendTable entry_valid appends_table) in H2 as [e' ->]; [|by apply Hvalid].
  rewrite <-!app_assoc, app_nil_l. unfold decodePayload. skip_field H1. rewrite Nat2Z.id, length_app. cbn [length].
  rewrite length_zip_with, <-Hlen, Nat.min_id in R2. rewrite (app_assoc e2). apply refuses_more, refuses_stop.
  by eapply read_fold_refuses.
Qed.

Lemma snapshot_refused s data pre t post err :
  snapshot_held s → encodeSnapshot s = Ok data →
  DatabaseCatalog.tables (DatabaseSnapshot.catalog s) = pre ++ t :: post →
  Forall (λ t, reload t = Ok t) pre → reload t = Err err → decodeSnapshot data = Err err.
Proof.
  intros Hs (payload & Hp & Hl & ->)%encode_shape Hts Hpre Ht. rewrite decode_envelope by done.
  rewrite bool_decide_eq_true_2 by done. rewrite num64_le64 by done.
  rewrite (num32_le32 current_version) by (by unfold is_u32).
  rewrite (num32_le32 (crc32 payload)) by apply crc32_u32. rewrite !Z.eqb_refl. cbn [negb].
  pose proof (payload_refuses s payload pre t post err Hs Hp Hts Hpre Ht [] []) as Hr. cbn [app length] in Hr.
  rewrite app_nil_r in Hr. unfold Cursor.init. by rewrite Hr.
Qed.

(** C32: a snapshot file written from tables that [CREATE TABLE] accepted decodes to the snapshot exactly when every one of its
    definitions has index names that differ (up to case, generated names included) and no column that may not be null with the
    default [NULL].  Otherwise the first definition without these decides: decoding the written file fails with [DuplicateObject]
    for repeated index names, and else with [TypeMismatch].  The hypothesis is on the snapshot: its tables were accepted, its names
    are distinct and its rows fit their tables. *)
Theorem written_file_reloads (s : DatabaseSnapshot.t) (data : bytes) :
  snapshot_held s → encodeSnapshot s = Ok data →
  decodeSnapshot data = (_ ← mapR reload (DatabaseCatalog.tables (DatabaseSnapshot.catalog s)); Ok s).
Proof.
  intros Hs He. destruct (reload_split (DatabaseCatalog.tables (DatabaseSnapshot.catalog s)))
    as [[Hok ->]|(pre & t & post & err & Hts & Hpre & Ht & ->)].
  - cbn [mbind result_bind]. apply snapshot_decodes; [|done]. destruct Hs as [Hn Hen]. split; [done|].
    clear He Hn. induction Hen; [constructor|]. apply Forall_cons in Hok as [? ?]. constructor; [by apply entry_held_wf|auto].
  - cbn [mbind result_bind]. by eapply snapshot_refused.
Qed.

(** A good table, then one with two unnamed indexes starting on its first column, then one with a nullable [DEFAULT NULL] column
    that a table-level primary index locks. *)
Definition mixed_snapshot (specs : list TableSpec.t) : DatabaseSnapshot.t :=
  match foldM DatabaseCatalog.createTable DatabaseCatalog.init specs with
  | Ok c => DatabaseSnapshot.mk c (RowStore.init <$> DatabaseCatalog.tables c)
  | _ => DatabaseSnapshot.init
  end.

Lemma mixed_held specs c :
  foldM DatabaseCatalog.createTable DatabaseCatalog.init specs = Ok c → catalog_inv c →
  Forall (λ t, Forall column_valid (TableDef.columns t)) (DatabaseCatalog.tables c) → snapshot_held (mixed_snapshot specs).
Proof.
  unfold mixed_snapshot. intros H Hn Hc. rewrite H. split; [done|]. simpl.
  assert (Ha : Forall accepted (DatabaseCatalog.tables c)).
  { eapply (foldM_invariant (λ c, Forall accepted (DatabaseCatalog.tables c)) DatabaseCatalog.createTable); [| |exact H]; [|by constructor].
    intros c1 spec c2 _ Hc1 Hs. unfold DatabaseCatalog.createTable in Hs. inv_ok. apply Forall_app. split; [done|].
    constructor; [by eexists|constructor]. }
  clear H Hn. induction (DatabaseCatalog.tables c) as [|t ts IH]; [constructor|].
  apply Forall_cons in Hc as [? ?], Ha as [? ?]. constructor; [|auto].
  split_and!; [done|apply store_init_wf|done|done|constructor].
Qed.

Definition mixed_specs : list TableSpec.t := [sample_spec; null_default_key_spec (B "locked"); twin_index_spec (B "twins")].

Lemma mixed_specs_held : Forall (λ specs, snapshot_held (mixed_snapshot specs)) [mixed_specs; rev mixed_specs; [sample_spec]].
Proof.
  repeat apply Forall_cons_2; [..|apply Forall_nil_2].
  all: eapply mixed_held; [vm_compute; reflexivity|apply (bool_decide_eq_true_1 _); vm_compute; reflexivity|].
  all: repeat constructor; vm_compute; congruence.
Qed.

Lemma written_file_reloads_witness :
  (∃ data, encodeSnapshot (mixed_snapshot mixed_specs) = Ok data ∧ decodeSnapshot data = Err TypeMismatch) ∧
  (∃ data, encodeSnapshot (mixed_snapshot (rev mixed_specs)) = Ok data ∧ decodeSnapshot data = Err DuplicateObject) ∧
  ∃ data, encodeSnapshot (mixed_snapshot [sample_spec]) = Ok data ∧ decodeSnapshot data = Ok (mixed_snapshot [sample_spec]).
Proof.
  pose proof mixed_specs_held as [H1 [H2 [H3 _]%Forall_cons]%Forall_cons]%Forall_cons.
  split_and!; eexists; (split; [vm_compute; reflexivity|]).
  - rewrite (written_file_reloads (mixed_snapshot mixed_specs)); [vm_compute; reflexivity|done|vm_compute; reflexivity].
  - rewrite (written_file_reloads (mixed_snapshot (rev mixed_specs))); [vm_compute; reflexivity|done|vm_compute; reflexivity].
  - rewrite (written_file_reloads (mixed_snapshot [sample_spec])); [vm_compute; reflexivity|done|vm_compute; reflexivity].
Defined.
