(* ===== verification/Storage.v ===== *)
(** * Snapshot files on disk

    Models [writeSnapshot] and [readSnapshot] of [src/src/db/persistence.zig] over a directory
    with fault injection: every file-system call may fail with any error, and a failing write may leave any
    prefix behind.  The calls that took effect are logged, and the log says what a crash can leave on the disk: the
    operating system writes the operations on names (create, rename, delete) to the disk in their order but at a time of
    its own, and the content of a file is only sure to be there once [sync] has returned; until then a crash may leave
    anything of it. *)

From stdpp Require Import gmap.
From S2P Require Import Prelude Value Catalog CatalogFacts TableFacts RowStore Persistence PersistenceFacts.

Abbreviation Dir := (gmap bytes bytes).

(** ** Effects: the directory as the program sees it, and the log of what was done to it *)
Inductive action :=
  | Deleted (path : bytes)
  | Created (path : bytes)
  | Wrote (path data : bytes)
  | Synced (path : bytes)
  | Renamed (old_path new_path : bytes).

Record world := World { dir : Dir; log : list action }.

Definition IO (A : Type) : Type := world → Result A * world.

Definition io_ret {A} (a : A) : IO A := λ w, (Ok a, w).
Definition io_lift {A} (r : Result A) : IO A := λ w, (r, w).
Definition io_bind {A B} (m : IO A) (k : A → IO B) : IO B := λ w,
  match m w with
  | (Ok a, w') => k a w'
  | (Err e, w') => (Err e, w')
  | (Panic, w') => (Panic, w')
  end.

(** [m catch |err| handler(err)] *)
Definition io_catch {A} (m : IO A) (handler : Error → IO A) : IO A := λ w,
  match m w with (Err e, w') => handler e w' | r => r end.

(** [errdefer cleanup;] around the rest of the function: the cleanup's own error is dropped. *)
Definition io_errdefer {A} (cleanup : IO ()) (m : IO A) : IO A := λ w,
  match m w with
  | (Err e, w') => (Err e, (cleanup w').2)
  | r => r
  end.

Declare Scope io_scope.
Delimit Scope io_scope with io.
Notation "x <- m ;; k" := (io_bind m (λ x, k)) (at level 100, m at next level, right associativity) : io_scope.

(** One file-system call: fails as the fault says, or changes the directory and is logged. *)
Definition syscall (fault : option Error) (a : action) (f : Dir → Result Dir) : IO () := λ w,
  match fault with
  | Some e => (Err e, w)
  | None => match f (dir w) with
            | Ok d => (Ok (), World d (log w ++ [a]))
            | Err e => (Err e, w)
            | Panic => (Panic, w)
            end
  end.

Definition deleteFile (fault : option Error) (path : bytes) : IO () :=
  syscall fault (Deleted path) (λ d, match d !! path with Some _ => Ok (base.delete path d) | None => Err FileNotFound end).

(** [createFile(..., .{ .truncate = true })] *)
Definition createFile (fault : option Error) (path : bytes) : IO () :=
  syscall fault (Created path) (λ d, Ok (<[path := []]> d)).

(** [writeStreamingAll]: a failing write leaves the first [n] bytes in the file. *)
Definition writeStreamingAll (fault : option (nat * Error)) (path data : bytes) : IO () := λ w,
  match fault with
  | Some (n, e) => (Err e, World (<[path := take n data]> (dir w)) (log w ++ [Wrote path (take n data)]))
  | None => (Ok (), World (<[path := data]> (dir w)) (log w ++ [Wrote path data]))
  end.

(** [file.sync(io)] on the open file at [path]: the program sees no difference. *)
Definition sync (fault : option Error) (path : bytes) : IO () := syscall fault (Synced path) Ok.

Definition rename (fault : option Error) (old_path new_path : bytes) : IO () :=
  syscall fault (Renamed old_path new_path)
    (λ d, match d !! old_path with
          | Some data => Ok (<[new_path := data]> (base.delete old_path d))
          | None => Err FileNotFound
          end).

(** [readFileAlloc(..., .limited(limit))] fails once [limit] bytes have been read. *)
Definition readFileAlloc (fault : option Error) (path : bytes) (limit : Z) : IO bytes := λ w,
  match fault with
  | Some e => (Err e, w)
  | None => match dir w !! path with
            | None => (Err FileNotFound, w)
            | Some data => if limit <=? Z.of_nat (length data) then (Err StreamTooLong, w) else (Ok data, w)
            end
  end.

(** The faults of one [writeSnapshot]: one slot per call. *)
Record faults := Faults {
  f_delete : option Error; f_create : option Error; f_write : option (nat * Error);
  f_sync : option Error; f_rename : option Error; f_cleanup : option Error }.

Definition no_faults : faults := Faults None None None None None None.

Definition tmp_path (path : bytes) : bytes := path ++ B ".tmp".

Local Open Scope io_scope.

Definition writeSnapshot (f : faults) (path : bytes) (snapshot : DatabaseSnapshot.t) : IO () :=
  data <- io_lift (encodeSnapshot snapshot);;
  _ <- io_catch (deleteFile (f_delete f) (tmp_path path))
         (λ e, if decide (e = FileNotFound) then io_ret () else io_lift (Err e));;
  _ <- createFile (f_create f) (tmp_path path);;
  io_errdefer (deleteFile (f_cleanup f) (tmp_path path))
    (_ <- writeStreamingAll (f_write f) (tmp_path path) data;;
     _ <- sync (f_sync f) (tmp_path path);;
     rename (f_rename f) (tmp_path path) path).

Definition readSnapshot (fault : option Error) (path : bytes) : IO DatabaseSnapshot.t :=
  data <- readFileAlloc fault path max_snapshot_bytes;;
  io_lift (decodeSnapshot data).

Local Close Scope io_scope.

(** ** The disk under the directory

    [names] holds what was last written under each name, [unsynced] the names whose content need not be on the disk yet. *)
Record disk := Disk { names : Dir; unsynced : gset bytes }.

Definition act (a : action) (k : disk) : disk :=
  match a with
  | Deleted p => Disk (base.delete p (names k)) (unsynced k ∖ {[p]})
  | Created p => Disk (<[p := []]> (names k)) ({[p]} ∪ unsynced k)
  | Wrote p data => Disk (<[p := data]> (names k)) ({[p]} ∪ unsynced k)
  | Synced p => Disk (names k) (unsynced k ∖ {[p]})
  | Renamed p q =>
      Disk (match names k !! p with Some data => <[q := data]> (base.delete p (names k)) | None => names k end)
           (if decide (p ∈ unsynced k) then {[q]} ∪ (unsynced k ∖ {[p]}) else unsynced k ∖ {[p; q]})
  end.

(** The disk after each of the logged calls, the first one included. *)
Fixpoint states (k : disk) (l : list action) : list disk :=
  k :: match l with [] => [] | a :: l' => states (act a k) l' end.

Definition replay (k : disk) (l : list action) : disk := foldl (λ k a, act a k) k l.

(** What is found after a crash: the names as some prefix of the calls left them, a synced file with its content, any other file
    with anything or not at all. *)
Definition survives (k : disk) (c : Dir) : Prop := ∀ q, q ∉ unsynced k → c !! q = names k !! q.

Definition crash (k : disk) (l : list action) (c : Dir) : Prop := ∃ k', k' ∈ states k l ∧ survives k' c.

(** ** Atomic replacement *)

Lemma tmp_path_ne path : tmp_path path ≠ path.
Proof. intros H%(f_equal length). unfold tmp_path in H. rewrite length_app in H. simpl in H. lia. Qed.

Lemma states_app k l a : states k (l ++ [a]) = states k l ++ [act a (replay k l)].
Proof. revert k. induction l as [|b l IH]; intros k; [done|]. cbn [app states replay foldl]. by rewrite IH. Qed.

Lemma replay_app k l a : replay k (l ++ [a]) = act a (replay k l).
Proof. unfold replay. by rewrite foldl_app. Qed.

Section replacement.
Context (k0 : disk) (path data : bytes).

(** A disk on which the file at [path] is the old one or the new one, as a whole, and every other file but the temporary one is
    as before. *)
Record intact (k : disk) : Prop := {
  in_others q : q ≠ path → q ≠ tmp_path path → names k !! q = names k0 !! q ∧ (q ∈ unsynced k → q ∈ unsynced k0);
  in_synced : path ∉ unsynced k;
  in_content : names k !! path = names k0 !! path ∨ names k !! path = Some data;
}.

(** The actions that concern the temporary file only. *)
Definition on_tmp (a : action) : Prop :=
  match a with Deleted p | Created p | Wrote p _ | Synced p => p = tmp_path path | Renamed _ _ => False end.

Lemma intact_tmp a k : on_tmp a → intact k → intact (act a k) ∧ names (act a k) !! path = names k !! path.
Proof.
  pose proof (tmp_path_ne path) as Hne. intros Ha [Ho Hs Hc].
  assert (Hp : names (act a k) !! path = names k !! path).
  { destruct a; try done; cbn in *; subst; rewrite ?lookup_insert_ne, ?lookup_delete_ne by done; done. }
  split; [|done]. split.
  - intros q Hq Ht. destruct (Ho q Hq Ht) as [H1 H2].
    destruct a; try done; cbn in *; subst; rewrite ?lookup_insert_ne, ?lookup_delete_ne by done; (split; [done|]); set_solver.
  - destruct a; try done; cbn in *; subst; set_solver.
  - by rewrite Hp.
Qed.

(** The rename puts the new file in place, provided that its content is on the disk. *)
Lemma intact_rename k :
  intact k → names k !! tmp_path path = Some data → tmp_path path ∉ unsynced k →
  let k' := act (Renamed (tmp_path path) path) k in intact k' ∧ names k' !! path = Some data ∧ path ∉ unsynced k'.
Proof.
  pose proof (tmp_path_ne path) as Hne. intros [Ho Hs Hc] Hd Hu. cbv zeta. unfold act. rewrite Hd, decide_False by done. cbn.
  assert (Hp : <[path := data]> (base.delete (tmp_path path) (names k)) !! path = Some data) by apply lookup_insert_eq.
  split; [|split; [done|set_solver]]. split; cbn.
  - intros q Hq Ht. destruct (Ho q Hq Ht) as [H1 H2]. rewrite lookup_insert_ne, lookup_delete_ne by done. split; [done|]. set_solver.
  - set_solver.
  - by right.
Qed.

(** The program's view agrees with the log, and every state in the log is intact. *)
Record tracked (w : world) : Prop := {
  tr_dir : dir w = names (replay k0 (log w));
  tr_states : Forall intact (states k0 (log w));
  tr_now : intact (replay k0 (log w));
}.

Lemma tracked_step w a d :
  tracked w → d = names (act a (replay k0 (log w))) → intact (act a (replay k0 (log w))) → tracked (World d (log w ++ [a])).
Proof.
  intros [H1 H2 H3] Hd Hi. split; cbn; rewrite ?replay_app, ?states_app; [done| |done]. apply Forall_app. by split; [|constructor].
Qed.

Lemma tracked_tmp w a d :
  tracked w → on_tmp a → d = names (act a (replay k0 (log w))) →
  tracked (World d (log w ++ [a])) ∧ d !! path = dir w !! path.
Proof.
  intros Hw Ha Hd. destruct (intact_tmp a _ Ha (tr_now _ Hw)) as [Hi Hp]. split; [by apply tracked_step|].
  by rewrite Hd, Hp, (tr_dir _ Hw).
Qed.

(** The calls, on a tracked world. *)
Lemma run_delete f w :
  tracked w → ∃ r w', deleteFile f (tmp_path path) w = (r, w') ∧ tracked w' ∧ dir w' !! path = dir w !! path ∧ r ≠ Panic ∧
    (f = None → dir w' !! tmp_path path = None).
Proof.
  intros Hw. unfold deleteFile, syscall. destruct f as [e|]; [by exists (Err e), w|].
  destruct (dir w !! tmp_path path) as [x|] eqn:E; [|by exists (Err FileNotFound), w].
  destruct (tracked_tmp w (Deleted (tmp_path path)) (base.delete (tmp_path path) (dir w)) Hw eq_refl) as [H1 H2].
  { cbn. by rewrite (tr_dir _ Hw). }
  eexists _, _. split_and!; [done|done|done|done|]. intros _. apply lookup_delete_eq.
Qed.

Lemma run_create f w :
  tracked w → ∃ r w', createFile f (tmp_path path) w = (r, w') ∧ tracked w' ∧ dir w' !! path = dir w !! path ∧ r ≠ Panic.
Proof.
  intros Hw. unfold createFile, syscall. destruct f as [e|]; [by exists (Err e), w|].
  destruct (tracked_tmp w (Created (tmp_path path)) (<[tmp_path path := []]> (dir w)) Hw eq_refl) as [H1 H2].
  { cbn. by rewrite (tr_dir _ Hw). }
  by eexists _, _.
Qed.

Lemma run_write f w :
  tracked w → ∃ r w', writeStreamingAll f (tmp_path path) data w = (r, w') ∧ tracked w' ∧ dir w' !! path = dir w !! path ∧ r ≠ Panic ∧
    (r = Ok () → dir w' !! tmp_path path = Some data).
Proof.
  intros Hw. unfold writeStreamingAll.
  assert (H : ∀ x, tracked (World (<[tmp_path path := x]> (dir w)) (log w ++ [Wrote (tmp_path path) x])) ∧
                   <[tmp_path path := x]> (dir w) !! path = dir w !! path).
  { intros x. apply tracked_tmp; [done|done|]. cbn. by rewrite (tr_dir _ Hw). }
  destruct f as [[n e]|]; eexists _, _; (split; [done|]); (split; [apply H|]); (split; [apply H|]); (split; [done|]); [done|].
  intros _. apply lookup_insert_eq.
Qed.

Lemma run_sync f w :
  tracked w → ∃ r w', sync f (tmp_path path) w = (r, w') ∧ tracked w' ∧ dir w' = dir w ∧ r ≠ Panic ∧
    (r = Ok () → tmp_path path ∉ unsynced (replay k0 (log w'))).
Proof.
  intros Hw. unfold sync, syscall. destruct f as [e|]; [by exists (Err e), w|].
  destruct (tracked_tmp w (Synced (tmp_path path)) (dir w) Hw eq_refl (tr_dir _ Hw)) as [H1 _].
  eexists _, _. split_and!; [done|done|done|done|]. intros _. cbn. rewrite replay_app. cbn. set_solver.
Qed.

Lemma run_rename f w :
  tracked w → dir w !! tmp_path path = Some data → tmp_path path ∉ unsynced (replay k0 (log w)) →
  ∃ r w', rename f (tmp_path path) path w = (r, w') ∧ tracked w' ∧
    match r with
    | Ok _ => dir w' !! path = Some data ∧ dir w' !! tmp_path path = None ∧ path ∉ unsynced (replay k0 (log w'))
    | Err _ => w' = w
    | Panic => False
    end.
Proof.
  pose proof (tmp_path_ne path) as Hne. intros Hw Hd Hu. unfold rename, syscall. destruct f as [e|]; [by exists (Err e), w|]. rewrite Hd.
  rewrite (tr_dir _ Hw) in Hd. destruct (intact_rename _ (tr_now _ Hw) Hd Hu) as (Hi & Hp & Hup).
  eexists _, _. split; [done|]. split.
  - apply tracked_step; [done| |done]. unfold act. rewrite Hd. cbn. by rewrite (tr_dir _ Hw).
  - split_and!; cbn; [apply lookup_insert_eq| |by rewrite replay_app]. rewrite lookup_insert_ne by done. apply lookup_delete_eq.
Qed.

(** What the calls after [createFile] do, the cleanup included. *)
Lemma write_tail f w :
  tracked w →
  let '(r, w') := io_errdefer (deleteFile (f_cleanup f) (tmp_path path))
    (io_bind (writeStreamingAll (f_write f) (tmp_path path) data) (λ _,
     io_bind (sync (f_sync f) (tmp_path path)) (λ _, rename (f_rename f) (tmp_path path) path))) w in
  tracked w' ∧
  match r with
  | Ok _ => dir w' !! path = Some data ∧ dir w' !! tmp_path path = None ∧ path ∉ unsynced (replay k0 (log w'))
  | Err _ => dir w' !! path = dir w !! path ∧ (f_cleanup f = None → dir w' !! tmp_path path = None)
  | Panic => False
  end.
Proof.
  intros Hw. unfold io_errdefer.
  assert (Hclean : ∀ w1, tracked w1 → dir w1 !! path = dir w !! path →
            let w2 := (deleteFile (f_cleanup f) (tmp_path path) w1).2 in
            tracked w2 ∧ dir w2 !! path = dir w !! path ∧ (f_cleanup f = None → dir w2 !! tmp_path path = None)).
  { intros w1 Hw1 Hp. destruct (run_delete (f_cleanup f) w1 Hw1) as (r & w2 & E & H1 & H2 & _ & H3). rewrite E. cbn. by rewrite <-Hp. }
  cbv zeta in Hclean. unfold io_bind at 1. destruct (run_write (f_write f) w Hw) as (r1 & w1 & -> & Hw1 & Hp1 & Hn1 & Hd1).
  destruct r1 as [[]|e|]; [|by apply Hclean|done]. unfold io_bind.
  destruct (run_sync (f_sync f) w1 Hw1) as (r2 & w2 & -> & Hw2 & Hp2 & Hn2 & Hu2).
  destruct r2 as [[]|e|]; [|apply Hclean; [done|by rewrite Hp2]|done].
  destruct (run_rename (f_rename f) w2 Hw2) as (r3 & w3 & -> & Hw3 & H3); [by rewrite Hp2, Hd1|by apply Hu2|].
  destruct r3 as [[]|e|]; [done| |done]. apply Hclean; [done|]. by rewrite H3, Hp2.
Qed.
End replacement.

(** C4: writing a snapshot replaces the database file atomically: whatever file-system calls fail, the calls that took effect are
    such that a crash at any point, which may lose every content that was not synced before, finds at the path either its previous
    content or the complete new snapshot, and every other file but the temporary one as it was; when the call succeeds the new
    content is in place and synced and the temporary file is gone, and when it fails the old content is in place.  The rename is
    not synced, since the directory is not: a crash after the call may find the old content, though never a part of the new one. *)
Theorem writeSnapshot_atomic (f : faults) (path data : bytes) (snapshot : DatabaseSnapshot.t) (k0 : disk) :
  encodeSnapshot snapshot = Ok data → path ∉ unsynced k0 →
  let '(r, w) := writeSnapshot f path snapshot (World (names k0) []) in
  (∀ c, crash k0 (log w) c →
     (c !! path = names k0 !! path ∨ c !! path = Some data) ∧
     ∀ q, q ≠ path → q ≠ tmp_path path → q ∉ unsynced k0 → c !! q = names k0 !! q) ∧
  match r with
  | Ok _ => dir w !! path = Some data ∧ dir w !! tmp_path path = None ∧
            ∀ c, survives (replay k0 (log w)) c → c !! path = Some data
  | Err _ => dir w !! path = names k0 !! path
  | Panic => False
  end.
Proof.
  intros He Hk0. pose proof (tmp_path_ne path) as Hne.
  assert (H0 : tracked k0 path data (World (names k0) [])).
  { assert (Hi : intact k0 path data k0) by (split; [done|done|by left]). by split; [|constructor|]. }
  enough (H : let '(r, w) := writeSnapshot f path snapshot (World (names k0) []) in tracked k0 path data w ∧
              match r with
              | Ok _ => dir w !! path = Some data ∧ dir w !! tmp_path path = None ∧ path ∉ unsynced (replay k0 (log w))
              | Err _ => dir w !! path = names k0 !! path
              | Panic => False
              end).
  { destruct (writeSnapshot f path snapshot _) as [r w]. destruct H as [Hw Hr]. split.
    - intros c (k & Hk & Hc). pose proof (tr_states _ _ _ _ Hw) as Hs. rewrite Forall_forall in Hs. destruct (Hs k Hk) as [Ho Hp Hd].
      split; [by rewrite (Hc path Hp)|]. intros q Hq Ht Hu. destruct (Ho q Hq Ht) as [<- Hqu]. apply Hc. auto.
    - destruct r as [[]|e|]; [|done|done]. destruct Hr as (H1 & H2 & H3). split_and!; [done|done|].
      intros c Hc. by rewrite (Hc path H3), <-(tr_dir _ _ _ _ Hw). }
  unfold writeSnapshot, io_lift. unfold io_bind at 1. rewrite He. unfold io_bind at 1, io_catch.
  destruct (run_delete k0 path data (f_delete f) _ H0) as (r1 & w1 & -> & Hw1 & Hp1 & Hn1 & _). cbn [dir] in Hp1.
  assert (Hrest : let '(r, w) := io_bind (createFile (f_create f) (tmp_path path)) (λ _,
      io_errdefer (deleteFile (f_cleanup f) (tmp_path path))
        (io_bind (writeStreamingAll (f_write f) (tmp_path path) data) (λ _,
         io_bind (sync (f_sync f) (tmp_path path)) (λ _, rename (f_rename f) (tmp_path path) path)))) w1 in
      tracked k0 path data w ∧
      match r with
      | Ok _ => dir w !! path = Some data ∧ dir w !! tmp_path path = None ∧ path ∉ unsynced (replay k0 (log w))
      | Err _ => dir w !! path = names k0 !! path
      | Panic => False
      end).
  { unfold io_bind at 1. destruct (run_create k0 path data (f_create f) w1 Hw1) as (r2 & w2 & -> & Hw2 & Hp2 & Hn2).
    destruct r2 as [[]|e|]; [|by rewrite Hp2|done].
    pose proof (write_tail k0 path data f w2 Hw2) as Ht. destruct (io_errdefer _ _ w2) as [r w]. destruct Ht as [Ht1 Ht2].
    split; [done|]. destruct r as [[]|e|]; [done| |done]. destruct Ht2 as [-> _]. by rewrite Hp2. }
  destruct r1 as [[]|e|]; [exact Hrest| |done]. destruct (decide (e = FileNotFound)); [exact Hrest|]. by cbn.
Qed.

(** A disk with an old database file, and a write that fails after three bytes. *)
Lemma writeSnapshot_atomic_witness :
  let k0 := Disk {[B "db" := B "old"]} ∅ in
  let '(r, w) := writeSnapshot (Faults None None (Some (3%nat, NoSpaceLeft)) None None None) (B "db")
                   sample_snapshot (World (names k0) []) in
  r = Err NoSpaceLeft ∧ dir w !! B "db" = Some (B "old") ∧
  ∀ c, crash k0 (log w) c → c !! B "db" = Some (B "old") ∨ c !! B "db" = Some sample_data.
Proof.
  cbv zeta.
  pose proof (writeSnapshot_atomic (Faults None None (Some (3%nat, NoSpaceLeft)) None None None) (B "db")
    sample_data sample_snapshot (Disk {[B "db" := B "old"]} ∅) ltac:(vm_compute; reflexivity) (not_elem_of_empty _)) as H.
  destruct (writeSnapshot _ _ _ _) as [r w] eqn:E.
  assert (Hr : r = Err NoSpaceLeft) by (apply (f_equal fst) in E; vm_compute in E; by rewrite <-E).
  split; [exact Hr|]. destruct H as [Hc Hd]. rewrite Hr in Hd. split; [exact Hd|]. intros c Hcr. exact (proj1 (Hc c Hcr)).
Defined.

Lemma writeSnapshot_ok path data snapshot w :
  encodeSnapshot snapshot = Ok data →
  ∃ w', writeSnapshot no_faults path snapshot w = (Ok (), w') ∧ dir w' !! path = Some data ∧
        ∀ q, q ≠ path → q ≠ tmp_path path → dir w' !! q = dir w !! q.
Proof.
  intros He. destruct w as [d l]. unfold writeSnapshot, io_lift. unfold io_bind at 1. rewrite He.
  unfold io_bind, io_catch, io_errdefer, deleteFile, createFile, writeStreamingAll, sync, rename, syscall. simpl.
  destruct (d !! tmp_path path) eqn:Ht; simpl; rewrite ?lookup_insert_eq; simpl;
    (eexists; split; [done|]; simpl; split; [by simplify_map_eq|intros q ??; by simplify_map_eq]).
Qed.

(** What a fault-free write of a well-formed snapshot stored, reading brings back: exactly the
    snapshot when its encoding is below [max_snapshot_bytes], [StreamTooLong] otherwise (the
    writer sets no such limit). *)
Theorem write_then_read (path data : bytes) (snapshot : DatabaseSnapshot.t) (d0 : Dir) :
  snapshot_wf snapshot → snapshot_fits snapshot → encodeSnapshot snapshot = Ok data →
  let '(r, w) := writeSnapshot no_faults path snapshot (World d0 []) in
  r = Ok () ∧
  (readSnapshot None path w).1 =
    if Z.of_nat (length data) <? max_snapshot_bytes then Ok snapshot else Err StreamTooLong.
Proof.
  intros Hwf Hf He. destruct (writeSnapshot_ok path data snapshot (World d0 []) He) as (w & -> & Hp & _).
  split; [done|]. unfold readSnapshot, io_bind, readFileAlloc. rewrite Hp.
  rewrite Z.leb_antisym. destruct (Z.of_nat (length data) <? max_snapshot_bytes); [|done]. simpl.
  by apply (snapshot_decodes snapshot).
Qed.

Lemma write_then_read_witness :
  (readSnapshot None (B "db") (writeSnapshot no_faults (B "db") sample_snapshot (World ∅ [])).2).1 = Ok sample_snapshot.
Proof.
  pose proof (write_then_read (B "db") sample_data sample_snapshot ∅ sample_snapshot_wf sample_snapshot_fits
    ltac:(vm_compute; reflexivity)) as H.
  revert H. destruct (writeSnapshot no_faults (B "db") sample_snapshot (World ∅ [])) as [r w]. intros [_ H].
  etransitivity; [exact H|]. vm_compute. reflexivity.
Defined.
