(* ===== verification/Database.v ===== *)
(** * The embedded database handle

    Models [src/src/db/database.zig]: a snapshot in memory, the path it is persisted under and a
    closed flag.  The directory is the world of [Storage]; the faults of the calls are arguments. *)

From stdpp Require Import gmap.
From S2P Require Import Prelude Value Catalog CatalogFacts TableFacts RowStore Transaction Persistence PersistenceFacts Storage.

Inductive DatabaseDiagnosticKind := database_closed | db_row_store_mismatch | db_unknown_object.

Definition database_diagnosticFromError (err : Error) : option DatabaseDiagnosticKind :=
  match err with
  | DatabaseClosed => Some database_closed
  | RowStoreMismatch => Some db_row_store_mismatch
  | UnknownObject => Some db_unknown_object
  | _ => None
  end.

Module Database.
Record t := mk { path : bytes; state : DatabaseSnapshot.t; closed : bool }.

Definition ensureOpen (self : t) : Result () := fail_if (closed self) DatabaseClosed.

Definition checkpoint (f : faults) (self : t) : IO () :=
  io_bind (io_lift (ensureOpen self)) (λ _, writeSnapshot f (path self) (state self)).

Definition create (f : faults) (path : bytes) : IO t :=
  let db := mk path DatabaseSnapshot.init false in
  io_bind (checkpoint f db) (λ _, io_ret db).

Definition open (fault : option Error) (path : bytes) : IO t :=
  io_bind (readSnapshot fault path) (λ state, io_ret (mk path state false)).

Definition openOrCreate (fault : option Error) (f : faults) (path : bytes) : IO t :=
  io_catch (open fault path) (λ e, if decide (e = FileNotFound) then create f path else io_lift (Err e)).

Definition deinit (self : t) : t := if closed self then self else mk (path self) (state self) true.

Definition close (f : faults) (self : t) : IO t :=
  if closed self then io_ret self
  else io_bind (checkpoint f self) (λ _, io_ret (deinit self)).

Definition catalogView (self : t) : Result DatabaseCatalog.t :=
  _ ← ensureOpen self; Ok (DatabaseSnapshot.catalog (state self)).

Definition createTable (self : t) (spec : TableSpec.t) : Result t :=
  _ ← ensureOpen self;
  catalog ← DatabaseCatalog.createTable (DatabaseSnapshot.catalog (state self)) spec;
  let st := DatabaseSnapshot.refreshStoreTablePointers
              (DatabaseSnapshot.mk catalog (DatabaseSnapshot.stores (state self))) in
  table_def ← orelse (DatabaseCatalog.getTable catalog (TableSpec.name spec)) RowStoreMismatch;
  let st := DatabaseSnapshot.refreshStoreTablePointers
              (DatabaseSnapshot.mk catalog (DatabaseSnapshot.stores st ++ [RowStore.init table_def])) in
  Ok (mk (path self) st (closed self)).

Definition dropTable (self : t) (name : bytes) : Result t :=
  _ ← ensureOpen self;
  index ← orelse (DatabaseSnapshot.tableIndex (state self) name) UnknownObject;
  _ ← fail_if (length (DatabaseSnapshot.stores (state self)) <=? index)%nat RowStoreMismatch;
  catalog ← DatabaseCatalog.dropTable (DatabaseSnapshot.catalog (state self)) name;
  Ok (mk (path self)
        (DatabaseSnapshot.refreshStoreTablePointers
           (DatabaseSnapshot.mk catalog (base.delete index (DatabaseSnapshot.stores (state self)))))
        (closed self)).

Definition table (self : t) (name : bytes) : Result (option TableDef.t) :=
  _ ← ensureOpen self; Ok (DatabaseCatalog.getTable (DatabaseSnapshot.catalog (state self)) name).

(** Writing back through the pointer [storeForTable] returns. *)
Definition set_store (self : t) (index : nat) (store : RowStore.t) : t :=
  mk (path self) (DatabaseSnapshot.mk (DatabaseSnapshot.catalog (state self))
                    (<[index := store]> (DatabaseSnapshot.stores (state self)))) (closed self).

Definition insert (self : t) (table_name : bytes) (values : list Value.t) : Result (t * RowId) :=
  _ ← ensureOpen self;
  index ← orelse (DatabaseSnapshot.tableIndex (state self) table_name) UnknownObject;
  store ← orelse (DatabaseSnapshot.stores (state self) !! index) UnknownObject;
  r ← RowStore.insert store values;
  Ok (set_store self index r.1, r.2).

(** The transaction and the slot of the store it points to. *)
Definition beginTransaction (self : t) (table_name : bytes) : Result (nat * Transaction.t) :=
  _ ← ensureOpen self;
  index ← orelse (DatabaseSnapshot.tableIndex (state self) table_name) UnknownObject;
  store ← orelse (DatabaseSnapshot.stores (state self) !! index) UnknownObject;
  Ok (index, Transaction.begin store).

Definition rows (self : t) (table_name : bytes) : Result (list Row.t) :=
  _ ← ensureOpen self;
  store ← orelse (DatabaseSnapshot.storeForTable (state self) table_name) UnknownObject;
  Ok (RowStore.rows store).
End Database.

(** Committing a transaction obtained from [beginTransaction] installs the new store in its slot. *)
Definition commit_slot (db : Database.t) (index : nat) (tx : Transaction.t) : Result (Database.t * Transaction.t) :=
  store ← item_at (DatabaseSnapshot.stores (Database.state db)) index;
  r ← Transaction.commit tx store;
  Ok (Database.set_store db index r.2, r.1).

(** ** The lockstep invariant: one store per table, in table order, pointing at its table *)
Definition in_step (t : TableDef.t) (st : RowStore.t) : Prop := RowStore.table st = t ∧ store_wf st.

Definition db_inv (db : Database.t) : Prop :=
  catalog_inv (DatabaseSnapshot.catalog (Database.state db)) ∧
  Forall2 in_step (DatabaseCatalog.tables (DatabaseSnapshot.catalog (Database.state db)))
    (DatabaseSnapshot.stores (Database.state db)).

Lemma refresh_in_step c stores :
  Forall2 in_step (DatabaseCatalog.tables c) stores →
  DatabaseSnapshot.refreshStoreTablePointers (DatabaseSnapshot.mk c stores) = DatabaseSnapshot.mk c stores.
Proof.
  intros H. pose proof (refresh_consistent c stores []) as Hr. rewrite app_nil_r in Hr. destruct c. apply Hr.
  eapply Forall2_impl; [exact H|]. by intros t st [? _].
Qed.

Lemma createTable_shape c spec c' :
  catalog_inv c → DatabaseCatalog.createTable c spec = Ok c' →
  ∃ t, TableDef.init spec = Ok t ∧ TableDef.name t = TableSpec.name spec ∧
       lower (TableDef.name t) ∉ (entries c).*1 ∧ catalog_inv c' ∧
       c' = DatabaseCatalog.mk (DatabaseCatalog.tables c ++ [t]) (DatabaseCatalog.views c) (DatabaseCatalog.procedures c).
Proof.
  intros Hinv H. destruct (run_catalog_refines c (CatalogSpec.CreateTable spec) Hinv) as [_ Hinv'].
  specialize (Hinv' c' H). unfold DatabaseCatalog.createTable, DatabaseCatalog.nameUsedOutsideTables in H.
  destruct (DatabaseCatalog.findTableIndex c _) eqn:H1; [done|].
  destruct (DatabaseCatalog.findViewIndex c _) eqn:H2; [done|].
  destruct (DatabaseCatalog.findProcedureIndex c _) eqn:H3; [done|]. simpl in H.
  apply bind_ok_inv in H as (t & Ht & H). apply Ok_inj in H as <-.
  exists t. pose proof (tableDef_init_name _ _ Ht) as Hn. split_and!; try done. rewrite Hn.
  unfold entries. rewrite !fmap_app, !not_elem_of_app. split_and!.
  - by apply (find_kind_None table_entry TableDef.name).
  - by apply (find_kind_None view_entry ViewDef.name).
  - by apply (find_kind_None procedure_entry ProcedureDef.name).
Qed.

Lemma findTableIndex_lookup c i t :
  catalog_inv c → DatabaseCatalog.tables c !! i = Some t → DatabaseCatalog.findTableIndex c (TableDef.name t) = Some i.
Proof.
  unfold catalog_inv, entries. rewrite fmap_app. intros [Hnd _]%NoDup_app Ht. apply find_index_Some. split.
  - exists t. split; [done|]. apply eqlIgnoreCase_refl.
  - intros j t' Hj Ht'. apply eqlIgnoreCase_false. intros E. assert (j = i); [|lia].
    eapply (NoDup_lookup _ _ _ (lower (TableDef.name t)) Hnd); rewrite !list_lookup_fmap.
    + rewrite Ht'. simpl. by rewrite E.
    + by rewrite Ht.
Qed.

Lemma tableIndex_find s name :
  DatabaseSnapshot.tableIndex s name = DatabaseCatalog.findTableIndex (DatabaseSnapshot.catalog s) name.
Proof. done. Qed.

Lemma db_createTable_inv db spec db' : db_inv db → Database.createTable db spec = Ok db' → db_inv db'.
Proof.
  intros [Hc Hs] H. unfold Database.createTable in H. apply bind_ok_inv in H as (? & _ & H).
  apply bind_ok_inv in H as (c' & Hc' & H). apply createTable_shape in Hc' as (t & Ht & Hn & Hfresh & Hinv & ->); [|done].
  rewrite <-Hn, getTable_appended in H by done. cbn [orelse mbind result_bind] in H. apply Ok_inj in H as <-.
  rewrite (refresh_consistent _ (DatabaseSnapshot.stores (Database.state db)) [t])
    by (eapply Forall2_impl; [exact Hs|]; by intros ?? [? _]).
  assert (Forall2 in_step (DatabaseCatalog.tables (DatabaseSnapshot.catalog (Database.state db)) ++ [t])
    (DatabaseSnapshot.stores (Database.state db) ++ [RowStore.init t])).
  { apply Forall2_app; [done|]. constructor; [|constructor]. split; [done|]. apply store_init_wf. }
  cbn [DatabaseSnapshot.stores]. unfold db_inv. cbn [Database.state]. rewrite refresh_in_step by done. done.
Qed.

Lemma db_dropTable_inv db name db' : db_inv db → Database.dropTable db name = Ok db' → db_inv db'.
Proof.
  intros [Hc Hs] H. unfold Database.dropTable in H. apply bind_ok_inv in H as (? & _ & H).
  apply bind_ok_inv in H as (i & Hi & H). apply bind_ok_inv in H as (? & _ & H).
  apply bind_ok_inv in H as (c' & Hc' & H). apply Ok_inj in H as <-.
  destruct (run_catalog_refines _ (CatalogSpec.DropTable name) Hc) as [_ Hinv]. specialize (Hinv c' Hc').
  apply orelse_ok_inv in Hi. rewrite tableIndex_find in Hi. unfold DatabaseCatalog.dropTable in Hc'. rewrite Hi in Hc'.
  apply Ok_inj in Hc' as <-. unfold db_inv. cbn [Database.state]. rewrite refresh_in_step; [split; [done|]|];
    cbn; rewrite !delete_take_drop; apply Forall2_app; auto using Forall2_take, Forall2_drop.
Qed.

Lemma set_store_inv db i st st' :
  db_inv db → DatabaseSnapshot.stores (Database.state db) !! i = Some st →
  RowStore.table st' = RowStore.table st → store_wf st' → db_inv (Database.set_store db i st').
Proof.
  intros [Hc Hs] Hi Ht Hw. split; [done|]. simpl. destruct (Forall2_lookup_r _ _ _ _ _ Hs Hi) as (t & Hti & [He _]).
  rewrite <-(list_insert_id _ _ _ Hti). apply Forall2_insert; [done|]. split; [congruence|done].
Qed.

Lemma store_insert_wf st vs st' id :
  store_wf st → RowStore.insert st vs = Ok (st', id) → store_wf st' ∧ RowStore.table st' = RowStore.table st.
Proof.
  intros Hw H. unfold RowStore.insert in H. apply bind_ok_inv in H as (s & Hs & H). injection H as <- _. split.
  - eapply insertWithId_wf; [done| |done]. pose proof (store_next _ Hw). unfold RowStore.nextRowId. lia.
  - by apply insertWithId_ok in Hs as (_ & _ & _ & ->).
Qed.


(** ** Runs of the embedded API *)
Inductive db_op :=
  | DCreateTable (spec : TableSpec.t)
  | DDropTable (name : bytes)
  | DInsert (name : bytes) (values : list Value.t)
  | DTransaction (name : bytes) (ops : list tx_op).

(** An operation that fails leaves the database as it was. *)
Definition run_db (db : Database.t) (o : db_op) : Database.t :=
  match o with
  | DCreateTable spec => match Database.createTable db spec with Ok db' => db' | _ => db end
  | DDropTable name => match Database.dropTable db name with Ok db' => db' | _ => db end
  | DInsert name vs => match Database.insert db name vs with Ok (db', _) => db' | _ => db end
  | DTransaction name ops =>
      match Database.beginTransaction db name with
      | Ok (i, tx) =>
          match DatabaseSnapshot.stores (Database.state db) !! i with
          | Some st =>
              match commit_slot db i (run_all (run_tx st) tx ops).1 with Ok (db', _) => db' | _ => db end
          | None => db
          end
      | _ => db
      end
  end.

Definition empty_db (path : bytes) : Database.t := Database.mk path DatabaseSnapshot.init false.

Lemma empty_db_inv path : db_inv (empty_db path).
Proof. split; [|constructor]. unfold catalog_inv. simpl. constructor. Qed.

Lemma db_insert_inv db name vs db' id : db_inv db → Database.insert db name vs = Ok (db', id) → db_inv db'.
Proof.
  intros Hdb H. unfold Database.insert in H. apply bind_ok_inv in H as (? & _ & H).
  apply bind_ok_inv in H as (i & _ & H). apply bind_ok_inv in H as (st & Hst%orelse_ok_inv & H).
  apply bind_ok_inv in H as ([st' k] & Hi & H). injection H as <- _.
  destruct (Forall2_lookup_r _ _ _ _ _ (proj2 Hdb) Hst) as (t & _ & [_ Hw]).
  apply store_insert_wf in Hi as [Hw' Ht]; [|done]. by eapply set_store_inv.
Qed.

Lemma commit_slot_inv db i tx db' tx' st :
  db_inv db → DatabaseSnapshot.stores (Database.state db) !! i = Some st →
  Forall (λ id, 0 ≤ id) (ids (Transaction.inserts tx)) →
  commit_slot db i tx = Ok (db', tx') → db_inv db'.
Proof.
  intros Hdb Hst Hid H. unfold commit_slot in H. apply bind_ok_inv in H as (st0 & Hst0%item_at_ok & H).
  apply bind_ok_inv in H as ([tx1 st1] & Hc & H). injection H as <- _. simplify_eq.
  destruct (Forall2_lookup_r _ _ _ _ _ (proj2 Hdb) Hst) as (t & _ & [_ Hw]).
  eapply set_store_inv; [done|done|by eapply commit_table|by eapply commit_wf].
Qed.

Lemma run_db_inv db o : db_inv db → db_inv (run_db db o).
Proof.
  intros Hdb. destruct o as [spec|name|name vs|name ops]; simpl.
  - destruct (Database.createTable db spec) eqn:H; [|done..]. by eapply db_createTable_inv.
  - destruct (Database.dropTable db name) eqn:H; [|done..]. by eapply db_dropTable_inv.
  - destruct (Database.insert db name vs) as [[]| |] eqn:H; [|done..]. by eapply db_insert_inv.
  - destruct (Database.beginTransaction db name) as [[i tx]| |] eqn:H; [|done..].
    destruct (DatabaseSnapshot.stores (Database.state db) !! i) as [st|] eqn:Hst; [|done].
    destruct (commit_slot _ _ _) as [[db' tx']| |] eqn:Hc; [|done..].
    unfold Database.beginTransaction in H. apply bind_ok_inv in H as (? & _ & H).
    apply bind_ok_inv in H as (j & _ & H). apply bind_ok_inv in H as (st0 & Hst0%orelse_ok_inv & H).
    injection H as -> <-. rewrite Hst in Hst0. injection Hst0 as <-.
    destruct (Forall2_lookup_r _ _ _ _ _ (proj2 Hdb) Hst) as (t & _ & [_ Hw]).
    destruct (run_all_simulates st ops _ (begin_wf st Hw)) as [_ Htx]. eapply commit_slot_inv; [done|done| |done].
    eapply Forall_impl; [apply (tx_inserts_bounds _ _ Htx)|]. pose proof (store_next _ Hw). simpl. lia.
Qed.

Lemma run_db_all_inv ops db : db_inv db → db_inv (foldl run_db db ops).
Proof. revert db. induction ops as [|o ops IH]; intros db H; [done|]. simpl. by apply IH, run_db_inv. Qed.


(** ** Decoding never reports a missing file *)
Definition found {A} (r : Result A) : Prop := r ≠ Err FileNotFound.

Lemma found_bind {A B} (m : Result A) (k : A → Result B) : found m → (∀ a, found (k a)) → found (m ≫= k).
Proof. unfold found. destruct m; simpl; [auto|congruence|done]. Qed.

Lemma found_foldM {S A} (f : S → A → Result S) s l : (∀ s a, found (f s a)) → found (foldM f s l).
Proof. intros H. revert s. induction l; intros s; [done|]. by apply found_bind. Qed.

Lemma found_mapR {A B} (f : A → Result B) l : (∀ a, found (f a)) → found (mapR f l).
Proof. intros H. induction l; [done|]. apply found_bind; [done|]. intros b. by apply found_bind. Qed.

Lemma found_read_many {A} (read : Cursor.t → Result (A * Cursor.t)) n c :
  (∀ c, found (read c)) → found (read_many read n c).
Proof.
  intros H. revert c. induction n; intros c; [done|]. apply found_bind; [done|]. intros [a c1].
  apply found_bind; [done|]. by intros [].
Qed.

Lemma found_read_fold {S} (read : Cursor.t → S → Result (S * Cursor.t)) n c s :
  (∀ c s, found (read c s)) → found (read_fold read n c s).
Proof. intros H. revert c s. induction n; intros c s; [done|]. apply found_bind; [done|]. intros [? ?]. apply IHn. Qed.

Ltac solve_found :=
  repeat first
    [ done
    | match goal with |- ∀ _, _ => intros ? | p : (_ * _)%type |- _ => destruct p end
    | apply found_bind | apply found_foldM | apply found_mapR | apply found_read_many | apply found_read_fold
    | progress unfold fail_if, orelse, item_at, checked_u64
    | progress cbn beta iota
    | case_match ].

Lemma found_readU8 c : found (Cursor.readU8 c).
Proof. unfold Cursor.readU8, Cursor.readBytes. solve_found. Qed.
Lemma found_readU32 c : found (Cursor.readU32 c).
Proof. unfold Cursor.readU32, Cursor.readBytes. solve_found. Qed.
Lemma found_readU64 c : found (Cursor.readU64 c).
Proof. unfold Cursor.readU64, Cursor.readBytes. solve_found. Qed.
Lemma found_readBool c : found (Cursor.readBool c).
Proof. apply found_bind; [apply found_readU8|]. solve_found. Qed.
Lemma found_readLengthPrefixedBytes c : found (Cursor.readLengthPrefixedBytes c).
Proof. apply found_bind; [apply found_readU32|]. unfold Cursor.readBytes. solve_found. Qed.

Ltac solve_found_in tac :=
  repeat first [ tac | apply found_readU8 | apply found_readU32 | apply found_readU64 | apply found_readBool
    | apply found_readLengthPrefixedBytes
    | done | match goal with |- ∀ _, _ => intros ? | p : (_ * _)%type |- _ => destruct p end
    | apply found_bind | apply found_foldM | apply found_mapR | apply found_read_many | apply found_read_fold
    | progress unfold fail_if, orelse, item_at, checked_u64 | progress cbn beta iota | case_match ].

Lemma found_element_type c : found (decodeVectorElementType c).
Proof. unfold decodeVectorElementType. solve_found_in fail. Qed.

Lemma found_value c : found (decodeValue c).
Proof.
  unfold decodeValue, Value.initVector, Vector.init. solve_found_in ltac:(apply found_element_type).
Qed.

Lemma found_columnSpec c : found (decodeColumnSpec c).
Proof. unfold decodeColumnSpec, decodeColumnType. solve_found_in ltac:(first [apply found_element_type | apply found_value]). Qed.

Lemma found_indexSpec c : found (decodeIndexSpec c).
Proof. unfold decodeIndexSpec. solve_found_in fail. Qed.

Lemma found_cloneValue v : found (Value.clone v).
Proof. destruct v; unfold Value.clone, Vector.clone, Vector.init; solve_found. Qed.

Lemma found_acceptsValue ty v : found (ColumnType.acceptsValue ty v).
Proof. destruct ty, v; simpl; solve_found. Qed.

Lemma found_insertWithId st id vs : found (RowStore.insertWithId st id vs).
Proof.
  unfold RowStore.insertWithId, Row.init, validateValues, cloneValues, validateColumnValue.
  solve_found_in ltac:(first [apply found_cloneValue | apply found_acceptsValue]).
Qed.

Lemma found_columnDef spec : found (ColumnDef.init spec).
Proof.
  unfold ColumnDef.init, ColumnDef.init_default, ColumnType.validate, VectorType.validate.
  solve_found_in ltac:(first [apply found_cloneValue | apply found_acceptsValue]).
Qed.

Lemma found_validateColumns cs : found (validateColumns cs).
Proof.
  unfold validateColumns. generalize (@nil ColumnSpec.t). induction cs as [|c cs IH]; intros prev; [done|]. simpl.
  unfold ColumnType.validate, VectorType.validate. solve_found_in ltac:(apply IH).
Qed.

Lemma found_validateIndexes cs ixs : found (validateIndexes cs ixs).
Proof.
  unfold validateIndexes. generalize 0%nat (@nil IndexSpec.t).
  induction ixs as [|ix ixs IH]; intros n prev; [done|]. simpl. solve_found_in ltac:(apply IH).
Qed.

Lemma found_tableDef spec : found (TableDef.init spec).
Proof.
  unfold TableDef.init, TableDef.init_index, TableDef.mark_primary, IndexDef.init.
  solve_found_in ltac:(first [apply found_validateColumns | apply found_validateIndexes | apply found_columnDef]).
Qed.

Lemma found_table c s : found (decodeTable c s).
Proof.
  unfold decodeTable, DatabaseCatalog.createTable, decodeRow.
  solve_found_in ltac:(first [apply found_columnSpec | apply found_indexSpec | apply found_tableDef
    | apply found_value | apply found_insertWithId]).
Qed.

Lemma decodeSnapshot_found data : found (decodeSnapshot data).
Proof.
  unfold decodeSnapshot, decodePayload, decodeView, decodeProcedure, DatabaseCatalog.registerView,
    DatabaseCatalog.registerProcedure, Cursor.readBytes.
  solve_found_in ltac:(apply found_table).
Qed.

(** ** Properties *)

(** Along any sequence of table creations, drops, inserts and transactions, failing ones
    included, the database keeps one well-formed store per table, in table order and pointing at
    its own table, and object names stay distinct up to case: a checkpoint never meets a
    [RowStoreMismatch]. *)
Theorem database_lockstep (path : bytes) (ops : list db_op) :
  let db := foldl run_db (empty_db path) ops in
  db_inv db ∧
  (∀ i t, DatabaseCatalog.tables (DatabaseSnapshot.catalog (Database.state db)) !! i = Some t →
     ∃ st, DatabaseSnapshot.storeForTable (Database.state db) (TableDef.name t) = Some st ∧
           RowStore.table st = t ∧ store_wf st) ∧
  (length (DatabaseCatalog.tables (DatabaseSnapshot.catalog (Database.state db))) =? 
     length (DatabaseSnapshot.stores (Database.state db)))%nat = true.
Proof.
  intros db. assert (Hdb : db_inv db) by apply run_db_all_inv, empty_db_inv. split; [done|].
  destruct Hdb as [Hc Hs]. split.
  - intros i t Ht. unfold DatabaseSnapshot.storeForTable. rewrite tableIndex_find.
    rewrite (findTableIndex_lookup _ i t Hc Ht). simpl.
    destruct (Forall2_lookup_l _ _ _ _ _ Hs Ht) as (st & Hst & Hin). by exists st.
  - apply Nat.eqb_eq. by eapply Forall2_length.
Qed.

(** Closing and reopening is the identity: when [close] succeeds on an open database whose
    tables are well-formed and whose snapshot is below the size limit, opening the same path yields
    exactly the closed database's state, and the closed handle refuses every further operation. *)
Theorem close_then_open (db db' : Database.t) (data : bytes) (w w' : world) (name : bytes) (vs : list Value.t) :
  Database.closed db = false → snapshot_wf (Database.state db) →
  encodeSnapshot (Database.state db) = Ok data → Z.of_nat (length data) < max_snapshot_bytes →
  Database.close no_faults db w = (Ok db', w') →
  (Database.open None (Database.path db) w').1 = Ok (Database.mk (Database.path db) (Database.state db) false) ∧
  Database.insert db' name vs = Err DatabaseClosed ∧ Database.rows db' name = Err DatabaseClosed ∧
  (Database.checkpoint no_faults db' w').1 = Err DatabaseClosed ∧ Database.close no_faults db' w' = (Ok db', w').
Proof.
  intros Hc Hwf He Hl H. unfold Database.close in H. rewrite Hc in H. unfold Database.checkpoint, Database.ensureOpen in H.
  rewrite Hc in H. unfold io_bind, io_lift in H. simpl in H.
  destruct (writeSnapshot_ok (Database.path db) data (Database.state db) w He) as (w1 & Hw & Hp & _).
  rewrite Hw in H. unfold io_ret, Database.deinit in H. rewrite Hc in H. injection H as <- <-. split; [|done].
  unfold Database.open, readSnapshot, io_bind, readFileAlloc. rewrite Hp.
  destruct (Z.leb_spec max_snapshot_bytes (Z.of_nat (length data))); [lia|]. simpl.
  by rewrite (snapshot_decodes _ _ Hwf He).
Qed.

(** [openOrCreate] never overwrites an existing file: if the path exists, the directory is left
    exactly as it was and the result is that of decoding its content (or the read error), while a
    missing path yields an empty database whose file then holds the empty snapshot. *)
Theorem openOrCreate_preserves (path : bytes) (fault : option Error) (f : faults) (w : world) :
  fault ≠ Some FileNotFound →
  match dir w !! path with
  | Some data => ∃ r, Database.openOrCreate fault f path w = (r, w) ∧
      (fault = None → Z.of_nat (length data) < max_snapshot_bytes →
         r = (λ s, Database.mk path s false) <$> decodeSnapshot data)
  | None => fault = None → f = no_faults →
      ∃ w' data, Database.openOrCreate fault f path w = (Ok (empty_db path), w') ∧
        encodeSnapshot DatabaseSnapshot.init = Ok data ∧ dir w' !! path = Some data
  end.
Proof.
  intros Hf. destruct (dir w !! path) as [data|] eqn:Hd.
  - unfold Database.openOrCreate, io_catch, Database.open, readSnapshot, io_bind, readFileAlloc. rewrite Hd.
    destruct fault as [e|]; [rewrite decide_False by congruence; by eexists|].
    destruct (Z.leb_spec max_snapshot_bytes (Z.of_nat (length data))).
    { rewrite decide_False by done. eexists. split; [done|]. lia. }
    unfold io_lift. pose proof (decodeSnapshot_found data) as Hn. destruct (decodeSnapshot data) as [s|e|]; simpl.
    + by eexists.
    + rewrite decide_False by (unfold found in Hn; congruence). by eexists.
    + by eexists.
  - intros -> ->. unfold Database.openOrCreate, io_catch, Database.open, readSnapshot. unfold io_bind at 1 2.
    unfold readFileAlloc. rewrite Hd, decide_True by done.
    destruct (encodeSnapshot DatabaseSnapshot.init) as [data| |] eqn:He; [|vm_compute in He; discriminate He..].
    destruct (writeSnapshot_ok path data DatabaseSnapshot.init w He) as (w' & Hw & Hp & _).
    exists w', data. split; [|by split]. unfold Database.create, Database.checkpoint, io_bind, io_lift. simpl. by rewrite Hw.
Qed.

Lemma openOrCreate_preserves_witness :
  ∃ r, Database.openOrCreate (Some AccessDenied) no_faults (B "db") (World {[B "db" := B "x"]} []) =
       (r, World {[B "db" := B "x"]} []).
Proof.
  pose proof (openOrCreate_preserves (B "db") (Some AccessDenied) no_faults (World {[B "db" := B "x"]} [])
    ltac:(discriminate)) as H.
  cbn [dir] in H. rewrite lookup_singleton_eq in H. destruct H as (r & H & _). exists r. exact H.
Defined.

Lemma close_then_open_witness :
  ∃ db' w', Database.close no_faults (Database.mk (B "db") sample_snapshot false) (World ∅ []) = (Ok db', w') ∧
    (Database.open None (B "db") w').1 = Ok (Database.mk (B "db") sample_snapshot false).
Proof.
  destruct (Database.close no_faults (Database.mk (B "db") sample_snapshot false) (World ∅ [])) as [r w'] eqn:E.
  destruct (writeSnapshot_ok (B "db") sample_data sample_snapshot (World ∅ [])) as (w1 & Hw & _ & _);
    [vm_compute; reflexivity|].
  assert (Hr : r = Ok (Database.mk (B "db") sample_snapshot true)).
  { unfold Database.close, Database.checkpoint, io_bind, io_lift in E. simpl in E. rewrite Hw in E. by injection E. }
  subst r. eexists _, w'. split; [reflexivity|].
  apply (close_then_open (Database.mk (B "db") sample_snapshot false) (Database.mk (B "db") sample_snapshot true)
    sample_data (World ∅ []) w' [] []).
  - reflexivity.
  - exact sample_snapshot_wf.
  - vm_compute. reflexivity.
  - vm_compute. reflexivity.
  - exact E.
Defined.
