(* ===== verification/VectorSearch.v ===== *)
(** * Vector distances and nearest-neighbour search

    Models [src/src/vector/distance.zig] and [search.zig].  Vectors are lists of [f32] bit patterns,
    distances [f64] bit patterns; the in-place insertion sort works on a list by index. *)

From Stdlib Require Import Sorting.Sorted.
From S2P Require Import Prelude Float.

Inductive VectorDiagnosticKind := vector_dimension_mismatch | zero_vector.

Definition vector_diagnosticFromError (err : Error) : option VectorDiagnosticKind :=
  match err with
  | VectorDimensionMismatch => Some vector_dimension_mismatch
  | ZeroVector => Some zero_vector
  | _ => None
  end.

Definition expectSameDimension (left right : list Z) : Result () :=
  fail_if (negb (length left =? length right)%nat) VectorDimensionMismatch.

Definition squaredL2 (left right : list Z) : Result Z :=
  _ ← expectSameDimension left right;
  Ok (foldl (λ sum '(l, r),
        let delta := f64_sub (f64_of_f32 l) (f64_of_f32 r) in
        f64_add sum (f64_mul delta delta)) f64_zero (zip left right)).

Definition l2 (left right : list Z) : Result Z := d ← squaredL2 left right; Ok (f64_sqrt d).

Definition cosineDistance (left right : list Z) : Result Z :=
  _ ← expectSameDimension left right;
  let '(dot, left_norm_squared, right_norm_squared) :=
    foldl (λ '(dot, ln, rn) '(l_raw, r_raw),
      let l := f64_of_f32 l_raw in
      let r := f64_of_f32 r_raw in
      (f64_add dot (f64_mul l r), f64_add ln (f64_mul l l), f64_add rn (f64_mul r r)))
      (f64_zero, f64_zero, f64_zero) (zip left right) in
  if f64_eq left_norm_squared f64_zero || f64_eq right_norm_squared f64_zero then Err ZeroVector
  else
    let similarity := f64_div dot (f64_mul (f64_sqrt left_norm_squared) (f64_sqrt right_norm_squared)) in
    Ok (f64_sub f64_one similarity).

(** ** [search.zig] *)
Inductive DistanceMetric := squared_l2 | l2_metric | cosine.

Module Candidate.
Record t := mk { key : Z; vector : list Z }.
End Candidate.

Module SearchResult.
Record t := mk { key : Z; distance : Z }.
End SearchResult.

Definition score (metric : DistanceMetric) (query candidate : list Z) : Result Z :=
  match metric with
  | squared_l2 => squaredL2 query candidate
  | l2_metric => l2 query candidate
  | cosine => cosineDistance query candidate
  end.

Definition resultComesAfter (left right : SearchResult.t) : bool :=
  if f64_gt (SearchResult.distance left) (SearchResult.distance right) then true
  else if f64_lt (SearchResult.distance left) (SearchResult.distance right) then false
  else SearchResult.key right <? SearchResult.key left.

(** [std.mem.swap(SearchResult, &results[j - 1], &results[j])] *)
Definition swap {A} (l : list A) (i j : nat) : list A :=
  match l !! i, l !! j with Some a, Some b => <[i := b]> (<[j := a]> l) | _, _ => l end.

(** The inner [while (j > 0 and ...) : (j -= 1)] loop. *)
Fixpoint sift {A} (after : A → A → bool) (results : list A) (j : nat) : list A :=
  match j with
  | O => results
  | S j' =>
      match results !! j', results !! j with
      | Some a, Some b => if after a b then sift after (swap results j' j) j' else results
      | _, _ => results
      end
  end.

(** The outer loop: [i] from 1 to [len - 1]. *)
Definition sortResults (results : list SearchResult.t) : list SearchResult.t :=
  if (length results <? 2)%nat then results
  else foldl (sift resultComesAfter) results (seq 1 (length results - 1)).

Definition topK (query : list Z) (candidates : list Candidate.t) (limit : nat) (metric : DistanceMetric)
    : Result (list SearchResult.t) :=
  if (limit =? 0)%nat || (length candidates =? 0)%nat then Ok []
  else
    scored ← foldM (λ scored candidate,
               d ← score metric query (Candidate.vector candidate);
               Ok (scored ++ [SearchResult.mk (Candidate.key candidate) d])) [] candidates;
    let scored := sortResults scored in
    let result_count := Nat.min limit (length scored) in
    Ok (take result_count scored).

Lemma StronglySorted_app_iff {A} (R : A → A → Prop) l1 l2 :
  StronglySorted R (l1 ++ l2) ↔ StronglySorted R l1 ∧ StronglySorted R l2 ∧ Forall (λ a, Forall (R a) l2) l1.
Proof.
  induction l1 as [|a l1 IH]; simpl.
  - split; [by intros; split_and!; [constructor| |constructor]|tauto].
  - split.
    + intros H. apply StronglySorted_inv in H as [H Ha]. apply IH in H as (? & ? & ?).
      apply Forall_app in Ha as [? ?]. split_and!; [by constructor|done|by constructor].
    + intros (H1 & H2 & H3). apply StronglySorted_inv in H1 as [H1 Ha]. apply Forall_cons in H3 as [H3 H4].
      constructor; [by apply IH|]. by apply Forall_app.
Qed.

(** ** The insertion sort, for any comparison *)
Section insertion.
Context {A : Type} (after : A → A → bool).

(** Inserting from the right end of a sorted list given back to front. *)
Fixpoint insert_rev (l : list A) (x : A) : list A :=
  match l with
  | [] => [x]
  | y :: l' => if after y x then y :: insert_rev l' x else x :: y :: l'
  end.

Definition insert_right (l : list A) (x : A) : list A := reverse (insert_rev (reverse l) x).

Lemma insert_right_snoc l y x :
  insert_right (l ++ [y]) x = if after y x then insert_right l x ++ [y] else (l ++ [y]) ++ [x].
Proof.
  unfold insert_right. rewrite reverse_app. simpl. destruct (after y x).
  - by rewrite reverse_cons.
  - by rewrite !reverse_cons, reverse_involutive.
Qed.

Lemma swap_middle (l rest : list A) y x : swap (l ++ y :: x :: rest) (length l) (S (length l)) = l ++ x :: y :: rest.
Proof.
  unfold swap. rewrite list_lookup_middle by done.
  replace (l ++ y :: x :: rest) with ((l ++ [y]) ++ x :: rest) by by rewrite <-app_assoc.
  rewrite list_lookup_middle by (rewrite length_app; simpl; lia).
  replace (S (length l)) with (length (l ++ [y]) + 0)%nat by (rewrite length_app; simpl; lia).
  rewrite insert_app_r. simpl. rewrite <-app_assoc. simpl.
  replace (length l) with (length l + 0)%nat at 1 by lia. by rewrite insert_app_r.
Qed.

Lemma sift_insert l x rest : sift after (l ++ x :: rest) (length l) = insert_right l x ++ rest.
Proof.
  revert x rest. induction l as [|y l IH] using rev_ind; intros x rest; [done|].
  rewrite length_app, Nat.add_1_r. cbn [sift].
  rewrite <-app_assoc. cbn [app]. rewrite list_lookup_middle by done.
  replace ((l ++ y :: x :: rest) !! S (length l)) with (Some x).
  2: { replace (l ++ y :: x :: rest) with ((l ++ [y]) ++ x :: rest) by by rewrite <-app_assoc.
       by rewrite list_lookup_middle by (rewrite length_app; simpl; lia). }
  rewrite insert_right_snoc. destruct (after y x).
  - rewrite swap_middle, IH, <-app_assoc. done.
  - by rewrite <-!app_assoc.
Qed.

Lemma insert_rev_perm l x : insert_rev l x ≡ₚ x :: l.
Proof. induction l as [|y l IH]; simpl; [done|]. destruct (after y x); [|done]. rewrite IH. apply Permutation_swap. Qed.

Lemma insert_right_perm l x : insert_right l x ≡ₚ l ++ [x].
Proof.
  unfold insert_right. rewrite reverse_Permutation, insert_rev_perm, reverse_Permutation.
  apply Permutation_cons_append.
Qed.

(** The order the sort establishes on the elements satisfying [P]. *)
Context (P : A → Prop).
Hypothesis after_asym : ∀ a b, P a → P b → after a b = true → after b a = false.
Hypothesis after_trans : ∀ a b c, P a → P b → P c → after b a = false → after c b = false → after c a = false.

Abbreviation ordered := (StronglySorted (λ a b, after a b = false)).
Abbreviation rev_ordered := (StronglySorted (λ a b, after b a = false)).

Lemma insert_rev_ordered l x : Forall P l → P x → rev_ordered l → rev_ordered (insert_rev l x).
Proof.
  intros HP Hx. induction 1 as [|y l Hl IH Hy]; simpl; [by repeat constructor|].
  apply Forall_cons in HP as [Py Pl]. destruct (after y x) eqn:Ha.
  - constructor; [by apply IH|]. rewrite insert_rev_perm. constructor; [by apply after_asym|done].
  - constructor; [by constructor|]. constructor; [done|]. rewrite !Forall_forall in *. intros z Hz.
    apply (after_trans x y z); auto.
Qed.

Lemma ordered_reverse l : ordered (reverse l) ↔ rev_ordered l.
Proof.
  induction l as [|a l IH]; [split; constructor|]. rewrite reverse_cons, StronglySorted_app_iff, IH. split.
  - intros (H1 & _ & H2). constructor; [done|]. apply Forall_forall. intros b Hb.
    apply elem_of_reverse_2 in Hb. apply (proj1 (Forall_forall _ _) H2) in Hb. by apply Forall_cons in Hb as [? _].
  - intros H. apply StronglySorted_inv in H as [H Ha]. split_and!; [done|by repeat constructor|].
    apply Forall_forall. intros b Hb. rewrite elem_of_reverse in Hb. constructor; [|constructor].
    exact (proj1 (Forall_forall _ _) Ha b Hb).
Qed.

Lemma insert_right_ordered l x : Forall P l → P x → ordered l → ordered (insert_right l x).
Proof.
  intros HP Hx Hl. unfold insert_right. apply ordered_reverse, insert_rev_ordered; [|done|].
  - by apply Forall_reverse.
  - apply ordered_reverse. by rewrite reverse_involutive.
Qed.

Lemma sift_loop n l rest :
  n = length rest → Forall P (l ++ rest) → ordered l →
  ordered (foldl (sift after) (l ++ rest) (seq (length l) n)) ∧
  foldl (sift after) (l ++ rest) (seq (length l) n) ≡ₚ l ++ rest.
Proof.
  revert l rest. induction n as [|n IH]; intros l rest Hn HP Hl.
  - destruct rest; [|done]. rewrite app_nil_r. by split.
  - destruct rest as [|x rest]; [done|]. cbn [seq foldl]. rewrite sift_insert.
    assert (Hlen : S (length l) = length (insert_right l x)).
    { rewrite (Permutation_length (insert_right_perm l x)), length_app. simpl. lia. }
    rewrite Hlen. apply Forall_app in HP as [HPl HPr]. apply Forall_cons in HPr as [Px HPr].
    destruct (IH (insert_right l x) rest) as [H1 H2].
    + injection Hn as ->. done.
    + apply Forall_app. split; [|done]. rewrite insert_right_perm. apply Forall_app. by split; [|constructor].
    + by apply insert_right_ordered.
    + split; [done|]. rewrite H2, insert_right_perm, <-app_assoc. done.
Qed.

Lemma sift_sorts l :
  Forall P l → ordered (foldl (sift after) l (seq 1 (length l - 1))) ∧
  foldl (sift after) l (seq 1 (length l - 1)) ≡ₚ l.
Proof.
  destruct l as [|x l]; intros HP; [by split; [constructor|]|]. simpl. rewrite Nat.sub_0_r.
  apply (sift_loop (length l) [x] l); [done|done|]. repeat constructor.
Qed.
End insertion.

(** ** The order on search results *)
Definition ranked (r : SearchResult.t) : Prop := is_nan binary64 (SearchResult.distance r) = false.

Lemma comes_after_spec a b :
  ranked a → ranked b →
  resultComesAfter a b = true ↔
    lex3 (f64_rank (SearchResult.distance b)) (f64_rank (SearchResult.distance a)) ∨
    (f64_rank (SearchResult.distance b) = f64_rank (SearchResult.distance a) ∧ SearchResult.key b < SearchResult.key a).
Proof.
  unfold ranked, resultComesAfter, f64_gt. intros Ha Hb.
  pose proof (f64_lt_rank _ _ Hb Ha) as H1. pose proof (f64_lt_rank _ _ Ha Hb) as H2.
  destruct (f64_lt (SearchResult.distance b) (SearchResult.distance a)); [tauto|].
  destruct (f64_lt (SearchResult.distance a) (SearchResult.distance b)).
  - assert (lex3 (f64_rank (SearchResult.distance a)) (f64_rank (SearchResult.distance b))) as H by by apply H2.
    split; [done|]. intros [H'|[E _]]; exfalso; [|rewrite E in H]; unfold lex3 in *; lia.
  - rewrite Z.ltb_lt. split; [|intros [H|[_ ?]]; [by apply H1 in H|done]].
    intros Hk. right. split; [|done].
    assert (¬ lex3 (f64_rank (SearchResult.distance b)) (f64_rank (SearchResult.distance a))) as Hn1 by (intros H; by apply H1 in H).
    assert (¬ lex3 (f64_rank (SearchResult.distance a)) (f64_rank (SearchResult.distance b))) as Hn2 by (intros H; by apply H2 in H).
    destruct (f64_rank (SearchResult.distance a)) as [[a1 a2] a3], (f64_rank (SearchResult.distance b)) as [[b1 b2] b3].
    unfold lex3 in *. simpl in *. f_equal; [f_equal|]; lia.
Qed.

Lemma after_false a b : ranked a → ranked b →
  resultComesAfter a b = false ↔
    ¬ (lex3 (f64_rank (SearchResult.distance b)) (f64_rank (SearchResult.distance a)) ∨
    (f64_rank (SearchResult.distance b) = f64_rank (SearchResult.distance a) ∧ SearchResult.key b < SearchResult.key a)).
Proof. intros Ha Hb. rewrite <-comes_after_spec by done. by destruct (resultComesAfter a b). Qed.

Lemma comes_after_asym a b : ranked a → ranked b → resultComesAfter a b = true → resultComesAfter b a = false.
Proof.
  intros Ha Hb. rewrite comes_after_spec, after_false by done.
  destruct (f64_rank (SearchResult.distance a)) as [[a1 a2] a3], (f64_rank (SearchResult.distance b)) as [[b1 b2] b3].
  unfold lex3. simpl. intros [H|[E H]]; [|simplify_eq]; intros [H'|[E' H']]; simplify_eq; lia.
Qed.

Lemma comes_after_trans a b c :
  ranked a → ranked b → ranked c → resultComesAfter b a = false → resultComesAfter c b = false → resultComesAfter c a = false.
Proof.
  intros Ha Hb Hc. rewrite !after_false by done.
  destruct (f64_rank (SearchResult.distance a)) as [[a1 a2] a3], (f64_rank (SearchResult.distance b)) as [[b1 b2] b3],
    (f64_rank (SearchResult.distance c)) as [[c1 c2] c3].
  unfold lex3. simpl. intros H1 H2 H3.
  assert (H1' : ¬ (a1 < b1 ∨ a1 = b1 ∧ (a2 < b2 ∨ a2 = b2 ∧ a3 < b3))) by tauto.
  assert (H1'' : a1 = b1 → a2 = b2 → a3 = b3 → SearchResult.key b ≤ SearchResult.key a).
  { intros -> -> ->. destruct (Z.lt_ge_cases (SearchResult.key a) (SearchResult.key b)); [|lia]. exfalso; tauto. }
  assert (H2' : ¬ (b1 < c1 ∨ b1 = c1 ∧ (b2 < c2 ∨ b2 = c2 ∧ b3 < c3))) by tauto.
  assert (H2'' : b1 = c1 → b2 = c2 → b3 = c3 → SearchResult.key c ≤ SearchResult.key b).
  { intros -> -> ->. destruct (Z.lt_ge_cases (SearchResult.key b) (SearchResult.key c)); [|lia]. exfalso; tauto. }
  destruct H3 as [H3|[E H3]]; [lia|]. injection E as -> -> ->.
  assert (b1 = c1 ∧ b2 = c2 ∧ b3 = c3) as (-> & -> & ->) by lia. specialize (H1'' eq_refl eq_refl eq_refl).
  specialize (H2'' eq_refl eq_refl eq_refl). lia.
Qed.

Lemma sortResults_sorts l :
  Forall ranked l →
  StronglySorted (λ a b, resultComesAfter a b = false) (sortResults l) ∧ sortResults l ≡ₚ l.
Proof.
  intros Hl. unfold sortResults. destruct (Nat.ltb_spec (length l) 2) as [H|_].
  - destruct l as [|a [|b l]]; simpl in H; [by split; [constructor|]|by split; [repeat constructor|]|lia].
  - apply (sift_sorts _ ranked); [apply comes_after_asym|apply comes_after_trans|done].
Qed.

(** The scoring loop of [topK]. *)
Definition scored_as (metric : DistanceMetric) (query : list Z) (c : Candidate.t) (r : SearchResult.t) : Prop :=
  SearchResult.key r = Candidate.key c ∧ score metric query (Candidate.vector c) = Ok (SearchResult.distance r).

Lemma scoring_loop metric query candidates acc :
  Forall (λ c, ∃ d, score metric query (Candidate.vector c) = Ok d ∧ is_nan binary64 d = false) candidates →
  ∃ scored, foldM (λ scored candidate,
      d ← score metric query (Candidate.vector candidate);
      Ok (scored ++ [SearchResult.mk (Candidate.key candidate) d])) acc candidates = Ok (acc ++ scored) ∧
    Forall2 (scored_as metric query) candidates scored ∧ Forall ranked scored.
Proof.
  intros H. revert acc. induction H as [|c cs (d & Hd & Hn) _ IH]; intros acc; cbn [foldM].
  - exists []. rewrite app_nil_r. by repeat constructor.
  - rewrite Hd. cbn [mbind result_bind].
    destruct (IH (acc ++ [SearchResult.mk (Candidate.key c) d])) as (scored & -> & H1 & H2).
    exists (SearchResult.mk (Candidate.key c) d :: scored). rewrite <-app_assoc. by repeat constructor.
Qed.

Lemma dimension_error left right e : expectSameDimension left right = Err e → e = VectorDimensionMismatch.
Proof. unfold expectSameDimension, fail_if. case_match; congruence. Qed.

Lemma score_error metric query v e :
  score metric query v = Err e → e = VectorDimensionMismatch ∨ e = ZeroVector.
Proof.
  assert (Hs : ∀ e, squaredL2 query v = Err e → e = VectorDimensionMismatch).
  { intros e'. unfold squaredL2. intros [H|(? & _ & H)]%bind_err_inv; [by eapply dimension_error|done]. }
  destruct metric; cbn [score].
  - intros H%Hs. by left.
  - unfold l2. intros [H%Hs|(? & _ & H)]%bind_err_inv; [by left|done].
  - unfold cosineDistance. intros [H%dimension_error|(? & _ & H)]%bind_err_inv; [by left|]. right.
    revert H. destruct (foldl _ _ _) as [[dot ln] rn]. case_match; congruence.
Qed.

(** ** The distances, by their formulas

    Reference definitions: in [f64], the components widened, the sums in the order of the components. *)
Definition widen (v : list Z) : list Z := f64_of_f32 <$> v.
Definition total (l : list Z) : Z := foldl f64_add f64_zero l.
Definition dot (a b : list Z) : Z := total (zip_with f64_mul (widen a) (widen b)).
Definition squared (a b : list Z) : Z := total ((λ delta, f64_mul delta delta) <$> zip_with f64_sub (widen a) (widen b)).

Definition distance_between (metric : DistanceMetric) (a b : list Z) : Z :=
  match metric with
  | squared_l2 => squared a b
  | l2_metric => f64_sqrt (squared a b)
  | cosine => f64_sub f64_one (f64_div (dot a b) (f64_mul (f64_sqrt (dot a a)) (f64_sqrt (dot b b))))
  end.

(** When the distance is defined: equal dimensions, and for the cosine no vector of length zero. *)
Definition comparable (metric : DistanceMetric) (a b : list Z) : Prop :=
  length a = length b ∧
  (metric = cosine → f64_eq (dot a a) f64_zero = false ∧ f64_eq (dot b b) f64_zero = false).

Lemma foldl_squared a b acc :
  foldl (λ sum '(l, r), let delta := f64_sub (f64_of_f32 l) (f64_of_f32 r) in f64_add sum (f64_mul delta delta)) acc (zip a b) =
  foldl f64_add acc ((λ delta, f64_mul delta delta) <$> zip_with f64_sub (widen a) (widen b)).
Proof. revert b acc. induction a as [|x a IH]; intros [|y b] acc; [done..|]. cbn. apply IH. Qed.

Lemma foldl_cosine a b d n m :
  length a = length b →
  foldl (λ '(dot, ln, rn) '(l_raw, r_raw),
    let l := f64_of_f32 l_raw in
    let r := f64_of_f32 r_raw in
    (f64_add dot (f64_mul l r), f64_add ln (f64_mul l l), f64_add rn (f64_mul r r))) (d, n, m) (zip a b) =
  (foldl f64_add d (zip_with f64_mul (widen a) (widen b)), foldl f64_add n (zip_with f64_mul (widen a) (widen a)),
   foldl f64_add m (zip_with f64_mul (widen b) (widen b))).
Proof. revert b d n m. induction a as [|x a IH]; intros [|y b] d n m H; [done..|]. cbn. apply IH. by injection H. Qed.

Lemma score_distance metric a b : comparable metric a b → score metric a b = Ok (distance_between metric a b).
Proof.
  intros [Hl Hz]. assert (Hs : squaredL2 a b = Ok (squared a b)).
  { unfold squaredL2, expectSameDimension. rewrite (proj2 (Nat.eqb_eq _ _) Hl). cbn. f_equal. apply foldl_squared. }
  destruct metric; cbn [score distance_between]; [done|unfold l2; by rewrite Hs|].
  destruct (Hz eq_refl) as [Ha Hb]. unfold cosineDistance, expectSameDimension. rewrite (proj2 (Nat.eqb_eq _ _) Hl). cbn [negb fail_if mbind result_bind].
  rewrite foldl_cosine by done. fold (total (zip_with f64_mul (widen a) (widen b))) (dot a b).
  fold (total (zip_with f64_mul (widen a) (widen a))) (dot a a). fold (total (zip_with f64_mul (widen b) (widen b))) (dot b b).
  by rewrite Ha, Hb.
Qed.

(** ** Properties *)

(** [a] is no farther than [b], and of two equally far ones the one with the smaller key. *)
Definition nearer (a b : SearchResult.t) : Prop :=
  f64_lt (SearchResult.distance b) (SearchResult.distance a) = false ∧
  (f64_lt (SearchResult.distance a) (SearchResult.distance b) = false → SearchResult.key a ≤ SearchResult.key b).

Lemma not_after_nearer a b : resultComesAfter a b = false → nearer a b.
Proof.
  unfold resultComesAfter, f64_gt, nearer. destruct (f64_lt (SearchResult.distance b) (SearchResult.distance a)); [done|].
  destruct (f64_lt (SearchResult.distance a) (SearchResult.distance b)); [done|]. intros H%Z.ltb_ge. done.
Qed.

Lemma sorted_nearer l : StronglySorted (λ a b, resultComesAfter a b = false) l → StronglySorted nearer l.
Proof.
  induction 1 as [|a l _ IH Ha]; constructor; [done|]. apply Forall_forall. intros b Hb. apply not_after_nearer.
  exact (proj1 (Forall_forall _ _) Ha b Hb).
Qed.

Lemma scored_distances metric query candidates scored :
  Forall (λ c, comparable metric query (Candidate.vector c)) candidates → Forall2 (scored_as metric query) candidates scored →
  scored = (λ c, SearchResult.mk (Candidate.key c) (distance_between metric query (Candidate.vector c))) <$> candidates.
Proof.
  intros Hc H. induction H as [|c r cs rs [Hk Hs] _ IH]; [done|]. apply Forall_cons in Hc as [Hc Hcs]. csimpl. rewrite <-(IH Hcs). f_equal.
  rewrite (score_distance _ _ _ Hc) in Hs. destruct r. cbn in *. congruence.
Qed.

(** C29: [topK] returns the nearest candidates: whenever every candidate has the dimension of the query (and under the cosine metric no
    vector has length zero) and no distance is NaN, it succeeds with [min limit n] results, each a candidate with its distance by the
    formula of the metric, from near to far and among equally far ones by key, and no omitted candidate is nearer than a returned one. *)
Theorem topK_nearest (query : list Z) (candidates : list Candidate.t) (limit : nat) (metric : DistanceMetric) :
  Forall (λ c, comparable metric query (Candidate.vector c) ∧
               is_nan binary64 (distance_between metric query (Candidate.vector c)) = false) candidates →
  ∃ results omitted,
    topK query candidates limit metric = Ok results ∧
    results ++ omitted ≡ₚ (λ c, SearchResult.mk (Candidate.key c) (distance_between metric query (Candidate.vector c))) <$> candidates ∧
    length results = Nat.min limit (length candidates) ∧
    StronglySorted nearer results ∧ Forall (λ r, Forall (nearer r) omitted) results.
Proof.
  intros Hall. assert (Hcomp : Forall (λ c, comparable metric query (Candidate.vector c)) candidates) by (eapply Forall_impl; [exact Hall|]; by intros c [? _]).
  assert (Hc : Forall (λ c, ∃ d, score metric query (Candidate.vector c) = Ok d ∧ is_nan binary64 d = false) candidates).
  { eapply Forall_impl; [exact Hall|]. intros c [H1 H2]. eexists. split; [by apply score_distance|done]. }
  destruct (scoring_loop metric query candidates [] Hc) as (scored & Hs & H2 & Hr). rewrite <-(scored_distances _ _ _ _ Hcomp H2).
  destruct (sortResults_sorts scored Hr) as [Hsort Hperm]. cbn [app] in Hs.
  assert (Hlen : length (sortResults scored) = length candidates).
  { rewrite (Permutation_length Hperm). symmetry. by eapply Forall2_length. }
  unfold topK. destruct (Nat.eqb_spec limit 0) as [->|Hl]; [|destruct (Nat.eqb_spec (length candidates) 0) as [H0|H0]]; simpl.
  - exists [], scored. split_and!; [done|done|done|constructor|constructor].
  - destruct candidates; [|done]. apply Forall2_nil_inv_l in H2 as ->. exists [], [].
    split_and!; [done|done|by rewrite Nat.min_0_r|constructor|constructor].
  - rewrite Hs. cbn [mbind result_bind].
    rewrite <-(take_drop (limit `min` length (sortResults scored)) (sortResults scored)) in Hsort.
    apply StronglySorted_app_iff in Hsort as (H3 & _ & H4).
    exists (take (limit `min` length (sortResults scored)) (sortResults scored)),
      (drop (limit `min` length (sortResults scored)) (sortResults scored)).
    split_and!; [done|by rewrite take_drop|rewrite length_take; lia| |].
    + by apply sorted_nearer.
    + apply Forall_forall. intros r Hr'. apply Forall_forall. intros o Ho. apply not_after_nearer.
      exact (proj1 (Forall_forall _ _) (proj1 (Forall_forall _ _) H4 r Hr') o Ho).
Qed.

Definition f32_1 : Z := 0x3f800000.
Definition f32_2 : Z := 0x40000000.
Definition f32_3 : Z := 0x40400000.

Definition sample_candidates : list Candidate.t :=
  [Candidate.mk 9 [f32_3; f32_1]; Candidate.mk 4 [f32_1; f32_1]; Candidate.mk 2 [f32_3; f32_1]; Candidate.mk 7 [f32_2; f32_1]].

Lemma topK_nearest_witness :
  (∃ results, topK [f32_1; f32_1] sample_candidates 3 squared_l2 = Ok results ∧ SearchResult.key <$> results = [4; 7; 2]) ∧
  ∃ results omitted, topK [f32_1; f32_1] sample_candidates 3 squared_l2 = Ok results ∧ length results = 3%nat ∧
    StronglySorted nearer results ∧ Forall (λ r, Forall (nearer r) omitted) results.
Proof.
  split; [eexists; split; vm_compute; reflexivity|].
  destruct (topK_nearest [f32_1; f32_1] sample_candidates 3 squared_l2) as (results & omitted & H1 & _ & H2 & H3 & H4).
  - do 4 (apply Forall_cons; split; [split; [split; [reflexivity|discriminate]|vm_compute; reflexivity]|]). apply Forall_nil. exact I.
  - exists results, omitted. split; [exact H1|]. split; [exact H2|]. split; [exact H3|exact H4].
Defined.

(** [topK] reports the first candidate, in order, that cannot be scored, with that candidate's
    error (a dimension mismatch, or a zero vector under the cosine metric). *)
Theorem topK_first_error (query : list Z) (before after : list Candidate.t) (bad : Candidate.t)
    (limit : nat) (metric : DistanceMetric) (e : Error) :
  limit ≠ 0%nat → Forall (λ c, ∃ d, score metric query (Candidate.vector c) = Ok d) before →
  score metric query (Candidate.vector bad) = Err e →
  topK query (before ++ bad :: after) limit metric = Err e ∧ (e = VectorDimensionMismatch ∨ e = ZeroVector).
Proof.
  intros Hl Hb He. split.
  - unfold topK. destruct (Nat.eqb_spec limit 0); [done|].
    rewrite length_app. cbn [length]. rewrite Nat.add_succ_r. cbn [Nat.eqb orb].
    match goal with |- context [foldM ?f _ _] =>
      assert (Hf : ∀ acc, foldM f acc (before ++ bad :: after) = Err e) end; [|by rewrite Hf].
    induction Hb as [|c cs [d Hd] _ IH]; intros acc; cbn [app foldM]; [by rewrite He|].
    rewrite Hd. cbn [mbind result_bind]. apply IH.
  - by eapply score_error.
Qed.

Lemma topK_first_error_witness :
  topK [f32_1] [Candidate.mk 1 [f32_2]; Candidate.mk 2 [f32_1; f32_1]] 5 l2_metric = Err VectorDimensionMismatch.
Proof.
  apply (topK_first_error [f32_1] [Candidate.mk 1 [f32_2]] [] (Candidate.mk 2 [f32_1; f32_1]) 5 l2_metric).
  - discriminate.
  - constructor; [|constructor]. eexists. vm_compute. reflexivity.
  - reflexivity.
Defined.
