(* ===== verification/Overlay.v ===== *)
(** * The vector overlay

    Models [src/src/vector/overlay.zig]: committed vector values waiting to be drained into an index,
    at most one per table, column and row, the latest winning. *)

From stdpp Require Import gmap.
From S2P Require Import Prelude Value Catalog CatalogFacts RowStore Transaction.

Module Delta.
Record t := mk {
  generation : Z;
  table_name : bytes;
  column_name : bytes;
  row_id : RowId;
  vector : list Z }.

Definition init (generation : Z) (table_name column_name : bytes) (row_id : RowId) (vector : list Z) : t :=
  mk generation table_name column_name row_id vector.

Definition clone (self : t) : t :=
  init (generation self) (table_name self) (column_name self) (row_id self) (vector self).

Definition replaceVector (self : t) (generation : Z) (vector : list Z) : t :=
  mk generation (table_name self) (column_name self) (row_id self) vector.
End Delta.

Definition matches (delta : Delta.t) (table_name column_name : bytes) : bool :=
  eqlIgnoreCase (Delta.table_name delta) table_name && eqlIgnoreCase (Delta.column_name delta) column_name.

Module Overlay.
Record t := mk { deltas : list Delta.t }.

Definition init : t := mk [].

Definition findIndex (self : t) (table_name column_name : bytes) (row_id : RowId) : option nat :=
  find_index (λ delta, (Delta.row_id delta =? row_id) && matches delta table_name column_name) (deltas self).

Definition recordVector (self : t) (generation : Z) (table_name column_name : bytes) (row_id : RowId)
    (vector : list Z) : t :=
  match findIndex self table_name column_name row_id with
  | Some index => mk (alter (λ delta, Delta.replaceVector delta generation vector) index (deltas self))
  | None => mk (deltas self ++ [Delta.init generation table_name column_name row_id vector])
  end.

(** One row of [recordCommittedStore]: its vector values with their column ordinals. *)
Definition recordRow (self : t) (generation : Z) (table_name : bytes) (table : TableDef.t) (row : Row.t) : t :=
  foldl (λ self '(column_index, runtime_value),
    match runtime_value with
    | Value.vector v =>
        match TableDef.columnAt table column_index with
        | Some column => recordVector self generation table_name (ColumnDef.name column) (Row.id row) (Vector.values v)
        | None => self
        end
    | _ => self
    end) self (zip (seq 0 (length (Row.values row))) (Row.values row)).

Definition recordCommittedStore (self : t) (generation : Z) (table_name : bytes) (table : TableDef.t)
    (store : RowStore.t) : t :=
  foldl (λ self row, recordRow self generation table_name table row) self (RowStore.rows store).

Definition deltaCount (self : t) : Z := Z.of_nat (length (deltas self)).

Definition candidateCount (self : t) (table_name column_name : bytes) : Z :=
  foldl (λ count delta, if matches delta table_name column_name then count + 1 else count) 0 (deltas self).

(** The [while] loop of [drainReady]; an iteration advances the index or removes the entry at
    it, so as many iterations as there are entries are enough. *)
Fixpoint drain_loop (fuel : nat) (through_generation : Z) (max_count : nat)
    (index : nat) (items drained : list Delta.t) : list Delta.t * list Delta.t :=
  match fuel with
  | O => (items, drained)
  | S fuel' =>
      match items !! index with
      | Some delta =>
          if (length drained <? max_count)%nat then
            if through_generation <? Delta.generation delta
            then drain_loop fuel' through_generation max_count (S index) items drained
            else drain_loop fuel' through_generation max_count index (delete index items)
                   (drained ++ [Delta.clone delta])
          else (items, drained)
      | None => (items, drained)
      end
  end.

Definition drainReady (self : t) (through_generation : Z) (max_count : nat) : t * list Delta.t :=
  if (max_count =? 0)%nat then (self, [])
  else let '(items, drained) :=
         drain_loop (length (deltas self)) through_generation max_count 0 (deltas self) [] in
       (mk items, drained).
End Overlay.

(** ** The overlay as a map from (table, column, row) to the latest vector *)
Abbreviation overlay_key := (bytes * bytes * Z)%type.

Definition key_of (d : Delta.t) : overlay_key :=
  (lower (Delta.table_name d), lower (Delta.column_name d), Delta.row_id d).

Definition payload_of (d : Delta.t) : Z * list Z := (Delta.generation d, Delta.vector d).

Definition overlay_inv (o : Overlay.t) : Prop := NoDup (key_of <$> Overlay.deltas o).

Definition overlay_abs (o : Overlay.t) : gmap overlay_key (Z * list Z) :=
  list_to_map ((λ d, (key_of d, payload_of d)) <$> Overlay.deltas o).

Lemma key_test d t c r :
  (Delta.row_id d =? r) && matches d t c = bool_decide (key_of d = (lower t, lower c, r)).
Proof.
  unfold matches, key_of. apply eq_true_iff_eq.
  rewrite !andb_true_iff, bool_decide_eq_true, Z.eqb_eq, !eqlIgnoreCase_spec. split.
  - intros (-> & -> & ->). done.
  - intros E. injection E as E1 E2 E3. done.
Qed.

Lemma findIndex_key o t c r :
  Overlay.findIndex o t c r = find_index (λ d, bool_decide (key_of d = (lower t, lower c, r))) (Overlay.deltas o).
Proof. apply find_index_ext. intros d _. apply key_test. Qed.

Lemma overlay_fst o : ((λ d, (key_of d, payload_of d)) <$> Overlay.deltas o).*1 = key_of <$> Overlay.deltas o.
Proof. by rewrite <-list_fmap_compose. Qed.

Lemma recordVector_refines o g t c r v :
  overlay_inv o →
  overlay_inv (Overlay.recordVector o g t c r v) ∧
  overlay_abs (Overlay.recordVector o g t c r v) = <[(lower t, lower c, r) := (g, v)]> (overlay_abs o).
Proof.
  intros Hnd. unfold Overlay.recordVector. rewrite findIndex_key.
  destruct (find_index _ (Overlay.deltas o)) as [i|] eqn:Hi.
  - apply find_index_lookup in Hi as (d & Hd & Hk%bool_decide_eq_true).
    set (d' := Delta.replaceVector d g v). destruct o as [ds]; simpl in *.
    assert (Halter : alter (λ delta, Delta.replaceVector delta g v) i ds = <[i := d']> ds).
    { apply list_eq. intros j. destruct (decide (i = j)) as [<-|].
      - by rewrite list_lookup_alter_eq, list_lookup_insert_eq, Hd by by eapply lookup_lt_Some.
      - by rewrite list_lookup_alter_ne, list_lookup_insert_ne. }
    rewrite Halter. assert (Hkeys : key_of <$> <[i := d']> ds = key_of <$> ds).
    { rewrite list_fmap_insert. apply list_insert_id. by rewrite list_lookup_fmap, Hd. }
    split; [unfold overlay_inv; simpl; by rewrite Hkeys|]. unfold overlay_abs. simpl.
    rewrite (insert_take_drop _ _ _ (lookup_lt_Some _ _ _ Hd)). rewrite <-(take_drop_middle ds i d Hd) at 3.
    rewrite !fmap_app, !list_to_map_app. csimpl.
    change (key_of d') with (key_of d). rewrite Hk.
    assert (Hnot : (lower t, lower c, r) ∉ key_of <$> take i ds).
    { unfold overlay_inv in Hnd. simpl in Hnd. rewrite <-(take_drop_middle ds i d Hd), fmap_app in Hnd.
      apply NoDup_app in Hnd as (_ & Hd' & _). intros Hin. apply (Hd' _ Hin). rewrite fmap_cons, Hk. apply list_elem_of_here. }
    rewrite insert_union_r.
    2: { apply not_elem_of_list_to_map. by rewrite <-list_fmap_compose. }
    by rewrite insert_insert_eq.
  - assert (Hn : (lower t, lower c, r) ∉ key_of <$> Overlay.deltas o).
    { apply find_index_None in Hi. intros (d & Hd & Hin)%list_elem_of_fmap.
      apply (proj1 (Forall_forall _ _) Hi) in Hin. apply bool_decide_eq_false in Hin. congruence. }
    destruct o as [ds]; simpl in *. split.
    + unfold overlay_inv. simpl. rewrite fmap_app. apply NoDup_app. split_and!; [done| |apply NoDup_singleton].
      intros x Hx ->%list_elem_of_singleton. done.
    + unfold overlay_abs. simpl. rewrite fmap_app. simpl. apply list_to_map_snoc. by rewrite <-list_fmap_compose.
Qed.

(** ** Draining *)
Abbreviation ready through := (λ d, Delta.generation d ≤ through).

Lemma clone_delta d : Delta.clone d = d.
Proof. by destruct d. Qed.

(** The loop from [index] on: it takes the first [max - |drained|] ready entries. *)
Fixpoint drain_spec (through : Z) (n : nat) (items : list Delta.t) : list Delta.t * list Delta.t :=
  match items with
  | [] => ([], [])
  | d :: items' =>
      if (n =? 0)%nat then (items, [])
      else if through <? Delta.generation d
      then let '(kept, out) := drain_spec through n items' in (d :: kept, out)
      else let '(kept, out) := drain_spec through (n - 1) items' in (kept, d :: out)
  end.

Lemma drain_loop_spec fuel through max index items drained :
  (length items - index ≤ fuel)%nat → (length drained ≤ max)%nat →
  Overlay.drain_loop fuel through max index items drained =
    let '(kept, out) := drain_spec through (max - length drained) (drop index items) in
    (take index items ++ kept, drained ++ out).
Proof.
  revert index items drained. induction fuel as [|fuel IH]; intros index items drained Hf Hd; cbn [Overlay.drain_loop].
  - rewrite drop_ge, take_ge by lia. simpl. by rewrite !app_nil_r.
  - destruct (items !! index) as [d|] eqn:Hi.
    2: { apply lookup_ge_None in Hi. rewrite drop_ge, take_ge by done. simpl. by rewrite !app_nil_r. }
    pose proof (lookup_lt_Some _ _ _ Hi) as Hlt. rewrite (drop_S items d index Hi). cbn [drain_spec].
    destruct (Nat.ltb_spec (length drained) max), (Nat.eqb_spec (max - length drained) 0); try lia.
    2: { rewrite app_nil_r. by rewrite <-(drop_S items d index Hi), take_drop. }
    destruct (through <? Delta.generation d).
    + rewrite IH by lia. destruct (drain_spec _ _ _) as [kept out].
      by rewrite (take_S_r items index d Hi), <-app_assoc.
    + rewrite IH by (rewrite ?length_app, ?length_delete by eauto; simpl; lia).
      rewrite clone_delta, length_app. cbn [length].
      replace (max - length drained - 1)%nat with (max - (length drained + 1))%nat by lia.
      rewrite delete_take_drop, take_app_le, take_take, Nat.min_id by (rewrite length_take; lia).
      rewrite drop_app_length' by (rewrite length_take; lia).
      destruct (drain_spec _ _ _) as [kept out]. by rewrite <-app_assoc.
Qed.

Lemma drain_spec_facts through n items :
  let '(kept, out) := drain_spec through n items in
  out = take n (filter (ready through) items) ∧ items ≡ₚ kept ++ out ∧ kept `sublist_of` items ∧
  ((length out < n)%nat → Forall (λ d, through < Delta.generation d) kept).
Proof.
  revert n. induction items as [|d items IH]; intros n; cbn [drain_spec].
  { rewrite filter_nil, take_nil. split_and!; [done|done|constructor|constructor]. }
  destruct (Nat.eqb_spec n 0) as [->|Hn].
  { rewrite take_0, app_nil_r. split_and!; [done|done|done|simpl; lia]. }
  destruct (Z.ltb_spec through (Delta.generation d)) as [Hg|Hg].
  - specialize (IH n). destruct (drain_spec through n items) as [kept out]. destruct IH as (-> & Hp & Hs & Hk).
    rewrite filter_cons_False by lia. split_and!; [done| |by apply sublist_skip|].
    + simpl. by rewrite <-Hp.
    + intros Hl. constructor; [done|]. by apply Hk.
  - specialize (IH (n - 1)%nat). destruct (drain_spec through (n - 1) items) as [kept out].
    destruct IH as (-> & Hp & Hs & Hk). rewrite filter_cons_True by lia. split_and!.
    + destruct n; [done|]. simpl. by rewrite Nat.sub_0_r.
    + rewrite <-Permutation_middle. by constructor.
    + by apply sublist_cons.
    + simpl. intros Hl. apply Hk. lia.
Qed.

(** ** Properties *)
Inductive overlay_op := ORecord (generation : Z) (table column : bytes) (row : RowId) (vector : list Z).

Definition run_overlay (o : Overlay.t) (op : overlay_op) : Overlay.t :=
  let '(ORecord g t c r v) := op in Overlay.recordVector o g t c r v.

Definition run_map (m : gmap overlay_key (Z * list Z)) (op : overlay_op) : gmap overlay_key (Z * list Z) :=
  let '(ORecord g t c r v) := op in <[(lower t, lower c, r) := (g, v)]> m.

(** Recording vectors refines a map: after any sequence of [recordVector] calls the overlay
    holds at most one delta per table, column (up to case) and row, carrying the vector and generation
    recorded last. *)
Theorem overlay_refines_map (ops : list overlay_op) :
  let o := foldl run_overlay Overlay.init ops in
  NoDup (key_of <$> Overlay.deltas o) ∧ overlay_abs o = foldl run_map ∅ ops.
Proof.
  assert (Hrun : ∀ o m, overlay_inv o → overlay_abs o = m →
    overlay_inv (foldl run_overlay o ops) ∧ overlay_abs (foldl run_overlay o ops) = foldl run_map m ops).
  { induction ops as [|[g t c r v] ops IH]; intros o m Hi Hm; [done|]. simpl.
    destruct (recordVector_refines o g t c r v Hi) as [Hi' Hm']. apply IH; [done|]. by rewrite Hm', Hm. }
  apply Hrun; [|done]. unfold overlay_inv. simpl. constructor.
Qed.

(** [drainReady] hands out exactly the first [max_count] deltas, in recording order, whose
    generation is at most the requested one, loses none of the others and keeps their order; if it
    returns fewer than [max_count], nothing that was ready is left. *)
Theorem drainReady_spec (o : Overlay.t) (through : Z) (max_count : nat) :
  let '(o', drained) := Overlay.drainReady o through max_count in
  drained = take max_count (filter (ready through) (Overlay.deltas o)) ∧
  Overlay.deltas o ≡ₚ Overlay.deltas o' ++ drained ∧
  Overlay.deltas o' `sublist_of` Overlay.deltas o ∧
  ((length drained < max_count)%nat → Forall (λ d, through < Delta.generation d) (Overlay.deltas o')).
Proof.
  unfold Overlay.drainReady. destruct (Nat.eqb_spec max_count 0) as [->|Hn].
  - rewrite take_0, app_nil_r. split_and!; [done|done|done|simpl; lia].
  - rewrite drain_loop_spec by (simpl; lia). cbn [length take drop app]. rewrite Nat.sub_0_r.
    pose proof (drain_spec_facts through max_count (Overlay.deltas o)) as H.
    destruct (drain_spec _ _ _) as [kept out]. exact H.
Qed.
