(* ===== verification/Tokenizer.v ===== *)
(** * The SQL tokenizer

    Models [src/src/sql/tokenizer.zig].  The tokenizer is its input and an index; every [while]
    loop becomes a recursion with fuel [length input], which the loops cannot exhaust because
    each iteration advances the index ([scan_while_stops], [skipTrivia_stops], [tokenize_complete]). *)

From S2P Require Import Prelude.

Inductive TokenKind := identifier | number | string_ | symbol.

#[global] Instance TokenKind_eq_dec : EqDecision TokenKind.
Proof. solve_decision. Defined.

Module Token.
Record t := mk { kind : TokenKind; lexeme : bytes; offset : nat; terminated : bool }.

Definition eqlIgnoreCase (self : t) (expected : bytes) : bool :=
  bool_decide (kind self = identifier) && Prelude.eqlIgnoreCase (lexeme self) expected.
End Token.

Definition is_char (c : byte) (code : Z) : bool := byte_val c =? code.

Definition isIdentifierStart (c : byte) : bool := isAlphabetic c || is_char c 95.
Definition isIdentifierContinue (c : byte) : bool := isAlphanumeric c || is_char c 95 || is_char c 36.
Definition isNumberContinue (c : byte) : bool := isAlphanumeric c || is_char c 46 || is_char c 95.

Section tokenizer.
Context (input : bytes).

(** [while (index < len and p(input[index])) index += 1;] *)
Fixpoint scan_while (p : byte → bool) (fuel index : nat) : nat :=
  match fuel with
  | O => index
  | S fuel' =>
      match input !! index with
      | Some c => if p c then scan_while p fuel' (S index) else index
      | None => index
      end
  end.

Definition skipLineComment (index : nat) : nat :=
  scan_while (λ c, negb (is_char c 10)) (length input) index.

Fixpoint block_comment_loop (fuel index : nat) : nat :=
  match fuel with
  | O => length input
  | S fuel' =>
      match input !! index, input !! S index with
      | Some a, Some b => if is_char a 42 && is_char b 47 then index + 2 else block_comment_loop fuel' (S index)
      | _, _ => length input
      end
  end.

Definition skipBlockComment (index : nat) : nat := block_comment_loop (length input) index.

(** [index + 1 < len and input[index + 1] == code] *)
Definition next_is (index : nat) (code : Z) : bool :=
  match input !! S index with Some b => is_char b code | None => false end.

Fixpoint trivia_loop (fuel index : nat) : nat :=
  match fuel with
  | O => index
  | S fuel' =>
      match input !! index with
      | None => index
      | Some c =>
          if isWhitespace c then trivia_loop fuel' (S index)
          else if is_char c 35 then trivia_loop fuel' (skipLineComment index)
          else if is_char c 45 && next_is index 45 then trivia_loop fuel' (skipLineComment (index + 2))
          else if is_char c 47 && next_is index 42 then trivia_loop fuel' (skipBlockComment (index + 2))
          else index
      end
  end.

Definition skipTrivia (index : nat) : nat := trivia_loop (S (length input)) index.

(** The loop of [readQuoted] after the opening quote: the end index and whether the literal was
    closed. *)
Fixpoint quoted_loop (quote : byte) (fuel index : nat) : nat * bool :=
  match fuel with
  | O => (index, false)
  | S fuel' =>
      match input !! index with
      | None => (index, false)
      | Some c =>
          let index := S index in
          if is_char c 92 && negb (is_char quote 39) && (index <? length input)%nat
          then quoted_loop quote fuel' (S index)
          else if bool_decide (c = quote) then
            if bool_decide (input !! index = Some quote) then quoted_loop quote fuel' (S index)
            else (index, true)
          else quoted_loop quote fuel' index
      end
  end.

(** [input[start..stop]] *)
Definition slice (start stop : nat) : bytes := take (stop - start) (drop start input).

Definition readQuoted (quote : byte) (start : nat) : Token.t * nat :=
  let '(stop, terminated) := quoted_loop quote (length input) (S start) in
  (Token.mk (if is_char quote 96 then identifier else string_) (slice start stop) start terminated, stop).

(** [Tokenizer.next] at an index: the token and the index after it. *)
Definition next (index : nat) : option (Token.t * nat) :=
  let start := skipTrivia index in
  match input !! start with
  | None => None
  | Some c =>
      if isIdentifierStart c then
        let stop := scan_while isIdentifierContinue (length input) (S start) in
        Some (Token.mk identifier (slice start stop) start true, stop)
      else if isDigit c then
        let stop := scan_while isNumberContinue (length input) (S start) in
        Some (Token.mk number (slice start stop) start true, stop)
      else if is_char c 39 || is_char c 34 || is_char c 96 then Some (readQuoted c start)
      else Some (Token.mk symbol (slice start (S start)) start true, S start)
  end.

(** All tokens: [while (tokens.next()) |token| ...]. *)
Fixpoint tokens_from (fuel index : nat) : list Token.t :=
  match fuel with
  | O => []
  | S fuel' => match next index with None => [] | Some (t, index') => t :: tokens_from fuel' index' end
  end.

(** ** Progress and bounds *)
Lemma scan_while_bounds p fuel index :
  (index ≤ length input)%nat → (index ≤ scan_while p fuel index ≤ length input)%nat.
Proof.
  revert index. induction fuel as [|fuel IH]; intros index Hi; simpl; [lia|].
  destruct (input !! index) as [c|] eqn:Hc; [|lia]. apply lookup_lt_Some in Hc.
  destruct (p c); [|lia]. specialize (IH (S index)). lia.
Qed.

(** The loop ends because its condition failed, not for lack of fuel. *)
Lemma scan_while_stops p fuel index :
  (length input - index ≤ fuel)%nat →
  match input !! scan_while p fuel index with Some c => p c = false | None => True end.
Proof.
  revert index. induction fuel as [|fuel IH]; intros index Hf; simpl.
  - by rewrite (proj2 (lookup_ge_None _ _)) by lia.
  - destruct (input !! index) as [c|] eqn:Hc; [|by rewrite Hc].
    apply lookup_lt_Some in Hc as Hlt. destruct (p c) eqn:Hp; [apply IH; lia|by rewrite Hc].
Qed.

Lemma scan_while_all p fuel index j c :
  (index ≤ j < scan_while p fuel index)%nat → input !! j = Some c → p c = true.
Proof.
  revert index. induction fuel as [|fuel IH]; intros index Hj Hc; simpl in Hj; [lia|].
  destruct (input !! index) as [d|] eqn:Hd; [|lia]. destruct (p d) eqn:Hp; [|lia].
  destruct (decide (j = index)) as [->|]; [congruence|]. apply (IH (S index)); [lia|done].
Qed.

Lemma block_comment_bounds fuel index :
  (index ≤ length input)%nat → (index ≤ block_comment_loop fuel index ≤ length input)%nat.
Proof.
  revert index. induction fuel as [|fuel IH]; intros index Hi; simpl; [lia|].
  destruct (input !! index) as [a|] eqn:Ha; [|lia]. destruct (input !! S index) as [b|] eqn:Hb; [|lia].
  apply lookup_lt_Some in Hb. destruct (_ && _); [lia|]. specialize (IH (S index)). lia.
Qed.

Lemma next_is_lt index code : next_is index code = true → (S index < length input)%nat.
Proof. unfold next_is. destruct (input !! S index) eqn:H; [|done]. intros _. by apply lookup_lt_Some in H. Qed.

Lemma skipLineComment_hash index c :
  input !! index = Some c → is_char c 35 = true → (index < skipLineComment index ≤ length input)%nat.
Proof.
  intros Hc H35. unfold skipLineComment. apply lookup_lt_Some in Hc as Hlt.
  destruct (length input) as [|n] eqn:Hn; [lia|]. cbn [scan_while]. rewrite Hc.
  assert (is_char c 10 = false) as -> by (unfold is_char in *; lia). cbn [negb].
  pose proof (scan_while_bounds (λ c, negb (is_char c 10)) n (S index)). lia.
Qed.

Lemma trivia_bounds fuel index :
  (index ≤ length input)%nat → (index ≤ trivia_loop fuel index ≤ length input)%nat.
Proof.
  revert index. induction fuel as [|fuel IH]; intros index Hi; cbn [trivia_loop]; [lia|].
  destruct (input !! index) as [c|] eqn:Hc; [|lia]. apply lookup_lt_Some in Hc as Hlt.
  destruct (isWhitespace c); [specialize (IH (S index)); lia|].
  destruct (is_char c 35) eqn:H35.
  { pose proof (skipLineComment_hash index c Hc H35). specialize (IH (skipLineComment index)). lia. }
  destruct (is_char c 45 && next_is index 45) eqn:H45.
  { apply andb_true_iff in H45 as [_ H%next_is_lt].
    pose proof (scan_while_bounds (λ c, negb (is_char c 10)) (length input) (index + 2)).
    unfold skipLineComment. specialize (IH (skipLineComment (index + 2))). unfold skipLineComment in IH. lia. }
  destruct (is_char c 47 && next_is index 42) eqn:H47; [|lia].
  apply andb_true_iff in H47 as [_ H%next_is_lt].
  pose proof (block_comment_bounds (length input) (index + 2)).
  specialize (IH (skipBlockComment (index + 2))). unfold skipBlockComment in *. lia.
Qed.

(** The character at which trivia ends starts a token. *)
Definition starts_token (index : nat) : bool :=
  match input !! index with
  | None => true
  | Some c => negb (isWhitespace c) && negb (is_char c 35) && negb (is_char c 45 && next_is index 45)
              && negb (is_char c 47 && next_is index 42)
  end.

Lemma trivia_stops fuel index :
  (length input < fuel + index)%nat → (index ≤ length input)%nat → starts_token (trivia_loop fuel index) = true.
Proof.
  revert index. induction fuel as [|fuel IH]; intros index Hf Hi; [lia|]. cbn [trivia_loop].
  destruct (input !! index) as [c|] eqn:Hc; [|unfold starts_token; by rewrite Hc].
  apply lookup_lt_Some in Hc as Hlt. destruct (isWhitespace c) eqn:Hw; [apply IH; lia|].
  destruct (is_char c 35) eqn:H35.
  { pose proof (skipLineComment_hash index c Hc H35). apply IH; lia. }
  destruct (is_char c 45 && next_is index 45) eqn:H45.
  { apply andb_true_iff in H45 as [_ H%next_is_lt].
    pose proof (scan_while_bounds (λ c, negb (is_char c 10)) (length input) (index + 2)).
    apply IH; unfold skipLineComment; lia. }
  destruct (is_char c 47 && next_is index 42) eqn:H47.
  { apply andb_true_iff in H47 as [_ H%next_is_lt].
    pose proof (block_comment_bounds (length input) (index + 2)). apply IH; unfold skipBlockComment; lia. }
  unfold starts_token. by rewrite Hc, Hw, H35, H45, H47.
Qed.

Lemma quoted_bounds quote fuel index :
  (index ≤ length input)%nat → (index ≤ (quoted_loop quote fuel index).1 ≤ length input)%nat.
Proof.
  revert index. induction fuel as [|fuel IH]; intros index Hi; cbn [quoted_loop]; [simpl; lia|].
  destruct (input !! index) as [c|] eqn:Hc; [|simpl; lia]. apply lookup_lt_Some in Hc as Hlt.
  destruct (is_char c 92 && negb (is_char quote 39) && (S index <? length input)%nat) eqn:He.
  { apply andb_true_iff in He as [_ He%Nat.ltb_lt]. specialize (IH (S (S index))). lia. }
  case_bool_decide.
  - case_bool_decide as Hq; [|simpl; lia]. apply lookup_lt_Some in Hq. specialize (IH (S (S index))). lia.
  - specialize (IH (S index)). lia.
Qed.
End tokenizer.

Definition tokenize (sql : bytes) : list Token.t := tokens_from sql (S (length sql)) 0.

(** [t] is the slice of [sql] from its offset to [stop], after [from]. *)
Record token_at (sql : bytes) (from : nat) (t : Token.t) (stop : nat) : Prop := {
  ta_from : (from ≤ Token.offset t)%nat;
  ta_stop : (Token.offset t < stop ≤ length sql)%nat;
  ta_lexeme : Token.lexeme t = slice sql (Token.offset t) stop }.

Lemma next_token sql index t stop :
  (index ≤ length sql)%nat → next sql index = Some (t, stop) → token_at sql index t stop.
Proof.
  intros Hi H. unfold next in H. pose proof (trivia_bounds sql (S (length sql)) index Hi) as Ht.
  fold (skipTrivia sql index) in Ht. set (start := skipTrivia sql index) in *.
  destruct (sql !! start) as [c|] eqn:Hc; [|done]. apply lookup_lt_Some in Hc as Hlt.
  destruct (isIdentifierStart c).
  { injection H as <- <-. pose proof (scan_while_bounds sql isIdentifierContinue (length sql) (S start)).
    split; simpl; lia || done. }
  destruct (isDigit c).
  { injection H as <- <-. pose proof (scan_while_bounds sql isNumberContinue (length sql) (S start)).
    split; simpl; lia || done. }
  destruct (_ || _); [|injection H as <- <-; split; simpl; lia || done].
  unfold readQuoted in H. pose proof (quoted_bounds sql c (length sql) (S start)) as Hq.
  destruct (quoted_loop sql c (length sql) (S start)) as [e term]. injection H as <- <-. simpl in Hq.
  split; simpl; lia || done.
Qed.

Lemma slice_length sql start stop :
  (stop ≤ length sql)%nat → (start ≤ stop)%nat → length (slice sql start stop) = (stop - start)%nat.
Proof. intros H1 H2. unfold slice. rewrite length_take, length_drop. lia. Qed.

(** Tokens in order, each a non-empty slice at its offset that ends before the next begins. *)
Fixpoint chained (sql : bytes) (from : nat) (ts : list Token.t) : Prop :=
  match ts with
  | [] => True
  | t :: ts' =>
      (from ≤ Token.offset t)%nat ∧ Token.lexeme t ≠ [] ∧
      (Token.offset t + length (Token.lexeme t) ≤ length sql)%nat ∧
      Token.lexeme t = take (length (Token.lexeme t)) (drop (Token.offset t) sql) ∧
      chained sql (Token.offset t + length (Token.lexeme t)) ts'
  end.

Lemma token_at_chained sql from t stop :
  token_at sql from t stop →
  (from ≤ Token.offset t)%nat ∧ Token.lexeme t ≠ [] ∧
  (Token.offset t + length (Token.lexeme t))%nat = stop ∧
  Token.lexeme t = take (length (Token.lexeme t)) (drop (Token.offset t) sql).
Proof.
  intros [H1 H2 H3]. assert (Hl : length (Token.lexeme t) = (stop - Token.offset t)%nat).
  { rewrite H3. apply slice_length; lia. }
  split_and!; [done| |lia|by rewrite Hl].
  intros E. rewrite E in Hl. simpl in Hl. lia.
Qed.

Lemma tokens_chained sql fuel index : (index ≤ length sql)%nat → chained sql index (tokens_from sql fuel index).
Proof.
  revert index. induction fuel as [|fuel IH]; intros index Hi; cbn [tokens_from]; [done|].
  destruct (next sql index) as [[t stop]|] eqn:Hn; [|done]. apply next_token in Hn; [|done].
  pose proof (ta_stop _ _ _ _ Hn). apply token_at_chained in Hn as (H1 & H2 & H3 & H4). cbn [chained].
  rewrite H3. split_and!; [done|done|lia|done|]. apply IH. lia.
Qed.

Lemma tokens_fuel sql fuel fuel' index :
  (index ≤ length sql)%nat → (length sql < fuel + index)%nat → (length sql < fuel' + index)%nat →
  tokens_from sql fuel index = tokens_from sql fuel' index.
Proof.
  revert fuel' index. induction fuel as [|fuel IH]; intros fuel' index Hi H1 H2; [lia|].
  destruct fuel' as [|fuel']; [lia|]. cbn [tokens_from].
  destruct (next sql index) as [[t stop]|] eqn:Hn; [|done]. apply next_token in Hn as [? [? ?] _]; [|done].
  f_equal. apply IH; lia.
Qed.

(** ** Properties *)

(** C37: the tokenizer makes progress and terminates: the tokens of an input are non-empty slices
    of it, in order and without overlap, each recorded with its true offset, and the loop over
    [next] ends by itself within [length sql + 1] steps. *)
Theorem tokenize_complete (sql : bytes) (fuel : nat) :
  chained sql 0 (tokenize sql) ∧
  (length (tokenize sql) ≤ length sql)%nat ∧
  ((length sql < fuel)%nat → tokens_from sql fuel 0 = tokenize sql).
Proof.
  split; [apply tokens_chained; lia|]. split.
  - assert (H : ∀ ts from, chained sql from ts → (from ≤ length sql)%nat → (from + length ts ≤ length sql)%nat).
    { induction ts as [|t ts IH]; intros from Hc Hf; simpl; [lia|].
      destruct Hc as (H1 & H2 & H3 & _ & H4). apply IH in H4; [|lia].
      destruct (Token.lexeme t); [done|]. simpl in *. lia. }
    apply (H _ 0%nat); [apply tokens_chained; lia|lia].
  - intros Hf. apply tokens_fuel; lia.
Qed.

(** The tokenizer takes the longest match and skips exactly the trivia: a token starts at the first
    position that is neither white space nor the start of a comment; an unquoted identifier
    consists of identifier characters and is not followed by another one, and likewise a number. *)
Theorem next_longest_match (sql : bytes) (index stop : nat) (t : Token.t) :
  (index ≤ length sql)%nat → next sql index = Some (t, stop) →
  starts_token sql (Token.offset t) = true ∧
  (∀ c, sql !! Token.offset t = Some c → isIdentifierStart c || isDigit c = true →
     let p := if isIdentifierStart c then isIdentifierContinue else isNumberContinue in
     Token.kind t = (if isIdentifierStart c then identifier else number) ∧
     (∀ j d, (Token.offset t < j < stop)%nat → sql !! j = Some d → p d = true) ∧
     match sql !! stop with Some d => p d = false | None => True end).
Proof.
  intros Hi H. unfold next in H. pose proof (trivia_stops sql (S (length sql)) index ltac:(lia) Hi) as Hs.
  fold (skipTrivia sql index) in Hs. set (start := skipTrivia sql index) in *.
  destruct (sql !! start) as [c|] eqn:Hc; [|done].
  destruct (isIdentifierStart c) eqn:Hid.
  - injection H as <- <-. split; [done|]. simpl. intros d Hd _. rewrite Hc in Hd. injection Hd as <-. rewrite Hid.
    split; [done|]. split.
    + intros j d Hj Hd. apply (scan_while_all sql isIdentifierContinue (length sql) (S start) j d); [lia|done].
    + apply scan_while_stops. lia.
  - destruct (isDigit c) eqn:Hdg.
    + injection H as <- <-. split; [done|]. simpl. intros d Hd _. rewrite Hc in Hd. injection Hd as <-. rewrite Hid.
      split; [done|]. split.
      * intros j d Hj Hd. apply (scan_while_all sql isNumberContinue (length sql) (S start) j d); [lia|done].
      * apply scan_while_stops. lia.
    + assert (Ho : Token.offset t = start).
      { destruct (_ || _); [|by injection H as <- _]. unfold readQuoted in H.
        destruct (quoted_loop _ _ _ _). by injection H as <- _. }
      rewrite Ho. split; [done|]. intros d Hd. rewrite Hc in Hd. injection Hd as <-. by rewrite Hid, Hdg.
Qed.

Lemma next_longest_match_witness :
  ∃ t stop, next (B "  -- c
 abc1 = 2") 0 = Some (t, stop) ∧ Token.lexeme t = B "abc1" ∧
    starts_token (B "  -- c
 abc1 = 2") (Token.offset t) = true.
Proof.
  eexists _, _. split; [vm_compute; reflexivity|]. split; [reflexivity|].
  eapply (next_longest_match _ 0); [lia|vm_compute; reflexivity].
Defined.
