(* ===== verification/Policy.v ===== *)
(** * The SQL surface policy

    Models [src/src/sql/policy.zig]: a scan over the tokens that rejects SQL features outside the
    embedded surface before parsing. *)

From S2P Require Import Prelude Tokenizer.

Inductive UnsupportedFeature :=
  | foreign_key | temporary_table | storage_engine_selection | replication_ | user_auth | plugin_.

Definition feature_label (self : UnsupportedFeature) : bytes :=
  match self with
  | foreign_key => B "foreign keys"
  | temporary_table => B "temporary tables"
  | storage_engine_selection => B "storage engine selection"
  | replication_ => B "replication/binlog"
  | user_auth => B "users/grants/auth"
  | plugin_ => B "plugins"
  end.

Module PolicyViolation.
Record t := mk { feature : UnsupportedFeature; offset : nat; token : bytes }.
Definition message (self : t) : bytes := feature_label (feature self).
End PolicyViolation.

Inductive Keyword :=
  | begin | binlog | commit | create | engine | foreign | grant | install | key | plugin | replication
  | references | revoke | rollback | table | temp | temporary | uninstall | user | view | procedure.

#[global] Instance Keyword_eq_dec : EqDecision Keyword.
Proof. solve_decision. Defined.

Definition keyword_names : list (bytes * Keyword) :=
  [(B "BEGIN", begin); (B "BINLOG", binlog); (B "COMMIT", commit); (B "CREATE", create);
   (B "ENGINE", engine); (B "FOREIGN", foreign); (B "GRANT", grant); (B "INSTALL", install);
   (B "KEY", key); (B "PLUGIN", plugin); (B "PROCEDURE", procedure); (B "REPLICATION", replication);
   (B "REFERENCES", references); (B "REVOKE", revoke); (B "ROLLBACK", rollback); (B "TABLE", table);
   (B "TEMP", temp); (B "TEMPORARY", temporary); (B "UNINSTALL", uninstall); (B "USER", user);
   (B "VIEW", view)].

(** The chain of [if (token.eqlIgnoreCase(...)) return ...;] *)
Definition keywordOf (token : Token.t) : option Keyword :=
  i ← find_index (λ nk, Token.eqlIgnoreCase token nk.1) keyword_names; snd <$> keyword_names !! i.

Definition violation (feature : UnsupportedFeature) (token : Token.t) : PolicyViolation.t :=
  PolicyViolation.mk feature (Token.offset token) (Token.lexeme token).

(** The loop variables; [SeenKeyword] pairs a keyword with its offset. *)
Record policy_state := PolicyState {
  prev : option (Keyword * nat); prev2 : option (Keyword * nat);
  in_create_table : bool; paren_depth : Z }.

Definition policy_start : policy_state := PolicyState None None false 0.

Definition seen (o : option (Keyword * nat)) (ks : list Keyword) : bool :=
  match o with Some (k, _) => bool_decide (k ∈ ks) | None => false end.

(** One iteration: stop with a violation, or the next state. *)
Definition policy_step (s : policy_state) (token : Token.t) : PolicyViolation.t + policy_state :=
  if decide (Token.kind token = symbol) then
    if decide (Token.lexeme token = B ";") then inr policy_start
    else if in_create_table s && bool_decide (Token.lexeme token = B "(")
    then inr (PolicyState (prev s) (prev2 s) (in_create_table s) (paren_depth s + 1))
    else if in_create_table s && bool_decide (Token.lexeme token = B ")")
    then inr (PolicyState (prev s) (prev2 s) (in_create_table s)
                (if 0 <? paren_depth s then paren_depth s - 1 else paren_depth s))
    else inr s
  else if decide (Token.kind token ≠ identifier) then inr s
  else match keywordOf token with
  | None => inr s
  | Some keyword =>
      if bool_decide (keyword ∈ [grant; revoke]) then inl (violation user_auth token)
      else if bool_decide (keyword ∈ [binlog; replication]) then inl (violation replication_ token)
      else if bool_decide (keyword = references) then inl (violation foreign_key token)
      else if seen (prev s) [foreign] && bool_decide (keyword = key) then inl (violation foreign_key token)
      else if seen (prev s) [create] && bool_decide (keyword = user) then inl (violation user_auth token)
      else if seen (prev s) [install; uninstall] && bool_decide (keyword = plugin) then inl (violation plugin_ token)
      else
        let is_table := bool_decide (keyword = table) in
        if is_table && seen (prev s) [temporary; temp] then inl (violation temporary_table token)
        else
          let opens := is_table && seen (prev s) [create] in
          let in_create := if opens then true else in_create_table s in
          let depth := if opens then 0 else paren_depth s in
          if is_table && seen (prev2 s) [create] && seen (prev s) [temporary; temp]
          then inl (violation temporary_table token)
          else if in_create && (depth =? 0) && bool_decide (keyword = engine)
          then inl (violation storage_engine_selection token)
          else inr (PolicyState (Some (keyword, Token.offset token)) (prev s) in_create depth)
  end.

Fixpoint policy_loop (s : policy_state) (tokens : list Token.t) : option PolicyViolation.t :=
  match tokens with
  | [] => None
  | token :: rest =>
      match policy_step s token with
      | inl v => Some v
      | inr s' => policy_loop s' rest
      end
  end.

Definition firstViolation (sql : bytes) : option PolicyViolation.t := policy_loop policy_start (tokenize sql).

Definition accepts (sql : bytes) : bool := bool_decide (firstViolation sql = None).

(** ** What the policy forbids, on the stream of keywords

    [None] marks the end of a statement; other tokens do not interrupt a pair of keywords. *)
Definition keyword_event (t : Token.t) : option (option Keyword) :=
  match Token.kind t with
  | symbol => if decide (Token.lexeme t = B ";") then Some None else None
  | identifier => Some <$> keywordOf t
  | _ => None
  end.

Definition keyword_stream (ts : list Token.t) : list (option Keyword) := omap keyword_event ts.

Definition forbidden_words : list Keyword := [grant; revoke; binlog; replication; references].

Definition forbidden_pairs : list (Keyword * Keyword) :=
  [(foreign, key); (create, user); (install, plugin); (uninstall, plugin); (temporary, table); (temp, table)].

Fixpoint clean_from (p : option Keyword) (stream : list (option Keyword)) : Prop :=
  match stream with
  | [] => True
  | None :: s => clean_from None s
  | Some k :: s =>
      k ∉ forbidden_words ∧ match p with Some q => (q, k) ∉ forbidden_pairs | None => True end ∧ clean_from (Some k) s
  end.

(** A pair of keywords side by side in one statement. *)
Definition adjacent (stream : list (option Keyword)) (a b : Keyword) : Prop :=
  ∃ l1 l2, stream = l1 ++ Some a :: Some b :: l2.

Definition clean (stream : list (option Keyword)) : Prop :=
  (∀ k, Some k ∈ stream → k ∉ forbidden_words) ∧ (∀ a b, adjacent stream a b → (a, b) ∉ forbidden_pairs).

Lemma adjacent_cons o s a b :
  adjacent (o :: s) a b ↔ (o = Some a ∧ ∃ s', s = Some b :: s') ∨ adjacent s a b.
Proof.
  split.
  - intros (l1 & l2 & H). destruct l1 as [|x l1]; simpl in H; injection H as -> ->.
    + left. eauto.
    + right. by exists l1, l2.
  - intros [[-> [s' ->]]|(l1 & l2 & ->)]; [by exists [], s'|]. by exists (o :: l1), l2.
Qed.

Lemma clean_from_iff p stream :
  clean_from p stream ↔ clean stream ∧
    match p, stream with Some q, Some k :: _ => (q, k) ∉ forbidden_pairs | _, _ => True end.
Proof.
  unfold clean. revert p. induction stream as [|[k|] s IH]; intros p; cbn [clean_from].
  - split; [|done]. intros _. split; [|by destruct p]. split; [by intros k ?%not_elem_of_nil|].
    intros a b ([|] & l2 & H); done.
  - rewrite IH. split.
    + intros (Hk & Hp & [H1 H2] & H3). split; [|by destruct p]. split.
      * intros k' [[= ->]|Hin]%elem_of_cons; auto.
      * intros a b [[[= ->] [s' ->]]|Hab]%adjacent_cons; auto.
    + intros [[H1 H2] H3]. split_and!.
      * apply H1, list_elem_of_here.
      * by destruct p.
      * intros k' Hin. apply H1. by apply list_elem_of_further.
      * intros a b Hab. apply H2, adjacent_cons. by right.
      * destruct s as [|[b|] s']; try done. apply H2, adjacent_cons. left. eauto.
  - rewrite IH. split.
    + intros [[H1 H2] _]. split; [|by destruct p]. split.
      * intros k' [?|Hin]%elem_of_cons; [done|auto].
      * intros a b [[? _]|Hab]%adjacent_cons; [done|auto].
    + intros [[H1 H2] _]. split; [|done]. split.
      * intros k' Hin. apply H1. by apply list_elem_of_further.
      * intros a b Hab. apply H2, adjacent_cons. by right.
Qed.

Lemma keywordOf_identifier t k : keywordOf t = Some k → Token.kind t = identifier.
Proof.
  unfold keywordOf. intros (i & Hi & _)%bind_Some. apply find_index_lookup in Hi as (nk & _ & H).
  unfold Token.eqlIgnoreCase in H. by apply andb_true_iff in H as [?%bool_decide_eq_true _].
Qed.

(** ** The loop decides cleanliness *)
Lemma step_other s t :
  keyword_event t = None → ∃ s', policy_step s t = inr s' ∧ prev s' = prev s.
Proof.
  unfold keyword_event, policy_step. intros H. destruct (decide (Token.kind t = symbol)) as [Hs|Hs].
  - rewrite Hs in H. destruct (decide (Token.lexeme t = B ";")); [done|]. repeat case_match; eauto.
  - destruct (decide (Token.kind t ≠ identifier)) as [Hi|Hi]; [eauto|]. apply dec_stable in Hi. rewrite Hi in H.
    destruct (keywordOf t); [done|]. eauto.
Qed.

Lemma step_end s t : keyword_event t = Some None → policy_step s t = inr policy_start.
Proof.
  unfold keyword_event, policy_step. intros H. destruct (Token.kind t) eqn:Hk; try done.
  - by destruct (keywordOf t).
  - rewrite decide_True by done. by case_decide.
Qed.

(** The conditions of the keyword branch, the engine clause apart. *)
Definition rejects (p : option (Keyword * nat)) (k : Keyword) : bool :=
  bool_decide (k ∈ [grant; revoke]) || bool_decide (k ∈ [binlog; replication]) || bool_decide (k = references)
  || (seen p [foreign] && bool_decide (k = key)) || (seen p [create] && bool_decide (k = user))
  || (seen p [install; uninstall] && bool_decide (k = plugin))
  || (bool_decide (k = table) && seen p [temporary; temp]).

Definition forbids (p : option (Keyword * nat)) (k : Keyword) : bool :=
  bool_decide (k ∈ forbidden_words) ||
  match p with Some (q, _) => bool_decide ((q, k) ∈ forbidden_pairs) | None => false end.

Lemma rejects_forbids p k : rejects p k = forbids p k.
Proof. destruct p as [[q o]|]; [destruct q|]; destruct k; reflexivity. Qed.

Lemma step_keyword s t k :
  keyword_event t = Some (Some k) → k ≠ engine →
  if forbids (prev s) k then ∃ v, policy_step s t = inl v
  else ∃ s', policy_step s t = inr s' ∧ prev s' = Some (k, Token.offset t).
Proof.
  intros Hev He. rewrite <-rejects_forbids. unfold keyword_event in Hev.
  destruct (Token.kind t) eqn:Hk; try done; [|by destruct (decide (Token.lexeme t = B ";"))].
  destruct (keywordOf t) as [k'|] eqn:Hkw; [|done]. injection Hev as ->.
  unfold policy_step, rejects. cbv zeta. rewrite Hk, Hkw, decide_False, decide_False by (done || tauto).
  rewrite (bool_decide_eq_false_2 (k = engine)) by done. rewrite !andb_false_r.
  destruct (bool_decide (k ∈ [grant; revoke])); cbn [orb]; [eauto|].
  destruct (bool_decide (k ∈ [binlog; replication])); cbn [orb]; [eauto|].
  destruct (bool_decide (k = references)); cbn [orb]; [eauto|].
  destruct (seen (prev s) [foreign] && bool_decide (k = key)); cbn [orb]; [eauto|].
  destruct (seen (prev s) [create] && bool_decide (k = user)); cbn [orb]; [eauto|].
  destruct (seen (prev s) [install; uninstall] && bool_decide (k = plugin)); cbn [orb]; [eauto|].
  destruct (bool_decide (k = table)), (seen (prev s) [temporary; temp]);
    cbn [andb orb]; rewrite ?andb_false_r; cbn [andb]; rewrite ?andb_false_r; eauto.
Qed.

Lemma policy_loop_clean ts s :
  Some engine ∉ keyword_stream ts →
  policy_loop s ts = None ↔ clean_from (fst <$> prev s) (keyword_stream ts).
Proof.
  revert s. induction ts as [|t ts IH]; intros s He; [done|]. unfold keyword_stream in *. cbn [policy_loop omap list_omap].
  cbn [omap list_omap] in He. destruct (keyword_event t) as [[k|]|] eqn:Hev.
  - apply not_elem_of_cons in He as [Hk He].
    pose proof (step_keyword s t k Hev ltac:(congruence)) as Hs. cbn [clean_from]. unfold forbids in Hs.
    destruct (bool_decide (k ∈ forbidden_words)) eqn:Hw; cbn [orb] in Hs.
    { apply bool_decide_eq_true in Hw. destruct Hs as [v ->]. split; [done|]. intros [? _]. tauto. }
    apply bool_decide_eq_false in Hw. destruct (prev s) as [[q qo]|]; simpl.
    + destruct (bool_decide ((q, k) ∈ forbidden_pairs)) eqn:Hp.
      * apply bool_decide_eq_true in Hp. destruct Hs as [v ->]. split; [done|]. intros (_ & ? & _). tauto.
      * apply bool_decide_eq_false in Hp. destruct Hs as (s' & -> & Hs'). rewrite (IH s' He), Hs'. simpl. tauto.
    + destruct Hs as (s' & -> & Hs'). rewrite (IH s' He), Hs'. simpl. tauto.
  - rewrite (step_end s t Hev). apply not_elem_of_cons in He as [_ He]. by rewrite (IH _ He).
  - destruct (step_other s t Hev) as (s' & -> & Hs'). by rewrite (IH s' He), Hs'.
Qed.

(** ** Properties *)

(** On SQL without an [ENGINE] keyword the policy is exact: it accepts precisely the inputs in
    which no statement contains GRANT, REVOKE, BINLOG, REPLICATION or REFERENCES, and no statement has
    FOREIGN KEY, CREATE USER, INSTALL PLUGIN, UNINSTALL PLUGIN, TEMPORARY TABLE or TEMP TABLE as
    consecutive keywords; words inside string literals, quoted identifiers and comments never
    count. *)
Theorem policy_exact (sql : bytes) :
  Some engine ∉ keyword_stream (tokenize sql) →
  accepts sql = true ↔ clean (keyword_stream (tokenize sql)).
Proof.
  intros He. unfold accepts, firstViolation. rewrite bool_decide_eq_true, (policy_loop_clean _ _ He), clean_from_iff.
  simpl. tauto.
Qed.

Lemma policy_exact_witness :
  accepts (B "CREATE TABLE t (a INTEGER); SELECT 'GRANT' -- REVOKE") = true ∧
  clean (keyword_stream (tokenize (B "CREATE TABLE t (a INTEGER); SELECT 'GRANT' -- REVOKE"))).
Proof.
  assert (H : accepts (B "CREATE TABLE t (a INTEGER); SELECT 'GRANT' -- REVOKE") = true) by (vm_compute; reflexivity).
  split; [exact H|]. apply policy_exact; [|exact H].
  apply (bool_decide_eq_true_1 _). vm_compute. reflexivity.
Defined.

Lemma policy_loop_token ts s v :
  policy_loop s ts = Some v → ∃ t, t ∈ ts ∧ PolicyViolation.offset v = Token.offset t ∧
                                  PolicyViolation.token v = Token.lexeme t ∧ is_Some (keywordOf t).
Proof.
  revert s. induction ts as [|t ts IH]; intros s H; [done|]. cbn [policy_loop] in H.
  destruct (policy_step s t) as [v'|s'] eqn:Hs.
  - injection H as ->. exists t. split; [apply list_elem_of_here|]. unfold policy_step in Hs.
    repeat case_decide; try done; try (by repeat case_match).
    destruct (keywordOf t); [|done]. split; [|split; [|done]]; by repeat case_match; simplify_eq.
  - apply IH in H as (t' & ? & ?). exists t'. split; [by apply list_elem_of_further|done].
Qed.

(** A rejection points at the culprit: the violation carries the lexeme and the offset of a
    keyword token of the input, so the reported slice really stands at that offset. *)
Theorem violation_located (sql : bytes) (v : PolicyViolation.t) :
  firstViolation sql = Some v →
  PolicyViolation.token v = take (length (PolicyViolation.token v)) (drop (PolicyViolation.offset v) sql) ∧
  PolicyViolation.token v ≠ [] ∧ ∃ t, t ∈ tokenize sql ∧ PolicyViolation.offset v = Token.offset t ∧ is_Some (keywordOf t).
Proof.
  intros (t & Hin & Ho & Hl & Hk)%policy_loop_token. rewrite Ho, Hl.
  assert (Hall : ∀ ts from, chained sql from ts → t ∈ ts →
    Token.lexeme t = take (length (Token.lexeme t)) (drop (Token.offset t) sql) ∧ Token.lexeme t ≠ []).
  { induction ts as [|t' ts IH]; intros from Hc Ht; [by apply not_elem_of_nil in Ht|].
    destruct Hc as (_ & H1 & _ & H2 & Hc). apply elem_of_cons in Ht as [->|Ht]; [done|]. by eapply IH. }
  destruct (Hall _ 0%nat (tokens_chained sql (S (length sql)) 0 ltac:(lia)) Hin) as [H1 H2].
  split_and!; [done|done|]. by exists t.
Qed.

Lemma violation_located_witness :
  ∃ v, firstViolation (B "CREATE TABLE t (a INTEGER) ENGINE=x") = Some v ∧
       PolicyViolation.token v = take (length (PolicyViolation.token v))
         (drop (PolicyViolation.offset v) (B "CREATE TABLE t (a INTEGER) ENGINE=x")).
Proof.
  eexists. split; [vm_compute; reflexivity|].
  apply (violation_located (B "CREATE TABLE t (a INTEGER) ENGINE=x")). vm_compute. reflexivity.
Defined.
