(* ===== verification/Ast.v ===== *)
(** * The SQL syntax tree

    Models [src/src/sql/ast.zig]: the statement types the parser produces and the executor runs.
    Slices become lists, optional fields become [option], and the pointers that make the types
    recursive ([BinaryExpression.left], [CommonTableExpression.query], [JoinSource.left], ...) are
    the recursive occurrences of the inductive types.  [f64] literals are bit patterns (Float.v). *)

From S2P Require Import Prelude.

Module AstColumnType.
Inductive t := integer | float | boolean | text | blob | vector (dimension : Z).
End AstColumnType.

Module Literal.
Inductive t :=
  | null
  | integer (v : Z)
  | float (v : Z)
  | boolean (v : bool)
  | string (v : bytes)
  | vector (v : list Z).
End Literal.

Inductive BinaryOperator :=
  | add | subtract | equal | not_equal | less_than | less_equal | greater_than | greater_equal | and_op.

#[global] Instance AstColumnType_eq_dec : EqDecision AstColumnType.t.
Proof. solve_decision. Defined.
#[global] Instance Literal_eq_dec : EqDecision Literal.t.
Proof. solve_decision. Defined.
#[global] Instance BinaryOperator_eq_dec : EqDecision BinaryOperator.
Proof. solve_decision. Defined.

(** ** Expressions *)
Module Expression.
Inductive t :=
  | star
  | identifier (name : bytes)
  | literal (l : Literal.t)
  | function_call (name : bytes) (args : list t)
  | binary (left : t) (operator : BinaryOperator) (right : t).

(** Induction with a hypothesis for every argument of a call. *)
Fixpoint nested_ind (P : t → Prop) (Hstar : P star) (Hid : ∀ n, P (identifier n)) (Hlit : ∀ l, P (literal l))
    (Hcall : ∀ n args, Forall P args → P (function_call n args))
    (Hbin : ∀ l op r, P l → P r → P (binary l op r)) (e : t) : P e :=
  let rec := nested_ind P Hstar Hid Hlit Hcall Hbin in
  match e with
  | star => Hstar
  | identifier n => Hid n
  | literal l => Hlit l
  | function_call n args =>
      Hcall n args
        ((fix all (es : list t) : Forall P es :=
            match es with
            | [] => Forall_nil_2 P
            | a :: es' => Forall_cons_2 P a es' (rec a) (all es')
            end) args)
  | binary l op r => Hbin l op r (rec l) (rec r)
  end.
End Expression.

Module IdentifierParts.
Record t := mk { qualifier : option bytes; name : bytes }.
End IdentifierParts.

(** [std.mem.indexOfScalar(u8, s, '.')] *)
Definition index_of_dot (s : bytes) : option nat := find_index (λ c, byte_val c =? 46) s.

Definition identifierParts (identifier : bytes) : IdentifierParts.t :=
  match index_of_dot identifier with
  | Some dot => IdentifierParts.mk (Some (take dot identifier)) (drop (S dot) identifier)
  | None => IdentifierParts.mk None identifier
  end.

(** ** Statement parts *)
Module AstColumnDef.
Record t := mk {
  name : bytes;
  column_type : AstColumnType.t;
  nullable : bool;
  default_value : option Expression.t;
  primary_key : bool;
  auto_increment : bool;
}.
End AstColumnDef.

Module AstIndexDef.
Record t := mk { name : option bytes; columns : list bytes; primary : bool }.
End AstIndexDef.

Module Assignment.
Record t := mk { column : bytes; value : Expression.t }.
End Assignment.

Inductive OrderDirection := asc | desc.

Module OrderKey.
Record t := mk { expression : Expression.t; direction : OrderDirection }.
End OrderKey.

Module Projection.
Record t := mk { expression : Expression.t; alias : option bytes }.
End Projection.

Inductive JoinType := inner | cross | left_join.

(** [SelectStatement], [RowSource] with its three variants, and [CommonTableExpression]. *)
Inductive SelectStatement :=
  | Select
      (ctes : list CommonTableExpression)
      (projection_items : list Projection.t)
      (projections : list Expression.t)
      (from : option bytes)
      (source : option RowSource)
      (where_clause : option Expression.t)
      (group_by : list Expression.t)
      (having : option Expression.t)
      (order_by : list OrderKey.t)
      (limit : option Z)
with RowSource :=
  | base_table (name : bytes) (alias : option bytes)
  | derived_table (query : SelectStatement) (alias : bytes)
  | join (left : RowSource) (join_type : JoinType) (right : RowSource) (on : option Expression.t)
with CommonTableExpression :=
  | Cte (name : bytes) (query : SelectStatement).

Module CreateTable.
Record t := mk { name : bytes; if_not_exists : bool; columns : list AstColumnDef.t; indexes : list AstIndexDef.t }.
End CreateTable.

Module Insert.
Record t := mk { table_name : bytes; columns : list bytes; values : list Expression.t }.
End Insert.

Module Update.
Record t := mk { table_name : bytes; assignments : list Assignment.t; where_clause : option Expression.t }.
End Update.

Module Delete.
Record t := mk { table_name : bytes; where_clause : option Expression.t }.
End Delete.

Module CreateView.
Record t := mk { name : bytes; query : SelectStatement; body_sql : bytes }.
End CreateView.

Inductive ProcedureParamMode := mode_in.

Module ProcedureParam.
Record t := mk { name : bytes; column_type : AstColumnType.t; mode : ProcedureParamMode }.
End ProcedureParam.

Module CreateProcedure.
Record t := mk { name : bytes; params : list ProcedureParam.t; body_sql : bytes }.
End CreateProcedure.

Module Call.
Record t := mk { name : bytes; args : list Expression.t }.
End Call.

Module Named.
Record t := mk { name : bytes; if_exists : bool }.
End Named.

Module Statement.
Inductive t :=
  | create_table (s : CreateTable.t)
  | drop_table (s : Named.t)
  | insert (s : Insert.t)
  | select (s : SelectStatement)
  | update (s : Update.t)
  | delete (s : Delete.t)
  | begin
  | commit
  | rollback
  | create_view (s : CreateView.t)
  | drop_view (s : Named.t)
  | create_procedure (s : CreateProcedure.t)
  | drop_procedure (s : Named.t)
  | call (s : Call.t).
End Statement.

(** ** Copies

    Duplicating a tree rebuilds it node by node. *)
Definition cloneLiteral (source : Literal.t) : Literal.t :=
  match source with
  | Literal.null => Literal.null
  | Literal.integer v => Literal.integer v
  | Literal.float v => Literal.float v
  | Literal.boolean v => Literal.boolean v
  | Literal.string v => Literal.string v
  | Literal.vector v => Literal.vector v
  end.

Fixpoint cloneExpression (source : Expression.t) : Expression.t :=
  match source with
  | Expression.star => Expression.star
  | Expression.identifier n => Expression.identifier n
  | Expression.literal l => Expression.literal (cloneLiteral l)
  | Expression.function_call n args => Expression.function_call n (cloneExpression <$> args)
  | Expression.binary l op r => Expression.binary (cloneExpression l) op (cloneExpression r)
  end.

Lemma cloneExpression_id e : cloneExpression e = e.
Proof.
  induction e as [| |[]|n args IH|l op r IHl IHr] using Expression.nested_ind; simpl; try done; [|congruence].
  f_equal. induction IH as [|a args Ha _ IH]; csimpl; congruence.
Qed.

Lemma identifierParts_spec identifier :
  match IdentifierParts.qualifier (identifierParts identifier) with
  | Some q => ∃ dot, byte_val dot = 46 ∧ identifier = q ++ dot :: IdentifierParts.name (identifierParts identifier) ∧
                     Forall (λ c, byte_val c ≠ 46) q
  | None => IdentifierParts.name (identifierParts identifier) = identifier ∧ Forall (λ c, byte_val c ≠ 46) identifier
  end.
Proof.
  unfold identifierParts, index_of_dot. destruct (find_index _ identifier) as [i|] eqn:Hi; simpl.
  - apply find_index_Some in Hi as [(c & Hc & Heq) Hbefore]. exists c. split; [lia|]. split.
    + by rewrite take_drop_middle.
    + apply Forall_lookup. intros j d Hj. rewrite lookup_take_Some in Hj. destruct Hj as [Hj Hlt].
      specialize (Hbefore j d Hlt Hj). simpl in Hbefore. lia.
  - split; [done|]. apply find_index_None in Hi. eapply Forall_impl; [exact Hi|]. simpl. intros. lia.
Qed.
