(* ===== verification/Numeral.v ===== *)
(** * Numerals

    The conversions of Zig's standard library that the SQL parser applies to number tokens: [std.fmt.parseInt],
    [std.fmt.parseUnsigned] and [std.fmt.parseFloat].  A number token starts with a digit and consists of letters, digits,
    points and underscores, so signs only occur in an exponent's place and never reach these functions.  A decimal or
    hexadecimal number is converted to the nearest [f64], ties to even, by one division with an exact remainder. *)

From Stdlib Require Import Floats.SpecFloat.
From S2P Require Import Prelude Float.

(** The value of a digit in a base, if it is one. *)
Definition digit_value (base : Z) (c : byte) : option Z :=
  let v := byte_val c in
  let d := if isDigit c then v - 48 else if isUpper c then v - 55 else if isLower c then v - 87 else base in
  if d <? base then Some d else None.

Definition is_underscore (c : byte) : bool := byte_val c =? 95.

Definition is_digit (base : Z) (c : byte) : bool := match digit_value base c with Some _ => true | None => false end.

(** ** Integers *)

(** The loop of [parseIntWithSign]: underscores are skipped, and a result above [max] is an overflow. *)
Fixpoint int_loop (max acc : Z) (s : bytes) : option Z :=
  match s with
  | [] => Some acc
  | c :: s' =>
      if is_underscore c then int_loop max acc s'
      else
        match digit_value 10 c with
        | None => None
        | Some d => if acc * 10 + d <=? max then int_loop max (acc * 10 + d) s' else None
        end
  end.

(** Neither empty nor with an underscore at an end. *)
Definition parse_int (max : Z) (s : bytes) : option Z :=
  match s, last s with
  | c :: _, Some d => if is_underscore c || is_underscore d then None else int_loop max 0 s
  | _, _ => None
  end.

(** ** Floating-point numbers *)

(** The digits at the front: their value after [acc], how many, how many underscores, and the rest. *)
Fixpoint scan_digits (base acc : Z) (digits underscores : nat) (s : bytes) : Z * nat * nat * bytes :=
  match s with
  | [] => (acc, digits, underscores, [])
  | c :: s' =>
      if is_underscore c then scan_digits base acc digits (S underscores) s'
      else
        match digit_value base c with
        | Some d => scan_digits base (acc * base + d) (S digits) underscores s'
        | None => (acc, digits, underscores, s)
        end
  end.

(** An exponent stops growing at 2^28. *)
Fixpoint scan_exponent (acc : Z) (underscores : nat) (s : bytes) : Z * nat * bytes :=
  match s with
  | [] => (acc, underscores, [])
  | c :: s' =>
      if is_underscore c then scan_exponent acc (S underscores) s'
      else
        match digit_value 10 c with
        | Some d => scan_exponent (if acc <? 2 ^ 28 then acc * 10 + d else acc) underscores s'
        | None => (acc, underscores, s)
        end
  end.

Definition parse_scientific (s : bytes) : option (Z * nat * bytes) :=
  match s with
  | c :: s' =>
      let '(negative, s) := if byte_val c =? 45 then (true, s') else if byte_val c =? 43 then (false, s') else (false, s) in
      match s with
      | d :: _ =>
          match digit_value 10 d with
          | Some _ => let '(e, u, rest) := scan_exponent 0 0 s in Some (if negative : bool then - e else e, u, rest)
          | None => None
          end
      | [] => None
      end
  | [] => None
  end.

(** Every underscore stands between two digits. *)
Fixpoint valid_underscores (base : Z) (before : option byte) (s : bytes) : bool :=
  match s with
  | [] => true
  | c :: s' =>
      (if is_underscore c then
         match before, s' with
         | Some b, a :: _ => is_digit base b && is_digit base a
         | _, _ => false
         end
       else true) && valid_underscores base (Some c) s'
  end.

(** The whole text as digits and a power of the base's unit: [(m, e)] stands for [m * 10^e], or [m * 2^e] in base 16. *)
Definition parse_number (base exp_char unit_ : Z) (whole s : bytes) : option (Z * Z) :=
  let '(m, n, u, s) := scan_digits base 0 0 0 s in
  let '(m, k, u, s) :=
    match s with
    | c :: s' =>
        if byte_val c =? 46 then let '(m, k, u', s) := scan_digits base m 0 0 s' in (m, k, (u + u')%nat, s) else (m, 0%nat, u, s)
    | [] => (m, 0%nat, u, [])
    end in
  if (n + k =? 0)%nat then None
  else
    let e := - Z.of_nat k * unit_ in
    r ← match s with
        | c :: s' =>
            if byte_val (toLower c) =? exp_char
            then '(x, u', s) ← parse_scientific s'; Some (e + x, (u + u')%nat, s)
            else Some (e, u, s)
        | [] => Some (e, u, [])
        end;
    let '(e, u, s) := r in
    if negb (bool_decide (s = [])) then None
    else if negb (u =? 0)%nat && negb (valid_underscores base None whole) then None
    else Some (m, e).

(** The nearest [f64] to [m * b^e]. *)
Definition scale (m b e : Z) : Z :=
  match m with
  | Zpos _ =>
      if 0 <=? e then f64_of_int (m * b ^ e)
      else
        match b ^ (- e) with
        | Zpos d =>
            let '(q, e', l) := SFdiv_core_binary 53 1024 m 0 (Zpos d) 0 in
            encode_float binary64 (binary_round_aux 53 1024 false q e' l)
        | _ => f64_zero
        end
  | _ => f64_zero
  end.

Definition parse_float (s : bytes) : option Z :=
  match s with
  | z :: x :: d :: s' =>
      if (byte_val z =? 48) && (byte_val (toLower x) =? 120)
      then '(m, e) ← parse_number 16 112 4 s (d :: s'); Some (scale m 2 e)
      else '(m, e) ← parse_number 10 101 1 s s; Some (scale m 10 e)
  | _ => '(m, e) ← parse_number 10 101 1 s s; Some (scale m 10 e)
  end.

(** The sign bit, and multiplication by one or minus one. *)
Definition f64_neg (x : Z) : Z := Z.lxor x (2 ^ 63).

Definition f64_minus_one : Z := f64_neg f64_one.

(** ** Checks against known bit patterns *)

(** 0.5, 1.5, 0.1, 2^53 + 1 (a tie), the smallest subnormal and the largest finite number. *)
Example parse_float_values :
  parse_float (B "0.5") = Some 0x3fe0000000000000 ∧
  parse_float (B "1.5") = Some 0x3ff8000000000000 ∧
  parse_float (B "0.1") = Some 0x3fb999999999999a ∧
  parse_float (B "3.141592653589793") = Some 0x400921fb54442d18 ∧
  parse_float (B "9007199254740993") = Some 0x4340000000000000 ∧
  parse_float (B "0.1e1") = Some 0x3ff0000000000000 ∧
  parse_float (B "0x1.8p1") = Some 0x4008000000000000 ∧
  parse_float (B "1_0.2_5") = Some 0x4024800000000000.
Proof. by vm_compute. Qed.

Example parse_float_rejects :
  parse_float (B "1.2.3") = None ∧ parse_float (B "1_.5") = None ∧ parse_float (B "1e") = None ∧ parse_float (B "12a") = None ∧
  parse_float (B "1.") = parse_float (B "1.0").
Proof. by vm_compute. Qed.

Example parse_int_values :
  parse_int i64_max (B "9223372036854775807") = Some i64_max ∧ parse_int i64_max (B "9223372036854775808") = None ∧
  parse_int i64_max (B "1__0") = Some 10 ∧ parse_int i64_max (B "1_") = None ∧ parse_int i64_max (B "0x10") = None.
Proof. by vm_compute. Qed.
