(* ===== verification/Parser.v ===== *)
(** * The SQL parser

    Models [src/src/sql/parser.zig], the recursive-descent parser from the token list to the syntax tree.  The state of
    [Parser], the tokens and the index, is the list of tokens not consumed yet; [ParseFailed] with the diagnostic left in
    the parser is [Fail].  The loops run on [S (length tokens)] units of fuel of their own and the two recursions
    (expressions in expressions, queries in queries) on the same amount, taken where they are entered; [Stuck] marks
    a loop that ran out, which [ParserFacts] shows never happens.  Memory management (clones, [errdefer]) is not modelled. *)

From S2P Require Import Prelude Float Numeral Tokenizer Policy Ast.

Inductive DiagnosticCode := policy_violation | unexpected_token | unexpected_end | invalid_number | unsupported_syntax.

Module Diagnostic.
Record t := mk { code : DiagnosticCode; offset : nat; token : bytes; expected : bytes; policy_feature : option UnsupportedFeature }.
End Diagnostic.

(** A run of a parsing function on the tokens that are left. *)
Inductive parsed (E A : Type) :=
  | Done (a : A) (rest : list Token.t)
  | Fail (d : E)
  | Stuck.
Arguments Done {E A}.
Arguments Fail {E A}.
Arguments Stuck {E A}.

(** A parsing function whose errors are of type [E]. *)
Record parsing (E A : Type) := Parsing { run : list Token.t → parsed E A }.
Arguments Parsing {E A}.
Arguments run {E A}.

#[global] Instance parsing_ret E : MRet (parsing E) := λ A a, Parsing (λ ts, Done a ts).

#[global] Instance parsing_bind E : MBind (parsing E) := λ A B k m,
  Parsing (λ ts, match run m ts with
                | Done a ts' => run (k a) ts'
                | Fail d => Fail d
                | Stuck => Stuck
                end).

Definition stuck {E A} : parsing E A := Parsing (λ _, Stuck).

Definition fail {E A} (d : E) : parsing E A := Parsing (λ _, Fail d).

(** As much fuel as there are tokens left, and one more. *)
Definition fuelled {E A} (k : nat → parsing E A) : parsing E A := Parsing (λ ts, run (k (S (length ts))) ts).

Definition is_kind (t : Token.t) (k : TokenKind) : bool := bool_decide (Token.kind t = k).

Definition isIdentifier (t : Token.t) : bool := is_kind t identifier.

Definition is_symbol (t : Token.t) (s : string) : bool := is_kind t symbol && bool_decide (Token.lexeme t = B s).

(** Without the backticks. *)
Definition normalizedIdentifier (t : Token.t) : bytes :=
  let l := Token.lexeme t in
  match head l, last l with
  | Some a, Some b =>
      if (2 <=? length l)%nat && is_char a 96 && is_char b 96 then take (length l - 2) (drop 1 l) else l
  | _, _ => l
  end.

Definition isComparisonStart (t : option Token.t) : bool :=
  match t with
  | Some t => is_kind t symbol && bool_decide (Token.lexeme t ∈ [B "="; B "<"; B ">"; B "!"])
  | None => false
  end.

Definition is_keyword (t : Token.t) (ks : list string) : bool := existsb (λ k, Token.eqlIgnoreCase t (B k)) ks.

Definition isImplicitAliasBoundary (t : Token.t) : bool :=
  is_keyword t ["FROM"; "WHERE"; "ORDER"; "GROUP"; "HAVING"; "LIMIT"; "JOIN"; "INNER"; "CROSS"; "LEFT"; "ON"]%string.

Definition isTableAliasBoundary (t : Token.t) : bool :=
  is_keyword t ["WHERE"; "ORDER"; "GROUP"; "HAVING"; "LIMIT"; "JOIN"; "INNER"; "CROSS"; "LEFT"; "ON"]%string.

(** The loop of [cloneStringLiteral]: a doubled apostrophe stands for one. *)
Fixpoint decode_quotes (s : bytes) : bytes :=
  match s with
  | [] => []
  | c :: s' =>
      c :: match s' with
           | d :: s'' => if is_char c 39 && is_char d 39 then decode_quotes s'' else decode_quotes s'
           | [] => []
           end
  end.

(** [std.mem.trim(u8, s, &std.ascii.whitespace)] *)
Fixpoint trim_left (s : bytes) : bytes :=
  match s with
  | c :: s' => if isWhitespace c then trim_left s' else s
  | [] => []
  end.

Definition trim (s : bytes) : bytes := reverse (trim_left (reverse (trim_left s))).

(** ** Tokens *)

Definition peek {E} : parsing E (option Token.t) := Parsing (λ ts, Done (head ts) ts).

Definition advance {E} : parsing E (option Token.t) :=
  Parsing (λ ts, match ts with t :: ts' => Done (Some t) ts' | [] => Done None [] end).

(** [self.index += 1] if the next token satisfies the test. *)
Definition match_token {E} (p : Token.t → bool) : parsing E bool :=
  Parsing (λ ts, match ts with
                | t :: ts' => if p t then Done true ts' else Done false ts
                | [] => Done false []
                end).

Definition matchKeyword {E} (keyword : string) : parsing E bool := match_token (λ t, Token.eqlIgnoreCase t (B keyword)).

Definition matchSymbol {E} (s : string) : parsing E bool := match_token (λ t, is_symbol t s).

(** The functions of the SQL parser. *)
Notation parser := (parsing Diagnostic.t).

Section parser.
Context (sql : bytes).

Definition failToken {A} (t : Token.t) (code : DiagnosticCode) (expected : bytes) : parser A :=
  fail (Diagnostic.mk code (Token.offset t) (Token.lexeme t) expected None).

Definition failEnd {A} (expected : bytes) : parser A :=
  fail (Diagnostic.mk unexpected_end (length sql) [] expected None).

Definition failCurrent {A} (code : DiagnosticCode) (expected : string) : parser A :=
  t ← peek;
  match t with Some t => failToken t code (B expected) | None => failEnd (B expected) end.

(** [self.advance() orelse return self.failEnd(expected)] *)
Definition advance_or (expected : string) : parser Token.t :=
  t ← advance;
  match t with Some t => mret t | None => failEnd (B expected) end.

Definition expectKeyword (keyword : string) : parser () :=
  t ← advance_or keyword;
  if negb (Token.eqlIgnoreCase t (B keyword)) then failToken t unexpected_token (B keyword) else mret ().

Definition expectSymbol (s : string) : parser () :=
  t ← advance_or s;
  if negb (is_symbol t s) then failToken t unexpected_token (B s) else mret ().

Definition nextIsSymbol (s : string) : parser bool :=
  t ← peek;
  mret (match t with Some t => is_symbol t s | None => false end).

Definition expectIdentifierToken (expected : string) : parser Token.t :=
  t ← advance_or expected;
  if negb (isIdentifier t) then failToken t unexpected_token (B expected) else mret t.

Definition expectIdentifierOwned (expected : string) : parser bytes :=
  t ← expectIdentifierToken expected;
  mret (normalizedIdentifier t).

Definition cloneStringLiteral (t : Token.t) : parser bytes :=
  let l := Token.lexeme t in
  match l with
  | c :: _ =>
      if is_char c 39 then
        if negb (Token.terminated t) then failToken t unexpected_token (B "terminated string literal")
        else mret (decode_quotes (take (length l - 2) (drop 1 l)))
      else if (length l <? 2)%nat then mret l else mret (take (length l - 2) (drop 1 l))
  | [] => mret l
  end.

Fixpoint semicolon_loop {E} (fuel : nat) : parsing E () :=
  match fuel with
  | O => stuck
  | S fuel' => b ← matchSymbol ";"; if b : bool then semicolon_loop fuel' else mret ()
  end.

Definition consumeSemicolons {E} : parsing E () := fuelled semicolon_loop.

(** [while (!self.matchSymbol(close)) { item; if (self.matchSymbol(",")) continue; try self.expectSymbol(close); break; }] *)
Fixpoint list_loop {A} (item : parser A) (close : string) (fuel : nat) (acc : list A) : parser (list A) :=
  match fuel with
  | O => stuck
  | S fuel' =>
      closed ← matchSymbol close;
      if closed : bool then mret acc
      else
        x ← item;
        more ← matchSymbol ",";
        if more : bool then list_loop item close fuel' (acc ++ [x])
        else expectSymbol close ;; mret (acc ++ [x])
  end.

Definition list_until {A} (item : parser A) (close : string) : parser (list A) :=
  fuelled (λ fuel, list_loop item close fuel []).

(** [while (true) { item; if (!self.matchSymbol(",")) break; }] *)
Fixpoint comma_loop {A} (item : parser A) (fuel : nat) (acc : list A) : parser (list A) :=
  match fuel with
  | O => stuck
  | S fuel' =>
      x ← item;
      more ← matchSymbol ",";
      if more : bool then comma_loop item fuel' (acc ++ [x]) else mret (acc ++ [x])
  end.

Definition comma_list {A} (item : parser A) : parser (list A) := fuelled (λ fuel, comma_loop item fuel []).

(** [if (self.matchKeyword(keyword)) item] *)
Definition optional {A} (keyword : string) (item : parser A) : parser (option A) :=
  b ← matchKeyword keyword;
  if b : bool then x ← item; mret (Some x) else mret None.

(** ** Expressions *)

(** [token.lexeme] as a number, or [invalid_number]. *)
Definition number_of {A} (t : Token.t) (v : option A) (expected : string) : parser A :=
  match v with Some v => mret v | None => failToken t invalid_number (B expected) end.

Definition has_point (t : Token.t) : bool := match index_of_dot (Token.lexeme t) with Some _ => true | None => false end.

(** A number token as a literal; [-] in front of it negates the value. *)
Definition number_literal (t : Token.t) (negative : bool) : parser Expression.t :=
  if has_point t then
    v ← number_of t (parse_float (Token.lexeme t)) "number";
    mret (Expression.literal (Literal.float (if negative then f64_neg v else v)))
  else
    v ← number_of t (parse_int i64_max (Token.lexeme t)) "number";
    mret (Expression.literal (Literal.integer (if negative then - v else v))).

(** An element of a vector literal. *)
Definition vector_value : parser Z :=
  negative ← matchSymbol "-";
  t ← advance_or "vector value";
  if negb (is_kind t number) then failToken t unexpected_token (B "vector value")
  else
    v ← number_of t (parse_float (Token.lexeme t)) "vector value";
    mret (f64_mul (if negative : bool then f64_minus_one else f64_one) v).

Definition parseComparisonOperator : parser BinaryOperator :=
  t ← advance_or "comparison operator";
  let l := Token.lexeme t in
  if bool_decide (l = B "=") then mret equal
  else if bool_decide (l = B "<") then
    b ← matchSymbol "=";
    if b : bool then mret less_equal
    else b ← matchSymbol ">"; if b : bool then mret not_equal else mret less_than
  else if bool_decide (l = B ">") then
    b ← matchSymbol "="; if b : bool then mret greater_equal else mret greater_than
  else if bool_decide (l = B "!") then expectSymbol "=" ;; mret not_equal
  else failToken t unexpected_token (B "comparison operator").

Section expression.

(** The expressions inside parentheses and in argument lists. *)
Context (parseExpression : parser Expression.t).

Definition parsePrimary : parser Expression.t :=
  t ← advance_or "expression";
  if is_kind t string_ then s ← cloneStringLiteral t; mret (Expression.literal (Literal.string s))
  else if is_kind t number then number_literal t false
  else if is_symbol t "*" then mret Expression.star
  else if is_symbol t "[" then vs ← list_until vector_value "]"; mret (Expression.literal (Literal.vector vs))
  else if is_symbol t "(" then e ← parseExpression; expectSymbol ")" ;; mret e
  else if is_symbol t "-" then
    v ← advance_or "number";
    if negb (is_kind v number) then failToken v unexpected_token (B "number") else number_literal v true
  else if isIdentifier t then
    if Token.eqlIgnoreCase t (B "NULL") then mret (Expression.literal Literal.null)
    else if Token.eqlIgnoreCase t (B "TRUE") then mret (Expression.literal (Literal.boolean true))
    else if Token.eqlIgnoreCase t (B "FALSE") then mret (Expression.literal (Literal.boolean false))
    else
      let name := normalizedIdentifier t in
      call ← matchSymbol "(";
      if call : bool then args ← list_until parseExpression ")"; mret (Expression.function_call name args)
      else
        qualified ← matchSymbol ".";
        if qualified : bool then
          member ← expectIdentifierToken "qualified identifier member";
          mret (Expression.identifier (name ++ B "." ++ normalizedIdentifier member))
        else mret (Expression.identifier name)
  else failToken t unexpected_token (B "expression").

Fixpoint additive_loop (fuel : nat) (left : Expression.t) : parser Expression.t :=
  match fuel with
  | O => stuck
  | S fuel' =>
      plus ← matchSymbol "+";
      if plus : bool then right ← parsePrimary; additive_loop fuel' (Expression.binary left add right)
      else
        minus ← matchSymbol "-";
        if minus : bool then right ← parsePrimary; additive_loop fuel' (Expression.binary left subtract right)
        else mret left
  end.

Definition parseAdditiveExpression : parser Expression.t :=
  left ← parsePrimary; fuelled (λ fuel, additive_loop fuel left).

Definition parseComparisonExpression : parser Expression.t :=
  left ← parseAdditiveExpression;
  t ← peek;
  if isComparisonStart t then
    op ← parseComparisonOperator;
    right ← parseAdditiveExpression;
    mret (Expression.binary left op right)
  else mret left.

Fixpoint and_loop (fuel : nat) (left : Expression.t) : parser Expression.t :=
  match fuel with
  | O => stuck
  | S fuel' =>
      b ← matchKeyword "AND";
      if b : bool then right ← parseComparisonExpression; and_loop fuel' (Expression.binary left and_op right)
      else mret left
  end.

Definition parseAndExpression : parser Expression.t :=
  left ← parseComparisonExpression; fuelled (λ fuel, and_loop fuel left).

End expression.

Fixpoint expression_loop (fuel : nat) : parser Expression.t :=
  match fuel with
  | O => stuck
  | S fuel' => parseAndExpression (expression_loop fuel')
  end.

Definition parseExpression : parser Expression.t := fuelled expression_loop.

(** ** Column definitions *)

Fixpoint balanced_loop (closing : string) (depth : nat) (ts : list Token.t) : option (list Token.t) :=
  match ts with
  | [] => None
  | t :: ts' =>
      if is_symbol t "(" then balanced_loop closing (S depth) ts'
      else if is_symbol t closing then
        match depth with
        | S (S depth') => balanced_loop closing (S depth') ts'
        | _ => Some ts'
        end
      else balanced_loop closing depth ts'
  end.

Definition skipBalanced (closing : string) : parser () :=
  Parsing (λ ts, match balanced_loop closing 1 ts with
                | Some ts' => Done () ts'
                | None => run (failEnd (B closing)) []
                end).

Definition skipOneAttributeToken : parser () :=
  b ← matchSymbol "(";
  if b : bool then skipBalanced ")" else _ ← advance; mret ().

Definition parseColumnType : parser AstColumnType.t :=
  t ← advance_or "column type";
  if negb (isIdentifier t) then failToken t unexpected_token (B "column type")
  else if is_keyword t ["INTEGER"; "INT"]%string then mret AstColumnType.integer
  else if is_keyword t ["FLOAT"; "REAL"; "DOUBLE"]%string then mret AstColumnType.float
  else if is_keyword t ["BOOLEAN"; "BOOL"]%string then mret AstColumnType.boolean
  else if is_keyword t ["TEXT"; "VARCHAR"; "CHAR"]%string then mret AstColumnType.text
  else if is_keyword t ["BLOB"]%string then mret AstColumnType.blob
  else if is_keyword t ["VECTOR"]%string then
    expectSymbol "(" ;;
    d ← advance_or "vector dimension";
    if negb (is_kind d number) then failToken d unexpected_token (B "vector dimension")
    else
      dimension ← number_of d (parse_int u64_max (Token.lexeme d)) "vector dimension";
      expectSymbol ")" ;;
      mret (AstColumnType.vector dimension)
  else failToken t unsupported_syntax (B "MVP column type").

Record ColumnAttributes := Attributes {
  nullable : bool; default_value : option Expression.t; primary_key : bool; auto_increment : bool }.

Definition isAtColumnDefinitionBoundary : parser bool :=
  t ← peek;
  mret (match t with Some t => is_symbol t "," || is_symbol t ")" | None => true end).

Fixpoint attributes_loop (fuel : nat) (a : ColumnAttributes) : parser ColumnAttributes :=
  match fuel with
  | O => stuck
  | S fuel' =>
      stop ← isAtColumnDefinitionBoundary;
      if stop : bool then mret a
      else
        b ← matchKeyword "PRIMARY";
        if b : bool then
          expectKeyword "KEY" ;; attributes_loop fuel' (Attributes false (default_value a) true (auto_increment a))
        else
          b ← matchKeyword "NOT";
          if b : bool then
            expectKeyword "NULL" ;;
            attributes_loop fuel' (Attributes false (default_value a) (primary_key a) (auto_increment a))
          else
            b ← matchKeyword "NULL";
            if b : bool then attributes_loop fuel' (Attributes true (default_value a) (primary_key a) (auto_increment a))
            else
              b ← matchKeyword "DEFAULT";
              if b : bool then
                e ← parseExpression;
                attributes_loop fuel' (Attributes (nullable a) (Some e) (primary_key a) (auto_increment a))
              else
                b ← matchKeyword "AUTO_INCREMENT";
                if b : bool then attributes_loop fuel' (Attributes false (default_value a) (primary_key a) true)
                else skipOneAttributeToken ;; attributes_loop fuel' a
  end.

Definition parseColumnAttributes : parser ColumnAttributes :=
  fuelled (λ fuel, attributes_loop fuel (Attributes true None false false)).

Definition index_column : parser bytes :=
  column ← expectIdentifierOwned "index column";
  b ← matchSymbol "(";
  if b : bool then skipBalanced ")" ;; mret column else mret column.

Definition parseIndexColumnList : parser (list bytes) :=
  expectSymbol "(" ;; list_until index_column ")".

Definition parseTableIndex : parser AstIndexDef.t :=
  b ← matchKeyword "PRIMARY";
  if b : bool then
    expectKeyword "KEY" ;;
    columns ← parseIndexColumnList;
    mret (AstIndexDef.mk None columns true)
  else
    b ← matchKeyword "INDEX";
    b ← (if b : bool then mret true else matchKeyword "KEY");
    if negb b then failCurrent unexpected_token "INDEX or KEY"
    else
      unnamed ← nextIsSymbol "(";
      name ← (if unnamed : bool then mret None else n ← expectIdentifierOwned "index name"; mret (Some n));
      columns ← parseIndexColumnList;
      mret (AstIndexDef.mk name columns false).

Definition isTableIndexStart : parser bool :=
  t ← peek;
  mret (match t with Some t => is_keyword t ["PRIMARY"; "INDEX"; "KEY"]%string | None => false end).

Definition table_element : parser (AstColumnDef.t + AstIndexDef.t) :=
  index ← isTableIndexStart;
  if index : bool then i ← parseTableIndex; mret (inr i)
  else
    name ← expectIdentifierOwned "column name";
    column_type ← parseColumnType;
    a ← parseColumnAttributes;
    mret (inl (AstColumnDef.mk name column_type (nullable a) (default_value a) (primary_key a) (auto_increment a))).

Definition parseCreateTable : parser CreateTable.t :=
  b ← matchKeyword "IF";
  if_not_exists ← (if b : bool then expectKeyword "NOT" ;; expectKeyword "EXISTS" ;; mret true else mret false);
  name ← expectIdentifierOwned "table name";
  expectSymbol "(" ;;
  elements ← list_until table_element ")";
  mret (CreateTable.mk name if_not_exists
          (omap (λ x, match x with inl c => Some c | inr _ => None end) elements)
          (omap (λ x, match x with inl _ => None | inr i => Some i end) elements)).

Definition parseDropTable : parser Named.t :=
  b ← matchKeyword "IF";
  if_exists ← (if b : bool then expectKeyword "EXISTS" ;; mret true else mret false);
  name ← expectIdentifierOwned "table name";
  mret (Named.mk name if_exists).

(** ** Data statements *)

Definition parseInsert : parser Insert.t :=
  expectKeyword "INTO" ;;
  table_name ← expectIdentifierOwned "table name";
  b ← matchSymbol "(";
  columns ← (if b : bool then list_until (expectIdentifierOwned "column name") ")" else mret []);
  expectKeyword "VALUES" ;;
  expectSymbol "(" ;;
  values ← list_until parseExpression ")";
  mret (Insert.mk table_name columns values).

Definition assignment : parser Assignment.t :=
  column ← expectIdentifierOwned "column name";
  expectSymbol "=" ;;
  value ← parseExpression;
  mret (Assignment.mk column value).

Definition parseUpdate : parser Update.t :=
  table_name ← expectIdentifierOwned "table name";
  expectKeyword "SET" ;;
  assignments ← comma_list assignment;
  where_clause ← optional "WHERE" parseExpression;
  mret (Update.mk table_name assignments where_clause).

Definition parseDelete : parser Delete.t :=
  expectKeyword "FROM" ;;
  table_name ← expectIdentifierOwned "table name";
  where_clause ← optional "WHERE" parseExpression;
  mret (Delete.mk table_name where_clause).

(** ** Queries *)

Definition canStartImplicitProjectionAlias (e : Expression.t) : bool :=
  match e with
  | Expression.function_call _ _ | Expression.literal _ | Expression.binary _ _ _ => true
  | Expression.identifier i => match index_of_dot i with Some _ => true | None => false end
  | Expression.star => false
  end.

(** An identifier that is not one of the boundary keywords. *)
Definition optional_alias (boundary : Token.t → bool) : parser (option bytes) :=
  t ← peek;
  match t with
  | Some t =>
      if negb (isIdentifier t) || boundary t then mret None
      else _ ← advance; mret (Some (normalizedIdentifier t))
  | None => mret None
  end.

Definition parseOptionalImplicitAlias : parser (option bytes) := optional_alias isImplicitAliasBoundary.

Definition parseProjection : parser Projection.t :=
  e ← parseExpression;
  b ← matchKeyword "AS";
  alias ← (if b : bool then a ← expectIdentifierOwned "projection alias"; mret (Some a)
           else if canStartImplicitProjectionAlias e then parseOptionalImplicitAlias else mret None);
  mret (Projection.mk e alias).

Definition parseRequiredTableAlias (expected : string) : parser bytes :=
  _ ← matchKeyword "AS"; expectIdentifierOwned expected.

Definition parseOptionalTableAlias : parser (option bytes) :=
  b ← matchKeyword "AS";
  if b : bool then a ← expectIdentifierOwned "table alias"; mret (Some a) else optional_alias isTableAliasBoundary.

Definition peekJoinType : parser (option JoinType) :=
  t ← peek;
  mret (match t with
        | Some t =>
            if is_keyword t ["JOIN"; "INNER"]%string then Some inner
            else if is_keyword t ["CROSS"]%string then Some cross
            else if is_keyword t ["LEFT"]%string then Some left_join
            else None
        | None => None
        end).

Definition consumeJoinType (j : JoinType) : parser () :=
  match j with
  | inner => _ ← matchKeyword "INNER"; expectKeyword "JOIN"
  | cross => expectKeyword "CROSS" ;; expectKeyword "JOIN"
  | left_join => expectKeyword "LEFT" ;; _ ← matchKeyword "OUTER"; expectKeyword "JOIN"
  end.

Definition isAtClauseBoundary : parser bool :=
  t ← peek;
  mret (match t with
        | Some t => is_keyword t ["FROM"; "WHERE"; "ORDER"; "LIMIT"; "GROUP"; "HAVING"]%string ||
                    bool_decide (Token.lexeme t = B ";")
        | None => true
        end).

(** [while (!self.isAtClauseBoundary()) { item; if (self.matchSymbol(",")) continue; break; }] *)
Fixpoint projection_loop (fuel : nat) (acc : list Projection.t) : parser (list Projection.t) :=
  match fuel with
  | O => stuck
  | S fuel' =>
      stop ← isAtClauseBoundary;
      if stop : bool then mret acc
      else
        p ← parseProjection;
        more ← matchSymbol ",";
        if more : bool then projection_loop fuel' (acc ++ [p]) else mret (acc ++ [p])
  end.

Definition order_key : parser OrderKey.t :=
  e ← parseExpression;
  b ← matchKeyword "DESC";
  if b : bool then mret (OrderKey.mk e desc) else _ ← matchKeyword "ASC"; mret (OrderKey.mk e asc).

Definition limit_value : parser Z :=
  t ← advance_or "limit value";
  if negb (is_kind t number) then failToken t unexpected_token (B "limit value")
  else number_of t (parse_int u64_max (Token.lexeme t)) "limit value".

Section query.

(** The queries inside a query. *)
Context (parseSelectAfterSelect : parser SelectStatement).

Definition cte : parser CommonTableExpression :=
  name ← expectIdentifierOwned "CTE name";
  expectKeyword "AS" ;;
  expectSymbol "(" ;;
  expectKeyword "SELECT" ;;
  query ← parseSelectAfterSelect;
  expectSymbol ")" ;;
  mret (Cte name query).

(** [statement.ctes = ctes] *)
Definition with_ctes (ctes : list CommonTableExpression) (s : SelectStatement) : SelectStatement :=
  match s with Select _ pi ps fr so wh gr ha ord li => Select ctes pi ps fr so wh gr ha ord li end.

Definition select_after_with : parser SelectStatement :=
  ctes ← comma_list cte;
  expectKeyword "SELECT" ;;
  statement ← parseSelectAfterSelect;
  mret (with_ctes ctes statement).

Definition parseRowSourceAtom : parser RowSource :=
  b ← matchSymbol "(";
  if b : bool then
    b ← matchKeyword "SELECT";
    query ← (if b : bool then parseSelectAfterSelect
             else b ← matchKeyword "WITH";
                  if b : bool then select_after_with else failCurrent unexpected_token "SELECT");
    expectSymbol ")" ;;
    alias ← parseRequiredTableAlias "derived table alias";
    mret (derived_table query alias)
  else
    name ← expectIdentifierOwned "table name";
    alias ← parseOptionalTableAlias;
    mret (base_table name alias).

Fixpoint join_loop (fuel : nat) (left : RowSource) : parser RowSource :=
  match fuel with
  | O => stuck
  | S fuel' =>
      j ← peekJoinType;
      match j with
      | None => mret left
      | Some j =>
          consumeJoinType j ;;
          right ← parseRowSourceAtom;
          on ← optional "ON" parseExpression;
          match on, j with
          | None, inner | None, left_join => failCurrent unexpected_token "ON"
          | _, _ => join_loop fuel' (join left j right on)
          end
      end
  end.

Definition parseRowSource : parser RowSource :=
  left ← parseRowSourceAtom; fuelled (λ fuel, join_loop fuel left).

Definition select_after_select : parser SelectStatement :=
  items ← fuelled (λ fuel, projection_loop fuel []);
  source ← optional "FROM" parseRowSource;
  where_clause ← optional "WHERE" parseExpression;
  group ← optional "GROUP" (expectKeyword "BY" ;; comma_list parseExpression);
  having ← optional "HAVING" parseExpression;
  order ← optional "ORDER" (expectKeyword "BY" ;; comma_list order_key);
  limit ← optional "LIMIT" limit_value;
  mret (Select [] items (cloneExpression ∘ Projection.expression <$> items)
          (match source with Some (base_table name _) => Some name | _ => None end)
          source where_clause (default [] group) having (default [] order) limit).

End query.

Fixpoint select_loop (fuel : nat) : parser SelectStatement :=
  match fuel with
  | O => stuck
  | S fuel' => select_after_select (select_loop fuel')
  end.

Definition parseSelectAfterSelect : parser SelectStatement := fuelled select_loop.

Definition parseSelectAfterWith : parser SelectStatement := select_after_with parseSelectAfterSelect.

(** ** Views, procedures and calls *)

Definition parseCreateView : parser CreateView.t :=
  name ← expectIdentifierOwned "view name";
  expectKeyword "AS" ;;
  select_token ← peek;
  match select_token with
  | None => failEnd (B "SELECT")
  | Some t =>
      expectKeyword "SELECT" ;;
      query ← parseSelectAfterSelect;
      stop ← peek;
      let body_end := match stop with Some t => Token.offset t | None => length sql end in
      mret (CreateView.mk name query (trim (slice sql (Token.offset t) body_end)))
  end.

Definition procedure_param : parser ProcedureParam.t :=
  b ← matchKeyword "IN";
  t ← peek;
  match b : bool, t with
  | false, Some t =>
      if is_keyword t ["OUT"; "INOUT"]%string then failToken t unsupported_syntax (B "IN parameter")
      else
        name ← expectIdentifierOwned "parameter name";
        column_type ← parseColumnType;
        mret (ProcedureParam.mk name column_type mode_in)
  | _, _ =>
      name ← expectIdentifierOwned "parameter name";
      column_type ← parseColumnType;
      mret (ProcedureParam.mk name column_type mode_in)
  end.

(** The end of the last [END] among the tokens. *)
Fixpoint last_end (ts : list Token.t) (body_end : nat) : nat :=
  match ts with
  | [] => body_end
  | t :: ts' =>
      last_end ts' (if Token.eqlIgnoreCase t (B "END") then (Token.offset t + length (Token.lexeme t))%nat else body_end)
  end.

(** The rest of the input, consumed. *)
Definition remaining : parser (list Token.t) := Parsing (λ ts, Done ts []).

Definition parseCreateProcedure : parser CreateProcedure.t :=
  name ← expectIdentifierOwned "procedure name";
  b ← matchSymbol "(";
  params ← (if b : bool then list_until procedure_param ")" else mret []);
  first ← peek;
  let body_start := match first with Some t => Token.offset t | None => length sql end in
  ts ← remaining;
  let body_end := last_end ts (length sql) in
  if (body_end <=? body_start)%nat
  then fail (Diagnostic.mk unsupported_syntax body_start [] (B "procedure body") None)
  else mret (CreateProcedure.mk name params (trim (slice sql body_start body_end))).

Definition parseCall : parser Call.t :=
  name ← expectIdentifierOwned "procedure name";
  b ← matchSymbol "(";
  args ← (if b : bool then list_until parseExpression ")" else mret []);
  mret (Call.mk name args).

(** ** Statements *)

Definition parseCreate : parser Statement.t :=
  b ← matchKeyword "TABLE";
  if b : bool then s ← parseCreateTable; mret (Statement.create_table s)
  else
    b ← matchKeyword "VIEW";
    if b : bool then s ← parseCreateView; mret (Statement.create_view s)
    else
      b ← matchKeyword "PROCEDURE";
      if b : bool then s ← parseCreateProcedure; mret (Statement.create_procedure s)
      else failCurrent unsupported_syntax "TABLE, VIEW, or PROCEDURE".

Definition parseDrop : parser Statement.t :=
  b ← matchKeyword "TABLE";
  if b : bool then s ← parseDropTable; mret (Statement.drop_table s)
  else
    b ← matchKeyword "VIEW";
    if b : bool then n ← expectIdentifierOwned "view name"; mret (Statement.drop_view (Named.mk n false))
    else
      b ← matchKeyword "PROCEDURE";
      if b : bool then n ← expectIdentifierOwned "procedure name"; mret (Statement.drop_procedure (Named.mk n false))
      else failCurrent unsupported_syntax "TABLE, VIEW, or PROCEDURE".

(** The keywords a statement starts with, in the order they are tried, and what follows. *)
Definition statement_kinds : list (string * parser Statement.t) :=
  [("CREATE"%string, parseCreate);
   ("DROP"%string, parseDrop);
   ("INSERT"%string, s ← parseInsert; mret (Statement.insert s));
   ("SELECT"%string, s ← parseSelectAfterSelect; mret (Statement.select s));
   ("WITH"%string, s ← parseSelectAfterWith; mret (Statement.select s));
   ("UPDATE"%string, s ← parseUpdate; mret (Statement.update s));
   ("DELETE"%string, s ← parseDelete; mret (Statement.delete s));
   ("BEGIN"%string, mret Statement.begin);
   ("COMMIT"%string, mret Statement.commit);
   ("ROLLBACK"%string, mret Statement.rollback);
   ("CALL"%string, s ← parseCall; mret (Statement.call s))].

Fixpoint first_match (kinds : list (string * parser Statement.t)) : parser Statement.t :=
  match kinds with
  | [] => failCurrent unexpected_token "supported ShovelerDB statement"
  | (keyword, follow) :: kinds' => b ← matchKeyword keyword; if b : bool then follow else first_match kinds'
  end.

Definition parseStatement : parser Statement.t := first_match statement_kinds.

End parser.

(** ** Entry points *)

(** A statement or a diagnostic; [None] if a loop did not end. *)
Definition parse (sql : bytes) : option (Statement.t + Diagnostic.t) :=
  match firstViolation sql with
  | Some v =>
      Some (inr (Diagnostic.mk policy_violation (PolicyViolation.offset v) (PolicyViolation.token v)
                   (PolicyViolation.message v) (Some (PolicyViolation.feature v))))
  | None =>
      match run (s ← parseStatement sql; consumeSemicolons ;; mret s) (tokenize sql) with
      | Done s [] => Some (inl s)
      | Done _ (t :: _) =>
          Some (inr (Diagnostic.mk unexpected_token (Token.offset t) (Token.lexeme t) (B "end of statement") None))
      | Fail d => Some (inr d)
      | Stuck => None
      end
  end.

Definition parseExpressionOnly (sql : bytes) : option (Expression.t + Diagnostic.t) :=
  match run (parseExpression sql) (tokenize sql) with
  | Done e [] => Some (inl e)
  | Done _ (t :: _) =>
      Some (inr (Diagnostic.mk unexpected_token (Token.offset t) (Token.lexeme t) (B "end of expression") None))
  | Fail d => Some (inr d)
  | Stuck => None
  end.

(** What the executor sees of the parser: a statement, or nothing where there is a diagnostic. *)
Definition parse_statement (sql : bytes) : option Statement.t :=
  match parse sql with Some (inl s) => Some s | _ => None end.
