(* ===== verification/ParserRules.v ===== *)
(** * Rules for parsing functions

    [safe] says of a function that may assume fewer than [n] tokens that it ends, consumes a prefix of the tokens, and
    reports errors that satisfy a predicate; [safe_auto] applies its rules to the body of a function, with the lemmas of
    the functions it calls from the database [safe].  Shared by the SQL parser and the procedure body parser. *)

From S2P Require Import Prelude Tokenizer Parser.

Lemma parse_bind {E A B} (m : parsing E A) (k : A → parsing E B) ts :
  run (m ≫= k) ts = match run m ts with Done a ts' => run (k a) ts' | Fail d => Fail d | Stuck => Stuck end.
Proof. reflexivity. Qed.

Create HintDb safe.
Create HintDb safe_fail.

Definition any {A} (_ : A) : Prop := True.

Section safe.
Context {E : Type} (D : E → Prop) (all : list Token.t).

(** On fewer than [n] tokens the function ends with a result that satisfies [P], having consumed a prefix (a non-empty one
    if [s] is set), or with an error that satisfies [D]. *)
Definition safe_at {A} (n : nat) (s : bool) (m : parsing E A) (P : A → Prop) (ts : list Token.t) : Prop :=
  ts `suffix_of` all → (length ts < n)%nat →
  match run m ts with
  | Done a rest => P a ∧ rest `suffix_of` ts ∧ (s = true → (length rest < length ts)%nat)
  | Fail d => D d
  | Stuck => False
  end.

Definition safe {A} (n : nat) (s : bool) (m : parsing E A) (P : A → Prop) : Prop := ∀ ts, safe_at n s m P ts.

(** The same where a token is left. *)
Definition safe_more {A} (n : nat) (s : bool) (m : parsing E A) (P : A → Prop) : Prop := ∀ t ts, safe_at n s m P (t :: ts).

Lemma safe_weaken {A} n n' s s' (m : parsing E A) (P Q : A → Prop) :
  safe n s m P → (n' ≤ n)%nat → (s' = true → s = true) → (∀ a, P a → Q a) → safe n' s' m Q.
Proof.
  intros H Hn Hs HP ts Ht Hl. specialize (H ts Ht ltac:(lia)). destruct (run m ts); [|done|done]. naive_solver.
Qed.

Lemma safe_strict {A} n (m : parsing E A) P : safe n true m P → safe n false m P.
Proof. intros H. by eapply safe_weaken. Qed.

Lemma safe_ret {A} n (a : A) (P : A → Prop) : P a → safe n false (mret a) P.
Proof. intros HP ts _ _. cbn. by split_and!. Qed.

Lemma safe_fail {A} n s d (P : A → Prop) : D d → safe n s (fail d) P.
Proof. by intros Hd ts _ _. Qed.

(** After a function that consumes something there are fewer tokens, and the whole consumes something. *)
Lemma safe_bind_strict {A B} n s (m : parsing E A) (k : A → parsing E B) P Q :
  safe n true m P → (∀ a, P a → safe (pred n) false (k a) Q) → safe n s (m ≫= k) Q.
Proof.
  intros Hm Hk ts Ht Hl. specialize (Hm ts Ht Hl). rewrite parse_bind. destruct (run m ts) as [a rest|d|]; [|done|done].
  destruct Hm as (HP & Hs & Hlt). specialize (Hlt eq_refl).
  specialize (Hk a HP rest (transitivity Hs Ht) ltac:(lia)). destruct (run (k a) rest) as [b rest'|d|]; [|done|done].
  destruct Hk as (HQ & Hs' & _). apply suffix_length in Hs' as Hle. split_and!; [done|by etransitivity|lia].
Qed.

Lemma safe_bind {A B} n s (m : parsing E A) (k : A → parsing E B) P Q :
  safe n false m P → (∀ a, P a → safe n s (k a) Q) → safe n s (m ≫= k) Q.
Proof.
  intros Hm Hk ts Ht Hl. specialize (Hm ts Ht Hl). rewrite parse_bind. destruct (run m ts) as [a rest|d|]; [|done|done].
  destruct Hm as (HP & Hs & _). apply suffix_length in Hs as Hle.
  specialize (Hk a HP rest (transitivity Hs Ht) ltac:(lia)). destruct (run (k a) rest) as [b rest'|d|]; [|done|done].
  destruct Hk as (HQ & Hs' & Hlt). split_and!; [done|by etransitivity|]. intros Es. specialize (Hlt Es). lia.
Qed.

(** ** Tokens *)

Definition known (t : Token.t) : Prop := t ∈ all.

Definition known_option (t : option Token.t) : Prop := match t with Some t => known t | None => True end.

Lemma suffix_known t ts : t :: ts `suffix_of` all → known t.
Proof. intros [k Hk]. unfold known. rewrite Hk. apply list_elem_of_In, in_or_app. right. by left. Qed.

Lemma safe_peek n : safe n false peek known_option.
Proof. intros [|t ts] Ht _; cbn; [done|]. split; [by eapply suffix_known|done]. Qed.

Lemma safe_advance n : safe n false advance known_option.
Proof.
  intros [|t ts] Ht _; cbn; [done|]. split; [by eapply suffix_known|]. split; [by exists [t]|done].
Qed.

(** What follows a consumed token. *)
Lemma safe_after {A} n s (m k : parsing E A) P t ts :
  safe (pred n) false k P → run m (t :: ts) = run k ts → safe_at n s m P (t :: ts).
Proof.
  intros H Er Ht Hl. rewrite Er.
  assert (Hs : ts `suffix_of` all) by (etransitivity; [|exact Ht]; by exists [t]).
  specialize (H ts Hs ltac:(cbn in *; lia)). destruct (run k ts); [|done|done].
  destruct H as (HP & Hr & _). apply suffix_length in Hr as Hle. split_and!; [done|by apply suffix_cons_r|cbn; lia].
Qed.

(** A branch taken after consuming the token that was tested. *)
Lemma safe_match {A} n s p (k1 k2 : parsing E A) P :
  safe (pred n) false k1 P → safe n s k2 P → safe n s (match_token p ≫= λ b : bool, if b then k1 else k2) P.
Proof.
  intros H1 H2 [|t ts]; [exact (H2 [])|]. destruct (p t) eqn:Ep.
  - eapply safe_after; [exact H1|]. rewrite parse_bind. cbn. by rewrite Ep.
  - intros Ht Hl. rewrite parse_bind. cbn. rewrite Ep. by apply H2.
Qed.

Lemma safe_more_match {A} n s p (k1 k2 : parsing E A) P :
  safe (pred n) false k1 P → safe_more n s k2 P →
  safe_more n s (match_token p ≫= λ b : bool, if b then k1 else k2) P.
Proof.
  intros H1 H2 t ts. destruct (p t) eqn:Ep.
  - eapply safe_after; [exact H1|]. rewrite parse_bind. cbn. by rewrite Ep.
  - intros Ht Hl. rewrite parse_bind. cbn. rewrite Ep. by apply H2.
Qed.

Lemma safe_match_only n p : safe n false (match_token p) any.
Proof.
  intros [|t ts] Ht Hl; cbn; [done|]. destruct (p t); [|done]. split_and!; [done|by exists [t]|done].
Qed.

(** ** Loops *)

(** A loop whose body consumes something ends. *)
Lemma safe_fuelled {A} n s (k : nat → parsing E A) P :
  (∀ fuel, (fuel ≤ n)%nat → safe fuel s (k fuel) P) → safe n s (fuelled k) P.
Proof. intros H ts Ht Hl. apply (H (S (length ts)) ltac:(lia) ts Ht). lia. Qed.


Lemma safe_semicolon_loop fuel : safe fuel false (semicolon_loop fuel) any.
Proof.
  induction fuel as [|fuel IH]; [intros ts _ Hl; lia|]. cbn [semicolon_loop].
  apply safe_match; [done|by apply safe_ret].
Qed.

Lemma safe_consumeSemicolons n : safe n false consumeSemicolons any.
Proof. apply safe_fuelled. intros. apply safe_semicolon_loop. Qed.

End safe.

#[export] Hint Extern 4 (_ ≤ _)%nat => lia : safe.
#[export] Hint Resolve safe_strict | 10 : safe.
#[export] Hint Resolve safe_peek safe_advance safe_match_only safe_consumeSemicolons : safe.
#[export] Hint Extern 1 (known _ _) => assumption : safe safe_fail.

(** The functions that are called. *)
Ltac safe_call :=
  eapply safe_weaken; [solve [eauto with safe]|first [apply le_n|lia]|first [done|discriminate]|first [done|by intros]].

Ltac safe_step :=
  cbn [pred];
  first
  [ apply safe_ret; first [done|exact I]
  | solve [eauto with safe_fail]
  | lazymatch goal with
    | |- safe _ _ _ _ (_ ≫= λ b, if b then _ else _) _ => apply safe_match
    | |- safe _ _ _ _ (match ?x with _ => _ end) _ => destruct x
    end
  | safe_call
  | eapply safe_bind_strict; [safe_call|intros ? ?]
  | eapply safe_bind; [safe_call|intros ? ?]
  | lazymatch goal with
    | |- safe _ _ _ _ (match ?x with _ => _ end ≫= _) _ => eapply (safe_bind _ _ _ _ _ _ any); [solve [repeat safe_step]|intros ? ?]
    end ].

Ltac safe_auto := repeat safe_step.
