(* ===== verification/ParserFacts.v ===== *)
(** * The SQL parser: termination and diagnostics

    Every function of [Parser] is shown to end, to consume a suffix of the tokens, and to report positions that exist:
    the rules of [ParserRules], function by function. *)

From S2P Require Import Prelude Float Numeral Tokenizer Policy Ast Parser ParserRules.

Section safe.
Context (sql : bytes) (all : list Token.t).

(** A diagnostic names a token of the input, or its end. *)
Definition located (d : Diagnostic.t) : Prop :=
  (∃ t, t ∈ all ∧ Diagnostic.offset d = Token.offset t ∧ (Diagnostic.token d = Token.lexeme t ∨ Diagnostic.token d = [])) ∨
  (Diagnostic.offset d = length sql ∧ Diagnostic.token d = []).

Local Notation safe := (safe located all).
Local Notation safe_more := (safe_more located all).
Local Notation known := (known all).
Local Notation known_option := (known_option all).

(** ** Tokens *)

Lemma located_token t code expected f :
  known t → located (Diagnostic.mk code (Token.offset t) (Token.lexeme t) expected f).
Proof. intros Ht. left. exists t. split; [done|]. split; [done|by left]. Qed.

Lemma located_end code expected f : located (Diagnostic.mk code (length sql) [] expected f).
Proof. by right. Qed.

Lemma safe_failToken {A} n s t code expected (P : A → Prop) : known t → safe n s (failToken t code expected) P.
Proof. intros Ht. by apply safe_fail, located_token. Qed.

Lemma safe_failEnd {A} n s expected (P : A → Prop) : safe n s (failEnd sql expected) P.
Proof. apply safe_fail, located_end. Qed.

Lemma safe_failCurrent {A} n s code expected (P : A → Prop) : safe n s (failCurrent sql code expected) P.
Proof.
  eapply safe_bind; [apply safe_peek|]. intros [t|] Ht; [by apply safe_failToken|apply safe_failEnd].
Qed.

Lemma safe_advance_or n expected : safe n true (advance_or sql expected) known.
Proof.
  intros [|t ts] Ht _; cbn; [apply located_end|]. split; [by eapply suffix_known|]. split; [by exists [t]|cbn; lia].
Qed.

Lemma safe_remaining n : safe n false remaining any.
Proof. intros ts Ht Hl. cbn. split_and!; [done|by exists ts; rewrite app_nil_r|done]. Qed.

Hint Resolve safe_failCurrent safe_failEnd safe_failToken : safe_fail.
Hint Resolve safe_advance_or safe_remaining : safe.

Lemma safe_expectSymbol n x : safe n true (expectSymbol sql x) any.
Proof. unfold expectSymbol. safe_auto. Qed.

Lemma safe_expectKeyword n x : safe n true (expectKeyword sql x) any.
Proof. unfold expectKeyword. safe_auto. Qed.

Lemma safe_nextIsSymbol n x : safe n false (nextIsSymbol x) any.
Proof. unfold nextIsSymbol. safe_auto. Qed.

Lemma safe_expectIdentifierToken n x : safe n true (expectIdentifierToken sql x) known.
Proof. unfold expectIdentifierToken. safe_auto. Qed.

Hint Resolve safe_expectSymbol safe_expectKeyword safe_nextIsSymbol safe_expectIdentifierToken : safe.

Lemma safe_expectIdentifierOwned n x : safe n true (expectIdentifierOwned sql x) any.
Proof. unfold expectIdentifierOwned. safe_auto. Qed.

Lemma safe_cloneStringLiteral n t : known t → safe n false (cloneStringLiteral t) any.
Proof. intros Ht. unfold cloneStringLiteral. safe_auto. Qed.

Lemma safe_number_of {A} n t (v : option A) x : known t → safe n false (number_of t v x) any.
Proof. intros Ht. unfold number_of. safe_auto. Qed.

Hint Resolve safe_expectIdentifierOwned safe_cloneStringLiteral safe_number_of : safe.

Lemma safe_number_literal n t negative : known t → safe n false (number_literal t negative) any.
Proof. intros Ht. unfold number_literal. safe_auto. Qed.

Hint Resolve safe_number_literal : safe.

Lemma safe_list_loop {A} n (item : parser A) close fuel : ∀ acc,
  (fuel ≤ n)%nat → safe n true item any → safe fuel false (list_loop sql item close fuel acc) any.
Proof.
  induction fuel as [|fuel IH]; intros acc Hf Hi; [intros ts _ Hl; lia|]. cbn [list_loop]. safe_auto.
Qed.

Lemma safe_list_until {A} n (item : parser A) close : safe n true item any → safe n false (list_until sql item close) any.
Proof. intros. apply safe_fuelled. intros. by eapply safe_list_loop. Qed.

Lemma safe_comma_loop {A} n (item : parser A) fuel : ∀ acc,
  (fuel ≤ n)%nat → safe n true item any → safe fuel true (comma_loop item fuel acc) any.
Proof.
  induction fuel as [|fuel IH]; intros acc Hf Hi; [intros ts _ Hl; lia|]. cbn [comma_loop]. safe_auto.
Qed.

Lemma safe_comma_list {A} n (item : parser A) : safe n true item any → safe n true (comma_list item) any.
Proof. intros. apply safe_fuelled. intros. by eapply safe_comma_loop. Qed.

Lemma safe_optional {A} n keyword (item : parser A) : safe n false item any → safe n false (optional keyword item) any.
Proof. intros. unfold optional. safe_auto. Qed.

Hint Resolve safe_list_until safe_comma_list safe_optional : safe.

(** ** Expressions *)

Lemma safe_vector_value n : safe n true (vector_value sql) any.
Proof. unfold vector_value. eapply safe_bind; [safe_call|intros ? ?]. safe_auto. Qed.

Lemma safe_parseComparisonOperator n : safe n true (parseComparisonOperator sql) any.
Proof. unfold parseComparisonOperator. safe_auto. Qed.

Hint Resolve safe_vector_value safe_parseComparisonOperator : safe.

Section expression.
Context (n : nat) (e : parser Expression.t) (He : safe n true e any).

Hint Resolve He : safe.

(** The argument of a primary expression is parsed after its first token. *)
Lemma safe_parsePrimary : safe (S n) true (parsePrimary sql e) any.
Proof. unfold parsePrimary. safe_auto. Qed.

Hint Resolve safe_parsePrimary : safe.

Lemma safe_additive_loop fuel : ∀ left, (fuel ≤ S n)%nat → safe fuel false (additive_loop sql e fuel left) any.
Proof.
  induction fuel as [|fuel IH]; intros left Hf; [intros ts _ Hl; lia|]. cbn [additive_loop]. safe_auto.
Qed.

Lemma safe_parseAdditiveExpression : safe (S n) true (parseAdditiveExpression sql e) any.
Proof.
  unfold parseAdditiveExpression. eapply safe_bind_strict; [safe_call|intros left _]. apply safe_fuelled.
  intros. apply safe_additive_loop. lia.
Qed.

Hint Resolve safe_parseAdditiveExpression : safe.

Lemma safe_parseComparisonExpression : safe (S n) true (parseComparisonExpression sql e) any.
Proof. unfold parseComparisonExpression. safe_auto. Qed.

Hint Resolve safe_parseComparisonExpression : safe.

Lemma safe_and_loop fuel : ∀ left, (fuel ≤ S n)%nat → safe fuel false (and_loop sql e fuel left) any.
Proof.
  induction fuel as [|fuel IH]; intros left Hf; [intros ts _ Hl; lia|]. cbn [and_loop]. safe_auto.
Qed.

Lemma safe_parseAndExpression : safe (S n) true (parseAndExpression sql e) any.
Proof.
  unfold parseAndExpression. eapply safe_bind_strict; [safe_call|intros left _]. apply safe_fuelled.
  intros. apply safe_and_loop. lia.
Qed.
End expression.

Lemma safe_expression_loop fuel : safe fuel true (expression_loop sql fuel) any.
Proof.
  induction fuel as [|fuel IH]; [intros ts _ Hl; lia|]. cbn [expression_loop]. by apply safe_parseAndExpression.
Qed.

Lemma safe_parseExpression n : safe n true (parseExpression sql) any.
Proof. apply safe_fuelled. intros. apply safe_expression_loop. Qed.

Hint Resolve safe_parseExpression : safe.

(** ** Column definitions *)

Lemma balanced_loop_suffix closing ts : ∀ depth rest,
  balanced_loop closing depth ts = Some rest → rest `suffix_of` ts ∧ (length rest < length ts)%nat.
Proof.
  induction ts as [|t ts IH]; intros depth rest; cbn; [done|].
  assert (Hc : rest `suffix_of` ts ∧ (length rest < length ts)%nat → rest `suffix_of` t :: ts ∧ (length rest < S (length ts))%nat).
  { intros [Hs Hl]. split; [by apply suffix_cons_r|lia]. }
  destruct (is_symbol t "("); [naive_solver|]. destruct (is_symbol t closing); [|naive_solver].
  destruct depth as [|[|depth]]; [| |naive_solver]; intros [= <-]; (split; [by exists [t]|lia]).
Qed.

Lemma safe_skipBalanced n closing : safe n true (skipBalanced sql closing) any.
Proof.
  intros ts Ht Hl. cbn. destruct (balanced_loop closing 1 ts) as [rest|] eqn:E; [|apply located_end].
  apply balanced_loop_suffix in E. naive_solver.
Qed.

Hint Resolve safe_skipBalanced : safe.

Lemma safe_parseColumnType n : safe n true (parseColumnType sql) any.
Proof. unfold parseColumnType. safe_auto. Qed.

(** The loop over the attributes stops at the end of the input. *)
Lemma safe_boundary {A} n s (k1 k2 : parser A) P :
  safe n s k1 P → safe_more n s k2 P →
  safe n s (isAtColumnDefinitionBoundary ≫= λ b : bool, if b then k1 else k2) P.
Proof.
  intros H1 H2 [|t ts]; [exact (H1 [])|]. intros Ht Hl. rewrite parse_bind. cbn.
  destruct (_ || _); [by apply H1|by apply H2].
Qed.

(** An attribute token is skipped where there is one. *)
Lemma safe_more_skip {A} n s (k : parser A) P :
  safe (pred n) false k P → safe_more n s (skipOneAttributeToken sql ;; k) P.
Proof.
  intros H t ts. destruct (is_symbol t "(") eqn:E.
  - eapply (safe_after _ _ _ _ _ (skipBalanced sql ")" ;; k)).
    + eapply safe_bind; [safe_call|intros _ _]. exact H.
    + rewrite parse_bind. unfold skipOneAttributeToken. rewrite parse_bind. cbn. by rewrite E.
  - eapply safe_after; [exact H|]. rewrite parse_bind. unfold skipOneAttributeToken. rewrite parse_bind. cbn. by rewrite E.
Qed.

Lemma safe_attributes_loop fuel : ∀ a, safe fuel false (attributes_loop sql fuel a) any.
Proof.
  induction fuel as [|fuel IH]; intros a; [intros ts _ Hl; lia|]. cbn [attributes_loop].
  apply safe_boundary; [by apply safe_ret|]. do 5 (apply safe_more_match; [safe_auto|]). by apply safe_more_skip.
Qed.

Lemma safe_parseColumnAttributes n : safe n false (parseColumnAttributes sql) any.
Proof. apply safe_fuelled. intros. apply safe_attributes_loop. Qed.

Lemma safe_index_column n : safe n true (index_column sql) any.
Proof. unfold index_column. safe_auto. Qed.

Hint Resolve safe_parseColumnType safe_parseColumnAttributes safe_index_column : safe.

Lemma safe_parseIndexColumnList n : safe n true (parseIndexColumnList sql) any.
Proof. unfold parseIndexColumnList. safe_auto. Qed.

Hint Resolve safe_parseIndexColumnList : safe.

Lemma safe_parseTableIndex n : safe n true (parseTableIndex sql) any.
Proof.
  unfold parseTableIndex. safe_auto.
Qed.

Lemma safe_isTableIndexStart n : safe n false isTableIndexStart any.
Proof. unfold isTableIndexStart. safe_auto. Qed.

Hint Resolve safe_parseTableIndex safe_isTableIndexStart : safe.

Lemma safe_table_element n : safe n true (table_element sql) any.
Proof. unfold table_element. eapply safe_bind; [safe_call|intros index _]. safe_auto. Qed.

Hint Resolve safe_table_element : safe.

(** ** Statements other than queries *)

Lemma safe_parseCreateTable n : safe n false (parseCreateTable sql) any.
Proof. unfold parseCreateTable. safe_auto. Qed.

Lemma safe_parseDropTable n : safe n false (parseDropTable sql) any.
Proof. unfold parseDropTable. safe_auto. Qed.

Lemma safe_parseInsert n : safe n false (parseInsert sql) any.
Proof. unfold parseInsert. safe_auto. Qed.

Lemma safe_assignment n : safe n true (assignment sql) any.
Proof. unfold assignment. safe_auto. Qed.

Hint Resolve safe_assignment : safe.

Lemma safe_parseUpdate n : safe n false (parseUpdate sql) any.
Proof. unfold parseUpdate. safe_auto. Qed.

Lemma safe_parseDelete n : safe n false (parseDelete sql) any.
Proof. unfold parseDelete. safe_auto. Qed.

Lemma safe_parseCall n : safe n false (parseCall sql) any.
Proof. unfold parseCall. safe_auto. Qed.

Lemma safe_procedure_param n : safe n true (procedure_param sql) any.
Proof.
  unfold procedure_param. eapply safe_bind; [safe_call|intros b _]. eapply safe_bind; [safe_call|intros t Ht].
  safe_auto.
Qed.

Hint Resolve safe_parseCreateTable safe_parseDropTable safe_parseInsert safe_parseUpdate safe_parseDelete safe_parseCall
  safe_procedure_param : safe.

(** ** Queries *)

Lemma safe_optional_alias n boundary : safe n false (optional_alias boundary) any.
Proof. unfold optional_alias. safe_auto. Qed.

Hint Resolve safe_optional_alias : safe.

Lemma safe_parseProjection n : safe n true (parseProjection sql) any.
Proof. unfold parseProjection, parseOptionalImplicitAlias. safe_auto. Qed.

Lemma safe_parseRequiredTableAlias n x : safe n true (parseRequiredTableAlias sql x) any.
Proof. unfold parseRequiredTableAlias. safe_auto. Qed.

Lemma safe_parseOptionalTableAlias n : safe n false (parseOptionalTableAlias sql) any.
Proof. unfold parseOptionalTableAlias. safe_auto. Qed.

Lemma safe_peekJoinType n : safe n false peekJoinType any.
Proof. unfold peekJoinType. safe_auto. Qed.

Lemma safe_consumeJoinType n j : safe n true (consumeJoinType sql j) any.
Proof. destruct j; unfold consumeJoinType; safe_auto. Qed.

Lemma safe_isAtClauseBoundary n : safe n false isAtClauseBoundary any.
Proof. unfold isAtClauseBoundary. safe_auto. Qed.

Hint Resolve safe_parseProjection safe_parseRequiredTableAlias safe_parseOptionalTableAlias safe_peekJoinType
  safe_consumeJoinType safe_isAtClauseBoundary : safe.

Lemma safe_projection_loop fuel : ∀ acc, safe fuel false (projection_loop sql fuel acc) any.
Proof.
  induction fuel as [|fuel IH]; intros acc; [intros ts _ Hl; lia|]. cbn [projection_loop].
  eapply safe_bind; [safe_call|intros stop _]. safe_auto.
Qed.

Lemma safe_order_key n : safe n true (order_key sql) any.
Proof. unfold order_key. safe_auto. Qed.

Lemma safe_limit_value n : safe n true (limit_value sql) any.
Proof. unfold limit_value. safe_auto. Qed.

(** The lists after [GROUP BY] and [ORDER BY]. *)
Lemma safe_by {A} n (item : parser A) :
  safe n true item any → safe n true (expectKeyword sql "BY" ;; comma_list item) any.
Proof. intros. safe_auto. Qed.

Hint Resolve safe_by safe_projection_loop safe_order_key safe_limit_value : safe.

Section query.
Context (n : nat) (q : parser SelectStatement) (Hq : safe n false q any).

Hint Resolve Hq : safe.

Lemma safe_cte : safe (S n) true (cte sql q) any.
Proof. unfold cte. safe_auto. Qed.

Hint Resolve safe_cte : safe.

(** A query after [WITH] follows a token. *)
Lemma safe_select_after_with : safe (S n) false (select_after_with sql q) any.
Proof. unfold select_after_with. safe_auto. Qed.

Hint Resolve safe_select_after_with : safe.

Lemma safe_parseRowSourceAtom : safe (S n) true (parseRowSourceAtom sql q) any.
Proof. unfold parseRowSourceAtom. safe_auto. Qed.

Hint Resolve safe_parseRowSourceAtom : safe.

Lemma safe_join_loop fuel : ∀ left, (fuel ≤ S n)%nat → safe fuel false (join_loop sql q fuel left) any.
Proof.
  induction fuel as [|fuel IH]; intros left Hf; [intros ts _ Hl; lia|]. cbn [join_loop]. safe_auto.
Qed.

Lemma safe_parseRowSource : safe (S n) true (parseRowSource sql q) any.
Proof.
  unfold parseRowSource. eapply safe_bind_strict; [safe_call|intros left _]. apply safe_fuelled.
  intros. apply safe_join_loop. lia.
Qed.

Hint Resolve safe_parseRowSource : safe.

Lemma safe_select_after_select : safe (S n) false (select_after_select sql q) any.
Proof.
  unfold select_after_select. eapply (safe_bind _ _ _ _ _ _ any); [apply safe_fuelled; intros; apply safe_projection_loop|].
  intros items _. safe_auto.
Qed.
End query.

Lemma safe_select_loop fuel : safe fuel false (select_loop sql fuel) any.
Proof.
  induction fuel as [|fuel IH]; [intros ts _ Hl; lia|]. cbn [select_loop]. by apply safe_select_after_select.
Qed.

Lemma safe_parseSelectAfterSelect n : safe n false (parseSelectAfterSelect sql) any.
Proof. apply safe_fuelled. intros. apply safe_select_loop. Qed.

Lemma safe_parseSelectAfterWith n : safe n false (parseSelectAfterWith sql) any.
Proof.
  eapply safe_weaken; [apply (safe_select_after_with n), safe_parseSelectAfterSelect|lia|done|done].
Qed.

Hint Resolve safe_parseSelectAfterSelect safe_parseSelectAfterWith : safe.

(** ** Views, procedures and whole statements *)

Lemma safe_parseCreateView n : safe n false (parseCreateView sql) any.
Proof. unfold parseCreateView. safe_auto. Qed.

Lemma located_start t code expected f : known_option t →
  located (Diagnostic.mk code (match t with Some t => Token.offset t | None => length sql end) [] expected f).
Proof.
  destruct t as [t|]; intros Ht; [|by right]. left. exists t. split; [done|]. split; [done|by right].
Qed.

Lemma safe_parseCreateProcedure n : safe n false (parseCreateProcedure sql) any.
Proof.
  unfold parseCreateProcedure. do 3 safe_step. eapply safe_bind; [safe_call|intros first Hf].
  eapply safe_bind; [safe_call|intros ts _]. destruct (_ <=? _)%nat; [by apply safe_fail, located_start|safe_auto].
Qed.

Hint Resolve safe_parseCreateView safe_parseCreateProcedure : safe.

Lemma safe_parseCreate n : safe n false (parseCreate sql) any.
Proof. unfold parseCreate. safe_auto. Qed.

Lemma safe_parseDrop n : safe n false (parseDrop sql) any.
Proof. unfold parseDrop. safe_auto. Qed.

Hint Resolve safe_parseCreate safe_parseDrop : safe.

Lemma safe_first_match n kinds :
  Forall (λ k, safe n false k.2 any) kinds → safe n false (first_match sql kinds) any.
Proof. induction 1 as [|[keyword follow] kinds Hk _ IH]; cbn [first_match]; [|cbn in Hk]; safe_auto. Qed.

Lemma safe_parseStatement n : safe n false (parseStatement sql) any.
Proof. apply safe_first_match. unfold statement_kinds. repeat apply Forall_cons_2; [..|done]; cbn [snd]; safe_auto. Qed.

End safe.

(** ** Diagnostics *)

Lemma chained_token sql t ts : ∀ from,
  chained sql from ts → t ∈ ts →
  (Token.offset t + length (Token.lexeme t) ≤ length sql)%nat ∧
  Token.lexeme t = take (length (Token.lexeme t)) (drop (Token.offset t) sql).
Proof.
  induction ts as [|t' ts IH]; intros from Hc Ht; [by apply elem_of_nil in Ht|].
  cbn in Hc. destruct Hc as (_ & _ & Hb & Hs & Hc). apply elem_of_cons in Ht as [->|Ht]; [by split|]. by eapply IH.
Qed.

(** The text of a diagnostic stands at its offset in the input. *)
Definition points_into (sql : bytes) (d : Diagnostic.t) : Prop :=
  (Diagnostic.offset d + length (Diagnostic.token d) ≤ length sql)%nat ∧
  Diagnostic.token d = take (length (Diagnostic.token d)) (drop (Diagnostic.offset d) sql).

Lemma located_points_into sql d : located sql (tokenize sql) d → points_into sql d.
Proof.
  unfold points_into. intros [(t & Ht & Ho & Hl)|[-> ->]]; [|cbn; by split; [lia|]].
  pose proof (tokens_chained sql (S (length sql)) 0 ltac:(lia)) as Hc.
  destruct (chained_token _ _ _ _ Hc Ht) as [H1 H2]. rewrite Ho.
  destruct Hl as [->| ->]; [done|]. cbn. split; [lia|done].
Qed.

Lemma policy_located ts all v s :
  ts `suffix_of` all → policy_loop s ts = Some v →
  ∃ t, t ∈ all ∧ PolicyViolation.offset v = Token.offset t ∧ PolicyViolation.token v = Token.lexeme t.
Proof.
  revert s. induction ts as [|t ts IH]; intros s Hs H; [done|]. cbn [policy_loop] in H.
  destruct (policy_step s t) as [v'|s'] eqn:E.
  - exists t. split; [by eapply suffix_known|]. injection H as ->.
    assert (∃ f, v = violation f t) as [f ->]; [|done].
    unfold policy_step in E. repeat (case_match; try done); injection E as <-; eauto.
  - apply (IH s'); [|done]. etransitivity; [|exact Hs]. by exists [t].
Qed.

(** The parser ends on every input, with a statement or with a diagnostic whose text is found at its offset in the input
    (the token that could not be used, the violation of the policy, or the end of the input). *)
Lemma parse_ends (sql : bytes) :
  ∃ r, parse sql = Some r ∧ match r with inl _ => True | inr d => points_into sql d end.
Proof.
  unfold parse. destruct (firstViolation sql) as [v|] eqn:Ev.
  - eexists. split; [done|]. apply located_points_into. left.
    destruct (policy_located _ _ _ _ (reflexivity _) Ev) as (t & Ht & H1 & H2). exists t. cbn. auto.
  - assert (H : safe (located sql (tokenize sql)) (tokenize sql) (S (length (tokenize sql))) false
                  (s ← parseStatement sql; consumeSemicolons ;; mret s) any).
    { eapply safe_bind; [apply safe_parseStatement|intros s _]. eapply safe_bind; [apply safe_consumeSemicolons|].
      intros. by apply safe_ret. }
    specialize (H (tokenize sql) (reflexivity _) ltac:(lia)).
    destruct (run _ (tokenize sql)) as [s [|t rest]|d|]; [by eexists| | |done].
    + eexists. split; [done|]. apply located_points_into, located_token. destruct H as (_ & Hs & _). by eapply suffix_known.
    + eexists. split; [done|]. by apply located_points_into.
Qed.

(** The same for an expression on its own, as the procedure body parser calls it. *)
Lemma parseExpressionOnly_ends (sql : bytes) :
  ∃ r, parseExpressionOnly sql = Some r ∧ match r with inl _ => True | inr d => points_into sql d end.
Proof.
  pose proof (safe_parseExpression sql (tokenize sql) (S (length (tokenize sql))) (tokenize sql) (reflexivity _)
                ltac:(lia)) as H. unfold parseExpressionOnly.
  destruct (run _ (tokenize sql)) as [e [|t rest]|d|]; [by eexists| | |done].
  - eexists. split; [done|]. apply located_points_into, located_token. destruct H as (_ & Hs & _). by eapply suffix_known.
  - eexists. split; [done|]. by apply located_points_into.
Qed.
