(* ===== verification/Grammar.v ===== *)
(** * The grammar of SQL expressions

    A grammar with four levels of precedence, as rules on token lists, and that [Parser.parseExpression] decides it: what the
    parser returns has a derivation, and every derivation is found. *)

From S2P Require Import Prelude Float Numeral Tokenizer Policy Ast Parser ParserRules ParserFacts.

(** ** Rules *)

Inductive level := Conjunction | Comparison | Sum | Primary.

(** Items up to a closing symbol, separated by commas; the last comma may stand before the closing symbol. *)
Inductive listed {A} (item : list Token.t → A → Prop) (close : string) : list Token.t → list A → Prop :=
  | listed_nil t : is_symbol t close = true → listed item close [t] []
  | listed_last ts t x : item ts x → is_symbol t close = true → listed item close (ts ++ [t]) [x]
  | listed_cons ts t us x xs :
      item ts x → is_symbol t "," = true → listed item close us xs → listed item close (ts ++ t :: us) (x :: xs).

(** The value of a string token: unquoted, with doubled apostrophes halved, if it is closed. *)
Definition string_value (t : Token.t) : option bytes :=
  match run (cloneStringLiteral t) [] with Done s _ => Some s | _ => None end.

Definition number_value (t : Token.t) (negative : bool) : option Expression.t :=
  match run (number_literal t negative) [] with Done e _ => Some e | _ => None end.

(** A number, or one with a minus sign, in a vector. *)
Inductive vector_item : list Token.t → Z → Prop :=
  | vector_positive t v :
      is_kind t number = true → parse_float (Token.lexeme t) = Some v → vector_item [t] (f64_mul f64_one v)
  | vector_negative m t v :
      is_symbol m "-" = true → is_kind t number = true → parse_float (Token.lexeme t) = Some v →
      vector_item [m; t] (f64_mul f64_minus_one v).

Inductive comparison : list Token.t → BinaryOperator → Prop :=
  | cmp_eq a : is_symbol a "=" = true → comparison [a] equal
  | cmp_lt a : is_symbol a "<" = true → comparison [a] less_than
  | cmp_le a b : is_symbol a "<" = true → is_symbol b "=" = true → comparison [a; b] less_equal
  | cmp_ne a b : is_symbol a "<" = true → is_symbol b ">" = true → comparison [a; b] not_equal
  | cmp_gt a : is_symbol a ">" = true → comparison [a] greater_than
  | cmp_ge a b : is_symbol a ">" = true → is_symbol b "=" = true → comparison [a; b] greater_equal
  | cmp_ne' a b : is_symbol a "!" = true → is_symbol b "=" = true → comparison [a; b] not_equal.

(** An identifier that is not one of the literals. *)
Definition is_name (t : Token.t) : bool := isIdentifier t && negb (is_keyword t ["NULL"; "TRUE"; "FALSE"]%string).

Inductive derives : level → list Token.t → Expression.t → Prop :=
  | d_comparison ts e : derives Comparison ts e → derives Conjunction ts e
  | d_and ts t us l r :
      derives Conjunction ts l → Token.eqlIgnoreCase t (B "AND") = true → derives Comparison us r →
      derives Conjunction (ts ++ t :: us) (Expression.binary l and_op r)
  | d_sum ts e : derives Sum ts e → derives Comparison ts e
  | d_compare ts os us l op r :
      derives Sum ts l → comparison os op → derives Sum us r →
      derives Comparison (ts ++ os ++ us) (Expression.binary l op r)
  | d_primary ts e : derives Primary ts e → derives Sum ts e
  | d_add ts t us l r :
      derives Sum ts l → is_symbol t "+" = true → derives Primary us r →
      derives Sum (ts ++ t :: us) (Expression.binary l add r)
  | d_subtract ts t us l r :
      derives Sum ts l → is_symbol t "-" = true → derives Primary us r →
      derives Sum (ts ++ t :: us) (Expression.binary l subtract r)
  | d_string t s :
      is_kind t string_ = true → string_value t = Some s → derives Primary [t] (Expression.literal (Literal.string s))
  | d_number t e : is_kind t number = true → number_value t false = Some e → derives Primary [t] e
  | d_negative m t e :
      is_symbol m "-" = true → is_kind t number = true → number_value t true = Some e → derives Primary [m; t] e
  | d_star t : is_symbol t "*" = true → derives Primary [t] Expression.star
  | d_vector t ts vs :
      is_symbol t "[" = true → listed vector_item "]" ts vs →
      derives Primary (t :: ts) (Expression.literal (Literal.vector vs))
  | d_parens t ts t' e :
      is_symbol t "(" = true → derives Conjunction ts e → is_symbol t' ")" = true → derives Primary (t :: ts ++ [t']) e
  | d_null t : Token.eqlIgnoreCase t (B "NULL") = true → derives Primary [t] (Expression.literal Literal.null)
  | d_true t : Token.eqlIgnoreCase t (B "TRUE") = true → derives Primary [t] (Expression.literal (Literal.boolean true))
  | d_false t : Token.eqlIgnoreCase t (B "FALSE") = true → derives Primary [t] (Expression.literal (Literal.boolean false))
  | d_call t o ts args :
      is_name t = true → is_symbol o "(" = true → listed (derives Conjunction) ")" ts args →
      derives Primary (t :: o :: ts) (Expression.function_call (normalizedIdentifier t) args)
  | d_name t : is_name t = true → derives Primary [t] (Expression.identifier (normalizedIdentifier t))
  | d_member t p m :
      is_name t = true → is_symbol p "." = true → isIdentifier m = true →
      derives Primary [t; p; m] (Expression.identifier (normalizedIdentifier t ++ B "." ++ normalizedIdentifier m)).

(** ** Soundness *)

(** What the function returns is derived from the tokens it consumed. *)
Definition sound {A} (m : parser A) (R : list Token.t → A → Prop) : Prop :=
  ∀ ts a rest, run m ts = Done a rest → ∃ used, ts = used ++ rest ∧ R used a.

Lemma sound_ret {A} (a : A) (R : list Token.t → A → Prop) : R [] a → sound (mret a) R.
Proof. intros H ts b rest [= <- <-]. by exists []. Qed.

Lemma sound_fail {A} d (R : list Token.t → A → Prop) : sound (fail d) R.
Proof. by intros ts a rest. Qed.

Lemma sound_stuck {A} (R : list Token.t → A → Prop) : sound stuck R.
Proof. by intros ts a rest. Qed.

Lemma sound_bind {A B} (m : parser A) (k : A → parser B) R Q :
  sound m R → (∀ used a, R used a → sound (k a) (λ ts, Q (used ++ ts))) → sound (m ≫= k) Q.
Proof.
  intros Hm Hk ts b rest. rewrite parse_bind. destruct (run m ts) as [a ts'|d|] eqn:E; [|done|done].
  destruct (Hm _ _ _ E) as (used & -> & HR). intros H. destruct (Hk used a HR _ _ _ H) as (used' & -> & HQ).
  exists (used ++ used'). by rewrite <- app_assoc.
Qed.

Lemma sound_impl {A} (m : parser A) (R Q : list Token.t → A → Prop) :
  sound m R → (∀ ts a, R ts a → Q ts a) → sound m Q.
Proof. intros H HQ ts a rest E. destruct (H _ _ _ E) as (used & -> & HR). eauto. Qed.

Lemma sound_advance_or sql x : sound (advance_or sql x) (λ ts t, ts = [t]).
Proof. intros [|t ts] a rest; [done|]. intros [= <- <-]. by exists [t]. Qed.

Lemma sound_match p : sound (match_token p) (λ ts b, if b then ∃ t, ts = [t] ∧ p t = true else ts = []).
Proof.
  intros [|t ts] b rest; cbn; [intros [= <- <-]; by exists []|].
  destruct (p t) eqn:E; intros [= <- <-]; [exists [t]; eauto|by exists []].
Qed.

Lemma sound_peek : sound peek (λ ts _, ts = []).
Proof. intros ts a rest [= _ <-]. exists []. by split. Qed.

Lemma sound_fuelled {A} (k : nat → parser A) R : (∀ fuel, sound (k fuel) R) → sound (fuelled k) R.
Proof. intros H ts a rest E. exact (H (S (length ts)) ts a rest E). Qed.

(** Applies the rules of [sound] to a body: a bind by the lemma of its first function, a test by cases. *)
Ltac sound_step :=
  first
  [ apply sound_fail | apply sound_stuck
  | lazymatch goal with
    | |- sound (if ?b then _ else _) _ => destruct b eqn:?
    | |- sound (match ?x with _ => _ end) _ => destruct x eqn:?
    | |- sound (mret _) _ => apply sound_ret; cbn beta
    | |- sound (_ ≫= _) _ => eapply sound_bind; [solve [eauto with sound]|intros ? ? ?; cbn beta in *]
    end ].

Ltac sound_auto :=
  repeat (sound_step; repeat match goal with H : ∃ _, _ |- _ => destruct H | H : _ ∧ _ |- _ => destruct H end; subst).

Create HintDb sound.

Hint Resolve sound_advance_or sound_peek : sound.

Hint Extern 1 (sound (match_token _) _) => apply sound_match : sound.
Hint Extern 1 (sound (matchSymbol _) _) => apply sound_match : sound.
Hint Extern 1 (sound (matchKeyword _) _) => apply sound_match : sound.

Lemma sound_expectSymbol sql x : sound (expectSymbol sql x) (λ ts _, ∃ t, ts = [t] ∧ is_symbol t x = true).
Proof. unfold expectSymbol. sound_auto. exists a. split; [done|]. by apply negb_false_iff. Qed.

Lemma sound_expectIdentifierToken sql x :
  sound (expectIdentifierToken sql x) (λ ts t, ts = [t] ∧ isIdentifier t = true).
Proof. unfold expectIdentifierToken. sound_auto. split; [done|]. by apply negb_false_iff. Qed.

Hint Resolve sound_expectSymbol sound_expectIdentifierToken : sound.

Lemma sound_list_loop {A} sql (item : parser A) R close fuel : sound item R → ∀ acc,
  sound (list_loop sql item close fuel acc) (λ ts xs, ∃ ys, xs = acc ++ ys ∧ listed R close ts ys).
Proof.
  intros Hi. induction fuel as [|fuel IH]; intros acc; cbn [list_loop]; [apply sound_stuck|].
  sound_auto.
  - exists []. rewrite app_nil_r. split; [done|]. by constructor.
  - eapply sound_impl; [apply IH|]. intros ts xs (ys & -> & Hl). exists (a :: ys).
    rewrite <- app_assoc. split; [done|]. by apply listed_cons.
  - exists [a]. split; [done|]. by apply listed_last.
Qed.

Lemma sound_list_until {A} sql (item : parser A) R close :
  sound item R → sound (list_until sql item close) (listed R close).
Proof.
  intros Hi. apply sound_fuelled. intros fuel. eapply sound_impl; [by apply sound_list_loop|]. by intros ts xs (ys & -> & Hl).
Qed.

Lemma sound_number_of {A} t (v : option A) x : sound (number_of t v x) (λ ts a, ts = [] ∧ v = Some a).
Proof. unfold number_of. sound_auto. done. Qed.

Lemma sound_cloneStringLiteral t : sound (cloneStringLiteral t) (λ ts s, ts = [] ∧ string_value t = Some s).
Proof.
  unfold string_value. unfold cloneStringLiteral. sound_auto; intros; split; done.
Qed.

Lemma sound_number_literal t negative :
  sound (number_literal t negative) (λ ts e, ts = [] ∧ number_value t negative = Some e).
Proof.
  unfold number_value, number_literal, number_of. intros ts e rest.
  destruct (has_point t); [destruct (parse_float _)|destruct (parse_int _ _)]; try done; intros [= <- <-]; exists []; done.
Qed.

Hint Resolve sound_number_of sound_cloneStringLiteral sound_number_literal : sound.

Lemma sound_vector_value sql : sound (vector_value sql) vector_item.
Proof.
  unfold vector_value. eapply sound_bind; [solve [eauto with sound]|intros used negative Hn; cbn beta].
  sound_auto. rewrite app_nil_r. lazymatch goal with H : negb _ = false |- _ => apply negb_false_iff in H end.
  destruct negative; [destruct Hn as (m & -> & Hm)|subst used]; by constructor.
Qed.

(** The function only compares texts; that the first token is a symbol was tested before. *)
Lemma sound_parseComparisonOperator sql :
  sound (parseComparisonOperator sql)
    (λ ts op, ∃ t us, ts = t :: us ∧ (is_kind t symbol = true → comparison ts op)).
Proof.
  unfold parseComparisonOperator. sound_auto; eexists _, _; (split; [reflexivity|]); intros Hk;
    rewrite ?bool_decide_eq_true in *; constructor; try done; unfold is_symbol; rewrite Hk; by apply bool_decide_eq_true.
Qed.

(** The token that was looked at is the first one consumed. *)
Lemma sound_peek_bind {A} (k : option Token.t → parser A) Q :
  sound (k None) Q → (∀ t, sound (k (Some t)) (λ ts a, (∀ t' us, ts = t' :: us → t' = t) → Q ts a)) → sound (peek ≫= k) Q.
Proof.
  intros H1 H2 [|t ts] a rest; rewrite parse_bind; cbn; [apply H1|]. intros E.
  destruct (H2 _ _ _ _ E) as (used & Hu & HQ). exists used. split; [done|]. apply HQ. intros t' us ->. by injection Hu as ->.
Qed.

Hint Resolve sound_vector_value sound_parseComparisonOperator sound_list_until : sound.

Section expression.
Context (sql : bytes) (e : parser Expression.t) (He : sound e (derives Conjunction)).

Hint Resolve He : sound.

Lemma sound_parsePrimary : sound (parsePrimary sql e) (derives Primary).
Proof.
  unfold parsePrimary.
  eapply sound_bind; [apply sound_advance_or|]. cbn beta. intros ? t ->.
  assert (Hname : isIdentifier t = true → Token.eqlIgnoreCase t (B "NULL") = false →
    Token.eqlIgnoreCase t (B "TRUE") = false → Token.eqlIgnoreCase t (B "FALSE") = false → is_name t = true).
  { intros H1 H2 H3 H4. unfold is_name, is_keyword. cbn [existsb]. by rewrite H1, H2, H3, H4. }
  sound_auto; rewrite ?app_nil_r; cbn [app]; try by constructor; auto.
  - eapply sound_impl; [apply sound_number_literal|]. intros us v [-> Hv]. by constructor.
  - eapply sound_impl; [apply sound_number_literal|]. intros us v [-> Hv]. constructor; [done| |done]. by apply negb_false_iff.
Qed.

Hint Resolve sound_parsePrimary : sound.

Lemma sound_additive_loop fuel : ∀ left used, derives Sum used left →
  sound (additive_loop sql e fuel left) (λ ts, derives Sum (used ++ ts)).
Proof.
  induction fuel as [|fuel IH]; intros left used Hl; cbn [additive_loop]; [apply sound_stuck|].
  sound_auto; [| |by rewrite app_nil_r].
  - eapply sound_impl; [apply IH; by apply d_add|]. intros ts b. cbn [app]. by rewrite <- app_assoc.
  - eapply sound_impl; [apply IH; by apply d_subtract|]. intros ts b. cbn [app]. by rewrite <- app_assoc.
Qed.

Lemma sound_parseAdditiveExpression : sound (parseAdditiveExpression sql e) (derives Sum).
Proof.
  unfold parseAdditiveExpression. sound_auto. apply sound_fuelled. intros fuel. apply sound_additive_loop. by apply d_primary.
Qed.

Hint Resolve sound_parseAdditiveExpression : sound.

Lemma sound_parseComparisonExpression : sound (parseComparisonExpression sql e) (derives Comparison).
Proof.
  unfold parseComparisonExpression. eapply sound_bind; [solve [eauto with sound]|intros used left Hl; cbn beta].
  apply sound_peek_bind; [apply sound_ret; rewrite app_nil_r; by apply d_sum|]. intros t.
  destruct (isComparisonStart (Some t)) eqn:Ec; [|apply sound_ret; intros _; rewrite app_nil_r; by apply d_sum].
  sound_auto. intros Ht. specialize (Ht _ _ eq_refl) as ->. rewrite app_nil_r.
  apply d_compare; [done| |done]. cbn in Ec. apply andb_true_iff in Ec as [Hk _]. auto.
Qed.

Hint Resolve sound_parseComparisonExpression : sound.

Lemma sound_and_loop fuel : ∀ left used, derives Conjunction used left →
  sound (and_loop sql e fuel left) (λ ts, derives Conjunction (used ++ ts)).
Proof.
  induction fuel as [|fuel IH]; intros left used Hl; cbn [and_loop]; [apply sound_stuck|].
  sound_auto; [|by rewrite app_nil_r].
  eapply sound_impl; [apply IH; by apply d_and|]. intros ts b. cbn [app]. by rewrite <- app_assoc.
Qed.

Lemma sound_parseAndExpression : sound (parseAndExpression sql e) (derives Conjunction).
Proof.
  unfold parseAndExpression. sound_auto. apply sound_fuelled. intros fuel. apply sound_and_loop. by apply d_comparison.
Qed.

End expression.

Lemma sound_expression_loop sql fuel : sound (expression_loop sql fuel) (derives Conjunction).
Proof. induction fuel as [|fuel IH]; [apply sound_stuck|]. by apply sound_parseAndExpression. Qed.

Lemma sound_parseExpression sql : sound (parseExpression sql) (derives Conjunction).
Proof. apply sound_fuelled, sound_expression_loop. Qed.

(** ** Completeness *)

Lemma listed_impl {A} (R R' : list Token.t → A → Prop) close :
  (∀ ts x, R ts x → R' ts x) → ∀ ts xs, listed R close ts xs → listed R' close ts xs.
Proof.
  intros f. refine (fix F ts xs (d : listed R close ts xs) {struct d} : listed R' close ts xs := _).
  destruct d; [by constructor|constructor; auto|constructor; auto].
Defined.

Lemma is_symbol_inv t x : is_symbol t x = true → ∃ o b, t = Token.mk symbol (B x) o b.
Proof.
  destruct t as [k l o b]. unfold is_symbol, is_kind. cbn. rewrite andb_true_iff, !bool_decide_eq_true.
  intros [-> ->]. eauto.
Qed.

Lemma is_kind_inv t k : is_kind t k = true → ∃ l o b, t = Token.mk k l o b.
Proof. destruct t as [k' l o b]. unfold is_kind. cbn. rewrite bool_decide_eq_true. intros ->. eauto. Qed.

(** A token an expression can start with. *)
Definition can_start (t : Token.t) : bool :=
  negb (is_kind t symbol) || existsb (is_symbol t) ["*"; "["; "("; "-"]%string.

Definition starts (ts : list Token.t) : Prop := ∃ t us, ts = t :: us ∧ can_start t = true.

Lemma starts_app ts us : starts ts → starts (ts ++ us).
Proof. intros (t & ts' & -> & Ht). by exists t, (ts' ++ us). Qed.

Lemma symbol_starts t ts x : is_symbol t x = true → x ∈ ["*"; "["; "("; "-"]%string → starts (t :: ts).
Proof.
  intros H Hx. exists t, ts. split; [done|]. unfold can_start. apply orb_true_iff. right. apply existsb_exists.
  exists x. by rewrite <- list_elem_of_In.
Qed.

Lemma other_starts t ts : Token.kind t ≠ symbol → starts (t :: ts).
Proof. intros H. exists t, ts. split; [done|]. unfold can_start, is_kind. by rewrite bool_decide_false. Qed.

Lemma kind_not_symbol t k : is_kind t k = true → k ≠ symbol → Token.kind t ≠ symbol.
Proof. unfold is_kind. rewrite bool_decide_eq_true. congruence. Qed.

Lemma keyword_kind t x : Token.eqlIgnoreCase t x = true → Token.kind t = identifier.
Proof. unfold Token.eqlIgnoreCase. rewrite andb_true_iff, bool_decide_eq_true. by intros []. Qed.

Lemma name_kind t : is_name t = true → Token.kind t = identifier.
Proof. unfold is_name, isIdentifier, is_kind. rewrite andb_true_iff, bool_decide_eq_true. by intros []. Qed.

Lemma derives_starts lv ts e : derives lv ts e → starts ts.
Proof.
  induction 1; try by auto using starts_app.
  all: try (eapply symbol_starts; [eassumption|by repeat constructor]).
  all: apply other_starts; try by (eapply kind_not_symbol; [eassumption|]).
  all: try by (erewrite keyword_kind). all: by rewrite name_kind.
Qed.

Lemma starts_not t x :
  can_start t = true → can_start (Token.mk symbol (B x) 0 true) = false → is_symbol t x = false.
Proof.
  intros Ht Hx. destruct (is_symbol t x) eqn:E; [|done]. apply is_symbol_inv in E as (o & b & ->).
  exact (eq_trans (eq_sym Ht) Hx).
Qed.

(** The token after a phrase does not satisfy [p]. *)
Definition head_not (p : Token.t → bool) (rest : list Token.t) : Prop :=
  match rest with t :: _ => p t = false | [] => True end.

(** What would continue a phrase of a level. *)
Definition continues (lv : level) (t : Token.t) : bool :=
  is_symbol t "(" || is_symbol t "." ||
  match lv with
  | Primary => false
  | Sum => is_symbol t "+" || is_symbol t "-"
  | Comparison => is_symbol t "+" || is_symbol t "-" || isComparisonStart (Some t)
  | Conjunction => is_symbol t "+" || is_symbol t "-" || isComparisonStart (Some t) || Token.eqlIgnoreCase t (B "AND")
  end.

Definition follows (lv : level) (rest : list Token.t) : Prop := head_not (continues lv) rest.

Lemma follows_primary lv rest : follows lv rest → follows Primary rest.
Proof.
  destruct rest as [|t rest]; [done|]. unfold follows, head_not, continues. intros H. apply orb_false_iff in H as [H _]. by rewrite H.
Qed.

Lemma run_done {A B} (m : parser A) (k : A → parser B) ts a ts' :
  run m ts = Done a ts' → run (m ≫= k) ts = run (k a) ts'.
Proof. intros H. by rewrite parse_bind, H. Qed.

Lemma parse_then {A B} (m : parser A) (k : A → parser B) ts a ts' r :
  run m ts = Done a ts' → run (k a) ts' = r → run (m ≫= k) ts = r.
Proof. intros H <-. by apply run_done. Qed.

Lemma run_advance_or {A} sql x (k : Token.t → parser A) t ts : run (advance_or sql x ≫= k) (t :: ts) = run (k t) ts.
Proof. reflexivity. Qed.

Lemma run_match {A} p (k : bool → parser A) ts :
  run (match_token p ≫= k) ts =
  match ts with t :: ts' => if p t then run (k true) ts' else run (k false) ts | [] => run (k false) [] end.
Proof. rewrite parse_bind. destruct ts as [|t ts]; cbn; [done|]. by destruct (p t). Qed.

Lemma run_match_true {A} p (k : bool → parser A) t ts : p t = true → run (match_token p ≫= k) (t :: ts) = run (k true) ts.
Proof. intros H. by rewrite run_match, H. Qed.

Lemma run_match_false {A} p (k : bool → parser A) ts : head_not p ts → run (match_token p ≫= k) ts = run (k false) ts.
Proof. rewrite run_match. destruct ts as [|t ts]; [done|]. by intros ->. Qed.

Lemma head_not_app p ts rest : starts ts → (∀ t, can_start t = true → p t = false) → head_not p (ts ++ rest).
Proof. intros (t & us & -> & Ht) H. by apply H. Qed.

Lemma run_expectSymbol {A} sql x (k : parser A) t ts :
  is_symbol t x = true → run (expectSymbol sql x ;; k) (t :: ts) = run k ts.
Proof. intros H. rewrite parse_bind. unfold expectSymbol. rewrite parse_bind. cbn [run advance_or]. cbn. by rewrite H. Qed.

(** An item that the function recognises before a comma or the closing symbol. *)
Definition recognised {A} (item : parser A) (close : string) (n : nat) (ts : list Token.t) (x : A) : Prop :=
  starts ts ∧ ∀ t rest, (length (ts ++ t :: rest) < n)%nat → is_symbol t close || is_symbol t "," = true →
    run item (ts ++ t :: rest) = Done x (t :: rest).

Lemma complete_list_loop {A} sql (item : parser A) close n us xs :
  can_start (Token.mk symbol (B close) 0 true) = false →
  B close ≠ B "," →
  listed (recognised item close n) close us xs →
  ∀ fuel acc rest, (length us < fuel)%nat → (length (us ++ rest) < n)%nat →
  run (list_loop sql item close fuel acc) (us ++ rest) = Done (acc ++ xs) rest.
Proof.
  intros Hc Hcomma. induction 1 as [t Ht|ts t x [Hs Hx] Ht|ts t us x xs [Hs Hx] Ht _ IH]; intros [|fuel] acc rest Hf Hn;
    try lia; cbn [list_loop].
  - cbn [app]. rewrite app_nil_r. unfold matchSymbol. by rewrite run_match_true.
  - rewrite <- app_assoc in *. cbn [app] in *. unfold matchSymbol. rewrite run_match_false.
    2: { apply head_not_app; [done|]. intros. by apply starts_not. }
    erewrite run_done by (apply Hx; [done|by rewrite Ht]). rewrite run_match_false, run_expectSymbol; [done|done|].
    apply is_symbol_inv in Ht as (o & b & ->). unfold head_not, is_symbol. cbn. by apply bool_decide_false.
  - rewrite <- app_assoc in *. cbn [app] in *. unfold matchSymbol. rewrite run_match_false.
    2: { apply head_not_app; [done|]. intros. by apply starts_not. }
    erewrite run_done by (apply Hx; [done|by rewrite Ht, orb_true_r]). rewrite run_match_true by done. fold (@matchSymbol Diagnostic.t close).
    rewrite IH; [by rewrite <- app_assoc| |].
    + rewrite length_app in Hf. cbn in Hf. lia.
    + rewrite !length_app in *. cbn in Hn. rewrite length_app in Hn. lia.
Qed.

Section complete.
Context (sql : bytes).

Local Notation X := (expression_loop sql).

(** The function of a level finds the phrase; a loop is reached with the phrase as its left operand. *)
Definition accepted (lv : level) (ts : list Token.t) (e : Expression.t) : Prop :=
  match lv with
  | Primary => ∀ fuel rest, follows Primary rest → (length (ts ++ rest) ≤ fuel)%nat →
      run (parsePrimary sql (X fuel)) (ts ++ rest) = Done e rest
  | Sum => ∀ fuel rest r, follows Primary rest → (length (ts ++ rest) ≤ fuel)%nat →
      (∀ f, (length rest < f)%nat → run (additive_loop sql (X fuel) f e) rest = r) →
      run (parseAdditiveExpression sql (X fuel)) (ts ++ rest) = r
  | Comparison => ∀ fuel rest, follows Comparison rest → (length (ts ++ rest) ≤ fuel)%nat →
      run (parseComparisonExpression sql (X fuel)) (ts ++ rest) = Done e rest
  | Conjunction => ∀ fuel rest r, follows Comparison rest → (length (ts ++ rest) ≤ fuel)%nat →
      (∀ f, (length rest < f)%nat → run (and_loop sql (X fuel) f e) rest = r) →
      run (parseAndExpression sql (X fuel)) (ts ++ rest) = r
  end.

(** Decides the tests on a token whose kind is known. *)
Ltac branch :=
  repeat lazymatch goal with
  | |- run (if ?c then _ else _) _ = _ => first [change c with true|change c with false]; cbv iota
  end.

Ltac primary := cbn [app]; unfold parsePrimary; rewrite run_advance_or; branch.

Lemma follows_not t x lv rest :
  follows lv (t :: rest) → continues lv (Token.mk symbol (B x) 0 true) = true → is_symbol t x = false.
Proof.
  intros Ht Hx. destruct (is_symbol t x) eqn:E; [|done]. apply is_symbol_inv in E as (o & b & ->).
  unfold follows, head_not in Ht. rewrite <- Ht. symmetry. destruct lv; exact Hx.
Qed.

Lemma follows_head_not x lv rest :
  follows lv rest → continues lv (Token.mk symbol (B x) 0 true) = true → head_not (λ t, is_symbol t x) rest.
Proof. destruct rest as [|t rest]; [done|]. intros H Hx. by eapply follows_not. Qed.

Lemma accepted_string t s :
  is_kind t string_ = true → string_value t = Some s → accepted Primary [t] (Expression.literal (Literal.string s)).
Proof.
  intros Ht Hs fuel rest _ _. apply is_kind_inv in Ht as (l & o & b & ->). primary.
  apply (parse_then _ _ _ s rest); [|done]. unfold string_value in Hs. revert Hs. unfold cloneStringLiteral. destruct (Token.lexeme _) as [|c l'];
    [by intros [= <-]|]. destruct (is_char c 39); [destruct (negb _)|destruct (_ <? _)%nat]; cbn; congruence.
Qed.

Lemma run_number t negative e rest : number_value t negative = Some e → run (number_literal t negative) rest = Done e rest.
Proof.
  unfold number_value, number_literal, number_of.
  destruct (has_point t); [destruct (parse_float _)|destruct (parse_int _ _)]; cbn; congruence.
Qed.

Lemma accepted_number t e : is_kind t number = true → number_value t false = Some e → accepted Primary [t] e.
Proof.
  intros Ht Hs fuel rest _ _. apply is_kind_inv in Ht as (l & o & b & ->). primary.
  by apply run_number.
Qed.

Lemma accepted_negative m t e :
  is_symbol m "-" = true → is_kind t number = true → number_value t true = Some e → accepted Primary [m; t] e.
Proof.
  intros Hm Ht Hs fuel rest _ _. apply is_kind_inv in Ht as (l & o & b & ->). apply is_symbol_inv in Hm as (o' & b' & ->).
  primary.
  rewrite run_advance_or. branch. by apply run_number.
Qed.

Lemma accepted_star t : is_symbol t "*" = true → accepted Primary [t] Expression.star.
Proof. intros Ht fuel rest _ _. apply is_symbol_inv in Ht as (o & b & ->). reflexivity. Qed.

Lemma keyword_other t x y : Token.eqlIgnoreCase t x = true → Token.eqlIgnoreCase t y = eqlIgnoreCase x y.
Proof.
  unfold Token.eqlIgnoreCase. rewrite andb_true_iff. intros [-> H]. cbn [andb]. change (same_name (Token.lexeme t) x) in H.
  by rewrite H.
Qed.

Ltac primary_keyword t H :=
  intros fuel rest _ _; pose proof (keyword_kind _ _ H) as Hk; destruct t as [k l o b]; cbn in Hk; subst k;
  primary; rewrite !(keyword_other _ _ _ H); branch; done.

Lemma accepted_null t :
  Token.eqlIgnoreCase t (B "NULL") = true → accepted Primary [t] (Expression.literal Literal.null).
Proof. intros H. primary_keyword t H. Qed.

Lemma accepted_true t :
  Token.eqlIgnoreCase t (B "TRUE") = true → accepted Primary [t] (Expression.literal (Literal.boolean true)).
Proof. intros H. primary_keyword t H. Qed.

Lemma accepted_false t :
  Token.eqlIgnoreCase t (B "FALSE") = true → accepted Primary [t] (Expression.literal (Literal.boolean false)).
Proof. intros H. primary_keyword t H. Qed.

(** The first token of a name, and what is tried after it. *)
Lemma run_name t e ts : is_name t = true →
  run (parsePrimary sql e) (t :: ts) =
  run (call ← matchSymbol "(";
       if call : bool
       then args ← list_until sql e ")"; mret (Expression.function_call (normalizedIdentifier t) args)
       else
         qualified ← matchSymbol ".";
         if qualified : bool then
           member ← expectIdentifierToken sql "qualified identifier member";
           mret (Expression.identifier (normalizedIdentifier t ++ B "." ++ normalizedIdentifier member))
         else mret (Expression.identifier (normalizedIdentifier t))) ts.
Proof.
  intros H. apply name_kind in H as Hk. destruct t as [k l o b]. cbn in Hk. subst k. primary.
  unfold is_name, is_keyword in H. cbn [existsb] in H.
  apply andb_true_iff in H as [_ H]. rewrite negb_true_iff, !orb_false_iff in H. by destruct H as (-> & -> & -> & _).
Qed.

Lemma accepted_name t : is_name t = true → accepted Primary [t] (Expression.identifier (normalizedIdentifier t)).
Proof.
  intros Ht fuel rest Hf _. cbn [app]. rewrite run_name by done. unfold matchSymbol.
  rewrite !run_match_false by (by eapply follows_head_not). done.
Qed.

Lemma accepted_member t p m :
  is_name t = true → is_symbol p "." = true → isIdentifier m = true →
  accepted Primary [t; p; m] (Expression.identifier (normalizedIdentifier t ++ B "." ++ normalizedIdentifier m)).
Proof.
  intros Ht Hp Hm fuel rest _ _. cbn [app]. rewrite run_name by done. apply is_symbol_inv in Hp as (o & b & ->).
  unfold matchSymbol. rewrite run_match_false, run_match_true by done. apply (parse_then _ _ _ m rest); [|done].
  unfold expectIdentifierToken. rewrite run_advance_or, Hm. done.
Qed.
Lemma follows_comparison rest : follows Conjunction rest → follows Comparison rest.
Proof.
  destruct rest as [|t rest]; [done|]. unfold follows, head_not, continues. rewrite !orb_false_iff. tauto.
Qed.

Lemma follows_symbol lv t x rest :
  is_symbol t x = true → continues lv (Token.mk symbol (B x) 0 true) = false → follows lv (t :: rest).
Proof. intros H Hx. apply is_symbol_inv in H as (o & b & ->). destruct lv; exact Hx. Qed.

Lemma accepted_expression ts e fuel rest :
  accepted Conjunction ts e → follows Conjunction rest → (length (ts ++ rest) < fuel)%nat →
  run (X fuel) (ts ++ rest) = Done e rest.
Proof.
  intros H Hf Hl. destruct fuel as [|fuel]; [lia|]. cbn [expression_loop].
  apply H; [by apply follows_comparison|lia|]. intros [|f] Hr; [lia|]. cbn [and_loop]. unfold matchKeyword.
  rewrite run_match_false; [done|]. destruct rest as [|t rest]; [done|]. cbn in Hf |- *.
  unfold follows, head_not, continues in Hf. rewrite !orb_false_iff in Hf. tauto.
Qed.

Lemma accepted_parens t ts t' e :
  is_symbol t "(" = true → accepted Conjunction ts e → is_symbol t' ")" = true → accepted Primary (t :: ts ++ [t']) e.
Proof.
  intros Ht He Ht' fuel rest _ Hl. apply is_symbol_inv in Ht as (o & b & ->). primary.
  cbn in Hl. rewrite <- app_assoc in *. eapply parse_then; [apply accepted_expression; [done|by eapply follows_symbol|exact Hl]|].
  by apply run_expectSymbol.
Qed.

Lemma accepted_recognised ts e fuel :
  starts ts → accepted Conjunction ts e → recognised (X fuel) ")" fuel ts e.
Proof.
  intros Hs H. split; [done|]. intros t rest Hl Ht. apply accepted_expression; [done| |done].
  apply orb_true_iff in Ht as [Ht|Ht]; by eapply follows_symbol.
Qed.

Lemma accepted_call t o ts args :
  is_name t = true → is_symbol o "(" = true → listed (λ ts e, starts ts ∧ accepted Conjunction ts e) ")" ts args →
  accepted Primary (t :: o :: ts) (Expression.function_call (normalizedIdentifier t) args).
Proof.
  intros Ht Ho Ha fuel rest _ Hl. cbn [app]. rewrite run_name by done. unfold matchSymbol. rewrite run_match_true by done.
  cbn in Hl. eapply parse_then; [|reflexivity]. apply (complete_list_loop sql (X fuel) ")" fuel ts args); [done|done| | |lia].
  - eapply listed_impl; [|exact Ha]. intros us e [Hs He]. by apply accepted_recognised.
  - rewrite length_app. lia.
Qed.

Lemma recognised_vector_item ts v n : vector_item ts v → recognised (vector_value sql) "]" n ts v.
Proof.
  intros [t v' Ht Hv|m t v' Hm Ht Hv]; (split; [|intros u rest _ _]).
  - by eapply other_starts, kind_not_symbol.
  - unfold vector_value, matchSymbol. apply is_kind_inv in Ht as (l & o & b & ->). cbn [app].
    rewrite run_match_false, run_advance_or by done. branch. unfold number_of. by rewrite Hv.
  - by eapply symbol_starts; [|repeat constructor].
  - unfold vector_value, matchSymbol. apply is_kind_inv in Ht as (l & o & b & ->). cbn [app].
    rewrite run_match_true, run_advance_or by done. branch. unfold number_of. by rewrite Hv.
Qed.

Lemma accepted_vector t ts vs :
  is_symbol t "[" = true → listed vector_item "]" ts vs →
  accepted Primary (t :: ts) (Expression.literal (Literal.vector vs)).
Proof.
  intros Ht Hv fuel rest _ _. apply is_symbol_inv in Ht as (o & b & ->). primary. eapply parse_then; [|reflexivity].
  apply (complete_list_loop sql (vector_value sql) "]" (S (length (ts ++ rest))) ts vs); [done|done| | |lia].
  - eapply listed_impl; [|exact Hv]. intros. by apply recognised_vector_item.
  - rewrite length_app. lia.
Qed.
(** *** Operators *)

Lemma accepted_primary ts e : accepted Primary ts e → accepted Sum ts e.
Proof.
  intros H fuel rest r Hf Hl Hr. unfold parseAdditiveExpression. eapply parse_then; [by apply H|]. apply Hr. lia.
Qed.

Lemma run_additive_step X' f l op t us r rest res :
  is_symbol t (match op with add => "+" | _ => "-" end) = true → op ∈ [add; subtract] →
  run (parsePrimary sql X') (us ++ rest) = Done r rest →
  run (additive_loop sql X' f (Expression.binary l op r)) rest = res →
  run (additive_loop sql X' (S f) l) (t :: us ++ rest) = res.
Proof.
  intros Ht Hop Hp Hr. cbn [additive_loop]. unfold matchSymbol.
  rewrite !elem_of_cons, elem_of_nil in Hop. destruct Hop as [->|[->|[]]].
  - rewrite run_match_true by done. by eapply parse_then.
  - apply is_symbol_inv in Ht as (o & b & ->). rewrite run_match_false, run_match_true by done. by eapply parse_then.
Qed.

Lemma accepted_additive ts t us l op r :
  accepted Sum ts l → is_symbol t (match op with add => "+" | _ => "-" end) = true → op ∈ [add; subtract] →
  accepted Primary us r → accepted Sum (ts ++ t :: us) (Expression.binary l op r).
Proof.
  intros Hl Ht Hop Hr fuel rest res Hf Hn Hres. rewrite <- app_assoc in *. cbn [app] in *.
  apply Hl; [destruct op; by eapply follows_symbol|done|].
  rewrite length_app in Hn. cbn in Hn. intros [|f] Hf'; cbn in Hf'; [lia|].
  eapply run_additive_step; [done|done|apply Hr; [done|lia]|]. apply Hres. rewrite length_app in Hf'. lia.
Qed.

Lemma accepted_sum_done ts e fuel rest :
  accepted Sum ts e → follows Sum rest → (length (ts ++ rest) ≤ fuel)%nat →
  run (parseAdditiveExpression sql (X fuel)) (ts ++ rest) = Done e rest.
Proof.
  intros H Hf Hl. apply H; [by eapply follows_primary|done|]. intros [|f] Hf'; [lia|]. cbn [additive_loop]. unfold matchSymbol.
  rewrite !run_match_false by (by eapply follows_head_not). done.
Qed.

Lemma follows_sum rest : follows Comparison rest → follows Sum rest.
Proof.
  destruct rest as [|t rest]; [done|]. unfold follows, head_not, continues. rewrite !orb_false_iff. tauto.
Qed.

Lemma accepted_sum ts e : accepted Sum ts e → accepted Comparison ts e.
Proof.
  intros H fuel rest Hf Hl. unfold parseComparisonExpression.
  eapply parse_then; [apply accepted_sum_done; [done|by apply follows_sum|done]|]. cbv beta.
  eapply parse_then; [reflexivity|]. destruct rest as [|t rest]; [done|]. cbv beta.
  unfold follows, head_not, continues in Hf. apply orb_false_iff in Hf as [_ Hf]. apply orb_false_iff in Hf as [_ Hf].
  change (head (t :: rest)) with (Some t). by rewrite Hf.
Qed.

Lemma run_comparison os op rest :
  comparison os op → starts rest → run (parseComparisonOperator sql) (os ++ rest) = Done op rest.
Proof.
  intros Hc Hs. assert (Hn : ∀ x, can_start (Token.mk symbol (B x) 0 true) = false → head_not (λ t, is_symbol t x) rest).
  { intros x Hx. rewrite <- (app_nil_r rest). apply head_not_app; [done|]. intros t Ht. by apply starts_not. }
  unfold parseComparisonOperator, matchSymbol.
  destruct Hc; repeat match goal with H : is_symbol _ _ = true |- _ => apply is_symbol_inv in H as (? & ? & ->) end;
    cbn [app]; rewrite run_advance_or; branch.
  all: first [done|rewrite ?run_match_false by (by apply Hn)]; try done.
Qed.

Lemma comparison_start os op rest :
  comparison os op → follows Sum (os ++ rest) ∧ isComparisonStart (head (os ++ rest)) = true.
Proof.
  destruct 1; repeat match goal with H : is_symbol _ _ = true |- _ => apply is_symbol_inv in H as (? & ? & ->) end; done.
Qed.

Lemma accepted_compare ts os us l op r :
  accepted Sum ts l → comparison os op → starts us → accepted Sum us r →
  accepted Comparison (ts ++ os ++ us) (Expression.binary l op r).
Proof.
  intros Hl Ho Hs Hr fuel rest Hf Hn. rewrite <- !app_assoc in *. unfold parseComparisonExpression.
  destruct (comparison_start os op (us ++ rest) Ho) as [Hos Hst].
  eapply parse_then; [by apply accepted_sum_done|]. cbv beta. eapply parse_then; [reflexivity|]. cbv beta. rewrite Hst.
  eapply parse_then; [apply run_comparison; [done|by apply starts_app]|]. cbv beta.
  eapply parse_then; [apply accepted_sum_done; [done|by apply follows_sum|]|done].
  rewrite !length_app in *. lia.
Qed.

Lemma accepted_comparison ts e : accepted Comparison ts e → accepted Conjunction ts e.
Proof. intros H fuel rest r Hf Hl Hr. unfold parseAndExpression. eapply parse_then; [by apply H|]. apply Hr. lia. Qed.

Lemma accepted_and ts t us l r :
  accepted Conjunction ts l → Token.eqlIgnoreCase t (B "AND") = true → accepted Comparison us r →
  accepted Conjunction (ts ++ t :: us) (Expression.binary l and_op r).
Proof.
  intros Hl Ht Hr fuel rest res Hf Hn Hres. rewrite <- app_assoc in *. cbn [app] in *.
  apply Hl; [|done|].
  - apply keyword_kind in Ht. destruct t as [k x o b]. cbn in Ht. subst k. reflexivity.
  - rewrite length_app in Hn. cbn in Hn. intros [|f] Hf'; cbn in Hf'; [lia|]. cbn [and_loop]. unfold matchKeyword.
    rewrite run_match_true by done. eapply parse_then; [apply Hr; [done|lia]|]. apply Hres. rewrite length_app in Hf'. lia.
Qed.

(** Every derivation is found. *)
Lemma derives_accepted lv ts e : derives lv ts e → accepted lv ts e.
Proof.
  revert lv ts e. refine (fix IH lv ts e (d : derives lv ts e) {struct d} : accepted lv ts e := _).
  destruct d as [ts e d|ts t us l r d1 Ht d2|ts e d|ts os us l op r d1 Ho d2|ts e d|ts t us l r d1 Ht d2
    |ts t us l r d1 Ht d2|t s Ht Hs|t e Ht He|m t e Hm Ht He|t Ht|t ts vs Ht Hv|t ts t' e Ht d Ht'|t Ht|t Ht|t Ht
    |t o ts args Ht Ho Ha|t Ht|t p m Ht Hp Hm].
  - exact (accepted_comparison _ _ (IH _ _ _ d)).
  - exact (accepted_and _ _ _ _ _ (IH _ _ _ d1) Ht (IH _ _ _ d2)).
  - exact (accepted_sum _ _ (IH _ _ _ d)).
  - exact (accepted_compare _ _ _ _ _ _ (IH _ _ _ d1) Ho (derives_starts _ _ _ d2) (IH _ _ _ d2)).
  - exact (accepted_primary _ _ (IH _ _ _ d)).
  - apply (accepted_additive _ _ _ _ add); [exact (IH _ _ _ d1)|exact Ht|by constructor|exact (IH _ _ _ d2)].
  - apply (accepted_additive _ _ _ _ subtract); [exact (IH _ _ _ d1)|exact Ht|by repeat constructor|exact (IH _ _ _ d2)].
  - by apply accepted_string.
  - by apply accepted_number.
  - by apply accepted_negative.
  - by apply accepted_star.
  - by apply accepted_vector.
  - exact (accepted_parens _ _ _ _ Ht (IH _ _ _ d) Ht').
  - by apply accepted_null.
  - by apply accepted_true.
  - by apply accepted_false.
  - apply accepted_call; [exact Ht|exact Ho|]. eapply listed_impl; [|exact Ha].
    intros us e d. exact (conj (derives_starts _ _ _ d) (IH _ _ _ d)).
  - by apply accepted_name.
  - by apply accepted_member.
Qed.
End complete.

Lemma run_fuelled {A} (k : nat → parser A) ts : run (fuelled k) ts = run (k (S (length ts))) ts.
Proof. reflexivity. Qed.

Lemma complete_parseExpression sql ts e : derives Conjunction ts e → run (parseExpression sql) ts = Done e [].
Proof.
  intros Hd. unfold parseExpression. rewrite run_fuelled. rewrite <- (app_nil_r ts) at 2.
  apply accepted_expression; [by apply derives_accepted|done|]. rewrite app_nil_r. lia.
Qed.

(** C14: a text is an expression for the parser exactly if its tokens have a derivation in the grammar, and the parser returns
    the derived tree: AND binds weaker than comparisons, which do not chain, and these weaker than sums, which group to
    the left. *)
Theorem expression_grammar (sql : bytes) (e : Expression.t) :
  parseExpressionOnly sql = Some (inl e) ↔ derives Conjunction (tokenize sql) e.
Proof.
  unfold parseExpressionOnly. generalize (tokenize sql) as ts. intros ts. split.
  - destruct (run _ _) as [e' [|t rest]|d|] eqn:E; [|done|done|done]. intros [= ->].
    apply sound_parseExpression in E as (used & -> & Hd). by rewrite app_nil_r.
  - intros Hd. by rewrite (complete_parseExpression _ _ _ Hd).
Qed.

(** ** String literals *)

Definition apostrophe : byte := byte_of 39.

(** Apostrophes doubled. *)
Fixpoint doubled (s : bytes) : bytes :=
  match s with
  | [] => []
  | c :: s' => if is_char c 39 then c :: c :: doubled s' else c :: doubled s'
  end.

(** The text of a string literal. *)
Definition quoted (s : bytes) : bytes := apostrophe :: doubled s ++ [apostrophe].

Lemma is_apostrophe c : is_char c 39 = true → c = apostrophe.
Proof. unfold is_char, apostrophe. intros H%Z.eqb_eq. rewrite <- H. by rewrite byte_of_byte_val. Qed.

Lemma decode_doubled s : decode_quotes (doubled s) = s.
Proof.
  induction s as [|c s IH]; [done|]. cbn [doubled]. destruct (is_char c 39) eqn:E.
  - cbn [decode_quotes]. rewrite E. cbn [andb]. by rewrite IH.
  - cbn [decode_quotes]. rewrite E. cbn [andb]. destruct (doubled s) eqn:Ed; [|by rewrite IH]. by rewrite <- IH.
Qed.

Lemma lookup_after (pre : bytes) c post : (pre ++ c :: post) !! length pre = Some c.
Proof. by rewrite lookup_app_r, Nat.sub_diag by lia. Qed.

Lemma lookup_after_2 (pre : bytes) c d post : (pre ++ c :: d :: post) !! S (length pre) = Some d.
Proof. change (pre ++ c :: d :: post) with (pre ++ [c] ++ d :: post). rewrite app_assoc.
  by rewrite <- (lookup_after (pre ++ [c]) d post), length_app, Nat.add_1_r. Qed.

(** One step of the loop inside single quotes, where a backslash is a character like the others. *)
Lemma quoted_step sql fuel index c : sql !! index = Some c →
  quoted_loop sql apostrophe (S fuel) index =
  if bool_decide (c = apostrophe) then
    if bool_decide (sql !! S index = Some apostrophe) then quoted_loop sql apostrophe fuel (S (S index)) else (S index, true)
  else quoted_loop sql apostrophe fuel (S index).
Proof. intros H. cbn [quoted_loop]. rewrite H. change (is_char apostrophe 39) with true. by rewrite andb_false_r. Qed.

Lemma quoted_loop_doubled sql s post : ∀ pre fuel,
  sql = pre ++ doubled s ++ apostrophe :: post → head post ≠ Some apostrophe → (length s < fuel)%nat →
  quoted_loop sql apostrophe fuel (length pre) = (S (length pre + length (doubled s)), true).
Proof.
  induction s as [|c s IH]; intros pre [|fuel] Hs Hp Hf; cbn in Hf; try lia.
  - cbn [doubled app] in Hs. rewrite (quoted_step _ _ _ apostrophe) by (rewrite Hs; apply lookup_after).
    rewrite bool_decide_true by done. rewrite bool_decide_false; [cbn [doubled length]; by rewrite Nat.add_0_r|].
    rewrite Hs. destruct post as [|d post]; [|by rewrite lookup_after_2].
    rewrite (proj2 (lookup_ge_None _ _)) by (rewrite length_app; cbn; lia). done.
  - cbn [doubled] in Hs |- *. destruct (is_char c 39) eqn:E.
    + apply is_apostrophe in E as ->. cbn [app] in Hs. rewrite (quoted_step _ _ _ apostrophe) by (rewrite Hs; apply lookup_after).
      rewrite bool_decide_true by done. rewrite bool_decide_true by (rewrite Hs; apply lookup_after_2).
      specialize (IH (pre ++ [apostrophe; apostrophe]) fuel). rewrite length_app, Nat.add_comm in IH. cbn [length] in IH.
      change (2 + length pre)%nat with (S (S (length pre))) in IH.
      rewrite IH; [cbn [length]; f_equal; lia|by rewrite <- app_assoc|done|lia].
    + cbn [app] in Hs. rewrite (quoted_step _ _ _ c) by (rewrite Hs; apply lookup_after).
      rewrite bool_decide_false by (intros ->; by vm_compute in E).
      specialize (IH (pre ++ [c]) fuel). rewrite length_app, Nat.add_comm in IH. cbn [length] in IH.
      change (1 + length pre)%nat with (S (length pre)) in IH.
      rewrite IH; [cbn [length]; f_equal; lia|by rewrite <- app_assoc|done|lia].
Qed.

Lemma doubled_length s : (length s ≤ length (doubled s))%nat.
Proof. induction s as [|c s IH]; [done|]. cbn. destruct (is_char c 39); cbn; lia. Qed.

(** The token of a string literal in any text. *)
Definition string_token (offset : nat) (s : bytes) : Token.t := Token.mk string_ (quoted s) offset true.

Lemma next_quoted pre s post : head post ≠ Some apostrophe →
  next (pre ++ quoted s ++ post) (length pre) =
  Some (string_token (length pre) s, (length pre + length (quoted s))%nat).
Proof.
  intros Hp. set (sql := pre ++ quoted s ++ post).
  assert (Hs : sql = (pre ++ [apostrophe]) ++ doubled s ++ apostrophe :: post).
  { unfold sql, quoted. cbn [app]. by rewrite <- !app_assoc. }
  assert (Hc : sql !! length pre = Some apostrophe) by apply lookup_after.
  unfold next. assert (skipTrivia sql (length pre) = length pre) as ->.
  { unfold skipTrivia. cbn [trivia_loop]. by rewrite Hc. }
  rewrite Hc. change (isIdentifierStart apostrophe) with false. change (isDigit apostrophe) with false.
  change (is_char apostrophe 39 || is_char apostrophe 34 || is_char apostrophe 96) with true. cbv iota. f_equal.
  unfold readQuoted. pose proof (quoted_loop_doubled sql s post (pre ++ [apostrophe]) (length sql) Hs Hp) as Hl.
  rewrite length_app, Nat.add_1_r in Hl. rewrite Hl.
  2: { rewrite Hs, !length_app. cbn. pose proof (doubled_length s). lia. }
  assert (Hq : length (quoted s) = S (S (length (doubled s)))) by (unfold quoted; cbn; rewrite length_app; cbn; lia).
  change (is_char apostrophe 96) with false. cbv iota. unfold string_token, slice, sql. rewrite drop_app_length.
  f_equal; [|lia]. f_equal. rewrite take_app_le by lia. apply take_ge. lia.
Qed.

(** C17: any bytes written as a string literal, with their apostrophes doubled, are one token of the text around them, and
    where an expression may stand the token is parsed as exactly these bytes: no content of a literal ends it early. *)
Theorem quoted_is_literal (pre s post : bytes) (e : parser Expression.t) (rest : list Token.t) :
  head post ≠ Some apostrophe →
  ∃ t, next (pre ++ quoted s ++ post) (length pre) = Some (t, (length pre + length (quoted s))%nat) ∧
       run (parsePrimary (pre ++ quoted s ++ post) e) (t :: rest) = Done (Expression.literal (Literal.string s)) rest.
Proof.
  intros Hp. exists (string_token (length pre) s). split; [by apply next_quoted|].
  unfold parsePrimary. rewrite run_advance_or. change (is_kind (string_token (length pre) s) string_) with true. cbv iota.
  apply (parse_then _ _ _ s rest); [|done]. unfold cloneStringLiteral, string_token, quoted. cbn [Token.lexeme Token.terminated].
  change (is_char apostrophe 39) with true. cbn [negb drop skipn]. cbv iota.
  cbn [length]. rewrite length_app. replace (S (length (doubled s) + length [apostrophe]) - 2)%nat with (length (doubled s)) by (cbn; lia).
  rewrite drop_0, take_app_length. by rewrite decode_doubled.
Qed.

Lemma quoted_is_literal_witness :
  ∃ t, next (B "SELECT " ++ quoted (B "it's; DROP TABLE t --") ++ B " FROM t") (length (B "SELECT ")) =
         Some (t, (length (B "SELECT ") + length (quoted (B "it's; DROP TABLE t --")))%nat) ∧
       run (parsePrimary (B "SELECT " ++ quoted (B "it's; DROP TABLE t --") ++ B " FROM t") stuck) [t] =
         Done (Expression.literal (Literal.string (B "it's; DROP TABLE t --"))) [].
Proof. apply (quoted_is_literal (B "SELECT ") (B "it's; DROP TABLE t --") (B " FROM t") stuck []). discriminate. Defined.
