(* ===== verification/TokenWindow.v ===== *)
(** * Tokens of a piece of the input

    A piece of a text that begins at a token and ends behind one has the tokens of the text in between, with their offsets
    counted from its beginning.  This is what lets the parser store a piece of a statement as text and parse it again. *)

From S2P Require Import Prelude Tokenizer.

(** A token with its offset counted from [a]. *)
Definition shift_token (a : nat) (t : Token.t) : Token.t :=
  Token.mk (Token.kind t) (Token.lexeme t) (Token.offset t - a) (Token.terminated t).

(** ** Loops without fuel *)

(** [scan_while] ends at the first character from [i] on that fails the test, or at the end. *)
Record scans (s : bytes) (p : byte → bool) (i k : nat) : Prop := {
  sc_le : (i ≤ k)%nat;
  sc_all : ∀ j c, (i ≤ j < k)%nat → s !! j = Some c → p c = true;
  sc_stop : ∀ c, s !! k = Some c → p c = false;
  sc_len : (k ≤ length s)%nat;
}.

Lemma scan_while_scans s p fuel i :
  (i ≤ length s)%nat → (length s - i ≤ fuel)%nat → scans s p i (scan_while s p fuel i).
Proof.
  intros Hi Hf. pose proof (scan_while_bounds s p fuel i Hi). split; [lia| | |lia].
  - intros j c. by apply scan_while_all.
  - intros c Hc. pose proof (scan_while_stops s p fuel i Hf) as H'. by rewrite Hc in H'.
Qed.

Lemma scans_unique s p i k k' : scans s p i k → scans s p i k' → k = k'.
Proof.
  assert (H : ∀ k k', scans s p i k → scans s p i k' → ¬ (k < k')%nat).
  { intros x y Hx Hy Hlt. destruct (lookup_lt_is_Some_2 s x) as [c Hc]; [pose proof (sc_len _ _ _ _ Hy); lia|].
    pose proof (sc_stop _ _ _ _ Hx c Hc) as H1. pose proof (sc_le _ _ _ _ Hx).
    rewrite (sc_all _ _ _ _ Hy x c) in H1 by (done || lia). done. }
  intros H1 H2. pose proof (H _ _ H1 H2). pose proof (H _ _ H2 H1). lia.
Qed.

(** The end of a block comment: behind the first closing pair, or the end of the input. *)
Definition closing (s : bytes) (j : nat) : Prop := ∃ x y, s !! j = Some x ∧ s !! S j = Some y ∧ is_char x 42 && is_char y 47 = true.

Definition comment_end (s : bytes) (i k : nat) : Prop :=
  (∃ j, (i ≤ j)%nat ∧ k = (j + 2)%nat ∧ closing s j ∧ ∀ j', (i ≤ j' < j)%nat → ¬ closing s j') ∨
  (k = length s ∧ ∀ j', (i ≤ j')%nat → ¬ closing s j').

Lemma comment_end_next s i k : ¬ closing s i → comment_end s (S i) k → comment_end s i k.
Proof.
  intros Hn [(j & Hj & -> & Hc & Hb)|[-> Hb]].
  - left. exists j. split_and!; [lia|done|done|]. intros j' Hj'. destruct (decide (j' = i)) as [->|]; [done|]. apply Hb. lia.
  - right. split; [done|]. intros j' Hj'. destruct (decide (j' = i)) as [->|]; [done|]. apply Hb. lia.
Qed.

Lemma block_comment_end s fuel i : (length s - i ≤ fuel)%nat → comment_end s i (block_comment_loop s fuel i).
Proof.
  revert i. induction fuel as [|fuel IH]; intros i Hf; cbn [block_comment_loop].
  - right. split; [done|]. intros j' Hj' (x & y & Hx & _). apply lookup_lt_Some in Hx. lia.
  - destruct (s !! i) as [x|] eqn:Hx, (s !! S i) as [y|] eqn:Hy.
    + destruct (is_char x 42 && is_char y 47) eqn:E.
      * left. exists i. split_and!; [lia|done|by exists x, y|lia].
      * apply comment_end_next; [|apply IH; lia]. intros (x' & y' & H1 & H2 & H3). congruence.
    + right. split; [done|]. intros j' Hj' (x' & y' & H1 & H2 & _). apply lookup_lt_Some in H2. apply lookup_ge_None in Hy. lia.
    + apply lookup_ge_None in Hx. apply lookup_lt_Some in Hy. lia.
    + right. split; [done|]. intros j' Hj' (x' & y' & H1 & H2 & _). apply lookup_lt_Some in H1. apply lookup_ge_None in Hx. lia.
Qed.

Lemma comment_end_unique s i k k' : comment_end s i k → comment_end s i k' → k = k'.
Proof.
  intros [(j & Hj & -> & Hc & Hb)|[-> Hb]] [(j' & Hj' & -> & Hc' & Hb')|[-> Hb']].
  - destruct (decide (j = j')) as [->|]; [done|]. destruct (decide (j < j')%nat); exfalso.
    + apply (Hb' j); [lia|done].
    + apply (Hb j'); [lia|done].
  - exfalso. by apply (Hb' j).
  - exfalso. by apply (Hb j').
  - done.
Qed.

(** ** A piece of a text *)
Section window.
Context (s : bytes) (a n : nat) (Hn : (a + n ≤ length s)%nat).

Definition piece : bytes := slice s a (a + n).

Lemma piece_length : length piece = n.
Proof. unfold piece, slice. rewrite length_take, length_drop. lia. Qed.

Lemma piece_lookup j : (j < n)%nat → piece !! j = s !! (a + j)%nat.
Proof. intros Hj. unfold piece, slice. rewrite lookup_take_lt by lia. by rewrite lookup_drop. Qed.

Lemma piece_lookup_end : piece !! n = None.
Proof. apply lookup_ge_None. by rewrite piece_length. Qed.

Lemma piece_lookup_Some j c : piece !! j = Some c → (j < n)%nat ∧ s !! (a + j)%nat = Some c.
Proof.
  intros H. apply lookup_lt_Some in H as Hj. rewrite piece_length in Hj. split; [done|]. by rewrite <- piece_lookup.
Qed.

Lemma scans_piece p i k : scans s p (a + i) (a + k) → (i ≤ n)%nat → scans piece p i (k `min` n).
Proof.
  intros [H1 H2 H3 H4] Hi. split.
  - lia.
  - intros j c Hj [_ Hc]%piece_lookup_Some. apply (H2 (a + j)%nat); [lia|done].
  - intros c [Hj Hc]%piece_lookup_Some. apply H3. by replace k with (k `min` n)%nat by lia.
  - rewrite piece_length. lia.
Qed.

Lemma scan_while_piece p i k :
  scan_while s p (length s) (a + i) = (a + k)%nat → (i ≤ n)%nat → scan_while piece p (length piece) i = (k `min` n)%nat.
Proof.
  intros H Hi. eapply scans_unique; [apply scan_while_scans; rewrite piece_length; lia|].
  apply scans_piece; [|done]. rewrite <- H. apply scan_while_scans; lia.
Qed.

Lemma closing_piece j : closing piece j ↔ (S j < n)%nat ∧ closing s (a + j).
Proof.
  split.
  - intros (x & y & [_ Hx]%piece_lookup_Some & [Hj Hy]%piece_lookup_Some & H). split; [done|].
    exists x, y. rewrite <- Nat.add_succ_r. done.
  - intros [Hj (x & y & Hx & Hy & H)]. exists x, y. rewrite !piece_lookup by lia. by rewrite Nat.add_succ_r.
Qed.

Lemma comment_end_piece i k : comment_end s (a + i) (a + k) → (i ≤ n)%nat → comment_end piece i (k `min` n).
Proof.
  intros [(j & Hj & Hk & Hc & Hb)|[Hk Hb]] Hi.
  - destruct (decide (k ≤ n)%nat) as [Hle|Hgt].
    + left. exists (j - a)%nat. split_and!; [lia|lia| |].
      * apply closing_piece. split; [lia|]. by replace (a + (j - a))%nat with j by lia.
      * intros j' Hj' [_ Hc']%closing_piece. apply (Hb (a + j')%nat); [lia|done].
    + right. rewrite piece_length. split; [lia|]. intros j' Hj' [Hl Hc']%closing_piece. apply (Hb (a + j')%nat); [lia|done].
  - right. rewrite piece_length. split; [lia|]. intros j' Hj' [Hl Hc']%closing_piece. apply (Hb (a + j')%nat); [lia|done].
Qed.

Lemma block_comment_piece i : (i ≤ n)%nat → skipBlockComment piece i = ((skipBlockComment s (a + i) - a) `min` n)%nat.
Proof.
  intros Hi. eapply comment_end_unique; [apply block_comment_end; rewrite piece_length; lia|].
  apply comment_end_piece; [|done]. pose proof (block_comment_bounds s (length s) (a + i)) as Hb.
  replace (a + (skipBlockComment s (a + i) - a))%nat with (skipBlockComment s (a + i)) by (unfold skipBlockComment; lia).
  apply block_comment_end. lia.
Qed.

Lemma line_comment_piece i : (i ≤ n)%nat → skipLineComment piece i = ((skipLineComment s (a + i) - a) `min` n)%nat.
Proof.
  intros Hi. apply scan_while_piece; [|done]. unfold skipLineComment.
  pose proof (scan_while_bounds s (λ c, negb (is_char c 10)) (length s) (a + i)). lia.
Qed.

(** The cut is not inside the trivia, except in white space at its end. *)
Definition cut_in_space (r : nat) : Prop := ∀ j c, (n ≤ j < r)%nat → s !! (a + j)%nat = Some c → isWhitespace c = true.

Lemma trivia_piece_end fuel : trivia_loop piece (S fuel) n = n.
Proof. cbn [trivia_loop]. by rewrite piece_lookup_end. Qed.

Lemma next_is_piece i code :
  (i < n)%nat → next_is s (a + i) code = true → (S i < n)%nat → next_is piece i code = true.
Proof.
  intros Hi H Hlt. unfold next_is in *. rewrite piece_lookup by done. by rewrite Nat.add_succ_r.
Qed.

Lemma next_is_piece_false i code : next_is s (a + i) code = false → next_is piece i code = false.
Proof.
  unfold next_is. intros H. destruct (piece !! S i) as [c|] eqn:E; [|done].
  apply piece_lookup_Some in E as [_ E]. rewrite Nat.add_succ_r in E. by rewrite E in H.
Qed.

(** The second character of a comment's opening is not white space, so the piece contains it. *)
Lemma opening_inside i code r :
  next_is s (a + i) code = true → (∀ c, is_char c code = true → isWhitespace c = false) →
  (i < n)%nat → (S i < r)%nat → cut_in_space r → (S i < n)%nat.
Proof.
  intros H Hc Hi Hr Hs. destruct (decide (S i < n)%nat); [done|]. exfalso. unfold next_is in H.
  destruct (s !! S (a + i)) as [c|] eqn:E; [|done]. rewrite <- Nat.add_succ_r in E.
  pose proof (Hs (S i) c ltac:(lia) E) as Hw. by rewrite (Hc c H) in Hw.
Qed.

Lemma hyphen_not_space c : is_char c 45 = true → isWhitespace c = false.
Proof. destruct c; done. Qed.

Lemma star_not_space c : is_char c 42 = true → isWhitespace c = false.
Proof. destruct c; done. Qed.

(** A comment that opens inside the piece. *)
Lemma trivia_comment_piece (skip : bytes → nat → nat) (code : Z) (fuel fuel' i r : nat) :
  (∀ i, (i ≤ n)%nat → skip piece i = ((skip s (a + i)%nat - a) `min` n)%nat) →
  (∀ i, (i ≤ length s)%nat → (i ≤ skip s i ≤ length s)%nat) →
  (∀ c, is_char c code = true → isWhitespace c = false) →
  next_is s (a + i) code = true → (i < n)%nat → trivia_loop s fuel (skip s (a + i + 2)%nat) = (a + r)%nat → cut_in_space r →
  (∀ k, (i < k)%nat → (a + k ≤ length s)%nat → trivia_loop s fuel (a + k) = (a + r)%nat →
     trivia_loop piece fuel' (k `min` n) = (r `min` n)%nat) →
  next_is piece i code = true ∧ trivia_loop piece fuel' (skip piece (i + 2)%nat) = (r `min` n)%nat.
Proof.
  intros Hskip Hb Hcode Hnext Hi Hr Hs Hgo.
  pose proof (next_is_lt _ _ _ Hnext). specialize (Hb (a + i + 2)%nat ltac:(lia)).
  pose proof (trivia_bounds s fuel (skip s (a + i + 2)%nat) ltac:(lia)) as Ht. rewrite Hr in Ht.
  pose proof (opening_inside i code r Hnext Hcode ltac:(lia) ltac:(lia) Hs) as Hin.
  split; [by apply next_is_piece|]. rewrite Hskip by lia. rewrite Nat.add_assoc. apply Hgo; [lia|lia|].
  by replace (a + (skip s (a + i + 2)%nat - a))%nat with (skip s (a + i + 2)%nat) by lia.
Qed.

Lemma no_comment_piece c x code i :
  is_char c x && next_is s (a + i) code = false → is_char c x && next_is piece i code = false.
Proof. intros [->|H]%andb_false_iff; [done|]. by rewrite (next_is_piece_false _ _ H), andb_false_r. Qed.

Lemma trivia_piece fuel : ∀ fuel' i r,
  trivia_loop s fuel (a + i) = (a + r)%nat → (length s < fuel + (a + i))%nat → (n < fuel' + i)%nat → (i ≤ n)%nat →
  cut_in_space r → trivia_loop piece fuel' i = (r `min` n)%nat.
Proof.
  induction fuel as [|fuel IH]; intros fuel' i r Hr Hf Hf' Hi Hs; [lia|].
  destruct fuel' as [|fuel']; [lia|].
  pose proof (trivia_bounds s (S fuel) (a + i) ltac:(lia)) as Hb. rewrite Hr in Hb.
  destruct (decide (i = n)) as [->|Hne]; [rewrite trivia_piece_end; lia|].
  assert (Hgo : ∀ k, (i < k)%nat → (a + k ≤ length s)%nat → trivia_loop s fuel (a + k) = (a + r)%nat →
    trivia_loop piece fuel' (k `min` n) = (r `min` n)%nat).
  { intros k Hk Hks Ht. pose proof (trivia_bounds s fuel (a + k) Hks) as Hb'. rewrite Ht in Hb'.
    destruct (decide (k ≤ n)%nat); [rewrite Nat.min_l by lia; apply IH; [done|lia|lia|lia|done]|].
    rewrite Nat.min_r by lia. destruct fuel' as [|fuel']; [lia|]. rewrite trivia_piece_end. lia. }
  cbn [trivia_loop] in *. rewrite piece_lookup by lia.
  destruct (s !! (a + i)%nat) as [c|] eqn:Hc; [|apply lookup_ge_None in Hc; lia].
  destruct (isWhitespace c) eqn:Hws.
  { rewrite <- Nat.add_succ_r in Hr. rewrite <- (Hgo (S i)); [by rewrite Nat.min_l by lia|lia|lia|done]. }
  destruct (is_char c 35) eqn:H35.
  { pose proof (skipLineComment_hash s (a + i) c Hc H35) as Hk.
    rewrite line_comment_piece by lia. apply Hgo; [lia|lia|].
    by replace (a + (skipLineComment s (a + i) - a))%nat with (skipLineComment s (a + i)) by lia. }
  destruct (is_char c 45 && next_is s (a + i) 45) eqn:H45.
  { apply andb_true_iff in H45 as [H45 Hnext].
    destruct (trivia_comment_piece skipLineComment 45 fuel fuel' i r) as [H1 H2]; try done; [apply line_comment_piece| |
      apply hyphen_not_space|lia|by rewrite H45, H1].
    intros j Hj. by apply scan_while_bounds. }
  rewrite (no_comment_piece _ _ _ _ H45). destruct (is_char c 47 && next_is s (a + i) 42) eqn:H47.
  { apply andb_true_iff in H47 as [H47 Hnext].
    destruct (trivia_comment_piece skipBlockComment 42 fuel fuel' i r) as [H1 H2]; try done; [apply block_comment_piece| |
      apply star_not_space|lia|by rewrite H47, H1].
    intros j Hj. by apply block_comment_bounds. }
  rewrite (no_comment_piece _ _ _ _ H47). lia.
Qed.
(** ** Tokens *)

Lemma quoted_later quote fuel i stop b :
  (a + i ≤ length s)%nat → quoted_loop s quote fuel (a + i) = ((a + stop)%nat, b) → (i ≤ stop)%nat.
Proof. intros Hi H. pose proof (quoted_bounds s quote fuel (a + i) Hi) as Hb. rewrite H in Hb. cbn in Hb. lia. Qed.

Lemma quoted_end quote fuel : quoted_loop s quote fuel (length s) = (length s, false).
Proof. destruct fuel as [|fuel]; [done|]. cbn [quoted_loop]. by rewrite (proj2 (lookup_ge_None _ _)) by lia. Qed.

Lemma quoted_piece quote fuel : is_char quote 92 = false → ∀ fuel' i stop,
  quoted_loop s quote fuel (a + i) = ((a + stop)%nat, true) → (stop ≤ n)%nat → (n ≤ fuel' + i)%nat →
  quoted_loop piece quote fuel' i = (stop, true).
Proof.
  intros Hquote. induction fuel as [|fuel IH]; intros fuel' i stop H Hs Hf; cbn [quoted_loop] in H; [done|].
  destruct (s !! (a + i)%nat) as [c|] eqn:Hc; [|done]. apply lookup_lt_Some in Hc as Hlt.
  rewrite <- !Nat.add_succ_r in H.
  assert (Hgo : ∀ k, (i < k)%nat → (a + k ≤ length s)%nat → quoted_loop s quote fuel (a + k) = ((a + stop)%nat, true) →
    (k ≤ n)%nat ∧ quoted_loop piece quote (pred fuel') k = (stop, true)).
  { intros k Hk Hl Hq. pose proof (quoted_later _ _ _ _ _ Hl Hq). split; [lia|]. apply IH; [done|lia|lia]. }
  destruct (is_char c 92 && negb (is_char quote 39)) eqn:Hesc; cbn [andb] in H.
  - destruct (Nat.ltb_spec (a + S i) (length s)).
    + destruct (Hgo (S (S i)) ltac:(lia) ltac:(lia) H) as [Hk Hq]. destruct fuel' as [|fuel']; [lia|]. cbn [quoted_loop].
      rewrite piece_lookup, Hc, Hesc, piece_length by lia. cbn [andb]. by rewrite (proj2 (Nat.ltb_lt (S i) n)) by lia.
    + rewrite bool_decide_false in H.
      * replace (a + S i)%nat with (length s) in H by lia. by rewrite quoted_end in H.
      * intros ->. by rewrite Hquote in Hesc.
  - assert (Hstep : ∀ f, (i < n)%nat → quoted_loop piece quote (S f) i =
      if bool_decide (c = quote) then
        if bool_decide (piece !! S i = Some quote) then quoted_loop piece quote f (S (S i)) else (S i, true)
      else quoted_loop piece quote f (S i)).
    { intros f Hi. cbn [quoted_loop]. by rewrite piece_lookup, Hc, Hesc by lia. }
    destruct (bool_decide (c = quote)) eqn:Hq.
    + destruct (decide (s !! (a + S i)%nat = Some quote)) as [Hn2|Hn2].
      * rewrite bool_decide_true in H by done. apply lookup_lt_Some in Hn2 as Hlt2.
        destruct (Hgo (S (S i)) ltac:(lia) ltac:(lia) H) as [Hk Hr]. destruct fuel' as [|fuel']; [lia|].
        rewrite Hstep by lia. by rewrite bool_decide_true by (by rewrite piece_lookup by lia).
      * rewrite bool_decide_false in H by done. injection H as Hst. destruct fuel' as [|fuel']; [lia|]. rewrite Hstep by lia.
        rewrite bool_decide_false; [f_equal; lia|]. intros [_ Hp]%piece_lookup_Some. done.
    + destruct (Hgo (S i) ltac:(lia) ltac:(lia) H) as [Hk Hr]. destruct fuel' as [|fuel']; [lia|]. by rewrite Hstep by lia.
Qed.

Lemma slice_piece i j : (i ≤ j ≤ n)%nat → slice piece i j = slice s (a + i) (a + j).
Proof.
  intros H. apply list_eq. intros k. unfold slice. destruct (decide (k < j - i)%nat).
  - rewrite !lookup_take_lt by lia. rewrite !lookup_drop, piece_lookup by lia. f_equal. lia.
  - rewrite !lookup_take_ge by lia. done.
Qed.

Lemma scanned_token_piece k p r t stop :
  Some (Token.mk k (slice s (a + r) (scan_while s p (length s) (S (a + r)))) (a + r) true, scan_while s p (length s) (S (a + r))) =
    Some (t, (a + stop)%nat) →
  (r < stop ≤ n)%nat →
  Some (Token.mk k (slice piece r (scan_while piece p (length piece) (S r))) r true, scan_while piece p (length piece) (S r)) =
    Some (shift_token a t, stop).
Proof.
  intros [= <- H] Hs. rewrite <- Nat.add_succ_r in H. rewrite (scan_while_piece p (S r) stop) by (done || lia).
  rewrite Nat.min_l, slice_piece by lia. unfold shift_token. cbn. rewrite <- Nat.add_succ_r, H.
  by replace (a + r - a)%nat with r by lia.
Qed.

Lemma quoted_token_piece c r t stop :
  is_char c 92 = false → Some (readQuoted s c (a + r)) = Some (t, (a + stop)%nat) → Token.terminated t = true →
  (r < stop ≤ n)%nat → Some (readQuoted piece c r) = Some (shift_token a t, stop).
Proof.
  intros Hc H Ht Hs. unfold readQuoted in *. rewrite <- Nat.add_succ_r in H.
  destruct (quoted_loop s c (length s) (a + S r)) as [e b] eqn:Hq. injection H as <- ->. cbn in Ht. subst b.
  rewrite (quoted_piece c (length s) Hc (length piece) (S r) stop); [|done|lia|rewrite piece_length; lia].
  rewrite slice_piece by lia. unfold shift_token. cbn. by replace (a + r - a)%nat with r by lia.
Qed.

(** The next token of the piece is the one of the text, if the piece contains it. *)
Lemma next_piece i t stop :
  (i ≤ n)%nat → next s (a + i) = Some (t, (a + stop)%nat) → Token.terminated t = true → (stop ≤ n)%nat →
  next piece i = Some (shift_token a t, stop).
Proof.
  intros Hi H Hterm Hstop. pose proof (next_token s (a + i) t (a + stop) ltac:(lia) H) as [Ht1 Ht2 _].
  unfold next in H. pose proof (trivia_bounds s (S (length s)) (a + i) ltac:(lia)) as Hb.
  fold (skipTrivia s (a + i)) in Hb. remember (skipTrivia s (a + i)) as st eqn:Hst.
  destruct (s !! st) as [c|] eqn:Hc; [|done].
  assert (Hoff : Token.offset t = st).
  { destruct (isIdentifierStart c); [by injection H as <- _|]. destruct (isDigit c); [by injection H as <- _|].
    destruct (_ || _); [|by injection H as <- _]. unfold readQuoted in H. destruct (quoted_loop _ _ _ _).
    by injection H as <- _. }
  set (r := (st - a)%nat). assert (Hr : st = (a + r)%nat) by (subst r; lia).
  assert (Htp : skipTrivia piece i = r).
  { unfold skipTrivia. rewrite (trivia_piece (S (length s)) _ _ r); [lia| |lia|rewrite piece_length; lia|lia|].
    - by rewrite <- Hr.
    - intros j d Hj. lia. }
  unfold next. rewrite Htp, piece_lookup by lia. rewrite <- Hr, Hc. rewrite Hr in *. clearbody r.
  destruct (isIdentifierStart c); [apply scanned_token_piece; [done|lia]|].
  destruct (isDigit c); [apply scanned_token_piece; [done|lia]|].
  destruct (is_char c 39 || is_char c 34 || is_char c 96) eqn:E.
  - apply quoted_token_piece; [unfold is_char in *; lia|done|done|lia].
  - injection H as <- H. unfold shift_token. cbn. rewrite slice_piece by lia. rewrite Nat.add_succ_r.
    replace (a + r - a)%nat with r by lia. f_equal. f_equal. lia.
Qed.

(** No token is left in the piece where the text has only trivia up to its end. *)
Lemma next_piece_none i r :
  (i ≤ n)%nat → skipTrivia s (a + i) = (a + r)%nat → (n ≤ r)%nat → cut_in_space r → next piece i = None.
Proof.
  intros Hi H Hr Hs. unfold next, skipTrivia.
  rewrite (trivia_piece (S (length s)) _ _ r); [|done|lia|rewrite piece_length; lia|lia|done].
  by rewrite Nat.min_r, piece_lookup_end by lia.
Qed.
(** Where the trivia before the next of the tokens ends. *)
Definition tokens_start (ts : list Token.t) : nat := match ts with t :: _ => Token.offset t | [] => length s end.

Lemma next_offset i t stop : next s i = Some (t, stop) → skipTrivia s i = Token.offset t.
Proof.
  unfold next. destruct (s !! skipTrivia s i) as [c|]; [|done].
  destruct (isIdentifierStart c); [by intros [= <- _]|]. destruct (isDigit c); [by intros [= <- _]|].
  destruct (_ || _); [|by intros [= <- _]]. unfold readQuoted. destruct (quoted_loop _ _ _ _). by intros [= <- _].
Qed.

Lemma skipTrivia_start fuel i :
  (i ≤ length s)%nat → (length s < fuel + i)%nat → skipTrivia s i = tokens_start (tokens_from s fuel i).
Proof.
  intros Hi Hf. destruct fuel as [|fuel]; [lia|]. cbn [tokens_from].
  destruct (next s i) as [[t stop]|] eqn:E; [by apply next_offset in E|]. cbn [tokens_start].
  pose proof (trivia_bounds s (S (length s)) i Hi) as Hb. fold (skipTrivia s i) in Hb.
  unfold next in E. destruct (s !! skipTrivia s i) as [c|] eqn:Hc.
  - destruct (isIdentifierStart c); [done|]. destruct (isDigit c); [done|]. by destruct (_ || _).
  - apply lookup_ge_None in Hc. lia.
Qed.

(** The piece ends between two tokens. *)
Record cut_between (mid post : list Token.t) : Prop := {
  cb_terminated : Forall (λ t, Token.terminated t = true) mid;
  cb_inside : Forall (λ t, Token.offset t + length (Token.lexeme t) ≤ a + n)%nat mid;
  cb_before : (a + n ≤ tokens_start post)%nat;
  cb_space : ∀ j c, (a + n ≤ j < tokens_start post)%nat → s !! j = Some c → isWhitespace c = true;
}.

Lemma tokens_piece mid post : ∀ fuel fuel' i,
  tokens_from s fuel (a + i) = mid ++ post → cut_between mid post → (length s < fuel + (a + i))%nat → (i ≤ n)%nat →
  (n < fuel' + i)%nat → tokens_from piece fuel' i = shift_token a <$> mid.
Proof.
  induction mid as [|t mid IH]; intros fuel fuel' i H [H1 H2 H3 H4] Hf Hi Hf'.
  - pose proof (skipTrivia_start fuel (a + i) ltac:(lia) Hf) as Hr. rewrite H in Hr. cbn [app] in Hr.
    destruct fuel' as [|fuel']; [lia|]. cbn [tokens_from].
    rewrite (next_piece_none i (tokens_start post - a)); [done|done|lia|lia|].
    intros j c Hj. apply H4. lia.
  - destruct fuel as [|fuel]; [lia|]. cbn [tokens_from] in H. destruct (next s (a + i)) as [[t' stop]|] eqn:E; [|done].
    injection H as -> H. apply Forall_cons in H1 as [Ht1 H1]. apply Forall_cons in H2 as [Ht2 H2].
    pose proof (next_token s (a + i) t stop ltac:(lia) E) as Hat. pose proof (ta_stop _ _ _ _ Hat).
    pose proof (ta_from _ _ _ _ Hat). apply token_at_chained in Hat as (_ & _ & Hend & _).
    replace stop with (a + (stop - a))%nat in E, H by lia.
    destruct fuel' as [|fuel']; [lia|]. cbn [tokens_from].
    rewrite (next_piece i t (stop - a)) by (done || lia). cbn [fmap list_fmap]. f_equal.
    apply (IH fuel); [done|by split|lia|lia|lia].
Qed.
End window.
