(* ===== verification/ParserCut.v ===== *)
(** * Parsing a piece of the input again

    A query that the parser reads from a text is read again, with the same result, from the piece of the text it consumed:
    no parsing function looks further than it consumes, except to stop, and none depends on offsets.  [cut] relates a run
    that leaves tokens to a run on the consumed ones alone; [cut_auto] applies its rules to the body of a function. *)

From S2P Require Import Prelude Float Numeral Tokenizer Policy Ast Parser ParserRules TokenWindow.

Create HintDb cut.

Section cut.
Context (a : nat).

Local Notation sh := (shift_token a).

(** Where [m] returns with [post] left over, [m'] returns the image of the result on the (shifted) tokens before [post], if
    these are fewer than [n]; [m] consumes a prefix, and a non-empty one if [s] is set. *)
Definition cut {A} (n : nat) (s : bool) (m m' : parser A) (f : A → A) : Prop :=
  ∀ ts x rest, run m ts = Done x rest →
    rest `suffix_of` ts ∧ (s = true → (length rest < length ts)%nat) ∧
    ∀ mid post rest', ts = mid ++ post → (length mid < n)%nat → rest = rest' ++ post →
      run m' (sh <$> mid) = Done (f x) (sh <$> rest').

Lemma cut_weaken {A} n n' s s' (m m' : parser A) f :
  cut n s m m' f → (n' ≤ n)%nat → (s' = true → s = true) → cut n' s' m m' f.
Proof.
  intros H Hn Hs ts x rest E. destruct (H _ _ _ E) as (H1 & H2 & H3). split_and!; [done|auto|].
  intros mid post rest' Ht Hl Hr. apply (H3 mid post rest' Ht); [lia|done].
Qed.

Lemma cut_strict {A} n (m m' : parser A) f : cut n true m m' f → cut n false m m' f.
Proof. intros H. by eapply cut_weaken. Qed.

Lemma cut_ret {A} n (x : A) f x' : x' = f x → cut n false (mret x) (mret x') f.
Proof.
  intros -> ts y rest [= <- <-]. split_and!; [done|done|]. intros mid post rest' -> _ H. by apply app_inv_tail in H as <-.
Qed.

Lemma cut_fail {A} n s d (m' : parser A) f : cut n s (fail d) m' f.
Proof. by intros ts x rest. Qed.

Lemma cut_stuck {A} n s (m' : parser A) f : cut n s stuck m' f.
Proof. by intros ts x rest. Qed.

(** What is left over in the end is left over in between. *)
Lemma suffix_split {A} (ts ts' rest mid post rest' : list A) :
  ts' `suffix_of` ts → rest `suffix_of` ts' → ts = mid ++ post → rest = rest' ++ post →
  ∃ mid', ts' = mid' ++ post ∧ (length ts' - length post = length mid')%nat ∧ (length ts - length post = length mid)%nat ∧
          (length post ≤ length ts')%nat ∧ (length ts' ≤ length ts)%nat.
Proof.
  intros [k ->] [k' ->] H ->. exists (k' ++ rest'). rewrite !app_assoc in *. split; [done|].
  apply app_inv_tail in H as <-. rewrite !length_app. lia.
Qed.

Lemma cut_bind_strict {A B} n s (m m' : parser A) (k k' : A → parser B) f g :
  cut n true m m' f → (∀ x, cut (pred n) false (k x) (k' (f x)) g) → cut n s (m ≫= k) (m' ≫= k') g.
Proof.
  intros Hm Hk ts y rest E. rewrite parse_bind in E. destruct (run m ts) as [x ts'| |] eqn:Em; [|done|done].
  destruct (Hm _ _ _ Em) as (H1 & H2 & H3). specialize (H2 eq_refl). destruct (Hk x _ _ _ E) as (H4 & _ & H5).
  apply suffix_length in H4 as Hl4. split_and!; [by etransitivity|lia|].
  intros mid post rest' Ht Hl Hr. destruct (suffix_split ts ts' rest mid post rest' H1 H4 Ht Hr) as (mid' & Hts & ?).
  rewrite parse_bind, (H3 mid post mid') by done. apply (H5 mid' post rest'); [done|lia|done].
Qed.

Lemma cut_bind {A B} n s (m m' : parser A) (k k' : A → parser B) f g :
  cut n false m m' f → (∀ x, cut n s (k x) (k' (f x)) g) → cut n s (m ≫= k) (m' ≫= k') g.
Proof.
  intros Hm Hk ts y rest E. rewrite parse_bind in E. destruct (run m ts) as [x ts'| |] eqn:Em; [|done|done].
  destruct (Hm _ _ _ Em) as (H1 & _ & H3). destruct (Hk x _ _ _ E) as (H4 & H6 & H5).
  apply suffix_length in H4 as Hl4. apply suffix_length in H1 as Hl1.
  split_and!; [by etransitivity|intros Es; specialize (H6 Es); lia|].
  intros mid post rest' Ht Hl Hr. destruct (suffix_split ts ts' rest mid post rest' H1 H4 Ht Hr) as (mid' & Hts & ?).
  rewrite parse_bind, (H3 mid post mid') by done. apply (H5 mid' post rest'); [done|lia|done].
Qed.

(** ** Tokens *)

(** A test that does not depend on the offset. *)
Definition offset_free (p : Token.t → bool) : Prop := ∀ t, p (sh t) = p t.

(** Nothing of what is left over was consumed. *)
Lemma no_shorter {A} (rest post : list A) t : post = rest ++ t :: post → False.
Proof. intros H. apply (f_equal length) in H. rewrite length_app in H. cbn in H. lia. Qed.

Lemma cut_match_only n p : offset_free p → cut n false (match_token p) (match_token p) id.
Proof.
  intros Hp ts x rest E. destruct ts as [|t ts]; cbn in E.
  - injection E as <- <-. split_and!; [done|done|]. intros [|] post rest' H _ Hr; [|done].
    destruct rest', post; try done.
  - destruct (p t) eqn:Ep; injection E as <- <-.
    + split_and!; [by exists [t]|done|]. intros [|t' mid] post rest' H _ Hr; cbn in H.
      * exfalso. subst post. by apply no_shorter in Hr.
      * injection H as <- ->. apply app_inv_tail in Hr as <-. cbn. by rewrite Hp, Ep.
    + split_and!; [done|done|]. intros mid post rest' H _ Hr. rewrite H in Hr. apply app_inv_tail in Hr as <-.
      destruct mid as [|t' mid]; [done|]. injection H as <- _. cbn. by rewrite Hp, Ep.
Qed.

(** A branch taken after consuming the token that was tested. *)
Lemma cut_match {A} n s p (k1 k1' k2 k2' : parser A) f :
  offset_free p → cut (pred n) false k1 k1' f → cut n s k2 k2' f →
  cut n s (match_token p ≫= λ b : bool, if b then k1 else k2) (match_token p ≫= λ b : bool, if b then k1' else k2') f.
Proof.
  intros Hp H1 H2 ts x rest E. destruct ts as [|t ts].
  { destruct (H2 _ _ _ E) as (Hs & Hl & Hc). split_and!; [done|done|]. intros [|t' mid] post rest' H Hn Hr; [|done].
    exact (Hc [] post rest' H Hn Hr). }
  rewrite parse_bind in E. cbn in E. destruct (p t) eqn:Ep.
  - destruct (H1 _ _ _ E) as (Hs & _ & Hc). apply suffix_length in Hs as Hl.
    split_and!; [by apply suffix_cons_r|cbn; lia|]. intros [|t' mid] post rest' H Hn Hr; cbn in H.
    + exfalso. subst post rest. rewrite length_app in Hl. cbn in Hl. lia.
    + injection H as <- ->. rewrite parse_bind. cbn. rewrite Hp, Ep. apply (Hc mid post); [done|cbn in Hn; lia|done].
  - destruct (H2 _ _ _ E) as (Hs & Hl & Hc). split_and!; [done|done|]. intros mid post rest' H Hn Hr.
    rewrite parse_bind. specialize (Hc mid post rest' H Hn Hr). destruct mid as [|t' mid]; [done|]. injection H as <- _.
    cbn. by rewrite Hp, Ep.
Qed.

Lemma cut_advance_or n sql sql' x : cut n true (advance_or sql x) (advance_or sql' x) sh.
Proof.
  intros [|t ts] y rest E; [done|]. injection E as <- <-. split_and!; [by exists [t]|cbn; lia|].
  intros [|t' mid] post rest' H _ Hr; cbn in H.
  - exfalso. subst post. by apply no_shorter in Hr.
  - injection H as <- ->. by apply app_inv_tail in Hr as <-.
Qed.

(** What is returned without consuming the token that was looked at is returned at the end of the input, too. *)
Lemma cut_peek {A} n s (k k' : option Token.t → parser A) f :
  cut n s (k None) (k' None) f → (∀ t, cut n s (k (Some t)) (k' (Some (sh t))) f) →
  (∀ t ts x, run (k (Some t)) (t :: ts) = Done x (t :: ts) → run (k' None) [] = Done (f x) []) →
  cut n s (peek ≫= k) (peek ≫= k') f.
Proof.
  intros H0 H1 H2 ts x rest E. rewrite parse_bind in E. cbn in E. destruct ts as [|t ts].
  - destruct (H0 _ _ _ E) as (Hs & Hl & Hc). split_and!; [done|done|]. intros mid post rest' H Hn Hr.
    specialize (Hc mid post rest' H Hn Hr). by destruct mid.
  - destruct (H1 t _ _ _ E) as (Hs & Hl & Hc). split_and!; [done|done|]. intros mid post rest' H Hn Hr.
    destruct mid as [|t' mid]; cbn in H.
    + subst post. assert (rest' = []) as ->.
      { apply suffix_length in Hs. subst rest. rewrite length_app in Hs. destruct rest'; [done|cbn in Hs; lia]. }
      subst rest. cbn in E. by apply H2 in E.
    + specialize (Hc (t' :: mid) post rest' H Hn Hr). by injection H as <- _.
Qed.

Lemma cut_looked {A B} n s (g : option Token.t → B) (k k' : B → parser A) f :
  (∀ t, g (Some (sh t)) = g (Some t)) → cut n s (k (g None)) (k' (g None)) f →
  (∀ t, cut n s (k (g (Some t))) (k' (g (Some t))) f) →
  (∀ t ts x, run (k (g (Some t))) (t :: ts) = Done x (t :: ts) → run (k' (g None)) [] = Done (f x) []) →
  cut n s ((t ← peek; mret (g t)) ≫= k) ((t ← peek; mret (g t)) ≫= k') f.
Proof.
  intros Hg H0 H1 H2. refine (cut_peek n s (λ t, k (g t)) (λ t, k' (g t)) f H0 _ H2). intros t. rewrite Hg. apply H1.
Qed.

Lemma cut_fuelled {A} n s (k k' : nat → parser A) f :
  (∀ fuel fuel', (fuel' ≤ n)%nat → cut fuel' s (k fuel) (k' fuel') f) → cut n s (fuelled k) (fuelled k') f.
Proof.
  intros H ts x rest E. destruct (H _ 0%nat ltac:(lia) _ _ _ E) as (H1 & H2 & _). split_and!; [done|done|].
  intros mid post rest' Ht Hn Hr. destruct (H _ (S (length mid)) ltac:(lia) _ _ _ E) as (_ & _ & H3).
  cbn [fuelled run]. rewrite length_fmap. apply (H3 mid post rest'); [done|lia|done].
Qed.

(** On no tokens the second function is arbitrary. *)
Lemma cut_zero {A} s (m m' m'' : parser A) f : cut 0 s m m'' f → cut 0 s m m' f.
Proof. intros H ts x rest E. destruct (H _ _ _ E) as (H1 & H2 & _). split_and!; [done|done|]. lia. Qed.

(** Nothing is consumed by what consumes something. *)
Lemma cut_not_idle {A} n (m m' : parser A) f ts x : cut n true m m' f → run m ts = Done x ts → False.
Proof. intros H E. destruct (H _ _ _ E) as (_ & Hl & _). specialize (Hl eq_refl). lia. Qed.
End cut.

#[export] Hint Extern 4 (_ ≤ _)%nat => lia : cut.
#[export] Hint Extern 1 (offset_free _ _) => intros ?; reflexivity : cut.
#[export] Hint Resolve cut_strict | 10 : cut.
#[export] Hint Resolve cut_advance_or cut_match_only : cut.
#[export] Hint Extern 2 (cut _ _ _ (matchKeyword _) _ _) => apply cut_match_only; intros ?; reflexivity : cut.
#[export] Hint Extern 2 (cut _ _ _ (matchSymbol _) _ _) => apply cut_match_only; intros ?; reflexivity : cut.

Ltac cut_call := eapply cut_weaken; [solve [eauto with cut]|first [apply le_n|lia]|first [done|discriminate]].

Ltac cut_step :=
  cbn [pred id];
  first
  [ apply cut_ret; reflexivity
  | apply cut_fail | apply cut_stuck
  | lazymatch goal with
    | |- cut _ _ _ (_ ≫= λ b, if b then _ else _) _ _ => apply cut_match; [intros ?; reflexivity| |]
    | |- cut _ _ _ (if ?c then _ else _) (if ?c' then _ else _) _ => change c' with c; destruct c
    | |- cut _ _ _ (match ?x with _ => _ end) (match ?x with _ => _ end) _ => destruct x
    end
  | cut_call
  | eapply cut_bind_strict; [cut_call|intros ?]
  | eapply cut_bind; [cut_call|intros ?]
  | lazymatch goal with
    | |- cut _ _ _ ((match ?x with _ => _ end) ≫= _) _ _ => eapply (cut_bind _ _ _ _ _ _ _ id); [solve [repeat cut_step]|intros ?]
    end ].

Ltac cut_auto := repeat cut_step.

(** ** The functions of queries *)

Section functions.
Context (a : nat) (sql sql' : bytes).

Local Notation cut := (cut a).
Local Notation sh := (shift_token a).

Lemma cut_failToken {A} n s t code x (m' : parser A) f : cut n s (failToken t code x) m' f.
Proof. by intros ts y rest. Qed.

Lemma cut_failCurrent {A} n s code x (m' : parser A) f : cut n s (failCurrent sql code x) m' f.
Proof. intros ts y rest. unfold failCurrent. rewrite parse_bind. cbn. by destruct (head ts). Qed.

Hint Resolve cut_failToken cut_failCurrent : cut.

Lemma cut_expectSymbol n x : cut n true (expectSymbol sql x) (expectSymbol sql' x) id.
Proof. unfold expectSymbol. cut_auto. Qed.

Lemma cut_expectKeyword n x : cut n true (expectKeyword sql x) (expectKeyword sql' x) id.
Proof. unfold expectKeyword. cut_auto. Qed.

Lemma cut_expectIdentifierToken n x : cut n true (expectIdentifierToken sql x) (expectIdentifierToken sql' x) sh.
Proof. unfold expectIdentifierToken. cut_auto. Qed.

Hint Resolve cut_expectSymbol cut_expectKeyword cut_expectIdentifierToken : cut.

Lemma cut_expectIdentifierOwned n x : cut n true (expectIdentifierOwned sql x) (expectIdentifierOwned sql' x) id.
Proof. unfold expectIdentifierOwned. cut_auto. Qed.

Lemma cut_cloneStringLiteral n t : cut n false (cloneStringLiteral t) (cloneStringLiteral (sh t)) id.
Proof. unfold cloneStringLiteral. change (Token.lexeme (sh t)) with (Token.lexeme t). cut_auto. Qed.

Lemma cut_number_of {A} n t (v : option A) x : cut n false (number_of t v x) (number_of (sh t) v x) id.
Proof. unfold number_of. cut_auto. Qed.

Hint Resolve cut_expectIdentifierOwned cut_cloneStringLiteral cut_number_of : cut.

Lemma cut_number_literal n t b : cut n false (number_literal t b) (number_literal (sh t) b) id.
Proof.
  unfold number_literal. change (Token.lexeme (sh t)) with (Token.lexeme t). change (has_point (sh t)) with (has_point t).
  cut_auto.
Qed.

Hint Resolve cut_number_literal : cut.

Lemma cut_list_loop {A} n (item item' : parser A) close fuel : ∀ fuel' acc,
  (fuel' ≤ n)%nat → cut n true item item' id →
  cut fuel' false (list_loop sql item close fuel acc) (list_loop sql' item' close fuel' acc) id.
Proof.
  induction fuel as [|fuel IH]; intros fuel' acc Hf Hi; [apply cut_stuck|].
  destruct fuel' as [|fuel']; [apply (cut_zero _ _ _ _ (list_loop sql' item' close 1 acc))|]; cbn [list_loop]; cut_auto.
  apply (IH 0%nat); [lia|done].
Qed.

Lemma cut_list_until {A} n (item item' : parser A) close :
  cut n true item item' id → cut n false (list_until sql item close) (list_until sql' item' close) id.
Proof. intros. apply cut_fuelled. intros. by eapply cut_list_loop. Qed.

Lemma cut_comma_loop {A} n (item item' : parser A) fuel : ∀ fuel' acc,
  (fuel' ≤ n)%nat → cut n true item item' id →
  cut fuel' true (comma_loop item fuel acc) (comma_loop item' fuel' acc) id.
Proof.
  induction fuel as [|fuel IH]; intros fuel' acc Hf Hi; [apply cut_stuck|].
  destruct fuel' as [|fuel']; [apply (cut_zero _ _ _ _ (comma_loop item' 1 acc))|]; cbn [comma_loop]; cut_auto.
  apply cut_strict, (IH 0%nat); [lia|done].
Qed.

Lemma cut_comma_list {A} n (item item' : parser A) :
  cut n true item item' id → cut n true (comma_list item) (comma_list item') id.
Proof. intros. apply cut_fuelled. intros. by eapply cut_comma_loop. Qed.

Lemma cut_optional {A} n x (item item' : parser A) :
  cut n false item item' id → cut n false (optional x item) (optional x item') id.
Proof. intros. unfold optional. cut_auto. Qed.

Hint Resolve cut_list_until cut_comma_list cut_optional : cut.

Lemma cut_vector_value n : cut n true (vector_value sql) (vector_value sql') id.
Proof.
  unfold vector_value. eapply cut_bind; [cut_call|intros negative]. eapply cut_bind_strict; [cut_call|intros t].
  change (Token.lexeme (sh t)) with (Token.lexeme t). cut_auto.
Qed.

Lemma cut_parseComparisonOperator n : cut n true (parseComparisonOperator sql) (parseComparisonOperator sql') id.
Proof. unfold parseComparisonOperator. cut_auto. Qed.

Hint Resolve cut_vector_value cut_parseComparisonOperator : cut.

(** *** Expressions *)

Section expression.
Context (n : nat) (e e' : parser Expression.t) (He : cut n true e e' id).

Hint Resolve He : cut.

Lemma cut_parsePrimary : cut (S n) true (parsePrimary sql e) (parsePrimary sql' e') id.
Proof. unfold parsePrimary. cut_auto. Qed.

Hint Resolve cut_parsePrimary : cut.

Lemma cut_additive_loop fuel : ∀ fuel' left, (fuel' ≤ S n)%nat →
  cut fuel' false (additive_loop sql e fuel left) (additive_loop sql' e' fuel' left) id.
Proof.
  induction fuel as [|fuel IH]; intros fuel' left Hf; [apply cut_stuck|].
  destruct fuel' as [|fuel']; [apply (cut_zero _ _ _ _ (additive_loop sql' e' 1 left))|]; cbn [additive_loop]; cut_auto;
    apply (IH 0%nat); lia.
Qed.

Lemma cut_parseAdditiveExpression : cut (S n) true (parseAdditiveExpression sql e) (parseAdditiveExpression sql' e') id.
Proof.
  unfold parseAdditiveExpression. eapply cut_bind_strict; [cut_call|intros left]. apply cut_fuelled.
  intros. apply cut_additive_loop. lia.
Qed.

Hint Resolve cut_parseAdditiveExpression : cut.

(** The right-hand side of a comparison, after its operator was seen. *)
Lemma cut_comparison_rest left m : (m ≤ S n)%nat →
  cut m true (op ← parseComparisonOperator sql; right ← parseAdditiveExpression sql e; mret (Expression.binary left op right))
    (op ← parseComparisonOperator sql'; right ← parseAdditiveExpression sql' e'; mret (Expression.binary left op right)) id.
Proof. intros. cut_auto. Qed.

Lemma cut_parseComparisonExpression :
  cut (S n) true (parseComparisonExpression sql e) (parseComparisonExpression sql' e') id.
Proof.
  unfold parseComparisonExpression. eapply cut_bind_strict; [cut_call|intros left]. cbn [pred id]. apply cut_peek.
  - by apply cut_ret.
  - intros t. change (isComparisonStart (Some (sh t))) with (isComparisonStart (Some t)).
    destruct (isComparisonStart (Some t)); [apply cut_strict, cut_comparison_rest; lia|by apply cut_ret].
  - intros t ts x. destruct (isComparisonStart (Some t)); [|by intros [= <-]].
    intros E. exfalso. eapply cut_not_idle; [apply (cut_comparison_rest left n)|exact E]. lia.
Qed.

Hint Resolve cut_parseComparisonExpression : cut.

Lemma cut_and_loop fuel : ∀ fuel' left, (fuel' ≤ S n)%nat →
  cut fuel' false (and_loop sql e fuel left) (and_loop sql' e' fuel' left) id.
Proof.
  induction fuel as [|fuel IH]; intros fuel' left Hf; [apply cut_stuck|].
  destruct fuel' as [|fuel']; [apply (cut_zero _ _ _ _ (and_loop sql' e' 1 left))|]; cbn [and_loop]; cut_auto.
  apply (IH 0%nat). lia.
Qed.

Lemma cut_parseAndExpression : cut (S n) true (parseAndExpression sql e) (parseAndExpression sql' e') id.
Proof.
  unfold parseAndExpression. eapply cut_bind_strict; [cut_call|intros left]. apply cut_fuelled.
  intros. apply cut_and_loop. lia.
Qed.
End expression.

Lemma cut_expression_loop fuel : ∀ fuel', cut fuel' true (expression_loop sql fuel) (expression_loop sql' fuel') id.
Proof.
  induction fuel as [|fuel IH]; intros fuel'; [apply cut_stuck|].
  destruct fuel' as [|fuel']; [|by apply cut_parseAndExpression].
  apply (cut_zero _ _ _ _ (expression_loop sql' 1)). eapply cut_weaken; [apply (cut_parseAndExpression 0), IH|lia|done].
Qed.

Lemma cut_parseExpression n : cut n true (parseExpression sql) (parseExpression sql') id.
Proof. apply cut_fuelled. intros. apply cut_expression_loop. Qed.

Hint Resolve cut_parseExpression : cut.
(** *** Queries *)

Lemma cut_advance n : cut n false advance advance (fmap sh).
Proof.
  intros [|t ts] y rest [= <- <-].
  - split_and!; [done|done|]. intros [|] post rest' H _ Hr; [|done]. by destruct rest', post.
  - split_and!; [by exists [t]|done|]. intros [|t' mid] post rest' H _ Hr; cbn in H.
    + exfalso. subst post. by apply no_shorter in Hr.
    + injection H as <- ->. by apply app_inv_tail in Hr as <-.
Qed.

Hint Resolve cut_advance : cut.

Lemma cut_optional_alias n boundary :
  offset_free a boundary → cut n false (optional_alias boundary) (optional_alias boundary) id.
Proof.
  intros Hb. unfold optional_alias. apply cut_peek; [by apply cut_ret| |].
  - intros t. change (isIdentifier (sh t)) with (isIdentifier t). rewrite Hb. cut_auto.
  - intros t ts x. destruct (_ || _); [by intros [= <-]|]. intros E. injection E as _ E.
    apply (f_equal length) in E. cbn in E. lia.
Qed.

Lemma cut_parseProjection n : cut n true (parseProjection sql) (parseProjection sql') id.
Proof.
  unfold parseProjection, parseOptionalImplicitAlias.
  pose proof (λ n, cut_optional_alias n isImplicitAliasBoundary ltac:(by intros ?)). cut_auto.
Qed.

Lemma cut_parseRequiredTableAlias n x : cut n true (parseRequiredTableAlias sql x) (parseRequiredTableAlias sql' x) id.
Proof. unfold parseRequiredTableAlias. cut_auto. Qed.

Lemma cut_parseOptionalTableAlias n : cut n false (parseOptionalTableAlias sql) (parseOptionalTableAlias sql') id.
Proof.
  unfold parseOptionalTableAlias. pose proof (λ n, cut_optional_alias n isTableAliasBoundary ltac:(by intros ?)). cut_auto.
Qed.

Lemma cut_consumeJoinType n j : cut n true (consumeJoinType sql j) (consumeJoinType sql' j) id.
Proof. destruct j; unfold consumeJoinType; cut_auto. Qed.

Hint Resolve cut_parseProjection cut_parseRequiredTableAlias cut_parseOptionalTableAlias cut_consumeJoinType : cut.

Lemma cut_projection_loop fuel : ∀ fuel' acc,
  cut fuel' false (projection_loop sql fuel acc) (projection_loop sql' fuel' acc) id.
Proof.
  induction fuel as [|fuel IH]; intros fuel' acc; [apply cut_stuck|].
  assert (Hrest : ∀ m k, (m ≤ S k)%nat →
    cut m true (p ← parseProjection sql; more ← matchSymbol ","; if more : bool then projection_loop sql fuel (acc ++ [p])
                else mret (acc ++ [p]))
      (p ← parseProjection sql'; more ← matchSymbol ","; if more : bool then projection_loop sql' k (acc ++ [p])
       else mret (acc ++ [p])) id).
  { intros m k Hm. eapply cut_bind_strict; [cut_call|intros p]. apply cut_match; [by intros ?| |by apply cut_ret].
    eapply cut_weaken; [apply (IH k)|lia|done]. }
  assert (Hs : ∀ k, cut (S k) false (projection_loop sql (S fuel) acc) (projection_loop sql' (S k) acc) id).
  { intros k. cbn [projection_loop]. apply cut_looked; [done|by apply cut_ret| |].
    - intros t. case_match; [by apply cut_ret|apply cut_strict, Hrest; lia].
    - intros t ts x. case_match; [by intros [= <-]|].
      intros E. exfalso. eapply cut_not_idle; [apply (Hrest 0%nat 0%nat); lia|exact E]. }
  destruct fuel' as [|fuel']; [|apply Hs].
  eapply cut_zero. eapply cut_weaken; [apply (Hs 0%nat)|lia|done].
Qed.

Lemma cut_order_key n : cut n true (order_key sql) (order_key sql') id.
Proof. unfold order_key. cut_auto. Qed.

Lemma cut_limit_value n : cut n true (limit_value sql) (limit_value sql') id.
Proof.
  unfold limit_value. eapply cut_bind_strict; [cut_call|intros t]. change (Token.lexeme (sh t)) with (Token.lexeme t). cut_auto.
Qed.

Lemma cut_by {A} n (item item' : parser A) :
  cut n true item item' id →
  cut n true (expectKeyword sql "BY" ;; comma_list item) (expectKeyword sql' "BY" ;; comma_list item') id.
Proof. intros. cut_auto. Qed.

Hint Resolve cut_projection_loop cut_order_key cut_limit_value cut_by : cut.
Section query.
Context (n : nat) (q q' : parser SelectStatement) (Hq : cut n false q q' id).

Hint Resolve Hq : cut.

Lemma cut_cte : cut (S n) true (cte sql q) (cte sql' q') id.
Proof. unfold cte. cut_auto. Qed.

Hint Resolve cut_cte : cut.

Lemma cut_select_after_with : cut (S n) false (select_after_with sql q) (select_after_with sql' q') id.
Proof. unfold select_after_with. cut_auto. Qed.

Hint Resolve cut_select_after_with : cut.

Lemma cut_parseRowSourceAtom : cut (S n) true (parseRowSourceAtom sql q) (parseRowSourceAtom sql' q') id.
Proof. unfold parseRowSourceAtom. cut_auto. Qed.

Hint Resolve cut_parseRowSourceAtom : cut.

(** One joined source, and the loop after it. *)
Lemma cut_join (l l' : RowSource → parser RowSource) left j m :
  (m ≤ S n)%nat → (∀ x, cut (pred m) false (l x) (l' x) id) →
  cut m true
    (consumeJoinType sql j ;; right ← parseRowSourceAtom sql q; on ← optional "ON" (parseExpression sql);
     match on, j with
     | None, inner | None, left_join => failCurrent sql unexpected_token "ON"
     | _, _ => l (join left j right on)
     end)
    (consumeJoinType sql' j ;; right ← parseRowSourceAtom sql' q'; on ← optional "ON" (parseExpression sql');
     match on, j with
     | None, inner | None, left_join => failCurrent sql' unexpected_token "ON"
     | _, _ => l' (join left j right on)
     end) id.
Proof.
  intros Hm Hl. eapply cut_bind_strict; [cut_call|intros _]. eapply cut_bind; [cut_call|intros right].
  eapply cut_bind; [cut_call|intros on]. cbn [id]. destruct on, j; try apply Hl; apply cut_failCurrent.
Qed.

Lemma cut_join_loop fuel : ∀ fuel' left, (fuel' ≤ S n)%nat →
  cut fuel' false (join_loop sql q fuel left) (join_loop sql' q' fuel' left) id.
Proof.
  induction fuel as [|fuel IH]; intros fuel' left Hf; [apply cut_stuck|].
  assert (Hs : ∀ m k, (m ≤ S n)%nat → (m ≤ S k)%nat → (k ≤ S n)%nat →
    cut m false (join_loop sql q (S fuel) left) (join_loop sql' q' (S k) left) id).
  { intros m k Hm Hk Hn. cbn [join_loop].
    assert (Hl : ∀ x, cut (pred m) false (join_loop sql q fuel x) (join_loop sql' q' k x) id).
    { intros x. eapply cut_weaken; [apply (IH k); lia|lia|done]. }
    apply cut_looked; [done|by apply cut_ret| |].
    - intros t. case_match; [|by apply cut_ret]. apply cut_strict. by apply cut_join.
    - intros t ts x. case_match; [|by intros [= <-]]. intros E. exfalso. eapply cut_not_idle; [|exact E].
      by apply (cut_join _ _ left j m Hm Hl). }
  destruct fuel' as [|fuel']; [|apply Hs; lia]. eapply cut_zero. apply (Hs 0%nat 0%nat); lia.
Qed.

Lemma cut_parseRowSource : cut (S n) true (parseRowSource sql q) (parseRowSource sql' q') id.
Proof.
  unfold parseRowSource. eapply cut_bind_strict; [cut_call|intros left]. apply cut_fuelled.
  intros. apply cut_join_loop. lia.
Qed.

Hint Resolve cut_parseRowSource : cut.

Lemma cut_select_after_select : cut (S n) false (select_after_select sql q) (select_after_select sql' q') id.
Proof.
  unfold select_after_select. eapply (cut_bind _ _ _ _ _ _ _ id); [apply cut_fuelled; intros; apply cut_projection_loop|].
  intros items. cut_auto.
Qed.
End query.

Lemma cut_select_loop fuel : ∀ fuel', cut fuel' false (select_loop sql fuel) (select_loop sql' fuel') id.
Proof.
  induction fuel as [|fuel IH]; intros fuel'; [apply cut_stuck|].
  destruct fuel' as [|fuel']; [|by apply cut_select_after_select].
  apply (cut_zero _ _ _ _ (select_loop sql' 1)). eapply cut_weaken; [apply (cut_select_after_select 0), IH|lia|done].
Qed.

Lemma cut_parseSelectAfterSelect n : cut n false (parseSelectAfterSelect sql) (parseSelectAfterSelect sql') id.
Proof. apply cut_fuelled. intros. apply cut_select_loop. Qed.
End functions.
