(* ===== verification/ViewText.v ===== *)
(** * Views are stored as text and parsed again

    CREATE VIEW keeps the text of its query, which is what a checkpoint stores and a restart parses.  Here: the text that the
    parser cuts out of the statement is accepted again, by the policy and by the parser, and gives the query that was
    registered, provided that every quoted token of the statement is closed. *)

From S2P Require Import Prelude Float Numeral Tokenizer Policy Ast Parser ParserRules ParserFacts Grammar TokenWindow ParserCut.

(** ** The policy on a part of the tokens *)

(** A state that has seen less: no keyword yet, or the same one last. *)
Record weaker (s s' : policy_state) : Prop := {
  wk_prev : (prev s' = None ∧ in_create_table s' = false) ∨ fst <$> prev s' = fst <$> prev s;
  wk_prev2 : ∀ ks, seen (prev2 s') ks = true → seen (prev2 s) ks = true;
  wk_table : in_create_table s' = true → in_create_table s = true ∧ paren_depth s = paren_depth s';
}.

Lemma weaker_start s : weaker s policy_start.
Proof. split; [by left|done|done]. Qed.

Lemma seen_fst (p p' : option (Keyword * nat)) ks : fst <$> p = fst <$> p' → seen p ks = seen p' ks.
Proof. destruct p as [[k o]|], p' as [[k' o']|]; cbn; try done. by intros [= ->]. Qed.

Lemma weaker_seen s s' ks : weaker s s' → seen (prev s') ks = true → seen (prev s) ks = true.
Proof. intros [[[-> _]|Hp] _ _] H; [done|]. by rewrite <- (seen_fst _ _ ks Hp). Qed.

Lemma weaker_false s s' ks b : weaker s s' → seen (prev s) ks && b = false → seen (prev s') ks && b = false.
Proof.
  intros Hw Hb. destruct (seen (prev s') ks) eqn:E; [|done]. by rewrite (weaker_seen _ _ _ Hw E) in Hb.
Qed.

Lemma weaker_false' s s' ks b : weaker s s' → b && seen (prev s) ks = false → b && seen (prev s') ks = false.
Proof. rewrite !(andb_comm b). apply weaker_false. Qed.

Lemma weaker_symbol a s s' t s1 :
  weaker s s' → Token.kind t = symbol → policy_step s t = inr s1 →
  ∃ s1', policy_step s' (shift_token a t) = inr s1' ∧ weaker s1 s1'.
Proof.
  intros [H1 H2 H3] Hk H. unfold policy_step in *. cbn [shift_token Token.kind Token.lexeme]. rewrite decide_True in * by done.
  destruct (decide (Token.lexeme t = B ";")); [injection H as <-; eauto using weaker_start|].
  destruct s as [p p2 i d], s' as [p' p2' i' d']. cbn in *.
  destruct i, i'; cbn in *; try (by destruct H3); try destruct (H3 eq_refl) as [_ ->];
    repeat case_match; simplify_eq; (eexists; split; [done|]; split; cbn; by auto).
Qed.

(** The state after a keyword that opens a table definition or not. *)
Lemma weaker_keyword s s' k o o' b :
  weaker s s' →
  let opens s := b && seen (prev s) [create] in
  let after s o := PolicyState (Some (k, o)) (prev s) (if opens s then true else in_create_table s)
                     (if opens s then 0 else paren_depth s) in
  weaker (after s o) (after s' o').
Proof.
  intros Hw opens after. pose proof Hw as [H1 H2 H3]. split; cbn; [by right|intros ks; by apply weaker_seen|].
  unfold opens. destruct H1 as [[Hp Hi]|Hp].
  - rewrite Hp, Hi. cbn. rewrite andb_false_r. done.
  - rewrite (seen_fst _ _ [create] Hp). destruct (b && _); auto.
Qed.

Lemma keywordOf_shift a t : keywordOf (shift_token a t) = keywordOf t.
Proof. unfold keywordOf, Token.eqlIgnoreCase. cbn [shift_token Token.kind Token.lexeme]. reflexivity. Qed.

Lemma weaker_step a s s' t s1 :
  weaker s s' → policy_step s t = inr s1 → ∃ s1', policy_step s' (shift_token a t) = inr s1' ∧ weaker s1 s1'.
Proof.
  intros Hw H. destruct (decide (Token.kind t = symbol)) as [Hk|Hk]; [by apply (weaker_symbol a s s' t s1)|].
  unfold policy_step in *. rewrite keywordOf_shift.
  cbn [shift_token Token.kind Token.lexeme Token.offset]. rewrite decide_False in * by done.
  destruct (decide (Token.kind t ≠ identifier)); [injection H as <-; eauto|].
  destruct (keywordOf t) as [k|]; [|injection H as <-; eauto].
  destruct (bool_decide (k ∈ [grant; revoke])); [done|]. destruct (bool_decide (k ∈ [binlog; replication])); [done|].
  destruct (bool_decide (k = references)); [done|].
  do 3 (match type of H with (if ?c then _ else _) = _ => destruct c eqn:? end; [done|];
        erewrite weaker_false by eassumption).
  cbv zeta in *. match type of H with (if ?c then _ else _) = _ => destruct c eqn:Htemp end; [done|].
  rewrite (weaker_false' s s') by done.
  match type of H with (if ?c then _ else _) = _ => destruct c eqn:Htemp2 end; [done|].
  assert (Htemp2' : bool_decide (k = table) && seen (prev2 s') [create] && seen (prev s') [temporary; temp] = false).
  { destruct (seen (prev s') [temporary; temp]) eqn:E; [|apply andb_false_r].
    rewrite (weaker_seen _ _ _ Hw E), andb_true_r in Htemp. by rewrite Htemp. }
  rewrite Htemp2'. match type of H with (if ?c then _ else _) = _ => destruct c eqn:Hengine end; [done|].
  injection H as <-.
  pose proof (weaker_keyword s s' k (Token.offset t) (Token.offset t - a) (bool_decide (k = table)) Hw) as Hnew.
  cbv zeta in Hnew. pose proof (wk_table _ _ Hnew) as Htable. cbn in Htable.
  match goal with |- ∃ s1', (if ?c then _ else _) = _ ∧ _ => assert (Hc : c = false) end.
  { match goal with |- ?x && _ && _ = false => destruct x eqn:Hx end; [|done]. destruct (Htable eq_refl) as [H1 H2].
    by rewrite H1, H2 in Hengine. }
  rewrite Hc. eexists. split; [done|exact Hnew].
Qed.

Lemma weaker_loop a ts : ∀ s s' post,
  weaker s s' → policy_loop s (ts ++ post) = None → policy_loop s' (shift_token a <$> ts) = None.
Proof.
  induction ts as [|t ts IH]; intros s s' post Hw H; [done|]. cbn [app policy_loop fmap list_fmap] in *.
  destruct (policy_step s t) as [v|s1] eqn:E; [done|]. destruct (weaker_step a _ _ _ _ Hw E) as (s1' & -> & Hw').
  by apply (IH s1 s1' post).
Qed.

Lemma policy_part a pre mid post : policy_loop policy_start (pre ++ mid ++ post) = None →
  policy_loop policy_start (shift_token a <$> mid) = None.
Proof.
  generalize policy_start at 1 as s. induction pre as [|t pre IH]; intros s H.
  - eapply weaker_loop; [apply weaker_start|exact H].
  - cbn [app policy_loop] in H. destruct (policy_step s t); [done|]. by eapply IH.
Qed.

(** ** The ends of tokens and trimming *)

Lemma quoted_last s quote fuel : ∀ i stop, quoted_loop s quote fuel i = (stop, true) → s !! pred stop = Some quote.
Proof.
  induction fuel as [|fuel IH]; intros i stop H; cbn [quoted_loop] in H; [done|].
  destruct (s !! i) as [c|] eqn:Hc; [|done]. destruct (_ && (_ <? _)%nat); [by eapply IH|].
  case_bool_decide as Hq; [|by eapply IH]. case_bool_decide; [by eapply IH|]. injection H as <-. cbn. by subst c.
Qed.

Lemma continue_not_space c : isIdentifierContinue c || isNumberContinue c = true → isWhitespace c = false.
Proof. destruct c; done. Qed.

Lemma quote_not_space c : is_char c 39 || is_char c 34 || is_char c 96 = true → isWhitespace c = false.
Proof. destruct c; done. Qed.

Definition solid (s : bytes) (i : nat) : Prop := ∃ c, s !! i = Some c ∧ isWhitespace c = false.

Lemma scan_last s p st c :
  s !! st = Some c → isWhitespace c = false → (∀ d, p d = true → isWhitespace d = false) →
  solid s (pred (scan_while s p (length s) (S st))).
Proof.
  intros Hc Hw Hp. apply lookup_lt_Some in Hc as Hlt.
  pose proof (scan_while_bounds s p (length s) (S st) ltac:(lia)) as Hb.
  destruct (decide (scan_while s p (length s) (S st) = S st)) as [E|E]; [rewrite E; by exists c|].
  destruct (lookup_lt_is_Some_2 s (pred (scan_while s p (length s) (S st)))) as [d Hd]; [lia|].
  exists d. split; [done|]. apply Hp. eapply (scan_while_all s p (length s) (S st)); [|exact Hd]. lia.
Qed.

(** A closed token begins and ends with a character that is not white space. *)
Lemma next_solid s i t stop :
  (i ≤ length s)%nat → next s i = Some (t, stop) → solid s (Token.offset t) ∧ (Token.terminated t = true → solid s (pred stop)).
Proof.
  intros Hi H. pose proof (next_offset _ _ _ _ H) as Ho. unfold next in H.
  pose proof (trivia_stops s (S (length s)) i ltac:(lia) Hi) as Hst. fold (skipTrivia s i) in Hst. rewrite Ho in *.
  unfold starts_token in Hst. destruct (s !! Token.offset t) as [c|] eqn:Hc; [|done].
  rewrite !andb_true_iff, !negb_true_iff in Hst. destruct Hst as [[[Hw _] _] _].
  split; [by exists c|]. intros Hterm.
  destruct (isIdentifierStart c).
  { injection H as _ <-. eapply scan_last; [done|done|]. intros d Hd. apply continue_not_space. by rewrite Hd. }
  destruct (isDigit c).
  { injection H as _ <-. eapply scan_last; [done|done|]. intros d Hd. apply continue_not_space. by rewrite Hd, orb_true_r. }
  destruct (is_char c 39 || is_char c 34 || is_char c 96) eqn:Hq; [|injection H as _ <-; by exists c].
  unfold readQuoted in H. destruct (quoted_loop s c (length s) (S (Token.offset t))) as [e b] eqn:El.
  injection H as H1 <-. rewrite <- H1 in Hterm. cbn in Hterm. subst b. exists c. split; [by eapply quoted_last|done].
Qed.

(** [trim] takes white space off the end of a text that does not begin with any. *)
Lemma trim_left_spec w : ∃ x, w = x ++ trim_left w ∧ Forall (λ c, isWhitespace c = true) x.
Proof.
  induction w as [|c w IH]; [by exists []|]. cbn [trim_left]. destruct (isWhitespace c) eqn:E; [|by exists []].
  destruct IH as (x & Hx & Hf). exists (c :: x). cbn. split; [by f_equal|by constructor].
Qed.

Lemma trim_spec w : solid w 0 → ∃ z, w = trim w ++ z ∧ Forall (λ c, isWhitespace c = true) z.
Proof.
  intros (c & Hc & Hw). destruct w as [|c' w]; [done|]. injection Hc as ->. unfold trim. cbn [trim_left]. rewrite Hw.
  destruct (trim_left_spec (reverse (c :: w))) as (x & Hx & Hf). exists (reverse x). split; [|by apply Forall_reverse].
  rewrite <- reverse_app, <- Hx. by rewrite reverse_involutive.
Qed.

(** ** The tokens of a piece of a statement *)

Lemma tokens_suffix s pre : ∀ fuel i ts,
  (i ≤ length s)%nat → (length s < fuel + i)%nat → tokens_from s fuel i = pre ++ ts →
  ∃ fuel' j, (j ≤ length s)%nat ∧ (length s < fuel' + j)%nat ∧ tokens_from s fuel' j = ts.
Proof.
  induction pre as [|t pre IH]; intros fuel i ts Hi Hf H; [by eauto|].
  destruct fuel as [|fuel]; [lia|]. cbn [tokens_from app] in H. destruct (next s i) as [[t' stop]|] eqn:E; [|done].
  injection H as -> H. apply next_token in E as [? [? ?] _]; [|done]. apply (IH fuel stop); [lia|lia|done].
Qed.

Lemma skipTrivia_idle s i : (i ≤ length s)%nat → skipTrivia s (skipTrivia s i) = skipTrivia s i.
Proof.
  intros Hi. pose proof (trivia_stops s (S (length s)) i ltac:(lia) Hi) as H. fold (skipTrivia s i) in H.
  generalize dependent (skipTrivia s i). intros k H. unfold skipTrivia. cbn [trivia_loop]. unfold starts_token in H.
  destruct (s !! k) as [c|]; [|done]. rewrite !andb_true_iff, !negb_true_iff in H. by destruct H as [[[-> ->] ->] ->].
Qed.

Lemma tokens_at_token s fuel j t ts :
  (j ≤ length s)%nat → (length s < fuel + j)%nat → tokens_from s fuel j = t :: ts →
  tokens_from s fuel (Token.offset t) = t :: ts ∧ (j ≤ Token.offset t ≤ length s)%nat.
Proof.
  intros Hj Hf H. destruct fuel as [|fuel]; [lia|]. cbn [tokens_from] in *.
  destruct (next s j) as [[t' stop]|] eqn:E; [|done]. injection H as -> H.
  pose proof (next_offset _ _ _ _ E) as Ho. apply next_token in E as Ha; [|done]. destruct Ha as [Ha [Hb Hc] _].
  split; [|lia]. assert (next s (Token.offset t) = next s j) as ->; [|by rewrite E, H].
  unfold next. by rewrite <- Ho, skipTrivia_idle.
Qed.

Lemma tokens_solid s fuel : ∀ i t,
  (i ≤ length s)%nat → t ∈ tokens_from s fuel i →
  solid s (Token.offset t) ∧ (Token.terminated t = true → solid s (pred (Token.offset t + length (Token.lexeme t)))).
Proof.
  induction fuel as [|fuel IH]; intros i t Hi Ht; cbn [tokens_from] in Ht; [by apply elem_of_nil in Ht|].
  destruct (next s i) as [[t' stop]|] eqn:E; [|by apply elem_of_nil in Ht].
  apply next_token in E as Ha; [|done]. pose proof (ta_stop _ _ _ _ Ha). apply token_at_chained in Ha as (_ & _ & He & _).
  apply elem_of_cons in Ht as [->|Ht]; [rewrite He; by eapply next_solid|]. apply (IH stop); [lia|done].
Qed.

Lemma chained_before s mid post t : ∀ from,
  (from ≤ length s)%nat → chained s from (mid ++ post) → t ∈ mid →
  (Token.offset t + length (Token.lexeme t) ≤ tokens_start s post)%nat.
Proof.
  assert (Hstart : ∀ mid from, (from ≤ length s)%nat → chained s from (mid ++ post) → (from ≤ tokens_start s post)%nat).
  { intros m. induction m as [|u m IH]; intros from Hf H; cbn in H.
    - destruct post as [|u post]; cbn in *; [done|]. by destruct H.
    - destruct H as (H1 & _ & H2 & _ & H3). specialize (IH _ H2 H3). lia. }
  induction mid as [|u mid IH]; intros from Hf H Ht; [by apply elem_of_nil in Ht|]. cbn in H.
  destruct H as (_ & _ & H2 & _ & H3). apply elem_of_cons in Ht as [->|Ht]; [by eapply Hstart|by eapply IH].
Qed.

(** The piece from a token up to the next token that does not belong to it, trimmed. *)
Lemma trimmed_piece s a b :
  (a ≤ b ≤ length s)%nat → solid s a → (a < b)%nat →
  ∃ n, trim (slice s a b) = piece s a n ∧ (a + n ≤ b)%nat ∧
       (∀ j c, (a + n ≤ j < b)%nat → s !! j = Some c → isWhitespace c = true).
Proof.
  intros Hab (c & Hc & Hw) Hlt. assert (Hlook : ∀ j, (j < b - a)%nat → slice s a b !! j = s !! (a + j)%nat).
  { intros j Hj. unfold slice. rewrite lookup_take_lt by lia. by rewrite lookup_drop. }
  assert (Hl : length (slice s a b) = (b - a)%nat) by (apply slice_length; lia).
  destruct (trim_spec (slice s a b)) as (z & Hz & Hf).
  { exists c. rewrite Hlook, Nat.add_0_r by lia. done. }
  exists (length (trim (slice s a b))). pose proof (f_equal length Hz) as Hlz. rewrite length_app, Hl in Hlz.
  split_and!; [|lia|].
  - unfold piece. remember (length (trim (slice s a b))) as n eqn:Hn. unfold slice at 2.
    replace (a + n - a)%nat with n by lia. replace (take n (drop a s)) with (take n (slice s a b)).
    + rewrite Hz at 2. by rewrite Hn, take_app_length.
    + unfold slice. rewrite take_take. f_equal. lia.
  - intros j d Hj Hd. rewrite Forall_lookup in Hf. apply (Hf (j - a - length (trim (slice s a b)))%nat).
    assert (Hs : slice s a b !! (j - a)%nat = Some d) by (rewrite Hlook by lia; by replace (a + (j - a))%nat with j by lia).
    rewrite Hz, lookup_app_r in Hs by lia. done.
Qed.

Lemma tokens_start_le s fuel j mid post :
  (j ≤ length s)%nat → tokens_from s fuel j = mid ++ post → (tokens_start s post ≤ length s)%nat.
Proof.
  intros Hj H. destruct post as [|u post]; [done|]. cbn.
  destruct (tokens_solid s fuel j u Hj) as [(c & Hc & _) _].
  - rewrite H. apply list_elem_of_In, in_or_app. right. by left.
  - apply lookup_lt_Some in Hc. lia.
Qed.

Lemma tokenize_piece sql pre t mid post :
  tokenize sql = pre ++ (t :: mid) ++ post → Forall (λ t, Token.terminated t = true) (t :: mid) →
  tokenize (trim (slice sql (Token.offset t) (tokens_start sql post))) = shift_token (Token.offset t) <$> (t :: mid).
Proof.
  intros H Hterm. destruct (tokens_suffix sql pre (S (length sql)) 0 _ ltac:(lia) ltac:(lia) H) as (fuel & j & Hj & Hf & Hts).
  pose proof (tokens_start_le _ _ _ _ _ Hj Hts) as Hb.
  pose proof (tokens_chained sql fuel j Hj) as Hch. rewrite Hts in Hch.
  pose proof (λ u, tokens_solid sql fuel j u Hj) as Hsolid. rewrite Hts in Hsolid.
  assert (Hin : ∀ u, u ∈ t :: mid → u ∈ (t :: mid) ++ post) by (intros; apply elem_of_app; by left).
  assert (Hend : ∀ u, u ∈ t :: mid → (Token.offset u + length (Token.lexeme u) ≤ tokens_start sql post)%nat).
  { intros u Hu. by apply (chained_before sql (t :: mid) post u j). }
  assert (Hpos : (Token.offset t < tokens_start sql post)%nat).
  { specialize (Hend t (list_elem_of_here _ _)). cbn in Hch. destruct Hch as (_ & Hne & _). destruct (Token.lexeme t); [done|].
    cbn in Hend. lia. }
  destruct (tokens_at_token sql fuel j t (mid ++ post) Hj Hf Hts) as [Hat Ha].
  destruct (trimmed_piece sql (Token.offset t) (tokens_start sql post)) as (n & -> & Hn & Hspace); [lia| |done|].
  { apply Hsolid, Hin, list_elem_of_here. }
  unfold tokenize. rewrite piece_length by lia.
  apply (tokens_piece sql (Token.offset t) n ltac:(lia) (t :: mid) post fuel); rewrite ?Nat.add_0_r; [done| |lia|lia|lia].
  split; [done| |done|done]. apply Forall_forall. intros u Hu. rewrite Forall_forall in Hterm.
  destruct (Hsolid u (Hin u Hu)) as [_ Hlast]. destruct (Hlast (Hterm u Hu)) as (c & Hc & Hw).
  specialize (Hend u Hu). destruct (decide (Token.offset u + length (Token.lexeme u) ≤ Token.offset t + n)%nat); [done|].
  exfalso. rewrite (Hspace (pred (Token.offset u + length (Token.lexeme u))) c) in Hw; [done|lia|done].
Qed.

(** ** CREATE VIEW *)

Lemma run_bind_inv {E A B} (m : parsing E A) (k : A → parsing E B) ts y rest :
  run (m ≫= k) ts = Done y rest → ∃ x ts', run m ts = Done x ts' ∧ run (k x) ts' = Done y rest.
Proof. rewrite parse_bind. destruct (run m ts) as [x ts'| |]; [eauto|done|done]. Qed.

Lemma run_match_inv {E A} p (k1 k2 : parsing E A) ts x rest :
  run (match_token p ≫= λ b : bool, if b then k1 else k2) ts = Done x rest →
  (∃ t ts', ts = t :: ts' ∧ p t = true ∧ run k1 ts' = Done x rest) ∨ run k2 ts = Done x rest.
Proof. rewrite parse_bind. destruct ts as [|t ts]; cbn; [by right|]. destruct (p t) eqn:Ep; eauto 6. Qed.

Lemma first_match_inv sql kinds ts x rest :
  run (first_match sql kinds) ts = Done x rest →
  ∃ k follow t ts', (k, follow) ∈ kinds ∧ ts = t :: ts' ∧ Token.eqlIgnoreCase t (B k) = true ∧ run follow ts' = Done x rest.
Proof.
  induction kinds as [|[k follow] kinds IH]; cbn [first_match].
  - unfold failCurrent. rewrite parse_bind. cbn. by destruct (head ts).
  - intros [(t & ts' & -> & Ht & H)|H]%run_match_inv.
    + exists k, follow, t, ts'. split_and!; [apply list_elem_of_here|done|done|done].
    + destruct (IH H) as (k' & f' & t & ts' & Hin & ?). exists k', f', t, ts'. split; [by apply list_elem_of_further|done].
Qed.

(** Statements of another kind. *)
Lemma other_kind {A} (m : parser A) (c : A → Statement.t) ts v rest :
  (∀ x, c x ≠ Statement.create_view v) → run (s ← m; mret (c s)) ts ≠ Done (Statement.create_view v) rest.
Proof. intros Hc (x & ts' & _ & H)%run_bind_inv. injection H as H _. by apply (Hc x). Qed.

Lemma parseCreate_view sql ts v rest :
  run (parseCreate sql) ts = Done (Statement.create_view v) rest → ∃ w ts', ts = w :: ts' ∧ run (parseCreateView sql) ts' = Done v rest.
Proof.
  unfold parseCreate. intros [(t & ts' & -> & _ & H)|H]%run_match_inv; [exfalso; by apply other_kind in H|].
  apply run_match_inv in H as [(t & ts' & -> & _ & H)|H].
  - exists t, ts'. split; [done|]. apply run_bind_inv in H as (x & ts1 & H1 & H2). by injection H2 as -> ->.
  - exfalso. apply run_match_inv in H as [(t & ts' & -> & _ & H)|H]; [by apply other_kind in H|].
    unfold failCurrent in H. rewrite parse_bind in H. cbn in H. by destruct (head ts).
Qed.

Lemma parseDrop_view sql ts v rest : run (parseDrop sql) ts ≠ Done (Statement.create_view v) rest.
Proof.
  unfold parseDrop. intros [(t & ts' & -> & _ & H)|H]%run_match_inv; [by apply other_kind in H|].
  apply run_match_inv in H as [(t & ts' & -> & _ & H)|H]; [by apply other_kind in H|].
  apply run_match_inv in H as [(t & ts' & -> & _ & H)|H]; [by apply other_kind in H|].
  unfold failCurrent in H. rewrite parse_bind in H. cbn in H. by destruct (head ts).
Qed.

Lemma parseStatement_view sql ts v rest :
  run (parseStatement sql) ts = Done (Statement.create_view v) rest →
  ∃ c w ts', ts = c :: w :: ts' ∧ run (parseCreateView sql) ts' = Done v rest.
Proof.
  intros (k & follow & t & ts1 & Hin & -> & _ & H)%first_match_inv. unfold statement_kinds in Hin.
  apply elem_of_cons in Hin as [[= _ ->]|Hin].
  { apply parseCreate_view in H as (w & ts' & -> & H). eauto. }
  apply elem_of_cons in Hin as [[= _ ->]|Hin]; [by apply parseDrop_view in H|].
  do 5 (apply elem_of_cons in Hin as [[= _ ->]|Hin]; [by apply other_kind in H|]).
  do 3 (apply elem_of_cons in Hin as [[= _ ->]|Hin]; [done|]).
  apply elem_of_cons in Hin as [[= _ ->]|Hin]; [by apply other_kind in H|]. by apply elem_of_nil in Hin.
Qed.

Lemma run_expectKeyword_inv sql x ts r rest :
  run (expectKeyword sql x) ts = Done r rest → ∃ t, ts = t :: rest ∧ Token.eqlIgnoreCase t (B x) = true.
Proof.
  unfold expectKeyword. rewrite parse_bind. destruct ts as [|t ts]; cbn; [done|].
  destruct (Token.eqlIgnoreCase t (B x)) eqn:E; cbn; [|done]. intros [= _ <-]. eauto.
Qed.

Lemma run_identifier_inv sql x ts r rest : run (expectIdentifierOwned sql x) ts = Done r rest → ∃ t, ts = t :: rest.
Proof.
  unfold expectIdentifierOwned. intros (t & ts' & H & [= _ <-])%run_bind_inv.
  apply sound_expectIdentifierToken in H as (used & -> & -> & _). eauto.
Qed.

(** The tokens of a CREATE VIEW: its query is parsed from [mid], and its text begins at SELECT. *)
Lemma parseCreateView_inv sql ts v rest :
  run (parseCreateView sql) ts = Done v rest →
  ∃ n w t mid, ts = n :: w :: t :: mid ++ rest ∧ Token.eqlIgnoreCase t (B "SELECT") = true ∧
    run (parseSelectAfterSelect sql) (mid ++ rest) = Done (CreateView.query v) rest ∧
    CreateView.body_sql v = trim (slice sql (Token.offset t) (tokens_start sql rest)).
Proof.
  unfold parseCreateView. intros (name & ts1 & [n ->]%run_identifier_inv & H)%run_bind_inv.
  apply run_bind_inv in H as (u & ts2 & (w & -> & _)%run_expectKeyword_inv & H).
  apply run_bind_inv in H as (select_token & ts3 & Hpeek & H). cbn in Hpeek. injection Hpeek as <- <-.
  destruct ts2 as [|t ts2]; [done|]. cbn [head] in H.
  apply run_bind_inv in H as (u' & ts3 & (t' & Ht' & Hsel)%run_expectKeyword_inv & H). injection Ht' as <- <-.
  apply run_bind_inv in H as (q & ts4 & Hq & H). apply run_bind_inv in H as (stop & ts5 & Hpeek & H).
  cbn in Hpeek. injection Hpeek as <- <-. injection H as <- <-.
  destruct (cut_parseSelectAfterSelect 0 sql sql 0 _ _ _ Hq) as ([mid ->] & _ & _).
  exists n, w, t, mid. split_and!; [done|done|done|]. by destruct ts4.
Qed.

(** A SELECT on its own. *)
Lemma parseStatement_select sql t ts q rest :
  Token.eqlIgnoreCase t (B "SELECT") = true → run (parseSelectAfterSelect sql) ts = Done q rest →
  run (parseStatement sql) (t :: ts) = Done (Statement.select q) rest.
Proof.
  intros Ht H. unfold parseStatement, statement_kinds. cbn [first_match]. unfold matchKeyword.
  do 3 (rewrite run_match_false by (unfold head_not; by rewrite (keyword_other _ _ _ Ht))).
  rewrite run_match_true by done. by eapply parse_then.
Qed.

(** The text that CREATE VIEW stores of its query is parsed, on its own, as the very query that was registered. *)
Lemma view_text_again (sql : bytes) (v : CreateView.t) :
  parse sql = Some (inl (Statement.create_view v)) → Forall (λ t, Token.terminated t = true) (tokenize sql) →
  parse (CreateView.body_sql v) = Some (inl (Statement.select (CreateView.query v))).
Proof.
  unfold parse at 1. destruct (firstViolation sql) eqn:Hpolicy; [done|].
  destruct (run _ (tokenize sql)) as [s [|t0 r0]| |] eqn:Hrun; [|done|done|done]. intros [= ->] Hterm.
  apply run_bind_inv in Hrun as (s & ts1 & Hs & H).
  apply run_bind_inv in H as (u & ts2 & _ & H). injection H as -> _.
  apply parseStatement_view in Hs as (c & w & ts' & Hts & Hview).
  apply parseCreateView_inv in Hview as (n & w' & t & mid & -> & Ht & Hq & Hbody).
  assert (Htok : tokenize sql = [c; w; n; w'] ++ (t :: mid) ++ ts1) by (by rewrite Hts).
  assert (Hterm' : Forall (λ t, Token.terminated t = true) (t :: mid)).
  { rewrite Htok, !Forall_app in Hterm. tauto. }
  unfold parse, firstViolation. rewrite Hbody, (tokenize_piece sql _ t mid ts1 Htok Hterm').
  rewrite (policy_part (Token.offset t) [c; w; n; w'] (t :: mid) ts1) by (by rewrite <- Htok).
  cbn [fmap list_fmap].
  destruct (cut_parseSelectAfterSelect (Token.offset t) sql (CreateView.body_sql v) (S (length mid)) _ _ _ Hq)
    as (_ & _ & Hcut). specialize (Hcut mid ts1 [] eq_refl ltac:(lia) eq_refl). rewrite Hbody in Hcut.
  rewrite (run_done _ _ _ (Statement.select (CreateView.query v)) []); [done|].
  apply parseStatement_select; [done|exact Hcut].
Qed.
