(* ===== verification/Eval.v ===== *)
(** * Expression evaluation

    Models the scalar part of [src/src/db/executor.zig]: literals, arithmetic, comparisons, the vector
    distance functions, and the evaluation of an expression on a row of one table, which UPDATE and
    DELETE use.  [query_source.zig] repeats the value-level functions verbatim and they are shared
    here.  Integer arithmetic is checked ([Panic] on [i64] overflow). *)

From S2P Require Import Prelude Float Value Catalog RowStore VectorSearch Ast.

(** ** Comparison *)
Definition compareNumbers (left right : Z) : Z :=
  if left <? right then -1 else if right <? left then 1 else 0.

Definition compareFloats (left right : Z) : Z :=
  if f64_lt left right then -1 else if f64_gt left right then 1 else 0.

Definition compareOrdering (order : comparison) : Z :=
  match order with Lt => -1 | Eq => 0 | Gt => 1 end.

(** [std.mem.order(u8, l, r)] *)
Fixpoint bytes_order (l r : bytes) : comparison :=
  match l, r with
  | [], [] => Eq
  | [], _ :: _ => Lt
  | _ :: _, [] => Gt
  | a :: l', b :: r' =>
      match byte_val a ?= byte_val b with Eq => bytes_order l' r' | c => c end
  end.

Definition compareValues (left right : Value.t) : Result Z :=
  match left with
  | Value.null => match right with Value.null => Ok 0 | _ => Err TypeMismatch end
  | Value.integer l =>
      match right with
      | Value.integer r => Ok (compareNumbers l r)
      | Value.float r => Ok (compareFloats (f64_of_int l) r)
      | _ => Err TypeMismatch
      end
  | Value.float l =>
      match right with
      | Value.integer r => Ok (compareFloats l (f64_of_int r))
      | Value.float r => Ok (compareFloats l r)
      | _ => Err TypeMismatch
      end
  | Value.boolean l =>
      match right with
      | Value.boolean r => Ok (compareNumbers (Z.b2z l) (Z.b2z r))
      | _ => Err TypeMismatch
      end
  | Value.text l =>
      match right with
      | Value.text r => Ok (compareOrdering (bytes_order l r))
      | _ => Err TypeMismatch
      end
  | Value.blob _ | Value.vector _ => Err TypeMismatch
  end.

(** ** Arithmetic and operators *)
Inductive NumericOperator := num_add | num_subtract.

Definition int_op (operator : NumericOperator) (l r : Z) : Result Z :=
  checked_i64 (match operator with num_add => l + r | num_subtract => l - r end).

Definition float_op (operator : NumericOperator) (l r : Z) : Z :=
  match operator with num_add => f64_add l r | num_subtract => f64_sub l r end.

Definition evalNumericBinary (left right : Value.t) (operator : NumericOperator) : Result Value.t :=
  match left with
  | Value.integer l =>
      match right with
      | Value.integer r => v ← int_op operator l r; Ok (Value.integer v)
      | Value.float r => Ok (Value.float (float_op operator (f64_of_int l) r))
      | _ => Err TypeMismatch
      end
  | Value.float l =>
      match right with
      | Value.integer r => Ok (Value.float (float_op operator l (f64_of_int r)))
      | Value.float r => Ok (Value.float (float_op operator l r))
      | _ => Err TypeMismatch
      end
  | _ => Err TypeMismatch
  end.

(** The six comparison operators applied to a comparison result. *)
Definition comparison_holds (operator : BinaryOperator) (comparison : Z) : Result bool :=
  match operator with
  | equal => Ok (comparison =? 0)
  | not_equal => Ok (negb (comparison =? 0))
  | less_than => Ok (comparison <? 0)
  | less_equal => Ok (comparison <=? 0)
  | greater_than => Ok (0 <? comparison)
  | greater_equal => Ok (0 <=? comparison)
  | add | subtract | and_op => Panic
  end.

Definition evalBinaryValues (left right : Value.t) (operator : BinaryOperator) : Result Value.t :=
  match operator with
  | add => evalNumericBinary left right num_add
  | subtract => evalNumericBinary left right num_subtract
  | and_op =>
      match left, right with
      | Value.boolean l, Value.boolean r => Ok (Value.boolean (l && r))
      | _, _ => Err TypeMismatch
      end
  | _ =>
      comparison ← compareValues left right;
      b ← comparison_holds operator comparison;
      Ok (Value.boolean b)
  end.

Definition valueFromLiteral (literal : Literal.t) : Result Value.t :=
  match literal with
  | Literal.null => Ok Value.null
  | Literal.integer v => Ok (Value.integer v)
  | Literal.float v => Ok (Value.float v)
  | Literal.boolean v => Ok (Value.boolean v)
  | Literal.string v => Ok (Value.initText v)
  | Literal.vector components =>
      Value.initVector float32 (Z.of_nat (length components)) (f32_of_f64 <$> components)
  end.

Definition evalConstant (expression : Expression.t) : Result Value.t :=
  match expression with
  | Expression.literal l => valueFromLiteral l
  | _ => Err UnsupportedExpression
  end.

(** ** Vector functions *)
Inductive VectorDistanceFunction := fn_l2 | fn_squared_l2 | fn_cosine.

Definition isBuiltin (actual expected : bytes) : bool := eqlIgnoreCase actual expected.

(** The dispatch of [evalFunctionCall] on the function name. *)
Definition distanceFunction (name : bytes) : option VectorDistanceFunction :=
  if isBuiltin name (B "l2_distance") then Some fn_l2
  else if isBuiltin name (B "squared_l2_distance") then Some fn_squared_l2
  else if isBuiltin name (B "cosine_distance") then Some fn_cosine
  else None.

(** [evalVectorDistanceFunction] on its two evaluated arguments. *)
Definition vectorDistance (function : VectorDistanceFunction) (left right : Value.t) : Result Value.t :=
  match left, right with
  | Value.vector l, Value.vector r =>
      d ← match function with
          | fn_l2 => l2 (Vector.values l) (Vector.values r)
          | fn_squared_l2 => squaredL2 (Vector.values l) (Vector.values r)
          | fn_cosine => cosineDistance (Vector.values l) (Vector.values r)
          end;
      Ok (Value.float d)
  | _, _ => Err TypeMismatch
  end.

(** ** Evaluation on a row

    [resolve] gives the value of an identifier; the executor resolves it in one table, the query
    source in a row set, and both evaluate everything else alike. *)
Section eval.
Context (resolve : bytes → Result Value.t).

Fixpoint evalWith (expression : Expression.t) : Result Value.t :=
  match expression with
  | Expression.literal l => valueFromLiteral l
  | Expression.identifier n => resolve n
  | Expression.binary e1 operator e2 =>
      l ← evalWith e1;
      r ← evalWith e2;
      evalBinaryValues l r operator
  | Expression.function_call name args =>
      function ← orelse (distanceFunction name) UnsupportedExpression;
      match args with
      | [a; b] =>
          l ← evalWith a;
          r ← evalWith b;
          vectorDistance function l r
      | _ => Err UnsupportedExpression
      end
  | Expression.star => Err UnsupportedExpression
  end.
End eval.

Definition resolveColumn (table : TableDef.t) (row : Row.t) (identifier : bytes) : Result Value.t :=
  index ← orelse (TableDef.columnIndex table identifier) UnknownColumn;
  v ← item_at (Row.values row) index;
  Value.clone v.

Definition evalExpression (table : TableDef.t) (row : Row.t) (expression : Expression.t) : Result Value.t :=
  evalWith (resolveColumn table row) expression.

(** [result != .boolean] check of the WHERE and HAVING results *)
Definition expect_boolean (v : Value.t) : Result bool :=
  match v with Value.boolean b => Ok b | _ => Err TypeMismatch end.

Definition matchesWhere (table : TableDef.t) (row : Row.t) (where_clause : option Expression.t) : Result bool :=
  match where_clause with
  | None => Ok true
  | Some clause => v ← evalExpression table row clause; expect_boolean v
  end.

(** ** Comparison is a preorder on comparable values *)
Lemma compareNumbers_opp l r : compareNumbers r l = - compareNumbers l r.
Proof. unfold compareNumbers. destruct (Z.ltb_spec l r), (Z.ltb_spec r l); lia. Qed.

Lemma f64_lt_asym l r : f64_lt l r = true → f64_lt r l = false.
Proof.
  intros H. destruct (f64_lt r l) eqn:H'; [|done].
  destruct (is_nan binary64 l) eqn:Hl.
  { revert H. unfold f64_lt, is_nan in *. destruct (decode_float binary64 l); done. }
  destruct (is_nan binary64 r) eqn:Hr.
  { revert H. unfold f64_lt, is_nan in *. destruct (decode_float binary64 r), (decode_float binary64 l) as [|[]| |]; done. }
  apply f64_lt_rank in H, H'; try done. unfold lex3 in *. lia.
Qed.

Lemma compareFloats_opp l r : compareFloats r l = - compareFloats l r.
Proof.
  unfold compareFloats, f64_gt. destruct (f64_lt l r) eqn:H.
  - by rewrite (f64_lt_asym _ _ H).
  - by destruct (f64_lt r l).
Qed.

Lemma bytes_order_antisym l r : bytes_order r l = CompOpp (bytes_order l r).
Proof.
  revert r. induction l as [|a l IH]; intros [|b r]; simpl; try done.
  rewrite (Z.compare_antisym (byte_val a)). destruct (byte_val a ?= byte_val b); simpl; auto.
Qed.

Lemma bytes_order_eq l r : bytes_order l r = Eq ↔ l = r.
Proof.
  split.
  - revert r. induction l as [|a l IH]; intros [|b r]; simpl; try done.
    destruct (Z.compare_spec (byte_val a) (byte_val b)) as [E| |]; try done.
    intros H. apply byte_val_inj in E. apply IH in H. congruence.
  - intros ->. induction r as [|b r IH]; simpl; [done|]. by rewrite Z.compare_refl.
Qed.

Lemma compareOrdering_opp c : compareOrdering (CompOpp c) = - compareOrdering c.
Proof. by destruct c. Qed.

#[local] Opaque compareNumbers compareFloats compareOrdering f64_of_int.

Lemma compareValues_opp l r : compareValues r l = (Z.opp <$> compareValues l r).
Proof.
  destruct l, r; cbn -[Z.opp]; try reflexivity; f_equal;
    first [apply compareNumbers_opp | apply compareFloats_opp | rewrite bytes_order_antisym; apply compareOrdering_opp].
Qed.

#[local] Transparent compareNumbers compareFloats compareOrdering f64_of_int.
