(* ===== verification/QuerySource.v ===== *)
(** * SELECT execution

    Models [src/src/db/query_source.zig] and [aggregate.zig]: row sources (tables, views, common table
    expressions, derived tables, joins), filtering, grouping, ordering, limits and projection.  The
    [Context] callbacks [load_base_table] and [find_view] are the two functions the executor supplies.

    The recursion through views and common table expressions is not structural, so the source
    functions take [fuel] and return [None] only when it runs out; [QueryFacts.v] shows that the fuel
    [executeSelect] passes is always enough. *)

From S2P Require Import Prelude Float Value Catalog RowStore VectorSearch Ast Eval.

(** ** aggregate.zig *)
Module Function.
Inductive t := count | sum | avg | min | max.
End Function.

#[global] Instance Function_eq_dec : EqDecision Function.t.
Proof. solve_decision. Defined.

Definition functionForName (name : bytes) : option Function.t :=
  if eqlIgnoreCase name (B "COUNT") then Some Function.count
  else if eqlIgnoreCase name (B "SUM") then Some Function.sum
  else if eqlIgnoreCase name (B "AVG") then Some Function.avg
  else if eqlIgnoreCase name (B "MIN") then Some Function.min
  else if eqlIgnoreCase name (B "MAX") then Some Function.max
  else None.

Fixpoint expressionContainsAggregate (expression : Expression.t) : bool :=
  match expression with
  | Expression.function_call name args =>
      bool_decide (is_Some (functionForName name)) || existsb expressionContainsAggregate args
  | Expression.binary l _ r => expressionContainsAggregate l || expressionContainsAggregate r
  | Expression.star | Expression.identifier _ | Expression.literal _ => false
  end.

(** ** Data *)
Module ResultSet.
Record t := mk { columns : list bytes; rows : list (list Value.t) }.
End ResultSet.

Module BaseTable.
Record t := mk { name : bytes; columns : list ColumnDef.t; rows : list Row.t }.
End BaseTable.

Module ColumnBinding.
Record t := mk { name : bytes; labels : list bytes }.

Definition hasLabel (self : t) (label : bytes) : bool :=
  existsb (λ candidate, eqlIgnoreCase candidate label) (labels self).
End ColumnBinding.

Module RowSet.
Record t := mk { columns : list ColumnBinding.t; rows : list (list Value.t) }.
End RowSet.

Module ProjectionItem.
Record t := mk { expression : Expression.t; alias : option bytes }.
End ProjectionItem.

Module Group.
Record t := mk { keys : list Value.t; row_indices : list nat }.
End Group.

(** ** Names *)
Definition column_matches (parts : IdentifierParts.t) (column : ColumnBinding.t) : bool :=
  eqlIgnoreCase (ColumnBinding.name column) (IdentifierParts.name parts)
  && match IdentifierParts.qualifier parts with
     | Some qualifier => ColumnBinding.hasLabel column qualifier
     | None => true
     end.

(** The matching column positions, in order. *)
Definition matching_columns (row_set : RowSet.t) (identifier : bytes) : list nat :=
  let parts := identifierParts identifier in
  omap (λ '(index, column), if column_matches parts column then Some index else None)
       (imap pair (RowSet.columns row_set)).

Definition validateIdentifier (row_set : RowSet.t) (identifier : bytes) : Result () :=
  match matching_columns row_set identifier with
  | [] => Err UnknownColumn
  | [_] => Ok ()
  | _ => Err AmbiguousColumn
  end.

Definition resolveIdentifier (row_set : RowSet.t) (row : list Value.t) (identifier : bytes) : Result Value.t :=
  match matching_columns row_set identifier with
  | [] => Err UnknownColumn
  | [index] => v ← item_at row index; Value.clone v
  | _ => Err AmbiguousColumn
  end.

Definition evalRow (row_set : RowSet.t) (row : list Value.t) (expression : Expression.t) : Result Value.t :=
  evalWith (resolveIdentifier row_set row) expression.

Fixpoint validateExpression (row_set : RowSet.t) (expression : Expression.t) : Result () :=
  match expression with
  | Expression.star | Expression.literal _ => Ok ()
  | Expression.identifier identifier => validateIdentifier row_set identifier
  | Expression.binary l _ r =>
      _ ← validateExpression row_set l;
      validateExpression row_set r
  | Expression.function_call name args =>
      _ ← fail_if (bool_decide (distanceFunction name = None)) UnsupportedExpression;
      match args with
      | [a; b] => _ ← validateExpression row_set a; validateExpression row_set b
      | _ => Err UnsupportedExpression
      end
  end.

Definition rowMatchesWhere (row_set : RowSet.t) (row : list Value.t) (where_clause : option Expression.t)
    : Result bool :=
  match where_clause with
  | None => Ok true
  | Some clause => v ← evalRow row_set row clause; expect_boolean v
  end.

(** ** Projections *)
Definition projectionItems (statement : SelectStatement) : list ProjectionItem.t :=
  let '(Select _ projection_items projections _ _ _ _ _ _ _) := statement in
  match projection_items with
  | [] => (λ e, ProjectionItem.mk e None) <$> projections
  | _ => (λ p, ProjectionItem.mk (Projection.expression p) (Projection.alias p)) <$> projection_items
  end.

Definition projectionName (projection : ProjectionItem.t) : bytes :=
  match ProjectionItem.alias projection with
  | Some alias => alias
  | None =>
      match ProjectionItem.expression projection with
      | Expression.identifier identifier => IdentifierParts.name (identifierParts identifier)
      | Expression.function_call name _ => name
      | Expression.literal _ => B "literal"
      | Expression.binary _ _ _ => B "expression"
      | Expression.star => B "*"
      end
  end.

Definition isStarProjection (projections : list ProjectionItem.t) : bool :=
  match projections with
  | [p] => match ProjectionItem.expression p with Expression.star => true | _ => false end
  | _ => false
  end.

Definition resultColumns (row_set : RowSet.t) (projections : list ProjectionItem.t) : list bytes :=
  if isStarProjection projections then ColumnBinding.name <$> RowSet.columns row_set
  else projectionName <$> projections.

Definition projectRow (row_set : RowSet.t) (row : list Value.t) (projections : list ProjectionItem.t)
    : Result (list Value.t) :=
  if isStarProjection projections then cloneValues row
  else mapR (λ p, evalRow row_set row (ProjectionItem.expression p)) projections.

(** ** Ordering *)

(** [projection.alias] is present and equals [name] up to case *)
Definition aliased_as (name : bytes) (p : ProjectionItem.t) : bool :=
  match ProjectionItem.alias p with Some alias => eqlIgnoreCase alias name | None => false end.

(** The loop over the projections that looks for an alias: [AmbiguousColumn] on the second match. *)
Definition findAlias (projections : list ProjectionItem.t) (name : bytes) : Result (option Expression.t) :=
  foldM (λ found p,
    if aliased_as name p then
      match found with
      | Some _ => Err AmbiguousColumn
      | None => Ok (Some (ProjectionItem.expression p))
      end
    else Ok found) None projections.

(** The expression ORDER BY stands for: the projection behind an unqualified alias, or itself. *)
Definition orderTarget (expression : Expression.t) (projections : list ProjectionItem.t) : Result Expression.t :=
  match expression with
  | Expression.identifier identifier =>
      let parts := identifierParts identifier in
      match IdentifierParts.qualifier parts with
      | None => found ← findAlias projections (IdentifierParts.name parts); Ok (default expression found)
      | Some _ => Ok expression
      end
  | _ => Ok expression
  end.

Definition validateOrderExpression (row_set : RowSet.t) (expression : Expression.t)
    (projections : list ProjectionItem.t) : Result () :=
  target ← orderTarget expression projections;
  validateExpression row_set target.

Definition evalOrderExpression (row_set : RowSet.t) (row : list Value.t) (expression : Expression.t)
    (projections : list ProjectionItem.t) : Result Value.t :=
  target ← orderTarget expression projections;
  evalRow row_set row target.

Definition validateSelect (row_set : RowSet.t) (statement : SelectStatement) (projections : list ProjectionItem.t)
    : Result () :=
  let '(Select _ _ _ _ _ where_clause _ _ order_by _) := statement in
  _ ← foldM (λ _ p, validateExpression row_set (ProjectionItem.expression p)) () projections;
  _ ← match where_clause with Some e => validateExpression row_set e | None => Ok () end;
  foldM (λ _ o, validateOrderExpression row_set (OrderKey.expression o) projections) () order_by.

(** The comparison loop of [rowComesAfter] and [groupComesAfter]; [eval] gives a key's two values. *)
Fixpoint comesAfter (eval : Expression.t → Result (Value.t * Value.t)) (order_by : list OrderKey.t) : Result bool :=
  match order_by with
  | [] => Ok false
  | order :: rest =>
      vs ← eval (OrderKey.expression order);
      comparison ← compareValues vs.1 vs.2;
      if comparison =? 0 then comesAfter eval rest
      else Ok (match OrderKey.direction order with asc => 0 <? comparison | desc => comparison <? 0 end)
  end.

Definition rowComesAfter (row_set : RowSet.t) (l r : list Value.t) (order_by : list OrderKey.t)
    (projections : list ProjectionItem.t) : Result bool :=
  comesAfter (λ e,
    lv ← evalOrderExpression row_set l e projections;
    rv ← evalOrderExpression row_set r e projections;
    Ok (lv, rv)) order_by.

(** The inner [while (j > 0 and try ...) : (j -= 1)] loop of the insertion sorts. *)
Fixpoint siftM {A} (after : A → A → Result bool) (items : list A) (j : nat) : Result (list A) :=
  match j with
  | O => Ok items
  | S j' =>
      a ← item_at items j';
      b ← item_at items j;
      c ← after a b;
      if c : bool then siftM after (swap items j' j) j' else Ok items
  end.

Definition insertionSort {A} (after : A → A → Result bool) (items : list A) : Result (list A) :=
  foldM (siftM after) items (seq 1 (length items - 1)).

Definition sortIndices (row_set : RowSet.t) (indices : list nat) (order_by : list OrderKey.t)
    (projections : list ProjectionItem.t) : Result (list nat) :=
  if (length order_by =? 0)%nat || (length indices <? 2)%nat then Ok indices
  else insertionSort (λ i j,
         l ← item_at (RowSet.rows row_set) i;
         r ← item_at (RowSet.rows row_set) j;
         rowComesAfter row_set l r order_by projections) indices.

(** [for (rows, 0..) |row, index| if (p(row)) append(index)] *)
Definition filterIndices {A} (p : A → Result bool) (items : list A) : Result (list nat) :=
  foldM (λ kept '(index, item), b ← p item; Ok (if b : bool then kept ++ [index] else kept)) [] (imap pair items).

(** [@min(limit, len)] or all of them *)
Definition row_limit (limit : option Z) (len : nat) : nat :=
  match limit with Some limit => Z.to_nat (Z.min limit (Z.of_nat len)) | None => len end.

(** ** Grouping and aggregates *)
Fixpoint expressionsEqual (l r : Expression.t) : bool :=
  match l, r with
  | Expression.star, Expression.star => true
  | Expression.identifier a, Expression.identifier b => eqlIgnoreCase a b
  | Expression.literal a, Expression.literal b =>
      match a, b with
      | Literal.null, Literal.null => true
      | Literal.integer x, Literal.integer y => x =? y
      | Literal.float x, Literal.float y => f64_eq x y
      | Literal.boolean x, Literal.boolean y => bool_decide (x = y)
      | Literal.string x, Literal.string y => bool_decide (x = y)
      | Literal.vector x, Literal.vector y =>
          (length x =? length y)%nat && forallb (λ '(a, b), f64_eq a b) (zip x y)
      | _, _ => false
      end
  | Expression.function_call n args, Expression.function_call n' args' =>
      eqlIgnoreCase n n' &&
      (fix all (xs ys : list Expression.t) : bool :=
         match xs, ys with
         | [], [] => true
         | x :: xs', y :: ys' => expressionsEqual x y && all xs' ys'
         | _, _ => false
         end) args args'
  | Expression.binary a op b, Expression.binary a' op' b' =>
      bool_decide (op = op') && expressionsEqual a a' && expressionsEqual b b'
  | _, _ => false
  end.

Definition expressionMatchesGroupBy (expression : Expression.t) (group_by : list Expression.t) : bool :=
  existsb (λ group_key, expressionsEqual expression group_key) group_by.

(** [null] when two projections carry the alias. *)
Definition projectionAliasExpression (expression : Expression.t) (projections : list ProjectionItem.t)
    : option Expression.t :=
  match expression with
  | Expression.identifier identifier =>
      let parts := identifierParts identifier in
      match IdentifierParts.qualifier parts with
      | Some _ => None
      | None =>
          match filter (λ p, aliased_as (IdentifierParts.name parts) p = true) projections with
          | [p] => Some (ProjectionItem.expression p)
          | _ => None
          end
      end
  | _ => None
  end.

Definition validateAggregateCall (row_set : RowSet.t) (name : bytes) (args : list Expression.t) : Result () :=
  function ← orelse (functionForName name) UnsupportedExpression;
  match args with
  | [arg] =>
      _ ← fail_if (expressionContainsAggregate arg) InvalidGrouping;
      match arg with
      | Expression.star => if bool_decide (function = Function.count) then Ok () else Err UnsupportedExpression
      | _ => validateExpression row_set arg
      end
  | _ => Err UnsupportedExpression
  end.

(** [validateGroupedExpression]; [aliased] is the alias lookup, which gives nothing when
    [allow_alias] is false. *)
Fixpoint validateGroupedWith (aliased : Expression.t → option (Result ())) (row_set : RowSet.t)
    (group_by : list Expression.t) (expression : Expression.t) : Result () :=
  match aliased expression with
  | Some r => r
  | None =>
      match expression with
      | Expression.literal _ => Ok ()
      | Expression.star => Err InvalidGrouping
      | Expression.identifier _ =>
          _ ← fail_if (negb (expressionMatchesGroupBy expression group_by)) InvalidGrouping;
          validateExpression row_set expression
      | Expression.binary l _ r =>
          _ ← validateGroupedWith aliased row_set group_by l;
          validateGroupedWith aliased row_set group_by r
      | Expression.function_call name args =>
          if bool_decide (is_Some (functionForName name)) then validateAggregateCall row_set name args
          else
            _ ← fail_if (negb (expressionMatchesGroupBy expression group_by)) InvalidGrouping;
            validateExpression row_set expression
      end
  end.

Definition validateGroupedExpression (row_set : RowSet.t) (group_by : list Expression.t)
    (projections : list ProjectionItem.t) (expression : Expression.t) (allow_alias : bool) : Result () :=
  validateGroupedWith
    (λ e, if allow_alias
          then validateGroupedWith (λ _, None) row_set group_by <$> projectionAliasExpression e projections
          else None)
    row_set group_by expression.

Definition validateAggregateSelect (row_set : RowSet.t) (statement : SelectStatement)
    (projections : list ProjectionItem.t) : Result () :=
  let '(Select _ _ _ _ _ where_clause group_by having order_by _) := statement in
  _ ← fail_if (isStarProjection projections) InvalidGrouping;
  _ ← foldM (λ _ group_key,
        _ ← fail_if (expressionContainsAggregate group_key) InvalidGrouping;
        validateExpression row_set group_key) () group_by;
  _ ← match where_clause with Some e => validateExpression row_set e | None => Ok () end;
  _ ← foldM (λ _ p, validateGroupedExpression row_set group_by projections (ProjectionItem.expression p) false)
        () projections;
  _ ← match having with
      | Some e => validateGroupedExpression row_set group_by projections e true
      | None => Ok ()
      end;
  foldM (λ _ o, validateGroupedExpression row_set group_by projections (OrderKey.expression o) true) () order_by.

(** A failing comparison counts as "not equal". *)
Definition valuesEquivalent (l r : Value.t) : Result bool :=
  if Value.is_null l || Value.is_null r then Ok (Value.is_null l && Value.is_null r)
  else match compareValues l r with Ok comparison => Ok (comparison =? 0) | Err _ => Ok false | Panic => Panic end.

Fixpoint keysEqualFrom (l r : list Value.t) : Result bool :=
  match l, r with
  | a :: l', b :: r' => e ← valuesEquivalent a b; if e : bool then keysEqualFrom l' r' else Ok false
  | _, _ => Ok true
  end.

Definition groupKeysEqual (l r : list Value.t) : Result bool :=
  if negb (length l =? length r)%nat then Ok false else keysEqualFrom l r.

Fixpoint findGroupFrom (groups : list Group.t) (keys : list Value.t) (index : nat) : Result (option nat) :=
  match groups with
  | [] => Ok None
  | group :: rest =>
      e ← groupKeysEqual (Group.keys group) keys;
      if e : bool then Ok (Some index) else findGroupFrom rest keys (S index)
  end.

Definition findGroup (groups : list Group.t) (keys : list Value.t) : Result (option nat) := findGroupFrom groups keys 0.

Definition evalGroupKeys (row_set : RowSet.t) (row : list Value.t) (group_by : list Expression.t)
    : Result (list Value.t) := mapR (evalRow row_set row) group_by.

(** One iteration of the loop of [buildGroups]. *)
Definition addToGroup (row_set : RowSet.t) (group_by : list Expression.t) (groups : list Group.t) (row_index : nat)
    : Result (list Group.t) :=
  row ← item_at (RowSet.rows row_set) row_index;
  keys ← evalGroupKeys row_set row group_by;
  found ← findGroup groups keys;
  match found with
  | Some i =>
      Ok (alter (λ g, Group.mk (Group.keys g) (Group.row_indices g ++ [row_index])) i groups)
  | None => Ok (groups ++ [Group.mk keys [row_index]])
  end.

Definition buildGroups (row_set : RowSet.t) (filtered_indices : list nat) (group_by : list Expression.t)
    : Result (list Group.t) :=
  match group_by with
  | [] => Ok [Group.mk [] filtered_indices]
  | _ => foldM (addToGroup row_set group_by) [] filtered_indices
  end.

Definition numericAsFloat (runtime_value : Value.t) : Result Z :=
  match runtime_value with
  | Value.integer v => Ok (f64_of_int v)
  | Value.float v => Ok v
  | _ => Err TypeMismatch
  end.

(** One iteration of the loop of [evalAggregateCall] over the state [(count, sum, best)]. *)
Definition accumulate (function : Function.t) (st : Z * Z * option Value.t) (runtime_value : Value.t)
    : Result (Z * Z * option Value.t) :=
  let '(count, sum, best) := st in
  if Value.is_null runtime_value then Ok st
  else match function with
       | Function.count => Ok (count + 1, sum, best)
       | Function.sum | Function.avg =>
           x ← numericAsFloat runtime_value;
           Ok (count + 1, f64_add sum x, best)
       | Function.min | Function.max =>
           match best with
           | Some owned =>
               comparison ← compareValues runtime_value owned;
               let replace := match function with Function.min => comparison <? 0 | _ => 0 <? comparison end in
               if replace : bool then (v ← Value.clone runtime_value; Ok (count, sum, Some v)) else Ok st
           | None => v ← Value.clone runtime_value; Ok (count, sum, Some v)
           end
       end.

Definition evalAggregateCall (row_set : RowSet.t) (group : Group.t) (name : bytes) (args : list Expression.t)
    : Result Value.t :=
  function ← orelse (functionForName name) UnsupportedExpression;
  match args with
  | [arg] =>
      match arg, function with
      | Expression.star, Function.count =>
          n ← checked_i64 (Z.of_nat (length (Group.row_indices group))); Ok (Value.integer n)
      | Expression.star, _ => Err UnsupportedExpression
      | _, _ =>
          st ← foldM (λ st row_index,
                 row ← item_at (RowSet.rows row_set) row_index;
                 v ← evalRow row_set row arg;
                 accumulate function st v) (0, f64_zero, None) (Group.row_indices group);
          let '(count, sum, best) := st in
          match function with
          | Function.count => n ← checked_i64 count; Ok (Value.integer n)
          | Function.sum => Ok (if count =? 0 then Value.null else Value.float sum)
          | Function.avg => Ok (if count =? 0 then Value.null else Value.float (f64_div sum (f64_of_int count)))
          | Function.min | Function.max => Ok (default Value.null best)
          end
      end
  | _ => Err UnsupportedExpression
  end.

Definition evalRepresentativeExpression (row_set : RowSet.t) (group : Group.t) (expression : Expression.t)
    : Result Value.t :=
  match Group.row_indices group with
  | [] => Err InvalidGrouping
  | first :: _ => row ← item_at (RowSet.rows row_set) first; evalRow row_set row expression
  end.

(** [evalGroupedExpression], [evalGroupedBinary]; [aliased] as for the validation. *)
Fixpoint evalGroupedWith (aliased : Expression.t → option (Result Value.t)) (row_set : RowSet.t)
    (group_by : list Expression.t) (group : Group.t) (expression : Expression.t) : Result Value.t :=
  match aliased expression with
  | Some r => r
  | None =>
      match expression with
      | Expression.literal l => valueFromLiteral l
      | Expression.star => Err InvalidGrouping
      | Expression.identifier _ =>
          _ ← fail_if (negb (expressionMatchesGroupBy expression group_by)) InvalidGrouping;
          evalRepresentativeExpression row_set group expression
      | Expression.binary e1 operator e2 =>
          l ← evalGroupedWith aliased row_set group_by group e1;
          r ← evalGroupedWith aliased row_set group_by group e2;
          evalBinaryValues l r operator
      | Expression.function_call name args =>
          if bool_decide (is_Some (functionForName name)) then evalAggregateCall row_set group name args
          else
            _ ← fail_if (negb (expressionMatchesGroupBy expression group_by)) InvalidGrouping;
            evalRepresentativeExpression row_set group expression
      end
  end.

Definition evalGroupedExpression (row_set : RowSet.t) (group : Group.t) (group_by : list Expression.t)
    (projections : list ProjectionItem.t) (expression : Expression.t) (allow_alias : bool) : Result Value.t :=
  evalGroupedWith
    (λ e, if allow_alias
          then evalGroupedWith (λ _, None) row_set group_by group <$> projectionAliasExpression e projections
          else None)
    row_set group_by group expression.

Definition groupMatchesHaving (row_set : RowSet.t) (group : Group.t) (group_by : list Expression.t)
    (having : option Expression.t) (projections : list ProjectionItem.t) : Result bool :=
  match having with
  | None => Ok true
  | Some e => v ← evalGroupedExpression row_set group group_by projections e true; expect_boolean v
  end.

Definition groupComesAfter (row_set : RowSet.t) (l r : Group.t) (group_by : list Expression.t)
    (order_by : list OrderKey.t) (projections : list ProjectionItem.t) : Result bool :=
  comesAfter (λ e,
    lv ← evalGroupedExpression row_set l group_by projections e true;
    rv ← evalGroupedExpression row_set r group_by projections e true;
    Ok (lv, rv)) order_by.

Definition sortGroupIndices (row_set : RowSet.t) (groups : list Group.t) (indices : list nat)
    (group_by : list Expression.t) (order_by : list OrderKey.t) (projections : list ProjectionItem.t)
    : Result (list nat) :=
  if (length order_by =? 0)%nat || (length indices <? 2)%nat then Ok indices
  else insertionSort (λ i j,
         l ← item_at groups i;
         r ← item_at groups j;
         groupComesAfter row_set l r group_by order_by projections) indices.

Definition projectGroup (row_set : RowSet.t) (group : Group.t) (group_by : list Expression.t)
    (projections : list ProjectionItem.t) : Result (list Value.t) :=
  mapR (λ p, evalGroupedExpression row_set group group_by projections (ProjectionItem.expression p) false) projections.

Definition isAggregateSelect (statement : SelectStatement) (projections : list ProjectionItem.t) : bool :=
  let '(Select _ _ _ _ _ _ group_by having order_by _) := statement in
  negb (length group_by =? 0)%nat || bool_decide (is_Some having)
  || existsb (λ p, expressionContainsAggregate (ProjectionItem.expression p)) projections
  || existsb (λ o, expressionContainsAggregate (OrderKey.expression o)) order_by.

Definition executeAggregateSelect (row_set : RowSet.t) (filtered_indices : list nat) (statement : SelectStatement)
    (projections : list ProjectionItem.t) : Result ResultSet.t :=
  let '(Select _ _ _ _ _ _ group_by having order_by limit) := statement in
  _ ← validateAggregateSelect row_set statement projections;
  groups ← buildGroups row_set filtered_indices group_by;
  accepted ← filterIndices (λ g, groupMatchesHaving row_set g group_by having projections) groups;
  accepted ← sortGroupIndices row_set groups accepted group_by order_by projections;
  rows ← mapR (λ i, g ← item_at groups i; projectGroup row_set g group_by projections)
              (take (row_limit limit (length accepted)) accepted);
  Ok (ResultSet.mk (resultColumns row_set projections) rows).

(** [executeSelectScoped] once the row source has been evaluated. *)
Definition selectFrom (row_set : RowSet.t) (statement : SelectStatement) : Result ResultSet.t :=
  let '(Select _ _ _ _ _ where_clause _ _ order_by limit) := statement in
  filtered ← filterIndices (λ row, rowMatchesWhere row_set row where_clause) (RowSet.rows row_set);
  let projections := projectionItems statement in
  if isAggregateSelect statement projections
  then executeAggregateSelect row_set filtered statement projections
  else
    _ ← validateSelect row_set statement projections;
    sorted ← sortIndices row_set filtered order_by projections;
    rows ← mapR (λ i, row ← item_at (RowSet.rows row_set) i; projectRow row_set row projections)
                (take (row_limit limit (length sorted)) sorted);
    Ok (ResultSet.mk (resultColumns row_set projections) rows).

(** ** Row sources *)
Section sources.
Context (load_base_table : bytes → Result BaseTable.t).
Context (find_view : bytes → option SelectStatement).

Definition sourceLabels (source_name : bytes) (alias : option bytes) : list bytes :=
  match alias with Some source_alias => [source_alias; source_name] | None => [source_name] end.

Definition rowSetFromBaseTable (table : BaseTable.t) (alias : option bytes) : Result RowSet.t :=
  let labels := sourceLabels (BaseTable.name table) alias in
  rows ← mapR (λ row, cloneValues (Row.values row)) (BaseTable.rows table);
  Ok (RowSet.mk ((λ c, ColumnBinding.mk (ColumnDef.name c) labels) <$> BaseTable.columns table) rows).

Definition rowSetFromResult (result : ResultSet.t) (source_name : bytes) (alias : option bytes) : Result RowSet.t :=
  let labels := sourceLabels source_name alias in
  rows ← mapR cloneValues (ResultSet.rows result);
  Ok (RowSet.mk ((λ c, ColumnBinding.mk c labels) <$> ResultSet.columns result) rows).

(** A [CteScope] and its parents, innermost first. *)
Abbreviation CteScope := (list (list CommonTableExpression)).

(** The CTE found, with the scope its query runs in: the CTEs defined before it, then the
    parents of its scope. *)
Fixpoint findCte (scope : CteScope) (name : bytes) : option (SelectStatement * CteScope) :=
  match scope with
  | [] => None
  | ctes :: parent =>
      match find_index (λ '(Cte n _), eqlIgnoreCase n name) ctes with
      | Some index =>
          '(Cte _ query) ← ctes !! index;
          Some (query, take index ctes :: parent)
      | None => findCte parent name
      end
  end.

Definition concatColumns (l r : list ColumnBinding.t) : list ColumnBinding.t := l ++ r.

Definition concatRows (l r : list Value.t) : Result (list Value.t) :=
  l' ← cloneValues l; r' ← cloneValues r; Ok (l' ++ r').

Definition concatRowWithNulls (l : list Value.t) (null_count : nat) : Result (list Value.t) :=
  l' ← cloneValues l; Ok (l' ++ replicate null_count Value.null).

(** The inner loop of [executeJoinSource]: the combinations of one left row that match. *)
Definition joinRow (joined : RowSet.t) (on : option Expression.t) (right_rows : list (list Value.t)) (l : list Value.t)
    : Result (list (list Value.t)) :=
  foldM (λ rows r,
    combined ← concatRows l r;
    keep ← rowMatchesWhere joined combined on;
    Ok (if keep : bool then rows ++ [combined] else rows)) [] right_rows.

Definition joinRows (left_set right_set : RowSet.t) (join_type : JoinType) (on : option Expression.t) : Result RowSet.t :=
  let columns := concatColumns (RowSet.columns left_set) (RowSet.columns right_set) in
  let joined := RowSet.mk columns [] in
  _ ← match on with Some e => validateExpression joined e | None => Ok () end;
  rows ← foldM (λ rows l,
           matched ← joinRow joined on (RowSet.rows right_set) l;
           match join_type, matched with
           | left_join, [] =>
               r ← concatRowWithNulls l (length (RowSet.columns right_set));
               Ok (rows ++ [r])
           | _, _ => Ok (rows ++ matched)
           end) [] (RowSet.rows left_set);
  Ok (RowSet.mk columns rows).

(** Results of functions with fuel: [None] is "out of fuel". *)
Definition then_ {A C} (m : option (Result A)) (k : A → option (Result C)) : option (Result C) :=
  match m with
  | None => None
  | Some (Ok a) => k a
  | Some (Err e) => Some (Err e)
  | Some Panic => Some Panic
  end.

Definition max_view_depth : nat := 8.

Fixpoint executeSelectScoped (fuel : nat) (statement : SelectStatement) (parent_scope : CteScope) (depth : nat)
    : option (Result ResultSet.t) :=
  match fuel with
  | O => None
  | S fuel =>
      let '(Select ctes _ _ _ source _ _ _ _ _) := statement in
      match source with
      | None => Some (Err UnknownObject)
      | Some source =>
          then_ (executeSource fuel source (ctes :: parent_scope) depth)
            (λ row_set, Some (selectFrom row_set statement))
      end
  end
with executeSource (fuel : nat) (source : RowSource) (scope : CteScope) (depth : nat) : option (Result RowSet.t) :=
  match fuel with
  | O => None
  | S fuel =>
      match source with
      | base_table name alias =>
          match findCte scope name with
          | Some (query, definition_scope) =>
              then_ (executeSelectScoped fuel query definition_scope (S depth))
                (λ result, Some (rowSetFromResult result name alias))
          | None =>
              match find_view name with
              | Some view_query =>
                  if (max_view_depth <=? depth)%nat then Some (Err UnsupportedView)
                  else
                    then_ (executeSelectScoped fuel view_query scope (S depth))
                      (λ result, Some (rowSetFromResult result name alias))
              | None => Some (table ← load_base_table name; rowSetFromBaseTable table alias)
              end
          end
      | derived_table query alias =>
          then_ (executeSelectScoped fuel query scope (S depth))
            (λ result, Some (rowSetFromResult result alias None))
      | join l join_type r on =>
          then_ (executeSource fuel l scope depth) (λ left_set,
          then_ (executeSource fuel r scope depth) (λ right_set,
          Some (joinRows left_set right_set join_type on)))
      end
  end.
End sources.

(** ** Fuel *)
Fixpoint select_size (s : SelectStatement) : nat :=
  match s with
  | Select ctes _ _ _ source _ _ _ _ _ =>
      S ((fix all (l : list CommonTableExpression) : nat :=
            match l with [] => 0%nat | c :: l' => (cte_size c + all l')%nat end) ctes
         + match source with Some r => source_size r | None => 0 end)%nat
  end
with source_size (r : RowSource) : nat :=
  match r with
  | base_table _ _ => 1%nat
  | derived_table q _ => S (select_size q)
  | join l _ r _ => S (source_size l + source_size r)%nat
  end
with cte_size (c : CommonTableExpression) : nat :=
  match c with Cte _ q => S (select_size q) end.

(** [executeSelect]; [view_bound] bounds the sizes of the views [find_view] can return, and each of
    the at most [max_view_depth] nested views adds at most one view to what is left to run. *)
Definition executeSelect (load_base_table : bytes → Result BaseTable.t) (find_view : bytes → option SelectStatement)
    (view_bound : nat) (statement : SelectStatement) : option (Result ResultSet.t) :=
  executeSelectScoped load_base_table find_view
    (S (select_size statement + max_view_depth * S view_bound)) statement [] 0.
