(* ===== verification/QueryFacts.v ===== *)
(** * Correctness of SELECT execution

    Termination of the recursion through views and common table expressions, the insertion sorts,
    filtering, joins and grouping of [QuerySource.v]. *)

From Stdlib Require Import Sorting.Sorted.
From stdpp Require Import sorting.
From S2P Require Import Prelude Float Value Catalog RowStore VectorSearch Ast Eval QuerySource.

(** ** Termination *)
Fixpoint ctes_size (l : list CommonTableExpression) : nat :=
  match l with [] => 0%nat | c :: l' => (cte_size c + ctes_size l')%nat end.

Definition scope_size (scope : list (list CommonTableExpression)) : nat :=
  foldr (λ ctes n, (ctes_size ctes + n)%nat) 0%nat scope.

Lemma select_size_eq ctes pi ps f src w g h o l :
  select_size (Select ctes pi ps f src w g h o l) =
  S (ctes_size ctes + match src with Some r => source_size r | None => 0 end)%nat.
Proof. reflexivity. Qed.

Lemma ctes_size_take i l n q : l !! i = Some (Cte n q) → (ctes_size (take i l) + S (select_size q) ≤ ctes_size l)%nat.
Proof.
  revert i. induction l as [|c l IH]; intros [|i] H; try done.
  - simpl in H. injection H as ->. simpl. lia.
  - simpl in H. apply IH in H. cbn [take ctes_size]. lia.
Qed.

Lemma findCte_size scope name q scope' :
  findCte scope name = Some (q, scope') → (select_size q + scope_size scope' < scope_size scope)%nat.
Proof.
  induction scope as [|ctes parent IH]; [done|]. cbn [findCte scope_size foldr].
  destruct (find_index _ ctes) as [i|].
  - intros (c & Hc & H)%bind_Some. destruct c as [n q']. injection H as <- <-.
    apply ctes_size_take in Hc. cbn [scope_size foldr]. lia.
  - intros H. apply IH in H. fold (scope_size parent). lia.
Qed.

Section termination.
Context (load : bytes → Result BaseTable.t) (views : bytes → option SelectStatement) (bound : nat).
Context (Hbound : ∀ n q, views n = Some q → (select_size q ≤ bound)%nat).

Definition budget (depth : nat) : nat := ((max_view_depth - depth) * S bound)%nat.

Lemma then_total {A C} (m : option (Result A)) (k : A → option (Result C)) :
  is_Some m → (∀ a, is_Some (k a)) → is_Some (then_ m k).
Proof. intros [[a|e|] ->] Hk; simpl; eauto. Qed.

Lemma budget_step depth : (budget (S depth) ≤ budget depth)%nat.
Proof. unfold budget. apply Nat.mul_le_mono_r. lia. Qed.

Lemma budget_view depth : (depth < max_view_depth)%nat → (budget (S depth) + S bound = budget depth)%nat.
Proof.
  intros H. unfold budget. assert (max_view_depth - depth = S (max_view_depth - S depth))%nat as -> by lia.
  by rewrite Nat.mul_succ_l.
Qed.

Lemma execute_total fuel :
  (∀ s scope depth, (select_size s + scope_size scope + budget depth < fuel)%nat →
     is_Some (executeSelectScoped load views fuel s scope depth)) ∧
  (∀ r scope depth, (source_size r + scope_size scope + budget depth < fuel)%nat →
     is_Some (executeSource load views fuel r scope depth)).
Proof.
  induction fuel as [|fuel [IHs IHr]]; [split; intros; lia|]. split.
  - intros [ctes pi ps f [r|] w g h o l] scope depth Hf; [|by eexists]. rewrite select_size_eq in Hf.
    cbn [executeSelectScoped]. apply then_total; [|by eauto]. apply IHr.
    cbn [scope_size foldr]. fold (scope_size scope). lia.
  - intros [n a|q a|l jt r on] scope depth Hf; cbn [executeSource source_size] in *.
    + pose proof (budget_step depth).
      destruct (findCte scope n) as [[q scope']|] eqn:Hc.
      { apply findCte_size in Hc. apply then_total; [|by eauto]. apply IHs. lia. }
      destruct (views n) as [q|] eqn:Hv; [|by eauto].
      destruct (Nat.leb_spec max_view_depth depth); [by eauto|].
      apply then_total; [|by eauto]. apply IHs. apply Hbound in Hv. pose proof (budget_view depth). lia.
    + pose proof (budget_step depth). apply then_total; [|by eauto]. apply IHs. lia.
    + apply then_total; [apply IHr; lia|]. intros ls. apply then_total; [apply IHr; lia|]. eauto.
Qed.
End termination.

(** More fuel never changes a result. *)
Lemma then_mono {A C} (m m' : option (Result A)) (k k' : A → option (Result C)) r :
  (∀ x, m = Some x → m' = Some x) → (∀ a x, k a = Some x → k' a = Some x) →
  then_ m k = Some r → then_ m' k' = Some r.
Proof.
  intros Hm Hk. destruct m as [[a|e|]|]; simpl; try done; rewrite (Hm _ eq_refl); simpl; auto.
Qed.

Lemma fuel_mono load views fuel :
  (∀ fuel' s scope depth r, (fuel ≤ fuel')%nat →
     executeSelectScoped load views fuel s scope depth = Some r →
     executeSelectScoped load views fuel' s scope depth = Some r) ∧
  (∀ fuel' r scope depth x, (fuel ≤ fuel')%nat →
     executeSource load views fuel r scope depth = Some x →
     executeSource load views fuel' r scope depth = Some x).
Proof.
  induction fuel as [|fuel [IHs IHr]]; [done|]. split.
  - intros [|fuel'] [ctes pi ps f [src|] w g h o l] scope depth r Hle; try lia; [|done].
    cbn [executeSelectScoped]. apply then_mono; [|done]. intros x. apply IHr. lia.
  - intros [|fuel'] src scope depth x Hle; [lia|].
    destruct src as [n a|q a|l jt r on]; cbn [executeSource].
    + destruct (findCte scope n) as [[q scope']|].
      { apply then_mono; [|done]. intros y. apply IHs. lia. }
      destruct (views n) as [q|]; [|done]. destruct (_ <=? _)%nat; [done|].
      apply then_mono; [|done]. intros y. apply IHs. lia.
    + apply then_mono; [|done]. intros y. apply IHs. lia.
    + apply then_mono; [intros y; apply IHr; lia|]. intros ls y. apply then_mono; [intros z; apply IHr; lia|done].
Qed.

(** C27: SELECT terminates: views that refer to each other or to themselves, nested CTEs and derived
    tables never make the recursion run forever; the call always ends with rows or an error, and
    that outcome does not depend on how much fuel beyond the bound is given. *)
Theorem select_terminates (load : bytes → Result BaseTable.t) (views : bytes → option SelectStatement)
    (bound fuel : nat) (statement : SelectStatement) :
  (∀ n q, views n = Some q → (select_size q ≤ bound)%nat) →
  ∃ r, executeSelect load views bound statement = Some r ∧
       ((select_size statement + max_view_depth * S bound < fuel)%nat →
        executeSelectScoped load views fuel statement [] 0 = Some r).
Proof.
  intros Hb. unfold executeSelect.
  destruct (proj1 (execute_total load views bound Hb (S (select_size statement + max_view_depth * S bound)))
              statement [] 0%nat) as [r Hr].
  { cbn [scope_size foldr]. unfold budget. rewrite Nat.sub_0_r. lia. }
  exists r. split; [done|]. intros Hf. revert Hr. apply fuel_mono. lia.
Qed.

(** ** The insertion sorts

    The comparison may fail; it only has to be asymmetric, which every comparison built on
    [compareValues] is, even in the presence of NaN. *)
Section sort.
Context {A : Type} (after : A → A → Result bool).
Context (Hasym : ∀ a b, after a b = Ok true → after b a = Ok false).

Definition in_order (a b : A) : Prop := after a b = Ok false.

Lemma siftM_spec pre x post out :
  siftM after (pre ++ x :: post) (length pre) = Ok out →
  ∃ pre1 pre2, pre = pre1 ++ pre2 ∧ out = pre1 ++ x :: pre2 ++ post ∧
    Forall (λ p, after p x = Ok true) pre2 ∧ (∀ p, last pre1 = Some p → in_order p x).
Proof.
  revert post out. induction pre as [|p pre IH] using rev_ind; intros post out H.
  { simpl in H. injection H as <-. exists [], []. by split_and!. }
  rewrite length_app, Nat.add_1_r in H. cbn [siftM] in H. rewrite <-(app_assoc pre [p]) in H. cbn [app] in H.
  unfold item_at in H. rewrite (list_lookup_middle pre _ p (length pre) eq_refl) in H.
  rewrite (cons_middle p pre), app_assoc in H.
  rewrite (list_lookup_middle (pre ++ [p]) post x (S (length pre))) in H by (rewrite length_app; simpl; lia).
  cbn [mbind result_bind] in H. rewrite <-app_assoc in H. cbn [app] in H.
  destruct (after p x) as [[]| |] eqn:Ha; simpl in H; try done.
  - rewrite swap_middle in H. apply IH in H as (pre1 & pre2 & -> & -> & Hf & Hl).
    exists pre1, (pre2 ++ [p]). split_and!; [by rewrite app_assoc|by rewrite <-app_assoc| |done].
    apply Forall_app. by repeat constructor.
  - injection H as <-. exists (pre ++ [p]), []. split_and!; [by rewrite app_nil_r|by rewrite <-app_assoc|done|].
    intros q. rewrite last_snoc. by intros [= <-].
Qed.

Lemma sorted_insert l1 x l2 :
  Sorted in_order (l1 ++ l2) → (∀ p, last l1 = Some p → in_order p x) → (∀ q, head l2 = Some q → in_order x q) →
  Sorted in_order (l1 ++ x :: l2).
Proof.
  intros Hs Hl Hr. induction l1 as [|a l1 IH]; simpl in *.
  { constructor; [done|]. destruct l2; constructor. by apply Hr. }
  apply Sorted_inv in Hs as [Hs Hh]. constructor.
  - apply IH; [done|]. intros p Hp. apply Hl. destruct l1; [done|]. by rewrite last_cons_cons.
  - destruct l1 as [|b l1]; simpl; constructor; [by apply Hl|]. by inv Hh.
Qed.

(** A pair that is not in its original order [R] was moved because the comparison asked for it. *)
Definition moved (R : A → A → Prop) (u v : A) : Prop := R u v ∨ after v u = Ok true.

Lemma moved_insert R pre1 x pre2 :
  StronglySorted (moved R) (pre1 ++ pre2) → (∀ p, p ∈ pre1 ++ pre2 → R p x) → Forall (λ p, after p x = Ok true) pre2 →
  StronglySorted (moved R) (pre1 ++ x :: pre2).
Proof.
  rewrite !StronglySorted_app. intros (H1 & H2 & H3) Hx Hf. split_and!; [|done|].
  - intros p q Hp Hq. apply elem_of_cons in Hq as [->|Hq]; [|by apply H1]. left. apply Hx, elem_of_app. by left.
  - constructor; [done|]. eapply Forall_impl; [exact Hf|]. intros q Hq. by right.
Qed.

Lemma insertionSort_from R pre post out :
  Sorted in_order pre → StronglySorted (moved R) pre → (∀ p y, p ∈ pre → y ∈ post → R p y) → StronglySorted R post →
  foldM (siftM after) (pre ++ post) (seq (length pre) (length post)) = Ok out →
  out ≡ₚ pre ++ post ∧ Sorted in_order out ∧ StronglySorted (moved R) out.
Proof.
  revert pre. induction post as [|x post IH]; intros pre Hs Hm Hr Hp H; cbn [length seq foldM] in H.
  { rewrite app_nil_r in *. injection H as <-. done. }
  apply bind_ok_inv in H as (l & Hsift & H). apply StronglySorted_inv in Hp as [Hp Hxp].
  apply siftM_spec in Hsift as (pre1 & pre2 & -> & -> & Hf & Hl).
  assert (Hs' : Sorted in_order (pre1 ++ x :: pre2)).
  { apply sorted_insert; [done|done|]. intros q Hq. destruct pre2 as [|r pre2]; [done|].
    injection Hq as <-. apply Forall_cons in Hf as [Hf _]. by apply Hasym. }
  assert (Hm' : StronglySorted (moved R) (pre1 ++ x :: pre2)).
  { apply moved_insert; [done| |done]. intros p Hin. apply Hr; [done|]. apply list_elem_of_here. }
  replace (S (length (pre1 ++ pre2))) with (length (pre1 ++ x :: pre2)) in H
    by (rewrite !length_app; simpl; lia).
  rewrite (app_comm_cons pre2 post x), app_assoc in H. apply IH in H as (Hq & Ho); [|done|done| |done].
  - split; [|done]. rewrite Hq. rewrite <-!app_assoc. cbn [app]. apply Permutation_app_head. by rewrite Permutation_middle.
  - intros p y Hin Hy. rewrite <-Permutation_middle in Hin. apply elem_of_cons in Hin as [->|Hin].
    + by apply (proj1 (Forall_forall _ _) Hxp).
    + apply Hr; [done|]. by apply list_elem_of_further.
Qed.

(** The sort permutes its input into order and is stable. *)
Lemma insertionSort_spec R items out :
  StronglySorted R items → insertionSort after items = Ok out →
  out ≡ₚ items ∧ Sorted in_order out ∧ StronglySorted (moved R) out.
Proof.
  unfold insertionSort. destruct items as [|x items]; cbn [length]; [intros _ [= <-]; split_and!; [done|constructor..]|].
  intros [Hs Hx]%StronglySorted_inv. rewrite Nat.sub_1_r. cbn [Nat.pred]. intros H.
  apply (insertionSort_from R [x] items out); [by repeat constructor|by repeat constructor| |done|done].
  intros p y ->%list_elem_of_singleton Hy. by apply (proj1 (Forall_forall _ _) Hx).
Qed.
End sort.

Lemma comesAfter_asym (el er : Expression.t → Result Value.t) order_by :
  comesAfter (λ e, lv ← el e; rv ← er e; Ok (lv, rv)) order_by = Ok true →
  comesAfter (λ e, lv ← er e; rv ← el e; Ok (lv, rv)) order_by = Ok false.
Proof.
  induction order_by as [|o order_by IH]; [done|]. cbn [comesAfter].
  destruct (el _) as [lv| |]; simpl; try done. destruct (er _) as [rv| |]; simpl; try done.
  rewrite (compareValues_opp lv rv). destruct (compareValues lv rv) as [c| |]; simpl; try done.
  destruct (Z.eqb_spec c 0) as [->|Hc]; [done|]. destruct (Z.eqb_spec (- c) 0); [lia|].
  intros H. apply (f_equal (λ r, match r with Ok b => b | _ => false end)) in H. f_equal.
  destruct (OrderKey.direction o); lia.
Qed.

(** ** The order of ORDER BY

    Rows compare lexicographically by their sort keys: the first key on which they differ decides, a
    descending key the other way round. *)
Inductive row_order (rs : RowSet.t) (projections : list ProjectionItem.t) (l r : list Value.t)
    : list OrderKey.t → comparison → Prop :=
  | order_exhausted : row_order rs projections l r [] Eq
  | order_tie k ks lv rv c :
      evalOrderExpression rs l (OrderKey.expression k) projections = Ok lv →
      evalOrderExpression rs r (OrderKey.expression k) projections = Ok rv →
      compareValues lv rv = Ok 0 → row_order rs projections l r ks c → row_order rs projections l r (k :: ks) c
  | order_asc k ks lv rv d :
      evalOrderExpression rs l (OrderKey.expression k) projections = Ok lv →
      evalOrderExpression rs r (OrderKey.expression k) projections = Ok rv →
      compareValues lv rv = Ok d → d ≠ 0 → OrderKey.direction k = asc → row_order rs projections l r (k :: ks) (d ?= 0)
  | order_desc k ks lv rv d :
      evalOrderExpression rs l (OrderKey.expression k) projections = Ok lv →
      evalOrderExpression rs r (OrderKey.expression k) projections = Ok rv →
      compareValues lv rv = Ok d → d ≠ 0 → OrderKey.direction k = desc → row_order rs projections l r (k :: ks) (0 ?= d).

(** [l] may stand before [r]; [l] must stand after [r]. *)
Definition may_precede rs projections order_by l r : Prop := ∃ c, row_order rs projections l r order_by c ∧ c ≠ Gt.
Definition must_follow rs projections order_by l r : Prop := row_order rs projections l r order_by Gt.

Lemma rowComesAfter_order rs projections l r order_by b :
  rowComesAfter rs l r order_by projections = Ok b →
  ∃ c, row_order rs projections l r order_by c ∧ b = bool_decide (c = Gt).
Proof.
  unfold rowComesAfter. induction order_by as [|k ks IH]; cbn [comesAfter].
  { intros [= <-]. exists Eq. split; [constructor|done]. }
  intros H. apply bind_ok_inv in H as (vs & Hv & H). apply bind_ok_inv in Hv as (lv & Hl & Hv).
  apply bind_ok_inv in Hv as (rv & Hr & Hv). injection Hv as <-. apply bind_ok_inv in H as (d & Hd & H). cbn [fst snd] in Hd.
  destruct (Z.eqb_spec d 0) as [->|Hd0].
  { destruct (IH H) as (c & Hc & ->). exists c. split; [by eapply order_tie|done]. }
  injection H as <-. destruct (OrderKey.direction k) eqn:Hk.
  - exists (d ?= 0). split; [by eapply order_asc|]. destruct (Z.compare_spec d 0); destruct (Z.ltb_spec 0 d); try lia; done.
  - exists (0 ?= d). split; [by eapply order_desc|]. destruct (Z.compare_spec 0 d); destruct (Z.ltb_spec d 0); try lia; done.
Qed.

(** ** Filtering *)
Definition selected {A} (p : A → Result bool) (items : list A) (i : nat) : bool :=
  match items !! i with Some x => bool_decide (p x = Ok true) | None => false end.

Lemma filterIndices_from {A} (p : A → Result bool) (pre post : list A) acc kept :
  foldM (λ kept '(index, item), b ← p item; Ok (if b : bool then kept ++ [index] else kept)) acc
    (imap (λ i x, ((length pre + i)%nat, x)) post) = Ok kept →
  kept = acc ++ filter (λ i, selected p (pre ++ post) i = true) (seq (length pre) (length post)) ∧
  Forall (λ x, ∃ b, p x = Ok b) post.
Proof.
  revert pre acc. induction post as [|x post IH]; intros pre acc; cbn [imap foldM length seq].
  { intros [= <-]. by rewrite filter_nil, app_nil_r. }
  intros H. apply bind_ok_inv in H as (acc' & Hstep & H). rewrite Nat.add_0_r in Hstep.
  destruct (p x) as [b| |] eqn:Hp; simpl in Hstep; try done. injection Hstep as Hacc.
  assert (Himap : imap ((λ i x0, ((length pre + i)%nat, x0)) ∘ S) post
                  = imap (λ i x0, ((length (pre ++ [x]) + i)%nat, x0)) post).
  { apply imap_ext. intros i y _. simpl. rewrite length_app. simpl. f_equal. lia. }
  rewrite Himap in H. apply IH in H as [Hk Hf]. rewrite <-app_assoc in Hk. cbn [app] in Hk.
  rewrite length_app, Nat.add_1_r in Hk. split; [|constructor; [by eexists|done]].
  assert (Hsel : selected p (pre ++ x :: post) (length pre) = b).
  { unfold selected. rewrite list_lookup_middle by done. rewrite Hp. by destruct b. }
  rewrite filter_cons, Hk, <-Hacc. destruct b.
  - rewrite decide_True by done. by rewrite <-app_assoc.
  - rewrite decide_False; [done|]. by rewrite Hsel.
Qed.

Lemma filterIndices_spec {A} (p : A → Result bool) (items : list A) kept :
  filterIndices p items = Ok kept →
  kept = filter (λ i, selected p items i = true) (seq 0 (length items)) ∧ Forall (λ x, ∃ b, p x = Ok b) items.
Proof. intros H. apply (filterIndices_from p [] items [] kept). exact H. Qed.

(** Lift a relation on rows to row indices. *)
Definition on_rows (rs : RowSet.t) (P : list Value.t → list Value.t → Prop) (i j : nat) : Prop :=
  ∀ l r, RowSet.rows rs !! i = Some l → RowSet.rows rs !! j = Some r → P l r.

Lemma Sorted_weaken {A} (P Q : A → A → Prop) l : (∀ x y, P x y → Q x y) → Sorted P l → Sorted Q l.
Proof. intros HPQ. induction 1 as [|a l Hs IH Hh]; constructor; [done|]. destruct Hh; constructor. by apply HPQ. Qed.

Lemma StronglySorted_weaken {A} (P Q : A → A → Prop) l : (∀ x y, P x y → Q x y) → StronglySorted P l → StronglySorted Q l.
Proof. intros HPQ. induction 1 as [|a l Hs IH Hf]; constructor; [done|]. eapply Forall_impl; [exact Hf|]. apply HPQ. Qed.

Lemma sortIndices_spec rs indices order_by projections out :
  StronglySorted lt indices → sortIndices rs indices order_by projections = Ok out →
  out ≡ₚ indices ∧
  Sorted (on_rows rs (may_precede rs projections order_by)) out ∧
  StronglySorted (λ i j, (i < j)%nat ∨ on_rows rs (must_follow rs projections order_by) j i) out.
Proof.
  intros Hlt. unfold sortIndices. destruct (Nat.eqb_spec (length order_by) 0) as [H0|H0]; cbn [orb].
  { intros [= <-]. apply nil_length_inv in H0 as ->. split_and!; [done| |].
    - eapply Sorted_weaken; [|apply StronglySorted_Sorted, Hlt]. intros i j _ l r _ _. exists Eq. split; [constructor|done].
    - eapply StronglySorted_weaken; [|exact Hlt]. by left. }
  destruct (Nat.ltb_spec (length indices) 2).
  { intros [= <-]. destruct indices as [|i [|]]; simpl in *; [| |lia]; split_and!; repeat constructor. }
  intros H1. apply (insertionSort_spec _) with (R := lt) in H1 as (Hp & Hs & Hm); [| |done].
  - split_and!; [done| |].
    + eapply Sorted_weaken; [|exact Hs]. intros i j Hij l r Hi Hj. unfold in_order, item_at in Hij. rewrite Hi, Hj in Hij.
      destruct (rowComesAfter_order _ _ _ _ _ _ Hij) as (c & Hc & Hb). exists c. split; [done|].
      by case_bool_decide.
    + eapply StronglySorted_weaken; [|exact Hm]. intros i j [Hij|Hij]; [by left|right]. intros l r Hj Hi.
      unfold item_at in Hij. rewrite Hi, Hj in Hij. destruct (rowComesAfter_order _ _ _ _ _ _ Hij) as (c & Hc & Hb).
      case_bool_decide as E; [|done]. by rewrite E in Hc.
  - intros a b H2. apply bind_ok_inv in H2 as (l & Hl & H2). apply bind_ok_inv in H2 as (r & Hr & H2).
    rewrite Hr. cbn [mbind result_bind]. rewrite Hl. cbn [mbind result_bind]. by apply comesAfter_asym.
Qed.

Lemma seq_filter_sorted (P : nat → Prop) `{∀ i, Decision (P i)} a n : StronglySorted lt (filter P (seq a n)).
Proof.
  revert a. induction n as [|n IH]; intros a; cbn [seq]; [constructor|]. rewrite filter_cons. destruct (decide (P a)); [|apply IH].
  constructor; [apply IH|]. apply Forall_forall. intros i Hi. apply list_elem_of_filter in Hi as [_ Hi]. apply elem_of_seq in Hi. lia.
Qed.

(** C5: a SELECT without aggregates returns exactly the rows that satisfy WHERE, each once, sorted lexicographically by
    the ORDER BY keys with their directions; rows leave their source order only where the keys require it, so the
    sort is stable; the result is cut at LIMIT and each output row is the projection of its source row. *)
Theorem select_semantics (rs : RowSet.t) (statement : SelectStatement) (result : ResultSet.t) :
  let '(Select _ _ _ _ _ where_clause _ _ order_by limit) := statement in
  let projections := projectionItems statement in
  let matching := filter (λ i, selected (λ row, rowMatchesWhere rs row where_clause) (RowSet.rows rs) i = true)
                         (seq 0 (length (RowSet.rows rs))) in
  isAggregateSelect statement projections = false → selectFrom rs statement = Ok result →
  ∃ order, order ≡ₚ matching ∧
    Sorted (on_rows rs (may_precede rs projections order_by)) order ∧
    StronglySorted (λ i j, (i < j)%nat ∨ on_rows rs (must_follow rs projections order_by) j i) order ∧
    ResultSet.columns result = resultColumns rs projections ∧
    Forall2 (λ i out, ∃ row, RowSet.rows rs !! i = Some row ∧ projectRow rs row projections = Ok out)
      (take (row_limit limit (length order)) order) (ResultSet.rows result).
Proof.
  destruct statement as [ctes pi ps f src w g h o l]. cbv zeta. intros Ha H. unfold selectFrom in H. rewrite Ha in H.
  apply bind_ok_inv in H as (filtered & Hf & H). apply filterIndices_spec in Hf as [-> _].
  apply bind_ok_inv in H as (u & _ & H). apply bind_ok_inv in H as (sorted & Hs & H).
  apply sortIndices_spec in Hs as (Hp & Ho & Hs); [|apply seq_filter_sorted].
  apply bind_ok_inv in H as (rows & Hr & H). injection H as <-.
  exists sorted. split_and!; try done. apply mapR_ok_inv in Hr. eapply Forall2_impl; [exact Hr|].
  cbv beta. intros i out Hi. apply bind_ok_inv in Hi as (row & Hrow & Hproj). apply item_at_ok in Hrow. by exists row.
Qed.

(** ** Joins *)
Lemma cloneValues_app_inv l r x : concatRows l r = Ok x → x = l ++ r.
Proof.
  unfold concatRows. intros H. apply bind_ok_inv in H as (l' & Hl & H). apply bind_ok_inv in H as (r' & Hr & H).
  injection H as <-. apply cloneValues_id in Hl, Hr. by subst.
Qed.

(** The right rows that join with the left row [l]. *)
Definition partners (joined : RowSet.t) (on : option Expression.t) (right_rows : list (list Value.t)) (l : list Value.t)
    : list (list Value.t) := filter (λ r, rowMatchesWhere joined (l ++ r) on = Ok true) right_rows.

Lemma joinRow_spec joined on right_rows l out :
  joinRow joined on right_rows l = Ok out → out = app l <$> partners joined on right_rows l.
Proof.
  unfold joinRow, partners.
  match goal with |- foldM ?f _ _ = _ → _ =>
    assert (Hgen : ∀ acc, foldM f acc right_rows = Ok out →
      out = acc ++ (app l <$> filter (λ r, rowMatchesWhere joined (l ++ r) on = Ok true) right_rows)); [|apply Hgen] end.
  induction right_rows as [|r right_rows IH]; intros acc; cbn [foldM].
  { intros [= <-]. by rewrite filter_nil, app_nil_r. }
  intros H. apply bind_ok_inv in H as (acc' & Hstep & H). apply bind_ok_inv in Hstep as (c & Hc & Hstep).
  apply cloneValues_app_inv in Hc as ->. apply bind_ok_inv in Hstep as (b & Hb & Hstep). injection Hstep as <-.
  apply IH in H as ->. rewrite filter_cons, Hb. destruct b.
  - rewrite decide_True by done. cbn [fmap list_fmap]. by rewrite <-app_assoc.
  - by rewrite decide_False.
Qed.

(** What a join produces for one left row. *)
Definition joined_rows (join_type : JoinType) (joined : RowSet.t) (on : option Expression.t) (right_set : RowSet.t)
    (l : list Value.t) : list (list Value.t) :=
  match join_type, partners joined on (RowSet.rows right_set) l with
  | left_join, [] => [l ++ replicate (length (RowSet.columns right_set)) Value.null]
  | _, ps => app l <$> ps
  end.

(** C10: a join is the relational join: each left row, in order, is followed by exactly the right rows for
    which the ON condition is true (all of them without ON), in order; a LEFT JOIN keeps a left row
    without partners once, padded with NULLs for the right columns. *)
Theorem join_semantics (left_set right_set out : RowSet.t) (join_type : JoinType) (on : option Expression.t) :
  let columns := RowSet.columns left_set ++ RowSet.columns right_set in
  joinRows left_set right_set join_type on = Ok out →
  out = RowSet.mk columns (RowSet.rows left_set ≫= joined_rows join_type (RowSet.mk columns []) on right_set).
Proof.
  cbv zeta. intros H. unfold joinRows in H. cbv zeta in H. apply bind_ok_inv in H as (u & _ & H).
  apply bind_ok_inv in H as (rows & Hf & H). injection H as <-. unfold concatColumns in *. f_equal.
  revert Hf. match goal with |- foldM ?f _ ?l = _ → _ = _ ≫= ?k =>
    assert (Hgen : ∀ acc, foldM f acc l = Ok rows → rows = acc ++ (l ≫= k)); [|apply Hgen] end.
  induction (RowSet.rows left_set) as [|l ls IH]; intros acc; cbn [foldM].
  { intros [= <-]. simpl. by rewrite app_nil_r. }
  intros H. apply bind_ok_inv in H as (acc' & Hstep & H). apply IH in H as ->. csimpl. rewrite app_assoc. f_equal.
  apply bind_ok_inv in Hstep as (m & Hm & Hstep). apply joinRow_spec in Hm. unfold joined_rows.
  destruct (partners _ _ _ _) as [|r rs] eqn:Hp; simpl in Hm; subst m.
  - destruct join_type; [by injection Hstep as <-|by injection Hstep as <-|].
    apply bind_ok_inv in Hstep as (r & Hr & Hstep). injection Hstep as <-. f_equal.
    unfold concatRowWithNulls in Hr. apply bind_ok_inv in Hr as (l' & Hl & Hr). injection Hr as <-.
    by apply cloneValues_id in Hl as ->.
  - destruct join_type; by injection Hstep as <-.
Qed.

(** ** Grouping *)
Lemma findGroupFrom_spec groups keys n found :
  findGroupFrom groups keys n = Ok found →
  match found with
  | Some i => ∃ j g, i = (n + j)%nat ∧ groups !! j = Some g ∧ groupKeysEqual (Group.keys g) keys = Ok true
  | None => Forall (λ g, groupKeysEqual (Group.keys g) keys = Ok false) groups
  end.
Proof.
  revert n. induction groups as [|g groups IH]; intros n; cbn [findGroupFrom]; [by intros [= <-]|].
  intros H. apply bind_ok_inv in H as ([] & He & H).
  - injection H as <-. exists 0%nat, g. split_and!; [lia|done|done].
  - apply IH in H. destruct found as [i|]; [|by constructor].
    destruct H as (j & g' & -> & Hj & Hg). exists (S j), g'. split_and!; [lia|done|done].
Qed.

(** A row's keys agree with the keys of the group it is in. *)
Definition row_in_group (rs : RowSet.t) (group_by : list Expression.t) (g : Group.t) (i : nat) : Prop :=
  ∃ row keys, RowSet.rows rs !! i = Some row ∧ evalGroupKeys rs row group_by = Ok keys ∧
    (Group.keys g = keys ∨ groupKeysEqual (Group.keys g) keys = Ok true).

Definition distinct_keys (groups : list Group.t) : Prop :=
  ∀ i j g g', (i < j)%nat → groups !! i = Some g → groups !! j = Some g' →
    groupKeysEqual (Group.keys g) (Group.keys g') = Ok false.

Record grouping (rs : RowSet.t) (group_by : list Expression.t) (indices : list nat) (groups : list Group.t) : Prop := {
  grouping_partition : (groups ≫= Group.row_indices) ≡ₚ indices;
  grouping_order : Forall (λ g, Group.row_indices g `sublist_of` indices) groups;
  grouping_members : Forall (λ g, Group.row_indices g ≠ [] ∧ Forall (row_in_group rs group_by g) (Group.row_indices g)) groups;
  grouping_distinct : distinct_keys groups;
}.

Lemma addToGroup_grouping rs group_by indices groups i groups' :
  grouping rs group_by indices groups → addToGroup rs group_by groups i = Ok groups' →
  grouping rs group_by (indices ++ [i]) groups'.
Proof.
  intros [Hp Ho Hm Hd] H. unfold addToGroup in H. apply bind_ok_inv in H as (row & Hrow & H). apply item_at_ok in Hrow.
  apply bind_ok_inv in H as (keys & Hk & H). apply bind_ok_inv in H as (found & Hf & H).
  apply findGroupFrom_spec in Hf.
  assert (Hsub : Forall (λ g, Group.row_indices g `sublist_of` indices ++ [i]) groups).
  { eapply Forall_impl; [exact Ho|]. intros g Hg. by apply sublist_inserts_r. }
  destruct found as [n|]; injection H as <-.
  - destruct Hf as (j & g & -> & Hj & Heq). cbn [Nat.add].
    set (g' := Group.mk (Group.keys g) (Group.row_indices g ++ [i])).
    assert (Halter : alter (λ g, Group.mk (Group.keys g) (Group.row_indices g ++ [i])) j groups = <[j := g']> groups).
    { apply list_eq. intros k. destruct (decide (k = j)) as [->|Hne].
      - rewrite list_lookup_insert_eq by (by eapply lookup_lt_Some). rewrite list_lookup_alter_eq, Hj. done.
      - by rewrite list_lookup_alter_ne, list_lookup_insert_ne by done. }
    rewrite Halter. pose proof (lookup_lt_Some _ _ _ Hj) as Hlt. split.
    + rewrite insert_take_drop by done. rewrite <-(take_drop_middle groups j g Hj) in Hp.
      rewrite bind_app, bind_cons in Hp |- *. cbn [g' Group.row_indices]. rewrite <-Hp.
      rewrite <-!app_assoc. do 2 apply Permutation_app_head. apply Permutation_app_comm.
    + apply Forall_insert; [done|]. simpl. apply sublist_app; [|done]. by eapply (Forall_lookup_1 _ _ _ _ Ho).
    + apply Forall_insert; [done|]. destruct (Forall_lookup_1 _ _ _ _ Hm Hj) as [Hne Hall]. cbv beta. split.
      { simpl. by intros []%app_nil. }
      apply Forall_app. split; [exact Hall|]. repeat constructor. exists row, keys. split_and!; auto.
    + intros a b x y Hab Ha Hb.
      assert (Hget : ∀ k z, <[j := g']> groups !! k = Some z → ∃ z', groups !! k = Some z' ∧ Group.keys z' = Group.keys z).
      { intros k z. destruct (decide (k = j)) as [->|Hne].
        - rewrite list_lookup_insert_eq by done. intros [= <-]. by exists g.
        - rewrite list_lookup_insert_ne by done. by exists z. }
      apply Hget in Ha as (x' & Hx & <-), Hb as (y' & Hy & <-). by eapply Hd.
  - split.
    + rewrite bind_app. simpl. by rewrite Hp.
    + apply Forall_app. split; [done|]. repeat constructor. simpl. by apply sublist_inserts_l.
    + apply Forall_app. split; [done|]. repeat constructor; [done|]. exists row, keys. auto.
    + intros a b x y Hab Ha Hb. pose proof (lookup_lt_Some _ _ _ Hb) as Hlt. rewrite length_app in Hlt. simpl in Hlt.
      destruct (decide (b = length groups)) as [->|Hne].
      * rewrite list_lookup_middle in Hb by done. injection Hb as <-. rewrite lookup_app_l in Ha by done.
        by apply (Forall_lookup_1 _ _ _ _ Hf Ha).
      * rewrite lookup_app_l in Ha by lia. rewrite lookup_app_l in Hb by lia. exact (Hd _ _ _ _ Hab Ha Hb).
Qed.

(** C25: GROUP BY partitions the filtered rows: every row index ends up in exactly one group, groups are
    non-empty and keep the row order, every row's keys match the keys of its group, and no two groups
    have matching keys. *)
Theorem group_by_partitions (rs : RowSet.t) (indices : list nat) (group_by : list Expression.t) (groups : list Group.t) :
  group_by ≠ [] → buildGroups rs indices group_by = Ok groups → grouping rs group_by indices groups.
Proof.
  intros Hne H. destruct group_by as [|e es]; [done|]. clear Hne. cbn [buildGroups] in H.
  assert (Hgen : ∀ done_ groups0, grouping rs (e :: es) done_ groups0 →
    ∀ todo, foldM (addToGroup rs (e :: es)) groups0 todo = Ok groups → grouping rs (e :: es) (done_ ++ todo) groups).
  { intros done_ groups0 Hg todo. revert done_ groups0 Hg. induction todo as [|i todo IH]; intros done_ groups0 Hg; cbn [foldM].
    - intros [= <-]. by rewrite app_nil_r.
    - intros H'. apply bind_ok_inv in H' as (g1 & H1 & H'). rewrite (cons_middle i done_ todo), app_assoc.
      eapply IH; [|exact H']. by eapply addToGroup_grouping. }
  apply (Hgen [] []); [|done]. split; [done|constructor|constructor|]. intros i j g g' _ Hi. by rewrite lookup_nil in Hi.
Qed.

(** ** Concrete instances *)
Definition select_star (source : bytes) : SelectStatement :=
  Select [] [] [Expression.star] (Some source) (Some (base_table source None)) None [] None [] None.

(** A view that selects from itself. *)
Definition self_view (n : bytes) : option SelectStatement :=
  if eqlIgnoreCase n (B "v") then Some (select_star (B "v")) else None.

Lemma select_terminates_witness :
  (∀ n q, self_view n = Some q → (select_size q ≤ 2)%nat) ∧
  ∃ r, executeSelect (λ _, Err UnknownObject) self_view 2 (select_star (B "v")) = Some r ∧
       ((2 + max_view_depth * 3 < 50)%nat →
        executeSelectScoped (λ _, Err UnknownObject) self_view 50 (select_star (B "v")) [] 0 = Some r).
Proof.
  assert (H : ∀ n q, self_view n = Some q → (select_size q ≤ 2)%nat).
  { intros n q. unfold self_view. destruct (eqlIgnoreCase _ _); [|done]. intros [= <-]. simpl. lia. }
  split; [exact H|]. exact (select_terminates _ self_view 2 50 (select_star (B "v")) H).
Defined.

Definition sample_rows : RowSet.t :=
  RowSet.mk [ColumnBinding.mk (B "id") [B "t"]; ColumnBinding.mk (B "tag") [B "t"]]
    [[Value.integer 1; Value.text (B "a")]; [Value.integer 3; Value.text (B "b")]; [Value.integer 2; Value.text (B "a")]].

Definition id_column : Expression.t := Expression.identifier (B "t.id").
Definition tag_column : Expression.t := Expression.identifier (B "tag").

(** SELECT t.id FROM t WHERE t.id > 1 ORDER BY t.id LIMIT 5 *)
Definition sample_select : SelectStatement :=
  Select [] [] [id_column] None (Some (base_table (B "t") None))
    (Some (Expression.binary id_column greater_than (Expression.literal (Literal.integer 1))))
    [] None [OrderKey.mk id_column asc] (Some 5).

Lemma select_semantics_witness :
  let result := ResultSet.mk [B "id"] [[Value.integer 2]; [Value.integer 3]] in
  selectFrom sample_rows sample_select = Ok result ∧
  ∃ order : list nat, order ≡ₚ [1; 2]%nat ∧ (length order = 2)%nat.
Proof.
  split; [vm_compute; reflexivity|].
  destruct (select_semantics sample_rows sample_select (ResultSet.mk [B "id"] [[Value.integer 2]; [Value.integer 3]])
              ltac:(vm_compute; reflexivity) ltac:(vm_compute; reflexivity)) as (order & Hp & _).
  exists order. assert (Hm : order ≡ₚ [1; 2]%nat) by (etransitivity; [exact Hp|vm_compute; reflexivity]).
  split; [exact Hm|]. by rewrite Hm.
Defined.

Definition tag_rows : RowSet.t :=
  RowSet.mk [ColumnBinding.mk (B "key") [B "u"]] [[Value.text (B "b")]; [Value.text (B "c")]].

Definition on_tag : Expression.t :=
  Expression.binary tag_column equal (Expression.identifier (B "u.key")).

Lemma join_semantics_witness :
  let out := RowSet.mk (RowSet.columns sample_rows ++ RowSet.columns tag_rows)
    [[Value.integer 1; Value.text (B "a"); Value.null]; [Value.integer 3; Value.text (B "b"); Value.text (B "b")];
     [Value.integer 2; Value.text (B "a"); Value.null]] in
  joinRows sample_rows tag_rows left_join (Some on_tag) = Ok out ∧
  RowSet.rows out = RowSet.rows sample_rows ≫=
    joined_rows left_join (RowSet.mk (RowSet.columns out) []) (Some on_tag) tag_rows.
Proof.
  split; [vm_compute; reflexivity|].
  match goal with |- RowSet.rows ?o = _ =>
    pose proof (join_semantics sample_rows tag_rows o left_join (Some on_tag) ltac:(vm_compute; reflexivity)) as H end.
  exact (f_equal RowSet.rows H).
Defined.

Lemma group_by_partitions_witness :
  let groups := [Group.mk [Value.text (B "a")] [0; 2]%nat; Group.mk [Value.text (B "b")] [1]%nat] in
  buildGroups sample_rows [0; 1; 2]%nat [tag_column] = Ok groups ∧ grouping sample_rows [tag_column] [0; 1; 2]%nat groups.
Proof.
  split; [vm_compute; reflexivity|]. apply group_by_partitions; [discriminate|vm_compute; reflexivity].
Defined.
