(* ===== verification/AggregateFacts.v ===== *)
(** * What the aggregate functions compute

    COUNT, SUM, AVG, MIN and MAX over the rows of a group ([evalAggregateCall] of [db/query_source.zig]) against a description
    by the list of values the argument has on these rows: nulls do not take part, and what is left is counted, added up in
    the order of the rows, or searched for a least or greatest element. *)

From S2P Require Import Prelude Float Value Catalog Ast Eval QuerySource.

(** ** Values that can be ordered *)

(** Of one type, and not NaN; a column has one type. *)
Inductive kind := k_integer | k_float | k_boolean | k_text.

Definition of_kind (k : kind) (v : Value.t) : Prop :=
  match k, v with
  | k_integer, Value.integer _ | k_boolean, Value.boolean _ | k_text, Value.text _ => True
  | k_float, Value.float x => is_nan binary64 x = false
  | _, _ => False
  end.

(** [a] is not above [b]. *)
Definition at_most (a b : Value.t) : Prop := ∃ c, compareValues a b = Ok c ∧ c ≤ 0.

Lemma bytes_order_trans l m r : bytes_order l m ≠ Gt → bytes_order m r ≠ Gt → bytes_order l r ≠ Gt.
Proof.
  revert m r. induction l as [|a l IH]; intros [|b m] [|c r]; cbn; try done.
  destruct (Z.compare_spec (byte_val a) (byte_val b)) as [E1|E1|E1], (Z.compare_spec (byte_val b) (byte_val c)) as [E2|E2|E2];
    destruct (Z.compare_spec (byte_val a) (byte_val c)) as [E3|E3|E3]; try lia; try done; by apply IH.
Qed.

Lemma f64_le_trans x y z :
  is_nan binary64 x = false → is_nan binary64 y = false → is_nan binary64 z = false →
  f64_lt y x = false → f64_lt z y = false → f64_lt z x = false.
Proof.
  intros Hx Hy Hz H1 H2. destruct (f64_lt z x) eqn:H3; [|done].
  apply f64_lt_rank in H3; [|done..]. assert (N1 : ¬ lex3 (f64_rank y) (f64_rank x)) by (rewrite <- f64_lt_rank, H1; done).
  assert (N2 : ¬ lex3 (f64_rank z) (f64_rank y)) by (rewrite <- f64_lt_rank, H2; done). unfold lex3 in *. lia.
Qed.

Lemma compareNumbers_le l r : compareNumbers l r ≤ 0 ↔ l ≤ r.
Proof. unfold compareNumbers. destruct (Z.ltb_spec l r), (Z.ltb_spec r l); lia. Qed.

Lemma compareFloats_le l r : compareFloats l r ≤ 0 ↔ f64_lt r l = false.
Proof.
  unfold compareFloats, f64_gt. destruct (f64_lt l r) eqn:H; [by rewrite (f64_lt_asym _ _ H)|]. by destruct (f64_lt r l).
Qed.

Lemma compareOrdering_le c : compareOrdering c ≤ 0 ↔ c ≠ Gt.
Proof. by destruct c. Qed.

(** Values of one kind compare. *)
Lemma kind_compares k a b : of_kind k a → of_kind k b → ∃ c, compareValues a b = Ok c.
Proof. destruct k, a, b; try done; cbn; eauto. Qed.

Lemma at_most_refl k a : of_kind k a → at_most a a.
Proof.
  intros H. destruct (kind_compares k a a H H) as [c Hc]. exists c. split; [done|].
  pose proof (compareValues_opp a a) as E. rewrite Hc in E. cbn -[Z.opp] in E. injection E as E. lia.
Qed.

Lemma at_most_trans k a b c : of_kind k a → of_kind k b → of_kind k c → at_most a b → at_most b c → at_most a c.
Proof.
  intros Ha Hb Hc (x & Hx & Lx) (y & Hy & Ly). unfold at_most.
  destruct k, a, b, c; try done; cbn [compareValues of_kind] in *; simplify_eq; eexists; (split; [done|]).
  - rewrite compareNumbers_le in Lx, Ly |- *. lia.
  - rewrite compareFloats_le in Lx, Ly |- *. exact (f64_le_trans _ _ _ Ha Hb Hc Lx Ly).
  - rewrite compareNumbers_le in Lx, Ly |- *. lia.
  - rewrite compareOrdering_le in Lx, Ly |- *. exact (bytes_order_trans _ _ _ Lx Ly).
Qed.

(** The comparison the other way round. *)
Lemma at_most_flip a b c : compareValues a b = Ok c → 0 ≤ c → at_most b a.
Proof. intros H Hc. exists (- c). rewrite compareValues_opp, H. cbn -[Z.opp]. split; [done|lia]. Qed.

(** ** The loop *)

(** The values of the argument on the rows of a group. *)
Definition argument_values (rs : RowSet.t) (arg : Expression.t) (indices : list nat) : Result (list Value.t) :=
  mapR (λ i, row ← item_at (RowSet.rows rs) i; evalRow rs row arg) indices.

(** Those that take part. *)
Definition present (values : list Value.t) : list Value.t := filter (λ v, Value.is_null v = false) values.

Lemma present_null v vs : Value.is_null v = true → present (v :: vs) = present vs.
Proof. intros H. apply filter_cons_False. congruence. Qed.

Lemma present_cons v vs : Value.is_null v = false → present (v :: vs) = v :: present vs.
Proof. intros H. by apply filter_cons_True. Qed.

Lemma accumulate_null function st v : Value.is_null v = true → accumulate function st v = Ok st.
Proof. intros H. destruct st as [[c s] b]. unfold accumulate. by rewrite H. Qed.

Lemma accumulate_values function rs arg indices values st :
  argument_values rs arg indices = Ok values →
  foldM (λ st i, row ← item_at (RowSet.rows rs) i; v ← evalRow rs row arg; accumulate function st v) st indices =
    foldM (accumulate function) st (present values).
Proof.
  unfold argument_values. revert values st. induction indices as [|i indices IH]; intros values st H; cbn [mapR] in H.
  { by injection H as <-. }
  apply bind_ok_inv in H as (v & Hv & H). apply bind_ok_inv in H as (vs & Hvs & H). injection H as <-.
  apply bind_ok_inv in Hv as (row & Hrow & Hv). cbn [foldM]. rewrite Hrow. cbn [mbind result_bind]. rewrite Hv. cbn [mbind result_bind].
  destruct (Value.is_null v) eqn:Hn.
  - rewrite present_null, accumulate_null by done. by apply IH.
  - rewrite present_cons by done. cbn [foldM]. destruct (accumulate function st v) as [st'|e|]; [|done..]. by apply IH.
Qed.

Lemma present_not_null values : Forall (λ v, Value.is_null v = false) (present values).
Proof. apply Forall_forall. by intros v [H _]%list_elem_of_filter. Qed.

Lemma count_step c s b v : Value.is_null v = false → accumulate Function.count (c, s, b) v = Ok (c + 1, s, b).
Proof. intros H. unfold accumulate. by rewrite H. Qed.

Lemma count_loop c s b vs :
  Forall (λ v, Value.is_null v = false) vs → foldM (accumulate Function.count) (c, s, b) vs = Ok (c + Z.of_nat (length vs), s, b).
Proof.
  revert c. induction vs as [|v vs IH]; intros c H; cbn [foldM length]; [by rewrite Z.add_0_r|].
  inversion H as [|? ? Hn Hr]; subst. rewrite count_step by done. cbn [mbind result_bind]. rewrite IH by done. do 3 f_equal. lia.
Qed.

Lemma sum_step function c s b v :
  function = Function.sum ∨ function = Function.avg → Value.is_null v = false →
  accumulate function (c, s, b) v = (x ← numericAsFloat v; Ok (c + 1, f64_add s x, b)).
Proof. intros Hf Hn. unfold accumulate. rewrite Hn. by destruct Hf as [-> | ->]. Qed.

Lemma sum_loop function c s b vs :
  function = Function.sum ∨ function = Function.avg → Forall (λ v, Value.is_null v = false) vs →
  foldM (accumulate function) (c, s, b) vs =
    (xs ← mapR numericAsFloat vs; Ok (c + Z.of_nat (length vs), foldl f64_add s xs, b)).
Proof.
  intros Hf. revert c s. induction vs as [|v vs IH]; intros c s H; cbn [foldM length mapR]; [cbn; by rewrite Z.add_0_r|].
  inversion H as [|? ? Hn Hr]; subst. rewrite sum_step by done. destruct (numericAsFloat v) as [x|e|]; [|done..]. cbn [mbind result_bind].
  rewrite IH by done. destruct (mapR numericAsFloat vs); cbn -[Z.of_nat]; [|done..]. do 3 f_equal. lia.
Qed.

(** [a] stands where MIN or MAX wants it, seen from [b]. *)
Definition beats (function : Function.t) (a b : Value.t) : Prop :=
  match function with Function.min => at_most a b | _ => at_most b a end.

Lemma beats_refl function k a : of_kind k a → beats function a a.
Proof. intros H. pose proof (at_most_refl k a H). by destruct function. Qed.

Lemma beats_trans function k a b c :
  of_kind k a → of_kind k b → of_kind k c → beats function a b → beats function b c → beats function a c.
Proof.
  intros Ha Hb Hc. destruct function; cbn; intros H1 H2;
    first [exact (at_most_trans k a b c Ha Hb Hc H1 H2) | exact (at_most_trans k c b a Hc Hb Ha H2 H1)].
Qed.

Section extremum.
Context (function : Function.t) (Hf : function = Function.min ∨ function = Function.max) (k : kind) (c s : Z).

Lemma kind_clone v : of_kind k v → Value.clone v = Ok v ∧ Value.is_null v = false.
Proof. by destruct k, v. Qed.

Lemma best_first v : of_kind k v → accumulate function (c, s, None) v = Ok (c, s, Some v).
Proof. intros [Hc Hn]%kind_clone. unfold accumulate. rewrite Hn. by destruct Hf as [-> | ->]; rewrite Hc. Qed.

Lemma best_step o v :
  of_kind k o → of_kind k v →
  ∃ b, accumulate function (c, s, Some o) v = Ok (c, s, Some b) ∧ (b = o ∨ b = v) ∧ beats function b o ∧ beats function b v.
Proof.
  intros Ho Hv. destruct (kind_compares k v o Hv Ho) as [d Hd]. destruct (kind_clone v Hv) as [Hc Hn].
  assert (Hlow : d ≤ 0 → at_most v o) by (intros; by exists d). assert (Hhigh : 0 ≤ d → at_most o v) by (by apply at_most_flip).
  pose proof (beats_refl function k v Hv) as Hvv. pose proof (beats_refl function k o Ho) as Hoo.
  unfold accumulate. rewrite Hn, Hd. cbn [mbind result_bind].
  destruct Hf as [-> | ->]; cbn [beats] in *; [destruct (Z.ltb_spec d 0)|destruct (Z.ltb_spec 0 d)]; rewrite ?Hc;
    (eexists; split; [reflexivity|]); split_and!; auto with lia.
Qed.

Lemma best_loop o vs :
  of_kind k o → Forall (of_kind k) vs →
  ∃ b, foldM (accumulate function) (c, s, Some o) vs = Ok (c, s, Some b) ∧ b ∈ o :: vs ∧ Forall (beats function b) (o :: vs).
Proof.
  revert o. induction vs as [|v vs IH]; intros o Ho Hvs; cbn [foldM].
  - exists o. split; [done|]. split; [by left|]. constructor; [by apply (beats_refl _ k)|constructor].
  - inversion Hvs as [|? ? Hv Hr]; subst. destruct (best_step o v Ho Hv) as (b & -> & Hb & Hbo & Hbv). cbn [mbind result_bind].
    assert (Hbk : of_kind k b) by (by destruct Hb as [-> | ->]). destruct (IH b Hbk Hr) as (b' & -> & Hin & Hall). exists b'. split; [done|].
    apply Forall_cons in Hall as [Hb'b Hall]. apply Forall_cons in Hvs as [_ Hvs].
    assert (Hb'k : of_kind k b') by (apply elem_of_cons in Hin as [->|Hin]; [done|by eapply Forall_forall in Hin; [|exact Hvs]]).
    split.
    + apply elem_of_cons in Hin as [->|Hin]; [|by do 2 right]. destruct Hb as [-> | ->]; [by left|by right; left].
    + do 2 (constructor; [by eapply (beats_trans _ k); [..|exact Hb'b|]; try done|]). exact Hall.
Qed.

Lemma best_values vs :
  Forall (of_kind k) vs →
  ∃ best, foldM (accumulate function) (c, s, None) vs = Ok (c, s, best) ∧
    match best with None => vs = [] | Some b => b ∈ vs ∧ Forall (beats function b) vs end.
Proof.
  destruct 1 as [|v vs Hv Hvs]; [by exists None|]. cbn [foldM]. rewrite best_first by done. cbn [mbind result_bind].
  destruct (best_loop v vs Hv Hvs) as (b & -> & H). by exists (Some b).
Qed.
End extremum.

(** ** The functions *)

(** What a function makes of the values that take part. *)
Definition aggregates (function : Function.t) (vs : list Value.t) (outcome : Result Value.t) : Prop :=
  match function with
  | Function.count => outcome = (n ← checked_i64 (Z.of_nat (length vs)); Ok (Value.integer n))
  | Function.sum =>
      outcome = (xs ← mapR numericAsFloat vs; Ok (match xs with [] => Value.null | _ => Value.float (foldl f64_add f64_zero xs) end))
  | Function.avg =>
      outcome = (xs ← mapR numericAsFloat vs;
                 Ok (match xs with
                     | [] => Value.null
                     | _ => Value.float (f64_div (foldl f64_add f64_zero xs) (f64_of_int (Z.of_nat (length xs))))
                     end))
  | Function.min | Function.max =>
      ∀ k, Forall (of_kind k) vs →
        match vs with
        | [] => outcome = Ok Value.null
        | _ => ∃ v, outcome = Ok v ∧ v ∈ vs ∧ Forall (beats function v) vs
        end
  end.

(** C26: the aggregate functions compute what their names say of the values their argument has on the rows of a group, nulls left
    out: COUNT their number, SUM and AVG the floating-point sum in the order of the rows and its quotient by the number,
    null for no values and a type error for a value that is no number, MIN and MAX one of the values that none is below or
    above, if they are of one type and not NaN.  COUNT of a star is the number of rows. *)
Theorem aggregate_semantics (rs : RowSet.t) (group : Group.t) (name : bytes) (function : Function.t) (arg : Expression.t) (values : list Value.t) :
  functionForName name = Some function → argument_values rs arg (Group.row_indices group) = Ok values →
  (arg ≠ Expression.star → aggregates function (present values) (evalAggregateCall rs group name [arg])) ∧
  (function = Function.count → evalAggregateCall rs group name [Expression.star] =
     (n ← checked_i64 (Z.of_nat (length (Group.row_indices group))); Ok (Value.integer n))).
Proof.
  intros Hname Hvalues. split; [|intros ->; unfold evalAggregateCall; by rewrite Hname].
  intros Harg. pose proof (present_not_null values) as Hn. set (vs := present values) in *.
  assert (E : evalAggregateCall rs group name [arg] =
    (st ← foldM (accumulate function) (0, f64_zero, None) vs;
     let '(count, sum, best) := st in
     match function with
     | Function.count => n ← checked_i64 count; Ok (Value.integer n)
     | Function.sum => Ok (if count =? 0 then Value.null else Value.float sum)
     | Function.avg => Ok (if count =? 0 then Value.null else Value.float (f64_div sum (f64_of_int count)))
     | Function.min | Function.max => Ok (default Value.null best)
     end)).
  { unfold vs. rewrite <- (accumulate_values function rs arg _ _ _ Hvalues). unfold evalAggregateCall. rewrite Hname.
    destruct arg, function; done. }
  rewrite E. clear E. destruct function; cbn [aggregates].
  - by rewrite count_loop.
  - rewrite sum_loop by auto. destruct (mapR numericAsFloat vs) as [xs|e|] eqn:Hxs; [|done..]. cbn [mbind result_bind].
    apply mapR_length in Hxs. rewrite <- Hxs. by destruct xs.
  - rewrite sum_loop by auto. destruct (mapR numericAsFloat vs) as [xs|e|] eqn:Hxs; [|done..]. cbn [mbind result_bind].
    apply mapR_length in Hxs. rewrite <- Hxs. by destruct xs.
  - intros k Hk. destruct (best_values Function.min (or_introl eq_refl) k 0 f64_zero vs Hk) as (best & -> & Hb). cbn [mbind result_bind].
    destruct best as [b|]; [|by rewrite Hb]. destruct vs; [by apply proj1, not_elem_of_nil in Hb|]. by exists b.
  - intros k Hk. destruct (best_values Function.max (or_intror eq_refl) k 0 f64_zero vs Hk) as (best & -> & Hb). cbn [mbind result_bind].
    destruct best as [b|]; [|by rewrite Hb]. destruct vs; [by apply proj1, not_elem_of_nil in Hb|]. by exists b.
Qed.

(** A group with a null, [7], NULL, [3], [5]. *)
Definition score_rows : RowSet.t :=
  RowSet.mk [ColumnBinding.mk (B "score") [B "t"]] [[Value.integer 7]; [Value.null]; [Value.integer 3]; [Value.integer 5]].

Lemma aggregate_semantics_witness :
  let group := Group.mk [] [0; 1; 2; 3]%nat in
  let scores := [Value.integer 7; Value.integer 3; Value.integer 5] in
  (∃ v, evalAggregateCall score_rows group (B "Min") [Expression.identifier (B "score")] = Ok v ∧ v ∈ scores ∧
        Forall (beats Function.min v) scores) ∧
  evalAggregateCall score_rows group (B "COUNT") [Expression.star] = Ok (Value.integer 4).
Proof.
  set (values := [Value.integer 7; Value.null; Value.integer 3; Value.integer 5]). split.
  - destruct (aggregate_semantics score_rows (Group.mk [] [0; 1; 2; 3]%nat) (B "Min") Function.min (Expression.identifier (B "score")) values)
      as [H _]; [reflexivity|vm_compute; reflexivity|]. specialize (H ltac:(discriminate) k_integer). apply H. by repeat constructor.
  - destruct (aggregate_semantics score_rows (Group.mk [] [0; 1; 2; 3]%nat) (B "COUNT") Function.count (Expression.identifier (B "score")) values)
      as [_ H]; [reflexivity|vm_compute; reflexivity|]. exact (H eq_refl).
Defined.
