(* ===== verification/Registries.v ===== *)
(** * Views and stored procedures

    Models [src/src/db/view.zig], [procedure.zig], the body syntax of [src/src/sql/procedure_body.zig]
    and the procedure part of [executor.zig]: variables, the evaluation of procedure expressions, and
    the substitution of variables into the SQL statements of a body ([materialize...]).

    The parser the procedure registry calls is an argument: [parse_body] is [procedure_body.parse]
    ([None] for its [UnsupportedProcedure] error), which [ProcedureBody] models. *)

From S2P Require Import Prelude Float Value Ast Eval.

(** ** view.zig *)
Inductive ViewDiagnosticKind := view_duplicate_object | view_unknown_object | view_unsupported_view.

Definition view_diagnosticFromError (err : Error) : option ViewDiagnosticKind :=
  match err with
  | DuplicateObject => Some view_duplicate_object
  | UnknownObject => Some view_unknown_object
  | UnsupportedView => Some view_unsupported_view
  | _ => None
  end.

Definition cloneProjection (p : Projection.t) : Projection.t :=
  Projection.mk (cloneExpression (Projection.expression p)) (Projection.alias p).

Definition cloneOrderKey (o : OrderKey.t) : OrderKey.t :=
  OrderKey.mk (cloneExpression (OrderKey.expression o)) (OrderKey.direction o).

Fixpoint cloneSelect (source : SelectStatement) : SelectStatement :=
  match source with
  | Select ctes projection_items projections from row_source where_clause group_by having order_by limit =>
      Select (cloneCte <$> ctes) (cloneProjection <$> projection_items) (cloneExpression <$> projections) from
        (match row_source with Some r => Some (cloneRowSource r) | None => None end)
        (cloneExpression <$> where_clause) (cloneExpression <$> group_by) (cloneExpression <$> having)
        (cloneOrderKey <$> order_by) limit
  end
with cloneRowSource (source : RowSource) : RowSource :=
  match source with
  | base_table name alias => base_table name alias
  | derived_table query alias => derived_table (cloneSelect query) alias
  | join l join_type r on => join (cloneRowSource l) join_type (cloneRowSource r) (cloneExpression <$> on)
  end
with cloneCte (cte : CommonTableExpression) : CommonTableExpression :=
  match cte with Cte name query => Cte name (cloneSelect query) end.

Module StoredView.
Record t := mk { name : bytes; query : SelectStatement }.
End StoredView.

Module ViewRegistry.
Record t := mk { views : list StoredView.t }.

Definition init : t := mk [].

Definition findIndex (self : t) (name : bytes) : option nat :=
  find_index (λ stored, eqlIgnoreCase (StoredView.name stored) name) (views self).

Definition create (self : t) (name : bytes) (query : SelectStatement) : Result t :=
  _ ← fail_if (bool_decide (is_Some (findIndex self name))) DuplicateObject;
  let '(Select _ _ _ from source _ _ _ _ _) := query in
  _ ← fail_if (match source, from with None, None => true | _, _ => false end) UnsupportedView;
  Ok (mk (views self ++ [StoredView.mk name (cloneSelect query)])).

Definition drop (self : t) (name : bytes) : Result t :=
  index ← orelse (findIndex self name) UnknownObject;
  Ok (mk (delete index (views self))).

Definition get (self : t) (name : bytes) : option StoredView.t :=
  index ← findIndex self name; views self !! index.
End ViewRegistry.

(** ** procedure_body.zig: the syntax of bodies *)
Module ProcedureStatement.
Inductive t :=
  | declare_var (name : bytes) (default_value : option Expression.t)
  | set_var (name : bytes) (value : Expression.t)
  | sql (statement : Statement.t)
  | if_statement (condition : Expression.t) (then_body else_body : list t)
  | while_statement (condition : Expression.t) (body : list t).
End ProcedureStatement.

(** [Body.statements] *)
Abbreviation Body := (list ProcedureStatement.t).

(** ** procedure.zig *)
Inductive ProcedureDiagnosticKind := proc_duplicate_object | proc_unknown_object | proc_unsupported_procedure.

Definition procedure_diagnosticFromError (err : Error) : option ProcedureDiagnosticKind :=
  match err with
  | DuplicateObject => Some proc_duplicate_object
  | UnknownObject => Some proc_unknown_object
  | UnsupportedProcedure => Some proc_unsupported_procedure
  | _ => None
  end.

Module StoredProcedure.
Record t := mk { name : bytes; params : list ProcedureParam.t; body : Body }.
End StoredProcedure.

Definition cloneParams (params : list ProcedureParam.t) : list ProcedureParam.t :=
  (λ p, ProcedureParam.mk (ProcedureParam.name p) (ProcedureParam.column_type p) (ProcedureParam.mode p)) <$> params.

Module ProcedureRegistry.
Record t := mk { procedures : list StoredProcedure.t }.

Definition init : t := mk [].

Definition findIndex (self : t) (name : bytes) : option nat :=
  find_index (λ stored, eqlIgnoreCase (StoredProcedure.name stored) name) (procedures self).

Definition create (parse_body : bytes → option Body) (self : t) (name : bytes) (params : list ProcedureParam.t)
    (body_sql : bytes) : Result t :=
  _ ← fail_if (bool_decide (is_Some (findIndex self name))) DuplicateObject;
  body ← orelse (parse_body body_sql) UnsupportedProcedure;
  Ok (mk (procedures self ++ [StoredProcedure.mk name (cloneParams params) body])).

Definition drop (self : t) (name : bytes) : Result t :=
  index ← orelse (findIndex self name) UnknownObject;
  Ok (mk (delete index (procedures self))).

Definition get (self : t) (name : bytes) : option StoredProcedure.t :=
  index ← findIndex self name; procedures self !! index.
End ProcedureRegistry.

(** ** executor.zig: procedure variables *)
Module ProcedureVariable.
Record t := mk { name : bytes; runtime_value : Value.t }.
End ProcedureVariable.

Module ProcedureEnv.
Record t := mk { variables : list ProcedureVariable.t }.

Definition init : t := mk [].

Definition findIndex (self : t) (name : bytes) : option nat :=
  find_index (λ variable, eqlIgnoreCase (ProcedureVariable.name variable) name) (variables self).

Definition declare (self : t) (name : bytes) (runtime_value : Value.t) : Result t :=
  _ ← fail_if (bool_decide (is_Some (findIndex self name))) DuplicateObject;
  Ok (mk (variables self ++ [ProcedureVariable.mk name runtime_value])).

Definition set (self : t) (name : bytes) (runtime_value : Value.t) : Result t :=
  index ← orelse (findIndex self name) UnknownObject;
  Ok (mk (alter (λ v, ProcedureVariable.mk (ProcedureVariable.name v) runtime_value) index (variables self))).

Definition get (self : t) (name : bytes) : option Value.t :=
  index ← findIndex self name; ProcedureVariable.runtime_value <$> variables self !! index.
End ProcedureEnv.

Fixpoint evalProcedureExpression (env : ProcedureEnv.t) (expression : Expression.t) : Result Value.t :=
  match expression with
  | Expression.literal l => valueFromLiteral l
  | Expression.identifier identifier =>
      runtime_value ← orelse (ProcedureEnv.get env identifier) UnknownObject;
      Value.clone runtime_value
  | Expression.binary e1 operator e2 =>
      l ← evalProcedureExpression env e1;
      r ← evalProcedureExpression env e2;
      evalBinaryValues l r operator
  | Expression.function_call _ _ => Err UnsupportedExpression
  | Expression.star => Err UnsupportedExpression
  end.

(** ** executor.zig: substitution of variables *)
Definition literalFromValue (runtime_value : Value.t) : Result Literal.t :=
  match runtime_value with
  | Value.null => Ok Literal.null
  | Value.integer v => Ok (Literal.integer v)
  | Value.float v => Ok (Literal.float v)
  | Value.boolean v => Ok (Literal.boolean v)
  | Value.text v => Ok (Literal.string v)
  | Value.blob _ => Err UnsupportedProcedure
  | Value.vector v => Ok (Literal.vector (f64_of_f32 <$> Vector.values v))
  end.

Definition cloneLiteralForProcedure (literal : Literal.t) : Literal.t := cloneLiteral literal.

(** A [for] loop over an optional field. *)
Definition mapO {A C} (f : A → Result C) (o : option A) : Result (option C) :=
  match o with Some a => b ← f a; Ok (Some b) | None => Ok None end.

Section materialize.
Context (env : ProcedureEnv.t).

Fixpoint materializeProcedureExpression (expression : Expression.t) : Result Expression.t :=
  match expression with
  | Expression.identifier identifier =>
      match ProcedureEnv.get env identifier with
      | Some runtime_value => l ← literalFromValue runtime_value; Ok (Expression.literal l)
      | None => Ok (Expression.identifier identifier)
      end
  | Expression.literal l => Ok (Expression.literal (cloneLiteralForProcedure l))
  | Expression.star => Ok Expression.star
  | Expression.function_call name args =>
      args' ← mapR materializeProcedureExpression args;
      Ok (Expression.function_call name args')
  | Expression.binary e1 operator e2 =>
      l ← materializeProcedureExpression e1;
      r ← materializeProcedureExpression e2;
      Ok (Expression.binary l operator r)
  end.

Definition materializeExpressions : list Expression.t → Result (list Expression.t) := mapR materializeProcedureExpression.

Definition materializeProjectionItems : list Projection.t → Result (list Projection.t) :=
  mapR (λ p, e ← materializeProcedureExpression (Projection.expression p); Ok (Projection.mk e (Projection.alias p))).

Definition materializeOrderKeys : list OrderKey.t → Result (list OrderKey.t) :=
  mapR (λ o, e ← materializeProcedureExpression (OrderKey.expression o); Ok (OrderKey.mk e (OrderKey.direction o))).

Fixpoint materializeSelectStatement (statement : SelectStatement) : Result SelectStatement :=
  match statement with
  | Select ctes projection_items projections from source where_clause group_by having order_by limit =>
      ctes' ← mapR materializeCte ctes;
      projection_items' ← materializeProjectionItems projection_items;
      projections' ← materializeExpressions projections;
      source' ← match source with
                | Some r => r' ← materializeRowSource r; Ok (Some r')
                | None => Ok None
                end;
      where_clause' ← mapO materializeProcedureExpression where_clause;
      group_by' ← materializeExpressions group_by;
      having' ← mapO materializeProcedureExpression having;
      order_by' ← materializeOrderKeys order_by;
      Ok (Select ctes' projection_items' projections' from source' where_clause' group_by' having' order_by' limit)
  end
with materializeRowSource (source : RowSource) : Result RowSource :=
  match source with
  | base_table name alias => Ok (base_table name alias)
  | derived_table query alias => q ← materializeSelectStatement query; Ok (derived_table q alias)
  | join e1 join_type e2 on =>
      l ← materializeRowSource e1;
      r ← materializeRowSource e2;
      on' ← mapO materializeProcedureExpression on;
      Ok (join l join_type r on')
  end
with materializeCte (cte : CommonTableExpression) : Result CommonTableExpression :=
  match cte with Cte name query => q ← materializeSelectStatement query; Ok (Cte name q) end.

Definition materializeInsertStatement (statement : Insert.t) : Result Insert.t :=
  values ← materializeExpressions (Insert.values statement);
  Ok (Insert.mk (Insert.table_name statement) (Insert.columns statement) values).

Definition materializeUpdateStatement (statement : Update.t) : Result Update.t :=
  assignments ← mapR (λ a, e ← materializeProcedureExpression (Assignment.value a);
                           Ok (Assignment.mk (Assignment.column a) e)) (Update.assignments statement);
  where_clause ← mapO materializeProcedureExpression (Update.where_clause statement);
  Ok (Update.mk (Update.table_name statement) assignments where_clause).

Definition materializeDeleteStatement (statement : Delete.t) : Result Delete.t :=
  where_clause ← mapO materializeProcedureExpression (Delete.where_clause statement);
  Ok (Delete.mk (Delete.table_name statement) where_clause).

Definition materializeProcedureStatement (statement : Statement.t) : Result Statement.t :=
  match statement with
  | Statement.insert s => s' ← materializeInsertStatement s; Ok (Statement.insert s')
  | Statement.update s => s' ← materializeUpdateStatement s; Ok (Statement.update s')
  | Statement.delete s => s' ← materializeDeleteStatement s; Ok (Statement.delete s')
  | Statement.select s => s' ← materializeSelectStatement s; Ok (Statement.select s')
  | _ => Err UnsupportedProcedure
  end.
End materialize.
