(* ===== verification/Substitution.v ===== *)
(** * Variables in the statements of a procedure

    A procedure executes a SQL statement by writing the values of its variables into the statement as literals
    ([materializeProcedureExpression] of [db/executor.zig], in [Registries]) and running the result.  Here is what that means:
    evaluating the rewritten expression on a row is evaluating the original one with the variables shadowing the columns.
    Vectors go through the [f64] components of a literal and come back exactly ([FloatExact]). *)

From S2P Require Import Prelude Float FloatExact Value Catalog RowStore Ast Eval Registries.

(** Identifiers resolved in the variables first, whatever a row has under the same name. *)
Definition shadow (env : ProcedureEnv.t) (resolve : bytes → Result Value.t) (name : bytes) : Result Value.t :=
  match ProcedureEnv.get env name with
  | Some runtime_value => Value.clone runtime_value
  | None => resolve name
  end.

(** Vectors as [Vector.init] makes them, of numbers: the literal syntax has no NaN. *)
Definition exact_value (v : Value.t) : Prop :=
  match v with Value.vector u => Vector.wf u ∧ Forall (λ x, is_nan binary32 x = false) (Vector.values u) | _ => True end.

Definition exact_env (env : ProcedureEnv.t) : Prop :=
  Forall (λ x, exact_value (ProcedureVariable.runtime_value x)) (ProcedureEnv.variables env).

(** The names an expression mentions. *)
Fixpoint mentions (e : Expression.t) : list bytes :=
  match e with
  | Expression.identifier n => [n]
  | Expression.binary e1 _ e2 => mentions e1 ++ mentions e2
  | Expression.function_call _ args => args ≫= mentions
  | _ => []
  end.

Lemma get_exact env name v : exact_env env → ProcedureEnv.get env name = Some v → exact_value v.
Proof.
  unfold ProcedureEnv.get. intros He. destruct (ProcedureEnv.findIndex env name) as [i|]; [|done]. cbn.
  destruct (ProcedureEnv.variables env !! i) as [x|] eqn:Hx; [|done]. intros [= <-]. by apply (Forall_lookup_1 _ _ _ _ He Hx).
Qed.

(** A value written as a literal is read back as its clone. *)
Lemma literal_reads_back v l : exact_value v → literalFromValue v = Ok l → valueFromLiteral l = Value.clone v.
Proof.
  destruct v as [| | | | | |u]; intros Hv [= <-]; try done. cbn. destruct Hv as [(Hpos & Hlen & Hb) Hn].
  rewrite length_fmap, <- list_fmap_compose. unfold Vector.clone, Value.initVector. rewrite <- Hlen.
  assert (E : f32_of_f64 ∘ f64_of_f32 <$> Vector.values u = Vector.values u).
  { clear Hlen. induction (Vector.values u) as [|x xs IH]; [done|]. inversion Hb; inversion Hn; subst. cbn. f_equal; [by apply f32_f64_f32|auto]. }
  rewrite E. by destruct (Vector.element_type u).
Qed.

Lemma materialize_evaluates env resolve e e' :
  exact_env env → materializeProcedureExpression env e = Ok e' → evalWith resolve e' = evalWith (shadow env resolve) e.
Proof.
  intros He. revert e'. induction e as [|n|l|n args IH|l op r IHl IHr] using Expression.nested_ind; intros e' H; cbn in H.
  - by injection H as <-.
  - cbn. unfold shadow. destruct (ProcedureEnv.get env n) as [v|] eqn:Hv; [|by injection H as <-].
    apply bind_ok_inv in H as (l & Hl & H). injection H as <-. cbn. apply literal_reads_back; [by eapply get_exact|done].
  - injection H as <-. cbn. by destruct l.
  - apply bind_ok_inv in H as (args' & Ha & H). injection H as <-. cbn. destruct (orelse _ _) as [fn|err|]; [|done|done]. cbn.
    apply mapR_ok_inv in Ha. destruct args as [|a [|b [|c args]]]; inversion Ha as [|? a' ? ? Ha1 Ha2]; subst; [done|..].
    + by inversion Ha2.
    + inversion Ha2 as [|? b' ? ? Hb1 Hb2]; subst. inversion Hb2; subst. inversion IH as [|? ? H1 H2]; inversion H2 as [|? ? H3 _]; subst.
      by rewrite (H1 _ Ha1), (H3 _ Hb1).
    + inversion Ha2 as [|? b' ? ? Hb1 Hb2]; subst. by inversion Hb2.
  - apply bind_ok_inv in H as (l' & Hl & H). apply bind_ok_inv in H as (r' & Hr & H). injection H as <-. cbn.
    by rewrite (IHl _ Hl), (IHr _ Hr).
Qed.

(** A variable that an expression mentions holds a blob, for which there is no literal. *)
Definition mentions_blob (env : ProcedureEnv.t) (e : Expression.t) : Prop :=
  ∃ n b, n ∈ mentions e ∧ ProcedureEnv.get env n = Some (Value.blob b).

Lemma materialize_outcome env e :
  (∃ e', materializeProcedureExpression env e = Ok e' ∧ ¬ mentions_blob env e) ∨
  (materializeProcedureExpression env e = Err UnsupportedProcedure ∧ mentions_blob env e).
Proof.
  induction e as [|n|l|n args IH|l op r IHl IHr] using Expression.nested_ind; cbn.
  - left. eexists. split; [done|]. intros (n & b & Hn & _). by apply not_elem_of_nil in Hn.
  - destruct (ProcedureEnv.get env n) as [v|] eqn:Hv.
    + destruct v as [| | | | |b|]; try (left; eexists; split; [done|]; intros (n' & b & ->%list_elem_of_singleton & Hb); congruence).
      right. split; [done|]. exists n, b. split; [by apply list_elem_of_singleton|done].
    + left. eexists. split; [done|]. intros (n' & b & ->%list_elem_of_singleton & Hb). congruence.
  - left. eexists. split; [done|]. intros (n & b & Hn & _). by apply not_elem_of_nil in Hn.
  - assert (Ha : (∃ args', mapR (materializeProcedureExpression env) args = Ok args' ∧ ¬ mentions_blob env (Expression.function_call n args)) ∨
                 (mapR (materializeProcedureExpression env) args = Err UnsupportedProcedure ∧ mentions_blob env (Expression.function_call n args))).
    { induction IH as [|a args [(a' & Ha & Hn)|[Ha Hb]] _ IH]; cbn.
      - left. eexists. split; [done|]. intros (m & b & Hm & _). by apply not_elem_of_nil in Hm.
      - rewrite Ha. destruct IH as [(args' & Hargs & Hn')|[Hargs (m & b & Hm & Hb)]]; cbn; rewrite Hargs; [left|right].
        + eexists. split; [done|]. intros (m & b & [Hm|Hm]%elem_of_app & Hb); [apply Hn|apply Hn']; by exists m, b.
        + split; [done|]. exists m, b. split; [by apply elem_of_app; right|done].
      - rewrite Ha. right. split; [done|]. destruct Hb as (m & b & Hm & Hb). exists m, b. split; [by apply elem_of_app; left|done]. }
    destruct Ha as [(args' & -> & Hn)|[-> Hb]]; [left; by eexists|by right].
  - destruct IHl as [(l' & -> & Hnl)|[-> (m & b & Hm & Hb)]]; cbn.
    2: { right. split; [done|]. exists m, b. split; [by apply elem_of_app; left|done]. }
    destruct IHr as [(r' & -> & Hnr)|[-> (m & b & Hm & Hb)]]; cbn.
    2: { right. split; [done|]. exists m, b. split; [by apply elem_of_app; right|done]. }
    left. eexists. split; [done|]. intros (m & b & [Hm|Hm]%elem_of_app & Hb); [apply Hnl|apply Hnr]; by exists m, b.
Qed.

(** What a procedure computes itself, in a condition or an assignment, is what the statement would compute on any row. *)
Lemma procedure_evaluates env resolve e v :
  evalProcedureExpression env e = Ok v → evalWith (shadow env resolve) e = Ok v.
Proof.
  revert v. induction e as [|n|l|n args _|l op r IHl IHr] using Expression.nested_ind; intros v H; cbn in H |- *; [done| |done|done|].
  - apply bind_ok_inv in H as (x & Hx%orelse_ok_inv & H). unfold shadow. by rewrite Hx.
  - apply bind_ok_inv in H as (x & Hx & H). apply bind_ok_inv in H as (y & Hy & H). by rewrite (IHl _ Hx), (IHr _ Hy).
Qed.

(** C20: substituting the variables of a procedure is evaluating with the variables in scope.  Writing the values of the variables
    into an expression fails exactly if a variable it mentions holds a blob; otherwise the rewritten expression has, on
    every row, the value (or the error) that the original one has when the variables shadow the columns, so a WHERE clause
    keeps the rows the original would; and where the procedure can evaluate the expression itself, all three
    agree. *)
Theorem substitution_shadows (env : ProcedureEnv.t) (e : Expression.t) :
  exact_env env →
  (materializeProcedureExpression env e = Err UnsupportedProcedure ∧ mentions_blob env e) ∨
  (∃ e', materializeProcedureExpression env e = Ok e' ∧ ¬ mentions_blob env e ∧
     (∀ resolve, evalWith resolve e' = evalWith (shadow env resolve) e) ∧
     (∀ table row, matchesWhere table row (Some e') = (v ← evalWith (shadow env (resolveColumn table row)) e; expect_boolean v)) ∧
     (∀ resolve v, evalProcedureExpression env e = Ok v → evalWith resolve e' = Ok v)).
Proof.
  intros He. destruct (materialize_outcome env e) as [(e' & Hm & Hn)|H]; [right|by left]. exists e'.
  pose proof (λ resolve, materialize_evaluates env resolve e e' He Hm) as Heval. split_and!; [done|done|done| |].
  - intros table row. cbn. unfold evalExpression. by rewrite Heval.
  - intros resolve v Hv. rewrite Heval. by apply procedure_evaluates.
Qed.

(** A variable [x] that shadows the column, and a vector next to it: [x + 1 > y]. *)
Definition sample_env : ProcedureEnv.t :=
  ProcedureEnv.mk [ProcedureVariable.mk (B "x") (Value.integer 41);
                   ProcedureVariable.mk (B "v") (Value.vector (Vector.mk float32 2 [0x3f800000; 0x3eaaaaab]))].

Definition sample_condition : Expression.t :=
  Expression.binary (Expression.binary (Expression.identifier (B "X")) add (Expression.literal (Literal.integer 1))) greater_than
    (Expression.identifier (B "y")).

Lemma substitution_shadows_witness :
  exact_env sample_env ∧
  ∃ e', materializeProcedureExpression sample_env sample_condition = Ok e' ∧
    evalWith (λ _, Ok (Value.integer 7)) e' = Ok (Value.boolean true).
Proof.
  assert (He : exact_env sample_env) by (repeat constructor; cbn; lia). split; [exact He|].
  destruct (substitution_shadows sample_env sample_condition He) as [[H _]|(e' & H & _ & Hv & _)]; [vm_compute in H; discriminate|].
  exists e'. split; [exact H|]. rewrite Hv. vm_compute. reflexivity.
Defined.
