(* ===== verification/ProcedureBody.v ===== *)
(** * The procedure body parser

    Models the parser of [src/src/sql/procedure_body.zig]: control flow by recursive descent over the tokens of the body, the
    expressions and SQL statements inside cut out of the text and given to [Parser].  Its only error is
    [UnsupportedProcedure].  The token functions that it shares word for word with the SQL parser ([peek], [advance],
    [matchKeyword], [matchSymbol], [normalizedIdentifier], [trim]) are those of [Parser]; the loops have fuel as there. *)

From S2P Require Import Prelude Tokenizer Ast Parser Registries.

(** The functions of the body parser; its only error. *)
Inductive BodyParseError := UnsupportedBody.

Abbreviation body_parser := (parsing BodyParseError).

Definition unsupported {A} : body_parser A := fail UnsupportedBody.

(** ** Tokens *)

Definition body_advance : body_parser Token.t :=
  t ← advance;
  match t with Some t => mret t | None => unsupported end.

Definition body_expectKeyword (keyword : string) : body_parser () :=
  t ← body_advance;
  if negb (Token.eqlIgnoreCase t (B keyword)) then unsupported else mret ().

Definition body_expectSymbol (s : string) : body_parser () :=
  t ← body_advance;
  if negb (is_symbol t s) then unsupported else mret ().

Definition body_expectIdentifierOwned : body_parser bytes :=
  t ← body_advance;
  if negb (isIdentifier t) then unsupported else mret (normalizedIdentifier t).

Definition isUnsupportedStoredProgramToken (t : Token.t) : bool :=
  is_keyword t ["CURSOR"; "HANDLER"; "PREPARE"; "EXECUTE"; "DEALLOCATE"; "OPEN"; "FETCH"; "CLOSE"; "LEAVE"; "ITERATE";
                "REPEAT"; "LOOP"; "CASE"; "SIGNAL"; "RESIGNAL"; "RETURN"]%string.

(** ** Pieces of the text *)

(** [while (self.advance()) |token| ...]: the offset of the semicolon outside parentheses, consumed. *)
Fixpoint semicolon_from (depth : nat) (ts : list Token.t) : option (nat * list Token.t) :=
  match ts with
  | [] => None
  | t :: ts' =>
      if is_symbol t "(" then semicolon_from (S depth) ts'
      else if is_symbol t ")" then semicolon_from (pred depth) ts'
      else if is_symbol t ";" && (depth =? 0)%nat then Some (Token.offset t, ts')
      else semicolon_from depth ts'
  end.

(** [while (self.peek()) |token| ...]: the offset of the keyword outside parentheses, consumed. *)
Fixpoint keyword_from (keyword : string) (depth : nat) (ts : list Token.t) : option (nat * list Token.t) :=
  match ts with
  | [] => None
  | t :: ts' =>
      if is_symbol t "(" then keyword_from keyword (S depth) ts'
      else if is_symbol t ")" then keyword_from keyword (pred depth) ts'
      else if (depth =? 0)%nat && Token.eqlIgnoreCase t (B keyword) then Some (Token.offset t, ts')
      else keyword_from keyword depth ts'
  end.

Section body.
Context (sql : bytes).

(** The text from the next token up to the place that the search finds. *)
Definition collect (search : list Token.t → option (nat * list Token.t)) : body_parser bytes :=
  first ← peek;
  match first with
  | None => unsupported
  | Some first =>
      Parsing (λ ts, match search ts with
                     | Some (stop, ts') => Done (trim (slice sql (Token.offset first) stop)) ts'
                     | None => Fail UnsupportedBody
                     end)
  end.

Definition collectUntilSemicolon : body_parser bytes := collect (semicolon_from 0).

Definition collectUntilKeyword (keyword : string) : body_parser bytes := collect (keyword_from keyword 0).

(** What the SQL parser makes of a piece; [Stuck] would be a parser that does not end. *)
Definition parseExpressionSlice (expression_sql : bytes) : body_parser Expression.t :=
  if bool_decide (length expression_sql = 0%nat) then unsupported
  else
    match parseExpressionOnly expression_sql with
    | Some (inl e) => mret e
    | Some (inr _) => unsupported
    | None => stuck
    end.

Definition parseExpressionUntilSemicolon : body_parser Expression.t :=
  piece ← collectUntilSemicolon; parseExpressionSlice piece.

Definition parseExpressionUntilKeyword (keyword : string) : body_parser Expression.t :=
  piece ← collectUntilKeyword keyword; parseExpressionSlice piece.

(** The SQL statements a body may contain. *)
Definition is_data_statement (s : Statement.t) : bool :=
  match s with
  | Statement.insert _ | Statement.update _ | Statement.delete _ | Statement.select _ => true
  | _ => false
  end.

Definition parseSqlStatement : body_parser ProcedureStatement.t :=
  piece ← collectUntilSemicolon;
  match parse piece with
  | Some (inl s) => if is_data_statement s then mret (ProcedureStatement.sql s) else unsupported
  | Some (inr _) => unsupported
  | None => stuck
  end.

(** ** Statements *)

Fixpoint declare_loop (name : bytes) (fuel : nat) : body_parser ProcedureStatement.t :=
  match fuel with
  | O => stuck
  | S fuel' =>
      t ← peek;
      match t with
      | None => unsupported
      | Some t =>
          if is_symbol t ";" then _ ← advance; mret (ProcedureStatement.declare_var name None)
          else if is_keyword t ["CURSOR"; "HANDLER"; "CONDITION"]%string then unsupported
          else if Token.eqlIgnoreCase t (B "DEFAULT") then
            _ ← advance;
            e ← parseExpressionUntilSemicolon;
            mret (ProcedureStatement.declare_var name (Some e))
          else _ ← advance; declare_loop name fuel'
      end
  end.

Definition parseDeclare : body_parser ProcedureStatement.t :=
  name ← body_expectIdentifierOwned;
  fuelled (declare_loop name).

Definition parseSet : body_parser ProcedureStatement.t :=
  name ← body_expectIdentifierOwned;
  body_expectSymbol "=" ;;
  e ← parseExpressionUntilSemicolon;
  mret (ProcedureStatement.set_var name e).

Record StopSet := Stop { else_keyword : bool; end_keyword : bool }.

Section statement.

(** The statements inside a statement. *)
Context (body_parseStatement : body_parser ProcedureStatement.t).

Fixpoint statements_loop (stop : StopSet) (fuel : nat) (acc : Body) : body_parser Body :=
  match fuel with
  | O => stuck
  | S fuel' =>
      t ← peek;
      match t with
      | None => mret acc
      | Some t =>
          if else_keyword stop && Token.eqlIgnoreCase t (B "ELSE") then mret acc
          else if end_keyword stop && Token.eqlIgnoreCase t (B "END") then mret acc
          else s ← body_parseStatement; statements_loop stop fuel' (acc ++ [s])
      end
  end.

Definition parseStatementsUntil (stop : StopSet) : body_parser Body := fuelled (λ fuel, statements_loop stop fuel []).

Definition parseIf : body_parser ProcedureStatement.t :=
  condition ← parseExpressionUntilKeyword "THEN";
  then_body ← parseStatementsUntil (Stop true true);
  b ← matchKeyword "ELSE";
  else_body ← (if b : bool then parseStatementsUntil (Stop false true) else mret []);
  body_expectKeyword "END" ;;
  body_expectKeyword "IF" ;;
  body_expectSymbol ";" ;;
  mret (ProcedureStatement.if_statement condition then_body else_body).

Definition parseWhile : body_parser ProcedureStatement.t :=
  condition ← parseExpressionUntilKeyword "DO";
  body ← parseStatementsUntil (Stop false true);
  body_expectKeyword "END" ;;
  body_expectKeyword "WHILE" ;;
  body_expectSymbol ";" ;;
  mret (ProcedureStatement.while_statement condition body).

Definition procedure_statement : body_parser ProcedureStatement.t :=
  t ← peek;
  match t with
  | None => unsupported
  | Some t =>
      if Token.eqlIgnoreCase t (B "DECLARE") then _ ← advance; parseDeclare
      else if Token.eqlIgnoreCase t (B "SET") then _ ← advance; parseSet
      else if Token.eqlIgnoreCase t (B "IF") then _ ← advance; parseIf
      else if Token.eqlIgnoreCase t (B "WHILE") then _ ← advance; parseWhile
      else if isUnsupportedStoredProgramToken t then unsupported
      else parseSqlStatement
  end.

End statement.

Fixpoint procedure_statement_loop (fuel : nat) : body_parser ProcedureStatement.t :=
  match fuel with
  | O => stuck
  | S fuel' => procedure_statement (procedure_statement_loop fuel')
  end.

Definition parseProcedureStatement : body_parser ProcedureStatement.t := fuelled procedure_statement_loop.

(** To the end of the input. *)
Definition parseBody : body_parser Body :=
  body_expectKeyword "BEGIN" ;;
  body ← parseStatementsUntil parseProcedureStatement (Stop false true);
  body_expectKeyword "END" ;;
  consumeSemicolons ;;
  rest ← peek;
  match rest with Some _ => unsupported | None => mret body end.

End body.

(** A body or the error; [None] if a loop did not end. *)
Definition parse_procedure (body_sql : bytes) : option (Body + BodyParseError) :=
  match run (parseBody body_sql) (tokenize body_sql) with
  | Done body _ => Some (inl body)
  | Fail e => Some (inr e)
  | Stuck => None
  end.

(** What the procedure registry sees of it. *)
Definition parse_body (body_sql : bytes) : option Body :=
  match parse_procedure body_sql with Some (inl b) => Some b | _ => None end.
