(* ===== verification/ProcedureFacts.v ===== *)
(** * The procedure body parser: termination and contents

    The rules of [ParserRules] applied to [ProcedureBody], and what a parsed body consists of. *)

From S2P Require Import Prelude Tokenizer Policy Ast Parser ParserRules ParserFacts Registries ProcedureBody.

(** ** Contents *)

(** Every SQL statement inside, at any depth, satisfies the predicate. *)
Fixpoint all_sql (p : Statement.t → bool) (s : ProcedureStatement.t) : bool :=
  match s with
  | ProcedureStatement.declare_var _ _ | ProcedureStatement.set_var _ _ => true
  | ProcedureStatement.sql s => p s
  | ProcedureStatement.if_statement _ t f => forallb (all_sql p) t && forallb (all_sql p) f
  | ProcedureStatement.while_statement _ b => forallb (all_sql p) b
  end.

Definition data_only (s : ProcedureStatement.t) : Prop := all_sql is_data_statement s = true.

Definition data_body (b : Body) : Prop := forallb (all_sql is_data_statement) b = true.

Lemma data_body_snoc b s : data_body b → data_only s → data_body (b ++ [s]).
Proof. unfold data_body, data_only. intros Hb Hs. by rewrite forallb_app, Hb; cbn; rewrite Hs. Qed.

(** ** The functions *)

Section safe.
Context (sql : bytes) (all : list Token.t).

Local Notation safe := (safe (@any BodyParseError) all).

Lemma safe_unsupported {A} n s (P : A → Prop) : safe n s unsupported P.
Proof. by apply safe_fail. Qed.

Hint Resolve safe_unsupported : safe_fail.

Lemma safe_body_advance n : safe n true body_advance any.
Proof. intros [|t ts] Ht _; cbn; [done|]. split_and!; [done|by exists [t]|lia]. Qed.

Hint Resolve safe_body_advance : safe.

Lemma safe_body_expectKeyword n x : safe n true (body_expectKeyword x) any.
Proof. unfold body_expectKeyword. safe_auto. Qed.

Lemma safe_body_expectSymbol n x : safe n true (body_expectSymbol x) any.
Proof. unfold body_expectSymbol. safe_auto. Qed.

Lemma safe_body_expectIdentifierOwned n : safe n true body_expectIdentifierOwned any.
Proof. unfold body_expectIdentifierOwned. safe_auto. Qed.

Hint Resolve safe_body_expectKeyword safe_body_expectSymbol safe_body_expectIdentifierOwned : safe.

(** What is left after a search that found its token. *)
Definition passed (rest ts : list Token.t) : Prop := rest `suffix_of` ts ∧ (length rest < length ts)%nat.

Lemma passed_cons t rest ts : passed rest ts → passed rest (t :: ts).
Proof. intros [Hs Hl]. split; [by apply suffix_cons_r|cbn; lia]. Qed.

Lemma passed_here t ts : passed ts (t :: ts).
Proof. split; [by exists [t]|cbn; lia]. Qed.

Lemma semicolon_from_passed ts : ∀ depth stop rest, semicolon_from depth ts = Some (stop, rest) → passed rest ts.
Proof.
  induction ts as [|t ts IH]; intros depth stop rest; cbn [semicolon_from]; [done|].
  destruct (is_symbol t "("); [intros H; by eapply passed_cons, IH|].
  destruct (is_symbol t ")"); [intros H; by eapply passed_cons, IH|].
  case_match; [intros [= <- <-]; apply passed_here|intros Hr; by eapply passed_cons, IH].
Qed.

Lemma keyword_from_passed x ts : ∀ depth stop rest, keyword_from x depth ts = Some (stop, rest) → passed rest ts.
Proof.
  induction ts as [|t ts IH]; intros depth stop rest; cbn [keyword_from]; [done|].
  destruct (is_symbol t "("); [intros H; by eapply passed_cons, IH|].
  destruct (is_symbol t ")"); [intros H; by eapply passed_cons, IH|].
  case_match; [intros [= <- <-]; apply passed_here|intros Hr; by eapply passed_cons, IH].
Qed.

Lemma safe_collect n search :
  (∀ ts stop rest, search ts = Some (stop, rest) → passed rest ts) → safe n true (collect sql search) any.
Proof.
  intros Hs. unfold collect. eapply safe_bind; [safe_call|]. intros [t|] _; [|by apply safe_unsupported].
  intros ts Ht Hl. cbn. destruct (search ts) as [[stop rest]|] eqn:E; [|done]. apply Hs in E as [H1 H2]. by split_and!.
Qed.

Lemma safe_collectUntilSemicolon n : safe n true (collectUntilSemicolon sql) any.
Proof. apply safe_collect. intros ts stop rest. apply semicolon_from_passed. Qed.

Lemma safe_collectUntilKeyword n x : safe n true (collectUntilKeyword sql x) any.
Proof. apply safe_collect. intros ts stop rest. apply keyword_from_passed. Qed.

Hint Resolve safe_collectUntilSemicolon safe_collectUntilKeyword : safe.

Lemma safe_parseExpressionSlice n piece : safe n false (parseExpressionSlice piece) any.
Proof.
  unfold parseExpressionSlice. destruct (parseExpressionOnly_ends piece) as (r & -> & _). safe_auto.
Qed.

Hint Resolve safe_parseExpressionSlice : safe.

Lemma safe_parseExpressionUntilSemicolon n : safe n true (parseExpressionUntilSemicolon sql) any.
Proof. unfold parseExpressionUntilSemicolon. safe_auto. Qed.

Lemma safe_parseExpressionUntilKeyword n x : safe n true (parseExpressionUntilKeyword sql x) any.
Proof. unfold parseExpressionUntilKeyword. safe_auto. Qed.

Hint Resolve safe_parseExpressionUntilSemicolon safe_parseExpressionUntilKeyword : safe.

Lemma safe_parseSqlStatement n : safe n true (parseSqlStatement sql) data_only.
Proof.
  unfold parseSqlStatement. eapply safe_bind_strict; [safe_call|]. intros piece _.
  destruct (parse_ends piece) as (r & -> & _). destruct r as [s|d]; [|by apply safe_unsupported].
  destruct (is_data_statement s) eqn:E; [by apply safe_ret|by apply safe_unsupported].
Qed.

(** A loop that passes the token it looked at. *)
Lemma safe_peek_advance {A} n s (k : option Token.t → body_parser A) P :
  safe n s (k None) P → (∀ t ts, safe_at any all n s (k (Some t)) P (t :: ts)) → safe n s (peek ≫= k) P.
Proof. intros H1 H2 [|t ts]; [exact (H1 [])|exact (H2 t ts)]. Qed.

Lemma safe_advance_bind {A} n s (k : body_parser A) P t ts :
  safe (pred n) false k P → safe_at any all n s (_ ← advance; k) P (t :: ts).
Proof. intros H. by eapply safe_after. Qed.

Lemma safe_declare_loop name fuel : safe fuel true (declare_loop sql name fuel) data_only.
Proof.
  induction fuel as [|fuel IH]; [intros ts _ Hl; lia|]. cbn [declare_loop].
  apply safe_peek_advance; [apply safe_unsupported|]. intros t ts.
  destruct (is_symbol t ";"); [by apply safe_advance_bind, safe_ret|].
  destruct (is_keyword t _); [by apply safe_unsupported|].
  destruct (Token.eqlIgnoreCase t _); apply safe_advance_bind; [|by apply safe_strict].
  eapply safe_bind; [safe_call|]. intros e _. by apply safe_ret.
Qed.

Lemma safe_parseDeclare n : safe n true (parseDeclare sql) data_only.
Proof.
  unfold parseDeclare. eapply safe_bind_strict; [safe_call|]. intros name _. apply safe_strict, safe_fuelled.
  intros. apply safe_declare_loop.
Qed.

Lemma safe_parseSet n : safe n true (parseSet sql) data_only.
Proof. unfold parseSet. safe_auto. Qed.

Section statement.
Context (n : nat) (s : body_parser ProcedureStatement.t) (Hs : safe n true s data_only).

Lemma safe_statements_loop stop fuel : ∀ acc, (fuel ≤ n)%nat → data_body acc →
  safe fuel false (statements_loop s stop fuel acc) data_body.
Proof.
  induction fuel as [|fuel IH]; intros acc Hf Ha; [intros ts _ Hl; lia|]. cbn [statements_loop].
  eapply safe_bind; [safe_call|]. intros [t|] _; [|by apply safe_ret].
  destruct (_ && _); [by apply safe_ret|]. destruct (_ && _); [by apply safe_ret|].
  eapply safe_bind_strict; [eapply safe_weaken; [exact Hs|lia|done|done]|]. intros x Hx. cbn [pred].
  apply IH; [lia|by apply data_body_snoc].
Qed.

Lemma safe_parseStatementsUntil stop m : (m ≤ n)%nat → safe m false (parseStatementsUntil s stop) data_body.
Proof. intros Hm. apply safe_fuelled. intros. apply safe_statements_loop; [lia|done]. Qed.

(** The tail of a compound statement. *)
Lemma safe_close m x r : data_only r →
  safe m false (body_expectKeyword "END" ;; body_expectKeyword x ;; body_expectSymbol ";" ;; mret r) data_only.
Proof. intros Hr. repeat (eapply safe_bind; [safe_call|intros _ _]). by apply safe_ret. Qed.

Lemma safe_parseIf m : (m ≤ n)%nat → safe m true (parseIf sql s) data_only.
Proof.
  intros Hm. unfold parseIf. eapply safe_bind_strict; [safe_call|]. intros c _.
  eapply safe_bind; [apply safe_parseStatementsUntil; lia|]. intros t Ht.
  eapply safe_bind; [safe_call|]. intros b _.
  eapply (safe_bind _ _ _ _ _ _ data_body).
  { destruct b; [apply safe_parseStatementsUntil; lia|by apply safe_ret]. }
  intros f Hf. apply safe_close. unfold data_only. cbn. by rewrite Ht, Hf.
Qed.

Lemma safe_parseWhile m : (m ≤ n)%nat → safe m true (parseWhile sql s) data_only.
Proof.
  intros Hm. unfold parseWhile. eapply safe_bind_strict; [safe_call|]. intros c _.
  eapply safe_bind; [apply safe_parseStatementsUntil; lia|]. intros b Hb. by apply safe_close.
Qed.

(** The statements inside follow the first token. *)
Lemma safe_procedure_statement : safe (S n) true (procedure_statement sql s) data_only.
Proof.
  unfold procedure_statement. apply safe_peek_advance; [apply safe_unsupported|]. intros t ts.
  destruct (Token.eqlIgnoreCase t _); [by apply safe_advance_bind, safe_strict, safe_parseDeclare|].
  destruct (Token.eqlIgnoreCase t _); [by apply safe_advance_bind, safe_strict, safe_parseSet|].
  destruct (Token.eqlIgnoreCase t _); [by apply safe_advance_bind, safe_strict, safe_parseIf|].
  destruct (Token.eqlIgnoreCase t _); [by apply safe_advance_bind, safe_strict, safe_parseWhile|].
  destruct (isUnsupportedStoredProgramToken t); [by apply safe_unsupported|apply safe_parseSqlStatement].
Qed.
End statement.

Lemma safe_procedure_statement_loop fuel : safe fuel true (procedure_statement_loop sql fuel) data_only.
Proof.
  induction fuel as [|fuel IH]; [intros ts _ Hl; lia|]. cbn [procedure_statement_loop]. by apply safe_procedure_statement.
Qed.

Lemma safe_parseProcedureStatement n : safe n true (parseProcedureStatement sql) data_only.
Proof. apply safe_fuelled. intros. apply safe_procedure_statement_loop. Qed.

Lemma safe_parseBody n : safe n true (parseBody sql) data_body.
Proof.
  unfold parseBody. eapply safe_bind_strict; [safe_call|]. intros _ _.
  eapply safe_bind; [apply (safe_parseStatementsUntil n); [apply safe_parseProcedureStatement|lia]|]. intros b Hb.
  do 2 (eapply safe_bind; [safe_call|intros _ _]). eapply safe_bind; [safe_call|].
  intros [t|] _; [apply safe_unsupported|by apply safe_ret].
Qed.

End safe.

(** C15: both parsers end on every input.  The SQL parser returns a statement or a diagnostic whose text is found at its
    offset in the input; the procedure body parser returns a body in which every SQL statement, at any depth, is one of
    INSERT, UPDATE, DELETE and SELECT, or rejects it. *)
Theorem parsers_total (sql : bytes) :
  (∃ r, parse sql = Some r ∧ match r with inl _ => True | inr d => points_into sql d end) ∧
  (∃ r, parse_procedure sql = Some r ∧ match r with inl b => data_body b | inr _ => True end).
Proof.
  split; [apply parse_ends|]. unfold parse_procedure.
  pose proof (safe_parseBody sql (tokenize sql) (S (length (tokenize sql))) (tokenize sql) (reflexivity _) ltac:(lia)) as H.
  destruct (run _ (tokenize sql)) as [b rest|d|]; [| |done]; (eexists; split; [done|]); [|done]. by destruct H.
Qed.
