(* ===== verification/Executor.v ===== *)
(** * The SQL executor

    Models [src/src/db/executor.zig]: the in-memory database (catalog, row stores, views, procedures,
    commit queue, snapshot registry, vector overlay), sessions with their snapshot handle and staged
    per-table transactions, and the execution of every statement.

    A statement changes the database and the session even when it fails half-way, so operations
    are state transformers [M A] that return the new state next to the result.  A transaction's
    pointer to [&table.store] is a slot of the array that holds [Database.tables], together with the place where
    that array was when the pointer was taken.  DROP TABLE shifts the array under the pointer; CREATE TABLE appends to it,
    which moves it to another place whenever its memory has to grow.  When that happens is up to the allocator, a parameter
    ([Allocator]).  Using a pointer into memory the array has left, or past its end, has no defined outcome: a [Panic].
    [begin] and [commit] run under the commit lock: each is one step.

    [parse] is the SQL parser ([None] for a diagnostic) and [parse_body] the procedure body parser; [StoredTexts] runs the
    executor with the parsers of the program. *)

From S2P Require Import Prelude Float Value Catalog RowStore Transaction Concurrency Snapshot Persistence.
From S2P Require Import Overlay VectorSearch Ast Eval QuerySource Registries.

Inductive ExecutorDiagnosticKind :=
  | ex_parse_diagnostic | ex_duplicate_object | ex_unknown_object | ex_name_conflict | ex_unknown_column
  | ex_ambiguous_column | ex_column_count_mismatch | ex_transaction_required | ex_transaction_active
  | ex_no_active_transaction | ex_type_mismatch | ex_invalid_grouping | ex_vector_dimension_mismatch
  | ex_invalid_vector_dimension | ex_unsupported_expression | ex_unsupported_view | ex_unsupported_procedure
  | ex_transaction_closed | ex_zero_vector.

Definition executor_diagnosticFromError (err : Error) : option ExecutorDiagnosticKind :=
  match err with
  | ParseDiagnostic => Some ex_parse_diagnostic
  | DuplicateObject => Some ex_duplicate_object
  | UnknownObject => Some ex_unknown_object
  | NameConflict => Some ex_name_conflict
  | UnknownColumn => Some ex_unknown_column
  | AmbiguousColumn => Some ex_ambiguous_column
  | ColumnCountMismatch => Some ex_column_count_mismatch
  | TransactionRequired => Some ex_transaction_required
  | TransactionActive => Some ex_transaction_active
  | NoActiveTransaction => Some ex_no_active_transaction
  | TypeMismatch => Some ex_type_mismatch
  | InvalidGrouping => Some ex_invalid_grouping
  | VectorDimensionMismatch => Some ex_vector_dimension_mismatch
  | InvalidVectorDimension => Some ex_invalid_vector_dimension
  | UnsupportedExpression => Some ex_unsupported_expression
  | UnsupportedView => Some ex_unsupported_view
  | UnsupportedProcedure => Some ex_unsupported_procedure
  | AlreadyCommitted | AlreadyRolledBack => Some ex_transaction_closed
  | ZeroVector => Some ex_zero_vector
  | _ => None
  end.

(** ** State *)
Module ExecutionResult.
Inductive t := ok | mutation_count (n : Z) | result_set (r : ResultSet.t).
End ExecutionResult.

Module TableState.
Record t := mk { name : bytes; store : RowStore.t }.
End TableState.

(** What the executor can notice of [std.mem.Allocator]: whether the [n]-th append to the list of tables moves its elements. *)
Class Allocator := append_moves : nat → bool.

(** The allocators that always find room behind the list, and never do. *)
Definition in_place : Allocator := λ _, false.
Definition always_moving : Allocator := λ _, true.

(** The memory of [std.ArrayList(TableState)]: how often the list was appended to, and a number for the place of its elements. *)
Module TableMemory.
Record t := mk { allocator : Allocator; appends : nat; address : nat }.

Definition init {allocator : Allocator} : t := mk allocator 0 0.

Definition append (self : t) : t :=
  mk (allocator self) (S (appends self)) (if allocator self (appends self) then S (address self) else address self).
End TableMemory.

(** [*TableState] *)
Module TablePointer.
Record t := mk { address : nat; slot : nat }.
End TablePointer.

Module Database.
Record t := mk {
  db_catalog : DatabaseCatalog.t;
  views : ViewRegistry.t;
  procedures : ProcedureRegistry.t;
  tables : list TableState.t;
  tables_memory : TableMemory.t;
  commit_sequence : Z;
  commit_queue : Queue.t;
  snapshot_registry : Registry.t;
  checkpoint_worker : Worker.t;
  vector_overlay : Overlay.t;
}.

Definition init {allocator : Allocator} : t :=
  mk DatabaseCatalog.init ViewRegistry.init ProcedureRegistry.init [] TableMemory.init 0 (Queue.init default_config)
     (Registry.init default_config) Worker.init Overlay.init.

Definition with_catalog (self : t) (c : DatabaseCatalog.t) : t :=
  mk c (views self) (procedures self) (tables self) (tables_memory self) (commit_sequence self) (commit_queue self)
     (snapshot_registry self) (checkpoint_worker self) (vector_overlay self).
Definition with_views (self : t) (v : ViewRegistry.t) : t :=
  mk (db_catalog self) v (procedures self) (tables self) (tables_memory self) (commit_sequence self) (commit_queue self)
     (snapshot_registry self) (checkpoint_worker self) (vector_overlay self).
Definition with_procedures (self : t) (p : ProcedureRegistry.t) : t :=
  mk (db_catalog self) (views self) p (tables self) (tables_memory self) (commit_sequence self) (commit_queue self)
     (snapshot_registry self) (checkpoint_worker self) (vector_overlay self).
Definition with_tables (self : t) (ts : list TableState.t) : t :=
  mk (db_catalog self) (views self) (procedures self) ts (tables_memory self) (commit_sequence self) (commit_queue self)
     (snapshot_registry self) (checkpoint_worker self) (vector_overlay self).
(** [self.tables.append(allocator, state)] *)
Definition append_state (self : t) (state : TableState.t) : t :=
  mk (db_catalog self) (views self) (procedures self) (tables self ++ [state]) (TableMemory.append (tables_memory self))
     (commit_sequence self) (commit_queue self) (snapshot_registry self) (checkpoint_worker self) (vector_overlay self).
Definition with_commit (self : t) (n : Z) (q : Queue.t) : t :=
  mk (db_catalog self) (views self) (procedures self) (tables self) (tables_memory self) n q
     (snapshot_registry self) (checkpoint_worker self) (vector_overlay self).
Definition with_registry (self : t) (r : Registry.t) : t :=
  mk (db_catalog self) (views self) (procedures self) (tables self) (tables_memory self) (commit_sequence self) (commit_queue self)
     r (checkpoint_worker self) (vector_overlay self).
Definition with_worker (self : t) (w : Worker.t) : t :=
  mk (db_catalog self) (views self) (procedures self) (tables self) (tables_memory self) (commit_sequence self) (commit_queue self)
     (snapshot_registry self) w (vector_overlay self).
Definition with_overlay (self : t) (o : Overlay.t) : t :=
  mk (db_catalog self) (views self) (procedures self) (tables self) (tables_memory self) (commit_sequence self) (commit_queue self)
     (snapshot_registry self) (checkpoint_worker self) o.

Definition findTableStateIndex (self : t) (name : bytes) : option nat :=
  find_index (λ table, eqlIgnoreCase (TableState.name table) name) (tables self).

(** The pointer [&self.tables.items[slot]], and what it points at. *)
Definition pointer_to (self : t) (slot : nat) : TablePointer.t :=
  TablePointer.mk (TableMemory.address (tables_memory self)) slot.

Definition deref (self : t) (pointer : TablePointer.t) : Result TableState.t :=
  if (TablePointer.address pointer =? TableMemory.address (tables_memory self))%nat
  then item_at (tables self) (TablePointer.slot pointer) else Panic.

(** [getTableState]: the slot and what it holds. *)
Definition getTableState (self : t) (name : bytes) : option (nat * TableState.t) :=
  index ← findTableStateIndex self name;
  table ← tables self !! index;
  Some (index, table).

Definition refreshTablePointers (self : t) : Result t :=
  ts ← mapR (λ ts, match DatabaseCatalog.getTable (db_catalog self) (TableState.name ts) with
                   | Some table => Ok (TableState.mk (TableState.name ts) (RowStore.set_table (TableState.store ts) table))
                   | None => Panic
                   end) (tables self);
  Ok (with_tables self ts).

Definition currentCommitSequence (self : t) : Z := commit_sequence self.
Definition currentCommitQueueSnapshot (self : t) : CommitQueueSnapshot.t := Queue.snapshot (commit_queue self).
Definition checkpointSnapshot (self : t) : Worker.t := Worker.snapshot (checkpoint_worker self).
Definition vectorOverlayDeltaCount (self : t) : Z := Overlay.deltaCount (vector_overlay self).
Definition vectorOverlayCandidateCount (self : t) (table_name column_name : bytes) : Z :=
  Overlay.candidateCount (vector_overlay self) table_name column_name.
Definition activeSnapshotHandleCount (self : t) (g : Z) : Z := Registry.activeRefCount (snapshot_registry self) g.
Definition retainedSnapshotGenerationCount (self : t) : Z := Registry.retainedGenerationCount (snapshot_registry self).
Definition retainedSnapshotRowCount (self : t) (g : Z) (table_name : bytes) : option Z :=
  Registry.retainedRowCount (snapshot_registry self) g table_name.

Definition beginCheckpoint (self : t) : Result (t * Ticket.t) :=
  wt ← worker_begin (checkpoint_worker self) (currentCommitSequence self);
  Ok (with_worker self wt.1, wt.2).

Definition drainVectorOverlay (self : t) (through_generation : Z) (max_count : nat) : t * list Delta.t :=
  let '(o, drained) := Overlay.drainReady (vector_overlay self) through_generation max_count in
  (with_overlay self o, drained).

(** The database after the call, also when it fails: the registry is swept before the limit check. *)
Definition retainCurrentGenerationForActiveSnapshots (self : t) (excluding : option SnapshotHandle.t) : t * Result () :=
  let generation := currentCommitSequence self in
  if negb (Registry.needsRetention (snapshot_registry self) generation excluding) then (self, Ok ())
  else
    let sources := (λ ts, TableSource.mk (RowStore.table (TableState.store ts)) (TableState.store ts)) <$> tables self in
    let '(r, res) := Registry.retainGeneration (snapshot_registry self) generation sources in
    (with_registry self r, res).

Definition recordVectorOverlayDeltas (self : t) (generation : Z) : t :=
  with_overlay self
    (foldl (λ o ts, Overlay.recordCommittedStore o generation (TableState.name ts)
                      (RowStore.table (TableState.store ts)) (TableState.store ts))
       (vector_overlay self) (tables self)).
End Database.

Module TableTransaction.
Record t := mk { table_name : bytes; pointer : TablePointer.t; tx : Transaction.t }.
End TableTransaction.

Module Session.
Record t := mk {
  active : bool;
  snapshot_sequence : option Z;
  last_commit_sequence : option Z;
  transactions : list TableTransaction.t;
  snapshot_handle : option SnapshotHandle.t;
}.

Definition init : t := mk false None None [] None.

Definition findTransactionIndex (self : t) (table_name : bytes) : option nat :=
  find_index (λ entry, eqlIgnoreCase (TableTransaction.table_name entry) table_name) (transactions self).

Definition transactionForRead (self : t) (table_name : bytes) : option TableTransaction.t :=
  index ← findTransactionIndex self table_name; transactions self !! index.

Definition with_transactions (self : t) (ts : list TableTransaction.t) : t :=
  mk (active self) (snapshot_sequence self) (last_commit_sequence self) ts (snapshot_handle self).

Definition snapshotStoreForRead (self : t) (db : Database.t) (table_name : bytes) : Result (option RowStore.t) :=
  if negb (active self) then Ok None
  else match snapshot_handle self with
       | None => Ok None
       | Some handle =>
           match Registry.retainedStoreForTable (Database.snapshot_registry db) (SnapshotHandle.generation handle) table_name with
           | Some store => Ok (Some store)
           | None =>
               if SnapshotHandle.generation handle =? Database.currentCommitSequence db then Ok None
               else Err SnapshotRetentionExceeded
           end
       end.

Definition baseStoreForRead (self : t) (db : Database.t) (table : TableState.t) : Result RowStore.t :=
  snapshot_store ← snapshotStoreForRead self db (TableState.name table);
  Ok (default (TableState.store table) snapshot_store).
End Session.

(** A connection: the shared database and one session. *)
Record conn := Conn { db : Database.t; session : Session.t }.

(** ** State transformers *)
Definition M (A : Type) : Type := conn → conn * Result A.

#[global] Instance M_ret : MRet M := λ A a s, (s, Ok a).
#[global] Instance M_bind : MBind M := λ A C f m s,
  match m s with
  | (s', Ok a) => f a s'
  | (s', Err e) => (s', Err e)
  | (s', Panic) => (s', Panic)
  end.

Definition lift {A} (r : Result A) : M A := λ s, (s, r).
Definition get_db : M Database.t := λ s, (s, Ok (db s)).
Definition get_session : M Session.t := λ s, (s, Ok (session s)).
Definition put_db (d : Database.t) : M () := λ s, (Conn d (session s), Ok ()).
Definition put_session (x : Session.t) : M () := λ s, (Conn (db s) x, Ok ()).

(** [errdefer cleanup]: run [cleanup] when [m] fails, then fail with the same error. *)
Definition on_error {A} (m : M A) (cleanup : M ()) : M A := λ s,
  match m s with
  | (s', Err e) => match cleanup s' with (s'', Panic) => (s'', Panic) | (s'', _) => (s'', Err e) end
  | r => r
  end.

(** A [for] loop over [items] threading an accumulator. *)
Fixpoint forM {S A} (f : S → A → M S) (acc : S) (items : list A) : M S :=
  match items with
  | [] => mret acc
  | a :: items' => acc' ← f acc a; forM f acc' items'
  end.

(** ** Sessions *)
Definition store_at (d : Database.t) (pointer : TablePointer.t) : Result RowStore.t :=
  TableState.store <$> Database.deref d pointer.

Definition releaseSnapshotHandle : M () :=
  d ← get_db;
  s ← get_session;
  let registry :=
    match Session.snapshot_handle s with
    | Some handle => (handle_release handle (Database.snapshot_registry d)).2
    | None => Database.snapshot_registry d
    end in
  _ ← put_db (Database.with_registry d registry);
  put_session (Session.mk (Session.active s) None (Session.last_commit_sequence s) (Session.transactions s) None).

Definition clearTransactions : M () := s ← get_session; put_session (Session.with_transactions s []).

Definition session_begin : M () :=
  s ← get_session;
  if Session.active s then lift (Err TransactionActive)
  else
    d ← get_db;
    rh ← lift (Registry.acquire (Database.snapshot_registry d) (Database.currentCommitSequence d));
    _ ← put_db (Database.with_registry d rh.1);
    put_session (Session.mk true (Some (SnapshotHandle.generation rh.2)) (Session.last_commit_sequence s)
                   (Session.transactions s) (Some rh.2)).

(** [entry.tx.commit()]: the new store goes where the transaction points. *)
Definition commit_entry (index : nat) : M () :=
  s ← get_session;
  d ← get_db;
  entry ← lift (item_at (Session.transactions s) index);
  ts ← lift (Database.deref d (TableTransaction.pointer entry));
  r ← lift (Transaction.commit (TableTransaction.tx entry) (TableState.store ts));
  _ ← put_db (Database.with_tables d
        (<[TablePointer.slot (TableTransaction.pointer entry) := TableState.mk (TableState.name ts) r.2]> (Database.tables d)));
  put_session (Session.with_transactions s
    (<[index := TableTransaction.mk (TableTransaction.table_name entry) (TableTransaction.pointer entry) r.1]>
       (Session.transactions s))).

Definition commit_entries : M () :=
  s ← get_session;
  forM (λ _ index, commit_entry index) () (seq 0 (length (Session.transactions s))).

(** The part of [commit] that runs with a queued reservation. *)
Definition commit_queued : M () :=
  s ← get_session;
  d ← get_db;
  let '(d', res) := Database.retainCurrentGenerationForActiveSnapshots d (Session.snapshot_handle s) in
  _ ← put_db d';
  _ ← lift res;
  _ ← commit_entries;
  d ← get_db;
  qn ← lift (Queue.completeQueuedCommit (Database.commit_queue d));
  put_db (Database.with_commit d qn.2 qn.1).

Definition abort_queued : M () :=
  d ← get_db;
  q ← lift (Queue.abortQueuedCommit (Database.commit_queue d));
  put_db (Database.with_commit d (Database.commit_sequence d) q).

Definition session_commit : M () :=
  s ← get_session;
  if negb (Session.active s) then lift (Err NoActiveTransaction)
  else
    _ ← (if (0 <? length (Session.transactions s))%nat then
           d ← get_db;
           q ← lift (Queue.enqueue (Database.commit_queue d));
           _ ← put_db (Database.with_commit d (Database.commit_sequence d) q);
           _ ← on_error commit_queued abort_queued;
           d ← get_db;
           put_db (Database.recordVectorOverlayDeltas d (Database.commit_sequence d))
         else commit_entries);
    d ← get_db;
    s ← get_session;
    _ ← put_session (Session.mk (Session.active s) (Session.snapshot_sequence s)
          (Some (Database.currentCommitSequence d)) (Session.transactions s) (Session.snapshot_handle s));
    _ ← clearTransactions;
    _ ← releaseSnapshotHandle;
    s ← get_session;
    put_session (Session.mk false (Session.snapshot_sequence s) (Session.last_commit_sequence s)
                   (Session.transactions s) (Session.snapshot_handle s)).

Definition rollback_entry (index : nat) : M () :=
  s ← get_session;
  entry ← lift (item_at (Session.transactions s) index);
  tx ← lift (Transaction.rollback (TableTransaction.tx entry));
  put_session (Session.with_transactions s
    (<[index := TableTransaction.mk (TableTransaction.table_name entry) (TableTransaction.pointer entry) tx]>
       (Session.transactions s))).

Definition session_rollback : M () :=
  s ← get_session;
  if negb (Session.active s) then lift (Err NoActiveTransaction)
  else
    _ ← forM (λ _ index, rollback_entry index) () (seq 0 (length (Session.transactions s)));
    _ ← clearTransactions;
    _ ← releaseSnapshotHandle;
    s ← get_session;
    put_session (Session.mk false (Session.snapshot_sequence s) (Session.last_commit_sequence s)
                   (Session.transactions s) (Session.snapshot_handle s)).

(** [transactionFor]: the index of the session's transaction for a table, begun if needed. *)
Definition transactionFor (pointer : TablePointer.t) (table : TableState.t) : M nat :=
  s ← get_session;
  match Session.findTransactionIndex s (TableState.name table) with
  | Some index => mret index
  | None =>
      let entry := TableTransaction.mk (TableState.name table) pointer (Transaction.begin (TableState.store table)) in
      _ ← put_session (Session.with_transactions s (Session.transactions s ++ [entry]));
      mret (length (Session.transactions s))
  end.

(** Runs [op] on the transaction at [index] and the store it points at. *)
Definition with_transaction {A} (index : nat) (op : Transaction.t → RowStore.t → Result (Transaction.t * A)) : M A :=
  s ← get_session;
  d ← get_db;
  entry ← lift (item_at (Session.transactions s) index);
  store ← lift (store_at d (TableTransaction.pointer entry));
  r ← lift (op (TableTransaction.tx entry) store);
  _ ← put_session (Session.with_transactions s
        (<[index := TableTransaction.mk (TableTransaction.table_name entry) (TableTransaction.pointer entry) r.1]>
           (Session.transactions s)));
  mret r.2.

(** ** Reading *)
Definition cloneRowsFromStore (store : RowStore.t) : Result (list Row.t) :=
  mapR (λ row, Row.clone row (RowStore.table store)) (RowStore.rows store).

Definition scanRowsForTable (d : Database.t) (s : Session.t) (table : TableState.t) : Result (list Row.t) :=
  match Session.transactionForRead s (TableState.name table) with
  | Some entry =>
      base_store ← Session.baseStoreForRead s d table;
      store ← store_at d (TableTransaction.pointer entry);
      Transaction.scanWithBase (TableTransaction.tx entry) store base_store
  | None =>
      snapshot_store ← Session.snapshotStoreForRead s d (TableState.name table);
      cloneRowsFromStore (default (TableState.store table) snapshot_store)
  end.

Definition loadBaseTableForQuerySource (d : Database.t) (s : Session.t) (name : bytes) : Result BaseTable.t :=
  t ← orelse (Database.getTableState d name) UnknownObject;
  let table := RowStore.table (TableState.store t.2) in
  rows ← scanRowsForTable d s t.2;
  Ok (BaseTable.mk (TableDef.name table) (TableDef.columns table) rows).

Definition findViewForQuerySource (d : Database.t) (name : bytes) : option SelectStatement :=
  StoredView.query <$> ViewRegistry.get (Database.views d) name.

Definition view_bound (d : Database.t) : nat :=
  foldr (λ v n, Nat.max (select_size (StoredView.query v)) n) 0%nat (ViewRegistry.views (Database.views d)).

Definition executor_executeSelect (statement : SelectStatement) : M ResultSet.t :=
  d ← get_db;
  s ← get_session;
  lift (default Panic
    (executeSelect (loadBaseTableForQuerySource d s) (findViewForQuerySource d) (view_bound d) statement)).

(** ** Data changes *)

(** One pass of the column loop of [rowValuesForInsert]: fill what the statement left out, then validate. *)
Definition complete_column (next_row_id : Z) (column : ColumnDef.t) (given : option Value.t) : Result Value.t :=
  v ← match given with
      | Some v => Ok v
      | None =>
          if ColumnDef.auto_increment column then v ← checked_i64 next_row_id; Ok (Value.integer v)
          else match ColumnDef.default_value column with
               | Some default => Value.clone default
               | None => Ok Value.null
               end
      end;
  _ ← ColumnDef.validateValue column v;
  Ok v.

(** The slots the statement initialises; a column named twice is an [UnknownColumn] error. *)
Definition given_values (table : TableDef.t) (statement : Insert.t) : Result (list (option Value.t)) :=
  match Insert.columns statement with
  | [] =>
      _ ← fail_if (negb (length (Insert.values statement) =? length (TableDef.columns table))%nat) ColumnCountMismatch;
      mapR (λ e, v ← evalConstant e; Ok (Some v)) (Insert.values statement)
  | columns =>
      _ ← fail_if (negb (length (Insert.values statement) =? length columns)%nat) ColumnCountMismatch;
      foldM (λ values '(column_name, expression),
               index ← orelse (TableDef.columnIndex table column_name) UnknownColumn;
               present ← item_at values index;
               _ ← fail_if (bool_decide (is_Some present)) UnknownColumn;
               v ← evalConstant expression;
               Ok (<[index := Some v]> values))
            (replicate (length (TableDef.columns table)) None) (zip columns (Insert.values statement))
  end.

Definition rowValuesForInsert (table : TableDef.t) (statement : Insert.t) (next_row_id : Z) : Result (list Value.t) :=
  given ← given_values table statement;
  mapR (λ '(column, v), complete_column next_row_id column v) (zip (TableDef.columns table) given).

Definition executeInsert (statement : Insert.t) : M Z :=
  s ← get_session;
  if negb (Session.active s) then lift (Err TransactionRequired)
  else
    d ← get_db;
    t ← lift (orelse (Database.getTableState d (Insert.table_name statement)) UnknownObject);
    let table := RowStore.table (TableState.store t.2) in
    index ← transactionFor (Database.pointer_to d t.1) t.2;
    s ← get_session;
    entry ← lift (item_at (Session.transactions s) index);
    values ← lift (rowValuesForInsert table statement (Transaction.next_id (TableTransaction.tx entry)));
    _ ← with_transaction index (λ tx store, Transaction.insert tx store values);
    mret 1.

(** The values of an updated row: every assignment is evaluated on the old row. *)
Definition updated_values (table : TableDef.t) (row : Row.t) (assignments : list Assignment.t) : Result (list Value.t) :=
  values ← cloneValues (Row.values row);
  foldM (λ values a,
           index ← orelse (TableDef.columnIndex table (Assignment.column a)) UnknownColumn;
           _ ← item_at values index;
           v ← evalExpression table row (Assignment.value a);
           Ok (<[index := v]> values)) values assignments.

Definition update_row (table : TableDef.t) (statement : Update.t) (index : nat) (count : Z) (row : Row.t) : M Z :=
  b ← lift (matchesWhere table row (Update.where_clause statement));
  if negb b then mret count
  else
    next_values ← lift (updated_values table row (Update.assignments statement));
    _ ← with_transaction index (λ tx store, tx' ← Transaction.update tx store (Row.id row) next_values; Ok (tx', ()));
    mret (count + 1).

Definition executeUpdate (statement : Update.t) : M Z :=
  s ← get_session;
  if negb (Session.active s) then lift (Err TransactionRequired)
  else
    d ← get_db;
    t ← lift (orelse (Database.getTableState d (Update.table_name statement)) UnknownObject);
    let table := RowStore.table (TableState.store t.2) in
    index ← transactionFor (Database.pointer_to d t.1) t.2;
    s ← get_session;
    rows ← lift (scanRowsForTable d s t.2);
    forM (update_row table statement index) 0 rows.

Definition delete_row (table : TableDef.t) (statement : Delete.t) (index : nat) (count : Z) (row : Row.t) : M Z :=
  b ← lift (matchesWhere table row (Delete.where_clause statement));
  if negb b then mret count
  else
    _ ← with_transaction index (λ tx store, tx' ← Transaction.delete tx store (Row.id row); Ok (tx', ()));
    mret (count + 1).

Definition executeDelete (statement : Delete.t) : M Z :=
  s ← get_session;
  if negb (Session.active s) then lift (Err TransactionRequired)
  else
    d ← get_db;
    t ← lift (orelse (Database.getTableState d (Delete.table_name statement)) UnknownObject);
    let table := RowStore.table (TableState.store t.2) in
    index ← transactionFor (Database.pointer_to d t.1) t.2;
    s ← get_session;
    rows ← lift (scanRowsForTable d s t.2);
    forM (delete_row table statement index) 0 rows.

(** ** Definitions *)
Definition toCatalogColumnType (column_type : AstColumnType.t) : ColumnType.t :=
  match column_type with
  | AstColumnType.integer => ColumnType.integer
  | AstColumnType.float => ColumnType.float
  | AstColumnType.boolean => ColumnType.boolean
  | AstColumnType.text => ColumnType.text
  | AstColumnType.blob => ColumnType.blob
  | AstColumnType.vector dimension => ColumnType.vector (VectorType.mk float32 dimension)
  end.

Definition countPrimaryColumns (columns : list AstColumnDef.t) : nat :=
  length (filter (λ c, AstColumnDef.primary_key c = true) columns).

(** The catalog specification [createTable] builds from the statement. *)
Definition table_spec (statement : CreateTable.t) : Result TableSpec.t :=
  columns ← mapR (λ column,
      default ← mapO evalConstant (AstColumnDef.default_value column);
      Ok (ColumnSpec.mk (AstColumnDef.name column) (toCatalogColumnType (AstColumnDef.column_type column))
            (AstColumnDef.nullable column) default (AstColumnDef.primary_key column)
            (AstColumnDef.auto_increment column))) (CreateTable.columns statement);
  let primary_columns :=
    AstColumnDef.name <$> filter (λ c, AstColumnDef.primary_key c = true) (CreateTable.columns statement) in
  let primary_index :=
    if (0 <? countPrimaryColumns (CreateTable.columns statement))%nat
    then [IndexSpec.mk None primary_columns primary] else [] in
  let indexes :=
    (λ i, IndexSpec.mk (AstIndexDef.name i) (AstIndexDef.columns i)
            (if AstIndexDef.primary i then primary else secondary)) <$> CreateTable.indexes statement in
  Ok (TableSpec.mk (CreateTable.name statement) columns (primary_index ++ indexes)).

Definition createTable (statement : CreateTable.t) : M () :=
  d ← get_db;
  if CreateTable.if_not_exists statement
     && bool_decide (is_Some (Database.getTableState d (CreateTable.name statement)))
  then mret ()
  else
    spec ← lift (table_spec statement);
    c ← lift (DatabaseCatalog.createTable (Database.db_catalog d) spec);
    let d := Database.with_catalog d c in
    table ← lift (orelse (DatabaseCatalog.getTable c (CreateTable.name statement)) UnknownObject);
    let state := TableState.mk (CreateTable.name statement) (RowStore.init table) in
    d ← lift (Database.refreshTablePointers (Database.append_state d state));
    put_db d.

Definition dropTable (statement : Named.t) : M () :=
  d ← get_db;
  match Database.findTableStateIndex d (Named.name statement) with
  | None => if Named.if_exists statement then mret () else lift (Err UnknownObject)
  | Some index =>
      c ← lift (DatabaseCatalog.dropTable (Database.db_catalog d) (Named.name statement));
      d ← lift (Database.refreshTablePointers
                  (Database.with_tables (Database.with_catalog d c) (delete index (Database.tables d))));
      put_db d
  end.

Definition put_catalog (c : DatabaseCatalog.t) : M () := d ← get_db; put_db (Database.with_catalog d c).

(** [self.db_catalog.dropView(name) catch {}] and its procedure counterpart *)
Definition undo_catalog (drop : DatabaseCatalog.t → Result DatabaseCatalog.t) : M () :=
  d ← get_db;
  match drop (Database.db_catalog d) with Ok c => put_catalog c | Err _ => mret () | Panic => lift Panic end.

Definition createView (statement : CreateView.t) : M () :=
  d ← get_db;
  c ← lift (DatabaseCatalog.registerView (Database.db_catalog d) (CreateView.name statement) (CreateView.body_sql statement));
  _ ← put_catalog c;
  on_error
    (d ← get_db;
     v ← lift (ViewRegistry.create (Database.views d) (CreateView.name statement) (CreateView.query statement));
     put_db (Database.with_views d v))
    (undo_catalog (λ c, DatabaseCatalog.dropView c (CreateView.name statement))).

Definition executor_dropView (statement : Named.t) : M () :=
  d ← get_db;
  v ← lift (ViewRegistry.drop (Database.views d) (Named.name statement));
  _ ← put_db (Database.with_views d v);
  c ← lift (DatabaseCatalog.dropView (Database.db_catalog d) (Named.name statement));
  put_catalog c.

Definition executor_dropProcedure (statement : Named.t) : M () :=
  d ← get_db;
  p ← lift (ProcedureRegistry.drop (Database.procedures d) (Named.name statement));
  _ ← put_db (Database.with_procedures d p);
  c ← lift (DatabaseCatalog.dropProcedure (Database.db_catalog d) (Named.name statement));
  put_catalog c.

Section parsers.
Context (parse : bytes → option Statement.t) (parse_body : bytes → option Body).

Definition createProcedure (statement : CreateProcedure.t) : M () :=
  d ← get_db;
  c ← lift (DatabaseCatalog.registerProcedure (Database.db_catalog d) (CreateProcedure.name statement)
              (CreateProcedure.body_sql statement));
  _ ← put_catalog c;
  on_error
    (d ← get_db;
     p ← lift (ProcedureRegistry.create parse_body (Database.procedures d) (CreateProcedure.name statement)
                 (CreateProcedure.params statement) (CreateProcedure.body_sql statement));
     put_db (Database.with_procedures d p))
    (undo_catalog (λ c, DatabaseCatalog.dropProcedure c (CreateProcedure.name statement))).

(** [executeStatement]; [executeCall] is the CALL case, which a procedure body cannot reach because
    [materializeProcedureStatement] only lets INSERT, UPDATE, DELETE and SELECT through. *)
Definition executeStatementWith (executeCall : Call.t → M ExecutionResult.t) (statement : Statement.t)
    : M ExecutionResult.t :=
  match statement with
  | Statement.begin => _ ← session_begin; mret ExecutionResult.ok
  | Statement.commit =>
      _ ← session_commit;
      d ← get_db;
      d ← lift (Database.refreshTablePointers d);
      _ ← put_db d;
      mret ExecutionResult.ok
  | Statement.rollback => _ ← session_rollback; mret ExecutionResult.ok
  | Statement.create_table s => _ ← createTable s; mret ExecutionResult.ok
  | Statement.drop_table s => _ ← dropTable s; mret ExecutionResult.ok
  | Statement.insert s => n ← executeInsert s; mret (ExecutionResult.mutation_count n)
  | Statement.update s => n ← executeUpdate s; mret (ExecutionResult.mutation_count n)
  | Statement.delete s => n ← executeDelete s; mret (ExecutionResult.mutation_count n)
  | Statement.select s => r ← executor_executeSelect s; mret (ExecutionResult.result_set r)
  | Statement.create_view s => _ ← createView s; mret ExecutionResult.ok
  | Statement.drop_view s => _ ← executor_dropView s; mret ExecutionResult.ok
  | Statement.create_procedure s => _ ← createProcedure s; mret ExecutionResult.ok
  | Statement.drop_procedure s => _ ← executor_dropProcedure s; mret ExecutionResult.ok
  | Statement.call s => executeCall s
  end.

(** ** Procedures *)
Definition max_procedure_loop_iterations : nat := Z.to_nat 10000.

Definition add_count (a b : Z) : M Z := lift (checked_u64 (a + b)).

(** [executeProcedureStatement] and [executeProcedureBody]: the environment after the statement and
    the number of rows changed.  The WHILE loop counts down the iterations it may still make. *)
Fixpoint executeProcedureStatement (env : ProcedureEnv.t) (statement : ProcedureStatement.t)
    : M (ProcedureEnv.t * Z) :=
  let body :=
    fix body (env : ProcedureEnv.t) (statements : Body) (mutations : Z) : M (ProcedureEnv.t * Z) :=
      match statements with
      | [] => mret (env, mutations)
      | s :: rest =>
          r ← executeProcedureStatement env s;
          total ← add_count mutations r.2;
          body r.1 rest total
      end in
  match statement with
  | ProcedureStatement.declare_var name default_value =>
      v ← match default_value with
          | Some default => lift (evalProcedureExpression env default)
          | None => mret Value.null
          end;
      env' ← lift (ProcedureEnv.declare env name v);
      mret (env', 0)
  | ProcedureStatement.set_var name value =>
      v ← lift (evalProcedureExpression env value);
      env' ← lift (ProcedureEnv.set env name v);
      mret (env', 0)
  | ProcedureStatement.sql sql =>
      materialized ← lift (materializeProcedureStatement env sql);
      result ← executeStatementWith (λ _, lift (Err UnsupportedProcedure)) materialized;
      mret (env, match result with ExecutionResult.mutation_count count => count | _ => 0 end)
  | ProcedureStatement.if_statement condition then_body else_body =>
      v ← lift (evalProcedureExpression env condition);
      b ← lift (expect_boolean v);
      if b : bool then body env then_body 0 else body env else_body 0
  | ProcedureStatement.while_statement condition loop_body =>
      (fix loop (left_iterations : nat) (env : ProcedureEnv.t) (mutations : Z) : M (ProcedureEnv.t * Z) :=
         v ← lift (evalProcedureExpression env condition);
         b ← lift (expect_boolean v);
         if negb b then mret (env, mutations)
         else match left_iterations with
              | O => lift (Err UnsupportedProcedure)
              | S left_iterations' =>
                  r ← body env loop_body 0;
                  total ← add_count mutations r.2;
                  loop left_iterations' r.1 total
              end) max_procedure_loop_iterations env 0
  end.

Fixpoint executeProcedureBody (env : ProcedureEnv.t) (statements : Body) (mutations : Z) : M (ProcedureEnv.t * Z) :=
  match statements with
  | [] => mret (env, mutations)
  | s :: rest =>
      r ← executeProcedureStatement env s;
      total ← add_count mutations r.2;
      executeProcedureBody r.1 rest total
  end.

(** One iteration of the parameter loop of [executeCall]. *)
Definition bind_param (env : ProcedureEnv.t) (p : ProcedureParam.t * Expression.t) : Result ProcedureEnv.t :=
  v ← evalProcedureExpression env p.2;
  _ ← (if Value.is_null v then Ok ()
       else ColumnType.acceptsValue (toCatalogColumnType (ProcedureParam.column_type p.1)) v);
  ProcedureEnv.declare env (ProcedureParam.name p.1) v.

Definition executeCall (call : Call.t) : M ExecutionResult.t :=
  d ← get_db;
  stored ← lift (orelse (ProcedureRegistry.get (Database.procedures d) (Call.name call)) UnknownObject);
  _ ← lift (fail_if (negb (length (Call.args call) =? length (StoredProcedure.params stored))%nat) ColumnCountMismatch);
  env ← lift (foldM bind_param ProcedureEnv.init (zip (StoredProcedure.params stored) (Call.args call)));
  r ← executeProcedureBody env (StoredProcedure.body stored) 0;
  mret (ExecutionResult.mutation_count r.2).

Definition executeStatement (statement : Statement.t) : M ExecutionResult.t := executeStatementWith executeCall statement.

Definition executeSql (sql : bytes) : M ExecutionResult.t :=
  match parse sql with
  | None => lift (Err ParseDiagnostic)
  | Some statement => executeStatement statement
  end.

(** ** Import and export *)
Definition copyRowsIntoStore (target source : RowStore.t) : Result RowStore.t :=
  target' ← insert_rows target (RowStore.rows source);
  Ok (RowStore.mk (RowStore.table target') (RowStore.rows_list target') (RowStore.nextRowId source)).

Definition createRuntimeViewFromBody (d : Database.t) (name body_sql : bytes) : Result Database.t :=
  match parse body_sql with
  | None => Err ParseDiagnostic
  | Some (Statement.select select) => v ← ViewRegistry.create (Database.views d) name select; Ok (Database.with_views d v)
  | Some _ => Err UnsupportedView
  end.

Definition append_table (c : DatabaseCatalog.t) (table : TableDef.t) : DatabaseCatalog.t :=
  DatabaseCatalog.mk (DatabaseCatalog.tables c ++ [table]) (DatabaseCatalog.views c) (DatabaseCatalog.procedures c).

Definition import_table (source : DatabaseSnapshot.t) (d : Database.t) (table : TableDef.t) : Result Database.t :=
  cloned_table ← cloneTableDef table;
  let c := append_table (Database.db_catalog d) cloned_table in
  restored_table ← orelse (DatabaseCatalog.getTable c (TableDef.name table)) RowStoreMismatch;
  source_store ← orelse (DatabaseSnapshot.storeForTable source (TableDef.name table)) RowStoreMismatch;
  store ← copyRowsIntoStore (RowStore.init restored_table) source_store;
  Ok (Database.append_state (Database.with_catalog d c) (TableState.mk (TableDef.name table) store)).

Definition import_view (d : Database.t) (view_def : ViewDef.t) : Result Database.t :=
  c ← DatabaseCatalog.registerView (Database.db_catalog d) (ViewDef.name view_def) (ViewDef.body view_def);
  createRuntimeViewFromBody (Database.with_catalog d c) (ViewDef.name view_def) (ViewDef.body view_def).

Definition import_procedure (d : Database.t) (procedure_def : ProcedureDef.t) : Result Database.t :=
  c ← DatabaseCatalog.registerProcedure (Database.db_catalog d) (ProcedureDef.name procedure_def) (ProcedureDef.body procedure_def);
  p ← ProcedureRegistry.create parse_body (Database.procedures d) (ProcedureDef.name procedure_def) []
        (ProcedureDef.body procedure_def);
  Ok (Database.with_procedures (Database.with_catalog d c) p).

Definition initFromSnapshot {allocator : Allocator} (source : DatabaseSnapshot.t) : Result Database.t :=
  d ← foldM (import_table source) Database.init (DatabaseCatalog.listTables (DatabaseSnapshot.catalog source));
  d ← foldM import_view d (DatabaseCatalog.listViews (DatabaseSnapshot.catalog source));
  d ← foldM import_procedure d (DatabaseCatalog.listProcedures (DatabaseSnapshot.catalog source));
  Database.refreshTablePointers d.
End parsers.

Definition export_store (c : DatabaseCatalog.t) (table_state : TableState.t) : Result RowStore.t :=
  exported_table ← orelse (DatabaseCatalog.getTable c (TableState.name table_state)) RowStoreMismatch;
  copyRowsIntoStore (RowStore.init exported_table) (TableState.store table_state).

Definition exportSnapshot (d : Database.t) : Result DatabaseSnapshot.t :=
  tables ← mapR (λ ts, cloneTableDef (RowStore.table (TableState.store ts))) (Database.tables d);
  let c := DatabaseCatalog.mk tables [] [] in
  stores ← mapR (export_store c) (Database.tables d);
  c ← foldM (λ c v, DatabaseCatalog.registerView c (ViewDef.name v) (ViewDef.body v)) c
        (DatabaseCatalog.listViews (Database.db_catalog d));
  c ← foldM (λ c p, DatabaseCatalog.registerProcedure c (ProcedureDef.name p) (ProcedureDef.body p)) c
        (DatabaseCatalog.listProcedures (Database.db_catalog d));
  Ok (DatabaseSnapshot.mk c stores).
