(* ===== verification/ExecutorFacts.v ===== *)
(** * Sessions sharing a database

    Interleavings of statements of several sessions over one database: the invariant that ties the
    snapshot registry to the sessions' handles, and snapshot isolation. *)

From S2P Require Import Prelude Float Value Catalog CatalogFacts TableFacts RowStore Transaction Concurrency Snapshot.
From S2P Require Import Persistence Overlay VectorSearch Ast Eval QuerySource QueryFacts Registries Executor.

(** ** Running state transformers *)
Section run.
Context {A : Type}.

Lemma run_lift {C} (r : Result C) (k : C → M A) c :
  (lift r ≫= k) c = match r with Ok a => k a c | Err e => (c, Err e) | Panic => (c, Panic) end.
Proof. reflexivity. Qed.

Lemma run_get_db (k : Database.t → M A) c : (get_db ≫= k) c = k (db c) c.
Proof. reflexivity. Qed.

Lemma run_get_session (k : Session.t → M A) c : (get_session ≫= k) c = k (session c) c.
Proof. reflexivity. Qed.

Lemma run_put_db d (k : () → M A) c : (put_db d ≫= k) c = k () (Conn d (session c)).
Proof. reflexivity. Qed.

Lemma run_put_session s (k : () → M A) c : (put_session s ≫= k) c = k () (Conn (db c) s).
Proof. reflexivity. Qed.

Lemma run_ret {C} (a : C) (k : C → M A) c : (mret a ≫= k) c = k a c.
Proof. reflexivity. Qed.

Lemma run_bind {C} (m : M C) (k : C → M A) c :
  (m ≫= k) c = match m c with (c', Ok a) => k a c' | (c', Err e) => (c', Err e) | (c', Panic) => (c', Panic) end.
Proof. reflexivity. Qed.

Lemma run_assoc {C D} (m : M C) (f : C → M D) (k : D → M A) c : ((m ≫= f) ≫= k) c = (m ≫= λ a, f a ≫= k) c.
Proof. unfold mbind, M_bind. by destruct (m c) as [c' []]. Qed.
End run.

#[export] Hint Rewrite @run_lift @run_get_db @run_get_session @run_put_db @run_put_session @run_ret @run_assoc : run.

(** ** Statements that only stage changes

    [quiet]: the database is untouched and of the session only the staged transactions change. *)
Definition tx_nonneg (tx : Transaction.t) : Prop :=
  0 ≤ Transaction.next_id tx ∧ Forall (λ id, 0 ≤ id) (ids (Transaction.inserts tx)).

Definition staged_ok (s : Session.t) : Prop :=
  Forall (λ e, tx_nonneg (TableTransaction.tx e)) (Session.transactions s).

Definition stores_ok (d : Database.t) : Prop :=
  Forall (λ ts, store_wf (TableState.store ts)) (Database.tables d).

Lemma deref_ok d p ts :
  Database.deref d p = Ok ts → TablePointer.address p = TableMemory.address (Database.tables_memory d) ∧
                               Database.tables d !! TablePointer.slot p = Some ts.
Proof.
  unfold Database.deref. destruct (Nat.eqb_spec (TablePointer.address p) (TableMemory.address (Database.tables_memory d))) as [E|]; [|done].
  intros H%item_at_ok. done.
Qed.

Lemma deref_to d i ts : Database.tables d !! i = Some ts → Database.deref d (Database.pointer_to d i) = Ok ts.
Proof. intros H. unfold Database.deref, item_at. cbn. by rewrite Nat.eqb_refl, H. Qed.

(** A staged transaction whose pointer leads to the table it was opened for. *)
Definition points_home (d : Database.t) (e : TableTransaction.t) : Prop :=
  ∃ ts, Database.deref d (TableTransaction.pointer e) = Ok ts ∧ TableState.name ts = TableTransaction.table_name e.

Record quiet (c c' : conn) : Prop := {
  quiet_db : db c' = db c;
  quiet_active : Session.active (session c') = Session.active (session c);
  quiet_handle : Session.snapshot_handle (session c') = Session.snapshot_handle (session c);
  quiet_staged : stores_ok (db c) → staged_ok (session c) → staged_ok (session c');
  quiet_home : Forall (points_home (db c)) (Session.transactions (session c)) →
               Forall (points_home (db c)) (Session.transactions (session c'));
}.

#[global] Instance quiet_preorder : PreOrder quiet.
Proof.
  split; [by intros c; split|]. intros c1 c2 c3 [H1 H2 H3 H4 H5] [K1 K2 K3 K4 K5].
  split; try congruence; [|rewrite H1 in K5; auto]. intros Hd Hs. apply K4; [by rewrite H1|]. auto.
Qed.

Definition keeps {A} (m : M A) : Prop := ∀ c, quiet c (m c).1.

Lemma keeps_ret {A} (a : A) : keeps (mret a).
Proof. intros c. reflexivity. Qed.

Lemma keeps_lift {A} (r : Result A) : keeps (lift r).
Proof. intros c. reflexivity. Qed.

Lemma keeps_get_db : keeps get_db.
Proof. intros c. reflexivity. Qed.

Lemma keeps_get_session : keeps get_session.
Proof. intros c. reflexivity. Qed.

Lemma keeps_bind {A C} (m : M A) (f : A → M C) : keeps m → (∀ a, keeps (f a)) → keeps (m ≫= f).
Proof.
  intros Hm Hf c. unfold mbind, M_bind. specialize (Hm c). destruct (m c) as [c' [a|e|]]; simpl in *; [|done|done].
  etransitivity; [exact Hm|]. apply Hf.
Qed.

Lemma keeps_forM {S A} (f : S → A → M S) acc items : (∀ s a, keeps (f s a)) → keeps (forM f acc items).
Proof.
  intros Hf. revert acc. induction items as [|a items IH]; intros acc; simpl; [apply keeps_ret|].
  by apply keeps_bind.
Qed.

Create HintDb keeps.
#[export] Hint Resolve keeps_ret keeps_lift keeps_get_db keeps_get_session keeps_bind keeps_forM : keeps.

(** Composes the [keeps] lemmas over the structure of a program. *)
Ltac keep :=
  repeat match goal with
  | |- keeps (_ ≫= _) => apply keeps_bind; [|intros ?]
  | |- keeps (if ?b then _ else _) => destruct b
  | |- keeps (match ?x with _ => _ end) => destruct x
  | |- keeps (let _ := _ in _) => cbv zeta
  | _ => solve [eauto with keeps]
  end.

Lemma tx_insert_nonneg tx store vs tx' id :
  tx_nonneg tx → Transaction.insert tx store vs = Ok (tx', id) → tx_nonneg tx'.
Proof.
  intros [Hn Hi] H. unfold Transaction.insert in H. inv_ok.
  match goal with Hc : checked_u64 _ = Ok _, Hr : Row.init _ _ _ = Ok _ |- _ =>
    apply checked_u64_ok in Hc as [_ ->]; apply row_init_ok in Hr as [_ ->] end.
  split; simpl; [lia|]. unfold ids in *. rewrite fmap_app. apply Forall_app. split; [done|]. by repeat constructor.
Qed.

Lemma tx_update_nonneg tx store id vs tx' :
  tx_nonneg tx → Transaction.update tx store id vs = Ok tx' → tx_nonneg tx'.
Proof.
  intros [Hn Hi] H. unfold Transaction.update in H. apply bind_ok_inv in H as (u & _ & H).
  destruct (Transaction.findInsertedIndex tx id) as [i|] eqn:Hf.
  - apply bind_ok_inv in H as (r & Hr & H). apply item_at_ok in Hr. rewrite replaceValues_init in H.
    apply bind_ok_inv in H as (r' & Hr' & H). apply row_init_ok in Hr' as [_ ->]. injection H as <-.
    split; [done|]. simpl. unfold ids in *. rewrite list_fmap_insert, list_insert_id; [done|].
    by rewrite list_lookup_fmap, Hr.
  - apply bind_ok_inv in H as (u' & _ & H).
    destruct (Transaction.findUpdatedIndex tx id); inv_ok; by split.
Qed.

Lemma tx_delete_nonneg tx store id tx' : tx_nonneg tx → Transaction.delete tx store id = Ok tx' → tx_nonneg tx'.
Proof.
  intros [Hn Hi] H. unfold Transaction.delete in H. apply bind_ok_inv in H as (u & _ & H).
  destruct (Transaction.findInsertedIndex tx id) as [i|].
  - injection H as <-. split; [done|]. simpl. unfold ids in *.
    rewrite delete_take_drop, fmap_app, fmap_take, fmap_drop, <-delete_take_drop. by apply Forall_list_delete.
  - inv_ok. by split.
Qed.

Lemma keeps_with_transaction {A} index (op : Transaction.t → RowStore.t → Result (Transaction.t * A)) :
  (∀ tx store tx' a, tx_nonneg tx → op tx store = Ok (tx', a) → tx_nonneg tx') →
  keeps (with_transaction index op).
Proof.
  intros Hop c. unfold with_transaction. autorewrite with run.
  destruct (item_at (Session.transactions (session c)) index) as [entry| |] eqn:He; [|reflexivity|reflexivity].
  rewrite run_lift. destruct (store_at _ _) as [store| |]; [|reflexivity|reflexivity].
  rewrite run_lift. destruct (op _ store) as [[tx' a]| |] eqn:Ho; [|reflexivity|reflexivity].
  rewrite run_put_session.
  apply item_at_ok in He. split; cbn; try done.
  - intros _ Hs. apply Forall_insert; [done|]. cbn. eapply Hop; [|exact Ho]. by apply (Forall_lookup_1 _ _ _ _ Hs He).
  - intros Hh. apply Forall_insert; [done|]. exact (Forall_lookup_1 _ _ _ _ Hh He).
Qed.

Lemma keeps_transactionFor d slot ts :
  Database.tables d !! slot = Some ts → ∀ c, db c = d → quiet c (transactionFor (Database.pointer_to d slot) ts c).1.
Proof.
  intros Hts c <-. unfold transactionFor. rewrite run_get_session.
  destruct (Session.findTransactionIndex _ _); [reflexivity|]. split; cbn; try done.
  - intros Hd Ht. apply Forall_app. split; [done|]. constructor; [|constructor]. split; [|constructor].
    cbn. pose proof (store_next _ (Forall_lookup_1 _ _ _ _ Hd Hts)). unfold RowStore.nextRowId. lia.
  - intros Hh. apply Forall_app. split; [done|]. constructor; [|constructor]. exists ts. split; [by apply deref_to|done].
Qed.

Lemma getTableState_ok d name i ts :
  Database.getTableState d name = Some (i, ts) → Database.findTableStateIndex d name = Some i ∧ Database.tables d !! i = Some ts.
Proof.
  unfold Database.getTableState. intros (j & Hj & H)%bind_Some. apply bind_Some in H as (t & Ht & H). by simplify_eq.
Qed.

(** The common frame of the three data statements. *)
Lemma keeps_dml {A} (d : Database.t) name (k : nat * TableState.t → nat → M A) :
  (∀ t i, keeps (k t i)) →
  ∀ c, db c = d →
  quiet c ((t ← lift (orelse (Database.getTableState d name) UnknownObject);
            index ← transactionFor (Database.pointer_to d t.1) t.2; k t index) c).1.
Proof.
  intros Hk c Hc. rewrite run_lift.
  destruct (Database.getTableState d name) as [[i ts]|] eqn:Ht; cbn [orelse]; [|reflexivity].
  apply getTableState_ok in Ht as [_ Ht].
  pose proof (keeps_transactionFor d i ts Ht c Hc) as Hq.
  rewrite run_bind. cbn [fst snd]. destruct (transactionFor (Database.pointer_to d i) ts c) as [c' [index| |]]; simpl in *; [|done|done].
  etransitivity; [exact Hq|]. apply Hk.
Qed.

Lemma keeps_insert s : keeps (executeInsert s).
Proof.
  intros c. unfold executeInsert. rewrite run_get_session. destruct (negb _); [reflexivity|].
  rewrite run_get_db. apply (keeps_dml (db c)); [|done]. intros t i. keep.
  apply keeps_with_transaction. intros. by eapply tx_insert_nonneg.
Qed.

Lemma keeps_update s : keeps (executeUpdate s).
Proof.
  intros c. unfold executeUpdate. rewrite run_get_session. destruct (negb _); [reflexivity|].
  rewrite run_get_db. apply (keeps_dml (db c)); [|done]. intros t i. keep.
  apply keeps_forM. intros n row. unfold update_row. keep.
  apply keeps_with_transaction. intros tx store tx' u Hn H. inv_ok. by eapply tx_update_nonneg.
Qed.

Lemma keeps_delete s : keeps (executeDelete s).
Proof.
  intros c. unfold executeDelete. rewrite run_get_session. destruct (negb _); [reflexivity|].
  rewrite run_get_db. apply (keeps_dml (db c)); [|done]. intros t i. keep.
  apply keeps_forM. intros n row. unfold delete_row. keep.
  apply keeps_with_transaction. intros tx store tx' u Hn H. inv_ok. by eapply tx_delete_nonneg.
Qed.

Lemma keeps_select s : keeps (executor_executeSelect s).
Proof. unfold executor_executeSelect. keep. Qed.

(** ** Procedures stage only *)
Section procedures.
Context (parse_body : bytes → option Body).

Lemma keeps_materialized env sql m :
  materializeProcedureStatement env sql = Ok m →
  keeps (executeStatementWith parse_body (λ _, lift (Err UnsupportedProcedure)) m).
Proof.
  destruct sql; cbn; intros H; try done; apply bind_ok_inv in H as (s' & _ & H); injection H as <-; cbn; keep;
    auto using keeps_insert, keeps_update, keeps_delete, keeps_select.
Qed.

Fixpoint statement_ind (P : ProcedureStatement.t → Prop)
    (Hd : ∀ n e, P (ProcedureStatement.declare_var n e)) (Hs : ∀ n e, P (ProcedureStatement.set_var n e))
    (Hq : ∀ q, P (ProcedureStatement.sql q))
    (Hi : ∀ e t f, Forall P t → Forall P f → P (ProcedureStatement.if_statement e t f))
    (Hw : ∀ e b, Forall P b → P (ProcedureStatement.while_statement e b)) (s : ProcedureStatement.t) : P s :=
  let all := fix all (l : list ProcedureStatement.t) : Forall P l :=
    match l with
    | [] => Forall_nil_2 P
    | x :: l' => Forall_cons_2 P x l' (statement_ind P Hd Hs Hq Hi Hw x) (all l')
    end in
  match s with
  | ProcedureStatement.declare_var n e => Hd n e
  | ProcedureStatement.set_var n e => Hs n e
  | ProcedureStatement.sql q => Hq q
  | ProcedureStatement.if_statement e t f => Hi e t f (all t) (all f)
  | ProcedureStatement.while_statement e b => Hw e b (all b)
  end.

Lemma keeps_body body :
  Forall (λ s, ∀ env, keeps (executeProcedureStatement parse_body env s)) body →
  ∀ env n, keeps (executeProcedureBody parse_body env body n).
Proof.
  induction 1 as [|s body Hs _ IH]; intros env n; cbn [executeProcedureBody]; [apply keeps_ret|].
  apply keeps_bind; [apply Hs|]. intros r. apply keeps_bind; [apply keeps_lift|]. intros total. apply IH.
Qed.

Lemma keeps_procedure_statement s env : keeps (executeProcedureStatement parse_body env s).
Proof.
  revert env. induction s as [n e|n e|q|e t f Ht Hf|e b Hb] using statement_ind; intros env.
  - cbn [executeProcedureStatement]. keep.
  - cbn [executeProcedureStatement]. keep.
  - cbn [executeProcedureStatement]. intros c. rewrite run_lift.
    destruct (materializeProcedureStatement env q) as [m| |] eqn:Hm; [|reflexivity|reflexivity].
    revert c. change (keeps (r ← executeStatementWith parse_body (λ _, lift (Err UnsupportedProcedure)) m;
      mret (env, match r with ExecutionResult.mutation_count count => count | _ => 0 end))).
    apply keeps_bind; [by eapply keeps_materialized|]. intros r. apply keeps_ret.
  - change (keeps (v ← lift (evalProcedureExpression env e); b ← lift (expect_boolean v);
      if b : bool then executeProcedureBody parse_body env t 0 else executeProcedureBody parse_body env f 0)).
    keep; by apply keeps_body.
  - cbn [executeProcedureStatement]. generalize 0 at 2.
    generalize max_procedure_loop_iterations. intros n. revert env. induction n as [|n IH]; intros env mutations.
    + keep.
    + keep. change (keeps (executeProcedureBody parse_body env b 0)). by apply keeps_body.
Qed.

Lemma keeps_call call : keeps (executeCall parse_body call).
Proof.
  unfold executeCall. keep. apply keeps_body. apply Forall_true. intros s env. apply keeps_procedure_statement.
Qed.
End procedures.

(** ** The registry, by reference counts

    [f g] is the number of sessions that hold an unreleased handle on generation [g]. *)
Definition gens (r : Registry.t) : list Z := RetainedGeneration.generation <$> Registry.retained r.

Definition reg_inv (r : Registry.t) (f : Z → Z) : Prop :=
  ∃ hs, registry_inv (Registry.retention_limit r) (RegistryRun r hs) ∧ ∀ g, live hs g = f g.

Lemma reg_inv_ext r f f' : (∀ g, f g = f' g) → reg_inv r f → reg_inv r f'.
Proof. intros He (hs & Hi & Hl). exists hs. split; [done|]. intros g. by rewrite Hl. Qed.

Lemma reg_inv_nodup r f : reg_inv r f → NoDup (gens r).
Proof. intros (hs & Hi & _). exact (ri_retained _ _ Hi). Qed.

Lemma reg_inv_count r f g : reg_inv r f → Registry.activeRefCount r g = f g.
Proof. intros (hs & Hi & Hl). rewrite <-Hl. exact (ri_counts _ _ Hi g). Qed.

Definition delta (g g' : Z) : Z := if g =? g' then 1 else 0.

Lemma reg_acquire r f g r' h :
  reg_inv r f → Registry.acquire r g = Ok (r', h) →
  h = SnapshotHandle.mk g false ∧ reg_inv r' (λ g', f g' + delta g g') ∧ Registry.retained r' = Registry.retained r.
Proof.
  intros (hs & Hi & Hl) H. pose proof (acquire_inv _ _ _ _ _ _ Hi H) as Hi'.
  unfold Registry.acquire in H. apply bind_ok_inv in H as (a & _ & H). injection H as <- <-.
  split_and!; [done| |done]. eexists. split; [exact Hi'|]. intros g'. by rewrite live_snoc, Hl.
Qed.

Lemma live_ex hs g : 0 < live hs g → ∃ i h, hs !! i = Some h ∧ SnapshotHandle.released h = false ∧ SnapshotHandle.generation h = g.
Proof.
  unfold live. intros H.
  destruct (filter (λ h, SnapshotHandle.released h = false ∧ SnapshotHandle.generation h = g) hs) as [|h l] eqn:Hf; [done|].
  assert (Hin : h ∈ filter (λ h, SnapshotHandle.released h = false ∧ SnapshotHandle.generation h = g) hs).
  { rewrite Hf. apply list_elem_of_here. }
  apply list_elem_of_filter in Hin as [[Hr Hg] [i Hi]%list_elem_of_lookup]. by exists i, h.
Qed.

Lemma find_gen_gens r g : g ∈ gens r ↔ is_Some (find_gen RetainedGeneration.generation (Registry.retained r) g).
Proof.
  unfold find_gen, gens. destruct (find_index (λ a, RetainedGeneration.generation a =? g) (Registry.retained r)) as [i|] eqn:Hi; simpl.
  - apply find_index_lookup in Hi as (a & Ha & Hg). rewrite Ha. split; [by eexists|]. intros _.
    assert (g = RetainedGeneration.generation a) as -> by lia. by eapply list_elem_of_fmap_2, list_elem_of_lookup_2.
  - apply find_gen_None in Hi. split; [done|]. by intros [].
Qed.

(** Retained generations that still have a reader survive a sweep. *)
Lemma sweep_keeps r f g :
  reg_inv r f → 0 < f g →
  find_gen RetainedGeneration.generation (Registry.retained (Registry.sweepReleasedGenerations r)) g =
  find_gen RetainedGeneration.generation (Registry.retained r) g.
Proof.
  intros Hi Hg. rewrite sweep_filter.
  destruct (find_gen RetainedGeneration.generation (Registry.retained r) g) as [c|] eqn:Hc.
  - apply find_gen_filter; [by eapply reg_inv_nodup|done|].
    apply find_gen_Some in Hc as [_ ->]; [|by eapply reg_inv_nodup]. rewrite (reg_inv_count _ _ _ Hi). lia.
  - apply eq_None_not_Some. intros [c Hc']. apply find_gen_Some in Hc' as [[_ Hin]%list_elem_of_filter Hgen].
    + assert (Hsome : find_gen RetainedGeneration.generation (Registry.retained r) g = Some c); [|congruence].
      apply find_gen_Some; [by eapply reg_inv_nodup|done].
    + apply retained_filter_NoDup. by eapply reg_inv_nodup.
Qed.

Lemma sweep_sub r : Registry.retained (Registry.sweepReleasedGenerations r) `sublist_of` Registry.retained r.
Proof. rewrite sweep_filter. apply sublist_filter. Qed.

Lemma reg_release r f g :
  reg_inv r f → 0 < f g →
  let r' := Registry.releaseGeneration r g in
  reg_inv r' (λ g', f g' - delta g g') ∧ Registry.retained r' `sublist_of` Registry.retained r ∧
  ∀ g', 0 < f g' - delta g g' →
    find_gen RetainedGeneration.generation (Registry.retained r') g' =
    find_gen RetainedGeneration.generation (Registry.retained r) g'.
Proof.
  intros (hs & Hi & Hl) Hg. cbv zeta. pose proof Hg as Hg'. rewrite <-Hl in Hg'.
  apply live_ex in Hg' as (i & h & Hh & Hrel & <-).
  pose proof (release_inv _ _ _ _ _ Hi Hh Hrel) as Hi'.
  assert (Hinv : reg_inv (Registry.releaseGeneration r (SnapshotHandle.generation h))
                   (λ g', f g' - delta (SnapshotHandle.generation h) g')).
  { exists (<[i := SnapshotHandle.mk (SnapshotHandle.generation h) true]> hs). split.
    - replace (Registry.retention_limit (Registry.releaseGeneration r (SnapshotHandle.generation h)))
        with (Registry.retention_limit r); [done|].
      unfold Registry.releaseGeneration. by destruct (Registry.findActiveIndex _ _).
    - intros g'. pose proof (live_release hs i h g' Hh Hrel). rewrite Hl in *. unfold delta. lia. }
  split; [exact Hinv|]. revert Hinv. unfold Registry.releaseGeneration.
  destruct (Registry.findActiveIndex r (SnapshotHandle.generation h)) as [k|]; [|by intros _; split].
  match goal with |- context [Registry.sweepReleasedGenerations ?x] => set (r1 := x) end. intros Hinv.
  split; [apply (sweep_sub r1)|]. intros g' Hg'. apply (sweep_keeps r1 (λ g', f g' - delta (SnapshotHandle.generation h) g')).
  - destruct Hinv as (hs' & Hi2 & Hl2). exists hs'. split; [|done].
    split; [done|exact (ri_active _ _ Hi2)|exact (ri_positive _ _ Hi2)|exact (ri_counts _ _ Hi2)|
      exact (ri_retained _ _ Hi)|exact (ri_bound _ _ Hi)].
  - exact Hg'.
Qed.

(** ** The database invariant *)
Definition table_ok (ts : TableState.t) : Prop :=
  table_wf (RowStore.table (TableState.store ts)) ∧ store_wf (TableState.store ts) ∧
  TableDef.name (RowStore.table (TableState.store ts)) = TableState.name ts.

Definition covers (tables : list TableState.t) (r : RetainedGeneration.t) : Prop :=
  ∀ ts, ts ∈ tables → is_Some (RetainedGeneration.storeForTable r (TableState.name ts)).

Record db_inv (d : Database.t) (f : Z → Z) : Prop := {
  di_registry : reg_inv (Database.snapshot_registry d) f;
  di_tables : Forall table_ok (Database.tables d);
  di_names : NoDup ((λ ts, lower (TableState.name ts)) <$> Database.tables d);
  di_catalog : Forall (λ ts, DatabaseCatalog.getTable (Database.db_catalog d) (TableState.name ts) =
                             Some (RowStore.table (TableState.store ts))) (Database.tables d);
  di_sequence : Queue.last_assigned_sequence (Database.commit_queue d) = Database.commit_sequence d;
  di_generations : Forall (λ r, RetainedGeneration.generation r ≤ Database.commit_sequence d)
                     (Registry.retained (Database.snapshot_registry d));
  di_cover : Forall (covers (Database.tables d)) (Registry.retained (Database.snapshot_registry d));
}.

(** What a reader of generation [g] finds for a table. *)
Definition base_of (d : Database.t) (g : Z) (ts : TableState.t) : Result RowStore.t :=
  match Registry.retainedStoreForTable (Database.snapshot_registry d) g (TableState.name ts) with
  | Some store => Ok store
  | None => if g =? Database.commit_sequence d then Ok (TableState.store ts) else Err SnapshotRetentionExceeded
  end.

Lemma baseStoreForRead_base s d ts h :
  Session.active s = true → Session.snapshot_handle s = Some h →
  Session.baseStoreForRead s d ts = base_of d (SnapshotHandle.generation h) ts.
Proof.
  intros Ha Hh. unfold Session.baseStoreForRead, Session.snapshotStoreForRead, base_of, Database.currentCommitSequence.
  rewrite Ha, Hh. simpl. destruct (Registry.retainedStoreForTable _ _ _); [done|]. by destruct (_ =? _).
Qed.

Definition same_table (a b : TableState.t) : Prop :=
  TableState.name b = TableState.name a ∧ RowStore.table (TableState.store b) = RowStore.table (TableState.store a).

(** The readers of [g] see the same tables in [d] and [d']. *)
Definition stable (g : Z) (d d' : Database.t) : Prop :=
  Forall2 (λ a b, same_table a b ∧ base_of d' g b = base_of d g a) (Database.tables d) (Database.tables d').

Lemma stable_trans g d1 d2 d3 : stable g d1 d2 → stable g d2 d3 → stable g d1 d3.
Proof.
  unfold stable. intros H1 H2. eapply Forall2_trans; [|exact H1|exact H2].
  intros a b c [[? ?] ?] [[? ?] ?]. split; [split|]; congruence.
Qed.

Lemma base_of_find d g ts :
  base_of d g ts =
  match find_gen RetainedGeneration.generation (Registry.retained (Database.snapshot_registry d)) g ≫=
        λ c, RetainedGeneration.storeForTable c (TableState.name ts) with
  | Some store => Ok store
  | None => if g =? Database.commit_sequence d then Ok (TableState.store ts) else Err SnapshotRetentionExceeded
  end.
Proof. unfold base_of. by rewrite retainedStore_find. Qed.

(** Same tables and sequence, and the same retained generation. *)
Lemma stable_registry g d d' :
  Database.tables d' = Database.tables d → Database.commit_sequence d' = Database.commit_sequence d →
  find_gen RetainedGeneration.generation (Registry.retained (Database.snapshot_registry d')) g =
  find_gen RetainedGeneration.generation (Registry.retained (Database.snapshot_registry d)) g →
  stable g d d'.
Proof.
  intros Ht Hs Hf. unfold stable. rewrite Ht. apply Forall_Forall2_diag, Forall_true. intros ts.
  split; [done|]. by rewrite !base_of_find, Hf, Hs.
Qed.

(** A reader of a retained generation does not look at the live tables or the sequence. *)
Lemma stable_retained g d d' :
  Forall (covers (Database.tables d)) (Registry.retained (Database.snapshot_registry d)) →
  g ∈ gens (Database.snapshot_registry d) → Database.snapshot_registry d' = Database.snapshot_registry d →
  Forall2 same_table (Database.tables d) (Database.tables d') → stable g d d'.
Proof.
  intros Hc Hg Hr Ht. unfold stable. apply find_gen_gens in Hg as [c Hf].
  assert (Hin : c ∈ Registry.retained (Database.snapshot_registry d)).
  { unfold find_gen in Hf. apply bind_Some in Hf as (i & _ & Hi). by eapply list_elem_of_lookup_2. }
  rewrite Forall_forall in Hc. specialize (Hc c Hin).
  apply Forall2_same_length_lookup_2; [by eapply Forall2_length|]. intros i a b Ha Hb.
  pose proof (Forall2_lookup_lr _ _ _ _ _ _ Ht Ha Hb) as Hs. split; [done|].
  rewrite !base_of_find, Hr, Hf. simpl. destruct Hs as [-> _].
  destruct (Hc a) as [st ->]; [by eapply list_elem_of_lookup_2|done].
Qed.

Lemma captured_store (tables : list TableState.t) g ts :
  NoDup ((λ ts, lower (TableState.name ts)) <$> tables) → Forall table_ok tables → ts ∈ tables →
  RetainedGeneration.storeForTable
    (RetainedGeneration.mk g ((λ ts, RetainedTable.mk (RowStore.table (TableState.store ts)) (TableState.store ts)) <$> tables))
    (TableState.name ts) = Some (TableState.store ts).
Proof.
  intros Hnd Hok Hin. unfold RetainedGeneration.storeForTable. cbn [RetainedGeneration.tables].
  apply list_elem_of_lookup in Hin as [i Hi].
  match goal with |- context [find_index ?p ?l] => assert (Hf : find_index p l = Some i) end.
  { rewrite find_index_fmap. apply find_index_Some. split.
    - exists ts. split; [done|]. destruct (Forall_lookup_1 _ _ _ _ Hok Hi) as (_ & _ & He). simpl. rewrite He. apply eqlIgnoreCase_refl.
    - intros j ts' Hj Hts'. destruct (Forall_lookup_1 _ _ _ _ Hok Hts') as (_ & _ & He). simpl. rewrite He.
      apply eqlIgnoreCase_false. intros E. assert (j = i); [|lia].
      eapply (NoDup_lookup _ _ _ (lower (TableState.name ts)) Hnd); rewrite list_lookup_fmap.
      + rewrite Hts'. simpl. by rewrite E.
      + by rewrite Hi. }
  rewrite Hf. simpl. by rewrite list_lookup_fmap, Hi.
Qed.

Lemma Forall_sublist {A} (P : A → Prop) l k : l `sublist_of` k → Forall P k → Forall P l.
Proof. intros Hs Hk. apply Forall_forall. intros x Hx. rewrite Forall_forall in Hk. by eapply Hk, elem_of_sublist. Qed.

(** A session's own share of a reference count. *)
Definition holds (handle : option SnapshotHandle.t) (g : Z) : Z :=
  match handle with
  | Some h => if negb (SnapshotHandle.released h) && (SnapshotHandle.generation h =? g) then 1 else 0
  | None => 0
  end.

Lemma with_registry_inv d f r :
  db_inv d f → reg_inv r f → Registry.retained r `sublist_of` Registry.retained (Database.snapshot_registry d) →
  db_inv (Database.with_registry d r) f.
Proof.
  intros [Hr Ht Hn Hc Hs Hg Hv] Hr' Hsub. split; try done; cbn.
  - eapply Forall_sublist; [exact Hsub|done].
  - eapply Forall_sublist; [exact Hsub|done].
Qed.

Lemma reg_retain r f g sources r' res :
  reg_inv r f → Registry.retainGeneration r g sources = (r', res) → reg_inv r' f.
Proof.
  intros (hs & Hi & Hl) H. exists hs. split; [|done].
  pose proof (retain_inv _ _ _ _ _ _ _ Hi H) as Hi'. pose proof (ri_limit _ _ Hi') as He. cbn in He. by rewrite He.
Qed.

Lemma retain_new r f g (tables : list TableState.t) :
  reg_inv r f → g ∉ gens r → Forall table_ok tables →
  let sources := (λ ts, TableSource.mk (RowStore.table (TableState.store ts)) (TableState.store ts)) <$> tables in
  let swept := Registry.retained (Registry.sweepReleasedGenerations r) in
  let captured := RetainedGeneration.mk g
    ((λ ts, RetainedTable.mk (RowStore.table (TableState.store ts)) (TableState.store ts)) <$> tables) in
  ∃ r' res, Registry.retainGeneration r g sources = (r', res) ∧
    ((res = Err SnapshotRetentionExceeded ∧ Registry.retained r' = swept) ∨
     (res = Ok () ∧ Registry.retained r' = swept ++ [captured])).
Proof.
  intros Hi Hg Ht. cbv zeta. unfold Registry.retainGeneration.
  rewrite decide_False.
  2: { intros Hsome. apply Hg, find_gen_gens. unfold find_gen, Registry.findRetainedIndex in *.
       destruct Hsome as [i Hi']. rewrite Hi'. apply find_index_lookup in Hi' as (a & Ha & _). simpl. rewrite Ha. by eexists. }
  destruct (_ <=? _); [eexists _, _; split; [done|by left]|].
  rewrite capture_ok.
  2: { apply Forall_fmap. eapply Forall_impl; [exact Ht|]. intros ts (H1 & H2 & _). by split_and!. }
  eexists _, _. split; [done|]. right. split; [done|]. cbn. do 2 f_equal. by rewrite <-list_fmap_compose.
Qed.

(** The generation just captured, as [retainCurrentGenerationForActiveSnapshots] builds it. *)
Definition captured_now (d : Database.t) : RetainedGeneration.t :=
  RetainedGeneration.mk (Database.commit_sequence d)
    ((λ ts, RetainedTable.mk (RowStore.table (TableState.store ts)) (TableState.store ts)) <$> Database.tables d).

Lemma captured_stable d f r' g :
  db_inv d f → 0 < f g →
  Registry.retained r' = Registry.retained (Registry.sweepReleasedGenerations (Database.snapshot_registry d)) ++ [captured_now d] →
  stable g d (Database.with_registry d r').
Proof.
  intros [Hr Ht Hn Hc Hs Hgen Hcov] Hg Hr1.
  unfold stable. cbn. apply Forall_Forall2_diag, Forall_forall. intros ts Hts. split; [done|].
  rewrite !base_of_find. cbn. rewrite Hr1.
  destruct (find_gen RetainedGeneration.generation (Registry.retained (Database.snapshot_registry d)) g) as [c|] eqn:Hf.
  { rewrite (find_gen_app _ _ _ _ c); [done|]. rewrite <-Hf. by eapply sweep_keeps. }
  cbn [mbind option_bind]. unfold find_gen. rewrite find_index_app.
  assert (Hnone : find_index (λ a, RetainedGeneration.generation a =? g)
            (Registry.retained (Registry.sweepReleasedGenerations (Database.snapshot_registry d))) = None).
  { apply find_gen_None. intros Hin. assert (Hg' : g ∈ gens (Database.snapshot_registry d)).
    { eapply elem_of_sublist; [exact Hin|]. apply fmap_sublist, sweep_sub. }
    apply find_gen_gens in Hg' as [c Hg']. congruence. }
  rewrite Hnone. simpl. destruct (Z.eqb_spec (Database.commit_sequence d) g) as [<-|Hne]; simpl.
  - rewrite Nat.add_0_r, list_lookup_middle by done. simpl. unfold captured_now. rewrite captured_store by done. by rewrite Z.eqb_refl.
  - destruct (Z.eqb_spec g (Database.commit_sequence d)); [lia|done].
Qed.

Lemma retain_step d f excluding d' res :
  db_inv d f → Database.retainCurrentGenerationForActiveSnapshots d excluding = (d', res) →
  db_inv d' f ∧ (∃ r, d' = Database.with_registry d r) ∧ res ≠ Panic ∧
  (∀ g, 0 < f g → stable g d d' ∧ (g ∈ gens (Database.snapshot_registry d) → g ∈ gens (Database.snapshot_registry d'))) ∧
  (res = Ok () → 0 < f (Database.commit_sequence d) - holds excluding (Database.commit_sequence d) →
   Database.commit_sequence d ∈ gens (Database.snapshot_registry d')).
Proof.
  intros Hd H. pose proof Hd as [Hr Ht Hn Hc Hs Hgen Hcov]. unfold Database.retainCurrentGenerationForActiveSnapshots in H.
  unfold Database.currentCommitSequence in H. set (q := Database.commit_sequence d) in *.
  destruct (Registry.needsRetention _ q excluding) eqn:Hneed; cbn [negb] in H.
  - assert (Hq : q ∉ gens (Database.snapshot_registry d)).
    { unfold Registry.needsRetention in Hneed. apply andb_prop in Hneed as [_ Hneed].
      apply bool_decide_eq_true in Hneed. by apply find_gen_None in Hneed. }
    destruct (retain_new _ f q (Database.tables d) Hr Hq Ht) as (r' & res' & Hret & Hcase).
    rewrite Hret in H. injection H as <- <-. pose proof (reg_retain _ _ _ _ _ _ Hr Hret) as Hr'.
    destruct Hcase as [[-> Hr1]|[-> Hr1]].
    + split_and!; [|by eexists|done| |done].
      * apply with_registry_inv; [done|done|]. rewrite Hr1. apply sweep_sub.
      * intros g Hg. pose proof (sweep_keeps _ _ _ Hr Hg) as Hk. split.
        -- apply stable_registry; [done|done|]. cbn. by rewrite Hr1.
        -- rewrite !find_gen_gens. cbn. by rewrite Hr1, Hk.
    + split_and!; [|by eexists|done| |].
      * split; try done; cbn; rewrite Hr1; apply Forall_app; split.
        -- eapply Forall_sublist; [apply sweep_sub|done].
        -- repeat constructor. simpl. unfold q. lia.
        -- eapply Forall_sublist; [apply sweep_sub|done].
        -- repeat constructor. intros ts Hts. rewrite captured_store by done. by eexists.
      * intros g Hg. split.
        2: { rewrite !find_gen_gens. cbn. rewrite Hr1. intros [c Hc']. exists c. apply find_gen_app.
             rewrite <-Hc'. by eapply sweep_keeps. }
        by eapply captured_stable.
      * intros _ _. unfold gens. cbn. rewrite Hr1, fmap_app. apply elem_of_app. right. cbn. apply list_elem_of_here.
  - injection H as <- <-. split_and!; [done|by exists (Database.snapshot_registry d); destruct d|done| |].
    + intros g _. split; [by apply stable_registry|done].
    + intros _ Hpos. unfold Registry.needsRetention in Hneed. rewrite (reg_inv_count _ _ _ Hr) in Hneed.
      apply find_gen_gens. unfold find_gen. apply andb_false_iff in Hneed as [Hneed|Hneed].
      * exfalso. revert Hneed Hpos. unfold holds. destruct excluding as [h|]; [|lia].
        destruct (negb (SnapshotHandle.released h) && (SnapshotHandle.generation h =? q)); simpl; [|lia].
        destruct (Z.ltb_spec 0 (f q)); lia.
      * apply bool_decide_eq_false in Hneed. unfold Registry.findRetainedIndex in Hneed.
        destruct (find_index _ _) as [i|] eqn:Hi; [|done]. apply find_index_lookup in Hi as (a & Ha & _). simpl. rewrite Ha. by eexists.
Qed.

(** ** Publishing the staged transactions *)
Record published (c c' : conn) : Prop := {
  pub_db : ∃ ts', db c' = Database.with_tables (db c) ts' ∧ Forall2 same_table (Database.tables (db c)) ts';
  pub_tables : Forall table_ok (Database.tables (db c'));
  pub_staged : staged_ok (session c');
  pub_active : Session.active (session c') = Session.active (session c);
  pub_handle : Session.snapshot_handle (session c') = Session.snapshot_handle (session c);
}.

Lemma published_refl c : Forall table_ok (Database.tables (db c)) → staged_ok (session c) → published c c.
Proof.
  intros Ht Hs. split; try done. exists (Database.tables (db c)). split; [by destruct (db c)|].
  apply Forall_Forall2_diag, Forall_true. done.
Qed.

Lemma published_trans c1 c2 c3 : published c1 c2 → published c2 c3 → published c1 c3.
Proof.
  intros [(t2 & H1 & F1) _ _ A1 B1] [(t3 & H2 & F2) T3 S3 A2 B2]. split; try congruence; try done.
  exists t3. split; [by rewrite H2, H1|]. rewrite H1 in F2. cbn in F2.
  eapply Forall2_trans; [|exact F1|exact F2]. intros a b c [? ?] [? ?]. split; congruence.
Qed.

Lemma commit_nonneg tx store tx' store' :
  tx_nonneg tx → Transaction.commit tx store = Ok (tx', store') → tx_nonneg tx'.
Proof. intros [Hn _] H. unfold Transaction.commit in H. inv_ok. split; [done|constructor]. Qed.

Lemma commit_entry_published i c :
  Forall table_ok (Database.tables (db c)) → staged_ok (session c) → published c (commit_entry i c).1.
Proof.
  intros Ht Hs. pose proof (published_refl c Ht Hs) as Hrefl. unfold commit_entry. rewrite run_get_session, run_get_db, run_lift.
  destruct (item_at (Session.transactions (session c)) i) as [entry| |] eqn:He; [|done|done].
  rewrite run_lift. destruct (Database.deref (db c) (TableTransaction.pointer entry)) as [ts| |] eqn:Hts; [|done|done].
  rewrite run_lift. destruct (Transaction.commit _ _) as [[tx' st']| |] eqn:Hc; [|done|done]. rewrite run_put_db.
  apply item_at_ok in He. apply deref_ok in Hts as [_ Hts]. pose proof (Forall_lookup_1 _ _ _ _ Hs He) as Hn. simpl in Hn.
  destruct (Forall_lookup_1 _ _ _ _ Ht Hts) as (Hw & Hst & Hname).
  pose proof (commit_table _ _ _ _ Hc) as Htab.
  split; cbn; try done.
  - eexists. split; [done|]. apply Forall2_same_length_lookup_2; [by rewrite length_insert|]. intros j a b Ha Hb.
    destruct (decide (j = TablePointer.slot (TableTransaction.pointer entry))) as [->|Hne].
    + rewrite list_lookup_insert_eq in Hb by (by eapply lookup_lt_Some). simplify_eq. by split.
    + rewrite list_lookup_insert_ne in Hb by done. simplify_eq. by split.
  - apply Forall_insert; [done|]. split_and!; cbn; [by rewrite Htab| |by rewrite Htab].
    eapply commit_wf; [exact Hst|exact (proj2 Hn)|exact Hc].
  - apply Forall_insert; [done|]. cbn. by eapply commit_nonneg.
Qed.

Lemma forM_published {A} (f : () → A → M ()) items c :
  (∀ a c, Forall table_ok (Database.tables (db c)) → staged_ok (session c) → published c (f () a c).1) →
  Forall table_ok (Database.tables (db c)) → staged_ok (session c) → published c (forM f () items c).1.
Proof.
  intros Hf. revert c. induction items as [|a items IH]; intros c Ht Hs; cbn [forM]; [by apply published_refl|].
  rewrite run_bind. pose proof (Hf a c Ht Hs) as Hp. destruct (f () a c) as [c' [[]|e|]]; [|done|done]. cbn [fst] in Hp.
  eapply published_trans; [exact Hp|]. apply IH; apply Hp.
Qed.

Lemma commit_entries_published c :
  Forall table_ok (Database.tables (db c)) → staged_ok (session c) → published c (commit_entries c).1.
Proof. intros. unfold commit_entries. rewrite run_get_session. apply forM_published; [|done|done]. intros. by apply commit_entry_published. Qed.

(** ** Steps of one session

    [f] counts the handles of all sessions.  [others c f g] is the count without this session. *)
Definition others (s : Session.t) (f : Z → Z) (g : Z) : Z := f g - holds (Session.snapshot_handle s) g.

Definition well_placed (d : Database.t) (f : Z → Z) : Prop :=
  ∀ g, 0 < f g → g = Database.commit_sequence d ∨ g ∈ gens (Database.snapshot_registry d).

Record session_ok (s : Session.t) : Prop := {
  so_staged : staged_ok s;
  so_handle : match Session.snapshot_handle s with
              | Some h => Session.active s = true ∧ SnapshotHandle.released h = false
              | None => Session.active s = false
              end;
}.

(** What a statement of one session guarantees to the rest of the system. *)
Record step_ok (c c' : conn) (f : Z → Z) : Prop := {
  sk_db : db_inv (db c') (λ g, others (session c) f g + holds (Session.snapshot_handle (session c')) g);
  sk_session : session_ok (session c');
  sk_placed : well_placed (db c') (λ g, others (session c) f g + holds (Session.snapshot_handle (session c')) g);
  sk_stable : ∀ g, 0 < others (session c) f g → stable g (db c) (db c');
  sk_views : Database.views (db c') = Database.views (db c);
  sk_memory : Database.tables_memory (db c') = Database.tables_memory (db c);
}.

Record ready (c : conn) (f : Z → Z) : Prop := {
  rd_db : db_inv (db c) f;
  rd_session : session_ok (session c);
  rd_placed : well_placed (db c) f;
  rd_nonneg : ∀ g, 0 ≤ others (session c) f g;
}.

Lemma db_inv_ext d f f' : (∀ g, f g = f' g) → db_inv d f → db_inv d f'.
Proof. intros He [H1 H2 H3 H4 H5 H6 H7]. split; try done. by eapply reg_inv_ext. Qed.

Lemma others_holds s f g : others s f g + holds (Session.snapshot_handle s) g = f g.
Proof. unfold others. lia. Qed.

Lemma quiet_step c c' f : ready c f → quiet c c' → step_ok c c' f.
Proof.
  intros [Hd [Hs Hh] Hp _] [Q1 Q2 Q3 Q4 _]. rewrite <-Q3 in *.
  assert (He : ∀ g, f g = others (session c) f g + holds (Session.snapshot_handle (session c')) g).
  { intros g. rewrite Q3. by rewrite others_holds. }
  split; rewrite ?Q1.
  - by eapply db_inv_ext.
  - split; [|by rewrite Q2]. apply Q4; [|done]. eapply Forall_impl; [apply Hd|]. by intros ts (_ & ? & _).
  - intros g Hg. apply Hp. by rewrite He.
  - intros g _. by apply stable_registry.
  - done.
  - done.
Qed.

Lemma publish_inv d f ts' :
  db_inv d f → Forall2 same_table (Database.tables d) ts' → Forall table_ok ts' → db_inv (Database.with_tables d ts') f.
Proof.
  intros [Hr Ht Hn Hc Hs Hg Hv] Hf Hok. split; try done; cbn.
  - assert (Heq : (λ ts, lower (TableState.name ts)) <$> ts' = (λ ts, lower (TableState.name ts)) <$> Database.tables d); [|by rewrite Heq].
    clear -Hf. induction Hf as [|a b l k [Hab _] _ IH]; [done|]. csimpl. by rewrite IH, Hab.
  - clear -Hf Hc. induction Hf as [|a b l k [Hab1 Hab2] _ IH]; [constructor|].
    apply Forall_cons in Hc as [Hc1 Hc2]. constructor; [by rewrite Hab1, Hab2|auto].
  - eapply Forall_impl; [exact Hv|]. intros r Hcov ts Hts. apply list_elem_of_lookup in Hts as [i Hi].
    destruct (Forall2_lookup_r _ _ _ _ _ Hf Hi) as (a & Ha & [-> _]). apply Hcov. by eapply list_elem_of_lookup_2.
Qed.

Lemma refresh_id d f : db_inv d f → Database.refreshTablePointers d = Ok d.
Proof.
  intros Hd. unfold Database.refreshTablePointers.
  assert (Hm : mapR (λ ts, match DatabaseCatalog.getTable (Database.db_catalog d) (TableState.name ts) with
                 | Some table => Ok (TableState.mk (TableState.name ts) (RowStore.set_table (TableState.store ts) table))
                 | None => Panic
                 end) (Database.tables d) = Ok (Database.tables d)).
  { rewrite <-(list_fmap_id (Database.tables d)) at 1. apply mapR_id. eapply Forall_impl; [apply (di_catalog _ _ Hd)|].
    intros [n [t rows nx]] Hc. cbn in *. by rewrite Hc. }
  rewrite Hm. cbn. by destruct d.
Qed.

Lemma holds_unreleased h g : SnapshotHandle.released h = false → holds (Some h) g = delta (SnapshotHandle.generation h) g.
Proof. intros Hr. unfold holds, delta. by rewrite Hr. Qed.

(** Ending a transaction: the handle is released and the session forgets its staged changes. *)
Lemma release_step d f h :
  db_inv d f → SnapshotHandle.released h = false → 0 < f (SnapshotHandle.generation h) →
  let rest := λ g, f g - holds (Some h) g in
  let d' := Database.with_registry d (handle_release h (Database.snapshot_registry d)).2 in
  db_inv d' rest ∧ ∀ g, 0 < rest g →
    stable g d d' ∧ (g ∈ gens (Database.snapshot_registry d) → g ∈ gens (Database.snapshot_registry d')).
Proof.
  intros Hd Hrel Hpos. cbv zeta. unfold handle_release. rewrite Hrel. cbn [snd].
  destruct (reg_release _ _ _ (di_registry _ _ Hd) Hpos) as (Hr & Hsub & Hkeep). cbv zeta in *.
  assert (He : ∀ g, f g - delta (SnapshotHandle.generation h) g = f g - holds (Some h) g).
  { intros g. by rewrite holds_unreleased. }
  split.
  - destruct Hd as [Hr0 Ht Hn Hc Hs Hg Hv]. split; try done; cbn.
    + eapply reg_inv_ext; [exact He|exact Hr].
    + eapply Forall_sublist; [exact Hsub|done].
    + eapply Forall_sublist; [exact Hsub|done].
  - intros g Hg. rewrite <-He in Hg. apply Hkeep in Hg. split; [by apply stable_registry|].
    rewrite !find_gen_gens. cbn. by rewrite Hg.
Qed.

Lemma begin_step c f : ready c f → step_ok c (session_begin c).1 f.
Proof.
  intros Hc. unfold session_begin. rewrite run_get_session.
  destruct (Session.active (session c)) eqn:Ha; [by apply quiet_step|].
  rewrite run_get_db, run_lift. destruct (Registry.acquire _ _) as [[r h]| |] eqn:Hacq; [|by apply quiet_step|by apply quiet_step].
  rewrite run_put_db. pose proof Hc as [Hd [Hs Hh] Hp _].
  assert (Hnone : Session.snapshot_handle (session c) = None).
  { destruct (Session.snapshot_handle (session c)); [|done]. destruct Hh. congruence. }
  destruct (reg_acquire _ _ _ _ _ (di_registry _ _ Hd) Hacq) as (-> & Hr & Hret).
  unfold Database.currentCommitSequence in *. set (q := Database.commit_sequence (db c)) in *.
  assert (He : ∀ g, f g + delta q g = others (session c) f g + holds (Some (SnapshotHandle.mk q false)) g).
  { intros g. unfold others. rewrite Hnone. unfold holds, delta. simpl. lia. }
  split; cbn [fst put_session db session Session.snapshot_handle Session.active snd].
  - eapply db_inv_ext; [exact He|]. destruct Hd as [Hr0 Ht Hn Hcat Hseq Hg Hv]. by split; try done; cbn; rewrite Hret.
  - split; [exact Hs|]. done.
  - intros g Hg. cbn. rewrite <-He in Hg. unfold gens. rewrite Hret. fold (gens (Database.snapshot_registry (db c))).
    destruct (decide (g = q)) as [->|Hne]; [by left|]. apply Hp. unfold delta in Hg. destruct (Z.eqb_spec q g); [congruence|]. lia.
  - intros g _. apply stable_registry; [done|done|]. cbn. by rewrite Hret.
  - done.
  - done.
Qed.

(** The connection after the session has ended its transaction. *)
Definition ended (c : conn) (last : option Z) : conn :=
  Conn (Database.with_registry (db c)
          (match Session.snapshot_handle (session c) with
           | Some h => (handle_release h (Database.snapshot_registry (db c))).2
           | None => Database.snapshot_registry (db c)
           end))
       (Session.mk false None last [] None).

(** [c0] is the connection before the statement, [c] the one just before it ends the transaction. *)
Record ending (c0 c : conn) (f : Z → Z) : Prop := {
  en_db : db_inv (db c) f;
  en_handle : Session.snapshot_handle (session c) = Session.snapshot_handle (session c0);
  en_stable : ∀ g, 0 < others (session c0) f g → stable g (db c0) (db c);
  en_placed : ∀ g, 0 < others (session c0) f g →
    g = Database.commit_sequence (db c) ∨ g ∈ gens (Database.snapshot_registry (db c));
  en_views : Database.views (db c) = Database.views (db c0);
  en_memory : Database.tables_memory (db c) = Database.tables_memory (db c0);
}.

Lemma ended_step c0 c f last :
  ready c0 f → Session.active (session c0) = true → ending c0 c f → step_ok c0 (ended c last) f.
Proof.
  intros [Hd [Hs Hh] Hp Hnn] Ha [Hdb Hhc Hst Hpl Hv Hm]. unfold ended. rewrite Hhc.
  destruct (Session.snapshot_handle (session c0)) as [h|] eqn:Hh0; [|congruence]. destruct Hh as [_ Hrel].
  assert (Hpos : 0 < f (SnapshotHandle.generation h)).
  { specialize (Hnn (SnapshotHandle.generation h)). unfold others in Hnn. rewrite Hh0, holds_unreleased in Hnn by done.
    unfold delta in Hnn. rewrite Z.eqb_refl in Hnn. lia. }
  destruct (release_step _ _ _ Hdb Hrel Hpos) as [Hdb' Hrest]. cbv zeta in *.
  assert (Ho : ∀ g, f g - holds (Some h) g = others (session c0) f g) by (intros g; unfold others; by rewrite Hh0).
  split; cbn [db session Session.snapshot_handle holds].
  - eapply db_inv_ext; [|exact Hdb']. intros g. cbv beta. rewrite Ho. lia.
  - split; [constructor|done].
  - intros g Hg. rewrite Z.add_0_r in Hg. destruct (Hpl g Hg) as [->|Hin]; [by left|]. right.
    apply Hrest; [|done]. by rewrite Ho.
  - intros g Hg. eapply stable_trans; [by apply Hst|]. apply Hrest. by rewrite Ho.
  - done.
  - done.
Qed.

Lemma ready_ending c f : ready c f → ending c c f.
Proof.
  intros [Hd Hs Hp Hnn]. split; try done.
  - intros g _. by apply stable_registry.
  - intros g Hg. apply Hp. unfold others in Hg. assert (0 ≤ holds (Session.snapshot_handle (session c)) g); [|lia].
    unfold holds. destruct (Session.snapshot_handle (session c)); [destruct (_ && _)|]; lia.
Qed.

Lemma keeps_rollback_entry i : keeps (rollback_entry i).
Proof.
  intros c. unfold rollback_entry. rewrite run_get_session, run_lift.
  destruct (item_at (Session.transactions (session c)) i) as [entry| |] eqn:He; [|reflexivity|reflexivity].
  rewrite run_lift. destruct (Transaction.rollback _) as [tx| |] eqn:Hr; [|reflexivity|reflexivity].
  apply item_at_ok in He. split; cbn; try done.
  - intros _ Hs. apply Forall_insert; [done|]. cbn.
    destruct (Forall_lookup_1 _ _ _ _ Hs He) as [Hn _]. unfold Transaction.rollback in Hr. inv_ok. split; [done|constructor].
  - intros Hh. apply Forall_insert; [done|]. exact (Forall_lookup_1 _ _ _ _ Hh He).
Qed.

Lemma quiet_ending c c' f : ready c f → quiet c c' → ending c c' f.
Proof.
  intros Hc [Q1 Q2 Q3 Q4 _]. destruct (ready_ending c f Hc) as [H1 H2 H3 H4 H5 H6]. split; rewrite ?Q1; try done.
Qed.

Lemma rollback_step c f : ready c f → step_ok c (session_rollback c).1 f.
Proof.
  intros Hc. unfold session_rollback. rewrite run_get_session.
  destruct (Session.active (session c)) eqn:Ha; cbn [negb]; [|by apply quiet_step]. rewrite run_bind.
  match goal with |- context [forM ?f () ?l c] =>
    assert (Hq : quiet c (forM f () l c).1) by (apply keeps_forM; intros; apply keeps_rollback_entry);
    destruct (forM f () l c) as [c' [[]|e|]] end; [|by apply quiet_step|by apply quiet_step].
  apply (ended_step c c' f (Session.last_commit_sequence (session c'))); [done|done|]. by apply quiet_ending.
Qed.

Lemma with_commit_inv d f n q :
  db_inv d f → Queue.last_assigned_sequence q = n → Database.commit_sequence d ≤ n → db_inv (Database.with_commit d n q) f.
Proof.
  intros [Hr Ht Hn Hc Hs Hg Hv] Hq Hle. split; try done; cbn. eapply Forall_impl; [exact Hg|]. cbn. intros. lia.
Qed.

Lemma with_overlay_inv d f o : db_inv d f → db_inv (Database.with_overlay d o) f.
Proof. by intros [Hr Ht Hn Hc Hs Hg Hv]. Qed.

(** Same registry, and the readers of [g] look at a retained generation or at unchanged tables. *)
Lemma stable_frame g d d' :
  Database.tables d' = Database.tables d → Database.snapshot_registry d' = Database.snapshot_registry d →
  Database.commit_sequence d' = Database.commit_sequence d → stable g d d'.
Proof. intros H1 H2 H3. apply stable_registry; [done|done|by rewrite H2]. Qed.

(** What holds after the retention and the publication, whether all entries committed or not. *)
Record publishing (c0 c : conn) (f : Z → Z) : Prop := {
  pg_db : db_inv (db c) f;
  pg_session : session_ok (session c);
  pg_handle : Session.snapshot_handle (session c) = Session.snapshot_handle (session c0);
  pg_sequence : Database.commit_sequence (db c) = Database.commit_sequence (db c0);
  pg_placed : well_placed (db c) f;
  pg_stable : ∀ g, 0 < others (session c0) f g → stable g (db c0) (db c);
  pg_views : Database.views (db c) = Database.views (db c0);
  pg_memory : Database.tables_memory (db c) = Database.tables_memory (db c0);
}.

Definition retained_for_others (c0 c : conn) (f : Z → Z) : Prop :=
  ∀ g, 0 < others (session c0) f g → g ∈ gens (Database.snapshot_registry (db c)).

Lemma others_le c f g : 0 < others (session c) f g → 0 < f g.
Proof.
  unfold others, holds. destruct (Session.snapshot_handle (session c)) as [h|]; [|lia].
  destruct (_ && _); lia.
Qed.

Lemma publish_step c0 c f :
  ready c0 f → Session.active (session c0) = true →
  session c = session c0 → db_inv (db c) f → Database.tables (db c) = Database.tables (db c0) →
  Database.snapshot_registry (db c) = Database.snapshot_registry (db c0) →
  Database.commit_sequence (db c) = Database.commit_sequence (db c0) →
  Database.views (db c) = Database.views (db c0) → Database.tables_memory (db c) = Database.tables_memory (db c0) →
  let '(d', res) := Database.retainCurrentGenerationForActiveSnapshots (db c) (Session.snapshot_handle (session c)) in
  publishing c0 (Conn d' (session c)) f ∧ res ≠ Panic ∧
  (res = Ok () → let c' := (commit_entries (Conn d' (session c))).1 in
                 publishing c0 c' f ∧ retained_for_others c0 c' f).
Proof.
  intros [Hd0 Hso Hp0 Hnn] Ha Hs Hd Ht Hr Hq Hv Hm.
  destruct (Database.retainCurrentGenerationForActiveSnapshots _ _) as [d' res] eqn:Hret.
  destruct (retain_step _ _ _ _ _ Hd Hret) as (Hd' & (r & ->) & Hnp & Hst & Hown).
  assert (Hplaced : well_placed (Database.with_registry (db c) r) f).
  { intros g Hg. cbn. rewrite Hq. destruct (Hp0 g Hg) as [->|Hin]; [by left|right].
    apply Hst; [done|]. by rewrite Hr. }
  assert (Hstable : ∀ g, 0 < others (session c0) f g → stable g (db c0) (Database.with_registry (db c) r)).
  { intros g Hg. eapply stable_trans; [by apply (stable_frame g (db c0) (db c))|]. apply Hst. by eapply others_le. }
  assert (Hpub : publishing c0 (Conn (Database.with_registry (db c) r) (session c)) f).
  { split; cbn; try done; rewrite Hs; done. }
  split; [exact Hpub|]. split; [exact Hnp|]. intros Hok. cbv zeta.
  assert (Hothers : retained_for_others c0 (Conn (Database.with_registry (db c) r) (session c)) f).
  { intros g Hg. destruct (Hplaced g (others_le _ _ _ Hg)) as [->|Hin]; [|done]. apply (Hown Hok).
    unfold others in Hg. rewrite Hs. exact Hg. }
  pose proof (commit_entries_published (Conn (Database.with_registry (db c) r) (session c)) (di_tables _ _ Hd')
    ltac:(cbn; rewrite Hs; apply Hso)) as [(ts' & Hts & Hf2) Hok' Hst' Hact Hhan].
  destruct (commit_entries (Conn (Database.with_registry (db c) r) (session c))) as [c' r'] eqn:Hce. cbn [fst db session] in *.
  assert (Hreg : Database.snapshot_registry (db c') = r) by (by rewrite Hts).
  split.
  - split; cbn.
    + rewrite Hts. apply publish_inv; [done|done|]. by rewrite Hts in Hok'.
    + split; [done|]. rewrite Hhan, Hact, Hs. apply Hso.
    + by rewrite Hhan, Hs.
    + by rewrite Hts.
    + intros g Hg. rewrite Hreg. replace (Database.commit_sequence (db c')) with (Database.commit_sequence (db c)) by (by rewrite Hts).
      apply (Hplaced g Hg).
    + intros g Hg. eapply stable_trans; [by apply Hstable|].
      apply stable_retained; [apply (di_cover _ _ Hd')|apply (Hothers g Hg)|by rewrite Hreg|]. by rewrite Hts.
    + by rewrite Hts.
    + by rewrite Hts.
  - intros g Hg. rewrite Hreg. exact (Hothers g Hg).
Qed.

Lemma publishing_step c0 c f : publishing c0 c f → step_ok c0 c f.
Proof.
  intros [Hd Hs Hh Hq Hp Hst Hv Hm].
  assert (He : ∀ g, f g = others (session c0) f g + holds (Session.snapshot_handle (session c)) g).
  { intros g. rewrite Hh. by rewrite others_holds. }
  split; try done.
  - by eapply db_inv_ext.
  - intros g Hg. apply Hp. by rewrite He.
Qed.

Lemma abort_queued_publishing c0 c f : publishing c0 c f → publishing c0 (abort_queued c).1 f.
Proof.
  intros Hp. unfold abort_queued. rewrite run_get_db, run_lift.
  destruct (Queue.abortQueuedCommit _) as [q| |] eqn:Hq; [|done|done].
  assert (Hl : Queue.last_assigned_sequence q = Queue.last_assigned_sequence (Database.commit_queue (db c))).
  { unfold Queue.abortQueuedCommit in Hq. inv_ok. done. }
  destruct Hp as [Hd Hs Hh Hqq Hp Hst Hv Hm]. split; cbn; try done.
  apply with_commit_inv; [done| |lia]. rewrite Hl. apply Hd.
Qed.

Lemma enqueue_sequence q q' :
  Queue.enqueue q = Ok q' → Queue.last_assigned_sequence q' = Queue.last_assigned_sequence q.
Proof.
  unfold Queue.enqueue. intros H. apply bind_ok_inv in H as (u & _ & H).
  destruct (diagnosticForCommitQueue _); inv_ok; done.
Qed.

(** The queued part of a commit: on failure the session is still in its transaction, on success it
    is about to end it with the next commit sequence. *)
Lemma commit_queued_step c0 c f :
  ready c0 f → Session.active (session c0) = true →
  session c = session c0 → db_inv (db c) f → Database.tables (db c) = Database.tables (db c0) →
  Database.snapshot_registry (db c) = Database.snapshot_registry (db c0) →
  Database.commit_sequence (db c) = Database.commit_sequence (db c0) →
  Database.views (db c) = Database.views (db c0) → Database.tables_memory (db c) = Database.tables_memory (db c0) →
  match commit_queued c with
  | (c', Ok _) => ending c0 c' f ∧ Database.commit_sequence (db c') = Database.commit_sequence (db c0) + 1
  | (c', Err _) => publishing c0 c' f
  | (_, Panic) => True
  end.
Proof.
  intros Hc Ha Hs Hd Ht Hr Hq Hv Hm. pose proof (publish_step c0 c f Hc Ha Hs Hd Ht Hr Hq Hv Hm) as Hp.
  unfold commit_queued. rewrite run_get_session, run_get_db.
  destruct (Database.retainCurrentGenerationForActiveSnapshots _ _) as [d' res]. destruct Hp as (Hp1 & Hnp & Hp2).
  rewrite run_put_db, run_lift. destruct res as [[]|e|]; [|exact Hp1|done].
  rewrite run_bind. specialize (Hp2 eq_refl). cbv zeta in Hp2.
  destruct (commit_entries (Conn d' (session c))) as [c' [[]|e|]]; cbn [fst] in Hp2; [|apply Hp2|done].
  rewrite run_get_db, run_lift. destruct (Queue.completeQueuedCommit _) as [[q n]| |] eqn:Hcq; [| |done].
  2: { unfold Queue.completeQueuedCommit, assert_, checked_u64 in Hcq. by repeat case_match. }
  destruct Hp2 as [[Hd2 Hs2 Hh2 Hq2 Hp2 Hst2 Hv2 Hm2] Hret].
  assert (Hn : n = Database.commit_sequence (db c0) + 1 ∧ Queue.last_assigned_sequence q = n).
  { unfold Queue.completeQueuedCommit in Hcq. inv_ok.
    match goal with H : checked_u64 (Queue.last_assigned_sequence _ + 1) = Ok _ |- _ => apply checked_u64_ok in H as [_ ->] end.
    split; [|done]. rewrite <-Hq2, <-(di_sequence _ _ Hd2). done. }
  destruct Hn as [-> Hlast]. split; [|done]. split; cbn; try done.
  - apply with_commit_inv; [done|done|lia].
  - intros g Hg. eapply stable_trans; [by apply Hst2|].
    apply stable_retained; [apply (di_cover _ _ Hd2)|by apply Hret|done|]. apply Forall_Forall2_diag, Forall_true. done.
  - intros g Hg. right. by apply Hret.
Qed.

Lemma commit_step c f : ready c f → (session_commit c).2 ≠ Panic → step_ok c (session_commit c).1 f.
Proof.
  intros Hc. unfold session_commit. rewrite run_get_session.
  destruct (Session.active (session c)) eqn:Ha; cbn [negb]; [|by intros _; apply quiet_step].
  destruct (Nat.ltb_spec 0 (length (Session.transactions (session c)))) as [Hlen|Hlen].
  - rewrite run_assoc, run_get_db, run_assoc, run_lift.
    destruct (Queue.enqueue _) as [q| |] eqn:Hq; [|by intros _; apply quiet_step|done].
    rewrite run_assoc, run_put_db, run_assoc, run_bind. unfold on_error.
    set (c1 := Conn (Database.with_commit (db c) (Database.commit_sequence (db c)) q) (session c)).
    pose proof (commit_queued_step c c1 f Hc Ha eq_refl) as Hcq. cbn [c1 db session] in Hcq.
    assert (Hd1 : db_inv (db c1) f).
    { apply with_commit_inv; [apply Hc| |cbn; lia]. rewrite (enqueue_sequence _ _ Hq). apply Hc. }
    specialize (Hcq Hd1 eq_refl eq_refl eq_refl eq_refl eq_refl).
    destruct (commit_queued c1) as [c2 [[]|e|]]; [| |done].
    + rewrite run_assoc, run_get_db, run_put_db. intros _. destruct Hcq as [[E1 E2 E3 E4 E5 E6] Hseq].
      set (c3 := Conn (Database.recordVectorOverlayDeltas (db c2) (Database.commit_sequence (db c2))) (session c2)).
      apply (ended_step c c3 f (Some (Database.commit_sequence (db c3)))); [done|done|]. split; cbn; try done.
      by apply with_overlay_inv.
    + pose proof (abort_queued_publishing _ _ _ Hcq) as Hab. destruct (abort_queued c2) as [c3 [[]|e'|]]; cbn [fst] in Hab.
      * intros _. by apply publishing_step.
      * intros _. by apply publishing_step.
      * done.
  - destruct (Session.transactions (session c)) as [|e l] eqn:Htx; [|simpl in Hlen; lia].
    rewrite run_bind. unfold commit_entries. rewrite run_get_session, Htx. cbn [length seq forM]. intros _.
    apply (ended_step c c f (Some (Database.commit_sequence (db c)))); [done|done|]. by apply ready_ending.
Qed.

(** ** Statements *)
Definition data_statement (statement : Statement.t) : bool :=
  match statement with
  | Statement.begin | Statement.commit | Statement.rollback | Statement.insert _ | Statement.update _
  | Statement.delete _ | Statement.select _ | Statement.call _ => true
  | _ => false
  end.

Lemma run_then_ret {A C} (m : M A) (g : A → C) c :
  (a ← m; mret (g a)) c = ((m c).1, g <$> (m c).2).
Proof. rewrite run_bind. by destruct (m c) as [c' []]. Qed.

Lemma executeStatement_step parse_body statement c f :
  ready c f → data_statement statement = true → (executeStatement parse_body statement c).2 ≠ Panic →
  step_ok c (executeStatement parse_body statement c).1 f.
Proof.
  intros Hc Hdata Hnp. unfold executeStatement, executeStatementWith in *.
  destruct statement; try discriminate Hdata; rewrite ?run_then_ret in *; cbn [fst snd] in *.
  - apply quiet_step; [done|]. apply keeps_insert.
  - apply quiet_step; [done|]. apply keeps_select.
  - apply quiet_step; [done|]. apply keeps_update.
  - apply quiet_step; [done|]. apply keeps_delete.
  - by apply begin_step.
  - rewrite run_bind in *. pose proof (commit_step c f Hc) as Hs.
    destruct (session_commit c) as [c' [[]|e|]]; cbn [fst snd] in *; [|by apply Hs|done].
    specialize (Hs ltac:(done)). rewrite run_get_db, run_lift in *. rewrite (refresh_id _ _ (sk_db _ _ _ Hs)) in *.
    rewrite run_put_db in *. cbn [fst mret M_ret]. by destruct c'.
  - by apply rollback_step.
  - apply quiet_step; [done|]. apply keeps_call.
Qed.

(** ** The system: one database, many sessions *)
Record system := System { sys_db : Database.t; sessions : list Session.t }.

Definition sys_step (parse_body : bytes → option Body) (y : system) (i : nat) (statement : Statement.t)
    : option (system * Result ExecutionResult.t) :=
  s ← sessions y !! i;
  let '(c, r) := executeStatement parse_body statement (Conn (sys_db y) s) in
  Some (System (db c) (<[i := session c]> (sessions y)), r).

Fixpoint holders (ss : list Session.t) (g : Z) : Z :=
  match ss with [] => 0 | s :: ss' => holds (Session.snapshot_handle s) g + holders ss' g end.

Record sys_wf (y : system) : Prop := {
  sw_db : db_inv (sys_db y) (holders (sessions y));
  sw_sessions : Forall session_ok (sessions y);
  sw_placed : well_placed (sys_db y) (holders (sessions y));
}.

Lemma holds_nonneg h g : 0 ≤ holds h g.
Proof. unfold holds. destruct h; [destruct (_ && _)|]; lia. Qed.

Lemma holders_nonneg ss g : 0 ≤ holders ss g.
Proof. induction ss as [|s ss IH]; simpl; [lia|]. pose proof (holds_nonneg (Session.snapshot_handle s) g). lia. Qed.

Lemma holders_insert ss j s s' g :
  ss !! j = Some s →
  holders (<[j := s']> ss) g = others s (holders ss) g + holds (Session.snapshot_handle s') g.
Proof.
  unfold others. revert j. induction ss as [|a ss IH]; intros [|j] H; try done.
  - simpl in H. injection H as ->. simpl. lia.
  - simpl in H. specialize (IH _ H). change (<[S j := s']> (a :: ss)) with (a :: <[j := s']> ss). cbn [holders]. lia.
Qed.

Lemma holders_others ss j s g : ss !! j = Some s → 0 ≤ others s (holders ss) g.
Proof.
  unfold others. revert j. induction ss as [|a ss IH]; intros [|j] H; try done; cbn [holders].
  - simpl in H. injection H as ->. pose proof (holders_nonneg ss g). lia.
  - simpl in H. specialize (IH _ H). pose proof (holds_nonneg (Session.snapshot_handle a) g). lia.
Qed.

Lemma holders_other_session ss i j si sj h :
  i ≠ j → ss !! i = Some si → ss !! j = Some sj → Session.snapshot_handle si = Some h → SnapshotHandle.released h = false →
  0 < others sj (holders ss) (SnapshotHandle.generation h).
Proof.
  intros Hij Hi Hj Hh Hrel.
  set (blank := Session.mk false None None [] None).
  pose proof (holders_insert ss j sj blank (SnapshotHandle.generation h) Hj) as H1. cbn in H1. rewrite Z.add_0_r in H1. rewrite <-H1.
  assert (Hi' : <[j := blank]> ss !! i = Some si) by (by rewrite list_lookup_insert_ne).
  pose proof (holders_others _ _ _ (SnapshotHandle.generation h) Hi') as H2. unfold others in H2.
  rewrite Hh, holds_unreleased in H2 by done. unfold delta in H2. rewrite Z.eqb_refl in H2. lia.
Qed.

Lemma sys_ready y j s :
  sys_wf y → sessions y !! j = Some s → ready (Conn (sys_db y) s) (holders (sessions y)).
Proof.
  intros [Hd Hs Hp] Hj. split; [done|by apply (Forall_lookup_1 _ _ _ _ Hs Hj)|done|]. intros g. by eapply holders_others.
Qed.

Lemma sys_step_ok parse_body y j statement y' r :
  sys_wf y → data_statement statement = true → sys_step parse_body y j statement = Some (y', r) → r ≠ Panic →
  sys_wf y' ∧ Database.views (sys_db y') = Database.views (sys_db y) ∧
  Database.tables_memory (sys_db y') = Database.tables_memory (sys_db y) ∧
  ∀ i s h, i ≠ j → sessions y !! i = Some s → Session.snapshot_handle s = Some h →
    sessions y' !! i = Some s ∧ stable (SnapshotHandle.generation h) (sys_db y) (sys_db y').
Proof.
  intros Hwf Hdata H Hr. unfold sys_step in H. apply bind_Some in H as (s & Hj & H).
  set (c := Conn (sys_db y) s) in *. pose proof (sys_ready _ _ _ Hwf Hj) as Hready. destruct Hwf as [Hd Hs Hp].
  pose proof (executeStatement_step parse_body statement c _ Hready Hdata) as Hstep.
  destruct (executeStatement parse_body statement c) as [c' r'] eqn:He. injection H as <- <-. cbn [fst snd] in Hstep.
  destruct (Hstep Hr) as [K1 K2 K3 K4 K5 K6]. cbn [sys_db sessions].
  assert (Hh : ∀ g, others s (holders (sessions y)) g + holds (Session.snapshot_handle (session c')) g
                    = holders (<[j := session c']> (sessions y)) g).
  { intros g. by rewrite (holders_insert _ _ s). }
  split_and!; [split; cbn| | |].
  - eapply db_inv_ext; [exact Hh|exact K1].
  - by apply Forall_insert.
  - intros g Hg. apply K3. cbv beta. cbn [session c]. by rewrite Hh.
  - exact K5.
  - exact K6.
  - intros i si h Hij Hi Hhi. split; [by rewrite list_lookup_insert_ne|]. apply K4. cbn [session c].
    eapply holders_other_session; [exact Hij|done|done|done|].
    pose proof (so_handle _ (Forall_lookup_1 _ _ _ _ Hs Hi)) as Hso. rewrite Hhi in Hso. by destruct Hso.
Qed.

(** ** Reading through a snapshot *)
Lemma find_by_name (ts ts' : list TableState.t) name :
  Forall2 same_table ts ts' →
  find_index (λ t, eqlIgnoreCase (TableState.name t) name) ts' = find_index (λ t, eqlIgnoreCase (TableState.name t) name) ts.
Proof. induction 1 as [|a b l k [Hab _] _ IH]; [done|]. cbn [find_index]. by rewrite Hab, IH. Qed.

Lemma scanWithBase_table tx st st' base :
  RowStore.table st' = RowStore.table st → Transaction.scanWithBase tx st' base = Transaction.scanWithBase tx st base.
Proof. intros He. unfold Transaction.scanWithBase. by rewrite He. Qed.

Lemma scan_stable g d d' s h a b :
  stable g d d' → Database.tables_memory d' = Database.tables_memory d →
  Session.active s = true → Session.snapshot_handle s = Some h → SnapshotHandle.generation h = g →
  same_table a b → base_of d' g b = base_of d g a →
  scanRowsForTable d' s b = scanRowsForTable d s a.
Proof.
  intros Hst Hmem Ha Hh <- [Hn Ht] Hb. unfold scanRowsForTable. rewrite Hn.
  destruct (Session.transactionForRead s (TableState.name a)) as [entry|].
  - rewrite !(baseStoreForRead_base s _ _ h) by done. rewrite Hb. destruct (base_of d _ a) as [base| |]; cbn [mbind result_bind]; [|done|done].
    unfold store_at, Database.deref, item_at. rewrite Hmem. destruct (_ =? _)%nat; [|done].
    pose proof (proj1 (Forall2_lookup _ _ _) Hst (TablePointer.slot (TableTransaction.pointer entry))) as Hl.
    destruct Hl as [x y [[_ Hxy] _]|]; cbn; [by apply scanWithBase_table|done].
  - assert (Hclone : ∀ d0 t, (snapshot_store ← Session.snapshotStoreForRead s d0 (TableState.name t);
        cloneRowsFromStore (default (TableState.store t) snapshot_store)) =
        (base ← base_of d0 (SnapshotHandle.generation h) t; cloneRowsFromStore base)).
    { intros d0 t. rewrite <-(baseStoreForRead_base s d0 t h Ha Hh). unfold Session.baseStoreForRead.
      by destruct (Session.snapshotStoreForRead _ _ _). }
    rewrite <-Hn at 1. by rewrite !Hclone, Hb.
Qed.

Lemma load_stable d d' s h name :
  stable (SnapshotHandle.generation h) d d' → Database.tables_memory d' = Database.tables_memory d →
  Session.active s = true → Session.snapshot_handle s = Some h →
  loadBaseTableForQuerySource d' s name = loadBaseTableForQuerySource d s name.
Proof.
  intros Hst Hmem Ha Hh. unfold loadBaseTableForQuerySource, Database.getTableState, Database.findTableStateIndex.
  assert (Hsame : Forall2 same_table (Database.tables d) (Database.tables d')).
  { eapply Forall2_impl; [exact Hst|]. by intros a b [? _]. }
  rewrite (find_by_name _ _ name Hsame). destruct (find_index _ _) as [i|]; [|done]. cbn [mbind option_bind].
  pose proof (proj1 (Forall2_lookup _ _ _) Hst i) as Hi. destruct Hi as [a b [Hab Hb]|]; [|done]. cbn.
  rewrite (scan_stable _ d d' s h a b Hst Hmem Ha Hh eq_refl Hab Hb). by rewrite (proj2 Hab).
Qed.

Lemma execute_ext load load' views fuel :
  (∀ n, load' n = load n) →
  (∀ s scope depth, executeSelectScoped load' views fuel s scope depth = executeSelectScoped load views fuel s scope depth) ∧
  (∀ r scope depth, executeSource load' views fuel r scope depth = executeSource load views fuel r scope depth).
Proof.
  intros Hl. induction fuel as [|fuel [IHs IHr]]; [done|]. split.
  - intros [ctes pi ps f [r|] w g h o l] scope depth; cbn [executeSelectScoped]; [|done]. by rewrite IHr.
  - intros [n a|q a|l jt r on] scope depth; cbn [executeSource].
    + destruct (findCte scope n) as [[q scope']|]; [by rewrite IHs|].
      destruct (views n); [destruct (_ <=? _)%nat; [done|by rewrite IHs]|by rewrite Hl].
    + by rewrite IHs.
    + by rewrite !IHr.
Qed.

Lemma select_stable d d' s h q :
  stable (SnapshotHandle.generation h) d d' → Database.tables_memory d' = Database.tables_memory d →
  Session.active s = true → Session.snapshot_handle s = Some h →
  Database.views d' = Database.views d →
  (executor_executeSelect q (Conn d' s)).2 = (executor_executeSelect q (Conn d s)).2.
Proof.
  intros Hst Hmem Ha Hh Hv. unfold executor_executeSelect. rewrite !run_get_db, !run_get_session. cbn [snd lift db session].
  unfold executeSelect, view_bound, findViewForQuerySource. rewrite Hv. f_equal.
  apply execute_ext. intros n. by eapply load_stable.
Qed.

(** Any number of data statements of sessions other than [i]. *)
Inductive others_run (parse_body : bytes → option Body) (i : nat) : system → system → Prop :=
  | others_done y : others_run parse_body i y y
  | others_step y y1 y2 j statement r :
      j ≠ i → data_statement statement = true → sys_step parse_body y j statement = Some (y1, r) → r ≠ Panic →
      others_run parse_body i y1 y2 → others_run parse_body i y y2.


(** ** Starting points and a concrete run *)
Lemma idle_wf d n config :
  Forall table_ok (Database.tables d) → NoDup ((λ ts, lower (TableState.name ts)) <$> Database.tables d) →
  Forall (λ ts, DatabaseCatalog.getTable (Database.db_catalog d) (TableState.name ts) =
                Some (RowStore.table (TableState.store ts))) (Database.tables d) →
  Queue.last_assigned_sequence (Database.commit_queue d) = Database.commit_sequence d →
  Database.snapshot_registry d = Registry.init config → 
  sys_wf (System d (replicate n Session.init)).
Proof.
  intros Ht Hn Hc Hq Hr.
  assert (Hz : ∀ g, holders (replicate n Session.init) g = 0) by (intros g; by induction n).
  split; cbn.
  - split; try done; rewrite Hr; cbn; try constructor.
    exists []. split; [|intros g; by rewrite Hz]. split; cbn; try done; try constructor. lia.
  - apply Forall_replicate. split; [constructor|done].
  - intros g. rewrite Hz. lia.
Qed.

Definition no_bodies : bytes → option Body := λ _, None.

Definition create_sample : Statement.t :=
  Statement.create_table (CreateTable.mk (B "t") false
    [AstColumnDef.mk (B "id") AstColumnType.integer false None true true;
     AstColumnDef.mk (B "x") AstColumnType.integer true None false false] []).

Definition insert_sample (x : Z) : Statement.t :=
  Statement.insert (Insert.mk (B "t") [B "x"] [Expression.literal (Literal.integer x)]).

#[local] Existing Instance in_place.

(** One table and two idle sessions. *)
Definition two_sessions : system :=
  System (db (executeStatement no_bodies create_sample (Conn Database.init Session.init)).1) [Session.init; Session.init].

Definition run_one (y : system) (step : nat * Statement.t) : system :=
  match sys_step no_bodies y step.1 step.2 with Some (y', _) => y' | None => y end.

Lemma two_sessions_wf : sys_wf two_sessions.
Proof.
  apply (idle_wf _ 2 default_config); try (vm_compute; reflexivity).
  - constructor; [|constructor]. split_and!; [|apply (bool_decide_eq_true_1 _); vm_compute; reflexivity|reflexivity].
    apply table_wf_b_spec. vm_compute. reflexivity.
  - apply (bool_decide_eq_true_1 _). vm_compute. reflexivity.
  - constructor; [vm_compute; reflexivity|constructor].
Qed.

Definition reader_started : system := run_one two_sessions (0%nat, Statement.begin).
Definition writer_done : system :=
  foldl run_one reader_started [(1%nat, Statement.begin); (1%nat, insert_sample 5); (1%nat, Statement.commit)].

Definition rows_seen (y : system) (i : nat) : Result (list (list Value.t)) :=
  match sessions y !! i with
  | Some s => ResultSet.rows <$> (executor_executeSelect (select_star (B "t")) (Conn (sys_db y) s)).2
  | None => Panic
  end.


(** ** How transactions end *)
Lemma publishing_active c0 c f :
  ready c0 f → Session.active (session c0) = true → publishing c0 c f → Session.active (session c) = true.
Proof.
  intros [_ [_ Hh0] _ _] Ha [_ [_ Hh] He _ _ _ _ _]. rewrite He in Hh.
  destruct (Session.snapshot_handle (session c0)); [by destruct Hh|congruence].
Qed.

Lemma commit_outcome c f :
  ready c f →
  match session_commit c with
  | (c', Ok _) =>
      Session.active (session c) = true ∧
      session c' = Session.mk false None (Some (Database.commit_sequence (db c'))) [] None ∧
      Database.commit_sequence (db c') =
        Database.commit_sequence (db c) + (if decide (Session.transactions (session c) = []) then 0 else 1)
  | (c', Err _) =>
      Database.commit_sequence (db c') = Database.commit_sequence (db c) ∧
      Session.active (session c') = Session.active (session c)
  | (_, Panic) => True
  end.
Proof.
  intros Hc. unfold session_commit. rewrite run_get_session.
  destruct (Session.active (session c)) eqn:Ha; cbn [negb]; [|cbn; by rewrite Ha].
  destruct (Nat.ltb_spec 0 (length (Session.transactions (session c)))) as [Hlen|Hlen].
  - rewrite decide_False by (intros E; rewrite E in Hlen; simpl in Hlen; lia).
    rewrite run_assoc, run_get_db, run_assoc, run_lift.
    destruct (Queue.enqueue _) as [q| |] eqn:Hq; [|by cbn; rewrite Ha|done].
    rewrite run_assoc, run_put_db, run_assoc, run_bind. unfold on_error.
    set (c1 := Conn (Database.with_commit (db c) (Database.commit_sequence (db c)) q) (session c)).
    pose proof (commit_queued_step c c1 f Hc Ha eq_refl) as Hcq. cbn [c1 db session] in Hcq.
    assert (Hd1 : db_inv (db c1) f).
    { apply with_commit_inv; [apply Hc| |cbn; lia]. rewrite (enqueue_sequence _ _ Hq). apply Hc. }
    specialize (Hcq Hd1 eq_refl eq_refl eq_refl eq_refl eq_refl).
    destruct (commit_queued c1) as [c2 [[]|e|]]; [| |done].
    + rewrite run_assoc, run_get_db, run_put_db. destruct Hcq as [_ Hseq]. by cbn.
    + pose proof (abort_queued_publishing _ _ _ Hcq) as Hab. pose proof (publishing_active _ _ _ Hc Ha Hab) as Hact.
      destruct (abort_queued c2) as [c3 [[]|e'|]]; cbn [fst] in *; [|split; [apply Hab|done]|done]. split; [apply Hab|done].
  - destruct (Session.transactions (session c)) as [|e l] eqn:Htx; [|simpl in Hlen; lia].
    rewrite decide_True by done. rewrite run_bind. unfold commit_entries. rewrite run_get_session, Htx. split_and!; [done|done|]. symmetry. apply Z.add_0_r.
Qed.

Lemma rollback_outcome c :
  match session_rollback c with
  | (c', Ok _) =>
      Session.active (session c) = true ∧ (∃ last, session c' = Session.mk false None last [] None) ∧
      Database.tables (db c') = Database.tables (db c) ∧ Database.commit_sequence (db c') = Database.commit_sequence (db c)
  | (c', Err _) => db c' = db c ∧ Session.active (session c') = Session.active (session c)
  | (_, Panic) => True
  end.
Proof.
  unfold session_rollback. rewrite run_get_session. destruct (Session.active (session c)) eqn:Ha; cbn [negb]; [|cbn; by rewrite Ha].
  rewrite run_bind. match goal with |- context [forM ?f () ?l c] =>
    assert (Hq : quiet c (forM f () l c).1) by (apply keeps_forM; intros; apply keeps_rollback_entry);
    destruct (forM f () l c) as [c' [[]|e|]] end; cbn [fst] in Hq; [| |done].
  - split_and!; [done|by eexists| |].
    + transitivity (Database.tables (db c')); [done|by rewrite (quiet_db _ _ Hq)].
    + transitivity (Database.commit_sequence (db c')); [done|by rewrite (quiet_db _ _ Hq)].
  - split; [apply Hq|]. rewrite (quiet_active _ _ Hq). done.
Qed.
