(* ===== verification/Preserves.v ===== *)
(** * Invariants of the executor

    How to show that a property of the database is an invariant of SQL execution.  [preserves] is the judgement for programs of
    the executor's monad, with what is known of their result; [executor_invariant] is what has to be shown of an invariant:
    that it does not depend on queue, registry, worker and overlay, that a data statement keeps what it says of a session,
    and that publishing and the definition statements preserve it ([definition_kept] collects those that not every invariant
    survives).  The rest of the executor then does, whatever statement is executed and however it ends. *)

From S2P Require Import Prelude Catalog RowStore Transaction Concurrency Snapshot Overlay.
From S2P Require Import Ast Eval QuerySource Registries Executor ExecutorFacts.

Section judgement.
Context (I : Database.t → Prop) (J : Session.t → Prop).

Definition preserves {A} (m : M A) (Q : A → Prop) : Prop :=
  ∀ c, I (db c) → J (session c) → (I (db (m c).1) ∧ J (session (m c).1)) ∧ ∀ a, (m c).2 = Ok a → Q a.

Lemma preserves_ret {A} (a : A) (Q : A → Prop) : Q a → preserves (mret a) Q.
Proof. intros H c Hi Hj. split; [done|]. by intros b [= <-]. Qed.

Lemma preserves_lift {A} (r : Result A) : preserves (lift r) (λ a, r = Ok a).
Proof. by intros c Hi Hj. Qed.

Lemma preserves_get_db : preserves get_db I.
Proof. intros c Hi Hj. split; [done|]. by intros d [= <-]. Qed.

Lemma preserves_get_session : preserves get_session J.
Proof. intros c Hi Hj. split; [done|]. by intros s [= <-]. Qed.

Lemma preserves_put_db d : I d → preserves (put_db d) (λ _, True).
Proof. by intros Hd c Hi Hj. Qed.

Lemma preserves_put_session s : J s → preserves (put_session s) (λ _, True).
Proof. by intros Hs c Hi Hj. Qed.

Lemma preserves_bind {A C} (m : M A) (f : A → M C) P Q :
  preserves m P → (∀ a, P a → preserves (f a) Q) → preserves (m ≫= f) Q.
Proof.
  intros Hm Hf c Hi Hj. destruct (Hm c Hi Hj) as [[H1 H1'] H2]. rewrite run_bind.
  destruct (m c) as [c' [a|e|]]; cbn in *; [by apply Hf; [apply H2| |]|done|done].
Qed.

Lemma preserves_weaken {A} (m : M A) (P Q : A → Prop) : preserves m P → (∀ a, P a → Q a) → preserves m Q.
Proof. intros H HQ c Hi Hj. destruct (H c Hi Hj) as [H1 H2]. auto. Qed.

Lemma preserves_forM {S A} (f : S → A → M S) acc items :
  (∀ s a, preserves (f s a) (λ _, True)) → preserves (forM f acc items) (λ _, True).
Proof.
  intros Hf. revert acc. induction items as [|a items IH]; intros acc; cbn; [by apply preserves_ret|].
  eapply preserves_bind; [apply Hf|]. intros s _. apply IH.
Qed.

Lemma preserves_on_error {A} (m : M A) cleanup Q :
  preserves m Q → preserves cleanup (λ _, True) → preserves (on_error m cleanup) Q.
Proof.
  intros Hm Hc c Hi Hj. destruct (Hm c Hi Hj) as [[H1 H1'] H2]. unfold on_error. destruct (m c) as [c' [a|e|]]; cbn in *; [done| |done].
  destruct (Hc c' H1 H1') as [H3 _]. by destruct (cleanup c') as [c'' [u|e'|]].
Qed.
End judgement.

Create HintDb preserves.
#[export] Hint Resolve preserves_lift preserves_get_db preserves_get_session preserves_put_db preserves_put_session preserves_forM : preserves.

(** Composes the rules over the structure of a program. *)
Ltac preserve :=
  repeat lazymatch goal with
  | |- preserves _ _ (_ ≫= _) _ => eapply preserves_bind; [|intros ? ?]
  | |- preserves _ _ (mret _) _ => apply preserves_ret; done
  | |- preserves _ _ (if ?b then _ else _) _ => destruct b
  | |- preserves _ _ (match ?x with _ => _ end) _ => destruct x eqn:?
  | _ => first [solve [eauto with preserves] | solve [eapply preserves_weaken; [solve [eauto with preserves]|done]]]
  end.

(** ** What an invariant has to satisfy *)

(** [d'] differs from [d] at most in the commit queue and sequence, the snapshot registry, the worker and the overlay. *)
Record same_objects (d d' : Database.t) : Prop := {
  same_catalog : Database.db_catalog d' = Database.db_catalog d;
  same_views : Database.views d' = Database.views d;
  same_procedures : Database.procedures d' = Database.procedures d;
  same_tables : Database.tables d' = Database.tables d;
  same_memory : Database.tables_memory d' = Database.tables_memory d;
}.

(** [s'] has the staged changes of [s], or none. *)
Definition same_staged (s s' : Session.t) : Prop :=
  Session.transactions s' = Session.transactions s ∨ Session.transactions s' = [].

Class executor_invariant (parse_body : bytes → option Body) (I : Database.t → Prop) (J : Session.t → Prop) : Prop := {
  ei_objects d d' : I d → same_objects d d' → I d';
  ei_staged s s' : J s → same_staged s s' → J s';
  ei_quiet c c' : I (db c) → J (session c) → quiet c c' → J (session c');
  ei_refresh d d' : I d → Database.refreshTablePointers d = Ok d' → I d';
  ei_commit_entry i : preserves I J (commit_entry i) (λ _, True);
  ei_dropView s : preserves I J (executor_dropView s) (λ _, True);
  ei_createProcedure s : preserves I J (createProcedure parse_body s) (λ _, True);
  ei_dropProcedure s : preserves I J (executor_dropProcedure s) (λ _, True);
}.

#[export] Hint Extern 0 (same_objects _ _) => by split : preserves.
#[export] Hint Extern 0 (same_staged _ _) => first [by left | by right] : preserves.

Section executor.
Context {parse_body : bytes → option Body} {I : Database.t → Prop} {J : Session.t → Prop} {inv : executor_invariant parse_body I J}.

Local Notation kept m := (preserves I J m (λ _, True)).

Lemma invariant_objects d d' : I d → same_objects d d' → I d'.
Proof. apply ei_objects. Qed.
Lemma invariant_staged s s' : J s → same_staged s s' → J s'.
Proof. apply ei_staged. Qed.
Lemma invariant_commit_entry i : kept (commit_entry i).
Proof. apply ei_commit_entry. Qed.
Hint Resolve invariant_objects invariant_staged invariant_commit_entry : preserves.

Lemma preserves_quiet {A} (m : M A) : keeps m → kept m.
Proof. intros H c Hi Hj. split; [|done]. split; [by rewrite (quiet_db _ _ (H c))|]. by apply (ei_quiet c). Qed.

Lemma preserves_releaseSnapshotHandle : kept releaseSnapshotHandle.
Proof. unfold releaseSnapshotHandle. preserve. Qed.

Lemma preserves_clearTransactions : kept clearTransactions.
Proof. unfold clearTransactions. preserve. Qed.

Hint Resolve preserves_releaseSnapshotHandle preserves_clearTransactions : preserves.

Lemma preserves_begin : kept session_begin.
Proof. unfold session_begin. preserve. Qed.

Lemma preserves_commit_entries : kept commit_entries.
Proof. unfold commit_entries. preserve. Qed.

Hint Resolve preserves_commit_entries : preserves.

Lemma retain_same d h : same_objects d (Database.retainCurrentGenerationForActiveSnapshots d h).1.
Proof.
  unfold Database.retainCurrentGenerationForActiveSnapshots. destruct (negb _); [by split|].
  destruct (Registry.retainGeneration _ _ _). by split.
Qed.

Lemma preserves_commit_queued : kept commit_queued.
Proof.
  unfold commit_queued. eapply preserves_bind; [preserve|intros s Hs]. eapply preserves_bind; [preserve|intros d Hd].
  pose proof (ei_objects _ _ Hd (retain_same d (Session.snapshot_handle s))) as Hd'.
  destruct (Database.retainCurrentGenerationForActiveSnapshots d (Session.snapshot_handle s)) as [d' res]. cbn in Hd'. preserve.
Qed.

Lemma preserves_abort_queued : kept abort_queued.
Proof. unfold abort_queued. preserve. Qed.

Lemma preserves_commit : kept session_commit.
Proof.
  unfold session_commit. pose proof (preserves_on_error _ _ _ _ _ preserves_commit_queued preserves_abort_queued). preserve.
Qed.

Lemma preserves_rollback : kept session_rollback.
Proof. unfold session_rollback. preserve. apply preserves_forM. intros. apply preserves_quiet, keeps_rollback_entry. Qed.

(** What depends on the invariant: the statements that change the list of tables, and CREATE VIEW. *)
Definition definition_kept (statement : Statement.t) : Prop :=
  match statement with
  | Statement.create_table s => kept (createTable s)
  | Statement.drop_table s => kept (dropTable s)
  | Statement.create_view v => kept (createView v)
  | _ => True
  end.

(** Every statement, provided that these do. *)
Lemma preserves_statement statement : definition_kept statement → kept (executeStatement parse_body statement).
Proof.
  intros Hdef. unfold executeStatement, executeStatementWith. destruct statement.
  all: lazymatch goal with
       | |- preserves _ _ (_ ← session_commit; _) _ => idtac
       | |- preserves _ _ (_ ≫= _) _ => eapply preserves_bind; [|intros; by apply preserves_ret]
       | |- _ => idtac
       end.
  all: eauto using ei_dropView, ei_createProcedure, ei_dropProcedure, preserves_begin, preserves_rollback,
    preserves_quiet, keeps_insert, keeps_update, keeps_delete, keeps_select, keeps_call.
  eapply preserves_bind; [apply preserves_commit|intros _ _]. eapply preserves_bind; [preserve|intros d Hd].
  eapply preserves_bind; [preserve|intros d' Hd']. pose proof (ei_refresh _ _ Hd Hd'). preserve.
Qed.

(** One statement of one session, the others waiting. *)
Lemma sys_step_preserves y i statement y' r :
  definition_kept statement →
  sys_step parse_body y i statement = Some (y', r) → I (sys_db y) ∧ Forall J (sessions y) → I (sys_db y') ∧ Forall J (sessions y').
Proof.
  unfold sys_step. intros Hdef H [Hi Hj]. destruct (sessions y !! i) as [s|] eqn:Es; [|done]. cbn in H.
  pose proof (Forall_lookup_1 _ _ _ _ Hj Es) as Hs.
  destruct (preserves_statement statement Hdef (Conn (sys_db y) s) Hi Hs) as [[H1 H2] _].
  destruct (executeStatement _ _ _) as [c r']. injection H as <- <-. split; [done|]. by apply Forall_insert.
Qed.
End executor.
