(* ===== verification/Recovery.v ===== *)
(** * Exporting and restoring the executor's database

    [exportSnapshot] and [initFromSnapshot] of [src/src/db/executor.zig]: what comes back when an engine is
    rebuilt from a snapshot of itself, and what does not. *)

From S2P Require Import Prelude Value Catalog CatalogFacts TableFacts RowStore Concurrency Snapshot Overlay Persistence.
From S2P Require Import Ast Eval QuerySource QueryFacts Registries Executor ExecutorFacts.

(** ** Lookup by name in lists with distinct names *)
Section by_name.
Context {X : Type} (nm : X → bytes).

Lemma find_name_middle pre x post n :
  NoDup ((λ y, lower (nm y)) <$> pre ++ x :: post) → same_name (nm x) n →
  find_index (λ y, eqlIgnoreCase (nm y) n) (pre ++ x :: post) = Some (length pre).
Proof.
  intros Hnd Hx. apply find_index_Some. split; [exists x; split; [by apply list_lookup_middle|done]|].
  intros j y Hj Hy. apply eqlIgnoreCase_false. intros E. apply eqlIgnoreCase_spec in Hx. rewrite <-Hx in E.
  assert (j = length pre); [|lia].
  eapply (NoDup_lookup _ _ _ (lower (nm x)) Hnd); rewrite list_lookup_fmap.
  - rewrite Hy. simpl. by rewrite E.
  - rewrite list_lookup_middle by done. done.
Qed.

Lemma find_name_None l n :
  lower n ∉ ((λ y, lower (nm y)) <$> l) → find_index (λ y, eqlIgnoreCase (nm y) n) l = None.
Proof.
  intros Hn. apply find_index_None, Forall_forall. intros y Hy. apply eqlIgnoreCase_false. intros E. apply Hn.
  rewrite <-E. by apply (list_elem_of_fmap_2 (λ y, lower (nm y))).
Qed.
End by_name.

Definition table_of (ts : TableState.t) : TableDef.t := RowStore.table (TableState.store ts).

Definition table_names (ts : list TableState.t) : list bytes := (λ t, lower (TableState.name t)) <$> ts.

Lemma table_of_names ts :
  Forall table_ok ts → (λ t, lower (TableDef.name t)) <$> (table_of <$> ts) = table_names ts.
Proof.
  unfold table_names. induction 1 as [|t ts (_ & _ & Hn) _ IH]; [done|]. csimpl. rewrite IH. unfold table_of. by rewrite Hn.
Qed.

Lemma copy_store ts : table_ok ts → copyRowsIntoStore (RowStore.init (table_of ts)) (TableState.store ts) = Ok (TableState.store ts).
Proof.
  intros (_ & Hs & _). unfold copyRowsIntoStore, RowStore.rows, table_of. destruct (insert_rows_init _ Hs) as [n ->].
  cbn. by destruct (TableState.store ts).
Qed.

Lemma getTable_middle pre ts post vs ps n :
  Forall table_ok (pre ++ ts :: post) → NoDup (table_names (pre ++ ts :: post)) → same_name (TableState.name ts) n →
  DatabaseCatalog.getTable (DatabaseCatalog.mk (table_of <$> pre ++ ts :: post) vs ps) n = Some (table_of ts).
Proof.
  intros Hok Hnd Hn. unfold DatabaseCatalog.getTable, DatabaseCatalog.findTableIndex. cbn [DatabaseCatalog.tables].
  rewrite <-table_of_names in Hnd by done. rewrite fmap_app, fmap_cons in *.
  assert (Hname : TableDef.name (table_of ts) = TableState.name ts).
  { apply Forall_app in Hok as [_ Hok]. apply Forall_cons in Hok as [(_ & _ & H) _]. exact H. }
  unfold namesEqual. rewrite (find_name_middle TableDef.name) by (by rewrite ?Hname).
  cbn. by rewrite list_lookup_middle.
Qed.

(** ** Registering views and procedures one by one *)
Lemma keys_of_entries c :
  (entries c).*1 = ((λ t, lower (TableDef.name t)) <$> DatabaseCatalog.tables c) ++
                   ((λ v, lower (ViewDef.name v)) <$> DatabaseCatalog.views c) ++
                   ((λ p, lower (ProcedureDef.name p)) <$> DatabaseCatalog.procedures c).
Proof. unfold entries. rewrite !fmap_app, <-!list_fmap_compose. done. Qed.

Lemma is_some_None {A} (o : option A) : o = None → DatabaseCatalog.is_some o = false.
Proof. by intros ->. Qed.

(** A name that is nowhere in the catalog. *)
Lemma fresh_name c n :
  lower n ∉ (entries c).*1 →
  DatabaseCatalog.findTableIndex c n = None ∧ DatabaseCatalog.findViewIndex c n = None ∧ DatabaseCatalog.findProcedureIndex c n = None.
Proof.
  rewrite keys_of_entries. intros Hn. rewrite !not_elem_of_app in Hn. destruct Hn as (H1 & H2 & H3).
  split_and!; by apply find_name_None.
Qed.

Lemma register_views ts vs0 vs :
  catalog_inv (DatabaseCatalog.mk ts (vs0 ++ vs) []) →
  foldM (λ c v, DatabaseCatalog.registerView c (ViewDef.name v) (ViewDef.body v)) (DatabaseCatalog.mk ts vs0 []) vs =
  Ok (DatabaseCatalog.mk ts (vs0 ++ vs) []).
Proof.
  revert vs0. induction vs as [|v vs IH]; intros vs0 Hinv; cbn [foldM]; [by rewrite app_nil_r|].
  assert (Hf : lower (ViewDef.name v) ∉ (entries (DatabaseCatalog.mk ts vs0 [])).*1).
  { unfold catalog_inv in Hinv. rewrite keys_of_entries in *. cbn in *. rewrite app_nil_r in *.
    rewrite fmap_app, fmap_cons, app_assoc in Hinv. apply NoDup_app in Hinv as (_ & Hd & _). intros Hin. apply (Hd _ Hin). apply list_elem_of_here. }
  destruct (fresh_name _ _ Hf) as (H1 & H2 & H3). unfold DatabaseCatalog.registerView, DatabaseCatalog.nameUsedOutsideViews.
  rewrite H1, H2, H3. cbn. rewrite (cons_middle v vs0 vs), app_assoc in *. destruct v. by apply IH.
Qed.

Lemma register_procedures ts vs ps0 ps :
  catalog_inv (DatabaseCatalog.mk ts vs (ps0 ++ ps)) →
  foldM (λ c p, DatabaseCatalog.registerProcedure c (ProcedureDef.name p) (ProcedureDef.body p)) (DatabaseCatalog.mk ts vs ps0) ps =
  Ok (DatabaseCatalog.mk ts vs (ps0 ++ ps)).
Proof.
  revert ps0. induction ps as [|p ps IH]; intros ps0 Hinv; cbn [foldM]; [by rewrite app_nil_r|].
  assert (Hf : lower (ProcedureDef.name p) ∉ (entries (DatabaseCatalog.mk ts vs ps0)).*1).
  { unfold catalog_inv in Hinv. rewrite keys_of_entries in *. cbn in *.
    rewrite fmap_app, fmap_cons, !app_assoc in Hinv. apply NoDup_app in Hinv as (_ & Hd & _). rewrite <-app_assoc in Hd.
    intros Hin. apply (Hd _ Hin). apply list_elem_of_here. }
  destruct (fresh_name _ _ Hf) as (H1 & H2 & H3). unfold DatabaseCatalog.registerProcedure, DatabaseCatalog.nameUsedOutsideProcedures.
  rewrite H1, H2, H3. cbn. rewrite (cons_middle p ps0 ps), app_assoc in *. destruct p. by apply IH.
Qed.

(** ** Databases that can be exported and read back *)
Definition reparses (parse : bytes → option Statement.t) (v : ViewDef.t) (q : SelectStatement) : Prop :=
  parse (ViewDef.body v) = Some (Statement.select q) ∧
  match q with Select _ _ _ None None _ _ _ _ _ => False | _ => True end.

Record exportable (parse : bytes → option Statement.t) (parse_body : bytes → option Body) (d : Database.t) : Prop := {
  ex_tables : Forall table_ok (Database.tables d);
  ex_lockstep : DatabaseCatalog.tables (Database.db_catalog d) = table_of <$> Database.tables d;
  ex_catalog : catalog_inv (Database.db_catalog d);
  ex_views : Forall (λ v, ∃ q, reparses parse v q) (DatabaseCatalog.views (Database.db_catalog d));
  ex_procedures : Forall (λ p, is_Some (parse_body (ProcedureDef.body p))) (DatabaseCatalog.procedures (Database.db_catalog d));
}.

Lemma exportable_names parse parse_body d : exportable parse parse_body d → NoDup (table_names (Database.tables d)).
Proof.
  intros [Ht Hl Hc _ _]. unfold catalog_inv in Hc. rewrite keys_of_entries, Hl in Hc.
  apply NoDup_app in Hc as [Hc _]. by rewrite table_of_names in Hc.
Qed.

Lemma export_ok parse parse_body d :
  exportable parse parse_body d →
  exportSnapshot d = Ok (DatabaseSnapshot.mk (Database.db_catalog d) (TableState.store <$> Database.tables d)).
Proof.
  intros Hd. pose proof (exportable_names _ _ _ Hd) as Hnd. destruct Hd as [Ht Hl Hc _ _]. unfold exportSnapshot.
  assert (H1 : mapR (λ ts, cloneTableDef (RowStore.table (TableState.store ts))) (Database.tables d) = Ok (table_of <$> Database.tables d)).
  { apply mapR_ok_inv, Forall2_fmap_r, Forall_Forall2_diag. eapply Forall_impl; [exact Ht|].
    intros ts (Hw & _ & _). by apply cloneTableDef_wf. }
  rewrite H1. cbn [mbind result_bind].
  assert (H2 : mapR (export_store (DatabaseCatalog.mk (table_of <$> Database.tables d) [] [])) (Database.tables d)
               = Ok (TableState.store <$> Database.tables d)).
  { apply mapR_ok_inv, Forall2_fmap_r, Forall_Forall2_diag, Forall_forall. intros ts Hin.
    destruct (list_elem_of_split _ _ Hin) as (pre & post & Hsplit). rewrite Hsplit in *. unfold export_store.
    rewrite getTable_middle by (done || apply eqlIgnoreCase_refl). cbn. apply copy_store.
    apply Forall_app in Ht as [_ Ht]. by apply Forall_cons in Ht as [? _]. }
  rewrite H2. cbn [mbind result_bind]. rewrite <-Hl in *. destruct (Database.db_catalog d) as [ts vs ps]. cbn in *.
  rewrite (register_views ts [] vs).
  2: { unfold catalog_inv in *. rewrite keys_of_entries in *. cbn in *. rewrite app_nil_r.
       rewrite app_assoc in Hc. by apply NoDup_app in Hc as [Hc _]. }
  cbn [mbind result_bind app]. by rewrite (register_procedures ts vs [] ps).
Qed.

Section restore.
Context (parse : bytes → option Statement.t) (parse_body : bytes → option Body).
Context (d : Database.t) (Hd : exportable parse parse_body d) {allocator : Allocator}.

Definition snapshot_of : DatabaseSnapshot.t :=
  DatabaseSnapshot.mk (Database.db_catalog d) (TableState.store <$> Database.tables d).

(** The engine after restoring some tables, views and procedures. *)
Definition partial_db (ts : list TableState.t) (vs : list ViewDef.t) (ps : list ProcedureDef.t)
    (views : list StoredView.t) (procs : list StoredProcedure.t) : Database.t :=
  Database.mk (DatabaseCatalog.mk (table_of <$> ts) vs ps) (ViewRegistry.mk views) (ProcedureRegistry.mk procs) ts
    (Nat.iter (length ts) TableMemory.append TableMemory.init) 0 (Queue.init default_config) (Registry.init default_config)
    Worker.init Overlay.init.

Lemma partial_append pre ts vs ps views procs :
  Database.append_state
    (Database.with_catalog (partial_db pre vs ps views procs) (DatabaseCatalog.mk (table_of <$> pre ++ [ts]) vs ps)) ts =
  partial_db (pre ++ [ts]) vs ps views procs.
Proof. unfold partial_db, Database.append_state. rewrite length_app, Nat.add_1_r. reflexivity. Qed.

Lemma storeForTable_of pre ts post :
  Database.tables d = pre ++ ts :: post →
  DatabaseSnapshot.storeForTable snapshot_of (TableState.name ts) = Some (TableState.store ts).
Proof.
  intros Hsplit. unfold DatabaseSnapshot.storeForTable, DatabaseSnapshot.tableIndex, snapshot_of.
  cbn [DatabaseSnapshot.catalog DatabaseSnapshot.stores]. rewrite (ex_lockstep _ _ _ Hd).
  pose proof (exportable_names _ _ _ Hd) as Hnd. pose proof (ex_tables _ _ _ Hd) as Ht.
  rewrite <-table_of_names in Hnd by done. rewrite Hsplit in *. rewrite !fmap_app, !fmap_cons in *.
  apply Forall_app in Ht as [_ Ht]. apply Forall_cons in Ht as [(_ & _ & Hn) _].
  rewrite (find_name_middle TableDef.name) by (by rewrite ?fmap_app, ?fmap_cons || (unfold table_of; rewrite Hn; apply eqlIgnoreCase_refl)).
  cbn. rewrite length_fmap. by rewrite list_lookup_middle by (by rewrite length_fmap).
Qed.

Lemma import_tables pre post :
  Database.tables d = pre ++ post →
  foldM (import_table snapshot_of) (partial_db pre [] [] [] []) (table_of <$> post) = Ok (partial_db (pre ++ post) [] [] [] []).
Proof.
  revert pre. induction post as [|ts post IH]; intros pre Hsplit; [by rewrite app_nil_r|]. rewrite fmap_cons. cbn [foldM].
  pose proof (ex_tables _ _ _ Hd) as Ht. pose proof (exportable_names _ _ _ Hd) as Hnd. rewrite Hsplit in Ht, Hnd.
  assert (Hok : table_ok ts) by (apply Forall_app in Ht as [_ Ht]; by apply Forall_cons in Ht as [? _]).
  destruct Hok as (Hw & Hst & Hname).
  assert (Hstep : import_table snapshot_of (partial_db pre [] [] [] []) (table_of ts) = Ok (partial_db (pre ++ [ts]) [] [] [] [])).
  { unfold import_table. rewrite (cloneTableDef_wf (table_of ts)) by done. cbn [mbind result_bind].
    replace (TableDef.name (table_of ts)) with (TableState.name ts) by done.
    unfold append_table. cbn [partial_db Database.db_catalog DatabaseCatalog.tables DatabaseCatalog.views DatabaseCatalog.procedures].
    replace ((table_of <$> pre) ++ [table_of ts]) with (table_of <$> pre ++ [ts]) by (by rewrite fmap_app).
    rewrite getTable_middle; [| | |apply eqlIgnoreCase_refl].
    - cbn [orelse mbind result_bind]. rewrite (storeForTable_of pre ts post Hsplit). cbn [orelse mbind result_bind].
      rewrite copy_store by done. cbn [mbind result_bind]. rewrite <-partial_append. by destruct ts.
    - rewrite cons_middle, app_assoc in Ht. by apply Forall_app in Ht as [? _].
    - unfold table_names in *. rewrite cons_middle, app_assoc, fmap_app in Hnd. by apply NoDup_app in Hnd as [? _]. }
  rewrite Hstep. cbn [mbind result_bind]. rewrite (cons_middle ts pre post), app_assoc in *. by apply IH.
Qed.

Lemma view_fresh vs0 v vs (views : list StoredView.t) ps :
  catalog_inv (DatabaseCatalog.mk (table_of <$> Database.tables d) (vs0 ++ v :: vs) ps) →
  lower (ViewDef.name v) ∉ (entries (DatabaseCatalog.mk (table_of <$> Database.tables d) vs0 [])).*1.
Proof.
  unfold catalog_inv. rewrite !keys_of_entries. cbn. rewrite app_nil_r, fmap_app, fmap_cons, !app_assoc.
  rewrite <-app_assoc. intros Hc. apply NoDup_app in Hc as (_ & Hdis & _). intros Hin. apply (Hdis _ Hin), list_elem_of_here.
Qed.

(** The runtime view built from a stored body. *)
Definition restored_view (v : ViewDef.t) (sv : StoredView.t) : Prop :=
  StoredView.name sv = ViewDef.name v ∧ ∃ q, reparses parse v q ∧ StoredView.query sv = cloneSelect q.

Lemma restored_view_names vs views :
  Forall2 restored_view vs views → (λ y, lower (StoredView.name y)) <$> views = (λ v, lower (ViewDef.name v)) <$> vs.
Proof. induction 1 as [|a b l k [Hab _] _ IH]; [done|]. csimpl. by rewrite Hab, IH. Qed.

Lemma import_views vs0 vs views0 :
  DatabaseCatalog.views (Database.db_catalog d) = vs0 ++ vs → Forall2 restored_view vs0 views0 →
  ∃ views, foldM (import_view parse) (partial_db (Database.tables d) vs0 [] views0 []) vs =
             Ok (partial_db (Database.tables d) (vs0 ++ vs) [] views []) ∧ Forall2 restored_view (vs0 ++ vs) views.
Proof.
  revert vs0 views0. induction vs as [|v vs IH]; intros vs0 views0 Hsplit Hr; cbn [foldM].
  { exists views0. by rewrite app_nil_r. }
  pose proof (ex_catalog _ _ _ Hd) as Hc. pose proof (ex_lockstep _ _ _ Hd) as Hl. pose proof (ex_views _ _ _ Hd) as Hv.
  rewrite Hsplit in Hv. apply Forall_app in Hv as [_ Hv]. apply Forall_cons in Hv as [(q & Hq & Hsrc) _].
  assert (Hf : lower (ViewDef.name v) ∉ (entries (DatabaseCatalog.mk (table_of <$> Database.tables d) vs0 [])).*1).
  { apply (view_fresh vs0 v vs views0 (DatabaseCatalog.procedures (Database.db_catalog d))).
    rewrite <-Hl, <-Hsplit. by destruct (Database.db_catalog d). }
  destruct (fresh_name _ _ Hf) as (H1 & H2 & H3).
  assert (Hview : ViewRegistry.findIndex (ViewRegistry.mk views0) (ViewDef.name v) = None).
  { apply find_name_None. rewrite keys_of_entries in Hf. rewrite !not_elem_of_app in Hf.
    cbn [ViewRegistry.views]. rewrite (restored_view_names _ _ Hr). apply Hf. }
  assert (Hstep : import_view parse (partial_db (Database.tables d) vs0 [] views0 []) v =
    Ok (partial_db (Database.tables d) (vs0 ++ [v]) [] (views0 ++ [StoredView.mk (ViewDef.name v) (cloneSelect q)]) [])).
  { unfold import_view, DatabaseCatalog.registerView, DatabaseCatalog.nameUsedOutsideViews.
    cbn [partial_db Database.with_procedures Database.with_views Database.with_tables Database.with_catalog Database.db_catalog].
    rewrite H1, H2, H3. cbn [DatabaseCatalog.is_some fail_if orb mbind result_bind]. unfold createRuntimeViewFromBody. rewrite Hq.
    unfold ViewRegistry.create.
    match goal with |- context [ViewRegistry.findIndex ?r _] => change r with (ViewRegistry.mk views0) end. rewrite Hview.
    destruct q as [c1 c2 c3 from src c6 c7 c8 c9 c10]. destruct v. by destruct src, from. }
  rewrite Hstep. cbn [mbind result_bind]. rewrite (cons_middle v vs0 vs), app_assoc in *. apply IH; [done|].
  apply Forall2_app; [done|]. constructor; [|constructor]. split; [done|]. by exists q.
Qed.

(** A restored procedure has the body of its definition and no parameters. *)
Definition restored_procedure (p : ProcedureDef.t) (sp : StoredProcedure.t) : Prop :=
  StoredProcedure.name sp = ProcedureDef.name p ∧ StoredProcedure.params sp = [] ∧
  parse_body (ProcedureDef.body p) = Some (StoredProcedure.body sp).

Lemma restored_procedure_names ps procs :
  Forall2 restored_procedure ps procs → (λ y, lower (StoredProcedure.name y)) <$> procs = (λ p, lower (ProcedureDef.name p)) <$> ps.
Proof. induction 1 as [|a b l k [Hab _] _ IH]; [done|]. csimpl. by rewrite Hab, IH. Qed.

Lemma import_procedures ps0 ps views procs0 :
  DatabaseCatalog.procedures (Database.db_catalog d) = ps0 ++ ps → Forall2 restored_procedure ps0 procs0 →
  let vs := DatabaseCatalog.views (Database.db_catalog d) in
  ∃ procs, foldM (import_procedure parse_body) (partial_db (Database.tables d) vs ps0 views procs0) ps =
             Ok (partial_db (Database.tables d) vs (ps0 ++ ps) views procs) ∧ Forall2 restored_procedure (ps0 ++ ps) procs.
Proof.
  cbv zeta. revert ps0 procs0. induction ps as [|p ps IH]; intros ps0 procs0 Hsplit Hr; cbn [foldM].
  { exists procs0. by rewrite app_nil_r. }
  pose proof (ex_catalog _ _ _ Hd) as Hc. pose proof (ex_lockstep _ _ _ Hd) as Hl. pose proof (ex_procedures _ _ _ Hd) as Hp.
  rewrite Hsplit in Hp. apply Forall_app in Hp as [_ Hp]. apply Forall_cons in Hp as [[body Hbody] _].
  set (vs := DatabaseCatalog.views (Database.db_catalog d)) in *.
  assert (Hf : lower (ProcedureDef.name p) ∉ (entries (DatabaseCatalog.mk (table_of <$> Database.tables d) vs ps0)).*1).
  { unfold catalog_inv in Hc. rewrite keys_of_entries in *. rewrite Hl, Hsplit in Hc. fold vs in Hc. cbn.
    rewrite fmap_app, fmap_cons, !app_assoc in Hc. apply NoDup_app in Hc as (_ & Hdis & _). rewrite <-app_assoc in Hdis.
    intros Hin. apply (Hdis _ Hin), list_elem_of_here. }
  destruct (fresh_name _ _ Hf) as (H1 & H2 & H3).
  assert (Hproc : ProcedureRegistry.findIndex (ProcedureRegistry.mk procs0) (ProcedureDef.name p) = None).
  { apply find_name_None. rewrite keys_of_entries in Hf. rewrite !not_elem_of_app in Hf.
    cbn [ProcedureRegistry.procedures]. rewrite (restored_procedure_names _ _ Hr). apply Hf. }
  assert (Hstep : import_procedure parse_body (partial_db (Database.tables d) vs ps0 views procs0) p =
    Ok (partial_db (Database.tables d) vs (ps0 ++ [p]) views (procs0 ++ [StoredProcedure.mk (ProcedureDef.name p) [] body]))).
  { unfold import_procedure, DatabaseCatalog.registerProcedure, DatabaseCatalog.nameUsedOutsideProcedures.
    cbn [partial_db Database.with_procedures Database.with_views Database.with_tables Database.with_catalog Database.db_catalog].
    rewrite H1, H2, H3. cbn [DatabaseCatalog.is_some fail_if orb mbind result_bind].
    unfold ProcedureRegistry.create.
    match goal with |- context [ProcedureRegistry.findIndex ?r _] => change r with (ProcedureRegistry.mk procs0) end.
    rewrite Hproc, Hbody. by destruct p. }
  rewrite Hstep. cbn [mbind result_bind]. rewrite (cons_middle p ps0 ps), app_assoc in *. apply IH; [done|].
  apply Forall2_app; [done|]. constructor; [|constructor]. by split_and!.
Qed.

Lemma restore_ok :
  ∃ d', initFromSnapshot parse parse_body snapshot_of = Ok d' ∧
    Database.db_catalog d' = Database.db_catalog d ∧ Database.tables d' = Database.tables d ∧
    Forall2 restored_view (DatabaseCatalog.views (Database.db_catalog d)) (ViewRegistry.views (Database.views d')) ∧
    Forall2 restored_procedure (DatabaseCatalog.procedures (Database.db_catalog d))
      (ProcedureRegistry.procedures (Database.procedures d')).
Proof.
  unfold initFromSnapshot. cbn [snapshot_of DatabaseSnapshot.catalog]. unfold DatabaseCatalog.listTables.
  rewrite (ex_lockstep _ _ _ Hd). change Database.init with (partial_db [] [] [] [] []).
  fold snapshot_of. rewrite (import_tables [] (Database.tables d) eq_refl). cbn [mbind result_bind app].
  unfold DatabaseCatalog.listViews, DatabaseCatalog.listProcedures.
  destruct (import_views [] (DatabaseCatalog.views (Database.db_catalog d)) [] eq_refl) as (views & Hv & Hrv); [constructor|].
  cbn [app] in Hv, Hrv. rewrite Hv. cbn [mbind result_bind].
  destruct (import_procedures [] (DatabaseCatalog.procedures (Database.db_catalog d)) views [] eq_refl) as (procs & Hp & Hrp); [constructor|].
  cbn [app] in Hp, Hrp. rewrite Hp. cbn [mbind result_bind].
  set (d' := partial_db _ _ _ _ _).
  assert (Hcat : Database.db_catalog d' = Database.db_catalog d).
  { cbn. rewrite <-(ex_lockstep _ _ _ Hd). by destruct (Database.db_catalog d). }
  exists d'. split_and!; [|exact Hcat|done|done|done].
  unfold Database.refreshTablePointers. rewrite Hcat. cbn [d' partial_db Database.with_procedures Database.with_views Database.with_tables Database.tables].
  assert (Hm : mapR (λ ts, match DatabaseCatalog.getTable (Database.db_catalog d) (TableState.name ts) with
                 | Some table => Ok (TableState.mk (TableState.name ts) (RowStore.set_table (TableState.store ts) table))
                 | None => Panic
                 end) (Database.tables d) = Ok (Database.tables d)).
  { rewrite <-(list_fmap_id (Database.tables d)) at 1. apply mapR_id, Forall_forall. intros ts Hin.
    destruct (list_elem_of_split _ _ Hin) as (pre & post & Hsplit).
    pose proof (ex_tables _ _ _ Hd) as Ht. pose proof (exportable_names _ _ _ Hd) as Hnd. rewrite Hsplit in Ht, Hnd.
    pose proof (getTable_middle pre ts post (DatabaseCatalog.views (Database.db_catalog d))
      (DatabaseCatalog.procedures (Database.db_catalog d)) (TableState.name ts) Ht Hnd (eqlIgnoreCase_refl _)) as Hget.
    rewrite <-Hsplit, <-(ex_lockstep _ _ _ Hd) in Hget.
    assert (Hc : ∀ c, DatabaseCatalog.mk (DatabaseCatalog.tables c) (DatabaseCatalog.views c) (DatabaseCatalog.procedures c) = c)
      by (by intros []).
    rewrite Hc in Hget. unfold id. rewrite Hget.
    unfold table_of. by destruct ts as [n [t rows nx]]. }
  rewrite Hm. reflexivity.
Qed.
End restore.

(** ** Registries in step with the catalog *)

Lemma restored_view_functional parse v sv sv' : restored_view parse v sv → restored_view parse v sv' → sv = sv'.
Proof.
  intros [H1 (q & [Hq _] & H2)] [H1' (q' & [Hq' _] & H2')]. destruct sv, sv'. cbn in *. congruence.
Qed.

Lemma restored_views_functional parse vs svs svs' :
  Forall2 (restored_view parse) vs svs → Forall2 (restored_view parse) vs svs' → svs = svs'.
Proof.
  intros H. revert svs'. induction H as [|v sv vs svs Hv _ IH]; intros svs' H'; inversion H'; subst; [done|].
  f_equal; [by eapply restored_view_functional|by apply IH].
Qed.

(** A stored procedure is what the text of its definition is parsed to. *)
Definition stored_procedure (parse_body : bytes → option Body) (p : ProcedureDef.t) (sp : StoredProcedure.t) : Prop :=
  StoredProcedure.name sp = ProcedureDef.name p ∧ parse_body (ProcedureDef.body p) = Some (StoredProcedure.body sp).

(** The registries hold, entry by entry, what the texts of the catalog are parsed to. *)
Record registries_match (parse : bytes → option Statement.t) (parse_body : bytes → option Body) (d : Database.t) : Prop := {
  rm_views : Forall2 (restored_view parse) (DatabaseCatalog.views (Database.db_catalog d)) (ViewRegistry.views (Database.views d));
  rm_procedures : Forall2 (stored_procedure parse_body) (DatabaseCatalog.procedures (Database.db_catalog d))
                    (ProcedureRegistry.procedures (Database.procedures d));
}.

Lemma procedures_restored parse_body ps sps sps' :
  Forall2 (stored_procedure parse_body) ps sps → Forall2 (restored_procedure parse_body) ps sps' →
  sps' = (λ sp, StoredProcedure.mk (StoredProcedure.name sp) [] (StoredProcedure.body sp)) <$> sps.
Proof.
  intros H. revert sps'. induction H as [|p sp ps sps [Hn Hp] _ IH]; intros sps' H'; inversion H' as [|? sp' ? sps'' (Hn' & Ha & Hp') ?]; subst; [done|].
  csimpl. f_equal; [|by apply IH]. destruct sp'. cbn in *. congruence.
Qed.

(** C8: an engine whose tables are in step with the catalog and have definitions that can be read back, whose names are distinct, and
    whose view and procedure texts parse and match what its registries hold, is given back by exporting it and
    rebuilding it from the snapshot: every table with its definition, rows, row order, row ids and next row id, the
    whole catalog, every view with its query, and every procedure with its body, but without its parameters. *)
Theorem export_import {allocator : Allocator} (parse : bytes → option Statement.t) (parse_body : bytes → option Body) (d : Database.t) :
  exportable parse parse_body d → registries_match parse parse_body d →
  ∃ snapshot d', exportSnapshot d = Ok snapshot ∧ initFromSnapshot parse parse_body snapshot = Ok d' ∧
    Database.db_catalog d' = Database.db_catalog d ∧ Database.tables d' = Database.tables d ∧
    Database.views d' = Database.views d ∧
    ProcedureRegistry.procedures (Database.procedures d') =
      (λ sp, StoredProcedure.mk (StoredProcedure.name sp) [] (StoredProcedure.body sp)) <$>
        ProcedureRegistry.procedures (Database.procedures d).
Proof.
  intros Hd [Hv Hp]. destruct (restore_ok _ _ _ Hd) as (d' & Hi & Hc & Ht & Hv' & Hp'). exists (snapshot_of d), d'.
  split_and!; [by eapply export_ok|done|done|done| |by eapply procedures_restored].
  pose proof (restored_views_functional _ _ _ _ Hv Hv') as E. destruct (Database.views d), (Database.views d'). cbn in E. by subst.
Qed.

(** ** A database with one row, one view and one procedure *)
#[local] Existing Instance in_place.

Definition sample_body : Body := [ProcedureStatement.sql (insert_sample 7)].

Definition sample_parse (sql : bytes) : option Statement.t :=
  if eqlIgnoreCase sql (B "select * from t") then Some (Statement.select (select_star (B "t"))) else None.

Definition sample_parse_body (sql : bytes) : option Body :=
  if eqlIgnoreCase sql (B "insert into t (x) values (7);") then Some sample_body else None.

Definition sample_history : list Statement.t :=
  [create_sample;
   Statement.create_view (CreateView.mk (B "v") (select_star (B "t")) (B "select * from t"));
   Statement.create_procedure (CreateProcedure.mk (B "p") [ProcedureParam.mk (B "n") AstColumnType.integer mode_in]
     (B "insert into t (x) values (7);"));
   Statement.begin; insert_sample 5; Statement.commit].

Definition run_history (history : list Statement.t) (c : conn) : conn :=
  foldl (λ c s, (executeStatement sample_parse_body s c).1) c history.

Definition sample_db : Database.t := db (run_history sample_history (Conn Database.init Session.init)).

Definition call_sample : Statement.t := Statement.call (Call.mk (B "p") [Expression.literal (Literal.integer 1)]).

Definition call_result (d : Database.t) : Result ExecutionResult.t :=
  (executeStatement sample_parse_body call_sample (run_history [Statement.begin] (Conn d Session.init))).2.

Lemma sample_db_exportable : exportable sample_parse sample_parse_body sample_db.
Proof.
  split.
  - assert (Hl : length (Database.tables sample_db) = 1%nat) by (vm_compute; reflexivity).
    apply Forall_forall. intros ts Hts. apply list_elem_of_lookup in Hts as [i Hi].
    assert (i = 0%nat) as -> by (apply lookup_lt_Some in Hi; lia).
    vm_compute in Hi. injection Hi as <-.
    split_and!; [apply table_wf_b_spec; vm_compute; reflexivity
                |apply (bool_decide_eq_true_1 _); vm_compute; reflexivity|reflexivity].
  - vm_compute. reflexivity.
  - apply (bool_decide_eq_true_1 _). vm_compute. reflexivity.
  - assert (Hv : DatabaseCatalog.views (Database.db_catalog sample_db) = [ViewDef.mk (B "v") (B "select * from t")])
      by (vm_compute; reflexivity).
    rewrite Hv. constructor; [|constructor]. exists (select_star (B "t")). split; [vm_compute; reflexivity|exact I].
  - assert (Hp : DatabaseCatalog.procedures (Database.db_catalog sample_db) =
      [ProcedureDef.mk (B "p") (B "insert into t (x) values (7);")]) by (vm_compute; reflexivity).
    rewrite Hp. constructor; [|constructor]. exists sample_body. vm_compute. reflexivity.
Qed.

Lemma sample_db_match : registries_match sample_parse sample_parse_body sample_db.
Proof.
  split.
  - assert (Hv : DatabaseCatalog.views (Database.db_catalog sample_db) = [ViewDef.mk (B "v") (B "select * from t")])
      by (vm_compute; reflexivity).
    assert (Hr : ViewRegistry.views (Database.views sample_db) = [StoredView.mk (B "v") (cloneSelect (select_star (B "t")))])
      by (vm_compute; reflexivity).
    rewrite Hv, Hr. repeat constructor. exists (select_star (B "t")). split; [|reflexivity]. split; [vm_compute; reflexivity|exact I].
  - assert (Hp : DatabaseCatalog.procedures (Database.db_catalog sample_db) =
      [ProcedureDef.mk (B "p") (B "insert into t (x) values (7);")]) by (vm_compute; reflexivity).
    assert (Hr : ProcedureRegistry.procedures (Database.procedures sample_db) =
      [StoredProcedure.mk (B "p") [ProcedureParam.mk (B "n") AstColumnType.integer mode_in] sample_body]) by (vm_compute; reflexivity).
    rewrite Hp, Hr. repeat constructor.
Qed.

Lemma export_import_witness :
  length (Database.tables sample_db) = 1%nat ∧ length (ViewRegistry.views (Database.views sample_db)) = 1%nat ∧
  ∃ snapshot d', exportSnapshot sample_db = Ok snapshot ∧
    initFromSnapshot sample_parse sample_parse_body snapshot = Ok d' ∧ Database.tables d' = Database.tables sample_db ∧
    Database.views d' = Database.views sample_db.
Proof.
  split; [vm_compute; reflexivity|]. split; [vm_compute; reflexivity|].
  destruct (export_import _ _ _ sample_db_exportable sample_db_match) as (snapshot & d' & H1 & H2 & _ & H3 & H4 & _).
  exists snapshot, d'. split; [exact H1|]. split; [exact H2|]. split; [exact H3|exact H4].
Defined.

(** The procedure [p(n)] runs on the original engine; on the restored one it has no parameters any more, so
    the same call is refused. *)
Lemma restored_call_refused :
  call_result sample_db = Ok (ExecutionResult.mutation_count 1) ∧
  (snapshot ← exportSnapshot sample_db; d' ← initFromSnapshot sample_parse sample_parse_body snapshot; call_result d') =
    Err ColumnCountMismatch.
Proof. split; vm_compute; reflexivity. Qed.
