(* ===== verification/ExecutorInvariant.v ===== *)
(** * The state of the engine

    What holds of the database after any SQL, from any number of sessions, however the statements end: the catalog lists
    exactly the tables that have a row store, in the same order, its names are distinct, every store is well-formed and belongs to
    the definition of its table, and every definition has been validated. *)

From S2P Require Import Prelude Value Catalog CatalogFacts TableFacts RowStore Transaction Concurrency Snapshot Overlay.
From S2P Require Import Ast Eval QuerySource Registries Executor ExecutorFacts Preserves Recovery.

(** A table with its rows. *)
Record stored (ts : TableState.t) : Prop := {
  st_core : table_core (table_of ts);
  st_rows : store_wf (TableState.store ts);
  st_name : TableDef.name (table_of ts) = TableState.name ts;
}.

Record engine_ok (d : Database.t) : Prop := {
  ok_stored : Forall stored (Database.tables d);
  ok_lockstep : DatabaseCatalog.tables (Database.db_catalog d) = table_of <$> Database.tables d;
  ok_catalog : catalog_inv (Database.db_catalog d);
}.

Local Notation kept m := (preserves engine_ok staged_ok m (λ _, True)).

Lemma stored_names ts : Forall stored ts → (λ t, lower (TableDef.name t)) <$> (table_of <$> ts) = table_names ts.
Proof. unfold table_names. induction 1 as [|t ts [_ _ Hn] _ IH]; [done|]. csimpl. by rewrite IH, Hn. Qed.

Lemma engine_names d : engine_ok d → NoDup (table_names (Database.tables d)).
Proof.
  intros [Hs Hl Hc]. unfold catalog_inv in Hc. rewrite keys_of_entries, Hl, stored_names in Hc by done. by apply NoDup_app in Hc as [? _].
Qed.

(** Looking a name up in the catalog and among the stores gives the same place. *)
Lemma engine_index d n : engine_ok d → DatabaseCatalog.findTableIndex (Database.db_catalog d) n = Database.findTableStateIndex d n.
Proof.
  intros [Hs Hl _]. unfold DatabaseCatalog.findTableIndex, Database.findTableStateIndex. rewrite Hl, find_index_fmap.
  clear Hl. induction Hs as [|ts l [_ _ Hn] _ IH]; [done|]. cbn. unfold namesEqual at 1. by rewrite Hn, IH.
Qed.

Lemma engine_get d ts : engine_ok d → ts ∈ Database.tables d →
  DatabaseCatalog.getTable (Database.db_catalog d) (TableState.name ts) = Some (table_of ts).
Proof.
  intros Hd Hin. pose proof (engine_names d Hd) as Hnd. unfold DatabaseCatalog.getTable. rewrite engine_index by done.
  unfold Database.findTableStateIndex. destruct (list_elem_of_split _ _ Hin) as (pre & post & E). destruct Hd as [_ Hl _]. rewrite Hl, E in *.
  rewrite (find_name_middle TableState.name) by (done || apply eqlIgnoreCase_refl). cbn. by rewrite list_lookup_fmap, list_lookup_middle.
Qed.

(** The pointers are what they should be already. *)
Lemma engine_refresh d : engine_ok d → Database.refreshTablePointers d = Ok d.
Proof.
  intros Hd. unfold Database.refreshTablePointers. rewrite <-(list_fmap_id (Database.tables d)) at 1. rewrite mapR_id.
  - cbn. by destruct d.
  - apply Forall_forall. intros ts Hts. rewrite engine_get by done. destruct ts as [n [t rows nx]]. done.
Qed.

(** ** Changes of the catalog *)

Lemma engine_with_catalog d k :
  engine_ok d → DatabaseCatalog.tables k = DatabaseCatalog.tables (Database.db_catalog d) → catalog_inv k →
  engine_ok (Database.with_catalog d k).
Proof. intros [H1 H2 H3] Ht Hk. split; cbn; [done|by rewrite Ht|done]. Qed.

(** The catalog operations that leave the tables alone. *)
Definition object_op (o : CatalogSpec.op) : bool :=
  match o with CatalogSpec.CreateTable _ | CatalogSpec.DropTable _ => false | _ => true end.

Lemma object_op_tables k o k' : object_op o = true → run_catalog k o = Ok k' → DatabaseCatalog.tables k' = DatabaseCatalog.tables k.
Proof.
  destruct o; try done; intros _ H; cbn in H;
    unfold DatabaseCatalog.registerView, DatabaseCatalog.dropView, DatabaseCatalog.registerProcedure, DatabaseCatalog.dropProcedure in H;
    by inv_ok.
Qed.

Lemma engine_object_op d o k : engine_ok d → object_op o = true → run_catalog (Database.db_catalog d) o = Ok k → engine_ok (Database.with_catalog d k).
Proof.
  intros Hd Ho Hk. apply engine_with_catalog; [done|by eapply object_op_tables|].
  destruct (run_catalog_refines _ o (ok_catalog _ Hd)) as [_ H]. by apply H.
Qed.

Lemma put_catalog_run k c : put_catalog k c = (Conn (Database.with_catalog (db c) k) (session c), Ok ()).
Proof. done. Qed.

(** An operation on the current catalog and what follows. *)
Lemma kept_catalog {A} (o : CatalogSpec.op) (k : DatabaseCatalog.t → M A) c :
  object_op o = true → (∀ k', kept (k k')) → engine_ok (db c) → staged_ok (session c) →
  let c' := ((r ← lift (run_catalog (Database.db_catalog (db c)) o); _ ← put_catalog r; k r) c).1 in
  engine_ok (db c') ∧ staged_ok (session c').
Proof.
  intros Ho Hk Hd Hs. cbv zeta. rewrite run_lift. destruct (run_catalog _ o) as [k'|e|] eqn:E; [|done|done].
  rewrite run_bind, put_catalog_run. apply Hk; [by eapply engine_object_op|done].
Qed.

Lemma kept_intro {A} (m : M A) :
  (∀ c, engine_ok (db c) → staged_ok (session c) → engine_ok (db (m c).1) ∧ staged_ok (session (m c).1)) → kept m.
Proof. intros H c Hi Hj. split; [by apply H|done]. Qed.

Lemma kept_undo o : object_op o = true → kept (undo_catalog (λ k, run_catalog k o)).
Proof.
  intros Ho. apply kept_intro. intros c Hd Hs. unfold undo_catalog. rewrite run_get_db.
  destruct (run_catalog _ o) as [k|e|] eqn:E; [|done|done]. rewrite put_catalog_run. split; [by eapply engine_object_op|done].
Qed.

(** The registries are not part of it. *)
Lemma engine_registries d d' :
  engine_ok d → Database.db_catalog d' = Database.db_catalog d → Database.tables d' = Database.tables d → engine_ok d'.
Proof. intros [H1 H2 H3] Hc Ht. split; by rewrite ?Hc, ?Ht. Qed.

Lemma kept_createView s : kept (createView s).
Proof.
  apply kept_intro. intros c Hd Hs. unfold createView. rewrite run_get_db.
  apply (kept_catalog (CatalogSpec.RegisterView (CreateView.name s) (CreateView.body_sql s))); [done| |done|done]. intros k.
  apply preserves_on_error; [|by apply (kept_undo (CatalogSpec.DropView (CreateView.name s)))].
  preserve. eapply preserves_put_db, engine_registries; done.
Qed.

Lemma kept_createProcedure parse_body s : kept (createProcedure parse_body s).
Proof.
  apply kept_intro. intros c Hd Hs. unfold createProcedure. rewrite run_get_db.
  apply (kept_catalog (CatalogSpec.RegisterProcedure (CreateProcedure.name s) (CreateProcedure.body_sql s))); [done| |done|done]. intros k.
  apply preserves_on_error; [|by apply (kept_undo (CatalogSpec.DropProcedure (CreateProcedure.name s)))].
  preserve. eapply preserves_put_db, engine_registries; done.
Qed.

Lemma kept_dropView s : kept (executor_dropView s).
Proof.
  apply kept_intro. intros c Hd Hs. unfold executor_dropView. rewrite run_get_db, run_lift.
  destruct (ViewRegistry.drop _ _) as [v|e|]; [|done|done]. rewrite run_put_db, run_lift.
  assert (Hd' : engine_ok (Database.with_views (db c) v)) by (by eapply engine_registries).
  destruct (DatabaseCatalog.dropView _ _) as [k|e|] eqn:E; [|done|done]. rewrite put_catalog_run.
  split; [by apply (engine_object_op _ (CatalogSpec.DropView (Named.name s)))|done].
Qed.

Lemma kept_dropProcedure s : kept (executor_dropProcedure s).
Proof.
  apply kept_intro. intros c Hd Hs. unfold executor_dropProcedure. rewrite run_get_db, run_lift.
  destruct (ProcedureRegistry.drop _ _) as [v|e|]; [|done|done]. rewrite run_put_db, run_lift.
  assert (Hd' : engine_ok (Database.with_procedures (db c) v)) by (by eapply engine_registries).
  destruct (DatabaseCatalog.dropProcedure _ _) as [k|e|] eqn:E; [|done|done]. rewrite put_catalog_run.
  split; [by apply (engine_object_op _ (CatalogSpec.DropProcedure (Named.name s)))|done].
Qed.

(** ** Tables *)

Lemma catalog_op_inv k o k' : catalog_inv k → run_catalog k o = Ok k' → catalog_inv k'.
Proof. intros Hk. apply (run_catalog_refines k o Hk). Qed.

(** A new table at the end. *)
Lemma engine_create d spec k t :
  engine_ok d → DatabaseCatalog.createTable (Database.db_catalog d) spec = Ok k →
  DatabaseCatalog.getTable k (TableSpec.name spec) = Some t →
  engine_ok (Database.append_state (Database.with_catalog d k) (TableState.mk (TableSpec.name spec) (RowStore.init t))).
Proof.
  intros Hd Hk Hget. pose proof (catalog_op_inv _ (CatalogSpec.CreateTable spec) _ (ok_catalog _ Hd) Hk) as Hinv.
  unfold DatabaseCatalog.createTable in Hk. apply bind_ok_inv in Hk as (u & Hfree & Hk). apply bind_ok_inv in Hk as (u' & _ & Hk).
  apply bind_ok_inv in Hk as (t' & Ht' & Hk). injection Hk as <-. apply fail_if_ok in Hfree.
  assert (Hname : TableDef.name t' = TableSpec.name spec) by (unfold TableDef.init in Ht'; by inv_ok).
  assert (t' = t) as <-.
  { unfold DatabaseCatalog.getTable, DatabaseCatalog.findTableIndex in *. cbn [DatabaseCatalog.tables] in Hget.
    destruct (find_index _ (DatabaseCatalog.tables (Database.db_catalog d))) as [i|] eqn:Hi; [done|].
    rewrite find_index_app, Hi in Hget. cbn in Hget. unfold namesEqual in Hget. rewrite Hname, eqlIgnoreCase_refl in Hget. cbn in Hget.
    rewrite Nat.add_0_r, list_lookup_middle in Hget by done. by injection Hget. }
  destruct Hd as [Hs Hl Hc]. split; cbn; [|by rewrite Hl, fmap_app|done].
  apply Forall_app. split; [done|]. constructor; [|done]. split; [by eapply tableDef_init_core|apply store_init_wf|done].
Qed.

Lemma kept_createTable s : kept (createTable s).
Proof.
  apply kept_intro. intros c Hd Hs. unfold createTable. rewrite run_get_db. destruct (_ && _); [done|]. rewrite run_lift.
  destruct (table_spec s) as [spec|e|] eqn:Espec; [|done|done]. rewrite run_lift.
  destruct (DatabaseCatalog.createTable _ spec) as [k|e|] eqn:Ek; [|done|done]. cbv zeta. rewrite run_lift.
  destruct (DatabaseCatalog.getTable k (CreateTable.name s)) as [t|] eqn:Et; [|done]. cbn [orelse]. rewrite run_lift.
  assert (Hn : TableSpec.name spec = CreateTable.name s) by (unfold table_spec in Espec; by inv_ok).
  rewrite <-Hn in *. pose proof (engine_create _ _ _ _ Hd Ek Et) as Hok. cbn [Database.tables Database.with_catalog] in *.
  by rewrite engine_refresh.
Qed.

(** A table taken out of both lists. *)
Lemma engine_drop d name i k :
  engine_ok d → Database.findTableStateIndex d name = Some i → DatabaseCatalog.dropTable (Database.db_catalog d) name = Ok k →
  engine_ok (Database.with_tables (Database.with_catalog d k) (delete i (Database.tables d))).
Proof.
  intros Hd Hi Ek. pose proof (catalog_op_inv _ (CatalogSpec.DropTable name) _ (ok_catalog _ Hd) Ek) as Hinv.
  unfold DatabaseCatalog.dropTable in Ek. rewrite engine_index, Hi in Ek by done. injection Ek as <-.
  destruct Hd as [H1 H2 H3]. split; cbn; [by apply Forall_list_delete| |done].
  rewrite H2. by rewrite !delete_take_drop, fmap_app, fmap_take, fmap_drop.
Qed.

Lemma kept_dropTable s : kept (dropTable s).
Proof.
  apply kept_intro. intros c Hd Hs. unfold dropTable. rewrite run_get_db.
  destruct (Database.findTableStateIndex (db c) (Named.name s)) as [i|] eqn:Hi; [|by destruct (Named.if_exists s)]. rewrite run_lift.
  destruct (DatabaseCatalog.dropTable _ _) as [k|e|] eqn:Ek; [|done|done]. rewrite run_lift.
  pose proof (engine_drop _ _ _ _ Hd Hi Ek) as Hok. by rewrite engine_refresh.
Qed.

(** Publishing into a table: another store for the same definition. *)
Lemma engine_publish d i ts st :
  engine_ok d → Database.tables d !! i = Some ts → store_wf st → RowStore.table st = table_of ts →
  engine_ok (Database.with_tables d (<[i := TableState.mk (TableState.name ts) st]> (Database.tables d))).
Proof.
  intros [H1 H2 H3] Hi Hst Ht. destruct (Forall_lookup_1 _ _ _ _ H1 Hi) as [Hcore _ Hname].
  split; cbn; [|rewrite H2, list_fmap_insert|done].
  - apply Forall_insert; [done|]. split; unfold table_of; cbn; by rewrite ?Ht.
  - change (table_of (TableState.mk (TableState.name ts) st)) with (RowStore.table st). rewrite Ht, list_insert_id; [done|].
    by rewrite list_lookup_fmap, Hi.
Qed.

Lemma kept_commit_entry i : kept (commit_entry i).
Proof.
  apply kept_intro. intros c Hd Hs. unfold commit_entry. rewrite run_get_session, run_get_db, run_lift.
  destruct (item_at (Session.transactions (session c)) i) as [entry| |] eqn:He; [|done|done].
  rewrite run_lift. destruct (Database.deref (db c) (TableTransaction.pointer entry)) as [ts| |] eqn:Hts; [|done|done].
  rewrite run_lift. destruct (Transaction.commit _ _) as [[tx' st']| |] eqn:Hc; [|done|done]. rewrite run_put_db.
  apply item_at_ok in He. apply deref_ok in Hts as [_ Hts]. pose proof (Forall_lookup_1 _ _ _ _ Hs He) as Hn. cbn in Hn.
  destruct (Forall_lookup_1 _ _ _ _ (ok_stored _ Hd) Hts) as [_ Hrows _]. split; cbn.
  - apply engine_publish; [done|done| |by eapply commit_table]. eapply commit_wf; [exact Hrows|exact (proj2 Hn)|exact Hc].
  - apply Forall_insert; [done|]. cbn. by eapply commit_nonneg.
Qed.

#[export] Instance engine_invariant parse_body : executor_invariant parse_body engine_ok staged_ok.
Proof.
  split.
  - intros d d' Hd [H1 _ _ H2 _]. by apply (engine_registries d).
  - intros s s' Hs [E|E]; unfold staged_ok in *; rewrite E; [done|constructor].
  - intros c c' Hd Hs Hq. apply (quiet_staged _ _ Hq); [|done]. eapply Forall_impl; [apply Hd|]. by intros ts [].
  - intros d d' Hd H. rewrite engine_refresh in H by done. by injection H as <-.
  - apply kept_commit_entry.
  - apply kept_dropView.
  - apply kept_createProcedure.
  - apply kept_dropProcedure.
Qed.

(** ** Any number of sessions *)

(** The states that statements of the sessions lead to, in any order; a statement may fail and leave part of its changes.  What
    has no defined outcome (an overflow trap, the use of a table pointer that is no longer valid) ends the run. *)
Inductive reached (parse_body : bytes → option Body) (n : nat) : system → Prop :=
  | reached_start (allocator : Allocator) : reached parse_body n (System Database.init (replicate n Session.init))
  | reached_step y i statement y' r :
      reached parse_body n y → sys_step parse_body y i statement = Some (y', r) → r ≠ Panic → reached parse_body n y'.

Lemma reached_ok parse_body n y : reached parse_body n y → engine_ok (sys_db y) ∧ Forall staged_ok (sessions y).
Proof.
  induction 1 as [allocator|y i statement y' r _ IH H _].
  - split; [split; cbn; constructor|]. apply Forall_replicate. constructor.
  - eapply sys_step_preserves; [|exact H|exact IH]. destruct statement; cbn; auto using kept_createView, kept_createTable, kept_dropTable.
Qed.

(** C13: whatever statements any number of sessions execute, in any order and each failing or not, the catalog lists exactly the
    tables that have a row store, under distinct names, and every store is well-formed and has the definition the catalog gives
    its table; as long as every statement has a defined outcome, which a statement that uses a table pointer
    invalidated by a CREATE TABLE or DROP TABLE need not have ([TablePointers.v]). *)
Theorem engine_stays_consistent (parse_body : bytes → option Body) (n : nat) (y : system) :
  reached parse_body n y → engine_ok (sys_db y).
Proof. intros H. by apply reached_ok in H as [? _]. Qed.

(** Runs a list of steps; [None] when one of them has no defined outcome or names no session. *)
Fixpoint run_system (parse_body : bytes → option Body) (y : system) (steps : list (nat * Statement.t)) : option system :=
  match steps with
  | [] => Some y
  | (i, statement) :: rest =>
      match sys_step parse_body y i statement with
      | Some (_, Panic) | None => None
      | Some (y', _) => run_system parse_body y' rest
      end
  end.

Lemma run_system_reached parse_body n y steps y' :
  reached parse_body n y → run_system parse_body y steps = Some y' → reached parse_body n y'.
Proof.
  revert y. induction steps as [|[i statement] steps IH]; intros y Hy H; cbn in H; [by injection H as <-|].
  destruct (sys_step parse_body y i statement) as [[y1 [a|e|]]|] eqn:E; try done; (eapply IH; [|exact H]); by eapply reached_step.
Qed.

(** Two tables, changed in turn by two sessions; one UPDATE fails on a missing table. *)
Definition sample_steps : list (nat * Statement.t) :=
  let column n := AstColumnDef.mk (B n) AstColumnType.integer true None false false in
  let insert t n := Statement.insert (Insert.mk (B t) [] [Expression.literal (Literal.integer n)]) in
  [(0%nat, Statement.create_table (CreateTable.mk (B "t") false [column "a"] []));
   (1%nat, Statement.begin);
   (0%nat, Statement.create_table (CreateTable.mk (B "u") false [column "b"] []));
   (0%nat, Statement.begin); (0%nat, insert "u" 1); (1%nat, insert "T" 2);
   (1%nat, Statement.update (Update.mk (B "w") [] None));
   (0%nat, Statement.commit); (1%nat, Statement.commit);
   (1%nat, Statement.drop_table (Named.mk (B "T") false))].

Lemma engine_stays_consistent_witness :
  ∃ y, run_system (λ _, None) (System (Database.init (allocator := always_moving)) (replicate 2 Session.init)) sample_steps = Some y ∧
       TableDef.name <$> DatabaseCatalog.tables (Database.db_catalog (sys_db y)) = [B "u"] ∧ engine_ok (sys_db y).
Proof.
  destruct (run_system (λ _, None) (System (Database.init (allocator := always_moving)) (replicate 2 Session.init)) sample_steps)
    as [y|] eqn:E; [|vm_compute in E; discriminate E].
  exists y. split; [reflexivity|]. split.
  - assert (H : option_map (λ y, TableDef.name <$> DatabaseCatalog.tables (Database.db_catalog (sys_db y))) (Some y) = Some [B "u"])
      by (rewrite <- E; vm_compute; reflexivity).
    by injection H.
  - apply (engine_stays_consistent (λ _, None) 2). exact (run_system_reached _ _ _ _ _ (reached_start _ _ _) E).
Defined.
