(* ===== verification/StoredTexts.v ===== *)
(** * Views and procedures through a restart

    The executor with the parsers that the program has: what the catalog stores of a view or a procedure is text, and the
    registries hold what was parsed when it was created.  The two stay in step whatever SQL is executed, so that a restart,
    which parses the texts again, finds the views that were there before. *)

From S2P Require Import Prelude Value Catalog CatalogFacts TableFacts RowStore Transaction Concurrency Snapshot Overlay Persistence.
From S2P Require Import Tokenizer Ast Eval QuerySource Registries Executor ExecutorFacts Preserves Recovery ExecutorInvariant.
From S2P Require Import Parser ProcedureBody ViewText.

(** ** The invariant *)

Abbreviation texts_match := (registries_match parse_statement ProcedureBody.parse_body).

(** It says nothing about sessions. *)
Definition any_session (s : Session.t) : Prop := True.

Local Notation kept m := (preserves texts_match any_session m (λ _, True)).

Lemma texts_match_same d d' :
  texts_match d → Database.db_catalog d' = Database.db_catalog d → Database.views d' = Database.views d →
  Database.procedures d' = Database.procedures d → texts_match d'.
Proof. intros [H1 H2] Hc Hv Hp. split; by rewrite Hc, ?Hv, ?Hp. Qed.

(** What is shown of the database alone. *)
Lemma texts_kept_intro {A} (m : M A) : (∀ c, texts_match (db c) → texts_match (db (m c).1)) → kept m.
Proof. intros H c Hi Hj. split; [|done]. split; [by apply H|done]. Qed.

Lemma refresh_same d d' : texts_match d → Database.refreshTablePointers d = Ok d' → texts_match d'.
Proof. unfold Database.refreshTablePointers. intros Hd H. inv_ok. by eapply texts_match_same. Qed.

Lemma texts_kept_commit_entry i : kept (commit_entry i).
Proof.
  apply texts_kept_intro. intros c Hc. unfold commit_entry. rewrite run_get_session, run_get_db, run_lift.
  destruct (item_at _ _) as [entry| |]; [|done|done]. rewrite run_lift. destruct (Database.deref _ _) as [ts| |]; [|done|done].
  rewrite run_lift. destruct (Transaction.commit _ _) as [[tx st]| |]; [|done|done]. rewrite run_put_db. by apply (texts_match_same (db c)).
Qed.

(** ** Tables *)

Lemma createTable_objects c spec c' : DatabaseCatalog.createTable c spec = Ok c' →
  DatabaseCatalog.views c' = DatabaseCatalog.views c ∧ DatabaseCatalog.procedures c' = DatabaseCatalog.procedures c.
Proof. unfold DatabaseCatalog.createTable. intros H. inv_ok. done. Qed.

Lemma dropTable_objects c name c' : DatabaseCatalog.dropTable c name = Ok c' →
  DatabaseCatalog.views c' = DatabaseCatalog.views c ∧ DatabaseCatalog.procedures c' = DatabaseCatalog.procedures c.
Proof. unfold DatabaseCatalog.dropTable. intros H. inv_ok. done. Qed.

(** A new catalog with the same views and procedures, and other tables. *)
Lemma texts_match_tables d c d' :
  texts_match d → DatabaseCatalog.views c = DatabaseCatalog.views (Database.db_catalog d) →
  DatabaseCatalog.procedures c = DatabaseCatalog.procedures (Database.db_catalog d) →
  Database.db_catalog d' = c → Database.views d' = Database.views d → Database.procedures d' = Database.procedures d →
  texts_match d'.
Proof. intros [H1 H2] Hv Hp Hc Hv' Hp'. split; by rewrite Hc, ?Hv, ?Hp, ?Hv', ?Hp'. Qed.

Lemma texts_kept_createTable s : kept (createTable s).
Proof.
  unfold createTable. eapply preserves_bind; [preserve|intros d Hd]. destruct (_ && _); [preserve|].
  eapply preserves_bind; [preserve|intros spec _]. eapply preserves_bind; [preserve|intros c Hc].
  apply createTable_objects in Hc as [Hv Hp]. cbv zeta. eapply preserves_bind; [preserve|intros table _].
  eapply preserves_bind; [preserve|intros d' Hd']. apply preserves_put_db. eapply refresh_same; [|exact Hd'].
  by eapply texts_match_tables.
Qed.

Lemma texts_kept_dropTable s : kept (dropTable s).
Proof.
  unfold dropTable. eapply preserves_bind; [preserve|intros d Hd].
  destruct (Database.findTableStateIndex d (Named.name s)) as [index|]; [|preserve].
  eapply preserves_bind; [preserve|intros c Hc]. apply dropTable_objects in Hc as [Hv Hp].
  eapply preserves_bind; [preserve|intros d' Hd']. apply preserves_put_db. eapply refresh_same; [|exact Hd'].
  by eapply texts_match_tables.
Qed.

(** ** Views and procedures *)

Lemma find_index_Forall2 {A C} (p : A → bool) (q : C → bool) l k :
  Forall2 (λ x y, p x = q y) l k → find_index p l = find_index q k.
Proof. induction 1 as [|x y l k H _ IH]; [done|]. cbn. by rewrite H, IH. Qed.

Lemma view_index d name : texts_match d →
  DatabaseCatalog.findViewIndex (Database.db_catalog d) name = ViewRegistry.findIndex (Database.views d) name.
Proof.
  intros [H _]. apply find_index_Forall2. eapply Forall2_impl; [exact H|]. intros v sv [Hn _]. unfold namesEqual. by rewrite Hn.
Qed.

Lemma procedure_index d name : texts_match d →
  DatabaseCatalog.findProcedureIndex (Database.db_catalog d) name = ProcedureRegistry.findIndex (Database.procedures d) name.
Proof.
  intros [_ H]. apply find_index_Forall2. eapply Forall2_impl; [exact H|]. intros p sp [Hn _]. unfold namesEqual. by rewrite Hn.
Qed.

Lemma texts_kept_dropView s : kept (executor_dropView s).
Proof.
  apply texts_kept_intro. intros c Hc. unfold executor_dropView. rewrite run_get_db, run_lift. unfold ViewRegistry.drop.
  rewrite <- (view_index _ _ Hc).
  destruct (DatabaseCatalog.findViewIndex (Database.db_catalog (db c)) (Named.name s)) as [i|] eqn:Hi; cbn [orelse mbind result_bind]; [|done].
  rewrite run_put_db, run_lift. unfold DatabaseCatalog.dropView. rewrite Hi. cbn [orelse mbind result_bind].
  destruct Hc as [Hv Hp]. split; cbn; [by apply Forall2_delete|done].
Qed.

Lemma texts_kept_dropProcedure s : kept (executor_dropProcedure s).
Proof.
  apply texts_kept_intro. intros c Hc. unfold executor_dropProcedure. rewrite run_get_db, run_lift. unfold ProcedureRegistry.drop.
  rewrite <- (procedure_index _ _ Hc).
  destruct (DatabaseCatalog.findProcedureIndex (Database.db_catalog (db c)) (Named.name s)) as [i|] eqn:Hi; cbn [orelse mbind result_bind]; [|done].
  rewrite run_put_db, run_lift. unfold DatabaseCatalog.dropProcedure. rewrite Hi. cbn [orelse mbind result_bind].
  destruct Hc as [Hv Hp]. split; cbn; [done|by apply Forall2_delete].
Qed.

(** The entry that was registered last is the one that is dropped. *)
Lemma drop_registered_view c name body c' :
  DatabaseCatalog.registerView c name body = Ok c' →
  c' = DatabaseCatalog.mk (DatabaseCatalog.tables c) (DatabaseCatalog.views c ++ [ViewDef.init name body]) (DatabaseCatalog.procedures c) ∧
  DatabaseCatalog.dropView c' name = Ok c.
Proof.
  unfold DatabaseCatalog.registerView. intros H. inv_ok. split; [done|].
  unfold DatabaseCatalog.dropView, DatabaseCatalog.findViewIndex in *. cbn.
  destruct (find_index _ (DatabaseCatalog.views c)) as [i|] eqn:Hi; [done|].
  rewrite find_index_app, Hi. cbn. unfold namesEqual. rewrite eqlIgnoreCase_refl. cbn.
  rewrite Nat.add_0_r, delete_middle, app_nil_r. by destruct c.
Qed.

Lemma drop_registered_procedure c name body c' :
  DatabaseCatalog.registerProcedure c name body = Ok c' →
  c' = DatabaseCatalog.mk (DatabaseCatalog.tables c) (DatabaseCatalog.views c) (DatabaseCatalog.procedures c ++ [ProcedureDef.init name body]) ∧
  DatabaseCatalog.dropProcedure c' name = Ok c.
Proof.
  unfold DatabaseCatalog.registerProcedure. intros H. inv_ok. split; [done|].
  unfold DatabaseCatalog.dropProcedure, DatabaseCatalog.findProcedureIndex in *. cbn.
  destruct (find_index _ (DatabaseCatalog.procedures c)) as [i|] eqn:Hi; [done|].
  rewrite find_index_app, Hi. cbn. unfold namesEqual. rewrite eqlIgnoreCase_refl. cbn.
  rewrite Nat.add_0_r, delete_middle, app_nil_r. by destruct c.
Qed.

(** Registering in the catalog and then in a registry, undone if the registry refuses. *)
Lemma register_or_undo {A} d c (drop : DatabaseCatalog.t → Result DatabaseCatalog.t) (m : M A) :
  texts_match d → drop (Database.db_catalog (db c)) = Ok (Database.db_catalog d) →
  Database.views (db c) = Database.views d → Database.procedures (db c) = Database.procedures d →
  match m c with (c', Ok _) => texts_match (db c') | (c', Err _) => c' = c | (_, Panic) => False end →
  texts_match (db (on_error m (undo_catalog drop) c).1).
Proof.
  intros Hd Hdrop Hv Hp Hm. unfold on_error. destruct (m c) as [c' [a|e|]]; [done| |done]. subst c'.
  unfold undo_catalog. rewrite run_get_db, Hdrop. unfold put_catalog. rewrite run_get_db. cbn. by apply (texts_match_same d).
Qed.

Lemma view_create_ok vs name q v :
  ViewRegistry.create vs name q = Ok v →
  v = ViewRegistry.mk (ViewRegistry.views vs ++ [StoredView.mk name (cloneSelect q)]) ∧
  match q with Select _ _ _ None None _ _ _ _ _ => False | _ => True end.
Proof.
  unfold ViewRegistry.create. intros H. apply bind_ok_inv in H as (u & _ & H). destruct q as [ct pi ps from src wh gr ha ord li].
  apply bind_ok_inv in H as (u' & Hf & H). injection H as <-. apply fail_if_ok in Hf. split; [done|]. by destruct src, from.
Qed.

Lemma view_create_panic vs name q : ViewRegistry.create vs name q ≠ Panic.
Proof.
  unfold ViewRegistry.create, fail_if. destruct (bool_decide _); cbn; [done|]. destruct q as [ct pi ps from src wh gr ha ord li].
  by destruct src, from.
Qed.

(** CREATE VIEW with a text that is parsed to the query. *)
Lemma texts_kept_createView s :
  parse_statement (CreateView.body_sql s) = Some (Statement.select (CreateView.query s)) →
  kept (createView s).
Proof.
  intros Hs. apply texts_kept_intro. intros c Hc. unfold createView. rewrite run_get_db, run_lift.
  destruct (DatabaseCatalog.registerView _ _ _) as [k|e|] eqn:Hk; [|done|done].
  apply drop_registered_view in Hk as [Hk Hdrop]. unfold put_catalog. rewrite run_assoc, run_get_db, run_put_db.
  apply (register_or_undo (db c)); [done|done|done|done|]. rewrite run_get_db, run_lift. cbn [db Database.with_catalog Database.views].
  destruct (ViewRegistry.create _ _ _) as [v|e|] eqn:Hv; [|done|by apply view_create_panic in Hv].
  apply view_create_ok in Hv as [-> Hsrc]. destruct Hc as [Hv Hp]. cbn. subst k.
  split; cbn; [|done]. apply Forall2_app; [done|]. constructor; [|done]. split; [done|]. by exists (CreateView.query s).
Qed.

Lemma texts_kept_createProcedure s : kept (createProcedure ProcedureBody.parse_body s).
Proof.
  apply texts_kept_intro. intros c Hc. unfold createProcedure. rewrite run_get_db, run_lift.
  destruct (DatabaseCatalog.registerProcedure _ _ _) as [k|e|] eqn:Hk; [|done|done].
  apply drop_registered_procedure in Hk as [Hk Hdrop]. unfold put_catalog. rewrite run_assoc, run_get_db, run_put_db.
  apply (register_or_undo (db c)); [done|done|done|done|]. rewrite run_get_db, run_lift.
  cbn [db Database.with_catalog Database.procedures]. unfold ProcedureRegistry.create.
  destruct (fail_if _ _) as [[]|e|] eqn:Hf; [|done|by destruct (bool_decide _)]. cbn [mbind result_bind].
  destruct (ProcedureBody.parse_body _) as [b|] eqn:Hb; [|done]. cbn. subst k. destruct Hc as [Hv Hp].
  split; cbn; [done|]. apply Forall2_app; [done|]. by repeat constructor.
Qed.

(** ** Statements *)

#[export] Instance texts_invariant : executor_invariant ProcedureBody.parse_body texts_match any_session.
Proof.
  split; try done.
  - intros d d' Hd [H1 H2 H3 _ _]. by apply (texts_match_same d).
  - apply refresh_same.
  - apply texts_kept_commit_entry.
  - apply texts_kept_dropView.
  - apply texts_kept_createProcedure.
  - apply texts_kept_dropProcedure.
Qed.

(** ** SQL texts

    A text sent by one of the sessions on the database, with the parsers of the program.  A text without a statement, or
    from a session that does not exist, changes nothing; [None] if what it does has no defined outcome. *)
Definition sys_sql (y : system) (input : nat * bytes) : option system :=
  match parse_statement input.2 with
  | Some statement =>
      match sys_step ProcedureBody.parse_body y input.1 statement with
      | Some (_, Panic) => None
      | Some (y', _) => Some y'
      | None => Some y
      end
  | None => Some y
  end.

Fixpoint run_sqls (y : system) (texts : list (nat * bytes)) : option system :=
  match texts with
  | [] => Some y
  | t :: rest => y' ← sys_sql y t; run_sqls y' rest
  end.

(** [n] sessions on a new database, and the texts they send in the order in which they are executed. *)
Definition run_texts {allocator : Allocator} (n : nat) (texts : list (nat * bytes)) : option system :=
  run_sqls (System Database.init (replicate n Session.init)) texts.

(** It is what [executeSql] does for the session. *)
Lemma sys_sql_executes y i sql s :
  sessions y !! i = Some s →
  sys_sql y (i, sql) =
  let '(c, r) := executeSql parse_statement ProcedureBody.parse_body sql (Conn (sys_db y) s) in
  match r with Panic => None | _ => Some (System (db c) (<[i := session c]> (sessions y))) end.
Proof.
  intros Hs. unfold sys_sql, executeSql. cbn [fst snd]. destruct (parse_statement sql) as [st|].
  - unfold sys_step. rewrite Hs. cbn. by destruct (executeStatement _ _ _) as [c []].
  - cbn. rewrite list_insert_id by done. by destruct y.
Qed.

(** What every step of the texts keeps, the whole run keeps. *)
Lemma run_sqls_invariant (P : system → Prop) texts y y' :
  (∀ t y y', t ∈ texts → P y → sys_sql y t = Some y' → P y') → P y → run_sqls y texts = Some y' → P y'.
Proof.
  intros Hstep. revert y. induction texts as [|t texts IH]; intros y Hy H; cbn in H; [by injection H as <-|].
  apply bind_Some in H as (y1 & H1 & H). eapply IH; [|eapply Hstep; [|exact Hy|exact H1]|exact H].
  - intros t' z z' Ht'. apply Hstep. by apply list_elem_of_further.
  - apply list_elem_of_here.
Qed.

(** Every quoted token is closed. *)
Definition closed (sql : bytes) : Prop := Forall (λ t, Token.terminated t = true) (tokenize sql).

Lemma parse_statement_view sql v :
  closed sql → parse_statement sql = Some (Statement.create_view v) →
  parse_statement (CreateView.body_sql v) = Some (Statement.select (CreateView.query v)).
Proof.
  intros Hc H. unfold parse_statement in *. destruct (Parser.parse sql) as [[s|d]|] eqn:E; [|done|done].
  injection H as ->. by rewrite (view_text_again _ _ E Hc).
Qed.

(** A text that is executed is a statement of the session, or nothing. *)
Lemma sys_sql_step y input y' :
  sys_sql y input = Some y' →
  y' = y ∨ ∃ statement r, parse_statement input.2 = Some statement ∧
                          sys_step ProcedureBody.parse_body y input.1 statement = Some (y', r) ∧ r ≠ Panic.
Proof.
  unfold sys_sql. destruct (parse_statement input.2) as [st|]; [|intros [= <-]; by left].
  destruct (sys_step _ _ _ _) as [[y1 [a|e|]]|] eqn:E; intros [= <-]; [right|right|by left]; by exists st; eexists.
Qed.

Definition matched (y : system) : Prop := texts_match (sys_db y) ∧ Forall any_session (sessions y).

Lemma sys_sql_matched y input y' : closed input.2 → matched y → sys_sql y input = Some y' → matched y'.
Proof.
  intros Hc Hy [->|(s & r & E & Es & _)]%sys_sql_step; [done|]. eapply sys_step_preserves; [|exact Es|done].
  destruct s; cbn; auto using texts_kept_createTable, texts_kept_dropTable.
  eapply texts_kept_createView, parse_statement_view; done.
Qed.

Lemma run_texts_matched {allocator : Allocator} n texts y :
  Forall (λ t, closed t.2) texts → run_texts n texts = Some y → texts_match (sys_db y).
Proof.
  intros Ht H. enough (matched y) as [? _] by done. eapply run_sqls_invariant; [|split|exact H].
  - intros t z z' Hin Hz Hs. eapply sys_sql_matched; [|exact Hz|exact Hs]. rewrite Forall_forall in Ht. by apply Ht.
  - by split.
  - by apply Forall_true.
Qed.

(** C16: whatever SQL texts with all quoted tokens closed the sessions on a new database execute, interleaved in any way and each
    failing or not, as long as every text has a defined outcome, the view and procedure registries hold, entry by entry, what the
    texts in the catalog are parsed to. *)
Theorem texts_stay_matched {allocator : Allocator} (n : nat) (texts : list (nat * bytes)) (y : system) :
  Forall (λ t, closed t.2) texts → run_texts n texts = Some y → texts_match (sys_db y).
Proof. apply run_texts_matched. Qed.

Lemma run_texts_reached {allocator : Allocator} n texts y :
  run_texts n texts = Some y → reached ProcedureBody.parse_body n y.
Proof.
  apply run_sqls_invariant; [|apply reached_start].
  intros t z z' _ Hz [->|(s & r & _ & Es & Hr)]%sys_sql_step; [done|by eapply reached_step].
Qed.

(** A definition that can be read back: defaults that fit their columns, and no two indexes of the same name.  CREATE TABLE
    lets other definitions pass ([TableReload.written_file_reloads]). *)
Definition reloadable (t : TableDef.t) : Prop := Forall default_ok (TableDef.columns t) ∧ NoDup (index_names (TableDef.indexes t)).

(** What the texts and the tables satisfy is all that a restart needs. *)
Lemma run_texts_exportable {allocator : Allocator} n texts y :
  Forall (λ t, closed t.2) texts → run_texts n texts = Some y →
  Forall reloadable (DatabaseCatalog.tables (Database.db_catalog (sys_db y))) →
  exportable parse_statement ProcedureBody.parse_body (sys_db y).
Proof.
  intros Hclosed Hrun Hre. destruct (reached_ok _ _ _ (run_texts_reached n texts y Hrun)) as [[Hs Hl Hc] _].
  destruct (run_texts_matched n texts y Hclosed Hrun) as [Hv Hp]. split; [|done|done| |].
  - rewrite Hl in Hre. rewrite Forall_fmap in Hre. eapply Forall_impl; [apply Forall_and; split; [exact Hs|exact Hre]|].
    intros ts [[H1 H2 H3] [H4 H5]]. by split_and!.
  - eapply Forall2_Forall_l; [exact Hv|]. apply Forall_true. intros sv v [_ (q & Hq & _)]. by exists q.
  - eapply Forall2_Forall_l; [exact Hp|]. apply Forall_true. intros sp p [_ Hb]. by eexists.
Qed.

(** C12: a database built by SQL texts whose quoted tokens are closed, sent by any number of sessions and each with a defined outcome,
    is restored by a restart with the parsers of the program if its table definitions can be read back: every view comes back with
    the query it was created with, every procedure with its statements, next to the tables, rows and catalog. *)
Theorem restart_restores_views {before after : Allocator} (n : nat) (texts : list (nat * bytes)) (y : system) :
  let d := sys_db y in
  Forall (λ t, closed t.2) texts → run_texts (allocator := before) n texts = Some y →
  Forall reloadable (DatabaseCatalog.tables (Database.db_catalog d)) →
  ∃ snapshot d', exportSnapshot d = Ok snapshot ∧
    initFromSnapshot (allocator := after) parse_statement ProcedureBody.parse_body snapshot = Ok d' ∧
    Database.views d' = Database.views d ∧
    StoredProcedure.body <$> ProcedureRegistry.procedures (Database.procedures d') =
      StoredProcedure.body <$> ProcedureRegistry.procedures (Database.procedures d) ∧
    Database.db_catalog d' = Database.db_catalog d ∧ Database.tables d' = Database.tables d.
Proof.
  intros d Hclosed Hrun Hre. pose proof (run_texts_exportable n texts y Hclosed Hrun Hre) as Hex. fold d in Hex.
  destruct (run_texts_matched n texts y Hclosed Hrun) as [Hv Hp]. fold d in Hv, Hp. clearbody d.
  destruct (restore_ok _ _ _ Hex (allocator := after)) as (d' & Hi & Hc' & Ht' & Hv' & Hp').
  exists (snapshot_of d), d'. split_and!; [by eapply export_ok|done| | |done|done].
  - pose proof (restored_views_functional _ _ _ _ Hv Hv') as E. destruct (Database.views d), (Database.views d'). cbn in E. by subst.
  - rewrite (procedures_restored _ _ _ _ Hp Hp'), <-list_fmap_compose. done.
Qed.

(** ** Two sessions *)
Definition sample_texts : list (nat * bytes) :=
  [(0%nat, B "CREATE TABLE t (x INTEGER)");
   (1%nat, B "BEGIN");
   (0%nat, B "CREATE VIEW v AS SELECT x + 1 AS y FROM t WHERE x < 10 AND x <> 3 ; -- a view");
   (0%nat, B "CREATE PROCEDURE p(n INTEGER) BEGIN IF n > 0 THEN INSERT INTO t (x) VALUES (n); END IF; END");
   (0%nat, B "BEGIN"); (0%nat, B "INSERT INTO t (x) VALUES (5)"); (1%nat, B "INSERT INTO t (x) VALUES (6)"); (0%nat, B "COMMIT");
   (1%nat, B "DROP VIEW nothing"); (1%nat, B "COMMIT")].

#[local] Existing Instance in_place.

Lemma sample_closed : Forall (λ t, closed t.2) sample_texts.
Proof.
  unfold sample_texts.
  repeat (apply Forall_cons_2; [apply (bool_decide_eq_true_1 (Forall _ _)); vm_compute; reflexivity|]). apply Forall_nil_2.
Qed.

(** The run of the texts, and what it leaves in the catalog. *)
Lemma sample_restart :
  ∃ y, run_texts 2 sample_texts = Some y ∧
    (ViewDef.body <$> DatabaseCatalog.views (Database.db_catalog (sys_db y))) =
      [B "SELECT x + 1 AS y FROM t WHERE x < 10 AND x <> 3"] ∧
    DatabaseCatalog.tables (Database.db_catalog (sys_db y)) =
      [TableDef.mk (B "t") [ColumnDef.mk (B "x") ColumnType.integer true None false false] []].
Proof. eexists. split; [vm_compute; reflexivity|]. split; vm_compute; reflexivity. Qed.

Lemma texts_stay_matched_witness :
  ∃ y, run_texts 2 sample_texts = Some y ∧
    (ViewDef.body <$> DatabaseCatalog.views (Database.db_catalog (sys_db y))) =
      [B "SELECT x + 1 AS y FROM t WHERE x < 10 AND x <> 3"] ∧ texts_match (sys_db y).
Proof.
  destruct sample_restart as (y & H & Hv & _). exists y. split; [exact H|]. split; [exact Hv|].
  exact (texts_stay_matched 2 sample_texts y sample_closed H).
Defined.

Lemma restart_restores_views_witness :
  ∃ y snapshot d', run_texts 2 sample_texts = Some y ∧ exportSnapshot (sys_db y) = Ok snapshot ∧
    initFromSnapshot (allocator := always_moving) parse_statement ProcedureBody.parse_body snapshot = Ok d' ∧
    Database.views d' = Database.views (sys_db y).
Proof.
  destruct sample_restart as (y & H & _ & E).
  assert (Hre : Forall reloadable (DatabaseCatalog.tables (Database.db_catalog (sys_db y)))).
  { rewrite E. constructor; [|constructor]. split; cbn; [by repeat constructor|constructor]. }
  destruct (restart_restores_views (after := always_moving) 2 sample_texts y sample_closed H Hre) as (snapshot & d' & H1 & H2 & H3 & _).
  exists y, snapshot, d'. split; [exact H|]. split; [exact H1|]. split; [exact H2|exact H3].
Defined.

(** A literal in double quotes that is not closed is accepted, and the trimmed text is parsed to another one. *)
Definition unclosed_view : bytes := B "CREATE VIEW v AS SELECT a FROM t WHERE b = " ++ Byte.x22 :: B "abc  ".

Lemma unclosed_view_changes :
  match parse_statement unclosed_view with
  | Some (Statement.create_view v) =>
      parse_statement (CreateView.body_sql v) ≠ Some (Statement.select (CreateView.query v)) ∧
      is_Some (parse_statement (CreateView.body_sql v))
  | _ => False
  end.
Proof. vm_compute. split; [discriminate|eauto]. Qed.
