(* ===== verification/TestImport.v ===== *)
(** * Importing MariaDB tests

    Models [src/src/mariadb]: [test_analyzer.zig] counts what a test file consists of, [test_classifier.zig] decides what to do
    with it, and [mtr_lite.zig] runs the SQL of an adapted test, a Markdown document, against a new database.  All three
    go through their input line by line: the index loop that cuts out the next line is [lines].  The theorems are in
    [TestImportFacts]. *)

From S2P Require Import Prelude Tokenizer Policy Parser Registries Executor.

(** ** Lines and words *)

(** The lines of a text without their ends; nothing follows a final newline. *)
Fixpoint lines (s : bytes) : list bytes :=
  match s with
  | [] => []
  | c :: s' =>
      if is_char c 10 then [] :: lines s'
      else match lines s' with [] => [[c]] | l :: ls => (c :: l) :: ls end
  end.

(** [std.mem.startsWith], [std.mem.endsWith] *)
Definition starts_with (s p : bytes) : bool := bool_decide (p `prefix_of` s).
Definition ends_with (s p : bytes) : bool := bool_decide (p `suffix_of` s).

(** The line added to the statement so far. *)
Definition appendLine (statement line : bytes) : bytes :=
  match statement with [] => line | _ => statement ++ byte_of 10 :: line end.

(** ** test_analyzer.zig *)
Module StatementViolation.
Record t := mk { feature : UnsupportedFeature; line : nat; offset : nat; token : bytes }.
Definition tokenText (self : t) : bytes := token self.
End StatementViolation.

Module Analysis.
Record t := mk {
  statements : nat; accepted_statements : nat; rejected_statements : nat;
  directives : nat; harness_commands : nat; comments : nat; blank_lines : nat; expected_errors : nat;
  delimiter_changes : nat; unterminated_statement : bool; first_violation : option StatementViolation.t }.

Definition init : t := mk 0 0 0 0 0 0 0 0 0 false None.

(** The assignments of the analyzer, by the fields they change. *)
Definition blank (a : t) : t :=
  mk (statements a) (accepted_statements a) (rejected_statements a) (directives a) (harness_commands a) (comments a)
     (S (blank_lines a)) (expected_errors a) (delimiter_changes a) (unterminated_statement a) (first_violation a).
Definition comment (a : t) : t :=
  mk (statements a) (accepted_statements a) (rejected_statements a) (directives a) (harness_commands a) (S (comments a))
     (blank_lines a) (expected_errors a) (delimiter_changes a) (unterminated_statement a) (first_violation a).
Definition directive (a : t) : t :=
  mk (statements a) (accepted_statements a) (rejected_statements a) (S (directives a)) (harness_commands a) (comments a)
     (blank_lines a) (expected_errors a) (delimiter_changes a) (unterminated_statement a) (first_violation a).
Definition harness (a : t) : t :=
  mk (statements a) (accepted_statements a) (rejected_statements a) (directives a) (S (harness_commands a)) (comments a)
     (blank_lines a) (expected_errors a) (delimiter_changes a) (unterminated_statement a) (first_violation a).
Definition expected_error (a : t) : t :=
  mk (statements a) (accepted_statements a) (rejected_statements a) (directives a) (harness_commands a) (comments a)
     (blank_lines a) (S (expected_errors a)) (delimiter_changes a) (unterminated_statement a) (first_violation a).
Definition delimiter_change (a : t) : t :=
  mk (statements a) (accepted_statements a) (rejected_statements a) (directives a) (harness_commands a) (comments a)
     (blank_lines a) (expected_errors a) (S (delimiter_changes a)) (unterminated_statement a) (first_violation a).
Definition unterminated (a : t) : t :=
  mk (statements a) (accepted_statements a) (rejected_statements a) (directives a) (harness_commands a) (comments a)
     (blank_lines a) (expected_errors a) (delimiter_changes a) true (first_violation a).
Definition accept (a : t) : t :=
  mk (S (statements a)) (S (accepted_statements a)) (rejected_statements a) (directives a) (harness_commands a) (comments a)
     (blank_lines a) (expected_errors a) (delimiter_changes a) (unterminated_statement a) (first_violation a).
Definition reject (v : StatementViolation.t) (a : t) : t :=
  mk (S (statements a)) (accepted_statements a) (S (rejected_statements a)) (directives a) (harness_commands a) (comments a)
     (blank_lines a) (expected_errors a) (delimiter_changes a) (unterminated_statement a)
     (match first_violation a with None => Some v | some => some end).
End Analysis.

(** Of the token only 64 bytes are kept. *)
Definition inspectStatement (result : Analysis.t) (statement : bytes) (line : nat) : Analysis.t :=
  match statement with
  | [] => result
  | _ =>
      match firstViolation statement with
      | Some found =>
          Analysis.reject (StatementViolation.mk (PolicyViolation.feature found) line (PolicyViolation.offset found)
                             (take 64 (PolicyViolation.token found))) result
      | None => Analysis.accept result
      end
  end.

Definition endsWithDelimiter (input delimiter : bytes) : bool :=
  negb (bool_decide (delimiter = [])) && ends_with input delimiter.

Definition startsWithWord (input word : bytes) : bool :=
  if bool_decide (word = B "}") then starts_with input (B "}")
  else eqlIgnoreCase (take (length word) input) word &&
       match input !! length word with None => true | Some c => isWhitespace c end.

Definition parseDelimiterCommand (line current_delimiter : bytes) : option bytes :=
  if negb (startsWithWord line (B "delimiter")) then None
  else
    let rest := trim (drop (length (B "delimiter")) line) in
    if bool_decide (rest = []) then None
    else
      let rest := if endsWithDelimiter rest current_delimiter
                  then trim (take (length rest - length current_delimiter) rest) else rest in
      if bool_decide (rest = []) then None else Some rest.

Definition sqlAfterHarnessPrefix (line : bytes) : option bytes :=
  prefix ← list_find (λ p, startsWithWord line p = true) [B "query_vertical"; B "query_horizontal"; B "sorted_result"];
  let rest := trim (drop (length prefix.2) line) in
  if bool_decide (rest = []) then None else Some rest.

Definition harness_words : list bytes :=
  B <$> ["append_file"; "cat_file"; "connect"; "connection"; "copy_file"; "dec"; "delimiter"; "dirty_close"; "disable_info";
         "disable_query_log"; "disable_result_log"; "disable_warnings"; "disconnect"; "echo"; "enable_info"; "enable_query_log";
         "enable_result_log"; "enable_warnings"; "error"; "exec"; "if"; "inc"; "let"; "list_files"; "mkdir"; "move_file"; "perl";
         "query_vertical"; "reap"; "remove_file"; "replace_result"; "rmdir"; "send"; "sleep"; "source"; "write_file"; "}"]%string.

Definition isHarnessCommandLine (line : bytes) : bool := existsb (startsWithWord line) harness_words.

(** The variables of the loop. *)
Record analyzer := Analyzer { result : Analysis.t; statement : bytes; delimiter : bytes; statement_start_line : nat }.

(** What a line outside of a statement is: counted and done with, or the beginning of a statement. *)
Definition analyze_first (self : analyzer) (line_number : nat) (trimmed : bytes) : analyzer + analyzer :=
  let continue_ r := inl (Analyzer r (statement self) (delimiter self) (statement_start_line self)) in
  let begin_ r sql := inr (Analyzer r (appendLine (statement self) sql) (delimiter self) line_number) in
  let r := result self in
  if bool_decide (trimmed = []) then continue_ (Analysis.blank r)
  else if starts_with trimmed (B "#") then continue_ (Analysis.comment r)
  else if starts_with trimmed (B "--") then
    let r := Analysis.directive r in
    continue_ (if startsWithWord (drop 2 trimmed) (B "error") then Analysis.expected_error r else r)
  else match parseDelimiterCommand trimmed (delimiter self) with
  | Some next_delimiter =>
      inl (Analyzer (Analysis.harness (Analysis.delimiter_change r)) (statement self) next_delimiter (statement_start_line self))
  | None =>
      match sqlAfterHarnessPrefix trimmed with
      | Some sql => begin_ (Analysis.harness r) sql
      | None =>
          if isHarnessCommandLine trimmed then
            let r := Analysis.harness r in
            continue_ (if startsWithWord trimmed (B "error") then Analysis.expected_error r else r)
          else begin_ r trimmed
      end
  end.

(** The end of an iteration: the statement is inspected when it ends with the delimiter. *)
Definition analyze_end (self : analyzer) : analyzer :=
  let statement_trimmed := trim (statement self) in
  if endsWithDelimiter statement_trimmed (delimiter self) then
    let without_delimiter := trim (take (length statement_trimmed - length (delimiter self)) statement_trimmed) in
    Analyzer (inspectStatement (result self) without_delimiter (statement_start_line self)) [] (delimiter self) 0
  else self.

Definition analyze_line (self : analyzer) (line_number : nat) (line : bytes) : analyzer :=
  match statement self with
  | [] =>
      match analyze_first self line_number (trim line) with
      | inl next => next
      | inr next => analyze_end next
      end
  | _ => analyze_end (Analyzer (result self) (appendLine (statement self) line) (delimiter self) (statement_start_line self))
  end.

Fixpoint analyze_lines (self : analyzer) (line_number : nat) (ls : list bytes) : analyzer :=
  match ls with
  | [] => self
  | line :: ls' => analyze_lines (analyze_line self line_number line) (S line_number) ls'
  end.

Definition analyze (contents : bytes) : Analysis.t :=
  let final := analyze_lines (Analyzer Analysis.init [] (B ";") 0) 1 (lines contents) in
  let rest := trim (statement final) in
  if bool_decide (rest = []) then result final
  else inspectStatement (Analysis.unterminated (result final)) rest (statement_start_line final).

(** ** test_classifier.zig *)
Inductive Bucket := sacred_candidate | adaptation_candidate | rejected_by_policy | deferred_candidate.

Definition bucket_label (self : Bucket) : bytes :=
  match self with
  | sacred_candidate => B "sacred-candidate"
  | adaptation_candidate => B "adaptation-candidate"
  | rejected_by_policy => B "rejected-by-policy"
  | deferred_candidate => B "deferred-candidate"
  end.

Module Classification.
Record t := mk { bucket : Bucket; reason : bytes }.
End Classification.

Definition classify (analysis : Analysis.t) : Classification.t :=
  if (0 <? Analysis.rejected_statements analysis)%nat then
    Classification.mk rejected_by_policy (B "contains SQL that ShovelerDB intentionally rejects")
  else if (Analysis.statements analysis =? 0)%nat then
    Classification.mk deferred_candidate (B "no candidate SQL statements detected")
  else if Analysis.unterminated_statement analysis then
    Classification.mk adaptation_candidate (B "contains an unterminated statement under the current analyzer")
  else if (0 <? Analysis.directives analysis)%nat || (0 <? Analysis.harness_commands analysis)%nat ||
          (0 <? Analysis.expected_errors analysis)%nat || (0 <? Analysis.delimiter_changes analysis)%nat then
    Classification.mk adaptation_candidate (B "policy-clean SQL wrapped in MariaDB test harness behavior")
  else Classification.mk sacred_candidate (B "plain policy-clean SQL").

(** ** mtr_lite.zig *)
Inductive MtrDiagnosticKind :=
  mtr_missing_sql_block | mtr_unsupported_directive | mtr_expected_error_mismatch | mtr_unexpected_success.

Definition mtr_diagnosticFromError (err : Error) : option MtrDiagnosticKind :=
  match err with
  | MissingSqlBlock => Some mtr_missing_sql_block
  | UnsupportedDirective => Some mtr_unsupported_directive
  | ExpectedErrorMismatch => Some mtr_expected_error_mismatch
  | UnexpectedSuccess => Some mtr_unexpected_success
  | _ => None
  end.

Module RunSummary.
Record t := mk { statements : nat; executed : nat; expected_errors : nat }.
Definition init : t := mk 0 0 0.
End RunSummary.

Definition isWordContinue (c : byte) : bool := isAlphanumeric c || is_char c 95.

(** The words of a text, the maximal runs of word characters; [word] is the run that ends before [s]. *)
Fixpoint word_runs (word s : bytes) : list bytes :=
  match s with
  | [] => if bool_decide (word = []) then [] else [word]
  | c :: s' =>
      if isWordContinue c then word_runs (word ++ [c]) s'
      else if bool_decide (word = []) then word_runs [] s' else word :: word_runs [] s'
  end.

Definition containsWord (input word : bytes) : bool := existsb (λ w, eqlIgnoreCase w word) (word_runs [] input).

Definition startsWithName (input word : bytes) : bool :=
  eqlIgnoreCase (take (length word) input) word &&
  match input !! length word with None => true | Some c => negb (isWordContinue c) end.

Definition endsWithWord (input word : bytes) : bool :=
  let start := (length input - length word)%nat in
  (length word <=? length input)%nat && eqlIgnoreCase (drop start input) word &&
  ((start =? 0)%nat || match input !! (start - 1)%nat with None => true | Some c => negb (isWordContinue c) end).

Definition stripTrailingSemicolon (input : bytes) : bytes :=
  let stripped := trim input in
  if negb (ends_with stripped (B ";")) then stripped else trim (take (length stripped - 1) stripped).

Definition statementComplete (statement : bytes) : bool :=
  let stripped := trim statement in
  if negb (ends_with stripped (B ";")) then false
  else
    let without_semicolon := trim (take (length stripped - 1) stripped) in
    if startsWithName without_semicolon (B "CREATE") && containsWord without_semicolon (B "PROCEDURE")
    then endsWithWord without_semicolon (B "END")
    else true.

Definition unsupported_words : list bytes :=
  B <$> ["append_file"; "cat_file"; "connect"; "connection"; "copy_file"; "delimiter"; "dirty_close"; "disconnect"; "echo";
         "exec"; "let"; "perl"; "query_vertical"; "replace_result"; "send"; "sleep"; "source"; "write_file"]%string.

Definition isUnsupportedDirective (line : bytes) : bool :=
  starts_with line (B "--") || existsb (startsWithName line) unsupported_words.

(** [@errorName] *)
Definition errorName (e : Error) : bytes :=
  B match e with
  | OutOfMemory => "OutOfMemory" | InvalidArgument => "InvalidArgument" | InvalidHandle => "InvalidHandle"
  | ParseDiagnostic => "ParseDiagnostic" | DuplicateColumn => "DuplicateColumn" | DuplicateObject => "DuplicateObject"
  | UnknownObject => "UnknownObject" | NameConflict => "NameConflict" | UnknownColumn => "UnknownColumn"
  | AmbiguousColumn => "AmbiguousColumn" | ColumnCountMismatch => "ColumnCountMismatch"
  | TransactionRequired => "TransactionRequired" | TransactionActive => "TransactionActive"
  | NoActiveTransaction => "NoActiveTransaction" | AlreadyCommitted => "AlreadyCommitted"
  | AlreadyRolledBack => "AlreadyRolledBack" | TypeMismatch => "TypeMismatch" | InvalidGrouping => "InvalidGrouping"
  | VectorDimensionMismatch => "VectorDimensionMismatch" | InvalidVectorDimension => "InvalidVectorDimension"
  | ZeroVector => "ZeroVector" | DuplicateRow => "DuplicateRow" | UnknownRow => "UnknownRow"
  | InvalidHeader => "InvalidHeader" | UnsupportedVersion => "UnsupportedVersion" | TruncatedPayload => "TruncatedPayload"
  | PayloadLengthMismatch => "PayloadLengthMismatch" | PayloadChecksumMismatch => "PayloadChecksumMismatch"
  | InvalidColumnType => "InvalidColumnType" | InvalidValueTag => "InvalidValueTag"
  | InvalidBooleanEncoding => "InvalidBooleanEncoding" | InvalidVectorElementType => "InvalidVectorElementType"
  | RowStoreMismatch => "RowStoreMismatch" | ValueTooLarge => "ValueTooLarge" | FileNotFound => "FileNotFound"
  | AccessDenied => "AccessDenied" | FileTooBig => "FileTooBig" | IsDir => "IsDir" | NoSpaceLeft => "NoSpaceLeft"
  | NotDir => "NotDir" | PathAlreadyExists => "PathAlreadyExists" | SystemResources => "SystemResources"
  | WouldBlock => "WouldBlock" | InputOutput => "InputOutput" | StreamTooLong => "StreamTooLong"
  | UnsupportedExpression => "UnsupportedExpression" | UnsupportedView => "UnsupportedView"
  | UnsupportedProcedure => "UnsupportedProcedure" | DatabaseClosed => "DatabaseClosed" | CommitQueueFull => "CommitQueueFull"
  | SnapshotRetentionExceeded => "SnapshotRetentionExceeded" | CheckpointAlreadyRunning => "CheckpointAlreadyRunning"
  | VectorOverlayBacklogExceeded => "VectorOverlayBacklogExceeded" | InvalidCommitQueueLimit => "InvalidCommitQueueLimit"
  | InvalidSnapshotRetentionLimit => "InvalidSnapshotRetentionLimit" | InvalidCheckpointBudget => "InvalidCheckpointBudget"
  | InvalidVectorOverlayBudget => "InvalidVectorOverlayBudget" | MissingSqlBlock => "MissingSqlBlock"
  | UnsupportedDirective => "UnsupportedDirective" | ExpectedErrorMismatch => "ExpectedErrorMismatch"
  | UnexpectedSuccess => "UnexpectedSuccess" | MissingOptionValue => "MissingOptionValue" | InvalidOption => "InvalidOption"
  | InvalidBenchmarkState => "InvalidBenchmarkState"
  end%string.

(** The fenced SQL blocks of a document, each line with its end: the two flags and the script so far. *)
Definition extract_line (self : bool * bool * bytes) (line : bytes) : bool * bool * bytes :=
  let '(in_sql, saw_sql, script) := self in
  let trimmed := trim line in
  if starts_with trimmed (B "```") then
    if in_sql : bool then (false, saw_sql, script)
    else if eqlIgnoreCase (trim (drop 3 trimmed)) (B "sql") then (true, true, script)
    else self
  else if in_sql then (in_sql, saw_sql, script ++ line ++ [byte_of 10])
  else self.

Definition extractSqlBlocks (contents : bytes) : Result bytes :=
  let '(_, saw_sql, script) := foldl extract_line (false, false, []) (lines contents) in
  if saw_sql : bool then Ok script else Err MissingSqlBlock.

Section run.
Context (parse : bytes → option Ast.Statement.t) (parse_body : bytes → option Body) {allocator : Allocator}.

Definition mtr_executeStatement (sql : bytes) (expected_error : option bytes) (summary : RunSummary.t) : M RunSummary.t := λ c,
  let '(c, r) := executeSql parse parse_body sql c in
  match r with
  | Panic => (c, Panic)
  | Err err =>
      match expected_error with
      | None => (c, Err err)
      | Some expected =>
          if negb (eqlIgnoreCase expected (errorName err)) then (c, Err ExpectedErrorMismatch)
          else (c, Ok (RunSummary.mk (RunSummary.statements summary) (S (RunSummary.executed summary))
                         (S (RunSummary.expected_errors summary))))
      end
  | Ok _ =>
      match expected_error with
      | Some _ => (c, Err UnexpectedSuccess)
      | None => (c, Ok (RunSummary.mk (RunSummary.statements summary) (S (RunSummary.executed summary))
                          (RunSummary.expected_errors summary)))
      end
  end.

(** The variables of the loop. *)
Record runner := Runner { summary : RunSummary.t; run_statement : bytes; expected_error : option bytes }.

Definition count_statement (s : RunSummary.t) : RunSummary.t :=
  RunSummary.mk (S (RunSummary.statements s)) (RunSummary.executed s) (RunSummary.expected_errors s).

(** A line that belongs to a statement. *)
Definition run_sql_line (self : runner) (line : bytes) : M runner :=
  let statement := appendLine (run_statement self) line in
  if negb (statementComplete statement) then mret (Runner (summary self) statement (expected_error self))
  else
    let sql := stripTrailingSemicolon (trim statement) in
    if bool_decide (sql = []) then mret (Runner (summary self) [] (expected_error self))
    else
      s ← mtr_executeStatement sql (expected_error self) (count_statement (summary self));
      mret (Runner s [] None).

Definition run_line (self : runner) (line : bytes) : M runner :=
  let trimmed := trim line in
  if bool_decide (trimmed = []) then mret self
  else if bool_decide (run_statement self = []) then
    if starts_with trimmed (B "--error") then
      if bool_decide (expected_error self ≠ None) then lift (Err UnsupportedDirective)
      else
        let expected := trim (drop (length (B "--error")) trimmed) in
        if bool_decide (expected = []) then lift (Err UnsupportedDirective)
        else mret (Runner (summary self) (run_statement self) (Some expected))
    else if isUnsupportedDirective trimmed then lift (Err UnsupportedDirective)
    else run_sql_line self line
  else run_sql_line self line.

Definition runSqlScript (script : bytes) : M RunSummary.t :=
  final ← forM run_line (Runner RunSummary.init [] None) (lines script);
  let rest := trim (run_statement final) in
  if negb (bool_decide (rest = [])) then
    mtr_executeStatement (stripTrailingSemicolon rest) (expected_error final) (count_statement (summary final))
  else if bool_decide (expected_error final ≠ None) then lift (Err ExpectedErrorMismatch)
  else mret (summary final).

Definition runMarkdownFixture (contents : bytes) : Result RunSummary.t :=
  script ← extractSqlBlocks contents;
  (runSqlScript script (Conn Database.init Session.init)).2.
End run.
