(* ===== verification/TestImportFacts.v ===== *)
(** * Importing MariaDB tests: theorems

    What the analyzer counts adds up; a file of plain statements is taken apart into these statements and classified by
    what the policy says of them; and an adapted test executes the statements written in its SQL blocks, in order, up to the first
    that does not do what is expected of it. *)

From S2P Require Import Prelude Tokenizer Policy Parser ProcedureBody Registries Executor TestImport.

(** ** Lines *)

Definition nl : byte := byte_of 10.

(** No newline inside. *)
Definition one_line (s : bytes) : bool := forallb (λ c, negb (is_char c 10)) s.

(** Lines written one after the other, each with its end. *)
Definition unlines (ls : list bytes) : bytes := ls ≫= λ l, l ++ [nl].

Lemma unlines_app ls ls' : unlines (ls ++ ls') = unlines ls ++ unlines ls'.
Proof. apply bind_app. Qed.

Lemma lines_cons l s : one_line l = true → lines (l ++ nl :: s) = l :: lines s.
Proof.
  induction l as [|c l IH]; [done|]. cbn. intros [Hc Hl]%andb_prop. apply negb_true_iff in Hc. by rewrite Hc, (IH Hl).
Qed.

Lemma lines_unlines_app ls s : forallb one_line ls = true → lines (unlines ls ++ s) = ls ++ lines s.
Proof.
  induction ls as [|l ls IH]; [done|]. cbn. intros [Hl Hls]%andb_prop. fold (unlines ls).
  rewrite <-!(assoc_L (++)). cbn. by rewrite lines_cons, IH.
Qed.

Lemma lines_unlines ls : forallb one_line ls = true → lines (unlines ls) = ls.
Proof. intros H. rewrite <-(app_nil_r (unlines ls)), lines_unlines_app by done. apply app_nil_r. Qed.

Lemma lines_one_line s : forallb one_line (lines s) = true.
Proof.
  induction s as [|c s IH]; [done|]. cbn. destruct (is_char c 10) eqn:Hc; [done|].
  destruct (lines s) as [|l ls]; cbn in *; by rewrite Hc.
Qed.

(** A text is its lines, the last one ended or not. *)
Lemma unlines_lines s : s ≠ [] → last s ≠ Some nl → unlines (lines s) = s ++ [nl].
Proof.
  induction s as [|c s IH]; [done|]. intros _. cbn [lines]. destruct s as [|d s'].
  - cbn. intros Hl. destruct (is_char c 10) eqn:E; [|done]. destruct Hl. f_equal. apply byte_val_inj.
    unfold is_char in E. apply Z.eqb_eq in E. by rewrite E.
  - intros Hl. rewrite last_cons_cons in Hl. specialize (IH ltac:(done) Hl). destruct (is_char c 10) eqn:E.
    + cbn. f_equal; [|exact IH]. apply byte_val_inj. unfold is_char in E. apply Z.eqb_eq in E. by rewrite E.
    + destruct (lines (d :: s')) as [|l ls]; [done|]. cbn in *. by rewrite IH.
Qed.

(** ** Trimming *)

Lemma trim_left_white s : Forall (λ c, isWhitespace c = true) s → trim_left s = [].
Proof. induction 1 as [|c s Hc _ IH]; [done|]. cbn. by rewrite Hc. Qed.

Lemma trim_left_id c s : isWhitespace c = false → trim_left (c :: s) = c :: s.
Proof. intros H. cbn. by rewrite H. Qed.

Lemma length_trim_left s : (length (trim_left s) ≤ length s)%nat.
Proof. induction s as [|c s IH]; [done|]. cbn. destruct (isWhitespace c); cbn; lia. Qed.

Lemma length_trim s : (length (trim s) ≤ length (trim_left s))%nat.
Proof. unfold trim. rewrite length_reverse. pose proof (length_trim_left (reverse (trim_left s))) as H. by rewrite length_reverse in H. Qed.

(** Nothing to trim: the first and the last character are not white space. *)
Lemma trimmed_ends c s d :
  isWhitespace c = false → isWhitespace d = false → last (c :: s) = Some d → trim (c :: s) = c :: s.
Proof.
  intros Hc Hd Hl. unfold trim. rewrite trim_left_id by done. apply last_Some in Hl as [l' ->].
  rewrite reverse_snoc, trim_left_id by done. by rewrite <-(reverse_snoc l' d), reverse_involutive.
Qed.

Lemma trimmed_head c s : trim (c :: s) = c :: s → isWhitespace c = false.
Proof.
  intros H. destruct (isWhitespace c) eqn:E; [|done]. pose proof (length_trim (c :: s)) as Hl. rewrite H in Hl. cbn in Hl.
  rewrite E in Hl. pose proof (length_trim_left s). lia.
Qed.

Lemma trimmed_last c s d : trim (c :: s) = c :: s → last (c :: s) = Some d → isWhitespace d = false.
Proof.
  intros H Hl. pose proof (trimmed_head _ _ H) as Hc. destruct (isWhitespace d) eqn:E; [|done].
  unfold trim in H. rewrite trim_left_id in H by done. apply last_Some in Hl as [l' Hl]. rewrite Hl, reverse_snoc in H. cbn [trim_left] in H. rewrite E in H.
  apply (f_equal length) in H. rewrite length_reverse, length_app in H. pose proof (length_trim_left (reverse l')) as Hx.
  rewrite length_reverse in Hx. cbn in H. lia.
Qed.

(** A trimmed text with a visible character behind it. *)
Lemma trimmed_snoc s d : s ≠ [] → trim s = s → isWhitespace d = false → trim (s ++ [d]) = s ++ [d].
Proof.
  destruct s as [|c s]; [done|]. intros _ H Hd. apply (trimmed_ends c (s ++ [d]) d); [by eapply trimmed_head|done|].
  change (c :: s ++ [d]) with ((c :: s) ++ [d]). by rewrite last_snoc.
Qed.

Definition semicolon : byte := byte_of 59.

Lemma ends_with_semicolon s : ends_with (s ++ [semicolon]) (B ";") = true.
Proof. apply bool_decide_eq_true. by exists s. Qed.

(** ** Statements in a script *)

(** The lines of a statement, with its semicolon. *)
Definition statement_lines (sql : bytes) : list bytes := lines (sql ++ [semicolon]).

Lemma statement_lines_text sql : unlines (statement_lines sql) = sql ++ [semicolon; nl].
Proof.
  unfold statement_lines. rewrite unlines_lines; [by rewrite <-(assoc_L (++))|by destruct sql|].
  rewrite last_snoc. by intros [=].
Qed.

(** Appending lines to a statement puts newlines between them. *)
Lemma append_lines acc ls : acc ≠ [] → foldl appendLine acc ls = acc ++ (ls ≫= λ l, nl :: l).
Proof.
  revert acc. induction ls as [|l ls IH]; intros acc Ha; cbn; [by rewrite app_nil_r|].
  destruct acc as [|c acc]; [done|]. cbn [appendLine]. rewrite IH by done. by rewrite <-(assoc_L (++)).
Qed.

Lemma unlines_between l ls : unlines (l :: ls) = (l ++ (ls ≫= λ l, nl :: l)) ++ [nl].
Proof.
  revert l. induction ls as [|l' ls IH]; intros l; [cbn; by rewrite !app_nil_r|].
  change (unlines (l :: l' :: ls)) with ((l ++ [nl]) ++ unlines (l' :: ls)). rewrite IH, <-!(assoc_L (++)). cbn. by rewrite <-(assoc_L (++)).
Qed.

Lemma append_statement_lines sql l ls :
  statement_lines sql = l :: ls → l ≠ [] → foldl appendLine [] (statement_lines sql) = sql ++ [semicolon].
Proof.
  intros E Hl. pose proof (statement_lines_text sql) as Ht. rewrite E in *. cbn [foldl appendLine].
  rewrite append_lines by done. rewrite unlines_between in Ht. apply (app_inj_2 _ _ [nl] [nl]); [done|].
  by rewrite Ht, <-(assoc_L (++)).
Qed.

(** The statement is complete with its last line and not before. *)
Fixpoint ends_at_last (complete : bytes → bool) (acc : bytes) (ls : list bytes) : bool :=
  match ls with
  | [] => false
  | [l] => complete (appendLine acc l)
  | l :: ls' => negb (complete (appendLine acc l)) && ends_at_last complete (appendLine acc l) ls'
  end.

(** ** Adapted tests *)

(** A statement of a test and the error it is expected to fail with, if it is. *)
Record step := Step { sql : bytes; expect : option bytes }.

Definition step_lines (s : step) : list bytes :=
  match expect s with Some e => [B "--error " ++ e] | None => [] end ++ statement_lines (sql s).

(** SQL that the runner can take from lines: trimmed, no blank line or fence inside, no directive, not complete before its
    end. *)
Definition runnable (sql : bytes) : bool :=
  negb (bool_decide (sql = [])) && bool_decide (trim sql = sql) &&
  forallb (λ l, negb (bool_decide (trim l = [])) && negb (starts_with (trim l) (B "```"))) (statement_lines sql) &&
  match statement_lines sql with first :: _ => negb (isUnsupportedDirective (trim first)) | [] => false end &&
  ends_at_last statementComplete [] (statement_lines sql).

Definition good_step (s : step) : bool :=
  runnable (sql s) &&
  match expect s with
  | Some e => negb (bool_decide (e = [])) && bool_decide (trim e = e) && one_line e
  | None => true
  end.

(** What the outcome of a statement means for the test. *)
Definition verdict {A} (expected : option bytes) (r : Result A) : Result () :=
  match r, expected with
  | Panic, _ => Panic
  | Ok _, None => Ok ()
  | Ok _, Some _ => Err UnexpectedSuccess
  | Err e, None => Err e
  | Err e, Some name => if eqlIgnoreCase name (errorName e) then Ok () else Err ExpectedErrorMismatch
  end.

Section steps.
Context (parse : bytes → option Ast.Statement.t) (parse_body : bytes → option Body) {allocator : Allocator}.

(** The statements executed one after the other, up to the first that does not do what is expected. *)
Fixpoint run_steps (steps : list step) : M () :=
  match steps with
  | [] => mret ()
  | s :: rest => λ c,
      let '(c, r) := executeSql parse parse_body (sql s) c in
      match verdict (expect s) r with
      | Ok _ => run_steps rest c
      | Err e => (c, Err e)
      | Panic => (c, Panic)
      end
  end.

Definition steps_summary (steps : list step) : RunSummary.t :=
  RunSummary.mk (length steps) (length steps) (length (filter (λ s, expect s ≠ None) steps)).

Definition add_summary (a b : RunSummary.t) : RunSummary.t :=
  RunSummary.mk (RunSummary.statements a + RunSummary.statements b) (RunSummary.executed a + RunSummary.executed b)
                (RunSummary.expected_errors a + RunSummary.expected_errors b).

Lemma strip_statement sql : sql ≠ [] → trim sql = sql → stripTrailingSemicolon (trim (sql ++ [semicolon])) = sql.
Proof.
  intros Hn Ht. unfold stripTrailingSemicolon. rewrite !(trimmed_snoc sql semicolon Hn Ht) by done.
  rewrite ends_with_semicolon, length_app. cbn [negb length]. rewrite take_app_length' by lia. done.
Qed.

Lemma M_bind_run {A C} (m : M A) (k : A → M C) c :
  (m ≫= k) c = match m c with (c', Ok a) => k a c' | (c', Err e) => (c', Err e) | (c', Panic) => (c', Panic) end.
Proof. reflexivity. Qed.

Lemma forM_app_run {S A} (f : S → A → M S) acc l1 l2 c :
  forM f acc (l1 ++ l2) c = (acc' ← forM f acc l1; forM f acc' l2) c.
Proof.
  revert acc c. induction l1 as [|a l1 IH]; intros acc c; [done|]. cbn [app forM].
  rewrite !M_bind_run. destruct (f acc a c) as [c' [acc'|e|]]; [|done|done]. by rewrite IH.
Qed.

(** The last line of a statement; the lines before it. *)
Lemma run_last_line (self : runner) line c :
  let statement := appendLine (run_statement self) line in
  let sql := stripTrailingSemicolon (trim statement) in
  statementComplete statement = true → sql ≠ [] →
  run_sql_line parse parse_body self line c =
  (s ← mtr_executeStatement parse parse_body sql (expected_error self) (count_statement (summary self)); mret (Runner s [] None)) c.
Proof. cbn zeta. intros Hc Hs. unfold run_sql_line. rewrite Hc. cbn [negb]. by rewrite bool_decide_eq_false_2. Qed.

Lemma run_lines ls (self : runner) c :
  let statement := foldl appendLine (run_statement self) ls in
  let sql := stripTrailingSemicolon (trim statement) in
  ends_at_last statementComplete (run_statement self) ls = true →
  forallb (λ l, negb (bool_decide (trim l = []))) ls = true → run_statement self ≠ [] → sql ≠ [] →
  forM (run_line parse parse_body) self ls c =
  (s ← mtr_executeStatement parse parse_body sql (expected_error self) (count_statement (summary self)); mret (Runner s [] None)) c.
Proof.
  cbn zeta. revert self. induction ls as [|l ls IH]; intros self He Hb Hn Hs; [done|].
  cbn [forallb] in Hb. apply andb_prop in Hb as [Hl Hb]. rewrite negb_true_iff, bool_decide_eq_false in Hl.
  cbn [forM]. rewrite M_bind_run. unfold run_line at 1. rewrite !bool_decide_eq_false_2 by done.
  destruct ls as [|l' ls].
  - cbn in He. rewrite run_last_line by done. cbn [foldl]. rewrite !M_bind_run.
    by destruct (mtr_executeStatement _ _ _ _ _ _) as [c' [s|e|]].
  - cbn [ends_at_last] in He. apply andb_prop in He as [He He']. unfold run_sql_line. rewrite He. cbn [mret M_ret].
    apply (IH (Runner (summary self) (appendLine (run_statement self) l) (expected_error self))); try done.
    cbn. by destruct (run_statement self).
Qed.

Lemma no_error_directive line : isUnsupportedDirective line = false → starts_with line (B "--error") = false.
Proof.
  unfold isUnsupportedDirective, starts_with. intros [H _]%orb_false_elim. rewrite bool_decide_eq_false in *.
  intros Hp. apply H. etrans; [|exact Hp]. by exists (B "error").
Qed.

(** A statement outside of another one. *)
Lemma run_statement_lines sql sm expected c :
  runnable sql = true →
  forM (run_line parse parse_body) (Runner sm [] expected) (statement_lines sql) c =
  (s ← mtr_executeStatement parse parse_body sql expected (count_statement sm); mret (Runner s [] None)) c.
Proof.
  unfold runnable. rewrite !andb_true_iff, negb_true_iff, bool_decide_eq_false, bool_decide_eq_true.
  intros [[[[Hn Ht] Hb] Hd] He].
  assert (Hb' : forallb (λ l, negb (bool_decide (trim l = []))) (statement_lines sql) = true).
  { rewrite forallb_forall in *. intros l Hl. by apply Hb, andb_prop in Hl as [? _]. }
  destruct (statement_lines sql) as [|l ls] eqn:E; [done|]. apply negb_true_iff in Hd.
  cbn [forallb] in Hb'. apply andb_prop in Hb' as [Hl Hb']. rewrite negb_true_iff, bool_decide_eq_false in Hl.
  assert (l ≠ []) as Hln by (by intros ->). pose proof (append_statement_lines _ _ _ E Hln) as Ha. rewrite E in Ha. cbn [foldl] in Ha.
  pose proof (strip_statement sql Hn Ht) as Hs. rewrite <-Ha in Hs.
  cbn [forM]. rewrite M_bind_run. unfold run_line at 1. cbn [run_statement].
  rewrite bool_decide_eq_false_2, bool_decide_eq_true_2, no_error_directive, Hd by done.
  destruct ls as [|l' ls].
  - cbn [foldl] in *. rewrite run_last_line; [|done|cbn [run_statement]; by rewrite Hs]. cbn [run_statement expected_error summary]. rewrite Hs, !M_bind_run.
    by destruct (mtr_executeStatement _ _ _ _ _ _) as [c' [s|e|]].
  - cbn [ends_at_last] in He. apply andb_prop in He as [He He']. unfold run_sql_line. cbn [run_statement]. rewrite He. cbn [mret M_ret].
    rewrite run_lines; cbn [run_statement expected_error summary]; rewrite ?Hs; try done.
Qed.

Lemma execute_verdict sql expected sm c :
  mtr_executeStatement parse parse_body sql expected sm c =
  let '(c', r) := executeSql parse parse_body sql c in
  match verdict expected r with
  | Ok _ => (c', Ok (RunSummary.mk (RunSummary.statements sm) (S (RunSummary.executed sm))
                       (if expected then S (RunSummary.expected_errors sm) else RunSummary.expected_errors sm)))
  | Err e => (c', Err e)
  | Panic => (c', Panic)
  end.
Proof.
  unfold mtr_executeStatement. destruct (executeSql _ _ _ _) as [c' [r|e|]]; destruct expected as [n|]; try done.
  cbn. by destruct (eqlIgnoreCase n (errorName e)).
Qed.

(** The directive in front of a statement. *)
Lemma trim_error_line e : e ≠ [] → trim e = e → trim (B "--error " ++ e) = B "--error " ++ e.
Proof.
  destruct e as [|x e]; [done|]. intros _ Ht. destruct (last (x :: e)) as [d|] eqn:El; [|by apply last_None in El].
  change (B "--error " ++ x :: e) with (byte_of 45 :: B "-error " ++ x :: e).
  apply (trimmed_ends _ _ d); [done|by eapply trimmed_last|].
  change (byte_of 45 :: B "-error " ++ x :: e) with (B "--error " ++ x :: e). by rewrite last_app, El.
Qed.

Lemma run_error_line sm e c :
  e ≠ [] → trim e = e → run_line parse parse_body (Runner sm [] None) (B "--error " ++ e) c = (c, Ok (Runner sm [] (Some e))).
Proof.
  intros Hn Ht. unfold run_line. rewrite trim_error_line by done. rewrite bool_decide_eq_false_2 by done. cbn [run_statement expected_error].
  rewrite bool_decide_eq_true_2 by done. unfold starts_with. rewrite bool_decide_eq_true_2 by (by exists (byte_of 32 :: e)).
  rewrite bool_decide_eq_false_2 by (intros H; by apply H).
  assert (Hd : trim (drop (length (B "--error")) (B "--error " ++ e)) = e).
  { change (drop (length (B "--error")) (B "--error " ++ e)) with (byte_of 32 :: e). unfold trim. cbn [trim_left].
    change (isWhitespace (byte_of 32)) with true. cbv iota. exact Ht. }
  rewrite Hd, bool_decide_eq_false_2 by done. done.
Qed.

Lemma run_step s sm c :
  good_step s = true →
  forM (run_line parse parse_body) (Runner sm [] None) (step_lines s) c =
  let '(c', r) := executeSql parse parse_body (sql s) c in
  match verdict (expect s) r with
  | Ok _ => (c', Ok (Runner (add_summary sm (steps_summary [s])) [] None))
  | Err e => (c', Err e)
  | Panic => (c', Panic)
  end.
Proof.
  unfold good_step, step_lines. intros [Hr He]%andb_prop. rewrite forM_app_run.
  assert (Hp : forM (run_line parse parse_body) (Runner sm [] None)
                 (match expect s with Some e => [B "--error " ++ e] | None => [] end) c = (c, Ok (Runner sm [] (expect s)))).
  { destruct (expect s) as [e|]; [|done]. rewrite !andb_true_iff, negb_true_iff, bool_decide_eq_false, bool_decide_eq_true in He.
    destruct He as [[Hn Ht] _]. cbn [forM]. by rewrite M_bind_run, run_error_line. }
  rewrite M_bind_run, Hp, run_statement_lines, M_bind_run, execute_verdict by done.
  destruct (executeSql _ _ _ _) as [c' r]. destruct (verdict (expect s) r); [|done|done]. unfold mret, M_ret. do 3 f_equal.
  unfold add_summary, steps_summary, count_statement. rewrite filter_cons, filter_nil. clear.
  destruct (expect s) as [e|]; case_decide as Hx; try congruence; cbn; f_equal; lia.
Qed.

Lemma add_summary_assoc a b c : add_summary (add_summary a b) c = add_summary a (add_summary b c).
Proof. unfold add_summary. cbn. f_equal; lia. Qed.

Lemma steps_summary_cons s steps : steps_summary (s :: steps) = add_summary (steps_summary [s]) (steps_summary steps).
Proof.
  unfold steps_summary, add_summary. cbn [RunSummary.statements RunSummary.executed RunSummary.expected_errors length]. f_equal.
  rewrite !filter_cons, filter_nil. by case_decide.
Qed.

Lemma run_all_steps steps sm c :
  forallb good_step steps = true →
  forM (run_line parse parse_body) (Runner sm [] None) (steps ≫= step_lines) c =
  match run_steps steps c with
  | (c', Ok _) => (c', Ok (Runner (add_summary sm (steps_summary steps)) [] None))
  | (c', Err e) => (c', Err e)
  | (c', Panic) => (c', Panic)
  end.
Proof.
  revert sm c. induction steps as [|s steps IH]; intros sm c H.
  { cbn [forM run_steps]. unfold mret, M_ret, list_bind, mbind. cbn. unfold mret, M_ret. do 3 f_equal. destruct sm. unfold add_summary. cbn. f_equal; lia. }
  cbn [forallb] in H. apply andb_prop in H as [Hs H]. change ((s :: steps) ≫= step_lines) with (step_lines s ++ (steps ≫= step_lines)).
  rewrite forM_app_run, M_bind_run, run_step by done. cbn [run_steps]. destruct (executeSql _ _ _ _) as [c' r].
  destruct (verdict (expect s) r); [|done|done]. rewrite IH by done. by rewrite (steps_summary_cons s steps), add_summary_assoc.
Qed.
End steps.

(** ** Documents *)

(** The line that opens an SQL block. *)
Definition sql_fence (l : bytes) : bool :=
  starts_with (trim l) (B "```") && eqlIgnoreCase (trim (drop 3 (trim l))) (B "sql").

(** Text, which may have fences of its own but none for SQL, and the SQL block behind it. *)
Record block := Block { prose : list bytes; steps : list step }.

Definition block_lines (b : block) : list bytes := prose b ++ [B "```sql"] ++ (steps b ≫= step_lines) ++ [B "```"].

Definition good_prose (ls : list bytes) : bool := forallb (λ l, one_line l && negb (sql_fence l)) ls.
Definition good_block (b : block) : bool := good_prose (prose b) && forallb good_step (steps b).

(** A document: blocks and the text behind the last one. *)
Definition document (blocks : list block) (tail : list bytes) : bytes := unlines ((blocks ≫= block_lines) ++ tail).

Lemma extract_prose ls saw script :
  good_prose ls = true → foldl extract_line (false, saw, script) ls = (false, saw, script).
Proof.
  induction ls as [|l ls IH]; [done|]. cbn [good_prose forallb]. intros [[_ Hl]%andb_prop H]%andb_prop.
  apply negb_true_iff in Hl. cbn [foldl]. rewrite <-(IH H) at 2. f_equal. unfold extract_line. unfold sql_fence in Hl.
  destruct (starts_with (trim l) (B "```")); [|done]. rewrite andb_true_l in Hl. by rewrite Hl.
Qed.

Lemma extract_sql ls saw script :
  forallb (λ l, negb (starts_with (trim l) (B "```"))) ls = true →
  foldl extract_line (true, saw, script) ls = (true, saw, script ++ unlines ls).
Proof.
  revert script. induction ls as [|l ls IH]; intros script; [by rewrite app_nil_r|]. cbn [forallb]. intros [Hl H]%andb_prop.
  apply negb_true_iff in Hl. cbn [foldl]. unfold extract_line at 2. rewrite Hl, (IH _ H). cbn. by rewrite <-!(assoc_L (++)).
Qed.

Lemma step_no_fence s : good_step s = true → forallb (λ l, negb (starts_with (trim l) (B "```"))) (step_lines s) = true.
Proof.
  unfold good_step, step_lines, runnable. rewrite !andb_true_iff. intros [[[[_ Hb] _] _] He]. rewrite forallb_app.
  apply andb_true_intro. split.
  - destruct (expect s) as [e|]; [|done]. rewrite !andb_true_iff, negb_true_iff, bool_decide_eq_false, bool_decide_eq_true in He.
    cbn [forallb]. by rewrite trim_error_line by apply He.
  - rewrite forallb_forall in *. intros l Hl. by apply Hb, andb_prop in Hl as [_ ?].
Qed.

Lemma steps_lines (P : bytes → bool) steps :
  (∀ s, good_step s = true → forallb P (step_lines s) = true) →
  forallb good_step steps = true → forallb P (steps ≫= step_lines) = true.
Proof.
  intros HP. induction steps as [|s steps IH]; [done|]. cbn. intros [Hs H]%andb_prop. rewrite forallb_app, HP by done. by apply IH.
Qed.

Lemma step_one_line s : good_step s = true → forallb one_line (step_lines s) = true.
Proof.
  unfold good_step, step_lines. intros [_ He]%andb_prop. rewrite forallb_app. unfold statement_lines. rewrite lines_one_line, andb_true_r.
  destruct (expect s) as [e|]; [|done]. apply andb_prop in He as [_ He]. cbn [forallb]. rewrite andb_true_r. exact He.
Qed.

Lemma extract_block b saw script :
  good_block b = true →
  foldl extract_line (false, saw, script) (block_lines b) = (false, true, script ++ unlines (steps b ≫= step_lines)).
Proof.
  unfold good_block, block_lines. intros [Hp Hs]%andb_prop. rewrite foldl_app, extract_prose by done.
  rewrite foldl_app. change (foldl extract_line (false, saw, script) [B "```sql"]) with (true, true, script).
  rewrite foldl_app, extract_sql by (by apply steps_lines; [apply step_no_fence|]). done.
Qed.

Lemma extract_blocks blocks saw script :
  forallb good_block blocks = true →
  foldl extract_line (false, saw, script) (blocks ≫= block_lines) =
  (false, saw || negb (bool_decide (blocks = [])), script ++ unlines ((blocks ≫= steps) ≫= step_lines)).
Proof.
  revert saw script. induction blocks as [|b blocks IH]; intros saw script; [by rewrite app_nil_r, orb_false_r|].
  cbn [forallb]. intros [Hb H]%andb_prop. change ((b :: blocks) ≫= block_lines) with (block_lines b ++ (blocks ≫= block_lines)).
  rewrite foldl_app, extract_block, IH by done. rewrite orb_true_r.
  change ((b :: blocks) ≫= steps) with (steps b ++ (blocks ≫= steps)). rewrite bind_app, unlines_app. by rewrite <-(assoc_L (++)).
Qed.

Lemma blocks_good blocks : forallb good_block blocks = true → forallb good_step (blocks ≫= steps) = true.
Proof.
  induction blocks as [|b blocks IH]; [done|]. cbn. intros [[_ Hb]%andb_prop H]%andb_prop. rewrite forallb_app, Hb. by apply IH.
Qed.

Lemma document_lines blocks tail :
  forallb good_block blocks = true → good_prose tail = true →
  lines (document blocks tail) = (blocks ≫= block_lines) ++ tail.
Proof.
  intros Hb Ht. apply lines_unlines. assert (Hprose : ∀ ls, good_prose ls = true → forallb one_line ls = true).
  { intros ls. unfold good_prose. rewrite !forallb_forall. intros H l Hl. by apply H, andb_prop in Hl as [? _]. }
  rewrite forallb_app, (Hprose tail Ht), andb_true_r. induction blocks as [|b blocks IH]; [done|].
  cbn [forallb] in Hb. apply andb_prop in Hb as [[Hp Hs]%andb_prop H].
  change ((b :: blocks) ≫= block_lines) with (block_lines b ++ (blocks ≫= block_lines)). rewrite forallb_app, (IH H). unfold block_lines.
  by rewrite !forallb_app, (Hprose _ Hp), (steps_lines _ _ step_one_line Hs).
Qed.

(** C18: an adapted test executes, against a new database, the statements of its SQL blocks in the order of the document, each
    with the error expected of it, up to the first that does not do what is expected, whose error is the result; if all do, the
    summary counts them. *)
Theorem fixture_runs_steps {allocator : Allocator} (parse : bytes → option Ast.Statement.t) (parse_body : bytes → option Body)
    (blocks : list block) (tail : list bytes) :
  forallb good_block blocks = true → good_prose tail = true → blocks ≠ [] →
  runMarkdownFixture parse parse_body (document blocks tail) =
  (_ ← (run_steps parse parse_body (blocks ≫= steps) (Conn Database.init Session.init)).2; Ok (steps_summary (blocks ≫= steps))).
Proof.
  intros Hb Ht Hn. unfold runMarkdownFixture, extractSqlBlocks. rewrite document_lines, foldl_app, extract_blocks by done.
  rewrite extract_prose, bool_decide_eq_false_2 by done. cbn. unfold runSqlScript.
  rewrite lines_unlines by (apply steps_lines; [apply step_one_line|by apply blocks_good]).
  rewrite M_bind_run, run_all_steps by (by apply blocks_good).
  by destruct (run_steps _ _ _ _) as [c [?|e|]].
Qed.

#[local] Existing Instance in_place.

(** A test with two blocks: a statement over two lines, one that fails as expected, a procedure with semicolons inside. *)
Definition sample_document : list block :=
  [Block [B "# Adapted test"; []; B "```text"; B "SELECT nothing;"; B "```"]
     [Step (B "CREATE TABLE memories (id INTEGER," ++ [nl] ++ B "  embedding VECTOR(2))") None; Step (B "BEGIN") None;
      Step (B "INSERT INTO memories VALUES (1, [1, 2, 3])") (Some (B "VectorDimensionMismatch"))];
   Block [B "The procedure:"]
     [Step (B "COMMIT") None;
      Step (B "CREATE PROCEDURE p() BEGIN" ++ [nl] ++ B "  INSERT INTO memories VALUES (1, [1, 2]);" ++ [nl] ++ B "END") None;
      Step (B "BEGIN") None; Step (B "CALL p()") None; Step (B "COMMIT") None]].

Lemma fixture_runs_steps_witness :
  runMarkdownFixture parse_statement parse_body (document sample_document [B "End."]) = Ok (RunSummary.mk 8 8 1).
Proof.
  rewrite (fixture_runs_steps parse_statement parse_body sample_document [B "End."]); [|by vm_compute|by vm_compute|done].
  by vm_compute.
Defined.

(** ** What the analyzer counts *)

(** The counters so far, the statement being read and the line it began at, before line [n] is read. *)
Record counts (n : nat) (a : Analysis.t) : Prop := {
  co_statements : Analysis.statements a = (Analysis.accepted_statements a + Analysis.rejected_statements a)%nat;
  co_violation : Analysis.first_violation a = None ↔ Analysis.rejected_statements a = 0%nat;
  co_line : ∀ v, Analysis.first_violation a = Some v →
    (1 ≤ StatementViolation.line v < n)%nat ∧ (length (StatementViolation.tokenText v) ≤ 64)%nat;
  co_errors : (Analysis.expected_errors a ≤ Analysis.directives a + Analysis.harness_commands a)%nat;
  co_delimiters : (Analysis.delimiter_changes a ≤ Analysis.harness_commands a)%nat;
}.

(** Lines accounted for. *)
Definition lines_used (a : Analysis.t) : nat := Analysis.blank_lines a + Analysis.comments a + Analysis.directives a.

Record reading (n : nat) (self : analyzer) : Prop := {
  rd_counts : counts n (result self);
  rd_start : statement self ≠ [] → (1 ≤ statement_start_line self < n)%nat;
  rd_lines : (lines_used (result self) + Analysis.statements (result self) + (if statement self then 0 else 1) < n)%nat;
  rd_harness : (lines_used (result self) + Analysis.harness_commands (result self) < n)%nat;
}.

Lemma inspect_counts n a statement line :
  counts n a → (1 ≤ line < n)%nat → counts n (inspectStatement a statement line).
Proof.
  intros [H1 H2 H3 H4 H5] Hl. unfold inspectStatement. destruct statement as [|c s]; [by split|].
  destruct (firstViolation (c :: s)) as [found|].
  - split; cbn; try done; [lia| |].
    + destruct (Analysis.first_violation a); split; intros; try done; lia.
    + intros v Hv. destruct (Analysis.first_violation a) as [v'|] eqn:E; [by apply H3|]. injection Hv as <-. cbn.
      split; [lia|]. unfold StatementViolation.tokenText. cbn [StatementViolation.token]. rewrite length_take. lia.
  - split; cbn; try done; lia.
Qed.

Lemma inspect_lines a statement line :
  let a' := inspectStatement a statement line in
  lines_used a' = lines_used a ∧ Analysis.harness_commands a' = Analysis.harness_commands a ∧
  (Analysis.statements a' ≤ S (Analysis.statements a))%nat.
Proof. unfold inspectStatement. destruct statement as [|c s]; [by auto with lia|]. destruct (firstViolation _); cbn; auto with lia. Qed.

Lemma counts_later n n' a : counts n a → (n ≤ n')%nat → counts n' a.
Proof. intros [H1 H2 H3 H4 H5] Hn. split; try done. intros v Hv. destruct (H3 v Hv). lia. Qed.

Lemma analyze_end_reading n self : reading n self → statement self ≠ [] → reading n (analyze_end self).
Proof.
  intros [H1 H2 H3 H4] Hs. unfold analyze_end. destruct (endsWithDelimiter _ _); [|by split].
  pose proof (inspect_lines (result self) (trim (take (length (trim (statement self)) - length (delimiter self)) (trim (statement self))))
                (statement_start_line self)) as (E1 & E2 & E3).
  split; cbn [result statement]; rewrite ?E1, ?E2.
  - apply inspect_counts; auto.
  - done.
  - destruct (statement self); [done|]. lia.
  - done.
Qed.

Lemma classify_rejected n a :
  counts n a → Classification.bucket (classify a) = rejected_by_policy ↔ Analysis.first_violation a ≠ None.
Proof.
  intros [_ H _ _ _]. rewrite H. unfold classify. destruct (Analysis.rejected_statements a); cbn; [|by split].
  split; [|done]. by repeat case_match.
Qed.

(** A line that is counted as one of the kinds outside of statements, or begins a statement. *)
Definition counted_as (a a' : Analysis.t) : Prop :=
  Analysis.statements a' = Analysis.statements a ∧ Analysis.accepted_statements a' = Analysis.accepted_statements a ∧
  Analysis.rejected_statements a' = Analysis.rejected_statements a ∧ Analysis.first_violation a' = Analysis.first_violation a ∧
  (lines_used a' + Analysis.harness_commands a' ≤ S (lines_used a + Analysis.harness_commands a))%nat ∧
  (Analysis.expected_errors a' + Analysis.directives a + Analysis.harness_commands a ≤
     Analysis.expected_errors a + Analysis.directives a' + Analysis.harness_commands a')%nat ∧
  (Analysis.delimiter_changes a' + Analysis.harness_commands a ≤ Analysis.delimiter_changes a + Analysis.harness_commands a')%nat.

Lemma counted_counts n a a' : counts n a → counted_as a a' → counts (S n) a'.
Proof.
  intros [H1 H2 H3 H4 H5] (E1 & E2 & E3 & E4 & E5 & E6 & E7). split; rewrite ?E1, ?E2, ?E3, ?E4; try done; try lia.
  intros v Hv. destruct (H3 v Hv). lia.
Qed.

Lemma analyze_first_reading n self trimmed :
  reading n self → statement self = [] → (1 ≤ n)%nat →
  match analyze_first self n trimmed with
  | inl next => reading (S n) next
  | inr next => reading (S n) next ∧ statement next ≠ []
  end.
Proof.
  intros [H1 H2 H3 H4] Hs Hn. unfold analyze_first. rewrite Hs in *. cbn [appendLine].
  assert (Hcount : ∀ r d, counted_as (result self) r → (lines_used r ≤ S (lines_used (result self)))%nat →
                     reading (S n) (Analyzer r [] d (statement_start_line self))).
  { intros r d Hc Hu. pose proof Hc as (E1 & _ & _ & _ & E5 & _). split; cbn; [by eapply counted_counts|done| |]; rewrite ?E1; lia. }
  assert (Hbegin : ∀ r sql, counted_as (result self) r → lines_used r = lines_used (result self) → sql ≠ [] →
                     reading (S n) (Analyzer r sql (delimiter self) n) ∧ sql ≠ []).
  { intros r sql Hc Hu Hq. pose proof Hc as (E1 & _ & _ & _ & E5 & _).
    split; [|done]. split; cbn; [by eapply counted_counts|lia| |]; rewrite ?E1; [destruct sql; [done|]|]; lia. }
  case_bool_decide as Hb; [apply Hcount; unfold counted_as, lines_used; cbn; auto with lia|].
  destruct (starts_with trimmed (B "#")); [apply Hcount; unfold counted_as, lines_used; cbn; auto 10 with lia|].
  destruct (starts_with trimmed (B "--")).
  { apply Hcount; destruct (startsWithWord _ _); unfold counted_as, lines_used; cbn; split_and?; done || lia. }
  destruct (parseDelimiterCommand _ _) as [d|]; [apply Hcount; unfold counted_as, lines_used; cbn; split_and?; done || lia|].
  destruct (sqlAfterHarnessPrefix trimmed) as [sql|] eqn:E.
  - apply Hbegin; [unfold counted_as, lines_used; cbn; split_and?; done || lia|done|].
    unfold sqlAfterHarnessPrefix in E. destruct (list_find _ _) as [p|]; [|done]. cbn in E. case_bool_decide as Hq; [done|]. by injection E as <-.
  - destruct (isHarnessCommandLine trimmed).
    + apply Hcount; destruct (startsWithWord _ _); unfold counted_as, lines_used; cbn; split_and?; done || lia.
    + apply Hbegin; [unfold counted_as; split_and?; done || lia|done|done].
Qed.

Lemma analyze_line_reading n self line : reading n self → (1 ≤ n)%nat → reading (S n) (analyze_line self n line).
Proof.
  intros H Hn. unfold analyze_line. destruct (statement self) as [|c s] eqn:Es.
  - pose proof (analyze_first_reading n self (trim line) H Es Hn) as Hf.
    destruct (analyze_first self n (trim line)) as [next|next]; [done|]. by apply analyze_end_reading; destruct Hf.
  - apply analyze_end_reading; [|done]. destruct H as [H1 H2 H3 H4]. rewrite Es in *.
    split; cbn; [eapply counts_later; [done|lia]|specialize (H2 ltac:(done)); lia|lia|lia].
Qed.

Lemma analyze_lines_reading ls n self :
  reading n self → (1 ≤ n)%nat → reading (n + length ls) (analyze_lines self n ls).
Proof.
  revert n self. induction ls as [|l ls IH]; intros n self H Hn; cbn; [by rewrite Nat.add_0_r|].
  rewrite <-Nat.add_succ_comm. apply IH; [|lia]. by apply analyze_line_reading.
Qed.

(** Whatever file is analyzed, what is counted adds up: the statements are the accepted and the rejected ones, there is a
    first rejection exactly if there are rejected ones, with a line of the file, and no line is counted twice; and the file is
    put aside as rejected exactly if there is a rejection to report. *)
Lemma analysis_spec (contents : bytes) :
  let a := analyze contents in
  counts (S (length (lines contents))) a ∧
  (lines_used a + Analysis.statements a ≤ length (lines contents))%nat ∧
  (lines_used a + Analysis.harness_commands a ≤ length (lines contents))%nat ∧
  (Classification.bucket (classify a) = rejected_by_policy ↔ Analysis.first_violation a ≠ None).
Proof.
  cbn zeta. unfold analyze.
  assert (H0 : reading 1 (Analyzer Analysis.init [] (B ";") 0)) by (repeat split; cbn; done || lia).
  apply (analyze_lines_reading (lines contents)) in H0; [|lia]. cbn [Nat.add] in H0.
  destruct H0 as [H1 H2 H3 H4]. set (final := analyze_lines _ _ _) in *. clearbody final.
  assert (Hr : counts (S (length (lines contents))) (Analysis.unterminated (result final))) by (destruct H1; by split).
  case_bool_decide as Hb.
  - split; [done|]. split; [lia|]. split; [lia|]. by apply classify_rejected with (S (length (lines contents))).
  - assert (Hs : statement final ≠ []) by (intros E; by rewrite E in Hb).
    specialize (H2 Hs). destruct (statement final) as [|c s]; [done|].
    pose proof (inspect_counts _ _ (trim (c :: s)) _ Hr H2) as Hc.
    destruct (inspect_lines (Analysis.unterminated (result final)) (trim (c :: s)) (statement_start_line final)) as (E1 & E2 & E3).
    split; [done|]. rewrite E1, E2. unfold lines_used in *. cbn in *. split; [lia|]. split; [lia|]. by eapply classify_rejected.
Qed.

Lemma analysis_counts contents : counts (S (length (lines contents))) (analyze contents).
Proof. apply analysis_spec. Qed.

(** ** Files of plain statements *)

(** SQL that the analyzer reads as one statement: it starts like none of the harness's lines and no line before the last ends with
    a semicolon. *)
Definition plain (sql : bytes) : bool :=
  negb (bool_decide (sql = [])) && bool_decide (trim sql = sql) &&
  match statement_lines sql with
  | first :: _ =>
      negb (bool_decide (first = [])) && bool_decide (trim first = first) &&
      negb (starts_with first (B "#")) && negb (starts_with first (B "--")) &&
      negb (startsWithWord first (B "delimiter")) && bool_decide (sqlAfterHarnessPrefix first = None) &&
      negb (isHarnessCommandLine first)
  | [] => false
  end &&
  ends_at_last (λ s, endsWithDelimiter (trim s) (B ";")) [] (statement_lines sql).

Lemma strip_delimiter sql :
  sql ≠ [] → trim sql = sql →
  trim (take (length (trim (sql ++ [semicolon])) - length (B ";")) (trim (sql ++ [semicolon]))) = sql.
Proof.
  intros Hn Ht. rewrite !(trimmed_snoc sql semicolon Hn Ht) by done. rewrite length_app. cbn [length B].
  by rewrite take_app_length' by (cbn; lia).
Qed.

(** The lines of a statement that has begun. *)
Lemma analyze_more ls acc a k n sql :
  ends_at_last (λ s, endsWithDelimiter (trim s) (B ";")) acc ls = true → acc ≠ [] →
  sql ≠ [] → trim sql = sql → foldl appendLine acc ls = sql ++ [semicolon] →
  analyze_lines (Analyzer a acc (B ";") k) n ls = Analyzer (inspectStatement a sql k) [] (B ";") 0.
Proof.
  revert acc n. induction ls as [|l ls IH]; intros acc n He Ha Hn Ht Hf; [done|].
  assert (Hl : analyze_line (Analyzer a acc (B ";") k) n l = analyze_end (Analyzer a (appendLine acc l) (B ";") k)) by by destruct acc.
  cbn [analyze_lines]. rewrite Hl. unfold analyze_end. cbn [result statement delimiter statement_start_line]. destruct ls as [|l' ls].
  - cbn in He, Hf |- *. by rewrite He, Hf, strip_delimiter.
  - cbn [ends_at_last] in He. apply andb_prop in He as [He He']. apply negb_true_iff in He. rewrite He.
    apply IH; try done. by destruct acc.
Qed.

Lemma analyze_plain sql a k n :
  plain sql = true →
  analyze_lines (Analyzer a [] (B ";") k) n (statement_lines sql) = Analyzer (inspectStatement a sql n) [] (B ";") 0.
Proof.
  unfold plain. rewrite !andb_true_iff, negb_true_iff, bool_decide_eq_false, bool_decide_eq_true. intros [[[Hn Ht] Hfirst] He].
  destruct (statement_lines sql) as [|l ls] eqn:E; [done|].
  rewrite !andb_true_iff, !negb_true_iff, bool_decide_eq_false, !bool_decide_eq_true in Hfirst.
  destruct Hfirst as ((((((Hl & Htl) & H1) & H2) & H3) & H4) & H5).
  pose proof (append_statement_lines _ _ _ E Hl) as Ha. rewrite E in Ha. cbn [foldl] in Ha.
  assert (Hfl : analyze_line (Analyzer a [] (B ";") k) n l = analyze_end (Analyzer a (appendLine [] l) (B ";") n)).
  { unfold analyze_line, analyze_first, parseDelimiterCommand. cbn [statement result delimiter statement_start_line].
    rewrite Htl, bool_decide_eq_false_2, H1, H2, H3, H4, H5 by done. done. }
  cbn [analyze_lines]. rewrite Hfl. unfold analyze_end. cbn [result statement delimiter statement_start_line]. destruct ls as [|l' ls].
  - cbn [ends_at_last] in He. cbn [foldl] in Ha. by rewrite He, Ha, strip_delimiter.
  - cbn [ends_at_last] in He. apply andb_prop in He as [He He']. apply negb_true_iff in He. rewrite He. by apply analyze_more.
Qed.

(** The statements inspected, each at the line it begins at. *)
Fixpoint inspect_all (a : Analysis.t) (n : nat) (sqls : list bytes) : Analysis.t :=
  match sqls with
  | [] => a
  | sql :: rest => inspect_all (inspectStatement a sql n) (n + length (statement_lines sql)) rest
  end.

Lemma analyze_lines_app self n ls ls' :
  analyze_lines self n (ls ++ ls') = analyze_lines (analyze_lines self n ls) (n + length ls) ls'.
Proof.
  revert self n. induction ls as [|l ls IH]; intros self n; cbn; [by rewrite Nat.add_0_r|]. by rewrite IH, Nat.add_succ_comm.
Qed.

Lemma analyze_all sqls a k n :
  forallb plain sqls = true →
  ∃ k', analyze_lines (Analyzer a [] (B ";") k) n (sqls ≫= statement_lines) = Analyzer (inspect_all a n sqls) [] (B ";") k'.
Proof.
  revert a k n. induction sqls as [|sql sqls IH]; intros a k n; [by exists k|]. cbn [forallb]. intros [Hs H]%andb_prop.
  change ((sql :: sqls) ≫= statement_lines) with (statement_lines sql ++ (sqls ≫= statement_lines)).
  rewrite analyze_lines_app, analyze_plain by done. by apply IH.
Qed.

Lemma analyze_file sqls :
  forallb plain sqls = true → analyze (unlines (sqls ≫= statement_lines)) = inspect_all Analysis.init 1 sqls.
Proof.
  intros H. unfold analyze. rewrite lines_unlines.
  - by destruct (analyze_all sqls Analysis.init 0 1 H) as [k' ->].
  - clear. induction sqls as [|sql sqls IH]; [done|]. cbn. rewrite forallb_app, IH, andb_true_r. apply lines_one_line.
Qed.

(** What the statements add to the counters. *)
Record added (a a' : Analysis.t) (sqls : list bytes) : Prop := {
  ad_statements : Analysis.statements a' = (Analysis.statements a + length sqls)%nat;
  ad_accepted : Analysis.accepted_statements a' = (Analysis.accepted_statements a + length (filter (λ s, accepts s = true) sqls))%nat;
  ad_rejected : Analysis.rejected_statements a' = (Analysis.rejected_statements a + length (filter (λ s, accepts s = false) sqls))%nat;
  ad_harness : (Analysis.directives a', Analysis.harness_commands a', Analysis.expected_errors a', Analysis.delimiter_changes a',
    Analysis.unterminated_statement a') = (Analysis.directives a, Analysis.harness_commands a, Analysis.expected_errors a,
    Analysis.delimiter_changes a, Analysis.unterminated_statement a);
}.

Lemma inspect_added a sql n : sql ≠ [] → added a (inspectStatement a sql n) [sql].
Proof.
  intros Hs. unfold inspectStatement. destruct sql as [|c s]; [done|].
  assert (Ha : accepts (c :: s) = if firstViolation (c :: s) then false else true).
  { unfold accepts. destruct (firstViolation (c :: s)); by case_bool_decide. }
  split; rewrite ?filter_cons, ?filter_nil; destruct (firstViolation (c :: s)); try case_decide; try congruence; cbn; done || lia.
Qed.

Lemma inspect_all_added sqls a n : forallb plain sqls = true → added a (inspect_all a n sqls) sqls.
Proof.
  revert a n. induction sqls as [|sql sqls IH]; intros a n; [split; cbn; done || lia|]. cbn [forallb]. intros [Hs H]%andb_prop.
  assert (Hn : sql ≠ []) by (by intros ->). destruct (inspect_added a sql n Hn) as [A1 A2 A3 A4].
  destruct (IH (inspectStatement a sql n) (n + length (statement_lines sql))%nat H) as [B1 B2 B3 B4]. cbn [inspect_all].
  rewrite !filter_cons, !filter_nil in A2, A3.
  split; [rewrite B1, A1; cbn; lia| | |by rewrite B4].
  - rewrite B2, A2, filter_cons. destruct (decide (accepts sql = true)); cbn [length]; lia.
  - rewrite B3, A3, filter_cons. destruct (decide (accepts sql = false)); cbn [length]; lia.
Qed.

Lemma inspect_all_keeps sqls a n v : Analysis.first_violation a = Some v → Analysis.first_violation (inspect_all a n sqls) = Some v.
Proof.
  revert a n. induction sqls as [|sql sqls IH]; intros a n H; [done|]. cbn. apply IH. unfold inspectStatement.
  destruct sql as [|c s]; [done|]. destruct (firstViolation _); cbn; by rewrite ?H.
Qed.

Lemma inspect_all_first pre sql post a n v :
  Analysis.first_violation a = None → forallb accepts pre = true → sql ≠ [] → firstViolation sql = Some v →
  Analysis.first_violation (inspect_all a n (pre ++ sql :: post)) =
  Some (StatementViolation.mk (PolicyViolation.feature v) (n + length (pre ≫= statement_lines)) (PolicyViolation.offset v)
          (take 64 (PolicyViolation.token v))).
Proof.
  revert a n. induction pre as [|p pre IH]; intros a n Ha Hp Hs Hv.
  - cbn. rewrite Nat.add_0_r. apply inspect_all_keeps. unfold inspectStatement. destruct sql; [done|]. rewrite Hv. cbn. by rewrite Ha.
  - cbn [forallb] in Hp. apply andb_prop in Hp as [Hacc Hp]. cbn [app inspect_all].
    change ((p :: pre) ≫= statement_lines) with (statement_lines p ++ (pre ≫= statement_lines)).
    rewrite length_app, Nat.add_assoc. apply IH; try done. unfold inspectStatement. destruct p as [|c p]; [done|].
    unfold accepts in Hacc. rewrite bool_decide_eq_true in Hacc. by rewrite Hacc.
Qed.

Lemma rejected_none sqls : forallb accepts sqls = bool_decide (filter (λ s, accepts s = false) sqls = []).
Proof.
  induction sqls as [|sql sqls IH]; [done|]. cbn [forallb]. rewrite filter_cons, IH. destruct (accepts sql); case_decide; try done.
Qed.

(** A file of plain statements is taken apart into exactly these statements; it is a candidate to run as it is if the policy
    accepts all of them, and otherwise it is rejected, with the first violation reported at the line its statement begins
    at. *)
Theorem plain_file_classified (sqls : list bytes) :
  let a := analyze (unlines (sqls ≫= statement_lines)) in
  forallb plain sqls = true → sqls ≠ [] →
  Analysis.statements a = length sqls ∧
  Analysis.accepted_statements a = length (filter (λ s, accepts s = true) sqls) ∧
  Classification.bucket (classify a) = (if forallb accepts sqls then sacred_candidate else rejected_by_policy) ∧
  ∀ pre sql post v, sqls = pre ++ sql :: post → forallb accepts pre = true → firstViolation sql = Some v →
    Analysis.first_violation a =
    Some (StatementViolation.mk (PolicyViolation.feature v) (S (length (pre ≫= statement_lines))) (PolicyViolation.offset v)
            (take 64 (PolicyViolation.token v))).
Proof.
  cbn zeta. intros H Hn. rewrite analyze_file by done. destruct (inspect_all_added sqls Analysis.init 1 H) as [A1 A2 A3 A4].
  split; [done|]. split; [done|]. split.
  - injection A4 as E1 E2 E3 E4 E5. unfold classify. rewrite A3, A1, E1, E2, E3, E4, E5. cbn [Analysis.init].
    assert (Hf : forallb accepts sqls = bool_decide (filter (λ s, accepts s = false) sqls = [])) by apply rejected_none.
    rewrite Hf. case_bool_decide as Hb; [rewrite Hb; by destruct sqls|].
    revert Hb. by destruct (filter (λ s, accepts s = false) sqls).
  - intros pre sql post v -> Hp Hv. apply inspect_all_first; try done. intros ->. by rewrite forallb_app, andb_comm in H.
Qed.

(** Three statements, the second over two lines and refused. *)
Definition sample_file : list bytes :=
  [B "CREATE TABLE t (a INTEGER)"; B "CREATE TABLE u (a INTEGER)" ++ [nl] ++ B "  ENGINE=InnoDB"; B "SELECT a FROM t"].

Lemma plain_file_classified_witness :
  let a := analyze (unlines (sample_file ≫= statement_lines)) in
  Analysis.accepted_statements a = 2%nat ∧ Classification.bucket (classify a) = rejected_by_policy ∧
  StatementViolation.line <$> Analysis.first_violation a = Some 2%nat.
Proof.
  destruct (plain_file_classified sample_file) as (_ & E & Eb & Ev); [by vm_compute|done|]. cbn zeta. split; [by rewrite E; vm_compute|].
  split; [by rewrite Eb; vm_compute|].
  destruct (firstViolation (B "CREATE TABLE u (a INTEGER)" ++ [nl] ++ B "  ENGINE=InnoDB")) as [v|] eqn:E2; [|by vm_compute in E2].
  rewrite (Ev [B "CREATE TABLE t (a INTEGER)"] (B "CREATE TABLE u (a INTEGER)" ++ [nl] ++ B "  ENGINE=InnoDB") [B "SELECT a FROM t"] v);
    [by vm_compute|done|by vm_compute|exact E2].
Defined.

(** ** A disagreement

    The analyzer takes a harness word for one only if white space follows it, the runner if no word character does: a file with
    a connection command of the usual form is called plain SQL, and refused when it is run. *)
Lemma sacred_file_refused :
  let file := B "connect(con1,localhost,root,,);" in
  Classification.bucket (classify (analyze file)) = sacred_candidate ∧
  (runSqlScript parse_statement parse_body file (Conn Database.init Session.init)).2 = Err UnsupportedDirective.
Proof. by vm_compute. Qed.
