(* ===== verification/Cli.v ===== *)
(** * The command line

    Models [src/src/cli/commands.zig], the options of [benchmark.zig] and the reports of [benchmark_metrics.zig].  A command
    writes to the standard output and returns, exits with a status, or fails with an error, which ends the program: [Cli].
    Files are a directory with injected faults, as in [Storage]; the decimal form of floating-point numbers and what the benchmark measures are
    arguments; [Benchmark.measure] is what the program measures. *)

From S2P Require Import Prelude Numeral Value RowStore QuerySource Storage Tokenizer Policy Ast Parser Registries ProcedureBody Executor TestImport.

(** ** Output *)

Inductive status (A : Type) := Returned (a : A) | Exited (code : Z) | Raised (e : Error) | Crashed.
Arguments Returned {A} a.
Arguments Exited {A} code.
Arguments Raised {A} e.
Arguments Crashed {A}.

(** What was written, and how the command ended. *)
Record Cli (A : Type) := Wrote { output : bytes; ended : status A }.
Arguments Wrote {A} output ended.
Arguments output {A} c.
Arguments ended {A} c.

#[global] Instance Cli_ret : MRet Cli := λ A a, Wrote [] (Returned a).
#[global] Instance Cli_bind : MBind Cli := λ A C f m,
  match ended m with
  | Returned a => Wrote (output m ++ output (f a)) (ended (f a))
  | Exited code => Wrote (output m) (Exited code)
  | Raised e => Wrote (output m) (Raised e)
  | Crashed => Wrote (output m) Crashed
  end.

(** [stdout.print]; a string of the format and its arguments in order. *)
Definition print (pieces : list bytes) : Cli () := Wrote (concat pieces) (Returned ()).
Definition exit {A} (code : Z) : Cli A := Wrote [] (Exited code).
(** [try] *)
Definition attempt {A} (r : Result A) : Cli A :=
  match r with Ok a => mret a | Err e => Wrote [] (Raised e) | Panic => Wrote [] Crashed end.

Definition newline : bytes := [byte_of 10].

(** [{d}] of an integer *)
Fixpoint show_digits (fuel : nat) (n : Z) (acc : bytes) : bytes :=
  match fuel with
  | O => acc
  | S fuel' =>
      let acc := byte_of (48 + n mod 10) :: acc in
      if n <? 10 then acc else show_digits fuel' (n / 10) acc
  end.

(** One digit takes more than three bits. *)
Definition show_unsigned (n : Z) : bytes := show_digits (S (Z.to_nat (Z.log2 n))) n [].

Definition show_int (n : Z) : bytes := if n <? 0 then B "-" ++ show_unsigned (- n) else show_unsigned n.

Definition show_nat (n : nat) : bytes := show_unsigned (Z.of_nat n).

(** ** benchmark.zig: options *)
Inductive OutputFormat := format_text | format_json.
Inductive Preset := local_smoke | acceptance_smoke.

#[global] Instance OutputFormat_eq_dec : EqDecision OutputFormat.
Proof. solve_decision. Defined.
#[global] Instance Preset_eq_dec : EqDecision Preset.
Proof. solve_decision. Defined.

Definition parse_format (raw : bytes) : Result OutputFormat :=
  if bool_decide (raw = B "text") then Ok format_text
  else if bool_decide (raw = B "json") then Ok format_json
  else Err InvalidOption.

Definition parse_preset (raw : bytes) : Result Preset :=
  if bool_decide (raw = B "local-smoke") then Ok local_smoke
  else if bool_decide (raw = B "acceptance-smoke") then Ok acceptance_smoke
  else Err InvalidOption.

Definition preset_label (self : Preset) : bytes :=
  match self with local_smoke => B "local-smoke" | acceptance_smoke => B "acceptance-smoke" end.

Module Options.
Record t := mk { rows : Z; vectors : Z; dimensions : Z; operations : Z; format : OutputFormat; preset : option Preset }.
Definition init : t := mk 10000 1000 128 1000 format_text None.
End Options.

Definition presetOptions (p : Preset) : Options.t :=
  match p with
  | local_smoke => Options.mk 1000 256 16 100 format_text (Some p)
  | acceptance_smoke => Options.mk 2000 512 32 200 format_text (Some p)
  end.

Definition with_format (o : Options.t) (f : OutputFormat) : Options.t :=
  Options.mk (Options.rows o) (Options.vectors o) (Options.dimensions o) (Options.operations o) f (Options.preset o).

Definition applyPreset (options : Options.t) (preset : Preset) : Options.t :=
  with_format (presetOptions preset) (Options.format options).

Definition optionName (arg : bytes) : option bytes :=
  if bool_decide (arg ∈ [B "--rows"; B "--vectors"; B "--dimensions"; B "--operations"; B "--preset"; B "--format"])
  then Some arg else None.

Definition setOption (o : Options.t) (name raw_value : bytes) : Result Options.t :=
  if bool_decide (name = B "--preset") then p ← parse_preset raw_value; Ok (applyPreset o p)
  else if bool_decide (name = B "--format") then f ← parse_format raw_value; Ok (with_format o f)
  else
    parsed ← orelse (parse_int u64_max raw_value) InvalidOption;
    if bool_decide (name = B "--rows") then
      Ok (Options.mk parsed (Options.vectors o) (Options.dimensions o) (Options.operations o) (Options.format o) (Options.preset o))
    else if bool_decide (name = B "--vectors") then
      Ok (Options.mk (Options.rows o) parsed (Options.dimensions o) (Options.operations o) (Options.format o) (Options.preset o))
    else if bool_decide (name = B "--dimensions") then
      Ok (Options.mk (Options.rows o) (Options.vectors o) parsed (Options.operations o) (Options.format o) (Options.preset o))
    else if bool_decide (name = B "--operations") then
      Ok (Options.mk (Options.rows o) (Options.vectors o) (Options.dimensions o) parsed (Options.format o) (Options.preset o))
    else Err InvalidOption.

(** [None] for an argument that is not of the form [--name=value]. *)
Definition parseInlineOption (o : Options.t) (arg : bytes) : Result (option Options.t) :=
  if negb (starts_with arg (B "--")) then Ok None
  else match find_index (λ c, is_char c 61) arg with
       | None => Ok None
       | Some equals => Some <$> setOption o (take equals arg) (drop (S equals) arg)
       end.

Fixpoint parse_options (options : Options.t) (args : list bytes) : Result Options.t :=
  match args with
  | [] => Ok options
  | arg :: rest =>
      inline ← parseInlineOption options arg;
      match inline with
      | Some options => parse_options options rest
      | None =>
          name ← orelse (optionName arg) InvalidOption;
          match rest with
          | [] => Err MissingOptionValue
          | raw_value :: rest => options ← setOption options name raw_value; parse_options options rest
          end
      end
  end.

Definition parseOptions (args : list bytes) : Result Options.t := parse_options Options.init args.

Definition benchmark_printUsage : Cli () :=
  print [B "usage: shoveler benchmark [--preset local-smoke|acceptance-smoke] [--format text|json] [--rows N] [--vectors N] [--dimensions N] [--operations N]"; newline;
         B "       defaults: --rows 10000 --vectors 1000 --dimensions 128 --operations 1000"; newline].

(** ** benchmark_metrics.zig *)
Module AllocationStats.
Record t := mk { count : Z; total_bytes : Z }.
Definition init : t := mk 0 0.
End AllocationStats.

Definition usize_saturating_add (a b : Z) : Z := if decide (is_u64 (a + b)) then a + b else u64_max.

(** The counters of [CountingAllocator]; the allocator it wraps decides whether a call succeeds ([done]). *)
Module CountingAllocator.
Definition addBytes (self : AllocationStats.t) (n : Z) : AllocationStats.t :=
  AllocationStats.mk (AllocationStats.count self) (usize_saturating_add (AllocationStats.total_bytes self) n).

Definition alloc (self : AllocationStats.t) (len : Z) (done : bool) : AllocationStats.t :=
  if done then addBytes (AllocationStats.mk (usize_saturating_add (AllocationStats.count self) 1) (AllocationStats.total_bytes self)) len
  else self.

(** [resize] and [remap] *)
Definition resize (self : AllocationStats.t) (len new_len : Z) (done : bool) : AllocationStats.t :=
  if done then if len <? new_len then addBytes self (new_len - len) else self else self.

Definition free (self : AllocationStats.t) : AllocationStats.t := self.

Definition snapshot (self : AllocationStats.t) : AllocationStats.t := self.

Definition delta (self before : AllocationStats.t) : Result AllocationStats.t :=
  count ← checked_u64 (AllocationStats.count self - AllocationStats.count before);
  total ← checked_u64 (AllocationStats.total_bytes self - AllocationStats.total_bytes before);
  Ok (AllocationStats.mk count total).
End CountingAllocator.

(** [elapsed] is the duration in nanoseconds, an [i96]. *)
Module Metric.
Record t := mk { name : bytes; count : Z; elapsed : Z; allocations : AllocationStats.t }.
End Metric.

Module NearestSummary.
Record t := mk { key : Z; distance : Z }.
End NearestSummary.

Module BenchmarkConfig.
Record t := mk { preset : option bytes; rows : Z; vectors : Z; dimensions : Z; operations : Z }.
End BenchmarkConfig.

Module BenchmarkReport.
Record t := mk { config : BenchmarkConfig.t; metrics : list Metric.t; nearest : option NearestSummary.t }.
End BenchmarkReport.

Definition u128_max : Z := 2 ^ 128 - 1.

Definition computeThroughputPerSecond (count elapsed : Z) : Result Z :=
  if elapsed <=? 0 then Ok 0
  else
    let product := count * 1000000000 in
    if decide (0 ≤ product ≤ u128_max) then checked_u64 (Z.min (product / elapsed) u64_max) else Panic.

Section reports.
(** [{d}] of an [f64] *)
Context (show_float : Z → bytes).

Definition printMetric (metric : Metric.t) : Cli () :=
  throughput ← attempt (computeThroughputPerSecond (Metric.count metric) (Metric.elapsed metric));
  print [B "  "; Metric.name metric; B ":"; newline;
         B "    count: "; show_unsigned (Metric.count metric); newline;
         B "    elapsed_ns: "; show_int (Metric.elapsed metric); newline;
         B "    throughput_per_s: "; show_unsigned throughput; newline;
         B "    allocation_count: "; show_unsigned (AllocationStats.count (Metric.allocations metric)); newline;
         B "    allocation_bytes: "; show_unsigned (AllocationStats.total_bytes (Metric.allocations metric)); newline].

(** A [for] loop that writes. *)
Fixpoint for_each {A} (f : A → Cli ()) (items : list A) : Cli () :=
  match items with
  | [] => mret ()
  | a :: items' => f a ;; for_each f items'
  end.

Definition writeTextReport (report : BenchmarkReport.t) : Cli () :=
  let config := BenchmarkReport.config report in
  print [B "benchmark"; newline;
         B "  rows: "; show_unsigned (BenchmarkConfig.rows config); newline;
         B "  vectors: "; show_unsigned (BenchmarkConfig.vectors config); newline;
         B "  dimensions: "; show_unsigned (BenchmarkConfig.dimensions config); newline;
         B "  operations: "; show_unsigned (BenchmarkConfig.operations config); newline] ;;
  for_each printMetric (BenchmarkReport.metrics report) ;;
  match BenchmarkReport.nearest report with
  | Some nearest =>
      print [B "  nearest_key: "; show_unsigned (NearestSummary.key nearest); newline;
             B "  nearest_distance: "; show_float (NearestSummary.distance nearest); newline]
  | None => mret ()
  end.

Definition quote : bytes := [byte_of 34].

(** A member of a JSON object, with its comma. *)
Definition json_key (name : string) : bytes := quote ++ B name ++ quote ++ B ":".

Definition json_metric (metric : Metric.t) : Cli () :=
  throughput ← attempt (computeThroughputPerSecond (Metric.count metric) (Metric.elapsed metric));
  print [B "{"; json_key "name"; quote; Metric.name metric; quote; B ",";
         json_key "count"; show_unsigned (Metric.count metric); B ",";
         json_key "elapsed_ns"; show_int (Metric.elapsed metric); B ",";
         json_key "throughput_per_s"; show_unsigned throughput; B ",";
         json_key "allocation_count"; show_unsigned (AllocationStats.count (Metric.allocations metric)); B ",";
         json_key "allocation_bytes"; show_unsigned (AllocationStats.total_bytes (Metric.allocations metric)); B "}"].

(** The metrics from position [index] on. *)
Fixpoint json_metrics (index : nat) (metrics : list Metric.t) : Cli () :=
  match metrics with
  | [] => mret ()
  | metric :: rest =>
      (if (0 <? index)%nat then print [B ","] else mret ()) ;;
      json_metric metric ;;
      json_metrics (S index) rest
  end.

Definition writeJsonReport (report : BenchmarkReport.t) : Cli () :=
  let config := BenchmarkReport.config report in
  print [B "{"; json_key "benchmark"; B "{"; json_key "preset";
         match BenchmarkConfig.preset config with Some preset => quote ++ preset ++ quote | None => B "null" end; B ",";
         json_key "rows"; show_unsigned (BenchmarkConfig.rows config); B ",";
         json_key "vectors"; show_unsigned (BenchmarkConfig.vectors config); B ",";
         json_key "dimensions"; show_unsigned (BenchmarkConfig.dimensions config); B ",";
         json_key "operations"; show_unsigned (BenchmarkConfig.operations config);
         B "},"; json_key "metrics"; B "["] ;;
  json_metrics 0 (BenchmarkReport.metrics report) ;;
  print [B "],"; json_key "nearest"] ;;
  match BenchmarkReport.nearest report with
  | Some nearest =>
      print [B "{"; json_key "key"; show_unsigned (NearestSummary.key nearest); B ",";
             json_key "distance"; show_float (NearestSummary.distance nearest); B "}"]
  | None => print [B "null"]
  end ;;
  print [B "}"; newline].
End reports.

(** ** commands.zig *)
Module ClassificationSummary.
Record t := mk {
  files : nat; sacred : nat; adaptation : nat; rejected : nat; deferred : nat;
  statements : nat; accepted_statements : nat; rejected_statements : nat }.

Definition init : t := mk 0 0 0 0 0 0 0 0.

Definition add (self : t) (classification : Classification.t) (analysis : Analysis.t) : t :=
  let b := Classification.bucket classification in
  let one bucket n := match bucket, b with
                      | sacred_candidate, sacred_candidate | adaptation_candidate, adaptation_candidate
                      | rejected_by_policy, rejected_by_policy | deferred_candidate, deferred_candidate => S n
                      | _, _ => n
                      end in
  mk (S (files self)) (one sacred_candidate (sacred self)) (one adaptation_candidate (adaptation self))
     (one rejected_by_policy (rejected self)) (one deferred_candidate (deferred self))
     (statements self + Analysis.statements analysis) (accepted_statements self + Analysis.accepted_statements analysis)
     (rejected_statements self + Analysis.rejected_statements analysis).
End ClassificationSummary.

Definition printUsage : Cli () :=
  print [B "ShovelerDB: MariaDB-like SQL, implemented in Zig"; newline;
         B "usage: shoveler check-sql <sql>"; newline;
         B "       shoveler parse <sql>"; newline;
         B "       shoveler execute <sql> [sql...]"; newline;
         B "       shoveler analyze-test <path>"; newline;
         B "       shoveler classify-test <path> [path...]"; newline;
         B "       shoveler run-adapted-test <fixture.md>"; newline;
         B "       shoveler benchmark [--preset local-smoke|acceptance-smoke] [--format text|json] [--rows N] [--vectors N] [--dimensions N] [--operations N]"; newline].

(** The start of a command that needs an argument. *)
Definition first_argument (args : list bytes) (usage : string) : Cli bytes :=
  match args !! 2%nat with
  | Some arg => mret arg
  | None => print [B "usage: shoveler "; B usage; newline] ;; exit 64
  end.

Definition checkSql (args : list bytes) : Cli () :=
  sql ← first_argument args "check-sql <sql>";
  match firstViolation sql with
  | Some found =>
      print [B "rejected: "; PolicyViolation.message found; B " at byte "; show_nat (PolicyViolation.offset found);
             B " near `"; PolicyViolation.token found; B "`"; newline] ;;
      exit 2
  | None => print [B "accepted"; newline]
  end.

(** [@tagName(std.meta.activeTag(statement))] *)
Definition statement_tag (s : Statement.t) : bytes :=
  B match s with
  | Statement.create_table _ => "create_table" | Statement.drop_table _ => "drop_table" | Statement.insert _ => "insert"
  | Statement.select _ => "select" | Statement.update _ => "update" | Statement.delete _ => "delete"
  | Statement.begin => "begin" | Statement.commit => "commit" | Statement.rollback => "rollback"
  | Statement.create_view _ => "create_view" | Statement.drop_view _ => "drop_view"
  | Statement.create_procedure _ => "create_procedure" | Statement.drop_procedure _ => "drop_procedure"
  | Statement.call _ => "call"
  end%string.

Definition code_tag (c : DiagnosticCode) : bytes :=
  B match c with
  | policy_violation => "policy_violation" | unexpected_token => "unexpected_token" | unexpected_end => "unexpected_end"
  | invalid_number => "invalid_number" | unsupported_syntax => "unsupported_syntax"
  end%string.

Definition printParseDiagnostic (d : Diagnostic.t) : Cli () :=
  print [B "diagnostic: "; code_tag (Diagnostic.code d); B " at byte "; show_nat (Diagnostic.offset d)] ;;
  (if bool_decide (Diagnostic.token d = []) then mret () else print [B " near `"; Diagnostic.token d; B "`"]) ;;
  (if bool_decide (Diagnostic.expected d = []) then mret () else print [B " expected "; Diagnostic.expected d]) ;;
  match Diagnostic.policy_feature d with
  | Some feature => print [B " feature "; feature_label feature]
  | None => mret ()
  end ;;
  print [newline].

Definition parseSql (args : list bytes) : Cli () :=
  sql ← first_argument args "parse <sql>";
  match Parser.parse sql with
  | Some (inl statement) => print [B "statement: "; statement_tag statement; newline]
  | Some (inr diagnostic) => printParseDiagnostic diagnostic ;; exit 2
  | None => Wrote [] Crashed
  end.

Definition executor_tag (k : ExecutorDiagnosticKind) : bytes :=
  B match k with
  | ex_parse_diagnostic => "parse_diagnostic" | ex_duplicate_object => "duplicate_object" | ex_unknown_object => "unknown_object"
  | ex_name_conflict => "name_conflict" | ex_unknown_column => "unknown_column" | ex_ambiguous_column => "ambiguous_column"
  | ex_column_count_mismatch => "column_count_mismatch" | ex_transaction_required => "transaction_required"
  | ex_transaction_active => "transaction_active" | ex_no_active_transaction => "no_active_transaction"
  | ex_type_mismatch => "type_mismatch" | ex_invalid_grouping => "invalid_grouping"
  | ex_vector_dimension_mismatch => "vector_dimension_mismatch" | ex_invalid_vector_dimension => "invalid_vector_dimension"
  | ex_unsupported_expression => "unsupported_expression" | ex_unsupported_view => "unsupported_view"
  | ex_unsupported_procedure => "unsupported_procedure" | ex_transaction_closed => "transaction_closed"
  | ex_zero_vector => "zero_vector"
  end%string.

Definition mtr_tag (k : MtrDiagnosticKind) : bytes :=
  B match k with
  | mtr_missing_sql_block => "missing_sql_block" | mtr_unsupported_directive => "unsupported_directive"
  | mtr_expected_error_mismatch => "expected_error_mismatch" | mtr_unexpected_success => "unexpected_success"
  end%string.

Section commands.
(** [{d}] of an [f64] and of an [f32]. *)
Context (show_float show_float32 : Z → bytes) {allocator : Allocator}.

(** The components of a vector from position [index] on. *)
Fixpoint print_components (index : nat) (values : list Z) : Cli () :=
  match values with
  | [] => mret ()
  | component :: rest =>
      (if (0 <? index)%nat then print [B ","] else mret ()) ;; print [show_float32 component] ;; print_components (S index) rest
  end.

Definition printValue (v : Value.t) : Cli () :=
  match v with
  | Value.null => print [B "NULL"]
  | Value.integer v => print [show_int v]
  | Value.float v => print [show_float v]
  | Value.boolean v => print [if v then B "TRUE" else B "FALSE"]
  | Value.text v => print [B "'"; v; B "'"]
  | Value.blob v => print [B "<blob:"; show_nat (length v); B ">"]
  | Value.vector v => print [B "["] ;; print_components 0 (Vector.values v) ;; print [B "]"]
  end.

Definition print_row (row : list Value.t) : Cli () :=
  print [B "row:"] ;; for_each (λ v, print [B " "] ;; printValue v) row ;; print [newline].

Definition printExecutionResult (result : ExecutionResult.t) : Cli () :=
  match result with
  | ExecutionResult.ok => print [B "ok"; newline]
  | ExecutionResult.mutation_count count => print [B "mutated: "; show_unsigned count; newline]
  | ExecutionResult.result_set result_set =>
      print [B "columns:"] ;;
      for_each (λ column, print [B " "; column]) (ResultSet.columns result_set) ;;
      print [newline] ;;
      for_each print_row (ResultSet.rows result_set) ;;
      print [B "rows: "; show_nat (length (ResultSet.rows result_set)); newline]
  end.

(** The statements one after the other on one database and session. *)
Fixpoint execute_sqls (c : conn) (sqls : list bytes) : Cli () :=
  match sqls with
  | [] => mret ()
  | sql :: rest =>
      print [B "sql: "; sql; newline] ;;
      let '(c, r) := Executor.executeSql parse_statement parse_body sql c in
      match r with
      | Ok result => printExecutionResult result ;; execute_sqls c rest
      | Err err =>
          print [B "error: "; errorName err; newline] ;;
          match executor_diagnosticFromError err with
          | Some diagnostic => print [B "diagnostic: "; executor_tag diagnostic; newline]
          | None => mret ()
          end ;;
          exit 2
      | Panic => Wrote [] Crashed
      end
  end.

Definition executeSql (args : list bytes) : Cli () :=
  _ ← first_argument args "execute <sql> [sql...]";
  execute_sqls (Conn Database.init Session.init) (drop 2 args).

(** The files the program can read, and the faults of reading them. *)
Context (files : Dir) (fault : bytes → option Error).

Definition read_file (path : bytes) : Cli bytes :=
  attempt (readFileAlloc (fault path) path (100 * 1024 * 1024) (World files [])).1.

Definition print_violation (v : option StatementViolation.t) : Cli () :=
  match v with
  | Some found =>
      print [B "  first rejection: "; feature_label (StatementViolation.feature found); B " at line ";
             show_nat (StatementViolation.line found); B ", byte "; show_nat (StatementViolation.offset found); B ", near `";
             StatementViolation.tokenText found; B "`"; newline]
  | None => mret ()
  end.

Definition analyzeTest (args : list bytes) : Cli () :=
  path ← first_argument args "analyze-test <path>";
  contents ← read_file path;
  let analysis := analyze contents in
  print [path; newline;
         B "  statements: "; show_nat (Analysis.statements analysis); newline;
         B "  accepted: "; show_nat (Analysis.accepted_statements analysis); newline;
         B "  rejected: "; show_nat (Analysis.rejected_statements analysis); newline;
         B "  directives: "; show_nat (Analysis.directives analysis); newline;
         B "  harness commands: "; show_nat (Analysis.harness_commands analysis); newline;
         B "  expected errors: "; show_nat (Analysis.expected_errors analysis); newline;
         B "  delimiter changes: "; show_nat (Analysis.delimiter_changes analysis); newline] ;;
  (if Analysis.unterminated_statement analysis then print [B "  warning: unterminated statement"; newline] else mret ()) ;;
  print_violation (Analysis.first_violation analysis).

Definition print_statement_counts (accepted rejected total : nat) : Cli () :=
  print [B "  statements: "; show_nat accepted; B " accepted, "; show_nat rejected; B " rejected, "; show_nat total; B " total"; newline].

Definition printClassificationSummary (summary : ClassificationSummary.t) : Cli () :=
  print [newline; B "summary"; newline;
         B "  files: "; show_nat (ClassificationSummary.files summary); newline;
         B "  sacred-candidate: "; show_nat (ClassificationSummary.sacred summary); newline;
         B "  adaptation-candidate: "; show_nat (ClassificationSummary.adaptation summary); newline;
         B "  rejected-by-policy: "; show_nat (ClassificationSummary.rejected summary); newline;
         B "  deferred-candidate: "; show_nat (ClassificationSummary.deferred summary); newline] ;;
  print_statement_counts (ClassificationSummary.accepted_statements summary) (ClassificationSummary.rejected_statements summary)
    (ClassificationSummary.statements summary).

Fixpoint classify_files (summary : ClassificationSummary.t) (paths : list bytes) : Cli ClassificationSummary.t :=
  match paths with
  | [] => mret summary
  | path :: rest =>
      contents ← read_file path;
      let analysis := analyze contents in
      let classification := classify analysis in
      print [path; B ": "; bucket_label (Classification.bucket classification); newline;
             B "  reason: "; Classification.reason classification; newline] ;;
      print_statement_counts (Analysis.accepted_statements analysis) (Analysis.rejected_statements analysis)
        (Analysis.statements analysis) ;;
      print_violation (Analysis.first_violation analysis) ;;
      classify_files (ClassificationSummary.add summary classification analysis) rest
  end.

Definition classifyTests (args : list bytes) : Cli () :=
  _ ← first_argument args "classify-test <path> [path...]";
  summary ← classify_files ClassificationSummary.init (drop 2 args);
  if (3 <? length args)%nat then printClassificationSummary summary else mret ().

Definition runAdaptedTest (args : list bytes) : Cli () :=
  path ← first_argument args "run-adapted-test <fixture.md>";
  contents ← read_file path;
  match runMarkdownFixture parse_statement parse_body contents with
  | Ok summary =>
      print [path; newline;
             B "  statements: "; show_nat (RunSummary.statements summary); newline;
             B "  executed: "; show_nat (RunSummary.executed summary); newline;
             B "  expected errors: "; show_nat (RunSummary.expected_errors summary); newline]
  | Err err =>
      print [B "fixture error: "; errorName err; newline] ;;
      match mtr_diagnosticFromError err with
      | Some diagnostic => print [B "diagnostic: "; mtr_tag diagnostic; newline]
      | None => mret ()
      end ;;
      exit 2
  | Panic => Wrote [] Crashed
  end.

(** What the workloads of [benchmark.run] measured for the given options, or the error one of them failed with. *)
Context (measure : Options.t → Result (list Metric.t * option NearestSummary.t)).

Definition benchmark_report (options : Options.t) (metrics : list Metric.t) (nearest : option NearestSummary.t) : BenchmarkReport.t :=
  BenchmarkReport.mk
    (BenchmarkConfig.mk (preset_label <$> Options.preset options) (Options.rows options) (Options.vectors options)
       (Options.dimensions options) (Options.operations options))
    metrics nearest.

Definition benchmark_run (options : Options.t) : Result (list Metric.t * option NearestSummary.t) :=
  if (Options.rows options =? 0) || (Options.vectors options =? 0) || (Options.dimensions options =? 0) ||
     (Options.operations options =? 0)
  then Err InvalidOption
  else measure options.

Definition runBenchmark (args : list bytes) : Cli () :=
  match parseOptions (drop 2 args) with
  | Panic => Wrote [] Crashed
  | Err err =>
      print [B "benchmark option error: "; errorName err; newline] ;; benchmark_printUsage ;; exit 64
  | Ok options =>
      match benchmark_run options with
      | Ok (metrics, nearest) =>
          let report := benchmark_report options metrics nearest in
          match Options.format options with
          | format_text => writeTextReport show_float report
          | format_json => writeJsonReport show_float report
          end
      | Err err => print [B "benchmark error: "; errorName err; newline] ;; exit 2
      | Panic => Wrote [] Crashed
      end
  end.

(** The program; [args] starts with its name. *)
Definition run (args : list bytes) : Cli () :=
  match args !! 1%nat with
  | None => printUsage
  | Some command =>
      if bool_decide (command = B "check-sql") then checkSql args
      else if bool_decide (command = B "parse") then parseSql args
      else if bool_decide (command = B "execute") then executeSql args
      else if bool_decide (command = B "analyze-test") then analyzeTest args
      else if bool_decide (command = B "classify-test") then classifyTests args
      else if bool_decide (command = B "run-adapted-test") then runAdaptedTest args
      else if bool_decide (command = B "benchmark") then runBenchmark args
      else print [B "unknown command: "; command; newline] ;; exit 64
  end.
End commands.
