(* ===== verification/CliFacts.v ===== *)
(** * The command line: theorems

    Options written out are read back; the throughput that a report shows is exact; the counters of the allocator never run
    backwards; and the exit status of each command says what the component behind it decided. *)

From S2P Require Import Prelude Numeral Value Storage Tokenizer Policy Ast Parser ParserFacts ProcedureBody Executor TestImport TestImportFacts Cli.

(** ** Decimal numbers *)

Lemma byte_val_digit d : 0 ≤ d < 10 → byte_val (byte_of (48 + d)) = 48 + d.
Proof. intros H. rewrite byte_of_val. apply Z.mod_small. lia. Qed.

Lemma digit_read d : 0 ≤ d < 10 → digit_value 10 (byte_of (48 + d)) = Some d ∧ is_underscore (byte_of (48 + d)) = false.
Proof.
  intros H. unfold digit_value, is_underscore, isDigit, isUpper, isLower. rewrite byte_val_digit by done.
  rewrite (proj2 (Z.leb_le 48 (48 + d))), (proj2 (Z.leb_le (48 + d) 57)) by lia. cbn [andb].
  replace (48 + d - 48) with d by lia. rewrite (proj2 (Z.ltb_lt d 10)) by lia. split; [done|]. apply Z.eqb_neq. lia.
Qed.

Lemma show_digits_read max fuel n acc :
  0 ≤ n ≤ max → n < 2 ^ Z.of_nat fuel → (0 < fuel)%nat → int_loop max 0 (show_digits fuel n acc) = int_loop max n acc.
Proof.
  revert n acc. induction fuel as [|fuel IH]; intros n acc Hn Hf Hp; [lia|]. cbn [show_digits].
  pose proof (Z.mod_pos_bound n 10 ltac:(lia)) as Hm. pose proof (Z.div_mod n 10 ltac:(lia)) as Hd.
  destruct (digit_read (n mod 10) Hm) as [Hr Hu]. destruct (Z.ltb_spec n 10) as [Hs|Hs].
  - cbn [int_loop]. rewrite Hu, Hr. replace (0 * 10 + n mod 10) with n by (rewrite Z.mod_small; lia).
    by rewrite (proj2 (Z.leb_le n max)) by lia.
  - rewrite Nat2Z.inj_succ, Z.pow_succ_r in Hf by lia. assert (fuel ≠ 0%nat) by (intros ->; cbn in Hf; lia).
    rewrite IH by lia. cbn [int_loop]. rewrite Hu, Hr. replace (n / 10 * 10 + n mod 10) with n by lia.
    by rewrite (proj2 (Z.leb_le n max)) by lia.
Qed.

Lemma show_digits_plain fuel n acc :
  Forall (λ c, is_underscore c = false) acc → Forall (λ c, is_underscore c = false) (show_digits fuel n acc).
Proof.
  revert n acc. induction fuel as [|fuel IH]; intros n acc H; [done|]. cbn [show_digits].
  assert (Forall (λ c, is_underscore c = false) (byte_of (48 + n mod 10) :: acc)).
  { constructor; [|done]. apply digit_read, Z.mod_pos_bound. lia. }
  destruct (n <? 10); auto.
Qed.

Lemma show_digits_nonempty fuel n acc : acc ≠ [] ∨ (0 < fuel)%nat → show_digits fuel n acc ≠ [].
Proof.
  revert n acc. induction fuel as [|fuel IH]; intros n acc H; [destruct H; [done|lia]|]. cbn [show_digits].
  destruct (n <? 10); [done|]. apply IH. by left.
Qed.

(** A number written in decimal is read back. *)
Lemma show_read max n : 0 ≤ n ≤ max → parse_int max (show_unsigned n) = Some n.
Proof.
  intros Hn. unfold parse_int, show_unsigned. pose proof (show_digits_plain (S (Z.to_nat (Z.log2 n))) n [] (Forall_nil_2 _)) as Hp.
  pose proof (show_digits_nonempty (S (Z.to_nat (Z.log2 n))) n [] ltac:(right; lia)) as Hne.
  pose proof (show_digits_read max (S (Z.to_nat (Z.log2 n))) n [] Hn) as Hr.
  destruct (show_digits _ n []) as [|c s]; [done|]. destruct (last (c :: s)) as [d|] eqn:El; [|by apply last_None in El].
  rewrite Forall_forall in Hp. rewrite (Hp c), (Hp d); [|by apply last_Some_elem_of|by left]. cbn [orb].
  rewrite Hr; [done| |lia]. rewrite Nat2Z.inj_succ, Z2Nat.id by apply Z.log2_nonneg.
  destruct (decide (n = 0)) as [->|]; [done|]. apply Z.log2_spec. lia.
Qed.

(** ** Options *)

(** An option as one argument or as two. *)
Definition written (inline : bool) (name value : bytes) : list bytes :=
  if inline then [name ++ B "=" ++ value] else [name; value].

Definition format_label (f : OutputFormat) : bytes := match f with format_text => B "text" | format_json => B "json" end.

(** Options as arguments; [inline] chooses the form of each. *)
Definition write_options (inline : bytes → bool) (o : Options.t) : list bytes :=
  let w name value := written (inline name) name value in
  match Options.preset o with Some p => w (B "--preset") (preset_label p) | None => [] end ++
  w (B "--rows") (show_unsigned (Options.rows o)) ++ w (B "--vectors") (show_unsigned (Options.vectors o)) ++
  w (B "--dimensions") (show_unsigned (Options.dimensions o)) ++ w (B "--operations") (show_unsigned (Options.operations o)) ++
  w (B "--format") (format_label (Options.format o)).

Definition usize_options (o : Options.t) : Prop :=
  is_u64 (Options.rows o) ∧ is_u64 (Options.vectors o) ∧ is_u64 (Options.dimensions o) ∧ is_u64 (Options.operations o).

(** The argument before an option's value has no equals sign. *)
Lemma inline_option o name value :
  optionName name = Some name → parseInlineOption o (name ++ B "=" ++ value) = Some <$> setOption o name value ∧
  parseInlineOption o name = Ok None.
Proof.
  unfold optionName. case_bool_decide as Hn; [|done]. intros _.
  assert (Hs : starts_with name (B "--") = true ∧ find_index (λ c, is_char c 61) name = None ∧
               ∀ v, starts_with (name ++ v) (B "--") = true).
  { repeat (apply elem_of_cons in Hn as [->|Hn]); try by inversion Hn.
    all: split_and!; [done|done|intros v; by apply bool_decide_eq_true; apply prefix_app_r; eexists]. }
  destruct Hs as (H1 & H2 & H3). unfold parseInlineOption. rewrite H1, H2, H3. cbn [negb]. split; [|done].
  rewrite find_index_app, H2. cbn. rewrite Nat.add_0_r. rewrite take_app_length, drop_app_ge by lia.
  by replace (S (length name) - length name)%nat with 1%nat by lia.
Qed.

Lemma parse_written inline o name value rest :
  optionName name = Some name →
  parse_options o (written inline name value ++ rest) = (o' ← setOption o name value; parse_options o' rest).
Proof.
  intros Hn. destruct (inline_option o name value Hn) as [H1 H2]. unfold written. destruct inline; cbn [app parse_options].
  - rewrite H1. by destruct (setOption o name value).
  - rewrite H2. cbn. by rewrite Hn.
Qed.

Lemma set_rows o n : is_u64 n → setOption o (B "--rows") (show_unsigned n) =
  Ok (Options.mk n (Options.vectors o) (Options.dimensions o) (Options.operations o) (Options.format o) (Options.preset o)).
Proof. intros H. unfold setOption. by rewrite show_read. Qed.

Lemma set_vectors o n : is_u64 n → setOption o (B "--vectors") (show_unsigned n) =
  Ok (Options.mk (Options.rows o) n (Options.dimensions o) (Options.operations o) (Options.format o) (Options.preset o)).
Proof. intros H. unfold setOption. by rewrite show_read. Qed.

Lemma set_dimensions o n : is_u64 n → setOption o (B "--dimensions") (show_unsigned n) =
  Ok (Options.mk (Options.rows o) (Options.vectors o) n (Options.operations o) (Options.format o) (Options.preset o)).
Proof. intros H. unfold setOption. by rewrite show_read. Qed.

Lemma set_operations o n : is_u64 n → setOption o (B "--operations") (show_unsigned n) =
  Ok (Options.mk (Options.rows o) (Options.vectors o) (Options.dimensions o) n (Options.format o) (Options.preset o)).
Proof. intros H. unfold setOption. by rewrite show_read. Qed.

Lemma set_format o f : setOption o (B "--format") (format_label f) = Ok (with_format o f).
Proof. by destruct f. Qed.

Lemma set_preset o p : setOption o (B "--preset") (preset_label p) = Ok (applyPreset o p).
Proof. by destruct p. Qed.

(** Benchmark options written as arguments, each as one argument or as two, are read back, also when a preset sets the
    numbers first. *)
Theorem options_roundtrip (inline : bytes → bool) (o : Options.t) :
  usize_options o → parseOptions (write_options inline o) = Ok o.
Proof.
  intros (H1 & H2 & H3 & H4). unfold parseOptions, write_options.
  assert (Hnum : ∀ s, Options.preset s = Options.preset o →
            parse_options s (written (inline (B "--rows")) (B "--rows") (show_unsigned (Options.rows o)) ++
              written (inline (B "--vectors")) (B "--vectors") (show_unsigned (Options.vectors o)) ++
              written (inline (B "--dimensions")) (B "--dimensions") (show_unsigned (Options.dimensions o)) ++
              written (inline (B "--operations")) (B "--operations") (show_unsigned (Options.operations o)) ++
              written (inline (B "--format")) (B "--format") (format_label (Options.format o))) = Ok o).
  { intros s Hs. rewrite parse_written, set_rows by done. cbn [mbind result_bind].
    rewrite parse_written, set_vectors by done. cbn [mbind result_bind].
    rewrite parse_written, set_dimensions by done. cbn [mbind result_bind].
    rewrite parse_written, set_operations by done. cbn [mbind result_bind].
    rewrite <-(app_nil_r (written _ (B "--format") _)), parse_written, set_format by done. cbn. rewrite Hs. by destruct o. }
  destruct (Options.preset o) as [p|] eqn:Ep; [|by apply Hnum].
  rewrite parse_written, set_preset by done. cbn [mbind result_bind]. apply Hnum. by destruct p.
Qed.

Lemma options_roundtrip_witness :
  parseOptions [B "--preset=local-smoke"; B "--rows"; B "25"; B "--vectors=7"; B "--dimensions"; B "3"; B "--operations"; B "18446744073709551615";
                B "--format=json"] = Ok (Options.mk 25 7 3 u64_max format_json (Some local_smoke)).
Proof.
  set (o := Options.mk 25 7 3 u64_max format_json (Some local_smoke)).
  rewrite <-(options_roundtrip (λ name, bool_decide (name ∈ [B "--preset"; B "--vectors"; B "--format"])) o) by (by repeat split).
  f_equal.
Defined.

(** ** Measurements *)

(** The throughput of a report never overflows; it is the rate rounded down, or the largest [u64] where that is smaller. *)
Theorem throughput_exact (count elapsed : Z) :
  is_u64 count → computeThroughputPerSecond count elapsed =
    Ok (if elapsed <=? 0 then 0 else Z.min (count * 1000000000 / elapsed) u64_max).
Proof.
  unfold is_u64, u64_max. intros Hc. unfold computeThroughputPerSecond. destruct (Z.leb_spec elapsed 0); [done|].
  rewrite decide_True by (unfold u128_max; lia). apply checked_u64_in. unfold is_u64, u64_max.
  pose proof (Z.div_pos (count * 1000000000) elapsed ltac:(lia) ltac:(lia)). lia.
Qed.

(** The calls an allocator gets. *)
Inductive allocator_call := Alloc (len : Z) (done : bool) | Resize (len new_len : Z) (done : bool) | Free.

Definition count_call (s : AllocationStats.t) (c : allocator_call) : AllocationStats.t :=
  match c with
  | Alloc len done => CountingAllocator.alloc s len done
  | Resize len new_len done => CountingAllocator.resize s len new_len done
  | Free => CountingAllocator.free s
  end.

Definition sized (c : allocator_call) : Prop :=
  match c with Alloc len _ => is_u64 len | Resize len new_len _ => is_u64 len ∧ is_u64 new_len | Free => True end.

Definition stats_ok (s : AllocationStats.t) : Prop := is_u64 (AllocationStats.count s) ∧ is_u64 (AllocationStats.total_bytes s).

Lemma saturating_bounds a b : is_u64 a → 0 ≤ b → a ≤ usize_saturating_add a b ∧ is_u64 (usize_saturating_add a b).
Proof. unfold usize_saturating_add, is_u64, u64_max. intros Ha Hb. case_decide; lia. Qed.

Lemma count_call_grows s c :
  stats_ok s → sized c → stats_ok (count_call s c) ∧
  AllocationStats.count s ≤ AllocationStats.count (count_call s c) ∧
  AllocationStats.total_bytes s ≤ AllocationStats.total_bytes (count_call s c).
Proof.
  intros [H1 H2] Hc. unfold stats_ok. destruct c as [len [|]|len new_len [|]|]; cbn [count_call sized] in *;
    unfold CountingAllocator.alloc, CountingAllocator.resize, CountingAllocator.free; cbn [CountingAllocator.addBytes AllocationStats.count AllocationStats.total_bytes];
    unfold is_u64 in *; try lia.
  - destruct (saturating_bounds _ 1 H1 ltac:(lia)), (saturating_bounds _ len H2 ltac:(lia)). unfold is_u64 in *. lia.
  - destruct (Z.ltb_spec len new_len); cbn; [|lia].
    destruct (saturating_bounds _ (new_len - len) H2 ltac:(lia)). unfold is_u64 in *. lia.
Qed.

(** What was allocated since a snapshot can be told after any calls: the counters do not run backwards. *)
Theorem delta_defined (calls : list allocator_call) (s : AllocationStats.t) :
  stats_ok s → Forall sized calls → ∃ d, CountingAllocator.delta (foldl count_call s calls) (CountingAllocator.snapshot s) = Ok d.
Proof.
  intros Hs Hc. assert (H : stats_ok (foldl count_call s calls) ∧
    AllocationStats.count s ≤ AllocationStats.count (foldl count_call s calls) ∧
    AllocationStats.total_bytes s ≤ AllocationStats.total_bytes (foldl count_call s calls)).
  { revert s Hs. induction Hc as [|c calls Hc _ IH]; intros s Hs; cbn; [repeat split; apply Hs || lia|].
    destruct (count_call_grows s c Hs Hc) as (G1 & G2 & G3). destruct (IH _ G1) as (? & ? & ?). split; [done|lia]. }
  destruct H as ([H1 H2] & H3 & H4), Hs as [H5 H6]. unfold CountingAllocator.delta, CountingAllocator.snapshot.
  unfold is_u64 in *. rewrite !checked_u64_in by (unfold is_u64; lia). cbn. by eexists.
Qed.

(** ** Exit statuses *)

Lemma Cli_bind_ended {A C} (m : Cli A) (k : A → Cli C) :
  ended (m ≫= k) = match ended m with
                   | Returned a => ended (k a) | Exited code => Exited code | Raised e => Raised e | Crashed => Crashed
                   end.
Proof. unfold mbind, Cli_bind. by destruct (ended m). Qed.

(** Commands that only write. *)
Definition writes (m : Cli ()) : Prop := ended m = Returned ().

Create HintDb cli.

Lemma writes_print pieces : writes (print pieces).
Proof. done. Qed.
Lemma writes_ret : writes (mret ()).
Proof. done. Qed.
Lemma writes_bind (m k : Cli ()) : writes m → writes k → writes (m ;; k).
Proof. unfold writes. intros Hm Hk. by rewrite Cli_bind_ended, Hm. Qed.
Lemma writes_for_each {A} (f : A → Cli ()) items : (∀ a, writes (f a)) → writes (for_each f items).
Proof. intros Hf. induction items as [|a items IH]; [done|]. by apply writes_bind. Qed.
Lemma writes_if (b : bool) (m k : Cli ()) : writes m → writes k → writes (if b then m else k).
Proof. by destruct b. Qed.
#[export] Hint Resolve writes_print writes_ret writes_bind writes_for_each writes_if : cli.

Lemma ended_then {A} (m : Cli ()) (k : Cli A) : writes m → ended (m ;; k) = ended k.
Proof. unfold writes. intros H. by rewrite Cli_bind_ended, H. Qed.

Lemma writes_components sf i vs : writes (print_components sf i vs).
Proof. revert i. induction vs as [|v vs IH]; intros i; [done|]. cbn [print_components]. apply writes_bind; [by apply writes_if|]. by apply writes_bind. Qed.
#[export] Hint Resolve writes_components : cli.

Lemma writes_value sf sf32 v : writes (printValue sf sf32 v).
Proof. destruct v; cbn [printValue]; auto with cli. Qed.
#[export] Hint Resolve writes_value : cli.

Lemma writes_row sf sf32 row : writes (print_row sf sf32 row).
Proof. unfold print_row. auto with cli. Qed.
#[export] Hint Resolve writes_row : cli.

Lemma writes_result sf sf32 r : writes (printExecutionResult sf sf32 r).
Proof. destruct r; cbn [printExecutionResult]; auto 10 with cli. Qed.

Lemma writes_diagnostic d : writes (printParseDiagnostic d).
Proof. unfold printParseDiagnostic. destruct (Diagnostic.policy_feature d); auto 10 with cli. Qed.

(** How a run of statements ends. *)
Definition status_of {A} (r : Result A) : status () :=
  match r with Ok _ => Returned () | Err _ => Exited 2 | Panic => Crashed end.

Lemma execute_status sf sf32 sqls c :
  ended (execute_sqls sf sf32 c sqls) = status_of (run_steps parse_statement parse_body ((λ sql, Step sql None) <$> sqls) c).2.
Proof.
  revert c. induction sqls as [|sql sqls IH]; intros c; [done|]. cbn [fmap list_fmap execute_sqls run_steps TestImportFacts.sql expect].
  rewrite ended_then by done. destruct (Executor.executeSql _ _ _ _) as [c' [r|e|]]; cbn [verdict]; [| |done].
  - by rewrite ended_then by apply writes_result.
  - rewrite ended_then by done. rewrite ended_then; [done|]. by destruct (executor_diagnosticFromError e).
Qed.

(** A text that the policy refuses is a diagnostic for the parser. *)
Lemma refused_not_parsed sql : accepts sql = false → parse_statement sql = None.
Proof.
  unfold accepts, parse_statement, Parser.parse. rewrite bool_decide_eq_false. by destruct (firstViolation sql).
Qed.

Lemma parse_status sql : ended (parseSql [B "shoveler"; B "parse"; sql]) = match parse_statement sql with Some _ => Returned () | None => Exited 2 end.
Proof.
  unfold parseSql, first_argument. cbn [lookup list_lookup]. rewrite Cli_bind_ended. cbn [ended mret Cli_ret].
  unfold parse_statement. destruct (parse_ends sql) as ([s|d] & -> & _); [done|]. by rewrite ended_then by apply writes_diagnostic.
Qed.

Lemma check_status sql : ended (checkSql [B "shoveler"; B "check-sql"; sql]) = if accepts sql then Returned () else Exited 2.
Proof.
  unfold checkSql, first_argument, accepts. cbn [lookup list_lookup]. rewrite Cli_bind_ended. cbn [ended mret Cli_ret].
  destruct (firstViolation sql) as [v|]; [by rewrite bool_decide_eq_false_2|by rewrite bool_decide_eq_true_2].
Qed.

Section statuses.
Context (show_float show_float32 : Z → bytes) (files : Dir) (fault : bytes → option Error).
Context (measure : Options.t → Result (list Metric.t * option NearestSummary.t)) {allocator : Allocator}.

Local Notation shoveler := (Cli.run show_float show_float32 files fault measure).

(** C40: the exit status of a command says what the component behind it decided: [check-sql] succeeds exactly on what the policy
    accepts, [parse] on what the parser makes a statement of, [execute] if every statement succeeds on the database the ones before
    it left, and a test is run as [mtr_lite] runs it; what [check-sql] refuses, [parse] and [execute] refuse. *)
Theorem commands_report (sql : bytes) (sqls : list bytes) (path contents : bytes) :
  fault path = None → files !! path = Some contents → Z.of_nat (length contents) < 104857600 →
  ended (shoveler [B "shoveler"; B "check-sql"; sql]) = (if accepts sql then Returned () else Exited 2) ∧
  ended (shoveler [B "shoveler"; B "parse"; sql]) = match parse_statement sql with Some _ => Returned () | None => Exited 2 end ∧
  ended (shoveler (B "shoveler" :: B "execute" :: sql :: sqls)) =
    status_of (run_steps parse_statement parse_body ((λ sql, Step sql None) <$> sql :: sqls) (Conn Database.init Session.init)).2 ∧
  ended (shoveler [B "shoveler"; B "run-adapted-test"; path]) = status_of (runMarkdownFixture parse_statement parse_body contents) ∧
  (accepts sql = false → ended (shoveler [B "shoveler"; B "parse"; sql]) = Exited 2 ∧
     ended (shoveler (B "shoveler" :: B "execute" :: sql :: sqls)) = Exited 2).
Proof.
  intros Hf Hfile Hlen.
  assert (Hparse : ended (shoveler [B "shoveler"; B "parse"; sql]) = match parse_statement sql with Some _ => Returned () | None => Exited 2 end)
    by exact (parse_status sql).
  assert (Hexec : ended (shoveler (B "shoveler" :: B "execute" :: sql :: sqls)) =
    status_of (run_steps parse_statement parse_body ((λ sql, Step sql None) <$> sql :: sqls) (Conn Database.init Session.init)).2)
    by exact (execute_status _ _ (sql :: sqls) _).
  split_and!; [|done|done| |].
  - exact (check_status sql).
  - change (ended (runAdaptedTest files fault [B "shoveler"; B "run-adapted-test"; path]) =
            status_of (runMarkdownFixture parse_statement parse_body contents)).
    unfold runAdaptedTest, read_file, readFileAlloc. cbn [first_argument lookup list_lookup]. rewrite Cli_bind_ended. cbn [ended mret Cli_ret].
    rewrite Cli_bind_ended. cbn [dir]. rewrite Hf, Hfile, (proj2 (Z.leb_gt _ _)) by lia. cbn [attempt fst ended mret Cli_ret].
    destruct (runMarkdownFixture _ _ _) as [s|e|]; [done| |done]. rewrite ended_then by done. rewrite ended_then; [done|].
    by destruct (mtr_diagnosticFromError e).
  - intros Ha. rewrite Hparse, Hexec, refused_not_parsed by done. split; [done|]. cbn [fmap list_fmap run_steps TestImportFacts.sql].
    unfold Executor.executeSql. by rewrite refused_not_parsed.
Qed.
End statuses.

#[local] Existing Instance in_place.

Lemma commands_report_witness :
  let shoveler := Cli.run (λ _, B "0") (λ _, B "0") {[ B "t.md" := document sample_document [] ]} (λ _, None) (λ _, Err InvalidBenchmarkState) in
  ended (shoveler [B "shoveler"; B "check-sql"; B "GRANT ALL"]) = Exited 2 ∧
  ended (shoveler [B "shoveler"; B "execute"; B "GRANT ALL"; B "BEGIN"]) = Exited 2 ∧
  ended (shoveler [B "shoveler"; B "run-adapted-test"; B "t.md"]) = Returned ().
Proof.
  cbn zeta.
  destruct (commands_report (λ _, B "0") (λ _, B "0") {[ B "t.md" := document sample_document [] ]} (λ _, None) (λ _, Err InvalidBenchmarkState)
              (B "GRANT ALL") [B "BEGIN"] (B "t.md") (document sample_document [])) as (H1 & _ & _ & H4 & H5); [done|done|by vm_compute|].
  split; [rewrite H1; by vm_compute|]. split; [apply H5; by vm_compute|]. rewrite H4. by vm_compute.
Defined.

(** ** Totals *)

(** The totals of a summary: every file is in one bucket, every statement accepted or rejected. *)
Definition totals (s : ClassificationSummary.t) : Prop :=
  ClassificationSummary.files s = (ClassificationSummary.sacred s + ClassificationSummary.adaptation s +
    ClassificationSummary.rejected s + ClassificationSummary.deferred s)%nat ∧
  ClassificationSummary.statements s =
    (ClassificationSummary.accepted_statements s + ClassificationSummary.rejected_statements s)%nat.

Lemma add_totals s contents :
  totals s → totals (ClassificationSummary.add s (classify (analyze contents)) (analyze contents)).
Proof.
  intros [H1 H2]. destruct (analysis_counts contents) as [E _ _ _ _]. split; cbn; [|lia].
  destruct (Classification.bucket (classify (analyze contents))); cbn; lia.
Qed.

(** Whatever files are classified, the totals that are printed are consistent and count every file. *)
Theorem classification_totals (files : Dir) (fault : bytes → option Error) (paths : list bytes) (s : ClassificationSummary.t) :
  ended (classify_files files fault ClassificationSummary.init paths) = Returned s →
  totals s ∧ ClassificationSummary.files s = length paths.
Proof.
  assert (H : ∀ s0, totals s0 → ended (classify_files files fault s0 paths) = Returned s →
                totals s ∧ ClassificationSummary.files s = (ClassificationSummary.files s0 + length paths)%nat).
  { induction paths as [|path paths IH]; intros s0 H0; cbn [classify_files].
    - intros [= <-]. split; [done|cbn; lia].
    - rewrite Cli_bind_ended. destruct (ended (read_file files fault path)) as [contents| | |]; try done.
      rewrite ended_then by done. rewrite ended_then by done. rewrite ended_then by (by destruct (Analysis.first_violation _)).
      intros H. apply IH in H as [Ht Hn]; [|by apply add_totals]. split; [done|]. rewrite Hn. cbn. lia. }
  apply H. by split.
Qed.
