(* ===== verification/BenchmarkWorkloads.v ===== *)
(** * The persistence workload of the benchmark

    Models [src/src/cli/benchmark_workloads.zig]: the names of the metrics, the checks that a group of them is present, and
    the workload that fills a table through the embedded database handle, closes it, opens it again and looks at what came
    back.  The directory it works in is the world of [Storage]; the faults of its calls are arguments. *)

From stdpp Require Import gmap.
From S2P Require Import Prelude Float Value Catalog CatalogFacts TableFacts RowStore Transaction Persistence PersistenceFacts Storage Database Cli.

(** ** Names *)
Module metric_names.
Definition insert_commit : bytes := B "insert_commit".
Definition select_scan : bytes := B "select_scan".
Definition grouped_scan : bytes := B "grouped_scan".
Definition joined_filter : bytes := B "joined_filter".
Definition rollback_updates : bytes := B "rollback_updates".
Definition exact_vector_scan : bytes := B "exact_vector_scan".
Definition sql_vector_rank : bytes := B "sql_vector_rank".
Definition point_lookup : bytes := B "point_lookup".
Definition hybrid_filter_vector_rank : bytes := B "hybrid_filter_vector_rank".
Definition persistence_checkpoint_reopen : bytes := B "persistence_checkpoint_reopen".
Definition snapshot_begin : bytes := B "snapshot_begin".
Definition queued_commit : bytes := B "queued_commit".
Definition concurrent_read_write : bytes := B "concurrent_read_write".
Definition checkpoint_overlap : bytes := B "checkpoint_overlap".
Definition vector_overlay_visibility : bytes := B "vector_overlay_visibility".
End metric_names.

Definition missing_workload_metric_names : list bytes :=
  [metric_names.point_lookup; metric_names.hybrid_filter_vector_rank; metric_names.persistence_checkpoint_reopen].

Definition phase6_metric_names : list bytes :=
  [metric_names.snapshot_begin; metric_names.queued_commit; metric_names.concurrent_read_write;
   metric_names.checkpoint_overlap; metric_names.vector_overlay_visibility].

Definition hasMetric (metrics : list Metric.t) (name : bytes) : bool :=
  existsb (λ metric, bool_decide (Metric.name metric = name)) metrics.

Definition hasAllMetrics (metrics : list Metric.t) (names : list bytes) : bool := forallb (hasMetric metrics) names.

(** ** The workload *)

(** [@floatFromInt] to an [f32]; the numbers here are small, so going through [f64] rounds nothing. *)
Definition f32_of_int (n : Z) : Z := f32_of_f64 (f64_of_int n).

(** [value.text]: reading another field of the union than the active one is a safety panic. *)
Definition text_of (v : Value.t) : Result bytes := match v with Value.text s => Ok s | _ => Panic end.

Definition memories_spec : TableSpec.t :=
  TableSpec.mk (B "memories")
    [ColumnSpec.mk (B "id") ColumnType.integer false None false false;
     ColumnSpec.mk (B "body") ColumnType.text false None false false;
     ColumnSpec.mk (B "embedding") (ColumnType.vector (VectorType.mk float32 2)) false None false false] [].

(** The values of the row that iteration [index] inserts. *)
Definition memory_row (index : Z) : Result (list Value.t) :=
  embedding ← Value.initVector float32 2 [f32_of_int (index mod 17); f32_of_int ((index + 1) mod 17)];
  Ok [Value.integer (index + 1); Value.initText (B "durable-" ++ show_unsigned (index + 1)); embedding].

Definition insert_memory (store : RowStore.t) (tx : Transaction.t) (index : nat) : Result Transaction.t :=
  values ← memory_row (Z.of_nat index);
  r ← Transaction.insert tx store values;
  Ok r.1.

(** From the creation of the table to the commit. *)
Definition fill_memories (db : Database.t) (row_count : nat) : Result Database.t :=
  db ← Database.createTable db memories_spec;
  it ← Database.beginTransaction db (B "memories");
  store ← item_at (DatabaseSnapshot.stores (Database.state db)) it.1;
  tx ← foldM (insert_memory store) it.2 (seq 0 row_count);
  r ← commit_slot db it.1 tx;
  Ok r.1.

(** The checks on the reopened database; the number of rows it holds. *)
Definition inspect_memories (reopened : Database.t) (row_count : nat) : Result Z :=
  found ← Database.table reopened (B "MEMORIES");
  table ← match found with Some t => Ok t | None => Panic end;
  _ ← fail_if (negb (length (TableDef.columns table) =? 3)%nat) InvalidBenchmarkState;
  rows ← Database.rows reopened (B "memories");
  _ ← fail_if (negb (length rows =? row_count)%nat) InvalidBenchmarkState;
  _ ← (if (0 <? row_count)%nat then
         first ← item_at rows 0;
         _ ← fail_if (negb (Row.id first =? 1)) InvalidBenchmarkState;
         body ← item_at (Row.values first) 1;
         text ← text_of body;
         fail_if (negb (bool_decide (text = B "durable-1"))) InvalidBenchmarkState
       else Ok ());
  Ok (Z.of_nat (length rows)).

Definition benchmark_path : bytes := B "checkpoint-reopen.shovel".

(** The faults of the calls: opening the directory, deleting what an earlier run left, [openOrCreate], [close], [open], and
    deleting the file at the end. *)
Record workload_faults := WorkloadFaults {
  w_directory : option Error; w_stale : option Error; w_open : option Error; w_create : faults;
  w_close : faults; w_reopen : option Error; w_delete : option Error }.

Definition no_workload_faults : workload_faults := WorkloadFaults None None None no_faults no_faults None None.

(** [defer dir.deleteFile(io, path) catch {}] around the rest of the function. *)
Definition io_defer {A} (cleanup : IO ()) (m : IO A) : IO A := λ w,
  match m w with (Panic, w') => (Panic, w') | (r, w') => (r, (cleanup w').2) end.

Section io.
Local Open Scope io_scope.

Definition runPersistenceCheckpointReopen (f : workload_faults) (row_count : nat) : IO Z :=
  _ <- io_lift (match w_directory f with Some e => Err e | None => Ok () end);;
  _ <- io_catch (deleteFile (w_stale f) benchmark_path)
         (λ e, if decide (e = FileNotFound) then io_ret () else io_lift (Err e));;
  io_defer (deleteFile (w_delete f) benchmark_path)
    (db <- Database.openOrCreate (w_open f) (w_create f) benchmark_path;;
     db <- io_lift (fill_memories db row_count);;
     _ <- Database.close (w_close f) db;;
     reopened <- Database.open (w_reopen f) benchmark_path;;
     io_lift (inspect_memories reopened row_count)).
End io.

(** ** The database the workload builds *)

Lemma f32_of_int_small n : 0 ≤ n < 17 → 0 ≤ f32_of_int n < 2 ^ 32.
Proof.
  assert (H : forallb (λ n, bool_decide (0 ≤ f32_of_int (Z.of_nat n) < 2 ^ 32)) (seq 0 17) = true) by (vm_compute; reflexivity).
  intros Hn. rewrite forallb_forall in H. specialize (H (Z.to_nat n)). rewrite Z2Nat.id in H by lia.
  eapply bool_decide_eq_true_1, H, in_seq. lia.
Qed.

Definition memory_text (index : Z) : bytes := B "durable-" ++ show_unsigned (index + 1).

Definition memory_vector (index : Z) : Vector.t := Vector.mk float32 2 [f32_of_int (index mod 17); f32_of_int ((index + 1) mod 17)].

(** Row number [k], from 0: its id is [k + 1]. *)
Definition memory (k : nat) : Row.t :=
  let index := Z.of_nat k in
  Row.mk (index + 1) [Value.integer (index + 1); Value.text (memory_text index); Value.vector (memory_vector index)].

Definition memories_table : TableDef.t :=
  TableDef.mk (B "memories")
    [ColumnDef.mk (B "id") ColumnType.integer false None false false;
     ColumnDef.mk (B "body") ColumnType.text false None false false;
     ColumnDef.mk (B "embedding") (ColumnType.vector (VectorType.mk float32 2)) false None false false] [].

Definition memories_store (n : nat) : RowStore.t := RowStore.mk memories_table (memory <$> seq 0 n) (Z.of_nat n + 1).

Definition memories (n : nat) : DatabaseSnapshot.t :=
  DatabaseSnapshot.mk (DatabaseCatalog.mk [memories_table] [] []) [memories_store n].

Lemma memory_row_values k : memory_row (Z.of_nat k) = Ok (Row.values (memory k)).
Proof. unfold memory_row, memory, memory_vector, memory_text, Value.initVector, Value.initText. generalize f32_of_int. reflexivity. Qed.

Lemma memory_ok k : row_ok memories_table (memory k).
Proof. unfold row_ok, memory, memory_vector. generalize f32_of_int (memory_text (Z.of_nat k)). intros g t. by split. Qed.

Lemma memory_init k : Row.init memories_table (Z.of_nat k + 1) (Row.values (memory k)) = Ok (memory k).
Proof. apply row_init_ok. split; [apply memory_ok|done]. Qed.

Lemma memories_snoc n : (memory <$> seq 0 n) ++ [memory n] = memory <$> seq 0 (S n).
Proof. by rewrite seq_S, fmap_app. Qed.

Lemma insert_loop k n :
  Z.of_nat (k + n) + 1 ≤ u64_max →
  foldM (insert_memory (memories_store 0)) (Transaction.mk active (Z.of_nat k + 1) (memory <$> seq 0 k) [] []) (seq k n) =
    Ok (Transaction.mk active (Z.of_nat (k + n) + 1) (memory <$> seq 0 (k + n)) [] []).
Proof.
  revert k. induction n as [|n IH]; intros k Hk; [by rewrite Nat.add_0_r|]. cbn [seq foldM].
  assert (E : insert_memory (memories_store 0) (Transaction.mk active (Z.of_nat k + 1) (memory <$> seq 0 k) [] []) k =
              Ok (Transaction.mk active (Z.of_nat (S k) + 1) (memory <$> seq 0 (S k)) [] [])).
  { unfold insert_memory. rewrite memory_row_values. cbn [mbind result_bind]. unfold Transaction.insert, Transaction.ensureActive.
    cbn [mbind result_bind Transaction.state Transaction.next_id]. change (RowStore.table (memories_store 0)) with memories_table.
    rewrite memory_init. cbn [mbind result_bind]. rewrite checked_u64_in by (unfold is_u64; lia). 
    cbn [mbind result_bind fst Transaction.inserts Transaction.updates Transaction.deletes]. rewrite memories_snoc. do 2 f_equal. lia. }
  rewrite E. cbn [mbind result_bind]. rewrite IH by lia. by rewrite Nat.add_succ_r.
Qed.

Lemma memory_ids n : ids (memory <$> seq 0 n) = (λ k, Z.of_nat k + 1) <$> seq 0 n.
Proof. unfold ids. by rewrite <- list_fmap_compose. Qed.

Lemma commit_loop k n :
  Z.of_nat (k + n) + 1 ≤ u64_max →
  foldM Transaction.commit_insert (memories_store k) (memory <$> seq k n) = Ok (memories_store (k + n)).
Proof.
  revert k. induction n as [|n IH]; intros k Hk; [by rewrite Nat.add_0_r|]. cbn [seq fmap list_fmap foldM].
  assert (Hnew : findRow (memory <$> seq 0 k) (Z.of_nat k + 1) = None).
  { apply findRow_None. rewrite memory_ids. intros (i & Hi & [_ Hlt]%elem_of_seq)%list_elem_of_fmap. lia. }
  assert (E : Transaction.commit_insert (memories_store k) (memory k) = Ok (memories_store (S k))).
  { unfold Transaction.commit_insert, RowStore.get, RowStore.insertWithId, RowStore.findRowIndex. change (Row.id (memory k)) with (Z.of_nat k + 1).
    change (RowStore.rows_list (memories_store k)) with (memory <$> seq 0 k). rewrite Hnew. cbn [mbind option_bind].
    rewrite Hnew, (bool_decide_eq_false_2 (is_Some None)) by apply is_Some_None. change (RowStore.table (memories_store k)) with memories_table. cbn [mbind result_bind fail_if].
    rewrite memory_init. cbn [mbind result_bind]. change (RowStore.next_id (memories_store k)) with (Z.of_nat k + 1). rewrite Z.leb_refl.
    rewrite checked_u64_in by (unfold is_u64; lia). cbn [mbind result_bind]. rewrite memories_snoc. unfold memories_store. do 2 f_equal. lia. }
  rewrite E. cbn [mbind result_bind]. rewrite IH by lia. by rewrite Nat.add_succ_r.
Qed.

Lemma fill_memories_ok path n :
  Z.of_nat n + 1 ≤ u64_max → fill_memories (empty_db path) n = Ok (Database.mk path (memories n) false).
Proof.
  intros Hn. unfold fill_memories.
  assert (E : Database.createTable (empty_db path) memories_spec = Ok (Database.mk path (memories 0) false)) by reflexivity.
  rewrite E. cbn [mbind result_bind].
  assert (Eb : Database.beginTransaction (Database.mk path (memories 0) false) (B "memories") = Ok (0%nat, Transaction.mk active 1 [] [] []))
    by reflexivity.
  rewrite Eb. cbn [mbind result_bind fst snd Database.state]. change (item_at (DatabaseSnapshot.stores (memories 0)) 0) with (Ok (memories_store 0)).
  cbn [mbind result_bind]. pose proof (insert_loop 0 n Hn) as H. cbn [fmap list_fmap seq Nat.add] in H. change (Z.of_nat 0 + 1) with 1 in H.
  rewrite H. cbn [mbind result_bind]. unfold commit_slot. cbn [Database.state].
  change (item_at (DatabaseSnapshot.stores (memories 0)) 0) with (Ok (memories_store 0)). cbn [mbind result_bind].
  unfold Transaction.commit. cbn [Transaction.ensureActive Transaction.state Transaction.deletes Transaction.updates Transaction.inserts mbind result_bind].
  change (RowStore.clone (memories_store 0)) with (Ok (memories_store 0)). cbn [mbind result_bind foldM].
  rewrite (commit_loop 0 n Hn). reflexivity.
Qed.

(** ** What it is written as *)

Lemma memory_wf k : Z.of_nat k < 2 ^ 62 → Forall Value.wf (Row.values (memory k)).
Proof.
  intros Hk. unfold memory, memory_vector. cbn [Row.values].
  assert (Hf : ∀ i, 0 ≤ f32_of_int (i mod 17) < 2 ^ 32) by (intros i; apply f32_of_int_small, Z.mod_pos_bound; lia).
  pose proof (Hf (Z.of_nat k)) as H1. pose proof (Hf (Z.of_nat k + 1)) as H2. revert H1 H2. generalize f32_of_int. intros g H1 H2.
  repeat constructor; cbn; (done || (unfold is_i64, i64_min, i64_max; lia) || lia).
Qed.

Lemma memories_wf n : Z.of_nat n < 2 ^ 62 → snapshot_wf (memories n).
Proof.
  intros Hn. split; [apply (bool_decide_eq_true_1 (NoDup _)); vm_compute; reflexivity|]. constructor; [|constructor]. split_and!.
  - apply table_wf_b_spec. vm_compute. reflexivity.
  - split; cbn [memories_store RowStore.rows_list RowStore.next_id RowStore.table].
    + rewrite memory_ids. apply NoDup_fmap; [intros x y H; lia|apply NoDup_seq].
    + rewrite memory_ids. apply Forall_fmap, Forall_seq. cbn. lia.
    + unfold u64_max. lia.
    + apply Forall_fmap, Forall_seq. intros. apply memory_ok.
  - done.
  - repeat constructor; cbn; (done || lia).
  - cbn [memories_store RowStore.rows_list]. apply Forall_fmap, Forall_seq. intros k Hk. apply memory_wf. lia.
Qed.

(** An append that succeeds and adds at most [n] bytes. *)
Definition grows (f : bytes → Result bytes) (n : nat) : Prop := ∀ buf, ∃ e, f buf = Ok (buf ++ e) ∧ (length e ≤ n)%nat.

Lemma grows_seq f g n m : grows f n → grows g m → grows (λ buf, f buf ≫= g) (n + m).
Proof.
  intros Hf Hg buf. destruct (Hf buf) as (e & -> & He). destruct (Hg (buf ++ e)) as (e' & H & He'). exists (e ++ e').
  cbn [mbind result_bind]. rewrite H, length_app, app_assoc. split; [done|lia].
Qed.

Lemma grows_weaken f n m : grows f n → (n ≤ m)%nat → grows f m.
Proof. intros Hf Hn buf. destruct (Hf buf) as (e & H & He). exists e. split; [done|lia]. Qed.

Lemma grows_u8 v : grows (λ buf, Ok (appendU8 buf v)) 1.
Proof. intros buf. by eexists. Qed.

Lemma grows_u32 v : grows (λ buf, Ok (appendU32 buf v)) 4.
Proof. intros buf. by eexists. Qed.

Lemma grows_u64 v : grows (λ buf, Ok (appendU64 buf v)) 8.
Proof. intros buf. by eexists. Qed.

Lemma grows_count v : v ≤ u32_max → grows (λ buf, appendCount buf v) 4.
Proof. intros Hv buf. unfold appendCount. rewrite (proj2 (Z.ltb_ge _ _)) by done. apply grows_u32. Qed.

Lemma grows_bytes s : fits s → grows (λ buf, appendBytes buf s) (4 + length s).
Proof.
  intros Hs. apply (grows_seq (λ buf, appendCount buf (Z.of_nat (length s))) (λ buf, Ok (buf ++ s))); [by apply grows_count|].
  intros buf. by exists s.
Qed.

Lemma grows_foldM {A} (f : bytes → A → Result bytes) l n :
  Forall (λ x, grows (λ buf, f buf x) n) l → grows (λ buf, foldM f buf l) (length l * n).
Proof.
  induction 1 as [|x l Hx _ IH]; cbn [foldM length]; [intros buf; exists []; by rewrite app_nil_r|].
  exact (grows_seq (λ buf, f buf x) (λ buf, foldM f buf l) n (length l * n) Hx IH).
Qed.

Lemma length_show_digits fuel n acc : (length (show_digits fuel n acc) ≤ fuel + length acc)%nat.
Proof.
  revert n acc. induction fuel as [|fuel IH]; intros n acc; cbn [show_digits]; [done|]. destruct (n <? 10); cbn [length]; [lia|].
  etrans; [apply IH|]. cbn [length]. lia.
Qed.

Lemma length_memory_text k : Z.of_nat k < 2 ^ 62 → (length (memory_text (Z.of_nat k)) ≤ 72)%nat.
Proof.
  intros Hk. unfold memory_text. rewrite length_app. change (length (B "durable-")) with 8%nat. unfold show_unsigned.
  pose proof (length_show_digits (S (Z.to_nat (Z.log2 (Z.of_nat k + 1)))) (Z.of_nat k + 1) []) as H. cbn [length] in H.
  assert (Z.log2 (Z.of_nat k + 1) ≤ 62) by (change 62 with (Z.log2 (2 ^ 62)); apply Z.log2_le_mono; lia). lia.
Qed.

Lemma grows_memory k : Z.of_nat k < 2 ^ 62 → grows (λ buf, appendRow buf (memory k)) 120.
Proof.
  intros Hk. pose proof (length_memory_text k Hk) as Ht. apply (grows_weaken _ (8 + 4 + (9 + (1 + (4 + length (memory_text (Z.of_nat k))) + (1 + 1 + 4 + (4 + 4)))))); [|lia].
  unfold memory, memory_vector. generalize dependent f32_of_int. intros g.
  apply (grows_seq (λ buf, appendCount (appendU64 buf (Z.of_nat k + 1)) 3) (λ buf, foldM appendValue buf _)).
  { apply (grows_seq (λ buf, Ok (appendU64 buf _)) (λ buf, appendCount buf 3)); [apply grows_u64|by apply grows_count]. }
  apply (grows_seq (λ buf, appendValue buf _) (λ buf, foldM appendValue buf [_; _])).
  { apply (grows_seq (λ buf, Ok (appendU8 buf 1)) (λ buf, Ok (appendU64 buf _)) 1 8); [apply grows_u8|apply grows_u64]. }
  apply (grows_seq (λ buf, appendValue buf _) (λ buf, foldM appendValue buf [_])).
  { apply (grows_seq (λ buf, Ok (appendU8 buf 4)) (λ buf, appendBytes buf _)); [apply grows_u8|]. apply grows_bytes. unfold fits, u32_max. lia. }
  apply (grows_seq (λ buf, appendCount (appendU8 (appendU8 buf 6) 1) 2) (λ buf, Ok (appendU32 (appendU32 buf _) _))).
  { apply (grows_seq (λ buf, Ok (appendU8 (appendU8 buf 6) 1)) (λ buf, appendCount buf 2)); [|by apply grows_count].
    apply (grows_seq (λ buf, Ok (appendU8 buf 6)) (λ buf, Ok (appendU8 buf 1))); apply grows_u8. }
  apply (grows_seq (λ buf, Ok (appendU32 buf _)) (λ buf, Ok (appendU32 buf _))); apply grows_u32.
Qed.

(** The bytes up to the next row id do not depend on the rows. *)
Definition table_prefix : Result bytes :=
  buf ← appendCount [] 1;
  buf ← appendBytes buf (TableDef.name memories_table);
  buf ← appendCount buf 3;
  buf ← foldM appendColumn buf (TableDef.columns memories_table);
  appendCount buf 0.

(** The rest. *)
Definition rows_suffix (n : nat) (buf : bytes) : Result bytes :=
  buf ← appendCount (appendU64 buf (Z.of_nat n + 1)) (Z.of_nat (length (memory <$> seq 0 n)));
  buf ← foldM appendRow buf (memory <$> seq 0 n);
  buf ← appendCount buf 0;
  appendCount buf 0.

Lemma payload_split n : encodePayload (memories n) = table_prefix ≫= rows_suffix n.
Proof.
  destruct table_prefix as [prefix| |] eqn:Hp; [|vm_compute in Hp; discriminate..]. unfold table_prefix in Hp.
  unfold encodePayload, rows_suffix. cbn [memories DatabaseSnapshot.catalog DatabaseSnapshot.stores DatabaseCatalog.tables DatabaseCatalog.views
    DatabaseCatalog.procedures length zip zip_with fmap list_fmap foldM Nat.eqb negb fail_if mbind result_bind].
  change (Z.of_nat 1) with 1. change (Z.of_nat 0) with 0. apply bind_ok_inv in Hp as (b1 & -> & Hp). cbn [mbind result_bind]. unfold appendTable.
  apply bind_ok_inv in Hp as (b2 & -> & Hp). cbn [mbind result_bind]. apply bind_ok_inv in Hp as (b3 & H3 & Hp).
  change (Z.of_nat (length (TableDef.columns memories_table))) with 3. rewrite H3. cbn [mbind result_bind].
  apply bind_ok_inv in Hp as (b4 & -> & Hp). cbn [mbind result_bind].
  change (Z.of_nat (length (TableDef.indexes memories_table))) with 0. rewrite Hp. cbn [mbind result_bind TableDef.indexes memories_table foldM].
  change (RowStore.nextRowId (memories_store n)) with (Z.of_nat n + 1). change (RowStore.rows (memories_store n)) with (memory <$> seq 0 n).
  destruct (appendCount (appendU64 prefix _) _) as [b5| |]; [|done..]. cbn [mbind result_bind].
  destruct (foldM appendRow b5 _) as [b6| |]; [|done..]. cbn [mbind result_bind]. by destruct (appendCount b6 0).
Qed.

(** A million rows fit into the largest file that is read back. *)
Lemma memories_encoded n :
  (n ≤ Z.to_nat 1000000)%nat → ∃ data, encodeSnapshot (memories n) = Ok data ∧ Z.of_nat (length data) < max_snapshot_bytes.
Proof.
  intros Hn. assert (Hsuffix : grows (rows_suffix n) (8 + 4 + (n * 120 + (4 + 4)))).
  { apply (grows_seq (λ buf, appendCount (appendU64 buf _) _) (λ buf, foldM appendRow buf _ ≫= λ buf, appendCount buf 0 ≫= λ buf, appendCount buf 0)).
    { apply (grows_seq (λ buf, Ok (appendU64 buf _)) (λ buf, appendCount buf _)); [apply grows_u64|]. apply grows_count.
      rewrite length_fmap, length_seq. unfold u32_max. lia. }
    apply (grows_seq (λ buf, foldM appendRow buf _) (λ buf, appendCount buf 0 ≫= λ buf, appendCount buf 0)).
    { pose proof (grows_foldM appendRow (memory <$> seq 0 n) 120) as H. rewrite length_fmap, length_seq in H. apply H.
      apply Forall_fmap, Forall_seq. intros k Hk. apply grows_memory. lia. }
    apply (grows_seq (λ buf, appendCount buf 0) (λ buf, appendCount buf 0)); by apply grows_count. }
  assert (Hprefix : ∃ prefix, table_prefix = Ok prefix ∧ (length prefix ≤ 200)%nat).
  { destruct table_prefix as [prefix| |] eqn:Hp; [|vm_compute in Hp; discriminate..]. exists prefix. split; [done|].
    vm_compute in Hp. injection Hp as <-. cbn. lia. }
  destruct Hprefix as (prefix & Hp & Hl). destruct (Hsuffix prefix) as (e & He & Hle).
  assert (Hpay : encodePayload (memories n) = Ok (prefix ++ e)) by (rewrite payload_split, Hp; exact He).
  assert (Hlen : Z.of_nat (length (prefix ++ e)) ≤ 120000300) by (rewrite length_app; lia).
  unfold encodeSnapshot. rewrite Hpay. cbn [mbind result_bind]. rewrite checked_u64_in by (unfold is_u64, u64_max; lia). cbn [mbind result_bind].
  eexists. split; [reflexivity|]. rewrite length_app, !appendU32_le, appendU64_le, !length_app. cbn [length le32 le64 app].
  change (length magic) with 10%nat. unfold max_snapshot_bytes. cbn. lia.
Qed.

(** The inspection finds what was filled in. *)
Lemma inspect_memories_ok path n : inspect_memories (Database.mk path (memories n) false) n = Ok (Z.of_nat n).
Proof.
  unfold inspect_memories.
  change (Database.table (Database.mk path (memories n) false) (B "MEMORIES")) with (Ok (Some memories_table)). cbn [mbind result_bind].
  change (length (TableDef.columns memories_table)) with 3%nat. cbn [Nat.eqb negb fail_if mbind result_bind].
  change (Database.rows (Database.mk path (memories n) false) (B "memories")) with (Ok (memory <$> seq 0 n)). cbn [mbind result_bind].
  rewrite length_fmap, length_seq, Nat.eqb_refl. cbn [negb fail_if mbind result_bind]. destruct n as [|n]; [done|]. reflexivity.
Qed.

(** The deletion of what an earlier run left. *)
Lemma stale_deleted w :
  ∃ w', io_catch (deleteFile None benchmark_path) (λ e, if decide (e = FileNotFound) then io_ret () else io_lift (Err e)) w = (Ok (), w') ∧
        dir w' !! benchmark_path = None ∧ ∀ q, q ≠ benchmark_path → dir w' !! q = dir w !! q.
Proof.
  unfold io_catch, deleteFile, syscall. destruct (dir w !! benchmark_path) eqn:E; eexists; (split; [reflexivity|]); [|done].
  cbn [dir]. split; [by simplify_map_eq|]. intros q Hq. by simplify_map_eq.
Qed.

Lemma fresh_created w :
  dir w !! benchmark_path = None →
  ∃ w', Database.openOrCreate None no_faults benchmark_path w = (Ok (empty_db benchmark_path), w') ∧
        ∀ q, q ≠ benchmark_path → q ≠ tmp_path benchmark_path → dir w' !! q = dir w !! q.
Proof.
  intros Hn. unfold Database.openOrCreate, Database.open, io_catch, readSnapshot, readFileAlloc. unfold io_bind at 1 2. rewrite Hn.
  destruct (encodeSnapshot DatabaseSnapshot.init) as [data| |] eqn:He; [|discriminate..].
  destruct (writeSnapshot_ok benchmark_path data DatabaseSnapshot.init w He) as (w' & Hw & _ & Hq).
  exists w'. split; [|done]. cbv beta iota. rewrite decide_True by done. unfold Database.create, Database.checkpoint, io_bind, io_lift.
  unfold Database.ensureOpen, fail_if. cbn [Database.closed Database.path Database.state]. by rewrite Hw.
Qed.

(** C24: the persistence workload of the benchmark does its work.  For every number of rows up to a million (the benchmark asks for
    at most 64), whatever is in the directory and without faults, creating the table, inserting the rows in one transaction,
    closing, opening again and inspecting the result succeeds and reports that number; no file of the workload is left
    behind and no other file is touched. *)
Theorem persistence_workload_succeeds (row_count : nat) (w : world) :
  Z.of_nat row_count ≤ 1000000 →
  let r := runPersistenceCheckpointReopen no_workload_faults row_count w in
  r.1 = Ok (Z.of_nat row_count) ∧ dir r.2 !! benchmark_path = None ∧
  ∀ q, q ≠ benchmark_path → q ≠ tmp_path benchmark_path → dir r.2 !! q = dir w !! q.
Proof.
  intros H r. pose proof (fill_memories_ok benchmark_path row_count ltac:(unfold u64_max; lia)) as Hf.
  destruct (memories_encoded row_count) as (data & He & Hl); [lia|].
  pose proof (snapshot_decodes _ _ (memories_wf row_count ltac:(lia)) He) as Hd. pose proof (inspect_memories_ok benchmark_path row_count) as Hi.
  destruct (stale_deleted w) as (w1 & H1 & Hn & Hq1). destruct (fresh_created w1 Hn) as (w2 & H2 & Hq2).
  destruct (writeSnapshot_ok benchmark_path data _ w2 He) as (w3 & H3 & Hdata & Hq3).
  assert (E : r = (Ok (Z.of_nat row_count), World (base.delete benchmark_path (dir w3)) (log w3 ++ [Deleted benchmark_path]))).
  { unfold r, runPersistenceCheckpointReopen, no_workload_faults. cbn [w_directory w_stale w_open w_create w_close w_reopen w_delete].
    unfold io_bind at 1, io_lift at 1. unfold io_bind at 1. rewrite H1. unfold io_defer. unfold io_bind at 1. rewrite H2.
    unfold io_bind at 1, io_lift at 1. rewrite Hf. unfold Database.close, Database.checkpoint, Database.ensureOpen.
    cbn [Database.closed Database.path Database.state]. generalize dependent (memories row_count). intros snapshot Hf He Hd Hi H3.
    unfold Database.open, readSnapshot, readFileAlloc, deleteFile, syscall, io_bind, io_lift, io_ret. cbn [fail_if]. rewrite H3, Hdata.
    rewrite (proj2 (Z.leb_gt _ _) Hl), Hd, Hi. cbn [snd]. by rewrite Hdata. }
  rewrite E. cbn [fst snd dir]. split_and!; [done|by simplify_map_eq|]. intros q Hqp Hqt. rewrite lookup_delete_ne by done.
  by rewrite Hq3, Hq2, Hq1.
Qed.

(** A directory with a stale file and someone else's. *)
Lemma persistence_workload_succeeds_witness :
  let w := World {[ benchmark_path := B "stale"; B "notes" := B "mine" ]} [] in
  let r := runPersistenceCheckpointReopen no_workload_faults 3 w in
  r.1 = Ok 3 ∧ dir r.2 !! B "notes" = Some (B "mine").
Proof.
  cbv zeta. destruct (persistence_workload_succeeds 3 (World {[ benchmark_path := B "stale"; B "notes" := B "mine" ]} [])) as (H1 & _ & H3); [lia|].
  split; [exact H1|]. rewrite H3; [|discriminate..]. vm_compute. reflexivity.
Defined.
