(* ===== verification/Benchmark.v ===== *)
(** * The benchmark

    Models the workloads of [src/src/cli/benchmark.zig] and its [run]: three tables filled through SQL, then scans, joins, point
    lookups, rolled back updates, vector search, the persistence workload of [BenchmarkWorkloads], and the workloads with
    several sessions: snapshots, queued commits, a reader next to a writer, overlapping checkpoints, the vector overlay.  It
    is a client of the whole engine, with the parsers of the program.

    The state of a run is the database, its sessions and the directory of the persistence workload.  The clock and the
    allocation counters are arguments: their readings by number, two per measurement.  On a machine with 64-bit [usize] no
    index of a loop can overflow before the row does. *)

From S2P Require Import Prelude Float Value Catalog RowStore Concurrency Snapshot Storage Overlay VectorSearch.
From S2P Require Import Ast Eval QuerySource Parser Registries ProcedureBody Executor ExecutorFacts Preserves Recovery ExecutorInvariant Cli BenchmarkWorkloads.

(** ** State and effects *)
Record bench := Bench {
  shared : Database.t; main_session : Session.t; reader_session : Session.t; writer_session : Session.t; files : world }.

Inductive role := main | reader | writer.

Definition session_of (b : bench) (r : role) : Session.t :=
  match r with main => main_session b | reader => reader_session b | writer => writer_session b end.

Definition with_conn (b : bench) (r : role) (c : conn) : bench :=
  match r with
  | main => Bench (db c) (session c) (reader_session b) (writer_session b) (files b)
  | reader => Bench (db c) (main_session b) (session c) (writer_session b) (files b)
  | writer => Bench (db c) (main_session b) (reader_session b) (session c) (files b)
  end.

Definition W (A : Type) : Type := bench → bench * Result A.

#[global] Instance W_ret : MRet W := λ A a b, (b, Ok a).
#[global] Instance W_bind : MBind W := λ A C f m b,
  match m b with
  | (b', Ok a) => f a b'
  | (b', Err e) => (b', Err e)
  | (b', Panic) => (b', Panic)
  end.

(** A program of the executor on the connection of one session. *)
Definition on (r : role) {A} (m : M A) : W A := λ b,
  let c := m (Conn (shared b) (session_of b r)) in (with_conn b r c.1, c.2).

Definition w_lift {A} (x : Result A) : W A := λ b, (b, x).

(** [for (0..n) |index|] *)
Fixpoint repeat_from (index n : nat) (f : nat → W ()) : W () :=
  match n with
  | O => mret ()
  | S n' => f index ;; repeat_from (S index) n' f
  end.

Abbreviation repeat n f := (repeat_from 0 n f).

(** [executor.Session.init] and [session.deinit]: the staged changes are freed, the snapshot handle is given back. *)
Definition init_session (r : role) : W () := on r (put_session Session.init).
Definition deinit_session (r : role) : W () := on r (clearTransactions ;; releaseSnapshotHandle).

(** [defer cleanup] around the rest of a function *)
Definition w_defer {A} (cleanup : W ()) (m : W A) : W A := λ b,
  match m b with
  | (b', Panic) => (b', Panic)
  | (b', x) => ((cleanup b').1, x)
  end.

(** [var s = Session.init(allocator); defer s.deinit();] *)
Definition in_session {A} (r : role) (m : W A) : W A := init_session r ;; w_defer (deinit_session r) m.

(** ** Workloads *)
Definition executeAndDiscard (r : role) (sql : bytes) : W () :=
  _ ← on r (Executor.executeSql parse_statement parse_body sql); mret ().

Definition tag_statement (index : nat) : bytes :=
  B "INSERT INTO memory_tags VALUES (" ++ show_nat (index + 1) ++ B ", " ++ show_nat (index + 1) ++ B ", '" ++
  (if (index mod 2 =? 0)%nat then B "project" else B "personal") ++ B "');".

Definition loadJoinRows (row_count : nat) : W () :=
  executeAndDiscard main (B "BEGIN;") ;;
  repeat row_count (λ index, executeAndDiscard main (tag_statement index)) ;;
  executeAndDiscard main (B "COMMIT;").

Definition runSnapshotBeginWorkload (operation_count : nat) : W () :=
  repeat operation_count (λ _, in_session reader (
    executeAndDiscard reader (B "BEGIN;") ;;
    executeAndDiscard reader (B "ROLLBACK;"))).

(** [INSERT INTO scalar_memory VALUES (id, 'prefix-n', f.fraction);] *)
Definition scalar_statement (id : nat) (prefix : string) (n f : nat) (fraction : string) : bytes :=
  B "INSERT INTO scalar_memory VALUES (" ++ show_nat id ++ B ", '" ++ B prefix ++ show_nat n ++ B "', " ++ show_nat f ++ B fraction ++ B ");".

Definition runQueuedCommitWorkload (operation_count id_base : nat) : W () :=
  in_session writer (repeat operation_count (λ index,
    executeAndDiscard writer (B "BEGIN;") ;;
    executeAndDiscard writer (scalar_statement (id_base + index) "queued-" (index + 1) (index mod 89) ".125") ;;
    executeAndDiscard writer (B "COMMIT;"))).

Definition first_id : bytes := B "SELECT id FROM scalar_memory ORDER BY id ASC LIMIT 1;".

Definition runConcurrentReadWriteWorkload (operation_count id_base : nat) : W () :=
  in_session reader (in_session writer (
    executeAndDiscard reader (B "BEGIN;") ;;
    repeat operation_count (λ index,
      executeAndDiscard writer (B "BEGIN;") ;;
      executeAndDiscard writer (scalar_statement (id_base + index) "concurrent-" (index + 1) (index mod 101) ".75") ;;
      executeAndDiscard writer (B "COMMIT;") ;;
      executeAndDiscard reader first_id) ;;
    executeAndDiscard reader (B "COMMIT;"))).

Definition with_shared (b : bench) (d : Database.t) : bench :=
  Bench d (main_session b) (reader_session b) (writer_session b) (files b).

(** [db.beginCheckpoint()] *)
Definition beginCheckpoint : W Ticket.t := λ b,
  match Database.beginCheckpoint (shared b) with
  | Ok (d, t) => (with_shared b d, Ok t)
  | Err e => (b, Err e)
  | Panic => (b, Panic)
  end.

(** [checkpoint.complete()] and [checkpoint.fail()] *)
Definition close_ticket (close : Worker.t → Ticket.t → Result (Worker.t * Ticket.t)) (t : Ticket.t) : W () := λ b,
  match close (Database.checkpoint_worker (shared b)) t with
  | Ok (w, _) => (with_shared b (Database.with_worker (shared b) w), Ok ())
  | Err e => (b, Err e)
  | Panic => (b, Panic)
  end.

(** One attempt to begin a second checkpoint: it must be refused for the one that runs. *)
Definition overlap_refused : W () := λ b,
  match beginCheckpoint b with
  | (b', Ok unexpected) => (close_ticket Ticket.fail unexpected ;; w_lift (Err InvalidBenchmarkState)) b'
  | (b', Err CheckpointAlreadyRunning) => (b', Ok ())
  | (b', Err e) => (b', Err e)
  | (b', Panic) => (b', Panic)
  end.

(** [defer if (!completed) checkpoint.fail();] *)
Definition unless_completed {A} (t : Ticket.t) (m : W A) : W A := λ b,
  match m b with
  | (b', Err e) => match close_ticket Ticket.fail t b' with (b'', Panic) => (b'', Panic) | (b'', _) => (b'', Err e) end
  | r => r
  end.

(** Every iteration counts one attempt. *)
Fixpoint overlap_attempts (n : nat) (attempts : Z) : W Z :=
  match n with
  | O => mret attempts
  | S n' => overlap_refused ;; executeAndDiscard reader first_id ;; overlap_attempts n' (attempts + 1)
  end.

Definition runCheckpointOverlapWorkload (operation_count : nat) : W Z :=
  in_session reader (
    executeAndDiscard reader (B "BEGIN;") ;;
    checkpoint ← beginCheckpoint;
    attempts ← unless_completed checkpoint (overlap_attempts operation_count 0);
    close_ticket Ticket.complete checkpoint ;;
    executeAndDiscard reader (B "COMMIT;") ;;
    mret attempts).

Definition runVectorOverlayVisibilityWorkload (max_count : nat) : W Z := λ b,
  let drain_count := Nat.min (Z.to_nat (Database.vectorOverlayCandidateCount (shared b) (B "vector_memory") (B "embedding"))) max_count in
  let dd := Database.drainVectorOverlay (shared b) (Database.currentCommitSequence (shared b)) drain_count in
  (with_shared b dd.1, Ok (Z.of_nat (length dd.2))).

Fixpoint literal_from (dimension n seed : nat) : bytes :=
  match n with
  | O => []
  | S n' => (if (0 <? dimension)%nat then B ", " else []) ++ show_nat ((seed + dimension) mod 17) ++ literal_from (S dimension) n' seed
  end.

Definition makeSqlVectorLiteral (dimensions seed : nat) : bytes := B "[" ++ literal_from 0 dimensions seed ++ B "]".

Definition loadSqlVectorRows (vector_count dimensions : nat) : W () :=
  executeAndDiscard main (B "BEGIN;") ;;
  repeat vector_count (λ index,
    executeAndDiscard main (B "INSERT INTO vector_memory VALUES (" ++ show_nat (index + 1) ++ B ", " ++
                            makeSqlVectorLiteral dimensions index ++ B ");")) ;;
  executeAndDiscard main (B "COMMIT;").

Definition makeVectorCandidates (vector_count dimensions : nat) : list Candidate.t :=
  (λ index : nat, Candidate.mk (Z.of_nat index + 1)
     ((λ dim : nat, f32_of_int (Z.of_nat ((index + dim) mod 17))) <$> seq 0 dimensions)) <$> seq 0 vector_count.

Definition makeQueryVector (dimensions : nat) : list Z :=
  (λ index : nat, f32_of_int (Z.of_nat (index mod 7))) <$> seq 0 dimensions.

(** ** The run *)
Section run.
(** The readings of the clock in nanoseconds, those of the counting allocator, and the faults of the file system. *)
Context (clock : nat → Z) (counter : nat → AllocationStats.t) (f : workload_faults) {allocator : Allocator}.

(** A measurement: [count] operations done by [m], between the readings [2 k] and [2 k + 1]. *)
Definition measured (k : nat) (name : bytes) (m : W Z) : W Metric.t :=
  count ← m;
  allocations ← w_lift (CountingAllocator.delta (counter (2 * k + 1)%nat) (counter (2 * k)%nat));
  mret (Metric.mk name count (clock (2 * k + 1)%nat - clock (2 * k)%nat) allocations).

(** [m], which does a number of operations known beforehand. *)
Definition counting (count : nat) (m : W ()) : W Z := m ;; mret (Z.of_nat count).

Definition create_tables (dimensions : nat) : W () :=
  executeAndDiscard main (B "CREATE TABLE scalar_memory (id INTEGER, body TEXT, score FLOAT);") ;;
  executeAndDiscard main (B "CREATE TABLE memory_tags (id INTEGER, memory_id INTEGER, name TEXT);") ;;
  executeAndDiscard main (B "CREATE TABLE vector_memory (id INTEGER, embedding VECTOR(" ++ show_nat dimensions ++ B "));").

Definition insert_rows (rows : nat) : W () :=
  executeAndDiscard main (B "BEGIN;") ;;
  repeat rows (λ index, executeAndDiscard main (scalar_statement (index + 1) "memory-" (index + 1) (index mod 97) ".25")) ;;
  executeAndDiscard main (B "COMMIT;").

Definition point_lookups (count rows : nat) : W () :=
  repeat count (λ index, executeAndDiscard main
    (B "SELECT id, body, score FROM scalar_memory WHERE id = " ++ show_nat (index mod rows + 1) ++ B " LIMIT 1;")).

Definition rollback_statement (index : nat) : bytes :=
  B "UPDATE scalar_memory SET score = " ++ show_nat (index mod 113) ++ B ".5 WHERE id = " ++ show_nat (index + 1) ++ B ";".

Definition rollback_updates (count : nat) : W () :=
  executeAndDiscard main (B "BEGIN;") ;;
  repeat count (λ index, executeAndDiscard main (rollback_statement index)) ;;
  executeAndDiscard main (B "ROLLBACK;").

Definition grouped_query : bytes :=
  B "SELECT score, COUNT(*) AS total FROM scalar_memory GROUP BY score HAVING total > 1 ORDER BY total DESC LIMIT 5;".

Definition joined_query : bytes :=
  B "SELECT m.id, t.name FROM scalar_memory AS m JOIN memory_tags AS t ON t.memory_id = m.id WHERE t.name = 'project' ORDER BY m.id ASC LIMIT 10;".

Definition vector_query (dimensions : nat) : bytes :=
  B "SELECT id, l2_distance(embedding, " ++ makeSqlVectorLiteral dimensions 0 ++ B ") AS distance FROM vector_memory ORDER BY distance ASC LIMIT 10;".

Definition hybrid_query (dimensions : nat) : bytes :=
  B "SELECT v.id, l2_distance(v.embedding, " ++ makeSqlVectorLiteral dimensions 1 ++
  B ") AS distance FROM vector_memory AS v JOIN memory_tags AS t ON t.memory_id = v.id WHERE t.name = 'project' ORDER BY distance ASC LIMIT 10;".

(** The exact scan over the candidates in memory. *)
Definition exact_scan (vectors dimensions : nat) : Result (list SearchResult.t) :=
  topK (makeQueryVector dimensions) (makeVectorCandidates vectors dimensions) (Nat.min 10 vectors) squared_l2.

Definition persistence (count : nat) : W Z := λ b,
  let r := runPersistenceCheckpointReopen f count (files b) in
  (Bench (shared b) (main_session b) (reader_session b) (writer_session b) r.2, r.1).

(** The workloads on the main session. *)
Definition single_session_workloads (rows vectors dimensions operations : nat) : W (list Metric.t * list SearchResult.t) :=
  create_tables dimensions ;;
  insert_commit ← measured 0 metric_names.insert_commit (counting rows (insert_rows rows));
  loadJoinRows rows ;;
  loadSqlVectorRows vectors dimensions ;;
  select_scan ← measured 1 metric_names.select_scan (counting rows (executeAndDiscard main (B "SELECT * FROM scalar_memory;")));
  grouped_scan ← measured 2 metric_names.grouped_scan (counting rows (executeAndDiscard main grouped_query));
  joined_filter ← measured 3 metric_names.joined_filter (counting rows (executeAndDiscard main joined_query));
  let point_lookup_ops := Nat.min operations rows in
  point_lookup ← measured 4 metric_names.point_lookup (counting point_lookup_ops (point_lookups point_lookup_ops rows));
  let rollback_ops := Nat.min operations rows in
  rollback ← measured 5 metric_names.rollback_updates (counting rollback_ops (rollback_updates rollback_ops));
  (* the scan is pure, so it stands before its measurement *)
  nearest ← w_lift (exact_scan vectors dimensions);
  exact_vector_scan ← measured 6 metric_names.exact_vector_scan (counting vectors (mret ()));
  sql_vector_rank ← measured 7 metric_names.sql_vector_rank (counting vectors (executeAndDiscard main (vector_query dimensions)));
  hybrid ← measured 8 metric_names.hybrid_filter_vector_rank
             (counting (Nat.min vectors rows) (executeAndDiscard main (hybrid_query dimensions)));
  reopen ← measured 9 metric_names.persistence_checkpoint_reopen (persistence (Nat.min operations 64));
  mret ([insert_commit; select_scan; grouped_scan; joined_filter; point_lookup; rollback; exact_vector_scan; sql_vector_rank;
         hybrid; reopen], nearest).

(** The workloads with sessions of their own. *)
Definition phase6_workloads (phase6_ops : nat) : W (list Metric.t) :=
  snapshot_begin ← measured 10 metric_names.snapshot_begin (counting phase6_ops (runSnapshotBeginWorkload phase6_ops));
  queued_commit ← measured 11 metric_names.queued_commit
                    (counting phase6_ops (runQueuedCommitWorkload phase6_ops (Z.to_nat 2000000)));
  concurrent ← measured 12 metric_names.concurrent_read_write
                 (counting phase6_ops (runConcurrentReadWriteWorkload phase6_ops (Z.to_nat 3000000)));
  overlap ← measured 13 metric_names.checkpoint_overlap (runCheckpointOverlapWorkload phase6_ops);
  overlay ← measured 14 metric_names.vector_overlay_visibility (runVectorOverlayVisibilityWorkload phase6_ops);
  mret [snapshot_begin; queued_commit; concurrent; overlap; overlay].

Definition workloads (options : Options.t) : W (list Metric.t * option NearestSummary.t) :=
  let rows := Z.to_nat (Options.rows options) in
  let operations := Z.to_nat (Options.operations options) in
  r ← single_session_workloads rows (Z.to_nat (Options.vectors options)) (Z.to_nat (Options.dimensions options)) operations;
  phase6 ← phase6_workloads (Nat.min operations rows);
  mret (r.1 ++ phase6, (λ s, NearestSummary.mk (SearchResult.key s) (SearchResult.distance s)) <$> head r.2).

Definition start (w : world) : bench := Bench Database.init Session.init Session.init Session.init w.

(** What [Cli.benchmark_run] measures. *)
Definition measure (w : world) (options : Options.t) : Result (list Metric.t * option NearestSummary.t) :=
  (w_defer (deinit_session main) (workloads options) (start w)).2.
End run.

(** ** The engine under the benchmark *)

(** Everything a run owns is in order: the database is consistent, and so is what the sessions have staged. *)
Definition in_order (b : bench) : Prop :=
  engine_ok (shared b) ∧ ∀ r, staged_ok (session_of b r).

Definition safe {A} (m : W A) : Prop := ∀ b, in_order b → in_order (m b).1.

Lemma safe_w_ret {A} (a : A) : safe (mret a).
Proof. by intros b Hb. Qed.

Lemma safe_lift {A} (x : Result A) : safe (w_lift x).
Proof. by intros b Hb. Qed.

Lemma safe_w_bind {A C} (m : W A) (k : A → W C) : safe m → (∀ a, safe (k a)) → safe (m ≫= k).
Proof.
  intros Hm Hk b Hb. specialize (Hm b Hb). unfold mbind, W_bind. destruct (m b) as [b' [a|e|]]; [by apply Hk|done|done].
Qed.

Lemma safe_defer {A} (cleanup : W ()) (m : W A) : safe cleanup → safe m → safe (w_defer cleanup m).
Proof.
  intros Hc Hm b Hb. specialize (Hm b Hb). unfold w_defer. destruct (m b) as [b' [a|e|]]; [by apply Hc|by apply Hc|done].
Qed.

Lemma safe_on r {A} (m : M A) : preserves engine_ok staged_ok m (λ _, True) → safe (on r m).
Proof.
  intros Hm b [Hd Hs]. destruct (Hm (Conn (shared b) (session_of b r)) Hd (Hs r)) as [[H1 H2] _]. unfold on.
  cbn [fst]. split; [by destruct r|]. intros r'. destruct r, r'; cbn; first [exact H2|exact (Hs main)|exact (Hs reader)|exact (Hs writer)].
Qed.

Lemma safe_execute r sql : safe (executeAndDiscard r sql).
Proof.
  apply safe_w_bind; [|intros; apply safe_w_ret]. apply safe_on. unfold Executor.executeSql.
  destruct (parse_statement sql) as [s|]; [|eapply preserves_weaken; [apply preserves_lift|done]].
  apply preserves_statement. destruct s; cbn; auto using kept_createView, kept_createTable, kept_dropTable.
Qed.

Lemma safe_init r : safe (init_session r).
Proof. apply safe_on, preserves_put_session. constructor. Qed.

Lemma safe_deinit r : safe (deinit_session r).
Proof. apply safe_on. eapply preserves_bind; [apply (preserves_clearTransactions (parse_body := parse_body))|].
  intros _ _. apply (preserves_releaseSnapshotHandle (parse_body := parse_body)).
Qed.

Create HintDb safe.
#[export] Hint Resolve safe_w_ret safe_lift safe_execute safe_init safe_deinit : safe.

Lemma safe_in_session {A} r (m : W A) : safe m → safe (in_session r m).
Proof. intros Hm. apply safe_w_bind; [auto with safe|]. intros _. apply safe_defer; [auto with safe|done]. Qed.

Lemma safe_repeat index n f : (∀ i, safe (f i)) → safe (repeat_from index n f).
Proof. intros Hf. revert index. induction n as [|n IH]; intros index; cbn; [apply safe_w_ret|]. by apply safe_w_bind. Qed.

(** A change of queue, registry, worker or overlay alone. *)
Lemma safe_shared b d : in_order b → same_objects (shared b) d → in_order (with_shared b d).
Proof.
  intros [Hd Hs] H. split; [by apply (invariant_objects (parse_body := parse_body) (J := staged_ok) (shared b))|].
  intros r. specialize (Hs r). by destruct r.
Qed.

Lemma safe_beginCheckpoint : safe beginCheckpoint.
Proof.
  intros b Hb. unfold beginCheckpoint, Database.beginCheckpoint. destruct (worker_begin _ _) as [[w t]|e|]; [|done..].
  by apply safe_shared.
Qed.

Lemma safe_close_ticket close t : safe (close_ticket close t).
Proof. intros b Hb. unfold close_ticket. destruct (close _ t) as [[w t']|e|]; [|done..]. by apply safe_shared. Qed.

Lemma safe_overlap_refused : safe overlap_refused.
Proof.
  intros b Hb. pose proof (safe_beginCheckpoint b Hb) as H. unfold overlap_refused. destruct (beginCheckpoint b) as [b' [t|e|]]; [| |done].
  - apply safe_w_bind; [apply safe_close_ticket|intros; apply safe_lift|done].
  - by destruct e.
Qed.

Lemma safe_unless_completed {A} t (m : W A) : safe m → safe (unless_completed t m).
Proof.
  intros Hm b Hb. specialize (Hm b Hb). unfold unless_completed. destruct (m b) as [b' [a|e|]]; [done| |done].
  pose proof (safe_close_ticket Ticket.fail t b' Hm) as H. by destruct (close_ticket _ _ _) as [b'' []].
Qed.

Lemma safe_overlay n : safe (runVectorOverlayVisibilityWorkload n).
Proof.
  intros b Hb. apply safe_shared; [done|]. unfold Database.drainVectorOverlay. by destruct (Overlay.drainReady _ _ _).
Qed.

Lemma safe_persistence f n : safe (persistence f n).
Proof. intros b [Hd Hs]. split; [done|]. intros r. specialize (Hs r). by destruct r. Qed.

#[export] Hint Resolve safe_beginCheckpoint safe_close_ticket safe_overlap_refused safe_overlay safe_persistence : safe.

(** Composes the rules over the structure of a workload. *)
Ltac safe_steps :=
  repeat lazymatch goal with
  | |- safe (_ ≫= _) => apply safe_w_bind; [|intros ?]
  | |- safe (in_session _ _) => apply safe_in_session
  | |- safe (w_defer _ _) => apply safe_defer
  | |- safe (unless_completed _ _) => apply safe_unless_completed
  | |- safe (repeat_from _ _ _) => apply safe_repeat; intros ?
  | |- safe _ => solve [auto with safe]
  end.

Lemma safe_overlap_attempts n attempts : safe (overlap_attempts n attempts).
Proof. revert attempts. induction n as [|n IH]; intros attempts; cbn [overlap_attempts]; safe_steps. Qed.
#[export] Hint Resolve safe_overlap_attempts : safe.

Lemma safe_measured clock counter k name m : safe m → safe (measured clock counter k name m).
Proof. intros Hm. unfold measured. safe_steps. Qed.

Lemma safe_counting n m : safe m → safe (counting n m).
Proof. intros Hm. unfold counting. safe_steps. Qed.
#[export] Hint Resolve safe_measured safe_counting : safe.

Lemma safe_single_session clock counter f rows vectors dimensions operations :
  safe (single_session_workloads clock counter f rows vectors dimensions operations).
Proof.
  unfold single_session_workloads, create_tables, loadJoinRows, loadSqlVectorRows. safe_steps.
  all: apply safe_measured, safe_counting; unfold insert_rows, point_lookups, rollback_updates; safe_steps.
Qed.

Lemma safe_snapshot_begin n : safe (runSnapshotBeginWorkload n).
Proof. unfold runSnapshotBeginWorkload. safe_steps. Qed.

Lemma safe_queued_commit n id_base : safe (runQueuedCommitWorkload n id_base).
Proof. unfold runQueuedCommitWorkload. safe_steps. Qed.

Lemma safe_concurrent n id_base : safe (runConcurrentReadWriteWorkload n id_base).
Proof. unfold runConcurrentReadWriteWorkload. safe_steps. Qed.

Lemma safe_checkpoint_overlap n : safe (runCheckpointOverlapWorkload n).
Proof. unfold runCheckpointOverlapWorkload. safe_steps. Qed.
#[export] Hint Resolve safe_snapshot_begin safe_queued_commit safe_concurrent safe_checkpoint_overlap : safe.

Lemma safe_phase6 clock counter n : safe (phase6_workloads clock counter n).
Proof.
  unfold phase6_workloads. generalize (Z.to_nat 2000000) (Z.to_nat 3000000). intros id_base id_base'. safe_steps.
Qed.
#[export] Hint Resolve safe_single_session safe_phase6 : safe.

Lemma safe_workloads clock counter f options : safe (workloads clock counter f options).
Proof. unfold workloads. safe_steps. Qed.

(** ** What a run that returns has measured *)
Definition yields {A} (m : W A) (Q : A → Prop) : Prop := ∀ b b' a, m b = (b', Ok a) → Q a.

Lemma yields_ret {A} (a : A) (Q : A → Prop) : Q a → yields (mret a) Q.
Proof. by intros H b b' a' [= _ <-]. Qed.

Lemma yields_any {A} (m : W A) : yields m (λ _, True).
Proof. done. Qed.

Lemma yields_lift {A} (x : Result A) : yields (w_lift x) (λ a, x = Ok a).
Proof. by intros b b' a [= _ <-]. Qed.

Lemma yields_bind {A C} (m : W A) (k : A → W C) P Q :
  yields m P → (∀ a, P a → yields (k a) Q) → yields (m ≫= k) Q.
Proof.
  intros Hm Hk b b' c. unfold mbind, W_bind. destruct (m b) as [b1 [a|e|]] eqn:E; [|done..]. intros H.
  eapply Hk; [by eapply Hm|exact H].
Qed.

Lemma yields_then {A C} (m : W A) (k : A → W C) Q : (∀ a, yields (k a) Q) → yields (m ≫= k) Q.
Proof. intros Hk. eapply yields_bind; [apply yields_any|auto]. Qed.

Lemma yields_defer {A} cleanup (m : W A) Q : yields m Q → yields (w_defer cleanup m) Q.
Proof. intros Hm b b' a. unfold w_defer. destruct (m b) as [b1 [x|e|]] eqn:E; [|done..]. intros [= _ <-]. by eapply Hm. Qed.

Lemma yields_in_session {A} r (m : W A) Q : yields m Q → yields (in_session r m) Q.
Proof. intros Hm. apply yields_then. intros _. by apply yields_defer. Qed.

Lemma yields_unless_completed {A} t (m : W A) Q : yields m Q → yields (unless_completed t m) Q.
Proof.
  intros Hm b b' a. unfold unless_completed. destruct (m b) as [b1 [x|e|]] eqn:E; [|by destruct (close_ticket _ _ _) as [? []]|done].
  intros [= _ <-]. by eapply Hm.
Qed.

Lemma yields_counting n m : yields (counting n m) (λ count, count = Z.of_nat n).
Proof. apply yields_then. intros _. by apply yields_ret. Qed.

Lemma yields_measured clock counter k name m P :
  yields m P → yields (measured clock counter k name m) (λ metric, Metric.name metric = name ∧ P (Metric.count metric)).
Proof.
  intros Hm. eapply yields_bind; [exact Hm|]. intros count Hc. apply yields_then. intros a. by apply yields_ret.
Qed.

Lemma yields_counted clock counter k name n m :
  yields (measured clock counter k name (counting n m)) (λ metric, (Metric.name metric, Metric.count metric) = (name, Z.of_nat n)).
Proof.
  intros b b' a H. apply (yields_measured _ _ _ _ _ _ (yields_counting n m)) in H as [H1 H2]. congruence.
Qed.

(** Every refused attempt is counted: a run that returns has tried as often as it was asked to. *)
Lemma yields_overlap_attempts n attempts : yields (overlap_attempts n attempts) (λ count, count = attempts + Z.of_nat n).
Proof.
  revert attempts. induction n as [|n IH]; intros attempts; cbn [overlap_attempts]; [apply yields_ret; lia|].
  apply yields_then. intros _. apply yields_then. intros _. intros b b' a H. apply IH in H. lia.
Qed.

Lemma yields_checkpoint_overlap n : yields (runCheckpointOverlapWorkload n) (λ count, count = Z.of_nat n).
Proof.
  apply yields_in_session. do 2 (apply yields_then; intros ?). eapply yields_bind; [apply yields_unless_completed, yields_overlap_attempts|].
  intros count ->. do 2 (apply yields_then; intros _). apply yields_ret. lia.
Qed.

Lemma yields_overlay n : yields (runVectorOverlayVisibilityWorkload n) (λ count, 0 ≤ count ≤ Z.of_nat n).
Proof.
  intros b b' a. unfold runVectorOverlayVisibilityWorkload, Database.drainVectorOverlay.
  match goal with |- context [Overlay.drainReady ?o ?g ?c] => pose proof (drainReady_spec o g c) as H; destruct (Overlay.drainReady o g c) as [o' drained] end.
  destruct H as [-> _]. intros [= _ <-]. cbn [snd]. rewrite length_take. lia.
Qed.

Lemma inspected_rows d n count : inspect_memories d n = Ok count → count = Z.of_nat n.
Proof.
  unfold inspect_memories. intros H. apply bind_ok_inv in H as (found & _ & H). apply bind_ok_inv in H as (table & _ & H).
  apply bind_ok_inv in H as (? & _ & H). apply bind_ok_inv in H as (rows & _ & H). apply bind_ok_inv in H as (? & Hl & H).
  apply bind_ok_inv in H as (? & _ & H). injection H as <-. unfold fail_if in Hl.
  destruct (Nat.eqb_spec (length rows) n); [by subst|done].
Qed.

Lemma yields_persistence f n : yields (persistence f n) (λ count, count = Z.of_nat n).
Proof.
  intros b b' a. unfold persistence, runPersistenceCheckpointReopen, io_bind, io_lift, io_defer. intros [= _ H]. revert H.
  repeat (case_match; simplify_eq; try done; cbn [fst snd]).
  all: intros; simplify_eq; by eapply inspected_rows.
Qed.

Local Notation entry m := (Metric.name m, Metric.count m).

Definition single_session_entries (rows vectors operations : nat) : list (bytes * Z) :=
  [(metric_names.insert_commit, Z.of_nat rows); (metric_names.select_scan, Z.of_nat rows); (metric_names.grouped_scan, Z.of_nat rows);
   (metric_names.joined_filter, Z.of_nat rows); (metric_names.point_lookup, Z.of_nat (Nat.min operations rows));
   (metric_names.rollback_updates, Z.of_nat (Nat.min operations rows)); (metric_names.exact_vector_scan, Z.of_nat vectors);
   (metric_names.sql_vector_rank, Z.of_nat vectors); (metric_names.hybrid_filter_vector_rank, Z.of_nat (Nat.min vectors rows));
   (metric_names.persistence_checkpoint_reopen, Z.of_nat (Nat.min operations 64))].

(** [visible] is the number of vectors drained from the overlay. *)
Definition phase6_entries (phase6_ops : nat) (visible : Z) : list (bytes * Z) :=
  [(metric_names.snapshot_begin, Z.of_nat phase6_ops); (metric_names.queued_commit, Z.of_nat phase6_ops);
   (metric_names.concurrent_read_write, Z.of_nat phase6_ops); (metric_names.checkpoint_overlap, Z.of_nat phase6_ops);
   (metric_names.vector_overlay_visibility, visible)].

Ltac counted_step := eapply yields_bind; [apply yields_counted|intros ? ?].
Ltac then_step := apply yields_then; intros ?.

Lemma yields_single_session clock counter f rows vectors dimensions operations :
  yields (single_session_workloads clock counter f rows vectors dimensions operations)
    (λ r, ((λ m, entry m) <$> r.1) = single_session_entries rows vectors operations ∧ exact_scan vectors dimensions = Ok r.2).
Proof.
  unfold single_session_workloads. then_step. counted_step. do 2 then_step. do 5 counted_step.
  eapply yields_bind; [apply yields_lift|]. intros nearest Hn. do 3 counted_step.
  eapply yields_bind; [apply yields_measured, yields_persistence|]. intros reopen [Hr1 Hr2]. apply yields_ret. cbn [fst snd]. split; [|done].
  unfold single_session_entries. cbn [fmap list_fmap]. congruence.
Qed.

Lemma yields_phase6 clock counter n :
  yields (phase6_workloads clock counter n) (λ ms, ∃ visible, 0 ≤ visible ≤ Z.of_nat n ∧ ((λ m, entry m) <$> ms) = phase6_entries n visible).
Proof.
  unfold phase6_workloads. generalize (Z.to_nat 2000000) (Z.to_nat 3000000). intros id_base id_base'. do 3 counted_step.
  eapply yields_bind; [apply yields_measured, yields_checkpoint_overlap|]. intros overlap [Ho1 Ho2].
  eapply yields_bind; [apply yields_measured, yields_overlay|]. intros overlay [Hv1 Hv2]. apply yields_ret.
  exists (Metric.count overlay). split; [done|]. unfold phase6_entries. cbn [fmap list_fmap]. congruence.
Qed.

(** The names in a report, in order. *)
Definition report_names : list bytes :=
  [metric_names.insert_commit; metric_names.select_scan; metric_names.grouped_scan; metric_names.joined_filter;
   metric_names.point_lookup; metric_names.rollback_updates; metric_names.exact_vector_scan; metric_names.sql_vector_rank;
   metric_names.hybrid_filter_vector_rank; metric_names.persistence_checkpoint_reopen] ++ phase6_metric_names.

Lemma entry_names rows vectors operations n visible :
  (single_session_entries rows vectors operations ++ phase6_entries n visible).*1 = report_names.
Proof. reflexivity. Qed.

Lemma hasAllMetrics_names metrics names :
  Forall (λ n, n ∈ Metric.name <$> metrics) names → hasAllMetrics metrics names = true.
Proof.
  intros H. unfold hasAllMetrics. apply forallb_forall. intros n Hn%list_elem_of_In. eapply Forall_forall in H; [|exact Hn].
  apply list_elem_of_fmap in H as (m & -> & Hm). apply existsb_exists. exists m. split; [by apply list_elem_of_In|by apply bool_decide_eq_true].
Qed.

Definition summary (results : list SearchResult.t) : option NearestSummary.t :=
  (λ s, NearestSummary.mk (SearchResult.key s) (SearchResult.distance s)) <$> head results.

Lemma yields_workloads clock counter f options :
  let rows := Z.to_nat (Options.rows options) in
  let vectors := Z.to_nat (Options.vectors options) in
  let operations := Z.to_nat (Options.operations options) in
  yields (workloads clock counter f options) (λ r,
    (∃ visible, 0 ≤ visible ≤ Z.of_nat (Nat.min operations rows) ∧
       ((λ m, entry m) <$> r.1) = single_session_entries rows vectors operations ++ phase6_entries (Nat.min operations rows) visible) ∧
    ∃ results, exact_scan vectors (Z.to_nat (Options.dimensions options)) = Ok results ∧ r.2 = summary results).
Proof.
  intros rows vectors operations. unfold workloads. eapply yields_bind; [apply yields_single_session|]. intros [ms results] [Hs Hn].
  eapply yields_bind; [apply yields_phase6|]. intros ms6 (visible & Hv & H6). apply yields_ret. cbn [fst snd] in *.
  split; [exists visible; split; [exact Hv|]; by rewrite fmap_app, Hs, H6|]. exists results. split; [exact Hn|reflexivity].
Qed.

Lemma measured_run {allocator : Allocator} clock counter f w options metrics nearest :
  measure clock counter f w options = Ok (metrics, nearest) →
  ∃ b, w_defer (deinit_session main) (workloads clock counter f options) (start w) = (b, Ok (metrics, nearest)).
Proof. unfold measure. intros H. destruct (w_defer _ _ _) as [b r]. exists b. f_equal. exact H. Qed.

(** A report with the entries of the run has all the names that are looked for. *)
Lemma entries_complete metrics rows vectors operations n visible :
  ((λ m, entry m) <$> metrics) = single_session_entries rows vectors operations ++ phase6_entries n visible →
  hasAllMetrics metrics missing_workload_metric_names = true ∧ hasAllMetrics metrics phase6_metric_names = true.
Proof.
  intros He%(f_equal (fmap fst)). rewrite entry_names, <- list_fmap_compose in He. change (Metric.name <$> metrics = report_names) in He.
  split; apply hasAllMetrics_names; rewrite He; apply (bool_decide_eq_true_1 (Forall _ _)); vm_compute; reflexivity.
Qed.

Lemma start_in_order {allocator : Allocator} w : in_order (start w).
Proof. split; [split; cbn; constructor|]. intros []; constructor. Qed.

(** C23: a benchmark run that returns reports all fifteen measurements, in the order of the report and with the numbers of
    operations the options ask for: in particular every overlapping checkpoint was refused, every row of the persistence
    workload came back, and the groups of metrics the acceptance tests look for are complete.  The nearest vector reported
    is the first of the exact scan.  Whether it returns or fails, on any clock, counters and file system, the engine is left
    consistent. *)
Theorem benchmark_reports {allocator : Allocator} (clock : nat → Z) (counter : nat → AllocationStats.t) (f : workload_faults) (w : world) (options : Options.t) :
  let rows := Z.to_nat (Options.rows options) in
  let vectors := Z.to_nat (Options.vectors options) in
  let operations := Z.to_nat (Options.operations options) in
  (∀ metrics nearest, measure clock counter f w options = Ok (metrics, nearest) →
     (∃ visible, 0 ≤ visible ≤ Z.of_nat (Nat.min operations rows) ∧
        ((λ m, (Metric.name m, Metric.count m)) <$> metrics) =
          single_session_entries rows vectors operations ++ phase6_entries (Nat.min operations rows) visible) ∧
     hasAllMetrics metrics missing_workload_metric_names = true ∧ hasAllMetrics metrics phase6_metric_names = true ∧
     ∃ results, exact_scan vectors (Z.to_nat (Options.dimensions options)) = Ok results ∧
       nearest = summary results) ∧
  in_order (workloads clock counter f options (start w)).1.
Proof.
  intros rows vectors operations. split; [|apply safe_workloads, start_in_order].
  intros metrics nearest [b E]%measured_run. pose proof (yields_defer (deinit_session main) _ _ (yields_workloads clock counter f options)) as Hy.
  destruct (Hy _ _ _ E) as [(visible & Hv & He) Hr]. cbn [fst snd] in He, Hr. clear Hy E.
  destruct (entries_complete _ _ _ _ _ _ He) as [H1 H2]. split; [exists visible; split; [exact Hv|exact He]|].
  split; [exact H1|]. split; [exact H2|exact Hr].
Qed.

(** ** A run *)
#[local] Existing Instance in_place.

Definition sample_options : Options.t := Options.mk 1 1 1 1 format_text None.
Definition sample_clock (n : nat) : Z := 1000 * Z.of_nat n.
Definition sample_counter (n : nat) : AllocationStats.t := AllocationStats.mk (Z.of_nat n) (64 * Z.of_nat n).

Definition returns {A} (r : Result A) : bool := match r with Ok _ => true | _ => false end.

Lemma sample_returns : returns (measure sample_clock sample_counter no_workload_faults (World ∅ []) sample_options) = true.
Proof. vm_compute. reflexivity. Qed.

Lemma benchmark_reports_witness :
  ∃ metrics nearest, measure sample_clock sample_counter no_workload_faults (World ∅ []) sample_options = Ok (metrics, nearest) ∧
    hasAllMetrics metrics phase6_metric_names = true ∧
    in_order (workloads sample_clock sample_counter no_workload_faults sample_options (start (World ∅ []))).1.
Proof.
  destruct (benchmark_reports sample_clock sample_counter no_workload_faults (World ∅ []) sample_options) as [H1 H2].
  pose proof sample_returns as Hr. revert Hr.
  destruct (measure sample_clock sample_counter no_workload_faults (World ∅ []) sample_options) as [[metrics nearest]|e|] eqn:E;
    [intros _|discriminate|discriminate].
  exists metrics, nearest. destruct (H1 metrics nearest eq_refl) as (_ & _ & H & _). split; [reflexivity|]. split; [exact H|exact H2].
Defined.
