(* ===== verification/ExecutorRuns.v ===== *)
(** * Histories of the executor

    Small histories of several sessions, evaluated on the definitions of [Executor.v].  They fix the
    behaviour of [src/src/db/executor.zig] and [src/src/db/query_source.zig] at points where
    the outcome is surprising: a COMMIT that fails half-way, a CREATE TABLE or DROP TABLE under an open
    transaction, a commit that publishes nothing, and name lookup inside a view.  [TablePointers.v] proves all but the
    last for every history. *)

From S2P Require Import Prelude Value Catalog RowStore.
From S2P Require Import Ast Eval QuerySource QueryFacts Registries Executor ExecutorFacts.

(** ** Statements of the histories *)
Definition int (x : Z) : Expression.t := Expression.literal (Literal.integer x).

Definition create_simple (name : bytes) : Statement.t :=
  Statement.create_table (CreateTable.mk name false [AstColumnDef.mk (B "x") AstColumnType.integer true None false false] []).

Definition insert_into (name : bytes) (x : Z) : Statement.t := Statement.insert (Insert.mk name [B "x"] [int x]).

Definition update_all (name : bytes) (x : Z) : Statement.t :=
  Statement.update (Update.mk name [Assignment.mk (B "x") (int x)] None).

Definition delete_all (name : bytes) : Statement.t := Statement.delete (Delete.mk name None).

(** Each statement in turn, with what it returned. *)
Fixpoint run_log (y : system) (steps : list (nat * Statement.t)) : system * list (Result ExecutionResult.t) :=
  match steps with
  | [] => (y, [])
  | (i, st) :: rest =>
      match sys_step no_bodies y i st with
      | Some (y', r) => let '(y'', log) := run_log y' rest in (y'', r :: log)
      | None => (y, [])
      end
  end.

#[local] Existing Instance in_place.

(** Two sessions on an empty engine. *)
Definition fresh : system := System Database.init [Session.init; Session.init].

Definition after (steps : list (nat * Statement.t)) : system := (run_log fresh steps).1.
Definition outcomes (y : system) (steps : list (nat * Statement.t)) : list (Result ExecutionResult.t) := (run_log y steps).2.

(** The committed rows of a table. *)
Definition committed_rows (y : system) (name : bytes) : option (list (list Value.t)) :=
  (λ t, Row.values <$> RowStore.rows (TableState.store t.2)) <$> Database.getTableState (sys_db y) name.

Definition ok := Ok ExecutionResult.ok.
Definition changed (n : Z) := Ok (ExecutionResult.mutation_count n).

(** ** A commit over two tables that fails half-way *)
Definition two_tables : list (nat * Statement.t) :=
  [(0%nat, create_simple (B "a")); (0%nat, create_simple (B "b"));
   (0%nat, Statement.begin); (0%nat, insert_into (B "b") 1); (0%nat, Statement.commit)].

(** Session 1 inserts into [a] and updates the row of [b]; session 0 deletes that row and commits first. *)
Definition conflicting : list (nat * Statement.t) :=
  two_tables ++
  [(1%nat, Statement.begin); (1%nat, insert_into (B "a") 7); (1%nat, update_all (B "b") 8);
   (0%nat, Statement.begin); (0%nat, delete_all (B "b")); (0%nat, Statement.commit)].

(** The COMMIT of session 1 fails, yet its insert into [a] is published; from then on neither ROLLBACK nor COMMIT
    ends its transaction. *)
Lemma failed_commit_run :
  committed_rows (after conflicting) (B "a") = Some [] ∧
  outcomes (after conflicting)
    [(1%nat, Statement.commit); (1%nat, Statement.rollback); (1%nat, Statement.commit); (1%nat, Statement.begin)] =
    [Err UnknownRow; Err AlreadyCommitted; Err AlreadyCommitted; Err TransactionActive] ∧
  committed_rows (after (conflicting ++ [(1%nat, Statement.commit)])) (B "a") = Some [[Value.integer 7]].
Proof. split_and!; vm_compute; reflexivity. Qed.

(** ** A table dropped under an open transaction *)
Definition three_tables : list (nat * Statement.t) :=
  [(0%nat, create_simple (B "a")); (0%nat, create_simple (B "b")); (0%nat, create_simple (B "c"))].

(** Session 1 stages an insert into [b]; session 0 drops [a]; the insert is committed into [c]. *)
Lemma dropped_table_run :
  outcomes (after three_tables)
    [(1%nat, Statement.begin); (1%nat, insert_into (B "b") 5);
     (0%nat, Statement.drop_table (Named.mk (B "a") false)); (1%nat, Statement.commit)] =
    [ok; changed 1; ok; ok] ∧
  let y := after (three_tables ++
    [(1%nat, Statement.begin); (1%nat, insert_into (B "b") 5);
     (0%nat, Statement.drop_table (Named.mk (B "a") false)); (1%nat, Statement.commit)]) in
  committed_rows y (B "b") = Some [] ∧ committed_rows y (B "c") = Some [[Value.integer 5]].
Proof. split; [vm_compute; reflexivity|]. cbv zeta. split_and!; vm_compute; reflexivity. Qed.

(** ** A table created under an open transaction *)
Definition created_inside : list (nat * Statement.t) :=
  [(0%nat, create_simple (B "a")); (0%nat, Statement.begin); (0%nat, insert_into (B "a") 1); (0%nat, create_simple (B "b"))].

(** One session creates a table inside its own transaction: the COMMIT publishes as long as the list of tables stays where it is,
    and has no defined outcome when the allocator moves it. *)
Lemma created_table_run :
  outcomes fresh (created_inside ++ [(0%nat, Statement.commit)]) = [ok; ok; changed 1; ok; ok] ∧
  (run_log (System (Database.init (allocator := always_moving)) [Session.init; Session.init]) (created_inside ++ [(0%nat, Statement.commit)])).2 =
    [ok; ok; changed 1; ok; Panic].
Proof. split; vm_compute; reflexivity. Qed.

(** ** A commit that publishes nothing *)
Lemma empty_commit_advances_sequence :
  outcomes (after [(0%nat, create_simple (B "a"))])
    [(0%nat, Statement.begin); (0%nat, update_all (B "a") 8); (0%nat, Statement.commit)] = [ok; changed 0; ok] ∧
  Database.commit_sequence (sys_db (after
    [(0%nat, create_simple (B "a")); (0%nat, Statement.begin); (0%nat, update_all (B "a") 8); (0%nat, Statement.commit)])) = 1.
Proof. split_and!; vm_compute; reflexivity. Qed.

(** ** Names inside a view *)
Definition select_from (name : bytes) (ctes : list CommonTableExpression) : SelectStatement :=
  Select ctes [] [Expression.star] (Some name) (Some (base_table name None)) None [] None [] None.

(** [t] holds 1, [u] holds 2, and [v] is SELECT * FROM t. *)
Definition with_view : list (nat * Statement.t) :=
  [(0%nat, create_simple (B "t")); (0%nat, create_simple (B "u"));
   (0%nat, Statement.create_view (CreateView.mk (B "v") (select_from (B "t") []) (B "select * from t")));
   (0%nat, Statement.begin); (0%nat, insert_into (B "t") 1); (0%nat, insert_into (B "u") 2); (0%nat, Statement.commit)].

Definition select_rows (y : system) (q : SelectStatement) : Result (list (list Value.t)) :=
  ResultSet.rows <$> (executor_executeSelect q (Conn (sys_db y) Session.init)).2.

(** WITH t AS (SELECT * FROM u) SELECT * FROM v reads the rows of [u]: the body of the view is resolved in the
    scope of the query that uses it. *)
Lemma view_captures_cte :
  select_rows (after with_view) (select_from (B "v") []) = Ok [[Value.integer 1]] ∧
  select_rows (after with_view) (select_from (B "v") [Cte (B "t") (select_from (B "u") [])]) = Ok [[Value.integer 2]].
Proof. split_and!; vm_compute; reflexivity. Qed.
