(* ===== verification/TablePointers.v ===== *)
(** * Pointers into the list of tables

    A table transaction of a session keeps a pointer to the store of its table in the array that holds [Database.tables].  What
    keeps these pointers valid (no CREATE TABLE or DROP TABLE while any session has a table transaction), and what happens to
    them otherwise: a CREATE TABLE that moves the array leaves them without a defined target, a DROP TABLE of an earlier table or
    of the table itself shifts another table under them.  Then what COMMIT publishes: [transaction_end] for a COMMIT that succeeds,
    and a COMMIT that fails on one of its tables. *)

From S2P Require Import Prelude Value Catalog CatalogFacts RowStore Transaction Concurrency Snapshot Overlay.
From S2P Require Import Ast Eval QuerySource Registries Executor ExecutorFacts Preserves Recovery ExecutorInvariant ExecutorRuns.

(** ** Pointers that stay valid *)

(** [points_home] in terms of the names of the tables and the place of the array, which most statements leave alone. *)
Definition home (names : list bytes) (address : nat) (e : TableTransaction.t) : Prop :=
  TablePointer.address (TableTransaction.pointer e) = address ∧
  names !! TablePointer.slot (TableTransaction.pointer e) = Some (TableTransaction.table_name e).

Definition laid_out (names : list bytes) (address : nat) (d : Database.t) : Prop :=
  TableState.name <$> Database.tables d = names ∧ TableMemory.address (Database.tables_memory d) = address.

Definition at_home (names : list bytes) (address : nat) (s : Session.t) : Prop :=
  Forall (home names address) (Session.transactions s).

Lemma points_home_at names address d e : laid_out names address d → points_home d e ↔ home names address e.
Proof.
  intros [<- <-]. unfold points_home, home. rewrite list_lookup_fmap. split.
  - intros (ts & [Ha Hs]%deref_ok & Hn). by rewrite Hs, <-Hn.
  - intros [Ha Hs]. destruct (Database.tables d !! _) as [ts|] eqn:E; [|done]. injection Hs as Hn. exists ts. split; [|done].
    unfold Database.deref, item_at. by rewrite Ha, Nat.eqb_refl, E.
Qed.

Lemma all_home_at names address d s :
  laid_out names address d → Forall (points_home d) (Session.transactions s) ↔ at_home names address s.
Proof. intros H. unfold at_home. rewrite !Forall_forall. by setoid_rewrite (points_home_at names address d _ H). Qed.

Section layout.
Context (names : list bytes) (address : nat).

Local Notation kept m := (preserves (laid_out names address) (at_home names address) m (λ _, True)).

Lemma layout_kept_intro {A} (m : M A) :
  (∀ c, laid_out names address (db c) → session (m c).1 = session c ∧ laid_out names address (db (m c).1)) → kept m.
Proof. intros H c Hi Hj. destruct (H c Hi) as [E1 E2]. split; [|done]. by rewrite E1. Qed.

Lemma layout_refresh d d' : laid_out names address d → Database.refreshTablePointers d = Ok d' → laid_out names address d'.
Proof.
  unfold Database.refreshTablePointers. intros [H1 H2] H. apply bind_ok_inv in H as (ts & Hts & H). injection H as <-.
  split; [|done]. rewrite <-H1. cbn. clear H1 H2. apply mapR_ok_inv in Hts.
  induction Hts as [|a b l k Hab _ IH]; [done|]. csimpl. rewrite IH. f_equal. destruct (DatabaseCatalog.getTable _ _); by inv_ok.
Qed.

Lemma layout_commit_entry i : kept (commit_entry i).
Proof.
  intros c Hi Hj. unfold commit_entry. rewrite run_get_session, run_get_db, run_lift.
  destruct (item_at (Session.transactions (session c)) i) as [entry| |] eqn:He; [|done|done].
  rewrite run_lift. destruct (Database.deref (db c) (TableTransaction.pointer entry)) as [ts| |] eqn:Hts; [|done|done].
  rewrite run_lift. destruct (Transaction.commit _ _) as [[tx' st']| |]; [|done|done]. rewrite run_put_db.
  apply item_at_ok in He. apply deref_ok in Hts as [_ Hts]. split; [|done]. split; cbn.
  - destruct Hi as [H1 H2]. split; cbn; [|done]. rewrite list_fmap_insert, H1. apply list_insert_id.
    rewrite <-H1, list_lookup_fmap, Hts. done.
  - apply Forall_insert; [done|]. exact (Forall_lookup_1 _ _ _ _ Hj He).
Qed.

(** Statements on the catalog and the registries. *)
Lemma layout_same d d' : laid_out names address d → Database.tables d' = Database.tables d →
  Database.tables_memory d' = Database.tables_memory d → laid_out names address d'.
Proof. intros [H1 H2] Ht Hm. split; by rewrite ?Ht, ?Hm. Qed.

#[local] Hint Extern 1 (laid_out _ _ (_ _ _)) => eapply layout_same; [eassumption|done|done] : preserves.

Lemma layout_undo drop : kept (undo_catalog drop).
Proof. unfold undo_catalog, put_catalog. preserve. Qed.

#[local] Hint Resolve layout_undo : preserves.

Lemma layout_createView s : kept (createView s).
Proof.
  unfold createView, put_catalog. eapply preserves_bind; [preserve|intros d Hd]. eapply preserves_bind; [preserve|intros c _].
  eapply preserves_bind; [preserve|intros _ _]. apply preserves_on_error; preserve.
Qed.

Lemma layout_createProcedure parse_body s : kept (createProcedure parse_body s).
Proof.
  unfold createProcedure, put_catalog. eapply preserves_bind; [preserve|intros d Hd]. eapply preserves_bind; [preserve|intros c _].
  eapply preserves_bind; [preserve|intros _ _]. apply preserves_on_error; preserve.
Qed.

Lemma layout_dropView s : kept (executor_dropView s).
Proof. unfold executor_dropView, put_catalog. preserve. Qed.

Lemma layout_dropProcedure s : kept (executor_dropProcedure s).
Proof. unfold executor_dropProcedure, put_catalog. preserve. Qed.

#[export] Instance layout_invariant parse_body : executor_invariant parse_body (laid_out names address) (at_home names address).
Proof.
  split.
  - intros d d' Hd [_ _ _ H1 H2]. by apply (layout_same d).
  - intros s s' Hs [E|E]; unfold at_home in *; rewrite E; [done|constructor].
  - intros c c' Hd Hs Hq. apply (all_home_at _ _ (db c)); [done|]. apply (quiet_home _ _ Hq). by apply (all_home_at names address).
  - apply layout_refresh.
  - apply layout_commit_entry.
  - apply layout_dropView.
  - apply layout_createProcedure.
  - apply layout_dropProcedure.
Qed.
End layout.

(** The statements that change the list of tables. *)
Definition changes_tables (statement : Statement.t) : bool :=
  match statement with Statement.create_table _ | Statement.drop_table _ => true | _ => false end.

Lemma definitions_keep_session parse_body statement c :
  changes_tables statement = true → session (executeStatement parse_body statement c).1 = session c.
Proof.
  unfold executeStatement, executeStatementWith. destruct statement; try done; intros _; rewrite run_then_ret; cbn [fst].
  - unfold createTable. rewrite run_get_db. destruct (_ && _); [done|]. rewrite run_lift.
    destruct (table_spec _); [|done|done]. rewrite run_lift. destruct (DatabaseCatalog.createTable _ _); [|done|done]. cbv zeta.
    rewrite run_lift. destruct (orelse _ _); [|done|done]. rewrite run_lift. by destruct (Database.refreshTablePointers _).
  - unfold dropTable. rewrite run_get_db. destruct (Database.findTableStateIndex _ _); [|by destruct (Named.if_exists _)].
    rewrite run_lift. destruct (DatabaseCatalog.dropTable _ _); [|done|done]. rewrite run_lift. by destruct (Database.refreshTablePointers _).
Qed.

(** The runs of [n] sessions in which no CREATE TABLE or DROP TABLE is executed while a session has a table transaction; the
    statements may end in any way. *)
Inductive orderly (parse_body : bytes → option Body) (n : nat) : system → Prop :=
  | orderly_start (allocator : Allocator) : orderly parse_body n (System Database.init (replicate n Session.init))
  | orderly_step y i statement y' r :
      orderly parse_body n y →
      (changes_tables statement = true → Forall (λ s, Session.transactions s = []) (sessions y)) →
      sys_step parse_body y i statement = Some (y', r) → orderly parse_body n y'.

(** C22: as long as no table is created or dropped while a session has a table transaction, the pointer of every table
    transaction of every session leads to the row store of the table the transaction was opened for. *)
Theorem pointers_stay_home (parse_body : bytes → option Body) (n : nat) (y : system) (s : Session.t) :
  orderly parse_body n y → s ∈ sessions y → Forall (points_home (sys_db y)) (Session.transactions s).
Proof.
  intros H. revert s. induction H as [allocator|y i statement y' r _ IH Hcalm Hstep]; intros s Hs.
  { apply elem_of_replicate in Hs as [-> _]. constructor. }
  destruct (changes_tables statement) eqn:Ec.
  - specialize (Hcalm eq_refl). unfold sys_step in Hstep. apply bind_Some in Hstep as (s0 & Hi & Hstep).
    pose proof (definitions_keep_session parse_body statement (Conn (sys_db y) s0) Ec) as E.
    destruct (executeStatement _ _ _) as [c r']. cbn [fst session] in E. injection Hstep as <- <-. cbn [sessions] in Hs.
    rewrite E, list_insert_id in Hs by done. rewrite Forall_forall in Hcalm. rewrite (Hcalm _ Hs). constructor.
  - set (names := TableState.name <$> Database.tables (sys_db y)).
    set (address := TableMemory.address (Database.tables_memory (sys_db y))).
    assert (Hlay : laid_out names address (sys_db y)) by done.
    destruct (sys_step_preserves (parse_body := parse_body) (I := laid_out names address) (J := at_home names address) y i statement y' r) as [Hl Hh].
    + destruct statement; try done. apply layout_createView.
    + done.
    + split; [done|]. apply Forall_forall. intros s0 Hs0. apply (all_home_at _ _ (sys_db y)); [done|]. by apply IH.
    + rewrite Forall_forall in Hh. apply (all_home_at names address); [done|]. by apply Hh.
Qed.

(** ** Pointers that do not *)

Lemma moved_deref d p : TablePointer.address p ≠ TableMemory.address (Database.tables_memory d) → Database.deref d p = Panic.
Proof. intros H. unfold Database.deref. by destruct (Nat.eqb_spec (TablePointer.address p) (TableMemory.address (Database.tables_memory d))). Qed.

(** The [i]-th table transaction of the session points into memory that the array has left. *)
Definition stranded (i : nat) (c : conn) : Prop :=
  ∃ e, Session.transactions (session c) !! i = Some e ∧
       TablePointer.address (TableTransaction.pointer e) ≠ TableMemory.address (Database.tables_memory (db c)).

Lemma commit_entry_stranded i j c : stranded i c → stranded i (commit_entry j c).1.
Proof.
  intros (e & He & Ha). unfold commit_entry. rewrite run_get_session, run_get_db, run_lift.
  destruct (item_at (Session.transactions (session c)) j) as [entry| |] eqn:Hj; [|by exists e|by exists e].
  rewrite run_lift. destruct (Database.deref _ _) as [ts| |]; [|by exists e|by exists e].
  rewrite run_lift. destruct (Transaction.commit _ _) as [[tx' st']| |]; [|by exists e|by exists e]. rewrite run_put_db.
  apply item_at_ok in Hj. unfold stranded. cbn. destruct (decide (i = j)) as [->|Hne].
  - rewrite list_lookup_insert_eq by (by eapply lookup_lt_Some). eexists. split; [done|]. by simplify_eq.
  - rewrite list_lookup_insert_ne by done. by exists e.
Qed.

Lemma commit_entry_undefined i c : stranded i c → (commit_entry i c).2 = Panic.
Proof.
  intros (e & He & Ha). unfold commit_entry. rewrite run_get_session, run_get_db, run_lift. unfold item_at. rewrite He.
  by rewrite run_lift, moved_deref.
Qed.

Lemma commit_loop_stranded i l c : i ∈ l → stranded i c → (forM (λ _ j, commit_entry j) () l c).2 ≠ Ok ().
Proof.
  revert c. induction l as [|j l IH]; intros c Hin Hc; [by apply not_elem_of_nil in Hin|]. cbn [forM]. rewrite run_bind.
  pose proof (commit_entry_stranded i j c Hc) as Hc'. destruct (decide (j = i)) as [->|Hne].
  - pose proof (commit_entry_undefined i c Hc) as E. by destruct (commit_entry i c) as [c' [[]| |]].
  - destruct (commit_entry j c) as [c' [[]| |]]; [|done|done]. apply IH; [|done]. by apply elem_of_cons in Hin as [?|?].
Qed.

Lemma commit_entries_stranded i c : stranded i c → (commit_entries c).2 ≠ Ok ().
Proof.
  intros Hc. pose proof Hc as (e & He & _). unfold commit_entries. rewrite run_get_session. apply (commit_loop_stranded i); [|done].
  apply elem_of_seq. apply lookup_lt_Some in He. lia.
Qed.

(** A COMMIT whose loop cannot succeed on any database with these tables does not succeed. *)
Lemma commit_fails c :
  Session.transactions (session c) ≠ [] →
  (∀ d, same_objects (db c) d → (commit_entries (Conn d (session c))).2 ≠ Ok ()) → (session_commit c).2 ≠ Ok ().
Proof.
  intros Hne Hloop. unfold session_commit. rewrite run_get_session. destruct (negb _); [done|].
  destruct (Session.transactions (session c)) as [|e l] eqn:Ht; [done|]. cbn [length Nat.ltb Nat.leb].
  rewrite run_assoc, run_get_db, run_assoc, run_lift. destruct (Queue.enqueue _) as [q| |]; [|done|done].
  rewrite run_assoc, run_put_db, run_assoc, run_bind. unfold on_error, commit_queued. rewrite run_get_session, run_get_db.
  cbn [db session].
  pose proof (retain_same (Database.with_commit (db c) (Database.commit_sequence (db c)) q) (Session.snapshot_handle (session c))) as Hsame.
  destruct (Database.retainCurrentGenerationForActiveSnapshots _ _) as [d' res]. cbn [fst] in Hsame. rewrite run_put_db, run_lift.
  destruct res as [[]|e'|]; [|by destruct (abort_queued _) as [? []]|done].
  rewrite run_bind. cbn [session]. pose proof (Hloop d') as Hce.
  destruct (commit_entries (Conn d' (session c))) as [c1 [[]|e'|]]; cbn [snd] in Hce.
  - exfalso. apply Hce; [|done]. destruct Hsame. by split.
  - by destruct (abort_queued c1) as [? []].
  - done.
Qed.

Lemma commit_stranded i c : stranded i c → (session_commit c).2 ≠ Ok ().
Proof.
  intros (e & He & Ha). apply commit_fails.
  - intros E. by rewrite E in He.
  - intros d [_ _ _ _ Hm]. apply (commit_entries_stranded i). exists e. cbn. by rewrite Hm.
Qed.

Lemma findTransactionIndex_name s a b : eqlIgnoreCase a b = true → Session.findTransactionIndex s a = Session.findTransactionIndex s b.
Proof.
  intros H%eqlIgnoreCase_spec. apply find_index_ext. intros e _. apply eq_true_iff_eq. by rewrite !eqlIgnoreCase_spec, H.
Qed.

Lemma getTableState_name d name i ts : Database.getTableState d name = Some (i, ts) → eqlIgnoreCase (TableState.name ts) name = true.
Proof.
  intros [Hi Ht]%getTableState_ok. apply find_index_lookup in Hi as (x & Hx & E). by simplify_eq.
Qed.

Lemma with_transaction_stranded {A} i (op : Transaction.t → RowStore.t → Result (Transaction.t * A)) c :
  stranded i c → (with_transaction i op c).2 = Panic.
Proof.
  intros (e & He & Ha). unfold with_transaction. rewrite run_get_session, run_get_db, run_lift. unfold item_at. rewrite He.
  rewrite run_lift. unfold store_at. by rewrite moved_deref.
Qed.

Lemma insert_stranded i ins c :
  Session.findTransactionIndex (session c) (Insert.table_name ins) = Some i → stranded i c → ∀ n, (executeInsert ins c).2 ≠ Ok n.
Proof.
  intros Hi Hc n. unfold executeInsert. rewrite run_get_session. destruct (negb _); [done|]. rewrite run_get_db, run_lift.
  destruct (Database.getTableState (db c) (Insert.table_name ins)) as [[k ts]|] eqn:Ht; cbn [orelse]; [|done].
  unfold transactionFor. rewrite run_assoc, run_get_session.
  rewrite (findTransactionIndex_name _ _ _ (getTableState_name _ _ _ _ Ht)), Hi, run_ret, run_get_session, run_lift.
  destruct (item_at _ i); [|done|done]. rewrite run_lift. destruct (rowValuesForInsert _ _ _); [|done|done].
  rewrite run_bind. pose proof (with_transaction_stranded i (λ tx store, Transaction.insert tx store a0) c Hc) as E.
  by destruct (with_transaction i _ c) as [c' [| |]].
Qed.

Lemma scan_stranded i d s ts :
  Session.findTransactionIndex s (TableState.name ts) = Some i → stranded i (Conn d s) → ∀ rows, scanRowsForTable d s ts ≠ Ok rows.
Proof.
  intros Hi (e & He & Ha) rows. unfold scanRowsForTable, Session.transactionForRead. rewrite Hi. cbn in *. rewrite He.
  destruct (Session.baseStoreForRead s d ts); cbn; [|done|done]. unfold store_at. by rewrite moved_deref.
Qed.

(** The list after a CREATE TABLE that adds a table. *)
Lemma createTable_memory d s st s' d' :
  createTable st (Conn d s) = (Conn d' s', Ok ()) → Database.getTableState d (CreateTable.name st) = None →
  Database.tables_memory d' = TableMemory.append (Database.tables_memory d).
Proof.
  unfold createTable. rewrite run_get_db. intros H Hn. cbn [db] in H. rewrite Hn, bool_decide_eq_false_2, andb_false_r in H by (by intros [? ?]).
  rewrite run_lift in H. destruct (table_spec st); [|done|done]. rewrite run_lift in H.
  destruct (DatabaseCatalog.createTable _ _); [|done|done]. cbv zeta in H. rewrite run_lift in H. destruct (orelse _ _); [|done|done].
  rewrite run_lift in H. destruct (Database.refreshTablePointers _) as [d1| |] eqn:Hr; [|done|done].
  injection H as <- _. unfold Database.refreshTablePointers in Hr. by inv_ok.
Qed.

(** C34: a CREATE TABLE that makes the allocator move the list of tables takes the target from every table transaction that any
    session has open at that time, its own included: from then on no COMMIT of such a session succeeds, and no INSERT into the
    table and no read of it either (what the code does is undefined, unless an error stops it before). *)
Theorem create_table_strands_transactions (st : CreateTable.t) (d d' : Database.t) (s0 s0' s : Session.t) (i : nat) (e : TableTransaction.t) :
  createTable st (Conn d s0) = (Conn d' s0', Ok ()) → Database.getTableState d (CreateTable.name st) = None →
  TableMemory.allocator (Database.tables_memory d) (TableMemory.appends (Database.tables_memory d)) = true →
  points_home d e → Session.transactions s !! i = Some e →
  (session_commit (Conn d' s)).2 ≠ Ok () ∧
  (∀ ins n, Session.findTransactionIndex s (Insert.table_name ins) = Some i → (executeInsert ins (Conn d' s)).2 ≠ Ok n) ∧
  (∀ ts rows, Session.findTransactionIndex s (TableState.name ts) = Some i → scanRowsForTable d' s ts ≠ Ok rows).
Proof.
  intros Hc Hn Hmove (ts & [Ha _]%deref_ok & _) He. pose proof (createTable_memory _ _ _ _ _ Hc Hn) as Hm.
  assert (Hs : stranded i (Conn d' s)).
  { exists e. split; [done|]. cbn. rewrite Hm, Ha. unfold TableMemory.append. rewrite Hmove. cbn. lia. }
  split_and!; [by eapply commit_stranded|intros ins n Hi; by eapply insert_stranded|intros ts' rows Hi; by eapply scan_stranded].
Qed.

(** ** What COMMIT publishes *)

(** The commit loop on the list of tables: every transaction is applied to the table its pointer leads to. *)
Fixpoint publish (d : Database.t) (ts : list TableState.t) (entries : list TableTransaction.t)
    : Result (list TableState.t * list TableTransaction.t) :=
  match entries with
  | [] => Ok (ts, [])
  | e :: rest =>
      t ← Database.deref (Database.with_tables d ts) (TableTransaction.pointer e);
      r ← Transaction.commit (TableTransaction.tx e) (TableState.store t);
      out ← publish d (<[TablePointer.slot (TableTransaction.pointer e) := TableState.mk (TableState.name t) r.2]> ts) rest;
      Ok (out.1, TableTransaction.mk (TableTransaction.table_name e) (TableTransaction.pointer e) r.1 :: out.2)
  end.

Lemma publish_memory d d' ts entries :
  Database.tables_memory d = Database.tables_memory d' → publish d ts entries = publish d' ts entries.
Proof.
  intros Hm. revert ts. induction entries as [|e entries IH]; intros ts; [done|]. cbn [publish].
  unfold Database.deref. cbn [Database.tables_memory Database.with_tables Database.tables]. rewrite Hm.
  destruct (_ =? _)%nat; [|done]. destruct (item_at _ _) as [t| |]; [|done|done]. cbn. destruct (Transaction.commit _ _) as [r| |]; [|done|done]. cbn. by rewrite IH.
Qed.

Definition conn_with (d : Database.t) (s : Session.t) (ts : list TableState.t) (entries : list TableTransaction.t) : conn :=
  Conn (Database.with_tables d ts) (Session.with_transactions s entries).

(** One turn of the loop. *)
Lemma commit_entry_publish d s ts (pre : list TableTransaction.t) e rest :
  commit_entry (length pre) (conn_with d s ts (pre ++ e :: rest)) =
  match publish d ts [e] with
  | Ok (ts', e') => (conn_with d s ts' (pre ++ e' ++ rest), Ok ())
  | Err err => (conn_with d s ts (pre ++ e :: rest), Err err)
  | Panic => (conn_with d s ts (pre ++ e :: rest), Panic)
  end.
Proof.
  unfold commit_entry, conn_with. rewrite run_get_session, run_get_db, run_lift. cbn [session Session.transactions Session.with_transactions].
  unfold item_at. rewrite list_lookup_middle by done. rewrite run_lift. cbn [db publish].
  destruct (Database.deref _ _) as [t| |]; [|done|done]. rewrite run_lift. cbn [mbind result_bind].
  destruct (Transaction.commit _ _) as [[tx' st']| |]; [|done|done]. rewrite run_put_db. cbn.
  unfold put_session. cbn. unfold Session.with_transactions. cbn. do 4 f_equal.
  replace (length pre) with (length pre + 0)%nat by lia. by rewrite insert_app_r.
Qed.

Lemma commit_loop_publish d s ts pre entries rest ts' entries' :
  publish d ts entries = Ok (ts', entries') →
  forM (λ _ j, commit_entry j) () (seq (length pre) (length entries)) (conn_with d s ts (pre ++ entries ++ rest)) =
  (conn_with d s ts' (pre ++ entries' ++ rest), Ok ()).
Proof.
  revert ts pre ts' entries'. induction entries as [|e entries IH]; intros ts pre ts' entries' H; cbn [publish] in H.
  { by injection H as <- <-. }
  cbn [length seq forM app]. rewrite run_bind, commit_entry_publish. cbn [publish].
  destruct (Database.deref _ _) as [t| |]; cbn [mbind result_bind] in *; [|done|done].
  destruct (Transaction.commit _ _) as [r| |]; cbn [mbind result_bind] in *; [|done|done].
  destruct (publish d _ entries) as [[ts1 es1]| |] eqn:Hp; cbn [mbind result_bind] in H; [|done|done]. injection H as <- <-.
  specialize (IH _ (pre ++ [TableTransaction.mk (TableTransaction.table_name e) (TableTransaction.pointer e) r.1]) _ _ Hp).
  rewrite length_app, Nat.add_1_r, <-!app_assoc in IH. cbn [app fst snd] in *. exact IH.
Qed.

Lemma forM_app {S A} (f : S → A → M S) acc l1 l2 c :
  forM f acc (l1 ++ l2) c = (a ← forM f acc l1; forM f a l2) c.
Proof.
  revert acc c. induction l1 as [|x l1 IH]; intros acc c; [done|]. cbn [app forM]. rewrite run_assoc, !run_bind.
  destruct (f acc x c) as [c' [a| |]]; [|done|done]. by rewrite IH.
Qed.

Lemma publish_length d ts entries ts' entries' : publish d ts entries = Ok (ts', entries') → length entries = length entries'.
Proof.
  revert ts ts' entries'. induction entries as [|x l IH]; intros ts ts' entries' H; cbn in H; [by injection H as _ <-|].
  apply bind_ok_inv in H as (t & _ & H). apply bind_ok_inv in H as (r & _ & H). apply bind_ok_inv in H as ([ts1 es1] & Hp & H).
  injection H as _ <-. cbn. f_equal. by eapply IH.
Qed.

(** The loop stops at the first transaction that fails, and keeps what it has published. *)
Lemma commit_entries_fail d s ts done e rest ts' done' err :
  publish d ts done = Ok (ts', done') → publish d ts' [e] = Err err →
  commit_entries (conn_with d s ts (done ++ e :: rest)) = (conn_with d s ts' (done' ++ e :: rest), Err err).
Proof.
  intros Hd He. unfold commit_entries. rewrite run_get_session. cbn [conn_with session Session.transactions Session.with_transactions].
  rewrite length_app. cbn [length]. rewrite seq_app, forM_app, run_bind.
  pose proof (commit_loop_publish d s ts [] done (e :: rest) _ _ Hd) as Hl. cbn [length app] in Hl. fold (conn_with d s ts (done ++ e :: rest)).
  rewrite Hl. cbn [seq forM]. rewrite run_bind, Nat.add_0_l.
  assert (length done = length done') as ->.
  { by eapply publish_length. }
  by rewrite commit_entry_publish, He.
Qed.

Lemma publish_committed d ts entries ts' entries' :
  publish d ts entries = Ok (ts', entries') → Forall (λ e, Transaction.state (TableTransaction.tx e) = committed) entries'.
Proof.
  revert ts ts' entries'. induction entries as [|e entries IH]; intros ts ts' entries' H; cbn in H; [injection H as _ <-; constructor|].
  apply bind_ok_inv in H as (t & _ & H). apply bind_ok_inv in H as ([tx st] & Hc & H). apply bind_ok_inv in H as ([ts1 es1] & Hp & H).
  injection H as _ <-. constructor; [|cbn; by eapply IH]. cbn. unfold Transaction.commit in Hc. by inv_ok.
Qed.

(** The part of COMMIT after the reservation, down to its commit loop. *)
Lemma retain_commit d n q h :
  n = Database.commit_sequence d →
  Database.retainCurrentGenerationForActiveSnapshots (Database.with_commit d n q) h =
  let '(d', res) := Database.retainCurrentGenerationForActiveSnapshots d h in (Database.with_commit d' n q, res).
Proof.
  intros ->. unfold Database.retainCurrentGenerationForActiveSnapshots, Database.currentCommitSequence. cbn.
  destruct (negb _); [done|]. by destruct (Registry.retainGeneration _ _ _).
Qed.

Lemma retain_commit_state d h :
  let d' := (Database.retainCurrentGenerationForActiveSnapshots d h).1 in
  Database.commit_sequence d' = Database.commit_sequence d ∧ Database.commit_queue d' = Database.commit_queue d.
Proof.
  unfold Database.retainCurrentGenerationForActiveSnapshots. destruct (negb _); [done|]. by destruct (Registry.retainGeneration _ _ _).
Qed.

Lemma enqueue_abort q q' : 0 ≤ Queue.pending_writes q → Queue.enqueue q = Ok q' → is_ok (Queue.abortQueuedCommit q') = true.
Proof.
  intros Hp H. unfold Queue.enqueue in H. apply bind_ok_inv in H as (u & _ & H). destruct (diagnosticForCommitQueue _).
  { apply bind_ok_inv in H as (? & _ & H). done. }
  apply bind_ok_inv in H as (n & Hn & H). injection H as <-. apply checked_u64_ok in Hn as [Hr ->].
  unfold is_u64 in Hr. unfold Queue.abortQueuedCommit. cbn. rewrite (proj2 (Z.ltb_lt _ _)) by lia. cbn [assert_ mbind result_bind].
  replace (Queue.pending_writes q + 1 - 1) with (Queue.pending_writes q) by lia.
  by rewrite checked_u64_in by (unfold is_u64; lia).
Qed.

(** COMMIT of a session with table transactions, up to what its commit loop returns. *)
Lemma session_commit_loop c q d1 :
  Session.active (session c) = true → Session.transactions (session c) ≠ [] →
  Queue.enqueue (Database.commit_queue (db c)) = Ok q →
  Database.retainCurrentGenerationForActiveSnapshots (db c) (Session.snapshot_handle (session c)) = (d1, Ok ()) →
  let c1 := Conn (Database.with_commit d1 (Database.commit_sequence (db c)) q) (session c) in
  session_commit c =
  (_ ← on_error (_ ← commit_entries;
                 d ← get_db;
                 qn ← lift (Queue.completeQueuedCommit (Database.commit_queue d));
                 put_db (Database.with_commit d qn.2 qn.1)) abort_queued;
   d ← get_db;
   _ ← put_db (Database.recordVectorOverlayDeltas d (Database.commit_sequence d));
   d ← get_db;
   s ← get_session;
   _ ← put_session (Session.mk (Session.active s) (Session.snapshot_sequence s)
         (Some (Database.currentCommitSequence d)) (Session.transactions s) (Session.snapshot_handle s));
   _ ← clearTransactions;
   _ ← releaseSnapshotHandle;
   s ← get_session;
   put_session (Session.mk false (Session.snapshot_sequence s) (Session.last_commit_sequence s)
                  (Session.transactions s) (Session.snapshot_handle s))) c1.
Proof.
  intros Ha Hne Hq Hr c1. unfold session_commit at 1. rewrite run_get_session, Ha. cbn [negb].
  destruct (Session.transactions (session c)) as [|e l] eqn:Ht; [done|]. cbn [length Nat.ltb Nat.leb].
  rewrite run_assoc, run_get_db, run_assoc, run_lift, Hq, run_assoc, run_put_db, run_assoc, !run_bind.
  assert (E : on_error commit_queued abort_queued (Conn (Database.with_commit (db c) (Database.commit_sequence (db c)) q) (session c)) =
    on_error (_ ← commit_entries; d ← get_db; qn ← lift (Queue.completeQueuedCommit (Database.commit_queue d));
              put_db (Database.with_commit d qn.2 qn.1)) abort_queued c1).
  { unfold on_error at 1, commit_queued. rewrite run_get_session, run_get_db. cbn [db session]. rewrite retain_commit by done. rewrite Hr.
    rewrite run_put_db, run_lift. done. }
  rewrite E. destruct (on_error _ _ c1) as [c2 [[]| |]]; [|done|done]. by rewrite run_assoc, run_get_db.
Qed.

(** A commit loop that succeeds has published everything. *)
Lemma commit_loop_inv d s ts pre entries c' :
  forM (λ _ j, commit_entry j) () (seq (length pre) (length entries)) (conn_with d s ts (pre ++ entries)) = (c', Ok ()) →
  ∃ ts' entries', publish d ts entries = Ok (ts', entries') ∧ c' = conn_with d s ts' (pre ++ entries').
Proof.
  revert ts pre. induction entries as [|e entries IH]; intros ts pre H; cbn [length seq forM] in H.
  { injection H as <-. by exists ts, []. }
  rewrite run_bind, commit_entry_publish in H. cbn [publish] in *.
  destruct (Database.deref _ _) as [t| |]; cbn [mbind result_bind] in *; [|done|done].
  destruct (Transaction.commit _ _) as [r| |]; cbn [mbind result_bind] in *; [|done|done].
  cbn [fst snd app] in *. set (e' := TableTransaction.mk _ _ r.1) in *.
  destruct (IH (<[TablePointer.slot (TableTransaction.pointer e) := TableState.mk (TableState.name t) r.2]> ts) (pre ++ [e']))
    as (ts' & es' & Hp & ->).
  { rewrite length_app, Nat.add_1_r, <-app_assoc. exact H. }
  rewrite Hp. cbn [mbind result_bind fst snd]. eexists _, _. split; [reflexivity|]. by rewrite <-app_assoc.
Qed.

(** What a successful COMMIT leaves in the tables is what the commit loop publishes. *)
Lemma commit_publishes c c' :
  session_commit c = (c', Ok ()) →
  ∃ entries, publish (db c) (Database.tables (db c)) (Session.transactions (session c)) = Ok (Database.tables (db c'), entries).
Proof.
  intros H. pose proof H as H'. unfold session_commit in H'. rewrite run_get_session in H'.
  destruct (Session.active (session c)) eqn:Ha; [|done]. cbn [negb] in H'.
  destruct (Session.transactions (session c)) as [|e0 l] eqn:Ht.
  { cbn [length Nat.ltb Nat.leb] in H'. rewrite run_bind in H'. unfold commit_entries in H'. rewrite run_get_session, Ht in H'. cbn [length seq forM] in H'.
    unfold mret at 1, M_ret in H'. cbv beta iota in H'.
    autorewrite with run in H'. unfold clearTransactions, releaseSnapshotHandle in H'. autorewrite with run in H'.
    injection H' as <-. by exists []. }
  cbn [length Nat.ltb Nat.leb] in H'.
  rewrite run_assoc, run_get_db, run_assoc, run_lift in H'. destruct (Queue.enqueue (Database.commit_queue (db c))) as [q| |] eqn:Hq; [|done|done].
  pose proof (retain_same (db c) (Session.snapshot_handle (session c))) as [_ _ _ Htab Hmem].
  destruct (Database.retainCurrentGenerationForActiveSnapshots (db c) (Session.snapshot_handle (session c))) as [d1 res] eqn:Hr. cbn in Htab, Hmem.
  assert (res = Ok ()) as ->.
  { clear H. rewrite run_assoc, run_put_db, run_assoc, run_bind in H'. unfold on_error, commit_queued in H'.
    rewrite run_get_session, run_get_db in H'. cbn [db session] in H'. rewrite retain_commit, Hr, run_put_db, run_lift in H' by done.
    destruct res as [[]|?|]; [done| |done]. by destruct (abort_queued _) as [? []]. }
  clear H'. rewrite (session_commit_loop c q d1 Ha) in H by (done || (by rewrite Ht)). cbv zeta in H.
  set (d2 := Database.with_commit d1 (Database.commit_sequence (db c)) q) in *.
  assert (Ec : Conn d2 (session c) = conn_with d2 (session c) (Database.tables (db c)) ([] ++ Session.transactions (session c))).
  { unfold conn_with. cbn [app]. rewrite <-Htab. f_equal. by destruct (session c). }
  rewrite run_bind in H. unfold on_error in H. rewrite run_bind in H. unfold commit_entries in H. rewrite run_get_session in H.
  cbn [session] in H. rewrite Ec in H.
  destruct (forM _ () _ _) as [c1 [[]|e|]] eqn:Hloop; [|by destruct (abort_queued c1) as [? []]|done].
  apply (commit_loop_inv d2 (session c) (Database.tables (db c)) []) in Hloop as (ts & es & Hp & ->).
  rewrite Ht in Hp. exists es. rewrite (publish_memory (db c) d2) by (cbn; by rewrite Hmem). rewrite Hp. do 2 f_equal.
  rewrite run_get_db, run_lift in H.
  destruct (Queue.completeQueuedCommit _) as [qn|err|]; [|by destruct (abort_queued _) as [? []]|done].
  cbn [put_db] in H. autorewrite with run in H. unfold clearTransactions, releaseSnapshotHandle in H. autorewrite with run in H.
  by injection H as <-.
Qed.

Lemma commit_entry_committed c e :
  Session.transactions (session c) !! 0%nat = Some e → Transaction.state (TableTransaction.tx e) = committed →
  (commit_entry 0 c).2 ≠ Ok ().
Proof.
  intros He Hc. unfold commit_entry. rewrite run_get_session, run_get_db, run_lift. unfold item_at. rewrite He, run_lift.
  destruct (Database.deref _ _) as [t| |]; [|done|done]. rewrite run_lift.
  unfold Transaction.commit, Transaction.ensureActive. by rewrite Hc.
Qed.

(** C30: a COMMIT that fails on one of its tables has published the ones before it: their rows stay in the database although COMMIT
    reports the error, the commit sequence does not count them, and the session can never leave its transaction: ROLLBACK
    fails with [AlreadyCommitted], BEGIN with [TransactionActive] and COMMIT fails again. *)
Theorem failed_commit_publishes_half (c : conn) (done rest : list TableTransaction.t) (e : TableTransaction.t) (err : Error)
    (q : Queue.t) (d1 : Database.t) (ts : list TableState.t) (done' : list TableTransaction.t) :
  Session.active (session c) = true → Session.transactions (session c) = done ++ e :: rest → done ≠ [] →
  0 ≤ Queue.pending_writes (Database.commit_queue (db c)) → Queue.enqueue (Database.commit_queue (db c)) = Ok q →
  Database.retainCurrentGenerationForActiveSnapshots (db c) (Session.snapshot_handle (session c)) = (d1, Ok ()) →
  publish (db c) (Database.tables (db c)) done = Ok (ts, done') → publish (db c) ts [e] = Err err →
  let '(c', r) := session_commit c in
  r = Err err ∧ Database.tables (db c') = ts ∧ Database.commit_sequence (db c') = Database.commit_sequence (db c) ∧
  session c' = Session.with_transactions (session c) (done' ++ e :: rest) ∧
  ∀ d, (session_rollback (Conn d (session c'))).2 = Err AlreadyCommitted ∧
       (session_begin (Conn d (session c'))).2 = Err TransactionActive ∧
       (session_commit (Conn d (session c'))).2 ≠ Ok ().
Proof.
  intros Ha Ht Hne Hpend Hq Hr Hd He.
  rewrite (session_commit_loop c q d1 Ha) by (done || (rewrite Ht; by destruct done)). cbv zeta.
  set (d2 := Database.with_commit d1 (Database.commit_sequence (db c)) q).
  pose proof (retain_same (db c) (Session.snapshot_handle (session c))) as [_ _ _ Htab Hmem]. rewrite Hr in Htab, Hmem. cbn in Htab, Hmem.
  assert (Ec : Conn d2 (session c) = conn_with d2 (session c) (Database.tables (db c)) (done ++ e :: rest)).
  { unfold conn_with. rewrite <-Ht, <-Htab. f_equal. by destruct (session c). }
  assert (Hm2 : Database.tables_memory (db c) = Database.tables_memory d2) by (unfold d2; cbn; by rewrite Hmem).
  rewrite run_bind. unfold on_error. rewrite run_bind, Ec.
  rewrite (commit_entries_fail d2 (session c) _ done e rest ts done' err);
    [|by rewrite <-(publish_memory (db c))|by rewrite <-(publish_memory (db c))].
  unfold abort_queued. rewrite run_get_db, run_lift. cbn [conn_with db Database.with_tables Database.commit_queue d2 Database.with_commit].
  pose proof (enqueue_abort _ _ Hpend Hq) as Hab. destruct (Queue.abortQueuedCommit q) as [q'| |]; [|done|done]. cbn [put_db].
  split_and!; [done|done|done|done|]. intros d. cbn [session conn_with put_db fst].
  destruct (publish_committed _ _ _ _ _ Hd) as [|e1 l He1 _].
  { apply publish_length in Hd. by destruct done. }
  clear -Ha He1. split_and!.
  - unfold session_rollback. rewrite run_get_session. cbn [session Session.active Session.with_transactions]. rewrite Ha. cbn [negb].
    rewrite run_bind. cbn [Session.transactions Session.with_transactions app length seq forM]. rewrite run_bind.
    unfold rollback_entry. rewrite run_get_session, run_lift. cbn. unfold Transaction.rollback, Transaction.ensureActive. by rewrite He1.
  - unfold session_begin. rewrite run_get_session. cbn. by rewrite Ha.
  - apply commit_fails; [done|]. intros d0 _. unfold commit_entries. rewrite run_get_session.
    cbn [session Session.transactions Session.with_transactions app length seq forM]. rewrite run_bind.
    pose proof (commit_entry_committed (Conn d0 (Session.with_transactions (session c) (e1 :: l ++ e :: rest))) e1 eq_refl He1) as Hce.
    by destruct (commit_entry 0 _) as [c' [[]| |]].
Qed.

(** ** The end of a transaction *)

(** A table transaction with nothing to publish, as an UPDATE or DELETE of no row opens it. *)
Definition nothing_staged (e : TableTransaction.t) : Prop :=
  Transaction.inserts (TableTransaction.tx e) = [] ∧ Transaction.updates (TableTransaction.tx e) = [] ∧
  Transaction.deletes (TableTransaction.tx e) = [].

Lemma publish_nothing d ts entries ts' entries' :
  Forall table_ok ts → Forall nothing_staged entries → publish d ts entries = Ok (ts', entries') → ts' = ts.
Proof.
  intros Hts Hn. revert entries'. induction Hn as [|e entries (Hi & Hu & Hd) _ IH]; intros entries' H; cbn [publish] in H.
  { by injection H as <- _. }
  apply bind_ok_inv in H as (t & [_ Ht]%deref_ok & H). apply bind_ok_inv in H as ([tx st] & Hc & H). cbn [fst snd] in H.
  cbn [Database.tables Database.with_tables] in Ht. rewrite Forall_lookup in Hts. destruct (Hts _ _ Ht) as (_ & Hwf & _).
  unfold Transaction.commit in Hc. rewrite Hi, Hu, Hd, (store_clone_wf _ Hwf) in Hc. apply bind_ok_inv in Hc as (u & _ & Hc).
  cbn in Hc. injection Hc as _ <-.
  rewrite list_insert_id in H by (rewrite Ht; by destruct t). apply bind_ok_inv in H as ([ts1 es1] & Hp & [= <- _]). by eapply IH.
Qed.

(** C19: a successful COMMIT applies the table transactions of the session, in the order they were opened, to the stores their
    pointers lead to, leaves the session idle with nothing staged, and advances the commit sequence by exactly one if the session
    had opened a table transaction and not at all otherwise.  Contrary to docs/concurrency.md, which lets only commits that
    publish writes advance it, this one step is also taken when nothing was staged and no table changes (an UPDATE or DELETE of
    no row opens a table transaction).  A failed COMMIT leaves the sequence alone and the session in its transaction; a ROLLBACK
    never touches tables or the sequence and, when it succeeds, leaves the session idle. *)
Theorem transaction_end (c : conn) (f : Z → Z) :
  ready c f →
  match session_commit c with
  | (c', Ok _) =>
      (∃ entries, publish (db c) (Database.tables (db c)) (Session.transactions (session c)) = Ok (Database.tables (db c'), entries)) ∧
      session c' = Session.mk false None (Some (Database.commit_sequence (db c'))) [] None ∧
      Database.commit_sequence (db c') =
        Database.commit_sequence (db c) + (if decide (Session.transactions (session c) = []) then 0 else 1) ∧
      (Forall nothing_staged (Session.transactions (session c)) → Database.tables (db c') = Database.tables (db c))
  | (c', Err _) =>
      Database.commit_sequence (db c') = Database.commit_sequence (db c) ∧
      Session.active (session c') = Session.active (session c)
  | (_, Panic) => True
  end ∧
  match session_rollback c with
  | (c', Ok _) =>
      (∃ last, session c' = Session.mk false None last [] None) ∧
      Database.tables (db c') = Database.tables (db c) ∧ Database.commit_sequence (db c') = Database.commit_sequence (db c)
  | (c', Err _) => db c' = db c ∧ Session.active (session c') = Session.active (session c)
  | (_, Panic) => True
  end.
Proof.
  intros Hc. pose proof (commit_outcome c f Hc) as H1. pose proof (rollback_outcome c) as H2. pose proof (commit_publishes c) as H3.
  split; [destruct (session_commit c) as [c1 [[]|e|]]; [|done..]|destruct (session_rollback c) as [c2 []]; naive_solver].
  destruct H1 as (_ & H1 & H1'). destruct (H3 _ eq_refl) as [entries Hp]. split_and!; [by exists entries|done|done|].
  intros Hn. eapply publish_nothing; [apply (rd_db _ _ Hc)|exact Hn|exact Hp].
Qed.

(** ** A table dropped under a transaction *)

Lemma dropTable_run d s0 st d' s0' k :
  engine_ok d → dropTable st (Conn d s0) = (Conn d' s0', Ok ()) → Database.findTableStateIndex d (Named.name st) = Some k →
  Database.tables d' = delete k (Database.tables d) ∧ Database.tables_memory d' = Database.tables_memory d.
Proof.
  intros Hd H Hk. unfold dropTable in H. rewrite run_get_db in H. cbn [db] in H. rewrite Hk, run_lift in H.
  destruct (DatabaseCatalog.dropTable _ _) as [c| |] eqn:Ec; [|done|done]. rewrite run_lift in H.
  rewrite engine_refresh in H by (by eapply engine_drop). by injection H as <- _.
Qed.

(** A successful COMMIT with one table transaction. *)
Lemma commit_single c c' e t :
  session_commit c = (c', Ok ()) → Session.transactions (session c) = [e] →
  Database.deref (db c) (TableTransaction.pointer e) = Ok t →
  ∃ tx st, Transaction.commit (TableTransaction.tx e) (TableState.store t) = Ok (tx, st) ∧
    Database.tables (db c') =
      <[TablePointer.slot (TableTransaction.pointer e) := TableState.mk (TableState.name t) st]> (Database.tables (db c)).
Proof.
  intros H Ht Hp. destruct (commit_publishes _ _ H) as [done Hd]. rewrite Ht in Hd. cbn [publish] in Hd.
  replace (Database.deref (Database.with_tables (db c) (Database.tables (db c))) (TableTransaction.pointer e)) with (Ok t : Result TableState.t) in Hd
    by (rewrite <-Hp; done).
  cbn [mbind result_bind] in Hd. apply bind_ok_inv in Hd as ([tx st] & Hc & Hd). exists tx, st. split; [done|]. by injection Hd as <- _.
Qed.

(** C31: a DROP TABLE of the table a session has a transaction on, or of one listed before it, shifts the tables under the session's
    pointer: its COMMIT, when it succeeds, applies what was staged for the one table to the rows of the table that was listed
    behind it, which has another name; if there is none behind, no COMMIT succeeds. *)
Theorem drop_table_redirects_commit (st : Named.t) (d d' : Database.t) (s0 s0' s : Session.t) (k : nat) (e : TableTransaction.t) :
  engine_ok d → dropTable st (Conn d s0) = (Conn d' s0', Ok ()) → Database.findTableStateIndex d (Named.name st) = Some k →
  Session.transactions s = [e] → points_home d e → (k ≤ TablePointer.slot (TableTransaction.pointer e))%nat →
  match Database.tables d !! S (TablePointer.slot (TableTransaction.pointer e)) with
  | Some t =>
      ¬ same_name (TableState.name t) (TableTransaction.table_name e) ∧
      ∀ c, session_commit (Conn d' s) = (c, Ok ()) →
        ∃ tx store, Transaction.commit (TableTransaction.tx e) (TableState.store t) = Ok (tx, store) ∧
          Database.tables (db c) =
            <[TablePointer.slot (TableTransaction.pointer e) := TableState.mk (TableState.name t) store]> (Database.tables d')
  | None => (session_commit (Conn d' s)).2 ≠ Ok ()
  end.
Proof.
  intros Hd Hdrop Hk Ht (t0 & [Ha Hs]%deref_ok & Hn) Hle. destruct (dropTable_run _ _ _ _ _ _ Hd Hdrop Hk) as [Htab Hmem].
  set (i := TablePointer.slot (TableTransaction.pointer e)) in *.
  assert (Hderef : Database.deref d' (TableTransaction.pointer e) = item_at (Database.tables d) (S i)).
  { unfold Database.deref. rewrite Hmem, Ha, Nat.eqb_refl, Htab. unfold item_at. by rewrite list_lookup_delete_ge. }
  unfold item_at in Hderef. destruct (Database.tables d !! S i) as [t|] eqn:Hi.
  - split.
    + intros E%eqlIgnoreCase_spec. pose proof (engine_names d Hd) as Hnd. unfold table_names in Hnd.
      assert (S i = i); [|lia]. eapply (NoDup_lookup _ _ _ (lower (TableState.name t)) Hnd); rewrite list_lookup_fmap; [by rewrite Hi|].
      rewrite Hs. cbn. by rewrite Hn, E.
    + intros c Hc. eapply (commit_single (Conn d' s)); [exact Hc|done|done].
  - apply commit_fails; cbn [session]; [by rewrite Ht|]. intros d0 [_ _ _ Ht0 Hm0]. unfold commit_entries. rewrite run_get_session.
    cbn [session]. rewrite Ht. cbn [length seq forM]. rewrite run_bind. unfold commit_entry. rewrite run_get_session, run_get_db, run_lift.
    cbn [session db]. rewrite Ht. cbn. rewrite run_lift.
    replace (Database.deref d0 (TableTransaction.pointer e)) with (Panic : Result TableState.t); [done|].
    rewrite <-Hderef. unfold Database.deref. cbn in Ht0, Hm0. by rewrite Ht0, Hm0.
Qed.

(** ** Concrete runs *)

(** Session [i] of a system as a connection. *)
Definition conn_of (y : system) (i : nat) : conn := Conn (sys_db y) (default Session.init (sessions y !! i)).

(** Executing [steps], all with a defined outcome or not, as an orderly run. *)
Lemma run_log_orderly n y steps :
  orderly no_bodies n y → Forall (λ step, changes_tables step.2 = false) steps → orderly no_bodies n (run_log y steps).1.
Proof.
  intros Hy Hs. revert y Hy. induction Hs as [|[i st] steps Hc _ IH]; intros y Hy; [done|]. cbn.
  destruct (sys_step no_bodies y i st) as [[y' r]|] eqn:E; [|done].
  assert (Hy' : orderly no_bodies n y') by (eapply orderly_step; [exact Hy|cbn in Hc; by rewrite Hc|exact E]).
  specialize (IH y' Hy'). by destruct (run_log y' steps).
Qed.

Definition staged_insert : list (nat * Statement.t) := [(1%nat, Statement.begin); (1%nat, insert_into (B "b") 5)].

(** Two tables are created, then session 1 stages an insert into the second. *)
Definition two_created : system :=
  (run_log (System (Database.init (allocator := always_moving)) (replicate 2 Session.init))
     [(0%nat, create_simple (B "a")); (0%nat, create_simple (B "b"))]).1.

Lemma two_created_orderly : orderly no_bodies 2 two_created.
Proof.
  set (y0 := System (Database.init (allocator := always_moving)) (replicate 2 Session.init)).
  destruct (sys_step no_bodies y0 0 (create_simple (B "a"))) as [[y1 r1]|] eqn:E1; [|vm_compute in E1; discriminate E1].
  destruct (sys_step no_bodies y1 0 (create_simple (B "b"))) as [[y2 r2]|] eqn:E2.
  2: { vm_compute in E1. injection E1 as <- <-. vm_compute in E2. discriminate E2. }
  replace two_created with y2.
  2: { unfold two_created. fold y0. cbn [run_log]. by rewrite E1, E2. }
  assert (Hidle : ∀ l : list Session.t, Forall (λ s, Session.transactions s = []) l ↔ Forall (λ s, Session.transactions s = []) l) by done.
  eapply orderly_step; [eapply orderly_step; [exact (orderly_start no_bodies 2 always_moving)| |exact E1]| |exact E2]; intros _.
  - by repeat constructor.
  - vm_compute in E1. injection E1 as <- <-. by repeat constructor.
Qed.

Lemma pointers_stay_home_witness :
  let y := (run_log two_created staged_insert).1 in
  TableTransaction.table_name <$> Session.transactions (session (conn_of y 1)) = [B "b"] ∧
  Forall (points_home (sys_db y)) (Session.transactions (session (conn_of y 1))).
Proof.
  cbv zeta. split; [vm_compute; reflexivity|].
  apply (pointers_stay_home no_bodies 2).
  - apply run_log_orderly; [exact two_created_orderly|by repeat constructor].
  - apply (list_elem_of_lookup_2 _ 1). vm_compute. reflexivity.
Defined.

(** The transaction of session 1, before another table is created. *)
Definition staged : system := (run_log two_created staged_insert).1.

Definition third_table : CreateTable.t :=
  CreateTable.mk (B "c") false [AstColumnDef.mk (B "x") AstColumnType.integer true None false false] [].

Lemma create_table_strands_transactions_witness :
  (createTable third_table (conn_of staged 0)).2 = Ok () ∧
  (session_commit (Conn (db (createTable third_table (conn_of staged 0)).1) (session (conn_of staged 1)))).2 ≠ Ok ().
Proof.
  split; [vm_compute; reflexivity|].
  destruct (createTable third_table (conn_of staged 0)) as [[d' s0'] r] eqn:E.
  assert (Hr : r = Ok ()) by (change r with (Conn d' s0', r).2; rewrite <- E; vm_compute; reflexivity). subst r.
  destruct (Session.transactions (session (conn_of staged 1)) !! 0%nat) as [e|] eqn:He; [|vm_compute in He; discriminate He].
  refine (proj1 (create_table_strands_transactions third_table (sys_db staged) d' (session (conn_of staged 0)) s0' (session (conn_of staged 1)) 0%nat e
    E _ _ _ He)).
  - vm_compute. reflexivity.
  - vm_compute. reflexivity.
  - vm_compute in He. injection He as <-. eexists. split; [vm_compute; reflexivity|reflexivity].
Defined.

(** Three tables; session 1 has an insert into the second staged when session 0 drops the first. *)
Definition three_staged : system := after (three_tables ++ staged_insert).
Definition dropped_db : Database.t := db (dropTable (Named.mk (B "a") false) (conn_of three_staged 0)).1.
Definition staging : Session.t := session (conn_of three_staged 1).

Lemma three_staged_ok : engine_ok (sys_db three_staged).
Proof.
  refine (proj1 (reached_ok no_bodies 2 _ (run_system_reached no_bodies 2 _ (three_tables ++ staged_insert) _ (reached_start no_bodies 2 in_place) _))).
  vm_compute. reflexivity.
Qed.

Lemma drop_table_redirects_commit_witness :
  ∃ e t tx store, Session.transactions staging = [e] ∧ TableTransaction.table_name e = B "b" ∧ TableState.name t = B "c" ∧
    Transaction.commit (TableTransaction.tx e) (TableState.store t) = Ok (tx, store) ∧
    Database.tables (db (session_commit (Conn dropped_db staging)).1) =
      <[1%nat := TableState.mk (B "c") store]> (Database.tables dropped_db).
Proof.
  destruct (Session.transactions staging) as [|e [|e2 l]] eqn:He; [vm_compute in He; discriminate He| |vm_compute in He; discriminate He].
  assert (Hdrop : dropTable (Named.mk (B "a") false) (Conn (sys_db three_staged) (session (conn_of three_staged 0))) =
                  (Conn dropped_db (session (conn_of three_staged 0)), Ok ())) by (vm_compute; reflexivity).
  assert (Hcommit : session_commit (Conn dropped_db staging) = ((session_commit (Conn dropped_db staging)).1, Ok ())) by (vm_compute; reflexivity).
  assert (Hhome : points_home (sys_db three_staged) e).
  { vm_compute in He. injection He as <-. eexists. split; [vm_compute; reflexivity|reflexivity]. }
  assert (Hslot : TablePointer.slot (TableTransaction.pointer e) = 1%nat) by (vm_compute in He; injection He as <-; reflexivity).
  pose proof (drop_table_redirects_commit (Named.mk (B "a") false) (sys_db three_staged) dropped_db (session (conn_of three_staged 0))
    (session (conn_of three_staged 0)) staging 0%nat e three_staged_ok Hdrop ltac:(vm_compute; reflexivity) He Hhome ltac:(lia)) as H.
  rewrite Hslot in H.
  destruct (Database.tables (sys_db three_staged) !! 2%nat) as [t|] eqn:Ht; [|vm_compute in Ht; discriminate Ht].
  destruct H as [_ H]. destruct (H _ Hcommit) as (tx & store & H1 & H2).
  assert (Hn : TableState.name t = B "c") by (vm_compute in Ht; injection Ht as <-; reflexivity).
  exists e, t, tx, store. split; [reflexivity|]. split; [vm_compute in He; injection He as <-; reflexivity|]. split; [exact Hn|].
  split; [exact H1|]. rewrite <-Hn. exact H2.
Defined.

(** The failing COMMIT of session 1 after [conflicting]: the insert into [a] is published, the update of [b] is refused. *)
Definition conflict : conn := conn_of (after conflicting) 1.

Lemma failed_commit_publishes_half_witness :
  (session_commit conflict).2 = Err UnknownRow ∧
  ∃ ts, Database.tables (db (session_commit conflict).1) = ts ∧
    ((λ t, Row.values <$> RowStore.rows (TableState.store t)) <$> ts) = [[[Value.integer 7]]; []] ∧
    (session_rollback (session_commit conflict).1).2 = Err AlreadyCommitted.
Proof.
  destruct (Session.transactions (session conflict)) as [|e1 [|e2 [|e3 l]]] eqn:He; try (vm_compute in He; discriminate He).
  destruct (publish (db conflict) (Database.tables (db conflict)) [e1]) as [[ts done']| |] eqn:Hp;
    [|vm_compute in He; injection He as <- <-; vm_compute in Hp; discriminate Hp..].
  assert (Hq : Queue.enqueue (Database.commit_queue (db conflict)) = Ok (Queue.mk default_config 1 2)) by (vm_compute; reflexivity).
  destruct (Database.retainCurrentGenerationForActiveSnapshots (db conflict) (Session.snapshot_handle (session conflict))) as [d1 res] eqn:Hr.
  assert (res = Ok ()) as -> by (change res with (d1, res).2; rewrite <-Hr; vm_compute; reflexivity).
  assert (Hts : ((λ t, Row.values <$> RowStore.rows (TableState.store t)) <$> ts) = [[[Value.integer 7]]; []] ∧
                publish (db conflict) ts [e2] = Err UnknownRow).
  { vm_compute in He. injection He as <- <-. vm_compute in Hp. injection Hp as <- <-. split; vm_compute; reflexivity. }
  pose proof (failed_commit_publishes_half conflict [e1] [] e2 UnknownRow _ d1 ts done' ltac:(vm_compute; reflexivity) He ltac:(discriminate)
    ltac:(vm_compute; discriminate) Hq Hr Hp (proj2 Hts)) as H.
  destruct (session_commit conflict) as [[d' s'] r]. destruct H as (H1 & H2 & _ & _ & H3).
  split; [exact H1|]. exists ts. split; [exact H2|]. split; [exact (proj1 Hts)|]. exact (proj1 (H3 d')).
Defined.

(** Session 1 of [two_sessions] inserts a row, or updates the rows of a table that has none. *)
Definition one_inserted : system := foldl run_one two_sessions [(1%nat, Statement.begin); (1%nat, insert_sample 5)].
Definition none_updated : system := foldl run_one two_sessions [(1%nat, Statement.begin); (1%nat, update_all (B "t") 8)].

Lemma writer_ready statement y r :
  data_statement statement = true → sys_step no_bodies (run_one two_sessions (1%nat, Statement.begin)) 1 statement = Some (y, r) → r ≠ Panic → sys_wf y.
Proof.
  intros Hd Hs Hr. eapply sys_step_ok; [|exact Hd|exact Hs|exact Hr].
  eapply (sys_step_ok no_bodies two_sessions 1%nat Statement.begin _ (Ok ExecutionResult.ok));
    [exact two_sessions_wf|reflexivity|vm_compute; reflexivity|discriminate].
Qed.

Lemma transaction_end_witness :
  (∃ s, sessions one_inserted !! 1%nat = Some s ∧
    match session_commit (Conn (sys_db one_inserted) s) with
    | (c', r) => r = Ok () ∧ Database.commit_sequence (db c') = 0 + 1 ∧ Database.tables (db c') ≠ Database.tables (sys_db one_inserted)
    end) ∧
  ∃ s, sessions none_updated !! 1%nat = Some s ∧
    match session_commit (Conn (sys_db none_updated) s) with
    | (c', r) => r = Ok () ∧ Database.commit_sequence (db c') = 0 + 1 ∧ Database.tables (db c') = Database.tables (sys_db none_updated)
    end.
Proof.
  split.
  - destruct (sessions one_inserted !! 1%nat) as [s|] eqn:Hs; [|vm_compute in Hs; discriminate Hs].
    exists s. split; [reflexivity|].
    assert (Hwf : sys_wf one_inserted) by (eapply (writer_ready (insert_sample 5)); [reflexivity|vm_compute; reflexivity|discriminate]).
    destruct (transaction_end _ _ (sys_ready _ _ _ Hwf Hs)) as [H _].
    vm_compute in Hs. injection Hs as <-.
    match goal with |- match session_commit ?x with _ => _ end => set (c := x) in * end.
    destruct (session_commit c) as [c' r] eqn:He. assert (Hr : r = Ok ()).
    { change r with (c', r).2. rewrite <-He. vm_compute. reflexivity. }
    subst r. split; [reflexivity|]. destruct H as (_ & _ & H & _). split; [rewrite H; vm_compute; reflexivity|].
    change c' with (c', Ok () : Result ()).1. rewrite <-He. vm_compute. discriminate.
  - destruct (sessions none_updated !! 1%nat) as [s|] eqn:Hs; [|vm_compute in Hs; discriminate Hs].
    exists s. split; [reflexivity|].
    assert (Hwf : sys_wf none_updated) by (eapply (writer_ready (update_all (B "t") 8)); [reflexivity|vm_compute; reflexivity|discriminate]).
    destruct (transaction_end _ _ (sys_ready _ _ _ Hwf Hs)) as [H _].
    vm_compute in Hs. injection Hs as <-.
    match goal with |- match session_commit ?x with _ => _ end => set (c := x) in * end.
    destruct (session_commit c) as [c' r] eqn:He. assert (Hr : r = Ok ()).
    { change r with (c', r).2. rewrite <-He. vm_compute. reflexivity. }
    subst r. split; [reflexivity|]. destruct H as (_ & _ & H & Hn). split; [rewrite H; vm_compute; reflexivity|].
    apply Hn. constructor; [by split_and!|constructor].
Defined.
