(* ===== verification/Abi.v ===== *)
(** * The C interface

    Models [src/src/abi/handles.zig], [result.zig], [value_access.zig], [diagnostics.zig] and
    [c_api.zig], together with the enumerations and view structs of [src/include/shovelerdb.h].

    A process holds the directory, and the heap of database and result handles by address.  A pointer
    argument is [None] for NULL; the address of a handle that is no longer allocated is a caller
    error with no defined outcome, a [Panic].  An out parameter is the content of the cell it
    points at ([None] for a NULL out pointer), returned with its new content.  A row pointer is the
    address of its result with the index of the row.  Whether [allocator.create] succeeds
    ([create_ok]) and the faults of the file system are arguments. *)

From stdpp Require Import gmap.
From S2P Require Import Prelude Value Catalog RowStore Persistence Storage.
From S2P Require Import Ast Eval QuerySource Registries Executor.

(** ** shovelerdb.h: enumerations and views *)
Inductive shovelerdb_status :=
  | SHOVELERDB_STATUS_OK | SHOVELERDB_STATUS_INVALID_ARGUMENT | SHOVELERDB_STATUS_INVALID_HANDLE
  | SHOVELERDB_STATUS_ALLOCATION_FAILED | SHOVELERDB_STATUS_PARSE_ERROR | SHOVELERDB_STATUS_OBJECT_ERROR
  | SHOVELERDB_STATUS_TRANSACTION_ERROR | SHOVELERDB_STATUS_TYPE_ERROR | SHOVELERDB_STATUS_VECTOR_ERROR
  | SHOVELERDB_STATUS_PERSISTENCE_ERROR | SHOVELERDB_STATUS_IO_ERROR | SHOVELERDB_STATUS_UNSUPPORTED
  | SHOVELERDB_STATUS_INTERNAL_ERROR.

Definition shovelerdb_status_value (s : shovelerdb_status) : Z :=
  match s with
  | SHOVELERDB_STATUS_OK => 0
  | SHOVELERDB_STATUS_INVALID_ARGUMENT => 1
  | SHOVELERDB_STATUS_INVALID_HANDLE => 2
  | SHOVELERDB_STATUS_ALLOCATION_FAILED => 3
  | SHOVELERDB_STATUS_PARSE_ERROR => 4
  | SHOVELERDB_STATUS_OBJECT_ERROR => 5
  | SHOVELERDB_STATUS_TRANSACTION_ERROR => 6
  | SHOVELERDB_STATUS_TYPE_ERROR => 7
  | SHOVELERDB_STATUS_VECTOR_ERROR => 8
  | SHOVELERDB_STATUS_PERSISTENCE_ERROR => 9
  | SHOVELERDB_STATUS_IO_ERROR => 10
  | SHOVELERDB_STATUS_UNSUPPORTED => 11
  | SHOVELERDB_STATUS_INTERNAL_ERROR => 12
  end.

Inductive shovelerdb_diagnostic_code :=
  | SHOVELERDB_DIAGNOSTIC_NONE | SHOVELERDB_DIAGNOSTIC_INVALID_ARGUMENT | SHOVELERDB_DIAGNOSTIC_INVALID_HANDLE
  | SHOVELERDB_DIAGNOSTIC_ALLOCATION | SHOVELERDB_DIAGNOSTIC_PARSER | SHOVELERDB_DIAGNOSTIC_OBJECT
  | SHOVELERDB_DIAGNOSTIC_TRANSACTION | SHOVELERDB_DIAGNOSTIC_TYPE | SHOVELERDB_DIAGNOSTIC_VECTOR
  | SHOVELERDB_DIAGNOSTIC_PERSISTENCE | SHOVELERDB_DIAGNOSTIC_IO | SHOVELERDB_DIAGNOSTIC_UNSUPPORTED
  | SHOVELERDB_DIAGNOSTIC_INTERNAL.

Definition shovelerdb_diagnostic_value (c : shovelerdb_diagnostic_code) : Z :=
  match c with
  | SHOVELERDB_DIAGNOSTIC_NONE => 0
  | SHOVELERDB_DIAGNOSTIC_INVALID_ARGUMENT => 1
  | SHOVELERDB_DIAGNOSTIC_INVALID_HANDLE => 2
  | SHOVELERDB_DIAGNOSTIC_ALLOCATION => 3
  | SHOVELERDB_DIAGNOSTIC_PARSER => 4
  | SHOVELERDB_DIAGNOSTIC_OBJECT => 5
  | SHOVELERDB_DIAGNOSTIC_TRANSACTION => 6
  | SHOVELERDB_DIAGNOSTIC_TYPE => 7
  | SHOVELERDB_DIAGNOSTIC_VECTOR => 8
  | SHOVELERDB_DIAGNOSTIC_PERSISTENCE => 9
  | SHOVELERDB_DIAGNOSTIC_IO => 10
  | SHOVELERDB_DIAGNOSTIC_UNSUPPORTED => 11
  | SHOVELERDB_DIAGNOSTIC_INTERNAL => 12
  end.

Inductive shovelerdb_result_kind := SHOVELERDB_RESULT_EMPTY | SHOVELERDB_RESULT_MUTATION_COUNT | SHOVELERDB_RESULT_ROWS.

Definition shovelerdb_result_kind_value (k : shovelerdb_result_kind) : Z :=
  match k with SHOVELERDB_RESULT_EMPTY => 0 | SHOVELERDB_RESULT_MUTATION_COUNT => 1 | SHOVELERDB_RESULT_ROWS => 2 end.

Inductive shovelerdb_value_kind :=
  | SHOVELERDB_VALUE_NULL | SHOVELERDB_VALUE_INTEGER | SHOVELERDB_VALUE_FLOAT | SHOVELERDB_VALUE_BOOLEAN
  | SHOVELERDB_VALUE_TEXT | SHOVELERDB_VALUE_BLOB | SHOVELERDB_VALUE_VECTOR_F32.

Definition shovelerdb_value_kind_value (k : shovelerdb_value_kind) : Z :=
  match k with
  | SHOVELERDB_VALUE_NULL => 0
  | SHOVELERDB_VALUE_INTEGER => 1
  | SHOVELERDB_VALUE_FLOAT => 2
  | SHOVELERDB_VALUE_BOOLEAN => 3
  | SHOVELERDB_VALUE_TEXT => 4
  | SHOVELERDB_VALUE_BLOB => 5
  | SHOVELERDB_VALUE_VECTOR_F32 => 6
  end.

(** ** handles.zig: enumerations and views *)
Module StatusCode.
Inductive t :=
  | ok | invalid_argument | invalid_handle | allocation_failed | parse_error | object_error | transaction_error
  | type_error | vector_error | persistence_error | io_error | unsupported | internal_error.

Definition c_int (s : t) : Z :=
  match s with
  | ok => 0 | invalid_argument => 1 | invalid_handle => 2 | allocation_failed => 3 | parse_error => 4
  | object_error => 5 | transaction_error => 6 | type_error => 7 | vector_error => 8 | persistence_error => 9
  | io_error => 10 | unsupported => 11 | internal_error => 12
  end.
End StatusCode.

#[global] Instance StatusCode_eq_dec : EqDecision StatusCode.t.
Proof. solve_decision. Defined.

Module DiagnosticCode.
Inductive t :=
  | none | invalid_argument | invalid_handle | allocation | parser | object | transaction | type | vector
  | persistence | io | unsupported | internal.

Definition c_int (s : t) : Z :=
  match s with
  | none => 0 | invalid_argument => 1 | invalid_handle => 2 | allocation => 3 | parser => 4 | object => 5
  | transaction => 6 | type => 7 | vector => 8 | persistence => 9 | io => 10 | unsupported => 11 | internal => 12
  end.
End DiagnosticCode.

Module ResultKind.
Inductive t := empty | mutation_count | rows.

Definition c_int (k : t) : Z := match k with empty => 0 | mutation_count => 1 | rows => 2 end.
End ResultKind.

Module ValueKind.
Inductive t := null | integer | float | boolean | text | blob | vector_f32.

Definition c_int (k : t) : Z :=
  match k with
  | null => 0 | integer => 1 | float => 2 | boolean => 3 | text => 4 | blob => 5 | vector_f32 => 6
  end.
End ValueKind.

#[global] Instance ValueKind_eq_dec : EqDecision ValueKind.t.
Proof. solve_decision. Defined.

(** [StringView], [BytesView] and [F32VectorView]: the elements the pointer leads to, and the length. *)
Module View.
Record t (A : Type) := mk { data : option (list A); len : Z }.
Arguments mk {A} data len.
Arguments data {A} _.
Arguments len {A} _.

(** [.{ .data = null, .len = 0 }] *)
Definition null_view {A} : t A := mk None 0.
End View.

Abbreviation StringView := (View.t Byte.byte).
Abbreviation BytesView := (View.t Byte.byte).
Abbreviation F32VectorView := (View.t Z).

(** ** diagnostics.zig *)
Definition statusFromError (err : Error) : StatusCode.t :=
  match err with
  | OutOfMemory => StatusCode.allocation_failed
  | InvalidArgument => StatusCode.invalid_argument
  | InvalidHandle => StatusCode.invalid_handle
  | ParseDiagnostic => StatusCode.parse_error
  | DuplicateObject | UnknownObject | NameConflict | UnknownColumn | AmbiguousColumn | ColumnCountMismatch =>
      StatusCode.object_error
  | TransactionRequired | TransactionActive | NoActiveTransaction | AlreadyCommitted | AlreadyRolledBack =>
      StatusCode.transaction_error
  | TypeMismatch | InvalidGrouping => StatusCode.type_error
  | VectorDimensionMismatch | InvalidVectorDimension | ZeroVector => StatusCode.vector_error
  | InvalidHeader | UnsupportedVersion | TruncatedPayload | PayloadLengthMismatch | PayloadChecksumMismatch
  | InvalidColumnType | InvalidValueTag | InvalidBooleanEncoding | InvalidVectorElementType | RowStoreMismatch
  | ValueTooLarge => StatusCode.persistence_error
  | FileNotFound | AccessDenied | FileTooBig | IsDir | NoSpaceLeft | NotDir | PathAlreadyExists | SystemResources
  | WouldBlock | InputOutput => StatusCode.io_error
  | UnsupportedExpression | UnsupportedView | UnsupportedProcedure => StatusCode.unsupported
  | _ => StatusCode.internal_error
  end.

Definition diagnosticCodeFromStatus (status : StatusCode.t) : DiagnosticCode.t :=
  match status with
  | StatusCode.ok => DiagnosticCode.none
  | StatusCode.invalid_argument => DiagnosticCode.invalid_argument
  | StatusCode.invalid_handle => DiagnosticCode.invalid_handle
  | StatusCode.allocation_failed => DiagnosticCode.allocation
  | StatusCode.parse_error => DiagnosticCode.parser
  | StatusCode.object_error => DiagnosticCode.object
  | StatusCode.transaction_error => DiagnosticCode.transaction
  | StatusCode.type_error => DiagnosticCode.type
  | StatusCode.vector_error => DiagnosticCode.vector
  | StatusCode.persistence_error => DiagnosticCode.persistence
  | StatusCode.io_error => DiagnosticCode.io
  | StatusCode.unsupported => DiagnosticCode.unsupported
  | StatusCode.internal_error => DiagnosticCode.internal
  end.

Definition statusMessage (status : StatusCode.t) : bytes :=
  match status with
  | StatusCode.ok => B "ok"
  | StatusCode.invalid_argument => B "invalid argument"
  | StatusCode.invalid_handle => B "invalid handle"
  | StatusCode.allocation_failed => B "allocation failed"
  | StatusCode.parse_error => B "SQL parse error"
  | StatusCode.object_error => B "object or catalog error"
  | StatusCode.transaction_error => B "transaction error"
  | StatusCode.type_error => B "type error"
  | StatusCode.vector_error => B "vector error"
  | StatusCode.persistence_error => B "persistence error"
  | StatusCode.io_error => B "I/O error"
  | StatusCode.unsupported => B "unsupported SQL surface"
  | StatusCode.internal_error => B "internal error"
  end.

(** ** handles.zig: results *)
Module ResultHandle.
Record t := mk { result : ExecutionResult.t; next_row_index : nat; released : bool }.

Definition deinit (self : t) : t := if released self then self else mk (result self) (next_row_index self) true.

Definition kind (self : t) : ResultKind.t :=
  match result self with
  | ExecutionResult.ok => ResultKind.empty
  | ExecutionResult.mutation_count _ => ResultKind.mutation_count
  | ExecutionResult.result_set _ => ResultKind.rows
  end.

Definition mutationCount (self : t) : Z :=
  match result self with ExecutionResult.mutation_count count => count | _ => 0 end.

Definition columnCount (self : t) : nat :=
  match result self with ExecutionResult.result_set rs => length (ResultSet.columns rs) | _ => 0%nat end.

Definition columnName (self : t) (index : nat) : Result StringView :=
  match result self with
  | ExecutionResult.result_set rs =>
      match ResultSet.columns rs !! index with
      | Some name => Ok (View.mk (Some name) (Z.of_nat (length name)))
      | None => Err InvalidArgument
      end
  | _ => Err InvalidArgument
  end.
End ResultHandle.

(** ** result.zig: rows and the cursor; a row view is the index of the row in its result *)
Definition rowCount (h : ResultHandle.t) : nat :=
  match ResultHandle.result h with ExecutionResult.result_set rs => length (ResultSet.rows rs) | _ => 0%nat end.

Definition nextRow (h : ResultHandle.t) : ResultHandle.t * option nat :=
  match ResultHandle.result h with
  | ExecutionResult.result_set rs =>
      if (length (ResultSet.rows rs) <=? ResultHandle.next_row_index h)%nat then (h, None)
      else (ResultHandle.mk (ResultHandle.result h) (S (ResultHandle.next_row_index h)) (ResultHandle.released h),
            Some (ResultHandle.next_row_index h))
  | _ => (h, None)
  end.

Definition rowFromView (h : ResultHandle.t) (row : nat) : Result (list Value.t) :=
  match ResultHandle.result h with
  | ExecutionResult.result_set rs => item_at (ResultSet.rows rs) row
  | _ => Panic
  end.

(** ** value_access.zig, on the values of a row *)
Definition valueAt (row : list Value.t) (column_index : nat) : Result Value.t := orelse (row !! column_index) InvalidArgument.

Definition kindOf (v : Value.t) : ValueKind.t :=
  match v with
  | Value.null => ValueKind.null
  | Value.integer _ => ValueKind.integer
  | Value.float _ => ValueKind.float
  | Value.boolean _ => ValueKind.boolean
  | Value.text _ => ValueKind.text
  | Value.blob _ => ValueKind.blob
  | Value.vector _ => ValueKind.vector_f32
  end.

Definition kind (row : list Value.t) (column_index : nat) : Result ValueKind.t :=
  v ← valueAt row column_index; Ok (kindOf v).

Definition int64 (row : list Value.t) (column_index : nat) : Result Z :=
  v ← valueAt row column_index;
  match v with Value.integer value => Ok value | _ => Err TypeMismatch end.

Definition float64 (row : list Value.t) (column_index : nat) : Result Z :=
  v ← valueAt row column_index;
  match v with Value.float value => Ok value | _ => Err TypeMismatch end.

Definition boolean (row : list Value.t) (column_index : nat) : Result Z :=
  v ← valueAt row column_index;
  match v with Value.boolean value => Ok (if value then 1 else 0) | _ => Err TypeMismatch end.

Definition text (row : list Value.t) (column_index : nat) : Result StringView :=
  v ← valueAt row column_index;
  match v with Value.text value => Ok (View.mk (Some value) (Z.of_nat (length value))) | _ => Err TypeMismatch end.

Definition blob (row : list Value.t) (column_index : nat) : Result BytesView :=
  v ← valueAt row column_index;
  match v with Value.blob value => Ok (View.mk (Some value) (Z.of_nat (length value))) | _ => Err TypeMismatch end.

Definition vectorF32 (row : list Value.t) (column_index : nat) : Result F32VectorView :=
  v ← valueAt row column_index;
  match v with
  | Value.vector value => Ok (View.mk (Some (Vector.values value)) (Vector.dimension value))
  | _ => Err TypeMismatch
  end.

(** ** handles.zig: databases *)
Module DatabaseHandle.
Record t := mk { path : bytes; db : Database.t; session : Session.t; last_status : StatusCode.t; closed : bool }.

Definition with_status (self : t) (status : StatusCode.t) : t := mk (path self) (db self) (session self) status (closed self).

(** [deinit] frees the session, the database and the path. *)
Definition deinit (self : t) : t :=
  if closed self then self else mk (path self) (db self) (session self) (last_status self) true.

Definition checkpoint (f : faults) (self : t) : IO t :=
  if closed self then io_lift (Err InvalidHandle)
  else io_bind (io_lift (exportSnapshot (db self))) (λ snapshot,
       io_bind (writeSnapshot f (path self) snapshot) (λ _, io_ret (with_status self StatusCode.ok))).

Section parsers.
Context (parse : bytes → option Statement.t) (parse_body : bytes → option Body) {allocator : Allocator}.

Definition openExecutorDatabase (fault : option Error) (path : bytes) : IO Database.t :=
  io_bind (readSnapshot fault path) (λ snapshot, io_lift (initFromSnapshot parse parse_body snapshot)).

Definition openOrCreate (fault : option Error) (f : faults) (path : bytes) : IO t :=
  io_bind
    (io_catch (io_bind (openExecutorDatabase fault path) (λ d, io_ret (d, false)))
       (λ e, if decide (e = FileNotFound) then io_ret (Database.init, true) else io_lift (Err e)))
    (λ '(d, created),
       let handle := mk path d Session.init StatusCode.ok false in
       if created : bool then checkpoint f handle else io_ret handle).

(** The handle after the call (a failed statement may have changed it too) and the result. *)
Definition execute (self : t) (sql : bytes) : t * Result ResultHandle.t :=
  if closed self then (self, Err InvalidHandle)
  else
    let '(c, r) := executeSql parse parse_body sql (Conn (db self) (session self)) in
    let self' := mk (path self) (Executor.db c) (Executor.session c) (last_status self) (closed self) in
    match r with
    | Ok result => (with_status self' StatusCode.ok, Ok (ResultHandle.mk result 0 false))
    | Err e => (self', Err e)
    | Panic => (self', Panic)
    end.
End parsers.
End DatabaseHandle.

(** ** c_api.zig *)
Module Process.
Record t := mk {
  files : world;
  databases : gmap N DatabaseHandle.t;
  results : gmap N ResultHandle.t;
  next_address : N;
}.

Definition with_database (p : t) (a : N) (h : DatabaseHandle.t) : t :=
  mk (files p) (<[a := h]> (databases p)) (results p) (next_address p).
Definition with_result (p : t) (a : N) (h : ResultHandle.t) : t :=
  mk (files p) (databases p) (<[a := h]> (results p)) (next_address p).
Definition with_files (p : t) (w : world) : t := mk w (databases p) (results p) (next_address p).

(** Store a new handle at a fresh address. *)
Definition create_database (p : t) (h : DatabaseHandle.t) : t * N :=
  (mk (files p) (<[next_address p := h]> (databases p)) (results p) (N.succ (next_address p)), next_address p).
Definition create_result (p : t) (h : ResultHandle.t) : t * N :=
  (mk (files p) (databases p) (<[next_address p := h]> (results p)) (N.succ (next_address p)), next_address p).
End Process.

Abbreviation Row_ptr := (N * nat)%type.

(** [std.mem.span]: the bytes before the terminating NUL *)
Definition span (s : bytes) : bytes :=
  match find_index (λ c, byte_val c =? 0) s with Some n => take n s | None => s end.

Definition shovelerdb_abi_version_major : Z := 0.
Definition shovelerdb_abi_version_minor : Z := 1.
Definition shovelerdb_abi_version_patch : Z := 0.

Section parsers.
Context (parse : bytes → option Statement.t) (parse_body : bytes → option Body) {allocator : Allocator}.

Definition shovelerdb_open_or_create (create_ok : bool) (fault : option Error) (f : faults) (p : Process.t)
    (path : option bytes) (out_database : option (option N)) : Result (Process.t * StatusCode.t * option (option N)) :=
  match out_database, path with
  | None, _ => Ok (p, StatusCode.invalid_argument, None)
  | Some _, None => Ok (p, StatusCode.invalid_argument, Some None)
  | Some _, Some path_ptr =>
      let path_slice := span path_ptr in
      if (length path_slice =? 0)%nat then Ok (p, StatusCode.invalid_argument, Some None)
      else if negb create_ok then Ok (p, StatusCode.allocation_failed, Some None)
      else
        match DatabaseHandle.openOrCreate parse parse_body fault f path_slice (Process.files p) with
        | (Ok handle, w) =>
            let '(p', a) := Process.create_database (Process.with_files p w) handle in
            Ok (p', StatusCode.ok, Some (Some a))
        | (Err e, w) => Ok (Process.with_files p w, statusFromError e, Some None)
        | (Panic, _) => Panic
        end
  end.

Definition shovelerdb_close (p : Process.t) (database : option N) : Result Process.t :=
  match database with
  | None => Ok p
  | Some a =>
      match Process.databases p !! a with
      | None => Panic
      | Some _ => Ok (Process.mk (Process.files p) (delete a (Process.databases p)) (Process.results p) (Process.next_address p))
      end
  end.

Definition shovelerdb_checkpoint (f : faults) (p : Process.t) (database : option N) : Result (Process.t * StatusCode.t) :=
  match database with
  | None => Ok (p, StatusCode.invalid_handle)
  | Some a =>
      match Process.databases p !! a with
      | None => Panic
      | Some handle =>
          match DatabaseHandle.checkpoint f handle (Process.files p) with
          | (Ok handle', w) => Ok (Process.with_database (Process.with_files p w) a handle', StatusCode.ok)
          | (Err e, w) =>
              let status := statusFromError e in
              Ok (Process.with_database (Process.with_files p w) a (DatabaseHandle.with_status handle status), status)
          | (Panic, _) => Panic
          end
      end
  end.

Definition shovelerdb_execute (create_ok : bool) (p : Process.t) (database : option N) (sql : option bytes)
    (out_result : option (option N)) : Result (Process.t * StatusCode.t * option (option N)) :=
  match database with
  | None => Ok (p, StatusCode.invalid_handle, out_result)
  | Some a =>
      match Process.databases p !! a with
      | None => Panic
      | Some handle =>
          let fail h status := Ok (Process.with_database p a (DatabaseHandle.with_status h status), status, Some None) in
          match out_result, sql with
          | None, _ => Ok (p, StatusCode.invalid_argument, None)
          | Some _, None => fail handle StatusCode.invalid_argument
          | Some _, Some sql_ptr =>
              let sql_slice := span sql_ptr in
              if (length sql_slice =? 0)%nat then fail handle StatusCode.invalid_argument
              else if negb create_ok then fail handle StatusCode.allocation_failed
              else
                match DatabaseHandle.execute parse parse_body handle sql_slice with
                | (handle', Ok result) =>
                    let '(p', r) := Process.create_result (Process.with_database p a handle') result in
                    Ok (p', StatusCode.ok, Some (Some r))
                | (handle', Err e) => fail handle' (statusFromError e)
                | (_, Panic) => Panic
                end
          end
      end
  end.
End parsers.

Definition shovelerdb_result_release (p : Process.t) (result : option N) : Result Process.t :=
  match result with
  | None => Ok p
  | Some r =>
      match Process.results p !! r with
      | None => Panic
      | Some _ => Ok (Process.mk (Process.files p) (Process.databases p) (delete r (Process.results p)) (Process.next_address p))
      end
  end.

(** Read through a result pointer, with an answer for NULL. *)
Definition on_result {A} (p : Process.t) (result : option N) (null_answer : A) (f : ResultHandle.t → A) : Result A :=
  match result with
  | None => Ok null_answer
  | Some r => match Process.results p !! r with Some h => Ok (f h) | None => Panic end
  end.

Definition shovelerdb_result_kind_of (p : Process.t) (result : option N) : Result ResultKind.t :=
  on_result p result ResultKind.empty ResultHandle.kind.
Definition shovelerdb_result_mutation_count (p : Process.t) (result : option N) : Result Z :=
  on_result p result 0 ResultHandle.mutationCount.
Definition shovelerdb_result_column_count (p : Process.t) (result : option N) : Result nat :=
  on_result p result 0%nat ResultHandle.columnCount.
Definition shovelerdb_result_row_count (p : Process.t) (result : option N) : Result nat :=
  on_result p result 0%nat rowCount.

Definition shovelerdb_result_column_name (p : Process.t) (result : option N) (column_index : nat)
    (out_name : option StringView) : Result (StatusCode.t * option StringView) :=
  match out_name with
  | None => Ok (StatusCode.invalid_argument, None)
  | Some _ =>
      on_result p result (StatusCode.invalid_handle, Some View.null_view) (λ h,
        match ResultHandle.columnName h column_index with
        | Ok name => (StatusCode.ok, Some name)
        | _ => (StatusCode.invalid_argument, Some View.null_view)
        end)
  end.

Definition shovelerdb_result_next (p : Process.t) (result : option N) (out_row : option (option Row_ptr))
    : Result (Process.t * StatusCode.t * option (option Row_ptr)) :=
  match out_row, result with
  | None, _ => Ok (p, StatusCode.invalid_argument, None)
  | Some _, None => Ok (p, StatusCode.invalid_handle, Some None)
  | Some _, Some r =>
      match Process.results p !! r with
      | None => Panic
      | Some h =>
          let '(h', row) := nextRow h in
          Ok (Process.with_result p r h', StatusCode.ok, Some (pair r <$> row))
      end
  end.

(** The shape all row accessors share: clear the out parameter, follow the row, read, or report. *)
Definition row_value {A} (access : list Value.t → nat → Result A) (zero : A) (p : Process.t) (row : option Row_ptr)
    (column_index : nat) (out : option A) : Result (StatusCode.t * option A) :=
  match out, row with
  | None, _ => Ok (StatusCode.invalid_argument, None)
  | Some _, None => Ok (StatusCode.invalid_handle, Some zero)
  | Some _, Some (r, index) =>
      match Process.results p !! r with
      | None => Panic
      | Some h =>
          values ← rowFromView h index;
          match access values column_index with
          | Ok v => Ok (StatusCode.ok, Some v)
          | Err e => Ok (statusFromError e, Some zero)
          | Panic => Panic
          end
      end
  end.

Definition shovelerdb_row_value_kind := row_value kind ValueKind.null.
Definition shovelerdb_row_value_int64 := row_value int64 0.
(** [0] is the bit pattern of [0.0]. *)
Definition shovelerdb_row_value_float64 := row_value float64 0.
Definition shovelerdb_row_value_bool := row_value boolean 0.
Definition shovelerdb_row_value_text := row_value text View.null_view.
Definition shovelerdb_row_value_blob := row_value blob View.null_view.
Definition shovelerdb_row_value_vector_f32 := row_value vectorF32 View.null_view.

Definition shovelerdb_status_diagnostic_code (status : StatusCode.t) : DiagnosticCode.t := diagnosticCodeFromStatus status.
Definition shovelerdb_status_message (status : StatusCode.t) : bytes := statusMessage status.

Definition shovelerdb_database_last_diagnostic (p : Process.t) (database : option N) (out_code : option DiagnosticCode.t)
    (out_message : option StringView) : Result (StatusCode.t * option DiagnosticCode.t * option StringView) :=
  match database with
  | None => Ok (StatusCode.invalid_handle, out_code, out_message)
  | Some a =>
      match Process.databases p !! a with
      | None => Panic
      | Some handle =>
          match out_code, out_message with
          | Some _, Some _ =>
              let message := statusMessage (DatabaseHandle.last_status handle) in
              Ok (StatusCode.ok, Some (diagnosticCodeFromStatus (DatabaseHandle.last_status handle)),
                  Some (View.mk (Some message) (Z.of_nat (length message))))
          | _, _ => Ok (StatusCode.invalid_argument, out_code, out_message)
          end
      end
  end.
