(* ===== verification/AbiFacts.v ===== *)
(** * Facts about the C interface

    The numbers of the C header, the protocol for reading a result, the diagnostics of a handle, and
    what survives checkpoint, close and reopen. *)

From stdpp Require Import gmap.
From S2P Require Import Prelude Value Catalog CatalogFacts TableFacts RowStore Persistence PersistenceFacts Storage.
From S2P Require Import Ast Eval QuerySource QueryFacts Registries Executor ExecutorFacts Recovery Abi.

(** ** The header and the Zig enumerations *)
Definition header_status (s : StatusCode.t) : shovelerdb_status :=
  match s with
  | StatusCode.ok => SHOVELERDB_STATUS_OK
  | StatusCode.invalid_argument => SHOVELERDB_STATUS_INVALID_ARGUMENT
  | StatusCode.invalid_handle => SHOVELERDB_STATUS_INVALID_HANDLE
  | StatusCode.allocation_failed => SHOVELERDB_STATUS_ALLOCATION_FAILED
  | StatusCode.parse_error => SHOVELERDB_STATUS_PARSE_ERROR
  | StatusCode.object_error => SHOVELERDB_STATUS_OBJECT_ERROR
  | StatusCode.transaction_error => SHOVELERDB_STATUS_TRANSACTION_ERROR
  | StatusCode.type_error => SHOVELERDB_STATUS_TYPE_ERROR
  | StatusCode.vector_error => SHOVELERDB_STATUS_VECTOR_ERROR
  | StatusCode.persistence_error => SHOVELERDB_STATUS_PERSISTENCE_ERROR
  | StatusCode.io_error => SHOVELERDB_STATUS_IO_ERROR
  | StatusCode.unsupported => SHOVELERDB_STATUS_UNSUPPORTED
  | StatusCode.internal_error => SHOVELERDB_STATUS_INTERNAL_ERROR
  end.

Definition header_diagnostic (c : DiagnosticCode.t) : shovelerdb_diagnostic_code :=
  match c with
  | DiagnosticCode.none => SHOVELERDB_DIAGNOSTIC_NONE
  | DiagnosticCode.invalid_argument => SHOVELERDB_DIAGNOSTIC_INVALID_ARGUMENT
  | DiagnosticCode.invalid_handle => SHOVELERDB_DIAGNOSTIC_INVALID_HANDLE
  | DiagnosticCode.allocation => SHOVELERDB_DIAGNOSTIC_ALLOCATION
  | DiagnosticCode.parser => SHOVELERDB_DIAGNOSTIC_PARSER
  | DiagnosticCode.object => SHOVELERDB_DIAGNOSTIC_OBJECT
  | DiagnosticCode.transaction => SHOVELERDB_DIAGNOSTIC_TRANSACTION
  | DiagnosticCode.type => SHOVELERDB_DIAGNOSTIC_TYPE
  | DiagnosticCode.vector => SHOVELERDB_DIAGNOSTIC_VECTOR
  | DiagnosticCode.persistence => SHOVELERDB_DIAGNOSTIC_PERSISTENCE
  | DiagnosticCode.io => SHOVELERDB_DIAGNOSTIC_IO
  | DiagnosticCode.unsupported => SHOVELERDB_DIAGNOSTIC_UNSUPPORTED
  | DiagnosticCode.internal => SHOVELERDB_DIAGNOSTIC_INTERNAL
  end.

Definition header_result_kind (k : ResultKind.t) : shovelerdb_result_kind :=
  match k with
  | ResultKind.empty => SHOVELERDB_RESULT_EMPTY
  | ResultKind.mutation_count => SHOVELERDB_RESULT_MUTATION_COUNT
  | ResultKind.rows => SHOVELERDB_RESULT_ROWS
  end.

Definition header_value_kind (k : ValueKind.t) : shovelerdb_value_kind :=
  match k with
  | ValueKind.null => SHOVELERDB_VALUE_NULL
  | ValueKind.integer => SHOVELERDB_VALUE_INTEGER
  | ValueKind.float => SHOVELERDB_VALUE_FLOAT
  | ValueKind.boolean => SHOVELERDB_VALUE_BOOLEAN
  | ValueKind.text => SHOVELERDB_VALUE_TEXT
  | ValueKind.blob => SHOVELERDB_VALUE_BLOB
  | ValueKind.vector_f32 => SHOVELERDB_VALUE_VECTOR_F32
  end.

(** The C header and the Zig side use the same numbers under the same names for statuses, diagnostic codes, result
    kinds and value kinds, the numbers tell statuses apart, and the diagnostic code of a status has
    the status's own number. *)
Theorem header_agrees :
  (∀ s, StatusCode.c_int s = shovelerdb_status_value (header_status s)) ∧
  (∀ c, DiagnosticCode.c_int c = shovelerdb_diagnostic_value (header_diagnostic c)) ∧
  (∀ k, ResultKind.c_int k = shovelerdb_result_kind_value (header_result_kind k)) ∧
  (∀ k, ValueKind.c_int k = shovelerdb_value_kind_value (header_value_kind k)) ∧
  (∀ h, ∃ s, header_status s = h) ∧
  Inj (=) (=) StatusCode.c_int ∧
  (∀ s, DiagnosticCode.c_int (shovelerdb_status_diagnostic_code s) = StatusCode.c_int s).
Proof.
  split_and!; [by intros []..| | |by intros []].
  - intros []; first [by exists StatusCode.ok | by exists StatusCode.invalid_argument | by exists StatusCode.invalid_handle
      | by exists StatusCode.allocation_failed | by exists StatusCode.parse_error | by exists StatusCode.object_error
      | by exists StatusCode.transaction_error | by exists StatusCode.type_error | by exists StatusCode.vector_error
      | by exists StatusCode.persistence_error | by exists StatusCode.io_error | by exists StatusCode.unsupported
      | by exists StatusCode.internal_error].
  - intros [] []; (reflexivity || discriminate).
Qed.

(** ** Reading rows *)
Section access.
Context (p : Process.t) (r : N) (h : ResultHandle.t) (i : nat) (values : list Value.t).
Context (Hlive : Process.results p !! r = Some h) (Hrow : rowFromView h i = Ok values).

Lemma row_value_eq {A} (access : list Value.t → nat → Result A) zero col out :
  row_value access zero p (Some (r, i)) col (Some out) =
    match access values col with
    | Ok v => Ok (StatusCode.ok, Some v)
    | Err e => Ok (statusFromError e, Some zero)
    | Panic => Panic
    end.
Proof. unfold row_value. by rewrite Hlive, Hrow. Qed.
End access.

(** What the accessor for kind [k] answers on a value. *)
Definition typed {A} (k : ValueKind.t) (v : Value.t) (payload zero : A) : Result (StatusCode.t * option A) :=
  if decide (kindOf v = k) then Ok (StatusCode.ok, Some payload) else Ok (StatusCode.type_error, Some zero).

Definition int_of (v : Value.t) : Z :=
  match v with Value.integer z | Value.float z => z | Value.boolean b => if b then 1 else 0 | _ => 0 end.
Definition bytes_of (v : Value.t) : bytes := match v with Value.text s | Value.blob s => s | _ => [] end.
Definition whole_view {A} (l : list A) : View.t A := View.mk (Some l) (Z.of_nat (length l)).
Definition vector_view (v : Value.t) : F32VectorView :=
  match v with Value.vector x => View.mk (Some (Vector.values x)) (Vector.dimension x) | _ => View.null_view end.

(** On a live row, the value kind of a column is the kind of its value, the accessor of that kind delivers the
    value and every other accessor reports a type error and clears its out parameter; a column past the end is an
    invalid argument for all of them; and a NULL row or out pointer never reads anything. *)
Theorem row_access_typed (p : Process.t) (r : N) (h : ResultHandle.t) (i : nat) (values : list Value.t) (col : nat) :
  Process.results p !! r = Some h → rowFromView h i = Ok values →
  match values !! col with
  | Some v =>
      (∀ o, shovelerdb_row_value_kind p (Some (r, i)) col (Some o) = Ok (StatusCode.ok, Some (kindOf v))) ∧
      (∀ o, shovelerdb_row_value_int64 p (Some (r, i)) col (Some o) = typed ValueKind.integer v (int_of v) 0) ∧
      (∀ o, shovelerdb_row_value_float64 p (Some (r, i)) col (Some o) = typed ValueKind.float v (int_of v) 0) ∧
      (∀ o, shovelerdb_row_value_bool p (Some (r, i)) col (Some o) = typed ValueKind.boolean v (int_of v) 0) ∧
      (∀ o, shovelerdb_row_value_text p (Some (r, i)) col (Some o) =
              typed ValueKind.text v (whole_view (bytes_of v)) View.null_view) ∧
      (∀ o, shovelerdb_row_value_blob p (Some (r, i)) col (Some o) =
              typed ValueKind.blob v (whole_view (bytes_of v)) View.null_view) ∧
      (∀ o, shovelerdb_row_value_vector_f32 p (Some (r, i)) col (Some o) =
              typed ValueKind.vector_f32 v (vector_view v) View.null_view)
  | None =>
      (∀ o, shovelerdb_row_value_kind p (Some (r, i)) col (Some o) = Ok (StatusCode.invalid_argument, Some ValueKind.null)) ∧
      (∀ o, shovelerdb_row_value_int64 p (Some (r, i)) col (Some o) = Ok (StatusCode.invalid_argument, Some 0)) ∧
      (∀ o, shovelerdb_row_value_text p (Some (r, i)) col (Some o) = Ok (StatusCode.invalid_argument, Some View.null_view))
  end ∧
  (∀ row, shovelerdb_row_value_int64 p row col None = Ok (StatusCode.invalid_argument, None)) ∧
  (∀ o, shovelerdb_row_value_int64 p None col (Some o) = Ok (StatusCode.invalid_handle, Some 0)).
Proof.
  intros Hl Hr. split; [|done].
  unfold shovelerdb_row_value_kind, shovelerdb_row_value_int64, shovelerdb_row_value_float64, shovelerdb_row_value_bool,
    shovelerdb_row_value_text, shovelerdb_row_value_blob, shovelerdb_row_value_vector_f32.
  destruct (values !! col) as [v|] eqn:Hv; split_and!; intros o; rewrite (row_value_eq _ _ _ _ _ Hl Hr);
    unfold kind, int64, float64, boolean, text, blob, vectorF32, valueAt; rewrite Hv; by try destruct v.
Qed.

(** ** A client that reads a whole result *)
Definition expect_ok {A} (m : Result (StatusCode.t * option A)) : Result A :=
  '(s, o) ← m;
  match s, o with StatusCode.ok, Some a => Ok a | _, _ => Err InvalidArgument end.

Definition view_data {A} (v : View.t A) : list A := default [] (View.data v).

(** Ask for the kind, then call the matching accessor. *)
Definition client_value (p : Process.t) (row : option Row_ptr) (col : nat) : Result Value.t :=
  k ← expect_ok (shovelerdb_row_value_kind p row col (Some ValueKind.null));
  match k with
  | ValueKind.null => Ok Value.null
  | ValueKind.integer => Value.integer <$> expect_ok (shovelerdb_row_value_int64 p row col (Some 0))
  | ValueKind.float => Value.float <$> expect_ok (shovelerdb_row_value_float64 p row col (Some 0))
  | ValueKind.boolean => (λ z, Value.boolean (negb (z =? 0))) <$> expect_ok (shovelerdb_row_value_bool p row col (Some 0))
  | ValueKind.text => (λ v, Value.text (view_data v)) <$> expect_ok (shovelerdb_row_value_text p row col (Some View.null_view))
  | ValueKind.blob => (λ v, Value.blob (view_data v)) <$> expect_ok (shovelerdb_row_value_blob p row col (Some View.null_view))
  | ValueKind.vector_f32 =>
      (λ v, Value.vector (Vector.mk float32 (View.len v) (view_data v))) <$>
        expect_ok (shovelerdb_row_value_vector_f32 p row col (Some View.null_view))
  end.

(** Call [shovelerdb_result_next] until it stores NULL. *)
Fixpoint client_rows (fuel : nat) (p : Process.t) (r : N) (columns : nat) : Result (Process.t * list (list Value.t)) :=
  match fuel with
  | O => Err InvalidArgument
  | S fuel =>
      '(p, s, o) ← shovelerdb_result_next p (Some r) (Some None);
      match s, o with
      | StatusCode.ok, Some None => Ok (p, [])
      | StatusCode.ok, Some (Some row) =>
          vs ← mapR (client_value p (Some row)) (seq 0 columns);
          '(p, rows) ← client_rows fuel p r columns;
          Ok (p, vs :: rows)
      | _, _ => Err InvalidArgument
      end
  end.

Definition client_read (p : Process.t) (r : N) : Result (Process.t * ResultSet.t) :=
  n ← shovelerdb_result_column_count p (Some r);
  columns ← mapR (λ i, view_data <$> expect_ok (shovelerdb_result_column_name p (Some r) i (Some View.null_view))) (seq 0 n);
  count ← shovelerdb_result_row_count p (Some r);
  '(p, rows) ← client_rows (S count) p r n;
  Ok (p, ResultSet.mk columns rows).

Lemma mapR_seq {A} (f : nat → Result A) (l : list A) :
  (∀ i x, l !! i = Some x → f i = Ok x) → mapR f (seq 0 (length l)) = Ok l.
Proof.
  intros Hf. apply mapR_ok_inv, Forall2_same_length_lookup_2; [by rewrite length_seq|].
  intros k i x Hi Hx. apply lookup_seq in Hi as [-> _]. by apply Hf.
Qed.

Lemma client_value_ok p r h i values col v :
  Process.results p !! r = Some h → rowFromView h i = Ok values → values !! col = Some v →
  client_value p (Some (r, i)) col = Ok v.
Proof.
  intros Hl Hr Hv. unfold client_value, shovelerdb_row_value_kind, shovelerdb_row_value_int64, shovelerdb_row_value_float64,
    shovelerdb_row_value_bool, shovelerdb_row_value_text, shovelerdb_row_value_blob, shovelerdb_row_value_vector_f32.
  rewrite !(row_value_eq _ _ _ _ _ Hl Hr).
  unfold kind, int64, float64, boolean, text, blob, vectorF32, valueAt. rewrite Hv.
  destruct v as [| | |[]| | |[[] d vs]]; reflexivity.
Qed.

(** The result handle with its cursor at row [k]. *)
Definition cursor_at (rs : ResultSet.t) (k : nat) : ResultHandle.t := ResultHandle.mk (ExecutionResult.result_set rs) k false.

Lemma client_rows_ok rs n r rest : ∀ fuel p pre,
  ResultSet.rows rs = pre ++ rest → Forall (λ row, length row = n) rest → (length rest < fuel)%nat →
  Process.results p !! r = Some (cursor_at rs (length pre)) →
  client_rows fuel p r n = Ok (Process.with_result p r (cursor_at rs (length (ResultSet.rows rs))), rest).
Proof.
  induction rest as [|row rest IH]; intros [|fuel] p pre Hrs Hw Hf Hl; simpl in Hf; try lia.
  all: cbn [client_rows]; unfold shovelerdb_result_next; rewrite Hl; unfold nextRow; cbn [cursor_at ResultHandle.result ResultHandle.next_row_index].
  { rewrite app_nil_r in Hrs. rewrite <-Hrs, Nat.leb_refl. done. }
  rewrite (proj2 (Nat.leb_gt _ _)) by (rewrite Hrs, length_app; simpl; lia). cbn [mbind result_bind fmap option_fmap option_map].
  apply Forall_cons in Hw as [Hn Hw].
  set (p' := Process.with_result p r _).
  assert (Hl' : Process.results p' !! r = Some (cursor_at rs (S (length pre)))) by (unfold p'; simpl; by rewrite lookup_insert_eq).
  rewrite <-Hn at 1. rewrite (mapR_seq _ row).
  2:{ intros c v Hv. eapply client_value_ok; [exact Hl'| |exact Hv]. unfold rowFromView. simpl. apply item_at_ok.
      rewrite Hrs. by apply list_lookup_middle. }
  cbn [mbind result_bind]. rewrite (IH fuel p' (pre ++ [row])); [|by rewrite Hrs, <-app_assoc|done|lia|].
  - cbn [mbind result_bind]. unfold p', Process.with_result. simpl. by rewrite insert_insert_eq.
  - by rewrite length_app, Nat.add_1_r.
Qed.

(** C21: a client that follows the documented protocol (column names, then rows until NULL, each column by kind and
    matching accessor) reads back exactly the result set the statement produced, ends with the cursor
    behind the last row, and every further call keeps answering NULL. *)
Theorem client_reads_result (p : Process.t) (r : N) (rs : ResultSet.t) :
  Process.results p !! r = Some (cursor_at rs 0) →
  Forall (λ row, length row = length (ResultSet.columns rs)) (ResultSet.rows rs) →
  ∃ p', client_read p r = Ok (p', rs) ∧ Process.databases p' = Process.databases p ∧ Process.files p' = Process.files p ∧
    Process.results p' = <[r := cursor_at rs (length (ResultSet.rows rs))]> (Process.results p) ∧
    ∀ o, shovelerdb_result_next p' (Some r) (Some o) = Ok (p', StatusCode.ok, Some None).
Proof.
  intros Hl Hw. exists (Process.with_result p r (cursor_at rs (length (ResultSet.rows rs)))). split_and!; [|done|done|done|].
  - unfold client_read, shovelerdb_result_column_count, shovelerdb_result_column_name, shovelerdb_result_row_count, on_result.
    rewrite Hl. cbn [mbind result_bind ResultHandle.columnCount rowCount cursor_at ResultHandle.result].
    rewrite (mapR_seq _ (ResultSet.columns rs)).
    2:{ intros i c Hc. unfold ResultHandle.columnName. cbn [cursor_at ResultHandle.result]. by rewrite Hc. }
    cbn [mbind result_bind].
    rewrite (client_rows_ok rs _ r (ResultSet.rows rs) _ p []); [|done|done|lia|done]. by destruct rs.
  - intros o. unfold shovelerdb_result_next. cbn [Process.with_result Process.results]. rewrite lookup_insert_eq.
    unfold nextRow. cbn [cursor_at ResultHandle.result ResultHandle.next_row_index]. rewrite Nat.leb_refl.
    cbn [fmap option_fmap option_map]. do 2 f_equal. unfold Process.with_result. simpl. by rewrite insert_insert_eq.
Qed.

(** ** Outcomes of calls *)
Lemma statusFromError_not_ok e : statusFromError e ≠ StatusCode.ok.
Proof. by destruct e. Qed.

(** What [shovelerdb_database_last_diagnostic] reports for a status. *)
Definition diagnosis (s : StatusCode.t) : Result (StatusCode.t * option DiagnosticCode.t * option StringView) :=
  Ok (StatusCode.ok, Some (shovelerdb_status_diagnostic_code s), Some (whole_view (shovelerdb_status_message s))).

Definition last_diagnostic (p : Process.t) (a : N) :=
  shovelerdb_database_last_diagnostic p (Some a) (Some DiagnosticCode.none) (Some View.null_view).

Lemma last_diagnostic_eq p a h s :
  Process.databases p !! a = Some h → DatabaseHandle.last_status h = s → last_diagnostic p a = diagnosis s.
Proof. intros Ha <-. unfold last_diagnostic, shovelerdb_database_last_diagnostic. by rewrite Ha. Qed.

(** The status of an execute call on a live handle is OK exactly when it stores a new, live result handle, and
    NULL is stored otherwise; the last diagnostic of the handle is then that of the returned status, after execute as
    after checkpoint. *)
Theorem status_and_diagnostic (parse : bytes → option Statement.t) (parse_body : bytes → option Body)
    (p : Process.t) (a : N) (h : DatabaseHandle.t) :
  Process.databases p !! a = Some h →
  (∀ create_ok sql o p' s out,
     shovelerdb_execute parse parse_body create_ok p (Some a) sql (Some o) = Ok (p', s, out) →
     last_diagnostic p' a = diagnosis s ∧
     match s with
     | StatusCode.ok => out = Some (Some (Process.next_address p)) ∧
                        ∃ e, Process.results p' !! Process.next_address p = Some (ResultHandle.mk e 0 false)
     | _ => out = Some None ∧ Process.results p' = Process.results p
     end) ∧
  (∀ f p' s, shovelerdb_checkpoint f p (Some a) = Ok (p', s) →
     last_diagnostic p' a = diagnosis s ∧ Process.results p' = Process.results p).
Proof.
  intros Ha.
  assert (Hset : ∀ (p : Process.t) h s, last_diagnostic (Process.with_database p a (DatabaseHandle.with_status h s)) a = diagnosis s).
  { intros q hq s. eapply last_diagnostic_eq; [apply lookup_insert_eq|done]. }
  split.
  - intros create_ok sql o p' s out. unfold shovelerdb_execute. rewrite Ha. cbv zeta.
    destruct sql as [sql|]; [|intros [= <- <- <-]; by split].
    destruct (length (span sql) =? 0)%nat; [intros [= <- <- <-]; by split|].
    destruct create_ok; cbn [negb]; [|intros [= <- <- <-]; by split].
    unfold DatabaseHandle.execute. destruct (DatabaseHandle.closed h); [intros [= <- <- <-]; by split|].
    destruct (executeSql _ _ _ _) as [c [res|e|]]; [| |done].
    + intros [= <- <- <-]. split; [eapply last_diagnostic_eq; [apply lookup_insert_eq|done]|].
      split; [done|]. exists res. apply lookup_insert_eq.
    + intros [= <- <- <-]. split; [apply Hset|]. pose proof (statusFromError_not_ok e). by destruct (statusFromError e).
  - intros f p' s. unfold shovelerdb_checkpoint. rewrite Ha. unfold DatabaseHandle.checkpoint.
    destruct (DatabaseHandle.closed h); [intros [= <- <-]; split; [apply (Hset p)|done]|].
    unfold io_bind, io_lift. destruct (exportSnapshot _) as [snap|e|]; [| |done].
    + destruct (writeSnapshot f _ snap _) as [[[]|e|] w]; [| |done]; intros [= <- <-]; (split; [|done]); apply Hset.
    + intros [= <- <-]. split; [apply Hset|done].
Qed.

(** ** Durability through the interface *)

(** Every number of the database fits its machine width. *)
Definition widths_ok (d : Database.t) : Prop :=
  Forall (λ ts, Forall column_valid (TableDef.columns (table_of ts)) ∧
                Forall (λ row, Forall Value.wf (Row.values row)) (RowStore.rows_list (TableState.store ts))) (Database.tables d).

Lemma exportable_snapshot_wf parse parse_body d :
  exportable parse parse_body d → widths_ok d → snapshot_wf (snapshot_of d).
Proof.
  intros [Ht Hl Hc _ _] Hw. split; [done|]. cbn [snapshot_of DatabaseSnapshot.catalog DatabaseSnapshot.stores]. rewrite Hl.
  apply Forall2_fmap, Forall_Forall2_diag, Forall_forall. intros ts Hin.
  unfold widths_ok in Hw. rewrite Forall_forall in Ht, Hw. destruct (Ht ts Hin) as (? & ? & _), (Hw ts Hin) as [? ?]. by split_and!.
Qed.

Lemma checkpoint_ok parse parse_body h data w :
  exportable parse parse_body (DatabaseHandle.db h) → encodeSnapshot (snapshot_of (DatabaseHandle.db h)) = Ok data →
  DatabaseHandle.closed h = false →
  ∃ w', DatabaseHandle.checkpoint no_faults h w = (Ok (DatabaseHandle.with_status h StatusCode.ok), w') ∧
    dir w' !! DatabaseHandle.path h = Some data.
Proof.
  intros Hx He Hc. unfold DatabaseHandle.checkpoint. rewrite Hc. unfold io_bind, io_lift. rewrite (export_ok _ _ _ Hx).
  fold (snapshot_of (DatabaseHandle.db h)).
  destruct (writeSnapshot_ok (DatabaseHandle.path h) data _ w He) as (w' & -> & Hd & _). by exists w'.
Qed.

Lemma open_ok {allocator : Allocator} parse parse_body d path data w f :
  exportable parse parse_body d → widths_ok d → encodeSnapshot (snapshot_of d) = Ok data →
  Z.of_nat (length data) < max_snapshot_bytes → dir w !! path = Some data →
  ∃ d', DatabaseHandle.openOrCreate parse parse_body None f path w =
          (Ok (DatabaseHandle.mk path d' Session.init StatusCode.ok false), w) ∧
    Database.tables d' = Database.tables d ∧ Database.db_catalog d' = Database.db_catalog d.
Proof.
  intros Hx Hw He Hlen Hp. destruct (restore_ok _ _ _ Hx) as (d' & Hr & Hcat & Ht & _). exists d'. split; [|done].
  unfold DatabaseHandle.openOrCreate, DatabaseHandle.openExecutorDatabase, readSnapshot, readFileAlloc, io_bind, io_catch, io_lift, io_ret.
  rewrite Hp, (proj2 (Z.leb_gt _ _)) by lia. rewrite (snapshot_decodes _ _ (exportable_snapshot_wf _ _ _ Hx Hw) He). by rewrite Hr.
Qed.

(** C9: what a host checkpoints survives, as long as the file can be read back: on a live handle whose path is not empty and holds no zero
    byte, whose engine can be exported and
    reloaded ([exportable]: table definitions that decode, view and procedure texts that parse), holds only numbers of their machine
    widths, and has a snapshot that can be encoded in less than [max_snapshot_bytes], and on a file system without faults, checkpoint, close and open again
    at the same path all report OK, and the new handle has every table of the old one with its committed rows, ids and
    definitions and the same catalog, in a fresh session without a transaction. *)
Theorem checkpoint_reopen {allocator : Allocator} (parse : bytes → option Statement.t) (parse_body : bytes → option Body)
    (p : Process.t) (a : N) (h : DatabaseHandle.t) (data : bytes) (o : option N) :
  let d := DatabaseHandle.db h in
  Process.databases p !! a = Some h → DatabaseHandle.closed h = false →
  span (DatabaseHandle.path h) = DatabaseHandle.path h → DatabaseHandle.path h ≠ [] →
  exportable parse parse_body d → widths_ok d →
  encodeSnapshot (snapshot_of d) = Ok data → Z.of_nat (length data) < max_snapshot_bytes →
  ∃ p1 p2 p3 a' h',
    shovelerdb_checkpoint no_faults p (Some a) = Ok (p1, StatusCode.ok) ∧
    shovelerdb_close p1 (Some a) = Ok p2 ∧
    shovelerdb_open_or_create parse parse_body true None no_faults p2 (Some (DatabaseHandle.path h)) (Some o) =
      Ok (p3, StatusCode.ok, Some (Some a')) ∧
    Process.databases p3 !! a' = Some h' ∧
    Database.tables (DatabaseHandle.db h') = Database.tables d ∧
    Database.db_catalog (DatabaseHandle.db h') = Database.db_catalog d ∧
    DatabaseHandle.session h' = Session.init.
Proof.
  intros d Ha Hc Hspan Hne Hx Hw He Hlen.
  destruct (checkpoint_ok _ _ h data (Process.files p) Hx He Hc) as (w & Hck & Hdir).
  destruct (open_ok _ _ d (DatabaseHandle.path h) data w no_faults Hx Hw He Hlen Hdir) as (d' & Hop & Ht & Hcat).
  eexists _, _, _, _, _. split_and!.
  - unfold shovelerdb_checkpoint. rewrite Ha, Hck. reflexivity.
  - unfold shovelerdb_close. cbn [Process.with_database Process.databases]. rewrite lookup_insert_eq. reflexivity.
  - unfold shovelerdb_open_or_create. cbv zeta. rewrite Hspan.
    destruct (Nat.eqb_spec (length (DatabaseHandle.path h)) 0) as [E|_]; [by apply nil_length_inv in E|].
    cbn [negb Process.files Process.with_database Process.with_files]. rewrite Hop. reflexivity.
  - apply lookup_insert_eq.
  - exact Ht.
  - exact Hcat.
  - reflexivity.
Qed.

(** ** Samples *)
#[local] Existing Instance in_place.

Definition sample_result : ResultSet.t :=
  ResultSet.mk [B "id"; B "name"; B "v"]
    [[Value.integer 1; Value.text (B "a"); Value.vector (Vector.mk float32 2 [1065353216; 0])];
     [Value.integer 2; Value.null; Value.boolean true]].

Definition sample_handle : DatabaseHandle.t := DatabaseHandle.mk (B "m.shovel") sample_db Session.init StatusCode.ok false.

Definition sample_process : Process.t :=
  Process.mk (World ∅ []) {[ 1%N := sample_handle ]} {[ 2%N := cursor_at sample_result 0 ]} 3%N.

Definition sample_data : bytes := match encodeSnapshot (snapshot_of sample_db) with Ok data => data | _ => [] end.

Lemma row_access_typed_witness :
  shovelerdb_row_value_text sample_process (Some (2%N, 0%nat)) 1 (Some View.null_view) =
    Ok (StatusCode.ok, Some (whole_view (B "a"))) ∧
  shovelerdb_row_value_int64 sample_process (Some (2%N, 0%nat)) 1 (Some 9) = Ok (StatusCode.type_error, Some 0).
Proof.
  destruct (row_access_typed sample_process 2%N (cursor_at sample_result 0) 0
    [Value.integer 1; Value.text (B "a"); Value.vector (Vector.mk float32 2 [1065353216; 0])] 1 eq_refl eq_refl)
    as [(_ & Hi & _ & _ & Ht & _) _].
  split; [rewrite Ht; reflexivity|rewrite Hi; reflexivity].
Defined.

Lemma client_reads_result_witness :
  ∃ p', client_read sample_process 2%N = Ok (p', sample_result).
Proof.
  destruct (client_reads_result sample_process 2%N sample_result eq_refl ltac:(by repeat constructor)) as (p' & H & _).
  exists p'. exact H.
Defined.

(** The state after a call with text the parser refuses. *)
Definition refused_call : Process.t :=
  Process.with_database sample_process 1%N (DatabaseHandle.with_status sample_handle StatusCode.parse_error).

Lemma status_and_diagnostic_witness :
  shovelerdb_execute sample_parse sample_parse_body true sample_process (Some 1%N) (Some (B "nonsense")) (Some None) =
    Ok (refused_call, StatusCode.parse_error, Some None) ∧
  last_diagnostic refused_call 1%N = diagnosis StatusCode.parse_error.
Proof.
  assert (H : shovelerdb_execute sample_parse sample_parse_body true sample_process (Some 1%N) (Some (B "nonsense")) (Some None) =
    Ok (refused_call, StatusCode.parse_error, Some None)) by (vm_compute; reflexivity).
  split; [exact H|].
  destruct (status_and_diagnostic sample_parse sample_parse_body sample_process 1%N sample_handle ltac:(reflexivity)) as [He _].
  exact (proj1 (He true (Some (B "nonsense")) None refused_call StatusCode.parse_error (Some None) H)).
Defined.

Lemma sample_widths : widths_ok sample_db.
Proof.
  unfold widths_ok. assert (Hl : length (Database.tables sample_db) = 1%nat) by (vm_compute; reflexivity).
  apply Forall_forall. intros ts Hts. apply list_elem_of_lookup in Hts as [i Hi].
  assert (i = 0%nat) as -> by (apply lookup_lt_Some in Hi; lia). vm_compute in Hi. injection Hi as <-.
  split; repeat constructor; vm_compute; congruence.
Qed.

Lemma checkpoint_reopen_witness :
  encodeSnapshot (snapshot_of sample_db) = Ok sample_data ∧
  ∃ p1 p2 p3 a',
    shovelerdb_checkpoint no_faults sample_process (Some 1%N) = Ok (p1, StatusCode.ok) ∧
    shovelerdb_close p1 (Some 1%N) = Ok p2 ∧
    shovelerdb_open_or_create sample_parse sample_parse_body true None no_faults p2 (Some (B "m.shovel")) (Some None) =
      Ok (p3, StatusCode.ok, Some (Some a')).
Proof.
  assert (He : encodeSnapshot (snapshot_of sample_db) = Ok sample_data) by (vm_compute; reflexivity).
  split; [exact He|].
  destruct (checkpoint_reopen sample_parse sample_parse_body sample_process 1%N sample_handle sample_data None
    ltac:(reflexivity) ltac:(reflexivity) ltac:(vm_compute; reflexivity) ltac:(discriminate) sample_db_exportable sample_widths He
    ltac:(vm_compute; reflexivity)) as (p1 & p2 & p3 & a' & h' & H1 & H2 & H3 & _).
  exists p1, p2, p3, a'. split; [exact H1|]. split; [exact H2|exact H3].
Defined.
