(* ===== verification/AbiHeader.v ===== *)
(** * The C header against the exported functions

    [src/include/shovelerdb.h] declares the library to C, [src/src/abi/c_api.zig] and [handles.zig] define it: two
    hand-written texts that the linker joins by name alone, without a look at types.  Here are the declarations of both,
    each in its own type language, and what each of them means to a machine: its lowering to a [layout].  The width of an
    address and the signedness of [char] are arguments.

    - [Header]: the types, the typedefs and the prototypes of the header, and what SHOVELERDB_API stands for;
    - [Exports]: the Zig types, the declarations of [handles.zig] under their names in [c_api.zig], and the signatures of
      the exported functions;
    - [interface_agrees], [interface_sign]: both lower to the same interface up to the sign of a byte, which the header leaves
      to the C implementation where it says [char]; [view_layouts]: the members of the three views.

    The calling convention itself, the C compiler and the Zig compiler are not modelled: two declarations agree when
    every argument and result has the same size, direction and constness, and the same signedness beyond a byte.  The sign of
    an enumeration is not part of a layout. *)

From stdpp Require Import list strings.
From S2P Require Import Prelude Value Abi AbiFacts.

(** ** What a declaration means to the machine *)

(** [enumerated] is a four-byte integer with its named numbers; [handle] is storage only the library looks into; a pointer
    says whether its target is read-only to the callee's client. *)
Inductive layout :=
  | nothing
  | integer (signed : bool) (width : Z)
  | address_size
  | real (width : Z)
  | enumerated (width : Z) (numbers : list Z)
  | handle
  | record (fields : list (string * layout))
  | pointer (read_only : bool) (target : layout).

(** A function of the interface: its name, its parameters by name, its result. *)
Record signature (A : Type) := Signature { symbol : string; parameters : list (string * A); returns : A }.
Arguments Signature {A} symbol parameters returns.
Arguments symbol {A} _.
Arguments parameters {A} _.
Arguments returns {A} _.

Definition lower_signature {A} (lower : A → option layout) (f : signature A) : option (signature layout) :=
  ps ← mapM (λ p : string * A, pair p.1 <$> lower p.2) (parameters f);
  r ← lower (returns f);
  Some (Signature (symbol f) ps r).

Fixpoint lookup_name {A} (env : list (string * A)) (x : string) : option A :=
  match env with
  | [] => None
  | (y, a) :: env => if decide (x = y) then Some a else lookup_name env x
  end.

(** ** shovelerdb.h *)
Module Header.
Inductive ctype :=
  | void | char | float | double
  | uint8_t | uint32_t | uint64_t | int64_t | size_t
  | named (n : string)
  | ptr (const : bool) (target : ctype).

(** A typedef: a struct declared but not defined, an enum with its numbers, a struct with its members. *)
Inductive typedef :=
  | opaque
  | enum (numbers : list Z)
  | struct (members : list (string * ctype)).

(** Whether a plain [char] is signed is the C implementation's choice. *)
Section char.
Context (char_signed : bool).

Section lower.
Context (env : list (string * layout)).

(** A type that cannot be passed or returned by value, such as an undefined struct, is only met behind a pointer. *)
Fixpoint lower (t : ctype) : option layout :=
  match t with
  | void => Some nothing
  | char => Some (integer char_signed 1)
  | uint8_t => Some (integer false 1)
  | uint32_t => Some (integer false 4)
  | uint64_t => Some (integer false 8)
  | int64_t => Some (integer true 8)
  | size_t => Some address_size
  | float => Some (real 4)
  | double => Some (real 8)
  | named n => lookup_name env n
  | ptr c t => pointer c <$> lower t
  end.

Definition lower_typedef (d : typedef) : option layout :=
  match d with
  | opaque => Some handle
  | enum ns => Some (enumerated 4 ns)
  | struct ms => record <$> mapM (λ m : string * ctype, pair m.1 <$> lower m.2) ms
  end.
End lower.

(** Typedefs in the order of the file; each may use those before it. *)
Fixpoint declare (env : list (string * layout)) (ds : list (string * typedef)) : option (list (string * layout)) :=
  match ds with
  | [] => Some env
  | (n, d) :: ds => l ← lower_typedef env d; declare (env ++ [(n, l)]) ds
  end.
End char.

(** What SHOVELERDB_API stands for, by the macros that are defined. *)
Inductive linkage := dllexport | dllimport | ordinary.

Definition SHOVELERDB_API (win32 build_shared use_shared : bool) : linkage :=
  if win32 && build_shared then dllexport else if win32 && use_shared then dllimport else ordinary.

Definition handle_types : list (string * typedef) :=
  [("shovelerdb_database", opaque); ("shovelerdb_result", opaque); ("shovelerdb_row", opaque)]%string.

Definition all_status : list shovelerdb_status :=
  [SHOVELERDB_STATUS_OK; SHOVELERDB_STATUS_INVALID_ARGUMENT; SHOVELERDB_STATUS_INVALID_HANDLE;
   SHOVELERDB_STATUS_ALLOCATION_FAILED; SHOVELERDB_STATUS_PARSE_ERROR; SHOVELERDB_STATUS_OBJECT_ERROR;
   SHOVELERDB_STATUS_TRANSACTION_ERROR; SHOVELERDB_STATUS_TYPE_ERROR; SHOVELERDB_STATUS_VECTOR_ERROR;
   SHOVELERDB_STATUS_PERSISTENCE_ERROR; SHOVELERDB_STATUS_IO_ERROR; SHOVELERDB_STATUS_UNSUPPORTED;
   SHOVELERDB_STATUS_INTERNAL_ERROR].

Definition all_diagnostic_code : list shovelerdb_diagnostic_code :=
  [SHOVELERDB_DIAGNOSTIC_NONE; SHOVELERDB_DIAGNOSTIC_INVALID_ARGUMENT; SHOVELERDB_DIAGNOSTIC_INVALID_HANDLE;
   SHOVELERDB_DIAGNOSTIC_ALLOCATION; SHOVELERDB_DIAGNOSTIC_PARSER; SHOVELERDB_DIAGNOSTIC_OBJECT;
   SHOVELERDB_DIAGNOSTIC_TRANSACTION; SHOVELERDB_DIAGNOSTIC_TYPE; SHOVELERDB_DIAGNOSTIC_VECTOR;
   SHOVELERDB_DIAGNOSTIC_PERSISTENCE; SHOVELERDB_DIAGNOSTIC_IO; SHOVELERDB_DIAGNOSTIC_UNSUPPORTED;
   SHOVELERDB_DIAGNOSTIC_INTERNAL].

Definition all_result_kind : list shovelerdb_result_kind :=
  [SHOVELERDB_RESULT_EMPTY; SHOVELERDB_RESULT_MUTATION_COUNT; SHOVELERDB_RESULT_ROWS].

Definition all_value_kind : list shovelerdb_value_kind :=
  [SHOVELERDB_VALUE_NULL; SHOVELERDB_VALUE_INTEGER; SHOVELERDB_VALUE_FLOAT; SHOVELERDB_VALUE_BOOLEAN;
   SHOVELERDB_VALUE_TEXT; SHOVELERDB_VALUE_BLOB; SHOVELERDB_VALUE_VECTOR_F32].

Definition enum_types : list (string * typedef) :=
  [("shovelerdb_status", enum (shovelerdb_status_value <$> all_status));
   ("shovelerdb_diagnostic_code", enum (shovelerdb_diagnostic_value <$> all_diagnostic_code));
   ("shovelerdb_result_kind", enum (shovelerdb_result_kind_value <$> all_result_kind));
   ("shovelerdb_value_kind", enum (shovelerdb_value_kind_value <$> all_value_kind))]%string.

Definition view_types : list (string * typedef) :=
  [("shovelerdb_string_view", struct [("data", ptr true char); ("len", size_t)]);
   ("shovelerdb_bytes_view", struct [("data", ptr true uint8_t); ("len", size_t)]);
   ("shovelerdb_f32_vector_view", struct [("data", ptr true float); ("len", size_t)])]%string.

Abbreviation status := (named "shovelerdb_status").
Abbreviation database := (named "shovelerdb_database").
Abbreviation result := (named "shovelerdb_result").
Abbreviation row := (named "shovelerdb_row").

Definition version_prototypes : list (signature ctype) :=
  [Signature "shovelerdb_abi_version_major" [] uint32_t;
   Signature "shovelerdb_abi_version_minor" [] uint32_t;
   Signature "shovelerdb_abi_version_patch" [] uint32_t]%string.

Definition database_prototypes : list (signature ctype) :=
  [Signature "shovelerdb_open_or_create" [("path", ptr true char); ("out_database", ptr false (ptr false database))] status;
   Signature "shovelerdb_close" [("database", ptr false database)] void;
   Signature "shovelerdb_checkpoint" [("database", ptr false database)] status;
   Signature "shovelerdb_execute"
     [("database", ptr false database); ("sql", ptr true char); ("out_result", ptr false (ptr false result))] status]%string.

Definition result_prototypes : list (signature ctype) :=
  [Signature "shovelerdb_result_release" [("result", ptr false result)] void;
   Signature "shovelerdb_result_kind_of" [("result", ptr true result)] (named "shovelerdb_result_kind");
   Signature "shovelerdb_result_mutation_count" [("result", ptr true result)] uint64_t;
   Signature "shovelerdb_result_column_count" [("result", ptr true result)] size_t;
   Signature "shovelerdb_result_row_count" [("result", ptr true result)] size_t;
   Signature "shovelerdb_result_column_name"
     [("result", ptr true result); ("column_index", size_t); ("out_name", ptr false (named "shovelerdb_string_view"))] status;
   Signature "shovelerdb_result_next" [("result", ptr false result); ("out_row", ptr false (ptr true row))] status]%string.

Definition row_prototypes : list (signature ctype) :=
  [Signature "shovelerdb_row_value_kind"
     [("row", ptr true row); ("column_index", size_t); ("out_kind", ptr false (named "shovelerdb_value_kind"))] status;
   Signature "shovelerdb_row_value_int64" [("row", ptr true row); ("column_index", size_t); ("out_value", ptr false int64_t)] status;
   Signature "shovelerdb_row_value_float64" [("row", ptr true row); ("column_index", size_t); ("out_value", ptr false double)] status;
   Signature "shovelerdb_row_value_bool" [("row", ptr true row); ("column_index", size_t); ("out_value", ptr false uint8_t)] status;
   Signature "shovelerdb_row_value_text"
     [("row", ptr true row); ("column_index", size_t); ("out_value", ptr false (named "shovelerdb_string_view"))] status;
   Signature "shovelerdb_row_value_blob"
     [("row", ptr true row); ("column_index", size_t); ("out_value", ptr false (named "shovelerdb_bytes_view"))] status;
   Signature "shovelerdb_row_value_vector_f32"
     [("row", ptr true row); ("column_index", size_t); ("out_value", ptr false (named "shovelerdb_f32_vector_view"))] status]%string.

Definition diagnostic_prototypes : list (signature ctype) :=
  [Signature "shovelerdb_status_diagnostic_code" [("status", status)] (named "shovelerdb_diagnostic_code");
   Signature "shovelerdb_status_message" [("status", status)] (ptr true char);
   Signature "shovelerdb_database_last_diagnostic"
     [("database", ptr true database); ("out_code", ptr false (named "shovelerdb_diagnostic_code"));
      ("out_message", ptr false (named "shovelerdb_string_view"))] status]%string.

Definition prototypes : list (signature ctype) :=
  version_prototypes ++ database_prototypes ++ result_prototypes ++ row_prototypes ++ diagnostic_prototypes.

(** What a C compiler reads in the header. *)
Definition interface (char_signed : bool) : option (list (signature layout)) :=
  env ← declare char_signed [] (handle_types ++ enum_types ++ view_types);
  mapM (lower_signature (lower char_signed env)) prototypes.
End Header.

(** ** c_api.zig and handles.zig *)
Module Exports.

(** [size] of a pointer: one item, many, or many up to a zero. *)
Inductive pointer_size := one | many | many_zero.

Inductive ztype :=
  | void | u8 | u32 | u64 | i64 | usize | f32 | f64
  | named (n : string)
  | ptr (optional : bool) (size : pointer_size) (const : bool) (child : ztype).

(** A container: an ordinary struct, whose layout is the compiler's; an [opaque]; an [enum(c_int)]; an [extern struct]. *)
Inductive container :=
  | struct
  | opaque
  | enum_c_int (numbers : list Z)
  | extern_struct (fields : list (string * ztype)).

Section lower.
Context (env : list (string * layout)).

Fixpoint lower (t : ztype) : option layout :=
  match t with
  | void => Some nothing
  | u8 => Some (integer false 1)
  | u32 => Some (integer false 4)
  | u64 => Some (integer false 8)
  | i64 => Some (integer true 8)
  | usize => Some address_size
  | f32 => Some (real 4)
  | f64 => Some (real 8)
  | named n => lookup_name env n
  | ptr _ _ c t => pointer c <$> lower t
  end.

Definition lower_container (d : container) : option layout :=
  match d with
  | struct | opaque => Some handle
  | enum_c_int ns => Some (enumerated 4 ns)
  | extern_struct fs => record <$> mapM (λ f : string * ztype, pair f.1 <$> lower f.2) fs
  end.
End lower.

Fixpoint declare (env : list (string * layout)) (ds : list (string * container)) : option (list (string * layout)) :=
  match ds with
  | [] => Some env
  | (n, d) :: ds => l ← lower_container env d; declare (env ++ [(n, l)]) ds
  end.

Definition all_status : list StatusCode.t :=
  [StatusCode.ok; StatusCode.invalid_argument; StatusCode.invalid_handle; StatusCode.allocation_failed; StatusCode.parse_error;
   StatusCode.object_error; StatusCode.transaction_error; StatusCode.type_error; StatusCode.vector_error;
   StatusCode.persistence_error; StatusCode.io_error; StatusCode.unsupported; StatusCode.internal_error].

Definition all_diagnostic_code : list DiagnosticCode.t :=
  [DiagnosticCode.none; DiagnosticCode.invalid_argument; DiagnosticCode.invalid_handle; DiagnosticCode.allocation;
   DiagnosticCode.parser; DiagnosticCode.object; DiagnosticCode.transaction; DiagnosticCode.type; DiagnosticCode.vector;
   DiagnosticCode.persistence; DiagnosticCode.io; DiagnosticCode.unsupported; DiagnosticCode.internal].

Definition all_result_kind : list ResultKind.t := [ResultKind.empty; ResultKind.mutation_count; ResultKind.rows].

Definition all_value_kind : list ValueKind.t :=
  [ValueKind.null; ValueKind.integer; ValueKind.float; ValueKind.boolean; ValueKind.text; ValueKind.blob; ValueKind.vector_f32].

(** The containers of [handles.zig] and [RowView] of [result.zig]. *)
Definition StringView_fields : list (string * ztype) := [("data", ptr true many true u8); ("len", usize)]%string.
Definition BytesView_fields : list (string * ztype) := [("data", ptr true many true u8); ("len", usize)]%string.
Definition F32VectorView_fields : list (string * ztype) := [("data", ptr true many true f32); ("len", usize)]%string.

(** [pub const shovelerdb_... = handles....]: the names the signatures use. *)
Definition containers : list (string * container) :=
  [("shovelerdb_database", struct); ("shovelerdb_result", struct); ("shovelerdb_row", opaque);
   ("shovelerdb_status", enum_c_int (StatusCode.c_int <$> all_status));
   ("shovelerdb_diagnostic_code", enum_c_int (DiagnosticCode.c_int <$> all_diagnostic_code));
   ("shovelerdb_result_kind", enum_c_int (ResultKind.c_int <$> all_result_kind));
   ("shovelerdb_value_kind", enum_c_int (ValueKind.c_int <$> all_value_kind));
   ("shovelerdb_string_view", extern_struct StringView_fields);
   ("shovelerdb_bytes_view", extern_struct BytesView_fields);
   ("shovelerdb_f32_vector_view", extern_struct F32VectorView_fields)]%string.

Abbreviation status := (named "shovelerdb_status").
Abbreviation database := (named "shovelerdb_database").
Abbreviation result := (named "shovelerdb_result").
Abbreviation row := (named "shovelerdb_row").

(** [?*T], [?*const T], [?[*:0]const u8] *)
Abbreviation opt t := (ptr true one false t).
Abbreviation opt_const t := (ptr true one true t).
Abbreviation opt_cstring := (ptr true many_zero true u8).

Definition version_exports : list (signature ztype) :=
  [Signature "shovelerdb_abi_version_major" [] u32;
   Signature "shovelerdb_abi_version_minor" [] u32;
   Signature "shovelerdb_abi_version_patch" [] u32]%string.

Definition database_exports : list (signature ztype) :=
  [Signature "shovelerdb_open_or_create" [("path", opt_cstring); ("out_database", opt (opt database))] status;
   Signature "shovelerdb_close" [("database", opt database)] void;
   Signature "shovelerdb_checkpoint" [("database", opt database)] status;
   Signature "shovelerdb_execute" [("database", opt database); ("sql", opt_cstring); ("out_result", opt (opt result))] status]%string.

Definition result_exports : list (signature ztype) :=
  [Signature "shovelerdb_result_release" [("result", opt result)] void;
   Signature "shovelerdb_result_kind_of" [("result", opt_const result)] (named "shovelerdb_result_kind");
   Signature "shovelerdb_result_mutation_count" [("result", opt_const result)] u64;
   Signature "shovelerdb_result_column_count" [("result", opt_const result)] usize;
   Signature "shovelerdb_result_row_count" [("result", opt_const result)] usize;
   Signature "shovelerdb_result_column_name"
     [("result", opt_const result); ("column_index", usize); ("out_name", opt (named "shovelerdb_string_view"))] status;
   Signature "shovelerdb_result_next" [("result", opt result); ("out_row", opt (opt_const row))] status]%string.

Definition row_exports : list (signature ztype) :=
  [Signature "shovelerdb_row_value_kind"
     [("row", opt_const row); ("column_index", usize); ("out_kind", opt (named "shovelerdb_value_kind"))] status;
   Signature "shovelerdb_row_value_int64" [("row", opt_const row); ("column_index", usize); ("out_value", opt i64)] status;
   Signature "shovelerdb_row_value_float64" [("row", opt_const row); ("column_index", usize); ("out_value", opt f64)] status;
   Signature "shovelerdb_row_value_bool" [("row", opt_const row); ("column_index", usize); ("out_value", opt u8)] status;
   Signature "shovelerdb_row_value_text"
     [("row", opt_const row); ("column_index", usize); ("out_value", opt (named "shovelerdb_string_view"))] status;
   Signature "shovelerdb_row_value_blob"
     [("row", opt_const row); ("column_index", usize); ("out_value", opt (named "shovelerdb_bytes_view"))] status;
   Signature "shovelerdb_row_value_vector_f32"
     [("row", opt_const row); ("column_index", usize); ("out_value", opt (named "shovelerdb_f32_vector_view"))] status]%string.

Definition diagnostic_exports : list (signature ztype) :=
  [Signature "shovelerdb_status_diagnostic_code" [("status", status)] (named "shovelerdb_diagnostic_code");
   Signature "shovelerdb_status_message" [("status", status)] (ptr false many_zero true u8);
   Signature "shovelerdb_database_last_diagnostic"
     [("database", opt_const database); ("out_code", opt (named "shovelerdb_diagnostic_code"));
      ("out_message", opt (named "shovelerdb_string_view"))] status]%string.

Definition exports : list (signature ztype) :=
  version_exports ++ database_exports ++ result_exports ++ row_exports ++ diagnostic_exports.

(** What the object file offers. *)
Definition interface : option (list (signature layout)) :=
  env ← declare [] containers;
  mapM (lower_signature (lower env)) exports.

(** A pointer a C caller may set to NULL is one the function checks. *)
Definition null_checked (t : ztype) : Prop := match t with ptr optional _ _ _ => optional = true | _ => True end.
End Exports.

(** ** Sizes and offsets *)
Section target.
(** Bytes of an address. *)
Context (word : Z).

(** Every type here is aligned to its own size, a record to the largest of its members. *)
Fixpoint align_of (l : layout) : Z :=
  match l with
  | nothing | handle => 1
  | integer _ w | real w | enumerated w _ => w
  | address_size | pointer _ _ => word
  | record fs => foldr (λ f, Z.max (align_of f.2)) 1 fs
  end.

Definition round_up (offset align : Z) : Z := (offset + align - 1) / align * align.

Fixpoint size_of (l : layout) : Z :=
  match l with
  | nothing | handle => 0
  | integer _ w | real w | enumerated w _ => w
  | address_size | pointer _ _ => word
  | record fs => round_up (foldl (λ offset f, round_up offset (align_of f.2) + size_of f.2) 0 fs) (align_of l)
  end.

(** The offset of each member, in the order of the members. *)
Fixpoint offsets_from (offset : Z) (fs : list (string * layout)) : list (string * Z) :=
  match fs with
  | [] => []
  | (n, l) :: fs => (n, round_up offset (align_of l)) :: offsets_from (round_up offset (align_of l) + size_of l) fs
  end.
End target.

(** ** The interface is one *)

(** A slice as the header's structs lay it out: the address, then the length, without padding. *)
Definition slice_layout (element : layout) : layout := record [("data", pointer true element); ("len", address_size)]%string.

Lemma round_up_multiple k align : 0 < align → round_up (k * align) align = k * align.
Proof. intros H. unfold round_up. rewrite <- Z.add_sub_assoc, Z.div_add_l, (Z.div_small (align - 1)) by lia. lia. Qed.

Lemma slice_offsets word element :
  0 < word →
  offsets_from word 0 [("data", pointer true element); ("len", address_size)]%string = [("data", 0); ("len", word)]%string ∧
  size_of word (slice_layout element) = 2 * word.
Proof.
  intros H. pose proof (round_up_multiple 0 word H) as H0. pose proof (round_up_multiple 1 word H) as H1.
  pose proof (round_up_multiple 2 word H) as H2. rewrite Z.mul_0_l in H0. rewrite Z.mul_1_l in H1.
  cbn -[round_up Z.max Z.mul]. rewrite !H0, !Z.add_0_l, !H1. split; [done|].
  replace (Z.max word (Z.max word 1)) with word by lia. replace (word + word) with (2 * word) by lia. exact H2.
Qed.

(** A byte that a [char] may stand for has no sign of its own. *)
Fixpoint unsign (l : layout) : layout :=
  match l with
  | integer _ 1 => integer false 1
  | record fs => record ((λ f, (f.1, unsign f.2)) <$> fs)
  | pointer c t => pointer c (unsign t)
  | l => l
  end.

Definition unsign_signature (f : signature layout) : signature layout :=
  Signature (symbol f) ((λ p, (p.1, unsign p.2)) <$> parameters f) (unsign (returns f)).

(** The layouts that the names of the header stand for. *)
Definition header_layouts (char_signed : bool) : option (list (string * layout)) :=
  Header.declare char_signed [] (Header.handle_types ++ Header.enum_types ++ Header.view_types).

(** The two texts as they were translated: up to the sign of a byte, which C leaves to the implementation for [char], every
    prototype and the export of the same name have parameters of the same layout in the same order and the same result. *)
Lemma interface_agrees char_signed :
  (∃ functions exported, Header.interface char_signed = Some functions ∧ Exports.interface = Some exported ∧
     (unsign_signature <$> functions) = (unsign_signature <$> exported) ∧ NoDup (symbol <$> functions)) ∧
  Forall (λ f, Forall (λ p, Exports.null_checked p.2) (parameters f)) Exports.exports.
Proof.
  split; [|repeat constructor]. eexists _, _. split_and!; [reflexivity|reflexivity|by destruct char_signed|].
  apply (bool_decide_eq_true_1 (NoDup _)). vm_compute. reflexivity.
Qed.

(** Where [char] is unsigned they are equal; where it is signed the text of a string view is not what [u8] is. *)
Lemma interface_sign : Header.interface false = Exports.interface ∧ Header.interface true ≠ Exports.interface.
Proof. split; [reflexivity|]. vm_compute. congruence. Qed.

(** The views are an address followed by a length on a machine with any width of addresses. *)
Lemma view_layouts char_signed view element :
  (view, element) ∈ [("shovelerdb_string_view", integer char_signed 1); ("shovelerdb_bytes_view", integer false 1);
                     ("shovelerdb_f32_vector_view", real 4)]%string →
  (header_layouts char_signed ≫= λ env, lookup_name env view) = Some (slice_layout element) ∧
  ∀ word, 0 < word → size_of word (slice_layout element) = 2 * word ∧
    offsets_from word 0 [("data", pointer true element); ("len", address_size)]%string = [("data", 0); ("len", word)]%string.
Proof.
  intros Hin. split.
  - rewrite !elem_of_cons in Hin. destruct Hin as [[= -> ->]|[[= -> ->]|[[= -> ->]|Hin]]]; [reflexivity..|].
    by apply not_elem_of_nil in Hin.
  - intros word Hw. destruct (slice_offsets word element Hw). by split.
Qed.

(** On Windows the library exports what its client imports; elsewhere the macro is empty. *)
Lemma linkage_pairs build use :
  (Header.SHOVELERDB_API true true use, Header.SHOVELERDB_API true false true) = (Header.dllexport, Header.dllimport) ∧
  Header.SHOVELERDB_API false build use = Header.ordinary.
Proof. by destruct build, use. Qed.
