(* ===== verification/Tap.v ===== *)
(** The unit tests of the reference corpus (src/references/mariadb) as programs: what a run of a test program
    shows is the sequence of calls it makes into the TAP library ([plan], [diag], [ok]), so a C function is
    modelled by a value of [tap A], its result together with the events of the calls it made.  [None] stands for
    a run that C leaves undefined (a read past the end of an array).  The file also holds the decoder of C string
    literals, the weakest-precondition predicate [outcome] the suites' proofs use, and its rules. *)

From Stdlib Require Import Ascii.
From S2P Require Import Prelude.
Open Scope Z_scope.

(** * C string literals *)

(** The value of a hexadecimal digit. *)
Definition hex_digit (c : Ascii.ascii) : Z :=
  let n := Z.of_N (Ascii.N_of_ascii c) in
  if (48 <=? n) && (n <=? 57) then n - 48
  else if (65 <=? n) && (n <=? 70) then n - 55
  else n - 87.

(** The one-letter escapes of C.  A double quote inside a literal is written [\q] here, where C writes a
    backslash and the quote itself. *)
Definition escape (c : Ascii.ascii) : byte :=
  if Ascii.eqb c "n"%char then byte_of 10
  else if Ascii.eqb c "t"%char then byte_of 9
  else if Ascii.eqb c "r"%char then byte_of 13
  else if Ascii.eqb c "b"%char then byte_of 8
  else if Ascii.eqb c "f"%char then byte_of 12
  else if Ascii.eqb c "0"%char then byte_of 0
  else if Ascii.eqb c "q"%char then byte_of 34
  else Ascii.byte_of_ascii c.

(** The bytes of a C literal without its terminating NUL: [CSTR(x)] of the sources is the pointer together with
    the length of this list. *)
Fixpoint c_lit (s : string) : bytes :=
  match s with
  | EmptyString => []
  | String c r =>
      if Ascii.eqb c "\"%char then
        match r with
        | String x r' =>
            if Ascii.eqb x "x"%char then
              match r' with
              | String h (String l r'') => byte_of (16 * hex_digit h + hex_digit l) :: c_lit r''
              | _ => []
              end
            else escape x :: c_lit r'
        | EmptyString => []
        end
      else Ascii.byte_of_ascii c :: c_lit r
  end.

(** The C string at the start of a buffer. *)
Fixpoint c_string (buf : bytes) : bytes :=
  match buf with
  | [] => []
  | c :: buf' => if decide (c = Byte.x00) then [] else c :: c_string buf'
  end.

(** * Events *)

(** An argument of a format string. *)
Inductive arg :=
| ArgS (s : bytes)
| ArgD (d : Z).

(** One call into the TAP library. *)
Inductive event :=
| Plan (n : Z)
| Diag (fmt : string) (args : list arg)
| Check (verdict : bool) (fmt : string) (args : list arg).

(** The verdicts given to [ok], in order. *)
Fixpoint verdicts (t : list event) : list bool :=
  match t with
  | [] => []
  | Check b _ _ :: t' => b :: verdicts t'
  | _ :: t' => verdicts t'
  end.

(** The numbers announced to [plan], in order. *)
Fixpoint plans (t : list event) : list Z :=
  match t with
  | [] => []
  | Plan n :: t' => n :: plans t'
  | _ :: t' => plans t'
  end.

Lemma verdicts_app t1 t2 : verdicts (t1 ++ t2) = verdicts t1 ++ verdicts t2.
Proof. induction t1 as [|[] t1 IH]; csimpl; by rewrite ?IH. Qed.

Lemma plans_app t1 t2 : plans (t1 ++ t2) = plans t1 ++ plans t2.
Proof. induction t1 as [|[] t1 IH]; csimpl; by rewrite ?IH. Qed.

(** * Test functions *)

(** A call of a C function: its result and the events it caused, or undefined. *)
Record tap (A : Type) := Tap { run_tap : option (A * list event) }.
Arguments Tap {A}.
Arguments run_tap {A}.

#[global] Instance tap_ret : MRet tap := λ A a, Tap (Some (a, [])).

#[global] Instance tap_bind : MBind tap := λ A B k m,
  Tap (match run_tap m with
       | None => None
       | Some (a, t) =>
           match run_tap (k a) with
           | None => None
           | Some (b, t') => Some (b, t ++ t')
           end
       end).

(** Undefined behaviour of C. *)
Definition undefined {A} : tap A := Tap None.

Definition emit (e : event) : tap () := Tap (Some ((), [e])).

Definition plan (n : Z) : tap () := emit (Plan n).

Definition diag (fmt : string) (args : list arg) : tap () := emit (Diag fmt args).

Definition ok (verdict : bool) (fmt : string) (args : list arg) : tap () := emit (Check verdict fmt args).

(** The number of times [f] fails over the elements of an array: [failed+= f(x)] in a loop. *)
Fixpoint count_failed {A} (f : A → tap Z) (l : list A) : tap Z :=
  match l with
  | [] => mret 0
  | x :: l' => a ← f x; b ← count_failed f l'; mret (a + b)
  end.

(** * Outcomes *)

(** The run is defined, and its result and events satisfy [Q]. *)
Definition outcome {A} (m : tap A) (Q : A → list event → Prop) : Prop :=
  match run_tap m with Some (a, t) => Q a t | None => False end.

Lemma outcome_ret {A} (a : A) Q : Q a [] → outcome (mret a) Q.
Proof. done. Qed.

Lemma outcome_mono {A} (m : tap A) (P Q : A → list event → Prop) :
  (∀ a t, P a t → Q a t) → outcome m P → outcome m Q.
Proof. unfold outcome. destruct (run_tap m) as [[a t]|]; naive_solver. Qed.

Lemma outcome_bind {A B} (m : tap A) (k : A → tap B) Q :
  outcome m (λ a t, outcome (k a) (λ b t', Q b (t ++ t'))) → outcome (m ≫= k) Q.
Proof.
  unfold outcome, mbind, tap_bind. cbn. destruct (run_tap m) as [[a t]|]; [|done].
  destruct (run_tap (k a)) as [[b t']|]; tauto.
Qed.

Lemma outcome_seq {A B} (m : tap A) (k : A → tap B) (P : A → list event → Prop) Q :
  outcome m P →
  (∀ a t, P a t → outcome (k a) (λ b t', Q b (t ++ t'))) →
  outcome (m ≫= k) Q.
Proof. intros Hm Hk. apply outcome_bind. eapply outcome_mono; eauto. Qed.

Lemma outcome_emit e Q : Q () [e] → outcome (emit e) Q.
Proof. done. Qed.

(** What most functions of the suites promise: a result, a list of verdicts and no plan. *)
Definition gives {A} (m : tap A) (a : A) (vs : list bool) : Prop :=
  outcome m (λ x t, x = a ∧ verdicts t = vs ∧ plans t = []).

Lemma gives_ret {A} (a : A) : gives (mret a) a [].
Proof. done. Qed.

Lemma gives_diag fmt args : gives (diag fmt args) () [].
Proof. done. Qed.

Lemma gives_ok b fmt args : gives (ok b fmt args) () [b].
Proof. done. Qed.

Lemma gives_bind {A B} (m : tap A) (k : A → tap B) a b vs ws :
  gives m a vs → gives (k a) b ws → gives (m ≫= k) b (vs ++ ws).
Proof.
  unfold gives. intros Hm Hk. apply (outcome_seq _ _ _ _ Hm).
  intros x t (-> & Ht & Hp). eapply outcome_mono; [|exact Hk].
  intros y t' (-> & Ht' & Hp'). by rewrite verdicts_app, plans_app, Ht, Ht', Hp, Hp'.
Qed.

Lemma gives_count_failed {A} (f : A → tap Z) (n : A → Z) l :
  (∀ x, x ∈ l → gives (f x) (n x) []) →
  gives (count_failed f l) (foldr Z.add 0 (n <$> l)) [].
Proof.
  induction l as [|x l IH]; intros H; [apply gives_ret|]. cbn [count_failed].
  change (@nil bool) with (@nil bool ++ []).
  eapply gives_bind; [apply H; left|].
  change (@nil bool) with (@nil bool ++ []).
  eapply gives_bind; [apply IH; intros y Hy; apply H; by right|].
  apply gives_ret.
Qed.

(** * A test program *)

(** The program announces exactly the number of checks it makes. *)
Definition plan_kept {A} (m : tap A) : Prop :=
  outcome m (λ _ t, plans t = [Z.of_nat (length (verdicts t))]).

(** Moreover every check succeeds. *)
Definition passes {A} (m : tap A) : Prop :=
  outcome m (λ _ t, plans t = [Z.of_nat (length (verdicts t))] ∧ Forall (λ b, b = true) (verdicts t)).

(** A program [plan(n); body] with a body of known verdicts. *)
Lemma outcome_planned {B} (n : Z) (k : tap B) b vs :
  gives k b vs →
  outcome (plan n ≫= λ _, k) (λ x t, x = b ∧ plans t = [n] ∧ verdicts t = vs).
Proof.
  intros Hk. apply outcome_bind, outcome_emit. unfold gives in Hk.
  eapply outcome_mono; [|exact Hk]. cbn. intros x t (-> & -> & ->). done.
Qed.

Lemma planned_kept {A} n (k : tap A) b vs :
  gives k b vs → n = Z.of_nat (length vs) → plan_kept (plan n ≫= λ _, k).
Proof.
  intros Hk ->. eapply outcome_mono, (outcome_planned _ _ _ _ Hk).
  by intros x t (_ & -> & ->).
Qed.

Lemma planned_passes {A} n (k : tap A) b vs :
  gives k b vs →
  passes (plan n ≫= λ _, k) ↔ n = Z.of_nat (length vs) ∧ Forall (λ b, b = true) vs.
Proof.
  intros Hk. pose proof (outcome_planned n _ _ _ Hk) as Ho.
  unfold passes, outcome in *. destruct (run_tap _) as [[x t]|]; [|done].
  destruct Ho as (_ & -> & ->). split; [|naive_solver].
  intros [[= ->] ?]. done.
Qed.

(** * Tests as judgements *)

(** The run is defined, makes [n] checks and no plan, and passes them all exactly if [P] holds. *)
Definition judges (m : tap ()) (n : nat) (P : Prop) : Prop :=
  ∃ vs, gives m () vs ∧ length vs = n ∧ (Forall (λ b, b = true) vs ↔ P).

Lemma judges_ret : judges (mret ()) 0 True.
Proof. exists []. split; [apply gives_ret|]. split; [done|]. by split; intros _. Qed.

Lemma judges_diag fmt args : judges (diag fmt args) 0 True.
Proof. exists []. split; [apply gives_diag|]. split; [done|]. by split; intros _. Qed.

Lemma judges_ok b fmt args : judges (ok b fmt args) 1 (b = true).
Proof. exists [b]. split; [apply gives_ok|]. split; [done|]. by rewrite Forall_singleton. Qed.

Lemma judges_seq m (k : () → tap ()) n n' P Q :
  judges m n P → judges (k ()) n' Q → judges (m ≫= k) (n + n') (P ∧ Q).
Proof.
  intros (vs & Hv & Hn & HP) (ws & Hw & Hn' & HQ). exists (vs ++ ws).
  split; [by eapply gives_bind|]. by rewrite length_app, Forall_app, Hn, Hn', HP, HQ.
Qed.

Lemma judges_iff m n P Q : judges m n P → (P ↔ Q) → judges m n Q.
Proof. intros (vs & Hv & Hn & HP) HQ. exists vs. by rewrite <- HQ. Qed.

(** The same test on every row of a table. *)
Fixpoint each {A} (f : A → tap ()) (rows : list A) : tap () :=
  match rows with
  | [] => mret ()
  | row :: rows' => f row ;; each f rows'
  end.

Lemma judges_each {A} (f : A → tap ()) n (P : A → Prop) rows :
  (∀ row, row ∈ rows → judges (f row) n (P row)) → judges (each f rows) (length rows * n) (Forall P rows).
Proof.
  induction rows as [|row rows IH]; intros H.
  { eapply judges_iff; [apply judges_ret|]. split; [constructor|done]. }
  cbn [each length Nat.mul]. eapply judges_iff; [|symmetry; apply Forall_cons].
  eapply judges_seq; [apply H; left|]. apply IH. intros x Hx. apply H. by right.
Qed.

Lemma judges_planned z k n P :
  judges k n P → z = Z.of_nat n → plan_kept (plan z ≫= λ _, k) ∧ (passes (plan z ≫= λ _, k) ↔ P).
Proof.
  intros (vs & Hv & Hn & HP) ->. rewrite <- Hn. split; [by eapply planned_kept|].
  rewrite (planned_passes _ _ _ _ Hv), <- HP. naive_solver.
Qed.

Create HintDb tap.
#[global] Hint Resolve gives_ret gives_diag gives_ok : tap.

(** A sequence of checks. *)
Ltac judge :=
  repeat lazymatch goal with
  | |- judges (ok _ _ _ ≫= _) _ _ => eapply (judges_seq _ _ 1); [apply judges_ok|]
  | |- judges (diag _ _ ≫= _) _ _ => eapply (judges_seq _ _ 0); [apply judges_diag|]
  | |- judges (ok _ _ _) _ _ => apply judges_ok
  | |- judges (diag _ _) _ _ => apply judges_diag
  | |- judges (mret _) _ _ => apply judges_ret
  end.
