(* ===== verification/CollationTables.v ===== *)
(** The data of the collation tests, src/references/mariadb/unittest/strings/strings-t.c: the rows of the
    comparison, minimum/maximum and prefix-comparison tables, in the order and with the terminators of the source. *)

From S2P Require Import Prelude Tap.
Open Scope Z_scope.

(** A pointer to the bytes of a literal, or NULL. *)
Abbreviation pchar := (option bytes).

(** [CSTR(x)]: the literal and its size without the terminating NUL. *)
Definition CSTR (x : bytes) : pchar * nat := (Some x, length x).

(** The pair [NULL, 0] that ends a table. *)
Definition NULL_0 : pchar * nat := (None, 0%nat).

Definition UTF8_sz : bytes := c_lit "\xC3\x9F".
Definition LATIN1_sz : bytes := c_lit "\xDF".
Definition UTF8_ARING : bytes := c_lit "\xC3\x85".
Definition UTF8_auml : bytes := c_lit "\xC3\xA4".
Definition LATIN1_auml : bytes := c_lit "\xE4".
Definition UCS2_a : bytes := c_lit "\x00\x61".
Definition UCS2_b : bytes := c_lit "\x00\x62".
Definition UCS2_sp : bytes := c_lit "\x00\x20".

(** Two strings and the expected sign of their comparison. *)
Record STRNNCOLL_PARAM := {
  a : pchar; alen : nat;
  b : pchar; blen : nat;
  res : Z;
}.

Definition coll_param (x y : pchar * nat) (r : Z) : STRNNCOLL_PARAM :=
  {| a := x.1; alen := x.2; b := y.1; blen := y.2; res := r |}.

(** A string with its length. *)
Record LEX_CSTRING := { str : pchar; lex_length : nat }.

Definition lex (x : pchar * nat) : LEX_CSTRING := {| str := x.1; lex_length := x.2 |}.

(** The least and greatest string of at most [size] bytes and [nchars] characters. *)
Record MINMAX_PARAM := { size : nat; nchars : nat; min : LEX_CSTRING; max : LEX_CSTRING }.

Definition minmax (s n : nat) (x y : pchar * nat) : MINMAX_PARAM :=
  {| size := s; nchars := n; min := lex x; max := lex y |}.

(** The two values of the [flags] argument: trailing spaces trimmed ([TCHAR]) or not ([TVCHAR], zero). *)
Inductive char_flags := TCHAR | TVCHAR.

(** Two strings, the number of characters compared, and the expected sign. *)
Record STRNNCOLLSP_CHAR_PARAM := {
  char_a : LEX_CSTRING;
  char_b : LEX_CSTRING;
  char_nchars : nat;
  flags : char_flags;
  char_res : Z;
}.

Definition char_param (x y : pchar * nat) (n : nat) (f : char_flags) (r : Z) : STRNNCOLLSP_CHAR_PARAM :=
  {| char_a := lex x; char_b := lex y; char_nchars := n; flags := f; char_res := r |}.

Definition strcoll_mb2_common : list STRNNCOLL_PARAM := [
  coll_param (CSTR (c_lit "")) (CSTR (c_lit "")) 0;
  coll_param (CSTR (c_lit "")) (CSTR (c_lit " ")) 0;
  coll_param (CSTR (c_lit "")) (CSTR (c_lit "A")) (-1);
  coll_param (CSTR (c_lit "")) (CSTR (c_lit "a")) (-1);
  coll_param (CSTR (c_lit "")) (CSTR (c_lit "\xA1\xA1")) (-1);
  coll_param (CSTR (c_lit "")) (CSTR (c_lit "\xE0\xE0")) (-1);
  coll_param (CSTR (c_lit " ")) (CSTR (c_lit "")) 0;
  coll_param (CSTR (c_lit " ")) (CSTR (c_lit " ")) 0;
  coll_param (CSTR (c_lit " ")) (CSTR (c_lit "A")) (-1);
  coll_param (CSTR (c_lit " ")) (CSTR (c_lit "a")) (-1);
  coll_param (CSTR (c_lit " ")) (CSTR (c_lit "\xA1\xA1")) (-1);
  coll_param (CSTR (c_lit " ")) (CSTR (c_lit "\xE0\xE0")) (-1);
  coll_param (CSTR (c_lit "a")) (CSTR (c_lit "")) 1;
  coll_param (CSTR (c_lit "a")) (CSTR (c_lit " ")) 1;
  coll_param (CSTR (c_lit "a")) (CSTR (c_lit "a")) 0;
  coll_param (CSTR (c_lit "a")) (CSTR (c_lit "\xA1\xA1")) (-1);
  coll_param (CSTR (c_lit "a")) (CSTR (c_lit "\xE0\xE0")) (-1);
  coll_param (CSTR (c_lit "\xA1\xA1")) (CSTR (c_lit "\xA1\xA1")) 0;
  coll_param (CSTR (c_lit "\xA1\xA1")) (CSTR (c_lit "\xE0\xE0")) (-1);
  coll_param (CSTR (c_lit "")) (CSTR (c_lit "\x80")) (-1);
  coll_param (CSTR (c_lit "")) (CSTR (c_lit "\x81")) (-1);
  coll_param (CSTR (c_lit "")) (CSTR (c_lit "\xF9")) (-1);
  coll_param (CSTR (c_lit " ")) (CSTR (c_lit "\x80")) (-1);
  coll_param (CSTR (c_lit " ")) (CSTR (c_lit "\x81")) (-1);
  coll_param (CSTR (c_lit " ")) (CSTR (c_lit "\xF9")) (-1);
  coll_param (CSTR (c_lit "a")) (CSTR (c_lit "\x80")) (-1);
  coll_param (CSTR (c_lit "a")) (CSTR (c_lit "\x81")) (-1);
  coll_param (CSTR (c_lit "a")) (CSTR (c_lit "\xF9")) (-1);
  coll_param (CSTR (c_lit "\xA1\xA1")) (CSTR (c_lit "\x80")) (-1);
  coll_param (CSTR (c_lit "\xA1\xA1")) (CSTR (c_lit "\x81")) (-1);
  coll_param (CSTR (c_lit "\xA1\xA1")) (CSTR (c_lit "\xF9")) (-1);
  coll_param (CSTR (c_lit "\xE0\xE0")) (CSTR (c_lit "\x80")) (-1);
  coll_param (CSTR (c_lit "\xE0\xE0")) (CSTR (c_lit "\x81")) (-1);
  coll_param (CSTR (c_lit "\xE0\xE0")) (CSTR (c_lit "\xF9")) (-1);
  coll_param (CSTR (c_lit "\x80")) (CSTR (c_lit "\x80")) 0;
  coll_param (CSTR (c_lit "\x80")) (CSTR (c_lit "\x81")) (-1);
  coll_param (CSTR (c_lit "\x80")) (CSTR (c_lit "\xF9")) (-1);
  coll_param (CSTR (c_lit "\x81")) (CSTR (c_lit "\x81")) 0;
  coll_param (CSTR (c_lit "\x81")) (CSTR (c_lit "\xF9")) (-1);
  coll_param NULL_0 NULL_0 0
].

Definition strcoll_mb2_A1A1_mb2_F9FE : list STRNNCOLL_PARAM := [
  coll_param (CSTR (c_lit "")) (CSTR (c_lit "\xF9\xFE")) (-1);
  coll_param (CSTR (c_lit " ")) (CSTR (c_lit "\xF9\xFE")) (-1);
  coll_param (CSTR (c_lit "a")) (CSTR (c_lit "\xF9\xFE")) (-1);
  coll_param (CSTR (c_lit "\xA1\xA1")) (CSTR (c_lit "\xF9\xFE")) (-1);
  coll_param (CSTR (c_lit "\xF9\xFE")) (CSTR (c_lit "\xF9\xFE")) 0;
  coll_param (CSTR (c_lit "")) (CSTR (c_lit "\xA1")) (-1);
  coll_param (CSTR (c_lit "")) (CSTR (c_lit "\xF9")) (-1);
  coll_param (CSTR (c_lit "a")) (CSTR (c_lit "\xA1")) (-1);
  coll_param (CSTR (c_lit "a")) (CSTR (c_lit "\xF9")) (-1);
  coll_param (CSTR (c_lit "\xA1\xA1")) (CSTR (c_lit "\xA1")) (-1);
  coll_param (CSTR (c_lit "\xA1\xA1")) (CSTR (c_lit "\xF9")) (-1);
  coll_param (CSTR (c_lit "\xF9\xFE")) (CSTR (c_lit "\x80")) (-1);
  coll_param (CSTR (c_lit "\xF9\xFE")) (CSTR (c_lit "\x81")) (-1);
  coll_param (CSTR (c_lit "\xF9\xFE")) (CSTR (c_lit "\xA1")) (-1);
  coll_param (CSTR (c_lit "\xF9\xFE")) (CSTR (c_lit "\xF9")) (-1);
  coll_param (CSTR (c_lit "\x80")) (CSTR (c_lit "\xA1")) (-1);
  coll_param (CSTR (c_lit "\x80")) (CSTR (c_lit "\xF9")) (-1);
  coll_param NULL_0 NULL_0 0
].

Definition strcoll_mb2_A1A1_bad_F9FE : list STRNNCOLL_PARAM := [
  coll_param (CSTR (c_lit "")) (CSTR (c_lit "\xF9\xFE")) (-1);
  coll_param (CSTR (c_lit " ")) (CSTR (c_lit "\xF9\xFE")) (-1);
  coll_param (CSTR (c_lit "a")) (CSTR (c_lit "\xF9\xFE")) (-1);
  coll_param (CSTR (c_lit "\xA1\xA1")) (CSTR (c_lit "\xF9\xFE")) (-1);
  coll_param (CSTR (c_lit "")) (CSTR (c_lit "\xA1")) (-1);
  coll_param (CSTR (c_lit "")) (CSTR (c_lit "\xF9")) (-1);
  coll_param (CSTR (c_lit "a")) (CSTR (c_lit "\xA1")) (-1);
  coll_param (CSTR (c_lit "a")) (CSTR (c_lit "\xF9")) (-1);
  coll_param (CSTR (c_lit "\xA1\xA1")) (CSTR (c_lit "\xA1")) (-1);
  coll_param (CSTR (c_lit "\xA1\xA1")) (CSTR (c_lit "\xF9")) (-1);
  coll_param (CSTR (c_lit "\xF9\xFE")) (CSTR (c_lit "\x80")) 1;
  coll_param (CSTR (c_lit "\xF9\xFE")) (CSTR (c_lit "\x81")) 1;
  coll_param (CSTR (c_lit "\xF9\xFE")) (CSTR (c_lit "\xA1")) 1;
  coll_param (CSTR (c_lit "\xF9\xFE")) (CSTR (c_lit "\xF9")) 1;
  coll_param (CSTR (c_lit "\x80")) (CSTR (c_lit "\xA1")) (-1);
  coll_param (CSTR (c_lit "\x80")) (CSTR (c_lit "\xF9")) (-1);
  coll_param (CSTR (c_lit "\xF9\xFE")) (CSTR (c_lit "\xF9\xFE")) 0;
  coll_param NULL_0 NULL_0 0
].

Definition strcoll_mb1_A1_bad_F9FE : list STRNNCOLL_PARAM := [
  coll_param (CSTR (c_lit "")) (CSTR (c_lit "\xA1")) (-1);
  coll_param (CSTR (c_lit "\xA1\xA1")) (CSTR (c_lit "\xA1")) 1;
  coll_param (CSTR (c_lit "")) (CSTR (c_lit "\xF9")) (-1);
  coll_param (CSTR (c_lit "")) (CSTR (c_lit "\xF9\xFE")) (-1);
  coll_param (CSTR (c_lit " ")) (CSTR (c_lit "\xF9\xFE")) (-1);
  coll_param (CSTR (c_lit "a")) (CSTR (c_lit "\xF9\xFE")) (-1);
  coll_param (CSTR (c_lit "a")) (CSTR (c_lit "\xA1")) (-1);
  coll_param (CSTR (c_lit "a")) (CSTR (c_lit "\xF9")) (-1);
  coll_param (CSTR (c_lit "\xA1\xA1")) (CSTR (c_lit "\xF9")) (-1);
  coll_param (CSTR (c_lit "\xA1\xA1")) (CSTR (c_lit "\xF9\xFE")) (-1);
  coll_param (CSTR (c_lit "\xF9\xFE")) (CSTR (c_lit "\x80")) 1;
  coll_param (CSTR (c_lit "\xF9\xFE")) (CSTR (c_lit "\x81")) 1;
  coll_param (CSTR (c_lit "\xF9\xFE")) (CSTR (c_lit "\xA1")) 1;
  coll_param (CSTR (c_lit "\xF9\xFE")) (CSTR (c_lit "\xF9")) 1;
  coll_param (CSTR (c_lit "\x80")) (CSTR (c_lit "\xA1")) 1;
  coll_param (CSTR (c_lit "\x80")) (CSTR (c_lit "\xF9")) (-1);
  coll_param (CSTR (c_lit "\xF9\xFE")) (CSTR (c_lit "\xF9\xFE")) 0;
  coll_param NULL_0 NULL_0 0
].

Definition strcoll_8181_A1_E0E0 : list STRNNCOLL_PARAM := [
  coll_param (CSTR (c_lit "\x81\x81")) (CSTR (c_lit "\xA1")) (-1);
  coll_param (CSTR (c_lit "\x81\x81")) (CSTR (c_lit "\xE0\xE0")) (-1);
  coll_param (CSTR (c_lit "\xA1")) (CSTR (c_lit "\xE0\xE0")) (-1);
  coll_param NULL_0 NULL_0 0
].

Definition strcoll_ujis : list STRNNCOLL_PARAM := [
  coll_param (CSTR (c_lit "\x8E\xA1")) (CSTR (c_lit "\x8E")) (-1);
  coll_param (CSTR (c_lit "\x8E\xA1")) (CSTR (c_lit "\x8F\xA1")) (-1);
  coll_param (CSTR (c_lit "\x8E\xA1")) (CSTR (c_lit "\x8F\xA1\xA1")) (-1);
  coll_param (CSTR (c_lit "\xA1\xA1")) (CSTR (c_lit "\x8F\xA1\xA1")) 1;
  coll_param (CSTR (c_lit "\x8E")) (CSTR (c_lit "\x8F\xA1")) (-1);
  coll_param NULL_0 NULL_0 0
].

Definition strcoll_utf8mb3_common : list STRNNCOLL_PARAM := [
  coll_param (CSTR (c_lit "\xC0")) (CSTR (c_lit "\xC1")) (-1);
  coll_param (CSTR (c_lit "\xC0")) (CSTR (c_lit "\xFF")) (-1);
  coll_param (CSTR (c_lit "\xC2\xA1")) (CSTR (c_lit "\xC0")) (-1);
  coll_param (CSTR (c_lit "\xC2\xA1")) (CSTR (c_lit "\xC2")) (-1);
  coll_param (CSTR (c_lit "\xC2\xA1")) (CSTR (c_lit "\xC2\xA2")) (-1);
  coll_param (CSTR (c_lit "\xC2\xA1")) (CSTR (c_lit "\xE0\xA0\x7F")) (-1);
  coll_param (CSTR (c_lit "\xC2\xA1")) (CSTR (c_lit "\xE0\xA0\x80")) (-1);
  coll_param (CSTR (c_lit "\xC2\xA1")) (CSTR (c_lit "\xE0\xA0\xBF")) (-1);
  coll_param (CSTR (c_lit "\xC2\xA1")) (CSTR (c_lit "\xE0\xA0\xC0")) (-1);
  coll_param (CSTR (c_lit "\xC2\xA1")) (CSTR (c_lit "\xE0\xA0")) (-1);
  coll_param (CSTR (c_lit "\xE0\xA0\x7E")) (CSTR (c_lit "\xE0\xA0\x7F")) (-1);
  coll_param (CSTR (c_lit "\xE0\xA0\x80")) (CSTR (c_lit "\xE0\xA0")) (-1);
  coll_param (CSTR (c_lit "\xE0\xA0\x80")) (CSTR (c_lit "\xE0\xA0\x7F")) (-1);
  coll_param (CSTR (c_lit "\xE0\xA0\x80")) (CSTR (c_lit "\xE0\xA0\xBF")) (-1);
  coll_param (CSTR (c_lit "\xE0\xA0\x80")) (CSTR (c_lit "\xE0\xA0\xC0")) (-1);
  coll_param (CSTR (c_lit "\xE0\xA0\xC0")) (CSTR (c_lit "\xE0\xA0\xC1")) (-1);
  coll_param NULL_0 NULL_0 0
].

Definition strcoll_utf8mb4_common : list STRNNCOLL_PARAM := [
  coll_param (CSTR (c_lit "\xF0\x90\x80\x80")) (CSTR (c_lit "\xC0")) (-1);
  coll_param (CSTR (c_lit "\xF0\x90\x80\x80")) (CSTR (c_lit "\xC2")) (-1);
  coll_param (CSTR (c_lit "\xF0\x90\x80\x80")) (CSTR (c_lit "\xE0\xA0\x7F")) (-1);
  coll_param (CSTR (c_lit "\xF0\x90\x80\x80")) (CSTR (c_lit "\xE0\xA0\xC0")) (-1);
  coll_param (CSTR (c_lit "\xF0\x90\x80\x80")) (CSTR (c_lit "\xE0\xA0")) (-1);
  coll_param (CSTR (c_lit "\xF0\x90\x80\x80")) (CSTR (c_lit "\xF0\x90\x80")) (-1);
  coll_param (CSTR (c_lit "\xF0\x90\x80\x80")) (CSTR (c_lit "\xF0\x90\x80\x7F")) (-1);
  coll_param (CSTR (c_lit "\xF0\x90\x80\x80")) (CSTR (c_lit "\xF0\x90\x80\xC0")) (-1);
  coll_param (CSTR (c_lit "\xF4\x8F\xBF\xBF")) (CSTR (c_lit "\xC0")) (-1);
  coll_param (CSTR (c_lit "\xF4\x8F\xBF\xBF")) (CSTR (c_lit "\xC2")) (-1);
  coll_param (CSTR (c_lit "\xF4\x8F\xBF\xBF")) (CSTR (c_lit "\xE0\xA0\x7F")) (-1);
  coll_param (CSTR (c_lit "\xF4\x8F\xBF\xBF")) (CSTR (c_lit "\xE0\xA0\xC0")) (-1);
  coll_param (CSTR (c_lit "\xF4\x8F\xBF\xBF")) (CSTR (c_lit "\xE0\xA0")) (-1);
  coll_param (CSTR (c_lit "\xF4\x8F\xBF\xBF")) (CSTR (c_lit "\xF0\x90\x80")) (-1);
  coll_param (CSTR (c_lit "\xF4\x8F\xBF\xBF")) (CSTR (c_lit "\xF0\x90\x80\x7F")) (-1);
  coll_param (CSTR (c_lit "\xF4\x8F\xBF\xBF")) (CSTR (c_lit "\xF0\x90\x80\xC0")) (-1);
  coll_param (CSTR (c_lit "\xF0\x90\x80\x7F")) (CSTR (c_lit "\xE0\xA0")) 1;
  coll_param (CSTR (c_lit "\xF0\x90\x80\x7F")) (CSTR (c_lit "\xE0\xA0\x7F")) 1;
  coll_param (CSTR (c_lit "\xF0\x90\x80\x7F")) (CSTR (c_lit "\xE0\xA0\xC0")) 1;
  coll_param (CSTR (c_lit "\xF0\x90\x80\x1F")) (CSTR (c_lit "\xF0\x90\x80")) (-1);
  coll_param (CSTR (c_lit "\xF0\x90\x80\x7E")) (CSTR (c_lit "\xF0\x90\x80")) 1;
  coll_param (CSTR (c_lit "\xF0\x90\x80\x7E")) (CSTR (c_lit "\xF0\x90\x80\x7F")) (-1);
  coll_param (CSTR (c_lit "\xF0\x90\x80\x7E")) (CSTR (c_lit "\xF0\x90\x80\xC0")) (-1);
  coll_param NULL_0 NULL_0 0
].

Definition strcoll_utf8mb4_general_ci : list STRNNCOLL_PARAM := [
  coll_param (CSTR (c_lit "\xF0\x90\x80\x80")) (CSTR (c_lit "\xF0\x90\x80\x81")) 0;
  coll_param (CSTR (c_lit "\xF0\x90\x80\x80")) (CSTR (c_lit "\xF4\x8F\xBF\xBF")) 0;
  coll_param (CSTR (c_lit "\x00")) (CSTR (c_lit "\xF0\x90\x80\x80")) (-1);
  coll_param (CSTR (c_lit "\x00")) (CSTR (c_lit "\xF0\x90\x80\x81")) (-1);
  coll_param (CSTR (c_lit "\x00")) (CSTR (c_lit "\xF4\x8F\xBF\xBF")) (-1);
  coll_param NULL_0 NULL_0 0
].

Definition strcoll_utf8mb4_uca1400_aX_cX : list STRNNCOLL_PARAM := [
  coll_param (CSTR (c_lit "aaaa")) (CSTR (c_lit "aaab")) (-1);
  coll_param (CSTR (c_lit "aaaa")) (CSTR (c_lit "AAAB")) (-1);
  coll_param (CSTR (c_lit "aaaa")) (CSTR (c_lit "AALA")) (-1);
  coll_param (CSTR (c_lit "aaaa")) (CSTR (c_lit "AAAL")) (-1);
  coll_param (CSTR (c_lit "aaaCh")) (CSTR (c_lit "AAAh")) (-1);
  coll_param (CSTR (c_lit "aaacH")) (CSTR (c_lit "AAAh")) (-1);
  coll_param NULL_0 NULL_0 0
].

Definition strcoll_utf8mb4_uca1400_ai_ci : list STRNNCOLL_PARAM := [
  coll_param (CSTR (c_lit "aaaa")) (CSTR (c_lit "AAA" ++ UTF8_ARING)) 0;
  coll_param (CSTR (c_lit "aaaa")) (CSTR (c_lit "AAAA")) 0;
  coll_param (CSTR (c_lit "aala")) (CSTR (c_lit "AALA")) 0;
  coll_param (CSTR (c_lit "aaal")) (CSTR (c_lit "AAAL")) 0;
  coll_param NULL_0 NULL_0 0
].

Definition strcoll_utf8mb4_uca1400_as_ci : list STRNNCOLL_PARAM := [
  coll_param (CSTR (c_lit "aaaa")) (CSTR (c_lit "AAA" ++ UTF8_ARING)) (-1);
  coll_param (CSTR (c_lit "aaaa")) (CSTR (c_lit "AAAA")) 0;
  coll_param (CSTR (c_lit "aala")) (CSTR (c_lit "AALA")) 0;
  coll_param (CSTR (c_lit "aaal")) (CSTR (c_lit "AAAL")) 0;
  coll_param NULL_0 NULL_0 0
].

Definition strcoll_utf8mb4_uca1400_as_cs : list STRNNCOLL_PARAM := [
  coll_param (CSTR (c_lit "aaaa")) (CSTR (c_lit "AAA" ++ UTF8_ARING)) (-1);
  coll_param (CSTR (c_lit "aaaa")) (CSTR (c_lit "AAAA")) (-1);
  coll_param (CSTR (c_lit "aala")) (CSTR (c_lit "AALA")) (-1);
  coll_param (CSTR (c_lit "aaal")) (CSTR (c_lit "AAAL")) (-1);
  coll_param NULL_0 NULL_0 0
].

Definition strcoll_utf8mb4_uca1400_czech_aX_cX : list STRNNCOLL_PARAM := [
  coll_param (CSTR (c_lit "aaaa")) (CSTR (c_lit "aaab")) (-1);
  coll_param (CSTR (c_lit "aaaa")) (CSTR (c_lit "AAAB")) (-1);
  coll_param (CSTR (c_lit "aaaa")) (CSTR (c_lit "AALA")) (-1);
  coll_param (CSTR (c_lit "aaaa")) (CSTR (c_lit "AAAL")) (-1);
  coll_param (CSTR (c_lit "aaaCh")) (CSTR (c_lit "AAAH")) 1;
  coll_param (CSTR (c_lit "aaacH")) (CSTR (c_lit "AAAH")) (-1);
  coll_param NULL_0 NULL_0 0
].

Definition strcoll_utf8mb4_uca1400_danish_aX_cX : list STRNNCOLL_PARAM := [
  coll_param (CSTR (c_lit "aaaa")) (CSTR (c_lit "aaab")) 1;
  coll_param (CSTR (c_lit "aaaa")) (CSTR (UTF8_ARING ++ c_lit "ab")) 1;
  coll_param (CSTR (c_lit "aaaa")) (CSTR (c_lit "AAAB")) 1;
  coll_param (CSTR (c_lit "aaaa")) (CSTR (c_lit "AALA")) 1;
  coll_param (CSTR (c_lit "aaaa")) (CSTR (c_lit "AAAL")) 1;
  coll_param (CSTR (c_lit "aaaCh")) (CSTR (c_lit "AAAH")) (-1);
  coll_param (CSTR (c_lit "aaacH")) (CSTR (c_lit "AAAH")) (-1);
  coll_param NULL_0 NULL_0 0
].

Definition strcoll_utf8mb4_uca1400_danish_ai_ci : list STRNNCOLL_PARAM := [
  coll_param (CSTR (c_lit "aaaa")) (CSTR (c_lit "AAAA")) 0;
  coll_param (CSTR (c_lit "aaAA")) (CSTR (c_lit "AA" ++ UTF8_ARING)) 0;
  coll_param (CSTR (c_lit "aaaa")) (CSTR (c_lit "AA" ++ UTF8_ARING)) 0;
  coll_param (CSTR (c_lit "aaaA")) (CSTR (c_lit "AA" ++ UTF8_ARING)) (-1);
  coll_param (CSTR (c_lit "aaal")) (CSTR (c_lit "AAAL")) 0;
  coll_param (CSTR (c_lit "aaal")) (CSTR (UTF8_ARING ++ c_lit "AL")) 0;
  coll_param (CSTR (c_lit "Aaal")) (CSTR (UTF8_ARING ++ c_lit "AL")) 0;
  coll_param (CSTR (c_lit "AAal")) (CSTR (UTF8_ARING ++ c_lit "AL")) 0;
  coll_param (CSTR (c_lit "aAal")) (CSTR (UTF8_ARING ++ c_lit "AL")) (-1);
  coll_param NULL_0 NULL_0 0
].

Definition strcoll_utf8mb4_uca1400_danish_as_ci : list STRNNCOLL_PARAM := [
  coll_param (CSTR (c_lit "aaaa")) (CSTR (c_lit "AA" ++ UTF8_ARING)) 1;
  coll_param (CSTR (c_lit "aaaa")) (CSTR (c_lit "AAA" ++ UTF8_ARING)) 1;
  coll_param (CSTR (c_lit "aaaa")) (CSTR (c_lit "AAAA")) 0;
  coll_param (CSTR (c_lit "aala")) (CSTR (c_lit "AALA")) 0;
  coll_param (CSTR (c_lit "aala")) (CSTR (UTF8_ARING ++ c_lit "LA")) 1;
  coll_param (CSTR (c_lit "aaal")) (CSTR (c_lit "AAAL")) 0;
  coll_param NULL_0 NULL_0 0
].

Definition strcoll_utf8mb4_uca1400_danish_as_cs : list STRNNCOLL_PARAM := [
  coll_param (CSTR (c_lit "aaaa")) (CSTR (c_lit "AAAA")) (-1);
  coll_param (CSTR (c_lit "aaaa")) (CSTR (c_lit "aaAa")) (-1);
  coll_param (CSTR (c_lit "aaAa")) (CSTR (c_lit "aaAA")) (-1);
  coll_param (CSTR (c_lit "aala")) (CSTR (c_lit "AALA")) (-1);
  coll_param (CSTR (c_lit "aaal")) (CSTR (c_lit "AAAL")) (-1);
  coll_param NULL_0 NULL_0 0
].

Definition strcoll_ucs2_common : list STRNNCOLL_PARAM := [
  coll_param (CSTR (c_lit "\xC0")) (CSTR (c_lit "\xC1")) (-1);
  coll_param (CSTR (c_lit "\xC0")) (CSTR (c_lit "\xFF")) (-1);
  coll_param (CSTR (c_lit "\xC2\xA1")) (CSTR (c_lit "\xC0")) (-1);
  coll_param (CSTR (c_lit "\xC2\xA1")) (CSTR (c_lit "\xC2")) (-1);
  coll_param (CSTR (c_lit "\xC2\xA0")) (CSTR (c_lit "\xC2\xA1")) (-1);
  coll_param (CSTR (c_lit "\xC2\xA1")) (CSTR (c_lit "\xC2\xA2")) (-1);
  coll_param (CSTR (c_lit "\xFF\xFF")) (CSTR (c_lit "\x00")) (-1);
  coll_param (CSTR (c_lit "\xFF\xFF\xFF\xFF")) (CSTR (c_lit "\x00")) (-1);
  coll_param (CSTR (c_lit "\xFF\xFF\xFF\xFF")) (CSTR (c_lit "\x00\x00\x00")) 1;
  coll_param NULL_0 NULL_0 0
].

Definition strcoll_ucs2_space : list STRNNCOLL_PARAM := [
  coll_param (CSTR (c_lit "\x00\x1F")) (CSTR (c_lit "\x00\x20")) (-1);
  coll_param (CSTR (c_lit "\x00\x20")) (CSTR (c_lit "\x00\x21")) (-1);
  coll_param (CSTR (c_lit "\x00\x1F")) (CSTR (c_lit "")) (-1);
  coll_param (CSTR (c_lit "\x00\x20")) (CSTR (c_lit "")) 0;
  coll_param (CSTR (c_lit "\x00\x21")) (CSTR (c_lit "")) 1;
  coll_param NULL_0 NULL_0 0
].

Definition strcoll_utf16le_space : list STRNNCOLL_PARAM := [
  coll_param (CSTR (c_lit "\x1F\x00")) (CSTR (c_lit "\x20\x00")) (-1);
  coll_param (CSTR (c_lit "\x20\x00")) (CSTR (c_lit "\x21\x00")) (-1);
  coll_param (CSTR (c_lit "\x1F\x00")) (CSTR (c_lit "")) (-1);
  coll_param (CSTR (c_lit "\x20\x00")) (CSTR (c_lit "")) 0;
  coll_param (CSTR (c_lit "\x21\x00")) (CSTR (c_lit "")) 1;
  coll_param NULL_0 NULL_0 0
].

Definition strcoll_utf16_common : list STRNNCOLL_PARAM := [
  coll_param (CSTR (c_lit "\xD8\x00\xDC\x00")) (CSTR (c_lit "\xC0")) (-1);
  coll_param (CSTR (c_lit "\xD8\x00\xDC\x00")) (CSTR (c_lit "\xC2")) (-1);
  coll_param (CSTR (c_lit "\xD8\x00\xDC\x00")) (CSTR (c_lit "\xD8\x00\xDB\x00")) (-1);
  coll_param (CSTR (c_lit "\xD8\x00\xDC\x00")) (CSTR (c_lit "\xD8\x00\xE0\x00")) (-1);
  coll_param (CSTR (c_lit "\xD8\x00\xDC\x00")) (CSTR (c_lit "\xDC\x00")) (-1);
  coll_param (CSTR (c_lit "\xD8\x00\xDC\x00")) (CSTR (c_lit "\xD8\x00\xDC")) (-1);
  coll_param (CSTR (c_lit "\xDB\xFF\xDF\xFF")) (CSTR (c_lit "\xC0")) (-1);
  coll_param (CSTR (c_lit "\xDB\xFF\xDF\xFF")) (CSTR (c_lit "\xC2")) (-1);
  coll_param (CSTR (c_lit "\xDB\xFF\xDF\xFF")) (CSTR (c_lit "\xD8\x00\xDB\x00")) (-1);
  coll_param (CSTR (c_lit "\xDB\xFF\xDF\xFF")) (CSTR (c_lit "\xD8\x00\xE0\x00")) (-1);
  coll_param (CSTR (c_lit "\xDB\xFF\xDF\xFF")) (CSTR (c_lit "\xDC\x00")) (-1);
  coll_param (CSTR (c_lit "\xDB\xFF\xDF\xFF")) (CSTR (c_lit "\xDC\xFF\xDF")) (-1);
  coll_param (CSTR (c_lit "\xD8\x00\xDC\x00")) (CSTR (c_lit "\xD8\x00\xDB\x01")) (-1);
  coll_param (CSTR (c_lit "\xDB\xFF\xE0\xFE")) (CSTR (c_lit "\xDB\xFF\xE0\xFF")) (-1);
  coll_param NULL_0 NULL_0 0
].

Definition strcoll_utf16_general_ci : list STRNNCOLL_PARAM := [
  coll_param (CSTR (c_lit "\xD8\x00\xDC\x00")) (CSTR (c_lit "\xD8\x00\xDC\x01")) 0;
  coll_param (CSTR (c_lit "\xD8\x00\xDC\x00")) (CSTR (c_lit "\xDB\xFF\xDF\xFF")) 0;
  coll_param (CSTR (c_lit "\x00\x00")) (CSTR (c_lit "\xD8\x00\xDC\x01")) (-1);
  coll_param (CSTR (c_lit "\x00\x00")) (CSTR (c_lit "\xDB\xFF\xDF\xFF")) (-1);
  coll_param NULL_0 NULL_0 0
].

Definition strcoll_utf16le_common : list STRNNCOLL_PARAM := [
  coll_param (CSTR (c_lit "\x00\xD8\x00\xDC")) (CSTR (c_lit "\xC0")) (-1);
  coll_param (CSTR (c_lit "\x00\xD8\x00\xDC")) (CSTR (c_lit "\xC2")) (-1);
  coll_param (CSTR (c_lit "\x00\xD8\x00\xDC")) (CSTR (c_lit "\x00\xD8\x00\xDB")) (-1);
  coll_param (CSTR (c_lit "\x00\xD8\x00\xDC")) (CSTR (c_lit "\x00\xD8\x00\xD0")) (-1);
  coll_param (CSTR (c_lit "\x00\xD8\x00\xDC")) (CSTR (c_lit "\x00\xDC")) (-1);
  coll_param (CSTR (c_lit "\x00\xD8\x00\xDC")) (CSTR (c_lit "\x00\xD8\x00")) (-1);
  coll_param (CSTR (c_lit "\xFF\xDB\xFF\xDF")) (CSTR (c_lit "\xC0")) (-1);
  coll_param (CSTR (c_lit "\xFF\xDB\xFF\xDF")) (CSTR (c_lit "\xC2")) (-1);
  coll_param (CSTR (c_lit "\xFF\xDB\xFF\xDF")) (CSTR (c_lit "\x00\xD8\x00\xDB")) (-1);
  coll_param (CSTR (c_lit "\xFF\xDB\xFF\xDF")) (CSTR (c_lit "\x00\xD8\x00\xE0")) (-1);
  coll_param (CSTR (c_lit "\xFF\xDB\xFF\xDF")) (CSTR (c_lit "\x00\xDC")) (-1);
  coll_param (CSTR (c_lit "\xFF\xDB\xFF\xDF")) (CSTR (c_lit "\xFF\xDC\x00")) (-1);
  coll_param (CSTR (c_lit "\x00\xD8\x00\xDC")) (CSTR (c_lit "\x00\xD8\x01\xDB")) (-1);
  coll_param (CSTR (c_lit "\xFF\xDB\xFE\xE0")) (CSTR (c_lit "\xFF\xDB\xFF\xE0")) (-1);
  coll_param NULL_0 NULL_0 0
].

Definition strcoll_utf16le_general_ci : list STRNNCOLL_PARAM := [
  coll_param (CSTR (c_lit "\x00\xD8\x00\xDC")) (CSTR (c_lit "\x00\xD8\x01\xDC")) 0;
  coll_param (CSTR (c_lit "\x00\xD8\x00\xDC")) (CSTR (c_lit "\xFF\xDB\xFF\xDF")) 0;
  coll_param (CSTR (c_lit "\x00\x00")) (CSTR (c_lit "\x00\xD8\x01\xDC")) (-1);
  coll_param (CSTR (c_lit "\x00\x00")) (CSTR (c_lit "\xFF\xDB\xFF\xDF")) (-1);
  coll_param NULL_0 NULL_0 0
].

Definition strcoll_utf32_common : list STRNNCOLL_PARAM := [
  coll_param (CSTR (c_lit "\x00\x00\x00\x00")) (CSTR (c_lit "\x00")) (-1);
  coll_param (CSTR (c_lit "\x00\x00\x00\x00")) (CSTR (c_lit "\xFF")) (-1);
  coll_param (CSTR (c_lit "\x00\x00\x00\x00")) (CSTR (c_lit "\x00\x00")) (-1);
  coll_param (CSTR (c_lit "\x00\x00\x00\x00")) (CSTR (c_lit "\x00\x00\x00")) (-1);
  coll_param (CSTR (c_lit "\x00\x00\x00\x00")) (CSTR (c_lit "\x00\x20\x00\x00")) (-1);
  coll_param (CSTR (c_lit "\x00\x00\x00\x00")) (CSTR (c_lit "\xFF\xFF\xFF\xFF")) (-1);
  coll_param (CSTR (c_lit "\x00\x01\x00\x00")) (CSTR (c_lit "\x00")) (-1);
  coll_param (CSTR (c_lit "\x00\x01\x00\x00")) (CSTR (c_lit "\xFF")) (-1);
  coll_param (CSTR (c_lit "\x00\x01\x00\x00")) (CSTR (c_lit "\x00\x00")) (-1);
  coll_param (CSTR (c_lit "\x00\x01\x00\x00")) (CSTR (c_lit "\x00\x00\x00")) (-1);
  coll_param (CSTR (c_lit "\x00\x01\x00\x00")) (CSTR (c_lit "\x00\x20\x00\x00")) (-1);
  coll_param (CSTR (c_lit "\x00\x01\x00\x00")) (CSTR (c_lit "\xFF\xFF\xFF\xFF")) (-1);
  coll_param (CSTR (c_lit "\x00\x10\xFF\xFF")) (CSTR (c_lit "\x00")) (-1);
  coll_param (CSTR (c_lit "\x00\x10\xFF\xFF")) (CSTR (c_lit "\xFF")) (-1);
  coll_param (CSTR (c_lit "\x00\x10\xFF\xFF")) (CSTR (c_lit "\x00\x00")) (-1);
  coll_param (CSTR (c_lit "\x00\x10\xFF\xFF")) (CSTR (c_lit "\x00\x00\x00")) (-1);
  coll_param (CSTR (c_lit "\x00\x10\xFF\xFF")) (CSTR (c_lit "\x20\x00\x00\x00")) (-1);
  coll_param (CSTR (c_lit "\x00\x10\xFF\xFF")) (CSTR (c_lit "\xFF\xFF\xFF\xFF")) (-1);
  coll_param (CSTR (c_lit "\x00\x20\x00\x00")) (CSTR (c_lit "\x00")) 1;
  coll_param (CSTR (c_lit "\x00\x20\x00\x00")) (CSTR (c_lit "\x00\x00")) 1;
  coll_param (CSTR (c_lit "\x00\x20\x00\x00")) (CSTR (c_lit "\x00\x00\x00")) 1;
  coll_param (CSTR (c_lit "\x00\x20\x00\x00")) (CSTR (c_lit "\x00\x20\x00\x01")) (-1);
  coll_param NULL_0 NULL_0 0
].

Definition strcoll_utf32_general_ci : list STRNNCOLL_PARAM := [
  coll_param (CSTR (c_lit "\x00\x01\x00\x00")) (CSTR (c_lit "\x00\x01\x00\x01")) 0;
  coll_param (CSTR (c_lit "\x00\x00\x00\x00")) (CSTR (c_lit "\x00\x01\x00\x00")) (-1);
  coll_param (CSTR (c_lit "\x00\x00\x00\x00")) (CSTR (c_lit "\x00\x01\x00\x01")) (-1);
  coll_param NULL_0 NULL_0 0
].

Definition minmax_param_latin1_swedish_ci : list MINMAX_PARAM := [
  minmax 0 0 (CSTR (c_lit "")) (CSTR (c_lit ""));
  minmax 0 1 (CSTR (c_lit "")) (CSTR (c_lit ""));
  minmax 0 2 (CSTR (c_lit "")) (CSTR (c_lit ""));
  minmax 0 3 (CSTR (c_lit "")) (CSTR (c_lit ""));
  minmax 1 0 (CSTR (c_lit "")) (CSTR (c_lit ""));
  minmax 1 1 (CSTR (c_lit "\x00")) (CSTR (c_lit "\xFF"));
  minmax 1 2 (CSTR (c_lit "\x00")) (CSTR (c_lit "\xFF"));
  minmax 1 3 (CSTR (c_lit "\x00")) (CSTR (c_lit "\xFF"));
  minmax 2 0 (CSTR (c_lit "")) (CSTR (c_lit ""));
  minmax 2 1 (CSTR (c_lit "\x00")) (CSTR (c_lit "\xFF"));
  minmax 2 2 (CSTR (c_lit "\x00\x00")) (CSTR (c_lit "\xFF\xFF"));
  minmax 2 3 (CSTR (c_lit "\x00\x00")) (CSTR (c_lit "\xFF\xFF"));
  minmax 3 0 (CSTR (c_lit "")) (CSTR (c_lit ""));
  minmax 3 1 (CSTR (c_lit "\x00")) (CSTR (c_lit "\xFF"));
  minmax 3 2 (CSTR (c_lit "\x00\x00")) (CSTR (c_lit "\xFF\xFF"));
  minmax 3 3 (CSTR (c_lit "\x00\x00\x00")) (CSTR (c_lit "\xFF\xFF\xFF"))
].

Definition minmax_param_latin1_nopad_bin : list MINMAX_PARAM := [
  minmax 0 0 (CSTR (c_lit "")) (CSTR (c_lit ""));
  minmax 0 1 (CSTR (c_lit "")) (CSTR (c_lit ""));
  minmax 0 2 (CSTR (c_lit "")) (CSTR (c_lit ""));
  minmax 0 3 (CSTR (c_lit "")) (CSTR (c_lit ""));
  minmax 1 0 (CSTR (c_lit "")) (CSTR (c_lit ""));
  minmax 1 1 (CSTR (c_lit "")) (CSTR (c_lit "\xFF"));
  minmax 1 2 (CSTR (c_lit "")) (CSTR (c_lit "\xFF"));
  minmax 1 3 (CSTR (c_lit "")) (CSTR (c_lit "\xFF"));
  minmax 2 0 (CSTR (c_lit "")) (CSTR (c_lit ""));
  minmax 2 1 (CSTR (c_lit "")) (CSTR (c_lit "\xFF"));
  minmax 2 2 (CSTR (c_lit "")) (CSTR (c_lit "\xFF\xFF"));
  minmax 2 3 (CSTR (c_lit "")) (CSTR (c_lit "\xFF\xFF"));
  minmax 3 0 (CSTR (c_lit "")) (CSTR (c_lit ""));
  minmax 3 1 (CSTR (c_lit "")) (CSTR (c_lit "\xFF"));
  minmax 3 2 (CSTR (c_lit "")) (CSTR (c_lit "\xFF\xFF"));
  minmax 3 3 (CSTR (c_lit "")) (CSTR (c_lit "\xFF\xFF\xFF"))
].

Definition minmax_param_utf8mb3_unicode_ci : list MINMAX_PARAM := [
  minmax 0 0 (CSTR (c_lit "")) (CSTR (c_lit ""));
  minmax 0 1 (CSTR (c_lit "")) (CSTR (c_lit ""));
  minmax 0 2 (CSTR (c_lit "")) (CSTR (c_lit ""));
  minmax 0 3 (CSTR (c_lit "")) (CSTR (c_lit ""));
  minmax 1 0 (CSTR (c_lit "")) (CSTR (c_lit ""));
  minmax 1 1 (CSTR (c_lit "\x09")) (CSTR (c_lit ""));
  minmax 1 2 (CSTR (c_lit "\x09")) (CSTR (c_lit ""));
  minmax 1 3 (CSTR (c_lit "\x09")) (CSTR (c_lit ""));
  minmax 2 0 (CSTR (c_lit "")) (CSTR (c_lit ""));
  minmax 2 1 (CSTR (c_lit "\x09")) (CSTR (c_lit ""));
  minmax 2 2 (CSTR (c_lit "\x09\x09")) (CSTR (c_lit ""));
  minmax 2 3 (CSTR (c_lit "\x09\x09")) (CSTR (c_lit ""));
  minmax 3 0 (CSTR (c_lit "")) (CSTR (c_lit ""));
  minmax 3 1 (CSTR (c_lit "\x09")) (CSTR (c_lit "\xEF\xBF\xBF"));
  minmax 3 2 (CSTR (c_lit "\x09\x09")) (CSTR (c_lit "\xEF\xBF\xBF"));
  minmax 3 3 (CSTR (c_lit "\x09\x09\x09")) (CSTR (c_lit "\xEF\xBF\xBF"));
  minmax 4 0 (CSTR (c_lit "")) (CSTR (c_lit ""));
  minmax 4 1 (CSTR (c_lit "\x09")) (CSTR (c_lit "\xEF\xBF\xBF"));
  minmax 4 2 (CSTR (c_lit "\x09\x09")) (CSTR (c_lit "\xEF\xBF\xBF"));
  minmax 4 3 (CSTR (c_lit "\x09\x09\x09")) (CSTR (c_lit "\xEF\xBF\xBF"));
  minmax 5 0 (CSTR (c_lit "")) (CSTR (c_lit ""));
  minmax 5 1 (CSTR (c_lit "\x09")) (CSTR (c_lit "\xEF\xBF\xBF"));
  minmax 5 2 (CSTR (c_lit "\x09\x09")) (CSTR (c_lit "\xEF\xBF\xBF"));
  minmax 5 3 (CSTR (c_lit "\x09\x09\x09")) (CSTR (c_lit "\xEF\xBF\xBF"));
  minmax 6 0 (CSTR (c_lit "")) (CSTR (c_lit ""));
  minmax 6 1 (CSTR (c_lit "\x09")) (CSTR (c_lit "\xEF\xBF\xBF"));
  minmax 6 2 (CSTR (c_lit "\x09\x09")) (CSTR (c_lit "\xEF\xBF\xBF\xEF\xBF\xBF"));
  minmax 6 3 (CSTR (c_lit "\x09\x09\x09")) (CSTR (c_lit "\xEF\xBF\xBF\xEF\xBF\xBF"));
  minmax 7 0 (CSTR (c_lit "")) (CSTR (c_lit ""));
  minmax 7 1 (CSTR (c_lit "\x09")) (CSTR (c_lit "\xEF\xBF\xBF"));
  minmax 7 2 (CSTR (c_lit "\x09\x09")) (CSTR (c_lit "\xEF\xBF\xBF\xEF\xBF\xBF"));
  minmax 7 3 (CSTR (c_lit "\x09\x09\x09")) (CSTR (c_lit "\xEF\xBF\xBF\xEF\xBF\xBF"));
  minmax 8 0 (CSTR (c_lit "")) (CSTR (c_lit ""));
  minmax 8 1 (CSTR (c_lit "\x09")) (CSTR (c_lit "\xEF\xBF\xBF"));
  minmax 8 2 (CSTR (c_lit "\x09\x09")) (CSTR (c_lit "\xEF\xBF\xBF\xEF\xBF\xBF"));
  minmax 8 3 (CSTR (c_lit "\x09\x09\x09")) (CSTR (c_lit "\xEF\xBF\xBF\xEF\xBF\xBF"));
  minmax 9 0 (CSTR (c_lit "")) (CSTR (c_lit ""));
  minmax 9 1 (CSTR (c_lit "\x09")) (CSTR (c_lit "\xEF\xBF\xBF"));
  minmax 9 2 (CSTR (c_lit "\x09\x09")) (CSTR (c_lit "\xEF\xBF\xBF\xEF\xBF\xBF"));
  minmax 9 3 (CSTR (c_lit "\x09\x09\x09")) (CSTR (c_lit "\xEF\xBF\xBF\xEF\xBF\xBF\xEF\xBF\xBF"))
].

Definition minmax_param_big5_chinese_ci : list MINMAX_PARAM := [
  minmax 0 0 (CSTR (c_lit "")) (CSTR (c_lit ""));
  minmax 0 1 (CSTR (c_lit "")) (CSTR (c_lit ""));
  minmax 0 2 (CSTR (c_lit "")) (CSTR (c_lit ""));
  minmax 0 3 (CSTR (c_lit "")) (CSTR (c_lit ""));
  minmax 1 0 (CSTR (c_lit "")) (CSTR (c_lit ""));
  minmax 1 1 (CSTR (c_lit "\x00")) (CSTR (c_lit ""));
  minmax 1 2 (CSTR (c_lit "\x00")) (CSTR (c_lit ""));
  minmax 1 3 (CSTR (c_lit "\x00")) (CSTR (c_lit ""));
  minmax 2 0 (CSTR (c_lit "")) (CSTR (c_lit ""));
  minmax 2 1 (CSTR (c_lit "\x00")) (CSTR (c_lit "\xF9\xD5"));
  minmax 2 2 (CSTR (c_lit "\x00\x00")) (CSTR (c_lit "\xF9\xD5"));
  minmax 2 3 (CSTR (c_lit "\x00\x00")) (CSTR (c_lit "\xF9\xD5"));
  minmax 3 0 (CSTR (c_lit "")) (CSTR (c_lit ""));
  minmax 3 1 (CSTR (c_lit "\x00")) (CSTR (c_lit "\xF9\xD5"));
  minmax 3 2 (CSTR (c_lit "\x00\x00")) (CSTR (c_lit "\xF9\xD5"));
  minmax 3 3 (CSTR (c_lit "\x00\x00\x00")) (CSTR (c_lit "\xF9\xD5"));
  minmax 4 0 (CSTR (c_lit "")) (CSTR (c_lit ""));
  minmax 4 1 (CSTR (c_lit "\x00")) (CSTR (c_lit "\xF9\xD5"));
  minmax 4 2 (CSTR (c_lit "\x00\x00")) (CSTR (c_lit "\xF9\xD5\xF9\xD5"));
  minmax 4 3 (CSTR (c_lit "\x00\x00\x00")) (CSTR (c_lit "\xF9\xD5\xF9\xD5"));
  minmax 5 0 (CSTR (c_lit "")) (CSTR (c_lit ""));
  minmax 5 1 (CSTR (c_lit "\x00")) (CSTR (c_lit "\xF9\xD5"));
  minmax 5 2 (CSTR (c_lit "\x00\x00")) (CSTR (c_lit "\xF9\xD5\xF9\xD5"));
  minmax 5 3 (CSTR (c_lit "\x00\x00\x00")) (CSTR (c_lit "\xF9\xD5\xF9\xD5"));
  minmax 6 0 (CSTR (c_lit "")) (CSTR (c_lit ""));
  minmax 6 1 (CSTR (c_lit "\x00")) (CSTR (c_lit "\xF9\xD5"));
  minmax 6 2 (CSTR (c_lit "\x00\x00")) (CSTR (c_lit "\xF9\xD5\xF9\xD5"));
  minmax 6 3 (CSTR (c_lit "\x00\x00\x00")) (CSTR (c_lit "\xF9\xD5\xF9\xD5\xF9\xD5"));
  minmax 7 0 (CSTR (c_lit "")) (CSTR (c_lit ""));
  minmax 7 1 (CSTR (c_lit "\x00")) (CSTR (c_lit "\xF9\xD5"));
  minmax 7 2 (CSTR (c_lit "\x00\x00")) (CSTR (c_lit "\xF9\xD5\xF9\xD5"));
  minmax 7 3 (CSTR (c_lit "\x00\x00\x00")) (CSTR (c_lit "\xF9\xD5\xF9\xD5\xF9\xD5"));
  minmax 8 0 (CSTR (c_lit "")) (CSTR (c_lit ""));
  minmax 8 1 (CSTR (c_lit "\x00")) (CSTR (c_lit "\xF9\xD5"));
  minmax 8 2 (CSTR (c_lit "\x00\x00")) (CSTR (c_lit "\xF9\xD5\xF9\xD5"));
  minmax 8 3 (CSTR (c_lit "\x00\x00\x00")) (CSTR (c_lit "\xF9\xD5\xF9\xD5\xF9\xD5"));
  minmax 9 0 (CSTR (c_lit "")) (CSTR (c_lit ""));
  minmax 9 1 (CSTR (c_lit "\x00")) (CSTR (c_lit "\xF9\xD5"));
  minmax 9 2 (CSTR (c_lit "\x00\x00")) (CSTR (c_lit "\xF9\xD5\xF9\xD5"));
  minmax 9 3 (CSTR (c_lit "\x00\x00\x00")) (CSTR (c_lit "\xF9\xD5\xF9\xD5\xF9\xD5"))
].

Definition minmax_param_cp1250_czech_cs : list MINMAX_PARAM := [
  minmax 0 0 (CSTR (c_lit "")) (CSTR (c_lit ""));
  minmax 0 1 (CSTR (c_lit "")) (CSTR (c_lit ""));
  minmax 0 2 (CSTR (c_lit "")) (CSTR (c_lit ""));
  minmax 0 3 (CSTR (c_lit "")) (CSTR (c_lit ""));
  minmax 1 0 (CSTR (c_lit "")) (CSTR (c_lit ""));
  minmax 1 1 (CSTR (c_lit "\x00")) (CSTR (c_lit "\xFF"));
  minmax 1 2 (CSTR (c_lit "\x00")) (CSTR (c_lit "\xFF"));
  minmax 1 3 (CSTR (c_lit "\x00")) (CSTR (c_lit "\xFF"));
  minmax 2 0 (CSTR (c_lit "")) (CSTR (c_lit ""));
  minmax 2 1 (CSTR (c_lit "\x00")) (CSTR (c_lit "\xFF"));
  minmax 2 2 (CSTR (c_lit "\x00\x00")) (CSTR (c_lit "\xFF\xFF"));
  minmax 2 3 (CSTR (c_lit "\x00\x00")) (CSTR (c_lit "\xFF\xFF"));
  minmax 3 0 (CSTR (c_lit "")) (CSTR (c_lit ""));
  minmax 3 1 (CSTR (c_lit "\x00")) (CSTR (c_lit "\xFF"));
  minmax 3 2 (CSTR (c_lit "\x00\x00")) (CSTR (c_lit "\xFF\xFF"));
  minmax 3 3 (CSTR (c_lit "\x00\x00\x00")) (CSTR (c_lit "\xFF\xFF\xFF"))
].

Definition minmax_param_latin2_czech_cs : list MINMAX_PARAM := [
  minmax 0 0 (CSTR (c_lit "")) (CSTR (c_lit ""));
  minmax 0 1 (CSTR (c_lit "")) (CSTR (c_lit ""));
  minmax 0 2 (CSTR (c_lit "")) (CSTR (c_lit ""));
  minmax 0 3 (CSTR (c_lit "")) (CSTR (c_lit ""));
  minmax 1 0 (CSTR (c_lit "")) (CSTR (c_lit ""));
  minmax 1 1 (CSTR (c_lit "\x00")) (CSTR (c_lit "\xAE"));
  minmax 1 2 (CSTR (c_lit "\x00")) (CSTR (c_lit "\xAE"));
  minmax 1 3 (CSTR (c_lit "\x00")) (CSTR (c_lit "\xAE"));
  minmax 2 0 (CSTR (c_lit "")) (CSTR (c_lit ""));
  minmax 2 1 (CSTR (c_lit "\x00")) (CSTR (c_lit "\xAE"));
  minmax 2 2 (CSTR (c_lit "\x00\x00")) (CSTR (c_lit "\xAE\xAE"));
  minmax 2 3 (CSTR (c_lit "\x00\x00")) (CSTR (c_lit "\xAE\xAE"));
  minmax 3 0 (CSTR (c_lit "")) (CSTR (c_lit ""));
  minmax 3 1 (CSTR (c_lit "\x00")) (CSTR (c_lit "\xAE"));
  minmax 3 2 (CSTR (c_lit "\x00\x00")) (CSTR (c_lit "\xAE\xAE"));
  minmax 3 3 (CSTR (c_lit "\x00\x00\x00")) (CSTR (c_lit "\xAE\xAE\xAE"))
].

Definition strnncollsp_char_mbminlen1_xpad_common : list STRNNCOLLSP_CHAR_PARAM := [
  char_param (CSTR (c_lit "a")) (CSTR (c_lit "a")) 0 TCHAR 0;
  char_param (CSTR (c_lit "a")) (CSTR (c_lit "a")) 1 TCHAR 0;
  char_param (CSTR (c_lit "a")) (CSTR (c_lit "a")) 2 TCHAR 0;
  char_param (CSTR (c_lit "a")) (CSTR (c_lit "a")) 3 TCHAR 0;
  char_param (CSTR (c_lit "a")) (CSTR (c_lit "a")) 100 TCHAR 0;
  char_param (CSTR (c_lit "a")) (CSTR (c_lit "ab")) 0 TCHAR 0;
  char_param (CSTR (c_lit "a")) (CSTR (c_lit "ab")) 1 TCHAR 0;
  char_param (CSTR (c_lit "a")) (CSTR (c_lit "ab")) 2 TCHAR (-1);
  char_param (CSTR (c_lit "a")) (CSTR (c_lit "ab")) 3 TCHAR (-1);
  char_param (CSTR (c_lit "a")) (CSTR (c_lit "ab")) 100 TCHAR (-1);
  char_param (CSTR (c_lit "a")) (CSTR (c_lit "a ")) 0 TCHAR 0;
  char_param (CSTR (c_lit "a")) (CSTR (c_lit "a ")) 1 TCHAR 0;
  char_param (CSTR (c_lit "a")) (CSTR (c_lit "a ")) 2 TCHAR 0;
  char_param (CSTR (c_lit "a")) (CSTR (c_lit "a ")) 3 TCHAR 0;
  char_param (CSTR (c_lit "a")) (CSTR (c_lit "a ")) 100 TCHAR 0;
  char_param (CSTR (c_lit "a")) (CSTR (c_lit "a  ")) 0 TCHAR 0;
  char_param (CSTR (c_lit "a")) (CSTR (c_lit "a  ")) 1 TCHAR 0;
  char_param (CSTR (c_lit "a")) (CSTR (c_lit "a  ")) 2 TCHAR 0;
  char_param (CSTR (c_lit "a")) (CSTR (c_lit "a  ")) 3 TCHAR 0;
  char_param (CSTR (c_lit "a")) (CSTR (c_lit "a  ")) 100 TCHAR 0;
  char_param (CSTR (c_lit "ss")) (CSTR (c_lit "ss")) 0 TCHAR 0;
  char_param (CSTR (c_lit "ss")) (CSTR (c_lit "ss")) 1 TCHAR 0;
  char_param (CSTR (c_lit "ss")) (CSTR (c_lit "ss")) 2 TCHAR 0;
  char_param (CSTR (c_lit "ss")) (CSTR (c_lit "ss")) 3 TCHAR 0;
  char_param (CSTR (c_lit "ss")) (CSTR (c_lit "ss")) 100 TCHAR 0;
  char_param NULL_0 NULL_0 0 TVCHAR 0
].

Definition strnncollsp_char_utf8mbx_xpad_common : list STRNNCOLLSP_CHAR_PARAM := [
  char_param (CSTR UTF8_sz) (CSTR UTF8_sz) 0 TCHAR 0;
  char_param (CSTR UTF8_sz) (CSTR UTF8_sz) 1 TCHAR 0;
  char_param (CSTR UTF8_sz) (CSTR UTF8_sz) 2 TCHAR 0;
  char_param (CSTR UTF8_sz) (CSTR UTF8_sz) 3 TCHAR 0;
  char_param (CSTR UTF8_sz) (CSTR UTF8_sz) 100 TCHAR 0;
  char_param NULL_0 NULL_0 0 TVCHAR 0
].

Definition strnncollsp_char_latin1_xpad_common : list STRNNCOLLSP_CHAR_PARAM := [
  char_param (CSTR LATIN1_sz) (CSTR LATIN1_sz) 0 TCHAR 0;
  char_param (CSTR LATIN1_sz) (CSTR LATIN1_sz) 1 TCHAR 0;
  char_param (CSTR LATIN1_sz) (CSTR LATIN1_sz) 2 TCHAR 0;
  char_param (CSTR LATIN1_sz) (CSTR LATIN1_sz) 3 TCHAR 0;
  char_param (CSTR LATIN1_sz) (CSTR LATIN1_sz) 100 TCHAR 0;
  char_param NULL_0 NULL_0 0 TVCHAR 0
].

Definition strnncollsp_char_utf8mbx_xpad_a_eq_auml : list STRNNCOLLSP_CHAR_PARAM := [
  char_param (CSTR (UTF8_auml ++ c_lit "h")) (CSTR (c_lit "ah")) 0 TCHAR 0;
  char_param (CSTR (UTF8_auml ++ c_lit "h")) (CSTR (c_lit "ah")) 1 TCHAR 0;
  char_param (CSTR (UTF8_auml ++ c_lit "h")) (CSTR (c_lit "ah")) 2 TCHAR 0;
  char_param (CSTR (UTF8_auml ++ c_lit "h")) (CSTR (c_lit "ah")) 3 TCHAR 0;
  char_param (CSTR (UTF8_auml ++ c_lit "h")) (CSTR (c_lit "ah")) 100 TCHAR 0;
  char_param (CSTR (UTF8_auml ++ c_lit "h")) (CSTR (c_lit "ah ")) 0 TCHAR 0;
  char_param (CSTR (UTF8_auml ++ c_lit "h")) (CSTR (c_lit "ah ")) 1 TCHAR 0;
  char_param (CSTR (UTF8_auml ++ c_lit "h")) (CSTR (c_lit "ah ")) 2 TCHAR 0;
  char_param (CSTR (UTF8_auml ++ c_lit "h")) (CSTR (c_lit "ah ")) 3 TCHAR 0;
  char_param (CSTR (UTF8_auml ++ c_lit "h")) (CSTR (c_lit "ah ")) 100 TCHAR 0;
  char_param NULL_0 NULL_0 0 TVCHAR 0
].

Definition strnncollsp_char_utf8mb3_unicode_ci : list STRNNCOLLSP_CHAR_PARAM := [
  char_param (CSTR (c_lit "ss")) (CSTR (c_lit "s\x00s")) 0 TCHAR 0;
  char_param (CSTR (c_lit "ss")) (CSTR (c_lit "s\x00s")) 1 TCHAR 0;
  char_param (CSTR (c_lit "ss")) (CSTR (c_lit "s\x00s")) 2 TCHAR 1;
  char_param (CSTR (c_lit "ss")) (CSTR (c_lit "s\x00s")) 3 TCHAR 0;
  char_param (CSTR (c_lit "ss")) (CSTR (c_lit "s\x00s")) 4 TCHAR 0;
  char_param (CSTR (c_lit "ss")) (CSTR (c_lit "s\x00s")) 100 TCHAR 0;
  char_param (CSTR (c_lit "ss")) (CSTR UTF8_sz) 0 TCHAR 0;
  char_param (CSTR (c_lit "ss")) (CSTR UTF8_sz) 1 TCHAR (-1);
  char_param (CSTR (c_lit "ss")) (CSTR UTF8_sz) 2 TCHAR 0;
  char_param (CSTR (c_lit "ss")) (CSTR UTF8_sz) 3 TCHAR 0;
  char_param (CSTR (c_lit "ss")) (CSTR UTF8_sz) 4 TCHAR 0;
  char_param (CSTR (c_lit "ss")) (CSTR UTF8_sz) 100 TCHAR 0;
  char_param (CSTR (c_lit "a\x01")) (CSTR UTF8_auml) 0 TCHAR 0;
  char_param (CSTR (c_lit "a\x01")) (CSTR UTF8_auml) 1 TCHAR 0;
  char_param (CSTR (c_lit "a\x01")) (CSTR UTF8_auml) 2 TCHAR 0;
  char_param (CSTR (c_lit "a\x01")) (CSTR UTF8_auml) 3 TCHAR 0;
  char_param (CSTR (c_lit "a\x01")) (CSTR UTF8_auml) 100 TCHAR 0;
  char_param (CSTR (c_lit "a\x01\x01")) (CSTR UTF8_auml) 0 TCHAR 0;
  char_param (CSTR (c_lit "a\x01\x01")) (CSTR UTF8_auml) 1 TCHAR 0;
  char_param (CSTR (c_lit "a\x01\x01")) (CSTR UTF8_auml) 2 TCHAR 0;
  char_param (CSTR (c_lit "a\x01\x01")) (CSTR UTF8_auml) 3 TCHAR 0;
  char_param (CSTR (c_lit "a\x01\x01")) (CSTR UTF8_auml) 4 TCHAR 0;
  char_param (CSTR (c_lit "a\x01\x01")) (CSTR UTF8_auml) 100 TCHAR 0;
  char_param NULL_0 NULL_0 0 TVCHAR 0
].

Definition strnncollsp_char_utf8mb3_unicode_nopad_ci : list STRNNCOLLSP_CHAR_PARAM := [
  char_param (CSTR (c_lit "ss")) (CSTR (c_lit "s\x00s")) 0 TCHAR 0;
  char_param (CSTR (c_lit "ss")) (CSTR (c_lit "s\x00s")) 1 TCHAR 0;
  char_param (CSTR (c_lit "ss")) (CSTR (c_lit "s\x00s")) 2 TCHAR 1;
  char_param (CSTR (c_lit "ss")) (CSTR (c_lit "s\x00s")) 3 TCHAR 1;
  char_param (CSTR (c_lit "ss")) (CSTR (c_lit "s\x00s")) 4 TCHAR 1;
  char_param (CSTR (c_lit "ss")) (CSTR (c_lit "s\x00s")) 100 TCHAR 1;
  char_param (CSTR (c_lit "ss")) (CSTR UTF8_sz) 0 TCHAR 0;
  char_param (CSTR (c_lit "ss")) (CSTR UTF8_sz) 1 TCHAR (-1);
  char_param (CSTR (c_lit "ss")) (CSTR UTF8_sz) 2 TCHAR (-1);
  char_param (CSTR (c_lit "ss")) (CSTR UTF8_sz) 3 TCHAR (-1);
  char_param (CSTR (c_lit "ss")) (CSTR UTF8_sz) 4 TCHAR (-1);
  char_param (CSTR (c_lit "ss")) (CSTR UTF8_sz) 100 TCHAR (-1);
  char_param (CSTR (c_lit "ss")) (CSTR UTF8_sz) 0 TVCHAR 0;
  char_param (CSTR (c_lit "ss")) (CSTR UTF8_sz) 1 TVCHAR (-1);
  char_param (CSTR (c_lit "ss")) (CSTR UTF8_sz) 2 TVCHAR 0;
  char_param (CSTR (c_lit "ss")) (CSTR UTF8_sz) 3 TVCHAR 0;
  char_param (CSTR (c_lit "ss")) (CSTR UTF8_sz) 4 TVCHAR 0;
  char_param (CSTR (c_lit "ss")) (CSTR UTF8_sz) 100 TVCHAR 0;
  char_param (CSTR (c_lit "a\x01")) (CSTR UTF8_auml) 0 TCHAR 0;
  char_param (CSTR (c_lit "a\x01")) (CSTR UTF8_auml) 1 TCHAR 0;
  char_param (CSTR (c_lit "a\x01")) (CSTR UTF8_auml) 2 TCHAR (-1);
  char_param (CSTR (c_lit "a\x01")) (CSTR UTF8_auml) 3 TCHAR 0;
  char_param (CSTR (c_lit "a\x01")) (CSTR UTF8_auml) 100 TCHAR 0;
  char_param (CSTR (c_lit "a\x01\x01")) (CSTR UTF8_auml) 0 TCHAR 0;
  char_param (CSTR (c_lit "a\x01\x01")) (CSTR UTF8_auml) 1 TCHAR 0;
  char_param (CSTR (c_lit "a\x01\x01")) (CSTR UTF8_auml) 2 TCHAR (-1);
  char_param (CSTR (c_lit "a\x01\x01")) (CSTR UTF8_auml) 3 TCHAR (-1);
  char_param (CSTR (c_lit "a\x01\x01")) (CSTR UTF8_auml) 4 TCHAR 0;
  char_param (CSTR (c_lit "a\x01\x01")) (CSTR UTF8_auml) 100 TCHAR 0;
  char_param NULL_0 NULL_0 0 TVCHAR 0
].

Definition strnncollsp_char_utf8mb3_danish_ci : list STRNNCOLLSP_CHAR_PARAM := [
  char_param (CSTR (c_lit "aa")) (CSTR (c_lit "")) 0 TCHAR 0;
  char_param (CSTR (c_lit "aa")) (CSTR (c_lit "")) 1 TCHAR 1;
  char_param (CSTR (c_lit "aa")) (CSTR (c_lit "")) 2 TCHAR 1;
  char_param (CSTR (c_lit "aa")) (CSTR (c_lit "")) 3 TCHAR 1;
  char_param (CSTR (c_lit "aa")) (CSTR (c_lit "")) 100 TCHAR 1;
  char_param (CSTR (c_lit "aa")) (CSTR (c_lit "a")) 0 TCHAR 0;
  char_param (CSTR (c_lit "aa")) (CSTR (c_lit "a")) 1 TCHAR 0;
  char_param (CSTR (c_lit "aa")) (CSTR (c_lit "a")) 2 TCHAR 1;
  char_param (CSTR (c_lit "aa")) (CSTR (c_lit "a")) 3 TCHAR 1;
  char_param (CSTR (c_lit "aa")) (CSTR (c_lit "a")) 100 TCHAR 1;
  char_param (CSTR (c_lit "aa")) (CSTR (c_lit "aa")) 0 TCHAR 0;
  char_param (CSTR (c_lit "aa")) (CSTR (c_lit "aa")) 1 TCHAR 0;
  char_param (CSTR (c_lit "aa")) (CSTR (c_lit "aa")) 2 TCHAR 0;
  char_param (CSTR (c_lit "aa")) (CSTR (c_lit "aa")) 3 TCHAR 0;
  char_param (CSTR (c_lit "aa")) (CSTR (c_lit "aa")) 100 TCHAR 0;
  char_param (CSTR (c_lit "aa")) (CSTR (c_lit "\x00a")) 0 TCHAR 0;
  char_param (CSTR (c_lit "aa")) (CSTR (c_lit "\x00a")) 1 TCHAR 1;
  char_param (CSTR (c_lit "aa")) (CSTR (c_lit "\x00a")) 2 TCHAR 1;
  char_param (CSTR (c_lit "aa")) (CSTR (c_lit "\x00a")) 3 TCHAR 1;
  char_param (CSTR (c_lit "aa")) (CSTR (c_lit "\x00a")) 100 TCHAR 1;
  char_param (CSTR (c_lit "aa")) (CSTR (c_lit "\x00aa")) 0 TCHAR 0;
  char_param (CSTR (c_lit "aa")) (CSTR (c_lit "\x00aa")) 1 TCHAR 1;
  char_param (CSTR (c_lit "aa")) (CSTR (c_lit "\x00aa")) 2 TCHAR 1;
  char_param (CSTR (c_lit "aa")) (CSTR (c_lit "\x00aa")) 3 TCHAR 0;
  char_param (CSTR (c_lit "aa")) (CSTR (c_lit "\x00aa")) 100 TCHAR 0;
  char_param (CSTR (c_lit "aa")) (CSTR (c_lit "a\x00a")) 0 TCHAR 0;
  char_param (CSTR (c_lit "aa")) (CSTR (c_lit "a\x00a")) 1 TCHAR 0;
  char_param (CSTR (c_lit "aa")) (CSTR (c_lit "a\x00a")) 2 TCHAR 1;
  char_param (CSTR (c_lit "aa")) (CSTR (c_lit "a\x00a")) 3 TCHAR 1;
  char_param (CSTR (c_lit "aa")) (CSTR (c_lit "a\x00a")) 100 TCHAR 1;
  char_param (CSTR (c_lit "aa")) (CSTR UTF8_ARING) 0 TCHAR 0;
  char_param (CSTR (c_lit "aa")) (CSTR UTF8_ARING) 1 TCHAR (-1);
  char_param (CSTR (c_lit "aa")) (CSTR UTF8_ARING) 2 TCHAR 0;
  char_param (CSTR (c_lit "aa")) (CSTR UTF8_ARING) 3 TCHAR 0;
  char_param (CSTR (c_lit "aa")) (CSTR UTF8_ARING) 100 TCHAR 0;
  char_param NULL_0 NULL_0 0 TVCHAR 0
].

Definition strnncollsp_char_latin1_german2_ci : list STRNNCOLLSP_CHAR_PARAM := [
  char_param (CSTR (c_lit "ss")) (CSTR LATIN1_sz) 0 TCHAR 0;
  char_param (CSTR (c_lit "ss")) (CSTR LATIN1_sz) 1 TCHAR (-1);
  char_param (CSTR (c_lit "ss")) (CSTR LATIN1_sz) 2 TCHAR 0;
  char_param (CSTR (c_lit "ss")) (CSTR LATIN1_sz) 3 TCHAR 0;
  char_param (CSTR (c_lit "ss")) (CSTR LATIN1_sz) 100 TCHAR 0;
  char_param (CSTR (c_lit "ae")) (CSTR LATIN1_auml) 0 TCHAR 0;
  char_param (CSTR (c_lit "ae")) (CSTR LATIN1_auml) 1 TCHAR (-1);
  char_param (CSTR (c_lit "ae")) (CSTR LATIN1_auml) 2 TCHAR 0;
  char_param (CSTR (c_lit "ae")) (CSTR LATIN1_auml) 3 TCHAR 0;
  char_param (CSTR (c_lit "ae")) (CSTR LATIN1_auml) 100 TCHAR 0;
  char_param (CSTR (c_lit "ae")) (CSTR (LATIN1_auml ++ c_lit " ")) 0 TCHAR 0;
  char_param (CSTR (c_lit "ae")) (CSTR (LATIN1_auml ++ c_lit " ")) 1 TCHAR (-1);
  char_param (CSTR (c_lit "ae")) (CSTR (LATIN1_auml ++ c_lit " ")) 2 TCHAR 0;
  char_param (CSTR (c_lit "ae")) (CSTR (LATIN1_auml ++ c_lit " ")) 3 TCHAR 0;
  char_param (CSTR (c_lit "ae")) (CSTR (LATIN1_auml ++ c_lit " ")) 100 TCHAR 0;
  char_param NULL_0 NULL_0 0 TVCHAR 0
].

Definition strnncollsp_char_utf8mbx_german2_ci : list STRNNCOLLSP_CHAR_PARAM := [
  char_param (CSTR (c_lit "ss")) (CSTR UTF8_sz) 0 TCHAR 0;
  char_param (CSTR (c_lit "ss")) (CSTR UTF8_sz) 1 TCHAR (-1);
  char_param (CSTR (c_lit "ss")) (CSTR UTF8_sz) 2 TCHAR 0;
  char_param (CSTR (c_lit "ss")) (CSTR UTF8_sz) 3 TCHAR 0;
  char_param (CSTR (c_lit "ss")) (CSTR UTF8_sz) 100 TCHAR 0;
  char_param (CSTR (c_lit "ae")) (CSTR UTF8_auml) 0 TCHAR 0;
  char_param (CSTR (c_lit "ae")) (CSTR UTF8_auml) 1 TCHAR (-1);
  char_param (CSTR (c_lit "ae")) (CSTR UTF8_auml) 2 TCHAR 0;
  char_param (CSTR (c_lit "ae")) (CSTR UTF8_auml) 3 TCHAR 0;
  char_param (CSTR (c_lit "ae")) (CSTR UTF8_auml) 100 TCHAR 0;
  char_param (CSTR (c_lit "ae")) (CSTR (UTF8_auml ++ c_lit " ")) 0 TCHAR 0;
  char_param (CSTR (c_lit "ae")) (CSTR (UTF8_auml ++ c_lit " ")) 1 TCHAR (-1);
  char_param (CSTR (c_lit "ae")) (CSTR (UTF8_auml ++ c_lit " ")) 2 TCHAR 0;
  char_param (CSTR (c_lit "ae")) (CSTR (UTF8_auml ++ c_lit " ")) 3 TCHAR 0;
  char_param (CSTR (c_lit "ae")) (CSTR (UTF8_auml ++ c_lit " ")) 100 TCHAR 0;
  char_param NULL_0 NULL_0 0 TVCHAR 0
].

Definition strnncollsp_char_mbminlen1_xpad_czech : list STRNNCOLLSP_CHAR_PARAM := [
  char_param (CSTR (c_lit "c")) (CSTR (c_lit "ch")) 0 TCHAR 0;
  char_param (CSTR (c_lit "c")) (CSTR (c_lit "ch")) 1 TCHAR 0;
  char_param (CSTR (c_lit "c")) (CSTR (c_lit "ch")) 2 TCHAR (-1);
  char_param (CSTR (c_lit "h")) (CSTR (c_lit "ch")) 0 TCHAR 0;
  char_param (CSTR (c_lit "h")) (CSTR (c_lit "ch")) 1 TCHAR 1;
  char_param (CSTR (c_lit "h")) (CSTR (c_lit "ch")) 2 TCHAR (-1);
  char_param (CSTR (c_lit "i")) (CSTR (c_lit "ch")) 0 TCHAR 0;
  char_param (CSTR (c_lit "i")) (CSTR (c_lit "ch")) 1 TCHAR 1;
  char_param (CSTR (c_lit "i")) (CSTR (c_lit "ch")) 2 TCHAR 1;
  char_param NULL_0 NULL_0 0 TVCHAR 0
].

Definition strnncollsp_char_mbminlen2_xpad_common : list STRNNCOLLSP_CHAR_PARAM := [
  char_param (CSTR UCS2_a) (CSTR UCS2_a) 0 TCHAR 0;
  char_param (CSTR UCS2_a) (CSTR UCS2_a) 1 TCHAR 0;
  char_param (CSTR UCS2_a) (CSTR UCS2_a) 2 TCHAR 0;
  char_param (CSTR UCS2_a) (CSTR UCS2_a) 3 TCHAR 0;
  char_param (CSTR UCS2_a) (CSTR UCS2_a) 100 TCHAR 0;
  char_param (CSTR UCS2_a) (CSTR (UCS2_a ++ UCS2_sp)) 0 TCHAR 0;
  char_param (CSTR UCS2_a) (CSTR (UCS2_a ++ UCS2_sp)) 1 TCHAR 0;
  char_param (CSTR UCS2_a) (CSTR (UCS2_a ++ UCS2_sp)) 2 TCHAR 0;
  char_param (CSTR UCS2_a) (CSTR (UCS2_a ++ UCS2_sp)) 3 TCHAR 0;
  char_param (CSTR UCS2_a) (CSTR (UCS2_a ++ UCS2_sp)) 100 TCHAR 0;
  char_param (CSTR UCS2_a) (CSTR (UCS2_a ++ UCS2_sp ++ UCS2_sp)) 0 TCHAR 0;
  char_param (CSTR UCS2_a) (CSTR (UCS2_a ++ UCS2_sp ++ UCS2_sp)) 1 TCHAR 0;
  char_param (CSTR UCS2_a) (CSTR (UCS2_a ++ UCS2_sp ++ UCS2_sp)) 2 TCHAR 0;
  char_param (CSTR UCS2_a) (CSTR (UCS2_a ++ UCS2_sp ++ UCS2_sp)) 3 TCHAR 0;
  char_param (CSTR UCS2_a) (CSTR (UCS2_a ++ UCS2_sp ++ UCS2_sp)) 100 TCHAR 0;
  char_param (CSTR UCS2_a) (CSTR (UCS2_a ++ UCS2_b)) 0 TCHAR 0;
  char_param (CSTR UCS2_a) (CSTR (UCS2_a ++ UCS2_b)) 1 TCHAR 0;
  char_param (CSTR UCS2_a) (CSTR (UCS2_a ++ UCS2_b)) 2 TCHAR (-1);
  char_param (CSTR UCS2_a) (CSTR (UCS2_a ++ UCS2_b)) 3 TCHAR (-1);
  char_param (CSTR UCS2_a) (CSTR (UCS2_a ++ UCS2_b)) 100 TCHAR (-1);
  char_param NULL_0 NULL_0 0 TVCHAR 0
].
