(* ===== verification/CollationSuite.v ===== *)
(** The collation tests, src/references/mariadb/unittest/strings/strings-t.c.

    The string library under test (ctype, not part of the sources) is the parameter [strings_lib]: the functions
    the program calls, on byte strings.  The [#ifdef]s of the program are the fields of [config].  Buffers are
    byte lists of their declared size; writing or reading outside one is [undefined], and so is running past the
    end of a table that has no terminator.  The theorems are in [CollationFacts]. *)

From S2P Require Import Prelude Tap CollationTables.
Open Scope Z_scope.

(** * The library under test *)

(** What [my_ci_like_range] leaves behind: the two result buffers and the two lengths. *)
Record like_range_result := {
  lr_min_str : bytes; lr_max_str : bytes;
  lr_min_len : nat; lr_max_len : nat;
}.

Class strings_lib := {
  CHARSET_INFO : Type;
  my_charset : string → CHARSET_INFO;
  get_charset_by_name : string → option CHARSET_INFO;
  coll_name : CHARSET_INFO → bytes;
  my_ci_strnncollsp : CHARSET_INFO → bytes → bytes → Z;
  strnncollsp_nchars : CHARSET_INFO → bytes → bytes → nat → char_flags → Z;
  min_str : CHARSET_INFO → nat → nat → bytes;
  max_str : CHARSET_INFO → nat → nat → bytes;
  my_ci_like_range : CHARSET_INFO → bytes → byte → byte → byte → nat → like_range_result;
  my_well_formed_length : CHARSET_INFO → bytes → N → nat;
}.

(** The documented use of the result buffers: nothing is longer than the size passed in, and the well-formed
    prefix of a string is no longer than the string. *)
Class strings_lib_bounds (lib : strings_lib) := {
  like_range_bounds cs src e o m n :
    let r := my_ci_like_range cs src e o m n in
    length (lr_min_str r) = n ∧ length (lr_max_str r) = n ∧ (lr_min_len r ≤ n)%nat ∧ (lr_max_len r ≤ n)%nat;
  well_formed_bounds cs s n : (my_well_formed_length cs s n ≤ length s)%nat;
  min_str_bounds cs n k : (length (min_str cs n k) ≤ n)%nat;
  max_str_bounds cs n k : (length (max_str cs n k) ≤ n)%nat;
}.

(** The macros that select character sets at compile time. *)
Record config := {
  HAVE_CHARSET_big5 : bool;
  HAVE_CHARSET_cp1250 : bool;
  HAVE_CHARSET_cp932 : bool;
  HAVE_CHARSET_eucjpms : bool;
  HAVE_CHARSET_euckr : bool;
  HAVE_CHARSET_gb2312 : bool;
  HAVE_CHARSET_gbk : bool;
  HAVE_CHARSET_latin1 : bool;
  HAVE_CHARSET_latin2 : bool;
  HAVE_CHARSET_sjis : bool;
  HAVE_CHARSET_tis620 : bool;
  HAVE_CHARSET_ucs2 : bool;
  HAVE_CHARSET_ujis : bool;
  HAVE_CHARSET_utf16 : bool;
  HAVE_CHARSET_utf32 : bool;
  HAVE_CHARSET_utf8 : bool;
  HAVE_CHARSET_utf8mb3 : bool;
  HAVE_CHARSET_utf8mb4 : bool;
  HAVE_UCA_COLLATIONS : bool;
}.

(** The calls or entries between [#ifdef] and [#endif]. *)
Definition when {A} (c : bool) (l : list A) : list A := if c then l else [].

(** * Memory *)

(** The [n] bytes at a pointer. *)
Definition str_n (p : pchar) (n : nat) : tap bytes :=
  match p with
  | None => undefined
  | Some s => if (n <=? length s)%nat then mret (take n s) else undefined
  end.

Definition lex_bytes (x : LEX_CSTRING) : tap bytes := str_n (str x) (lex_length x).

(** Storing [t] at offset [d] of a buffer. *)
Definition store (buf : bytes) (d : nat) (t : bytes) : tap bytes :=
  if (d + length t <=? length buf)%nat then mret (take d buf ++ t ++ drop (d + length t) buf) else undefined.

Definition hex_char (d : Z) : byte := byte_of (if d <? 10 then 48 + d else 55 + d).

(** The text of the conversion [%02X]. *)
Definition hex2 (c : byte) : bytes := [hex_char (byte_val c / 16); hex_char (byte_val c mod 16)].

(** [snprintf(dst + d, n, "%02X", c)]: at most [n - 1] characters and the terminating NUL, nothing if [n = 0]. *)
Definition snprintf_hex (dst : bytes) (d n : nat) (c : byte) : tap bytes :=
  match n with
  | O => mret dst
  | S n' => store dst d (take n' (hex2 c) ++ [Byte.x00])
  end.

(** * The helpers *)

Fixpoint str2hex_loop (dst : bytes) (d : nat) (src : bytes) : tap bytes :=
  match src with
  | [] => mret dst
  | c :: src' =>
      if (d + 3 <? length dst)%nat then
        dst ← snprintf_hex dst d (length dst - d) c;
        str2hex_loop dst (d + 2) src'
      else mret dst
  end.

Definition str2hex (dst src : bytes) : tap bytes :=
  dst ← store dst 0 [Byte.x00];
  str2hex_loop dst 0 src.

(** A local array of [n] characters; its contents are overwritten before they are read. *)
Definition char_array (n : nat) : bytes := replicate n Byte.x00.

Definition eqres (ares bres : Z) : bool :=
  ((ares <? 0) && (bres <? 0)) || ((0 <? ares) && (0 <? bres)) || ((ares =? 0) && (bres =? 0)).

Definition charset_list (cfg : config) : list string :=
  when (HAVE_CHARSET_big5 cfg) ["big5_chinese_ci"; "big5_bin"] ++
  when (HAVE_CHARSET_euckr cfg) ["euckr_korean_ci"; "euckr_bin"] ++
  when (HAVE_CHARSET_gb2312 cfg) ["gb2312_chinese_ci"; "gb2312_bin"] ++
  when (HAVE_CHARSET_gbk cfg) ["gbk_chinese_ci"; "gbk_bin"] ++
  when (HAVE_CHARSET_latin1 cfg) ["latin1"; "latin1_bin"] ++
  when (HAVE_CHARSET_sjis cfg) ["sjis_japanese_ci"; "sjis_bin"] ++
  when (HAVE_CHARSET_tis620 cfg) ["tis620_thai_ci"; "tis620_bin"] ++
  when (HAVE_CHARSET_ujis cfg) ["ujis_japanese_ci"; "ujis_bin"] ++
  when (HAVE_CHARSET_utf8mb3 cfg)
    (["utf8mb3_general_ci"] ++ when (HAVE_UCA_COLLATIONS cfg) ["utf8mb3_unicode_ci"] ++ ["utf8mb3_bin"]).

(** The two ways the program names a collation: the object [my_charset_<name>], or a name looked up. *)
Inductive coll_ref := Static (name : string) | ByName (name : string).

(** The calls of [test_strcollsp], in order. *)
Definition strcollsp_calls (cfg : config) : list (coll_ref * list STRNNCOLL_PARAM) :=
  when (HAVE_CHARSET_big5 cfg) [
    (Static "big5_chinese_ci", strcoll_mb2_common);
    (Static "big5_chinese_ci", strcoll_mb2_A1A1_mb2_F9FE);
    (Static "big5_bin", strcoll_mb2_common);
    (Static "big5_bin", strcoll_mb2_A1A1_mb2_F9FE)] ++
  when (HAVE_CHARSET_cp932 cfg) [
    (Static "cp932_japanese_ci", strcoll_mb2_common);
    (Static "cp932_japanese_ci", strcoll_mb1_A1_bad_F9FE);
    (Static "cp932_bin", strcoll_mb2_common);
    (Static "cp932_bin", strcoll_mb1_A1_bad_F9FE);
    (Static "cp932_japanese_ci", strcoll_8181_A1_E0E0);
    (Static "cp932_bin", strcoll_8181_A1_E0E0)] ++
  when (HAVE_CHARSET_eucjpms cfg) [
    (Static "eucjpms_japanese_ci", strcoll_mb2_common);
    (Static "eucjpms_bin", strcoll_mb2_common);
    (Static "eucjpms_japanese_ci", strcoll_mb2_A1A1_mb2_F9FE);
    (Static "eucjpms_bin", strcoll_mb2_A1A1_mb2_F9FE);
    (Static "eucjpms_japanese_ci", strcoll_ujis);
    (Static "eucjpms_bin", strcoll_ujis)] ++
  when (HAVE_CHARSET_euckr cfg) [
    (Static "euckr_korean_ci", strcoll_mb2_common);
    (Static "euckr_korean_ci", strcoll_mb2_A1A1_mb2_F9FE);
    (Static "euckr_bin", strcoll_mb2_common);
    (Static "euckr_bin", strcoll_mb2_A1A1_mb2_F9FE)] ++
  when (HAVE_CHARSET_gb2312 cfg) [
    (Static "gb2312_chinese_ci", strcoll_mb2_common);
    (Static "gb2312_chinese_ci", strcoll_mb2_A1A1_bad_F9FE);
    (Static "gb2312_bin", strcoll_mb2_common);
    (Static "gb2312_bin", strcoll_mb2_A1A1_bad_F9FE)] ++
  when (HAVE_CHARSET_gbk cfg) [
    (Static "gbk_chinese_ci", strcoll_mb2_common);
    (Static "gbk_chinese_ci", strcoll_mb2_A1A1_mb2_F9FE);
    (Static "gbk_bin", strcoll_mb2_common);
    (Static "gbk_bin", strcoll_mb2_A1A1_mb2_F9FE)] ++
  when (HAVE_CHARSET_sjis cfg) [
    (Static "sjis_japanese_ci", strcoll_mb2_common);
    (Static "sjis_bin", strcoll_mb2_common);
    (Static "sjis_japanese_ci", strcoll_mb1_A1_bad_F9FE);
    (Static "sjis_bin", strcoll_mb1_A1_bad_F9FE);
    (Static "sjis_japanese_ci", strcoll_8181_A1_E0E0);
    (Static "sjis_bin", strcoll_8181_A1_E0E0)] ++
  when (HAVE_CHARSET_ucs2 cfg) [
    (Static "ucs2_general_ci", strcoll_ucs2_common);
    (Static "ucs2_general_ci", strcoll_ucs2_space);
    (Static "ucs2_bin", strcoll_ucs2_common);
    (Static "ucs2_bin", strcoll_ucs2_space)] ++
  when (HAVE_CHARSET_ujis cfg) [
    (Static "ujis_japanese_ci", strcoll_mb2_common);
    (Static "ujis_bin", strcoll_mb2_common);
    (Static "ujis_japanese_ci", strcoll_mb2_A1A1_mb2_F9FE);
    (Static "ujis_bin", strcoll_mb2_A1A1_mb2_F9FE);
    (Static "ujis_japanese_ci", strcoll_ujis);
    (Static "ujis_bin", strcoll_ujis)] ++
  when (HAVE_CHARSET_utf16 cfg) [
    (Static "utf16_general_ci", strcoll_ucs2_common);
    (Static "utf16_general_ci", strcoll_ucs2_space);
    (Static "utf16_general_ci", strcoll_utf16_common);
    (Static "utf16_general_ci", strcoll_utf16_general_ci);
    (Static "utf16_bin", strcoll_ucs2_common);
    (Static "utf16_bin", strcoll_ucs2_space);
    (Static "utf16_bin", strcoll_utf16_common);
    (Static "utf16le_general_ci", strcoll_ucs2_common);
    (Static "utf16le_general_ci", strcoll_utf16le_space);
    (Static "utf16le_general_ci", strcoll_utf16le_common);
    (Static "utf16le_general_ci", strcoll_utf16le_general_ci);
    (Static "utf16le_bin", strcoll_ucs2_common);
    (Static "utf16le_bin", strcoll_utf16le_space);
    (Static "utf16le_bin", strcoll_utf16le_common)] ++
  when (HAVE_CHARSET_utf32 cfg) [
    (Static "utf32_general_ci", strcoll_utf32_common);
    (Static "utf32_general_ci", strcoll_utf32_general_ci);
    (Static "utf32_bin", strcoll_utf32_common)] ++
  when (HAVE_CHARSET_utf8 cfg) [
    (Static "utf8mb3_general_ci", strcoll_utf8mb3_common);
    (Static "utf8mb3_general_mysql500_ci", strcoll_utf8mb3_common);
    (Static "utf8mb3_bin", strcoll_utf8mb3_common)] ++
  when (HAVE_CHARSET_utf8mb4 cfg) [
    (Static "utf8mb4_general_ci", strcoll_utf8mb3_common);
    (Static "utf8mb4_bin", strcoll_utf8mb3_common);
    (Static "utf8mb4_general_ci", strcoll_utf8mb4_common);
    (Static "utf8mb4_general_ci", strcoll_utf8mb4_general_ci);
    (Static "utf8mb4_bin", strcoll_utf8mb4_common);
    (ByName "utf8mb4_uca1400_ai_ci", strcoll_utf8mb4_uca1400_aX_cX);
    (ByName "utf8mb4_uca1400_ai_ci", strcoll_utf8mb4_uca1400_ai_ci);
    (ByName "utf8mb4_uca1400_as_ci", strcoll_utf8mb4_uca1400_aX_cX);
    (ByName "utf8mb4_uca1400_as_ci", strcoll_utf8mb4_uca1400_as_ci);
    (ByName "utf8mb4_uca1400_as_cs", strcoll_utf8mb4_uca1400_aX_cX);
    (ByName "utf8mb4_uca1400_as_cs", strcoll_utf8mb4_uca1400_as_cs);
    (ByName "utf8mb4_uca1400_czech_ai_ci", strcoll_utf8mb4_uca1400_czech_aX_cX);
    (ByName "utf8mb4_uca1400_czech_ai_ci", strcoll_utf8mb4_uca1400_ai_ci);
    (ByName "utf8mb4_uca1400_czech_as_ci", strcoll_utf8mb4_uca1400_czech_aX_cX);
    (ByName "utf8mb4_uca1400_czech_as_ci", strcoll_utf8mb4_uca1400_as_ci);
    (ByName "utf8mb4_uca1400_czech_as_cs", strcoll_utf8mb4_uca1400_czech_aX_cX);
    (ByName "utf8mb4_uca1400_czech_as_cs", strcoll_utf8mb4_uca1400_as_cs);
    (ByName "utf8mb4_uca1400_danish_ai_ci", strcoll_utf8mb4_uca1400_danish_aX_cX);
    (ByName "utf8mb4_uca1400_danish_ai_ci", strcoll_utf8mb4_uca1400_danish_ai_ci);
    (ByName "utf8mb4_uca1400_danish_as_ci", strcoll_utf8mb4_uca1400_danish_aX_cX);
    (ByName "utf8mb4_uca1400_danish_as_ci", strcoll_utf8mb4_uca1400_danish_as_ci);
    (ByName "utf8mb4_uca1400_danish_as_cs", strcoll_utf8mb4_uca1400_danish_aX_cX);
    (ByName "utf8mb4_uca1400_danish_as_cs", strcoll_utf8mb4_uca1400_danish_as_cs)].

(** The calls of [test_minmax_str], in order. *)
Definition minmax_calls (cfg : config) : list (string * list MINMAX_PARAM) :=
  [("latin1_nopad_bin", minmax_param_latin1_nopad_bin);
   ("latin1", minmax_param_latin1_swedish_ci);
   ("utf8mb3_unicode_ci", minmax_param_utf8mb3_unicode_ci)] ++
  when (HAVE_CHARSET_big5 cfg) [("big5_chinese_ci", minmax_param_big5_chinese_ci)] ++
  when (HAVE_CHARSET_cp1250 cfg) [("cp1250_czech_cs", minmax_param_cp1250_czech_cs)] ++
  when (HAVE_CHARSET_latin2 cfg) [("latin2_czech_cs", minmax_param_latin2_czech_cs)].

(** Which of the four helpers a call of [test_strnncollsp_char] goes through. *)
Inductive char_helper := Mbminlen1 | Mbminlen2 | Latin1 | Utf8mbx.

(** The calls of [test_strnncollsp_char], in order: the helper, the collation and the argument [specific]. *)
Definition strnncollsp_char_calls (cfg : config) :
    list (char_helper * string * option (list STRNNCOLLSP_CHAR_PARAM)) :=
  [(Latin1, "latin1_swedish_ci", None);
   (Latin1, "latin1_swedish_nopad_ci", None);
   (Latin1, "latin1_bin", None);
   (Latin1, "latin1_nopad_bin", None);
   (Latin1, "latin1_german2_ci", Some strnncollsp_char_latin1_german2_ci)] ++
  when (HAVE_CHARSET_cp1250 cfg) [
    (Mbminlen1, "cp1250_czech_cs", Some strnncollsp_char_mbminlen1_xpad_czech)] ++
  when (HAVE_CHARSET_latin2 cfg) [
    (Mbminlen1, "latin2_czech_cs", Some strnncollsp_char_mbminlen1_xpad_czech)] ++
  when (HAVE_CHARSET_tis620 cfg) [
    (Mbminlen1, "tis620_thai_ci", None);
    (Mbminlen1, "tis620_thai_nopad_ci", None)] ++
  when (HAVE_CHARSET_big5 cfg) [
    (Mbminlen1, "big5_chinese_ci", None);
    (Mbminlen1, "big5_chinese_nopad_ci", None);
    (Mbminlen1, "big5_bin", None);
    (Mbminlen1, "big5_nopad_bin", None)] ++
  [(Utf8mbx, "utf8mb3_general_ci", None);
   (Utf8mbx, "utf8mb3_general_nopad_ci", None);
   (Utf8mbx, "utf8mb3_bin", None);
   (Utf8mbx, "utf8mb3_nopad_bin", None);
   (Utf8mbx, "utf8mb3_unicode_ci", Some strnncollsp_char_utf8mb3_unicode_ci);
   (Utf8mbx, "utf8mb3_unicode_nopad_ci", Some strnncollsp_char_utf8mb3_unicode_nopad_ci);
   (Utf8mbx, "utf8mb3_danish_ci", Some strnncollsp_char_utf8mb3_danish_ci);
   (Utf8mbx, "utf8mb3_german2_ci", Some strnncollsp_char_utf8mbx_german2_ci);
   (Utf8mbx, "utf8mb3_czech_ci", Some strnncollsp_char_mbminlen1_xpad_czech)] ++
  when (HAVE_CHARSET_ucs2 cfg) [
    (Mbminlen2, "ucs2_general_ci", None);
    (Mbminlen2, "ucs2_general_nopad_ci", None);
    (Mbminlen2, "ucs2_bin", None);
    (Mbminlen2, "ucs2_nopad_bin", None);
    (Mbminlen2, "ucs2_unicode_ci", None);
    (Mbminlen2, "ucs2_unicode_nopad_ci", None)].

(** [if (specific) failed+= strnncollsp_char(collation, specific)]. *)
Definition option_list {A} (x : option A) : list A := match x with Some y => [y] | None => [] end.

(** [strstr(s, t)] as a condition. *)
Definition strstr (s t : string) : bool := match String.index 0 t s with Some _ => true | None => false end.

Section suite.
Context `{lib : strings_lib}.

Definition test_like_range_for_charset (cs : CHARSET_INFO) (src : bytes) : tap Z :=
  let r := my_ci_like_range cs src (byte_of 92) (byte_of 95) (byte_of 37) 32 in
  let min_len := lr_min_len r in
  let max_len := lr_max_len r in
  diag "min_len=%d\tmax_len=%d\t%s" [ArgD (Z.of_nat min_len); ArgD (Z.of_nat max_len); ArgS (coll_name cs)] ;;
  smin ← str_n (Some (lr_min_str r)) min_len;
  let min_well_formed_len := my_well_formed_length cs smin 10000 in
  smax ← str_n (Some (lr_max_str r)) max_len;
  let max_well_formed_len := my_well_formed_length cs smax 10000 in
  (if negb (min_len =? min_well_formed_len)%nat then
     match lr_min_str r !! min_well_formed_len with
     | Some c => diag "Bad min_str: min_well_formed_len=%d min_str[%d]=0x%02X"
                   [ArgD (Z.of_nat min_well_formed_len); ArgD (Z.of_nat min_well_formed_len); ArgD (byte_val c)]
     | None => undefined
     end
   else mret ()) ;;
  (if negb (max_len =? max_well_formed_len)%nat then
     match lr_max_str r !! max_well_formed_len with
     | Some c => diag "Bad max_str: max_well_formed_len=%d max_str[%d]=0x%02X"
                   [ArgD (Z.of_nat max_well_formed_len); ArgD (Z.of_nat max_well_formed_len); ArgD (byte_val c)]
     | None => undefined
     end
   else mret ()) ;;
  mret (if (min_len =? min_well_formed_len)%nat && (max_len =? max_well_formed_len)%nat then 0 else 1).

(** * Comparison tests *)

Fixpoint strcollsp_loop (cs : CHARSET_INFO) (failed : Z) (param : list STRNNCOLL_PARAM) : tap Z :=
  match param with
  | [] => undefined
  | p :: param' =>
      match a p with
      | None => mret failed
      | Some _ =>
          x ← str_n (a p) (alen p);
          y ← str_n (b p) (blen p);
          let r := my_ci_strnncollsp cs x y in
          ahex ← str2hex (char_array 64) x;
          bhex ← str2hex (char_array 64) y;
          diag "%-20s %-10s %-10s %10d %10d%s"
            [ArgS (coll_name cs); ArgS (c_string ahex); ArgS (c_string bhex); ArgD (res p); ArgD r;
             ArgS (if eqres r (res p) then [] else B " FAILED")] ;;
          if negb (eqres r (res p)) then strcollsp_loop cs (failed + 1) param'
          else
            let r := my_ci_strnncollsp cs y x in
            if negb (eqres r (- res p)) then
              diag "Comparison in reverse order failed. Expected %d, got %d" [ArgD (- res p); ArgD r] ;;
              strcollsp_loop cs (failed + 1) param'
            else strcollsp_loop cs failed param'
      end
  end.

Definition strcollsp (cs : CHARSET_INFO) (param : list STRNNCOLL_PARAM) : tap Z :=
  diag "%-20s %-10s %-10s %10s %10s"
    [ArgS (B "Collation"); ArgS (B "a"); ArgS (B "b"); ArgS (B "ExpectSign"); ArgS (B "Actual")] ;;
  strcollsp_loop cs 0 param.

Definition strcollsp_by_name (collation : string) (param : list STRNNCOLL_PARAM) : tap Z :=
  match get_charset_by_name collation with
  | None => diag "get_charset_by_name() failed" [] ;; mret 1
  | Some cs => strcollsp cs param
  end.

Definition strcollsp_call (c : coll_ref * list STRNNCOLL_PARAM) : tap Z :=
  match c.1 with
  | Static n => strcollsp (my_charset n) c.2
  | ByName n => strcollsp_by_name n c.2
  end.

Definition test_strcollsp (cfg : config) : tap Z := count_failed strcollsp_call (strcollsp_calls cfg).

(** * Least and greatest strings *)

(** A result of [min_str] or [max_str] in the caller's array of [n] bytes. *)
Definition in_array (n : nat) (s : bytes) : tap bytes := if (length s <=? n)%nat then mret s else undefined.

(** One round of the loop of [test_minmax_str_one]. *)
Definition test_minmax_round (cs : CHARSET_INFO) (prm : MINMAX_PARAM) : tap Z :=
  smin ← in_array 32 (min_str cs (size prm) (nchars prm));
  smax ← in_array 32 (max_str cs (size prm) (nchars prm));
  emin ← lex_bytes (min prm);
  emax ← lex_bytes (max prm);
  let failed := negb (length smin =? lex_length (min prm))%nat || negb (bool_decide (smin = emin)) ||
                negb (length smax =? lex_length (max prm))%nat || negb (bool_decide (smax = emax)) in
  hmin ← str2hex (char_array 64) smin;
  hmax ← str2hex (char_array 64) smax;
  diag "%-32s %2d %2d   %-10s   %-10s%s"
    [ArgS (coll_name cs); ArgD (Z.of_nat (size prm)); ArgD (Z.of_nat (nchars prm));
     ArgS (c_string hmin); ArgS (c_string hmax); ArgS (if failed then B " FAILED" else [])] ;;
  (if failed then
     hmin ← str2hex hmin emin;
     hmax ← str2hex hmax emax;
     diag "%-40s %-10s   %-10s EXPECTED" [ArgS (coll_name cs); ArgS (c_string hmin); ArgS (c_string hmax)]
   else mret ()) ;;
  mret (Z.b2z failed).

Definition test_minmax_str_one (cs : CHARSET_INFO) (params : list MINMAX_PARAM) : tap Z :=
  count_failed (test_minmax_round cs) params.

Definition test_minmax_str (cfg : config) : tap Z :=
  count_failed (λ c, test_minmax_str_one (my_charset c.1) c.2) (minmax_calls cfg).

(** * Comparison of prefixes *)

Definition strnncollsp_char_one (cs : CHARSET_INFO) (p : STRNNCOLLSP_CHAR_PARAM) : tap Z :=
  x ← lex_bytes (char_a p);
  y ← lex_bytes (char_b p);
  let r := strnncollsp_nchars cs x y (char_nchars p) (flags p) in
  ahex ← str2hex (char_array 64) x;
  bhex ← str2hex (char_array 64) y;
  diag "%-25s %-12s %-12s %3d %7d %7d%s"
    [ArgS (coll_name cs); ArgS (c_string ahex); ArgS (c_string bhex); ArgD (Z.of_nat (char_nchars p));
     ArgD (char_res p); ArgD r; ArgS (if eqres r (char_res p) then [] else B " FAILED")] ;;
  if negb (eqres r (char_res p)) then mret 1
  else
    let r := strnncollsp_nchars cs y x (char_nchars p) (flags p) in
    if negb (eqres r (- char_res p)) then
      diag "Comparison in reverse order failed. Expected %d, got %d" [ArgD (- char_res p); ArgD r] ;;
      mret 1
    else mret 0.

Fixpoint strnncollsp_char_loop (cs : CHARSET_INFO) (failed : Z) (param : list STRNNCOLLSP_CHAR_PARAM) : tap Z :=
  match param with
  | [] => undefined
  | p :: param' =>
      match str (char_a p) with
      | None => mret failed
      | Some _ => f ← strnncollsp_char_one cs p; strnncollsp_char_loop cs (failed + f) param'
      end
  end.

Definition strnncollsp_char (collation : string) (param : list STRNNCOLLSP_CHAR_PARAM) : tap Z :=
  match get_charset_by_name collation with
  | None => diag "get_charset_by_name() failed" [] ;; mret 1
  | Some cs =>
      diag "%-25s %-12s %-12s %-3s %7s %7s"
        [ArgS (B "Collation"); ArgS (B "a"); ArgS (B "b"); ArgS (B "Nch"); ArgS (B "ExpSign"); ArgS (B "Actual")] ;;
      strnncollsp_char_loop cs 0 param
  end.

Definition strnncollsp_char_mbminlen1 (collation : string) (specific : option (list STRNNCOLLSP_CHAR_PARAM)) : tap Z :=
  count_failed (strnncollsp_char collation)
    ([strnncollsp_char_mbminlen1_xpad_common] ++ option_list specific).

Definition strnncollsp_char_mbminlen2 (collation : string) (specific : option (list STRNNCOLLSP_CHAR_PARAM)) : tap Z :=
  count_failed (strnncollsp_char collation)
    ([strnncollsp_char_mbminlen2_xpad_common] ++ option_list specific).

Definition strnncollsp_char_latin1 (collation : string) (specific : option (list STRNNCOLLSP_CHAR_PARAM)) : tap Z :=
  count_failed (strnncollsp_char collation)
    ([strnncollsp_char_mbminlen1_xpad_common; strnncollsp_char_latin1_xpad_common] ++ option_list specific).

Definition strnncollsp_char_utf8mbx (collation : string) (specific : option (list STRNNCOLLSP_CHAR_PARAM)) : tap Z :=
  count_failed (strnncollsp_char collation)
    ([strnncollsp_char_mbminlen1_xpad_common; strnncollsp_char_utf8mbx_xpad_common] ++
     when (negb (strstr collation "_bin") && negb (strstr collation "_german2") && negb (strstr collation "_danish"))
       [strnncollsp_char_utf8mbx_xpad_a_eq_auml] ++
     option_list specific).

Definition strnncollsp_char_call (c : char_helper * string * option (list STRNNCOLLSP_CHAR_PARAM)) : tap Z :=
  match c.1.1 with
  | Mbminlen1 => strnncollsp_char_mbminlen1 c.1.2 c.2
  | Mbminlen2 => strnncollsp_char_mbminlen2 c.1.2 c.2
  | Latin1 => strnncollsp_char_latin1 c.1.2 c.2
  | Utf8mbx => strnncollsp_char_utf8mbx c.1.2 c.2
  end.

Definition test_strnncollsp_char (cfg : config) : tap Z :=
  count_failed strnncollsp_char_call (strnncollsp_char_calls cfg).

(** * The program *)

(** One round of the loop over [charset_list]. *)
Definition like_range_round (name : string) : tap Z :=
  let cs := my_charset name in
  f ← test_like_range_for_charset cs (c_lit "abc%");
  if negb (f =? 0) then diag "Failed for %s" [ArgS (coll_name cs)] ;; mret 1 else mret 0.

Definition main (cfg : config) : tap () :=
  plan 4 ;;
  diag "Testing my_like_range_xxx() functions" [] ;;
  failed ← count_failed like_range_round (charset_list cfg);
  ok (failed =? 0) "Testing my_like_range_xxx() functions" [] ;;
  diag "my_ci_strnncollsp()" [] ;;
  failed ← test_strcollsp cfg;
  ok (failed =? 0) "Testing my_ci_strnncollsp()" [] ;;
  diag "Testing min_str() and max_str()" [] ;;
  failed ← test_minmax_str cfg;
  ok (failed =? 0) "Testing min_str() and max_str() functions" [] ;;
  diag "Testing cs->coll->strnncollsp_char()" [] ;;
  failed ← test_strnncollsp_char cfg;
  ok (failed =? 0) "Testing cs->coll->strnncollsp_char()" [].

End suite.
