(* ===== verification/CollationRanks.v ===== *)
(** A string library that meets every expectation of the collation tests: each collation compares the ranks of two
    strings, so it is a total preorder, and the ranks are computed from the rows of the tables by relaxation.  It
    shows that the tables do not contradict each other, within one collation and across the helpers that share
    them, and it instantiates the parameter of the theorems of [CollationFacts]. *)

From S2P Require Import Prelude Tap CollationTables CollationSuite CollationFacts.
Open Scope Z_scope.

(** * Ranks *)

Definition rank_of (ranks : list (bytes * Z)) (s : bytes) : Z :=
  match find (λ e, bool_decide (e.1 = s)) ranks with Some e => e.2 | None => 0 end.

Definition set_rank (ranks : list (bytes * Z)) (s : bytes) (r : Z) : list (bytes * Z) :=
  (s, r) :: filter (λ e, e.1 ≠ s) ranks.

(** Raise a rank so that one row holds. *)
Definition relax (ranks : list (bytes * Z)) (row : bytes * bytes * Z) : list (bytes * Z) :=
  let x := row.1.1 in let y := row.1.2 in
  let rx := rank_of ranks x in let ry := rank_of ranks y in
  if row.2 =? 0 then set_rank (set_rank ranks x (Z.max rx ry)) y (Z.max rx ry)
  else if row.2 <? 0 then (if rx <? ry then ranks else set_rank ranks y (rx + 1))
  else (if ry <? rx then ranks else set_rank ranks x (ry + 1)).

Definition ranks_of (rows : list (bytes * bytes * Z)) : list (bytes * Z) :=
  Nat.iter 5 (λ ranks, foldl relax ranks rows) [].

(** Comparison by rank; the ranks are computed once for all comparisons. *)
Definition by_rank (rows : list (bytes * bytes * Z)) : bytes → bytes → Z :=
  let ranks := ranks_of rows in λ x y, rank_of ranks x - rank_of ranks y.

(** * The rows each collation has to meet *)

Definition ref_name (c : coll_ref) : string := match c with Static n => n | ByName n => n end.

Definition rows_of (n : string) : list (bytes * bytes * Z) :=
  concat ((λ c, default [] (coll_rows c.2)) <$>
          filter (λ c, ref_name c.1 = n) (strcollsp_calls all_configured)).

Definition char_rows_of (n : string) : list ((nat * char_flags) * (bytes * bytes * Z)) :=
  concat ((λ c, concat ((λ t, default [] (char_rows t)) <$> char_tables c)) <$>
          filter (λ c, c.1.2 = n) (strnncollsp_char_calls all_configured)).

Definition same_flags (f g : char_flags) : bool :=
  match f, g with TCHAR, TCHAR | TVCHAR, TVCHAR => true | _, _ => false end.

Definition rows_at (rows : list ((nat * char_flags) * (bytes * bytes * Z))) (k : nat) (f : char_flags) :
    list (bytes * bytes * Z) :=
  snd <$> filter (λ r, (r.1.1 =? k)%nat && same_flags r.1.2 f = true) rows.

Definition char_by_rank (rows : list ((nat * char_flags) * (bytes * bytes * Z))) :
    bytes → bytes → nat → char_flags → Z :=
  λ x y k f, by_rank (rows_at rows k f) x y.

Definition minmax_entry (n : string) (s k : nat) : option MINMAX_PARAM :=
  find (λ prm, (size prm =? s)%nat && (nchars prm =? k)%nat)
    (concat (snd <$> filter (λ c, c.1 = n) (minmax_calls all_configured))).

Definition entry_str (n : nat) (x : option LEX_CSTRING) : bytes :=
  match x with Some x => take n (default [] (str x)) | None => [] end.

(** * The library *)

#[local] Instance rank_lib : strings_lib := {|
  CHARSET_INFO := string;
  my_charset n := n;
  get_charset_by_name n := Some n;
  coll_name n := B n;
  my_ci_strnncollsp n := by_rank (rows_of n);
  strnncollsp_nchars n := char_by_rank (char_rows_of n);
  min_str n s k := entry_str s (min <$> minmax_entry n s k);
  max_str n s k := entry_str s (max <$> minmax_entry n s k);
  my_ci_like_range n _ _ _ _ k :=
    {| lr_min_str := replicate k Byte.x00; lr_max_str := replicate k Byte.x00; lr_min_len := 0; lr_max_len := k |};
  my_well_formed_length n s _ := length s;
|}.

Lemma length_entry_str n x : (length (entry_str n x) ≤ n)%nat.
Proof. destruct x as [x|]; cbn; [rewrite length_take|]; lia. Qed.

#[local] Instance rank_lib_bounds : strings_lib_bounds rank_lib.
Proof.
  constructor.
  - intros. cbn. rewrite length_replicate. lia.
  - intros. cbn. lia.
  - intros. apply length_entry_str.
  - intros. apply length_entry_str.
Qed.

(** A three-way comparison that is a total preorder. *)
Definition preorder_cmp (cmp : bytes → bytes → Z) : Prop :=
  (∀ x y, Z.sgn (cmp y x) = - Z.sgn (cmp x y)) ∧ (∀ x y z, cmp x y ≤ 0 → cmp y z ≤ 0 → cmp x z ≤ 0).

Lemma by_rank_preorder rows : preorder_cmp (by_rank rows).
Proof. unfold by_rank. split; intros; lia. Qed.

#[local] Opaque by_rank rows_of char_rows_of minmax_entry coll_rows char_rows.

(** * It meets the expectations *)

Definition rows_okb (cmp : bytes → bytes → Z) (rows : list (bytes * bytes * Z)) : bool :=
  forallb (λ r, bool_decide (row_ok cmp r)) rows.

Lemma forallb_Forall {A} (f : A → bool) (P : A → Prop) l :
  (∀ x, f x = true → P x) → forallb f l = true → Forall P l.
Proof.
  intros Hf. induction l as [|x l IH]; cbn; [constructor|].
  intros [Hx Hl]%andb_true_iff. constructor; auto.
Qed.

Lemma rows_okb_spec cmp rows : rows_okb cmp rows = true → Forall (row_ok cmp) rows.
Proof. apply forallb_Forall. intros r. apply bool_decide_eq_true_1. Qed.

Lemma collsp_ok_all : Forall collsp_ok (strcollsp_calls all_configured).
Proof.
  apply (forallb_Forall (λ c, match coll_rows c.2 with
                              | Some rows => rows_okb (by_rank (rows_of (ref_name c.1))) rows
                              | None => false
                              end)).
  - intros [c t] Ht. unfold collsp_ok. cbn [fst snd] in *.
    assert (coll_of c = Some (ref_name c : @CHARSET_INFO rank_lib)) as -> by (by destruct c).
    destruct (coll_rows t); [|done]. exact (rows_okb_spec _ _ Ht).
  - vm_compute. reflexivity.
Qed.

Lemma minmax_ok_all : Forall (λ c, Forall (minmax_ok (my_charset c.1)) c.2) (minmax_calls all_configured).
Proof.
  apply (forallb_Forall (λ c, forallb (λ prm, bool_decide (minmax_ok (c.1 : @CHARSET_INFO rank_lib) prm)) c.2)).
  - intros c. apply forallb_Forall. intros prm. apply bool_decide_eq_true_1.
  - vm_compute. reflexivity.
Qed.

Definition char_rows_okb (cmp : bytes → bytes → nat → char_flags → Z)
    (rows : list ((nat * char_flags) * (bytes * bytes * Z))) : bool :=
  forallb (λ r, bool_decide (row_ok (λ x y, cmp x y r.1.1 r.1.2) r.2)) rows.

Lemma char_ok_all :
  Forall (λ c, Forall (char_table_ok c.1.2) (char_tables c)) (strnncollsp_char_calls all_configured).
Proof.
  apply (forallb_Forall (λ c, forallb (λ t, match char_rows t with
           | Some rows => char_rows_okb (char_by_rank (char_rows_of c.1.2)) rows
           | None => false
           end) (char_tables c))).
  - intros c. apply forallb_Forall. intros t Ht. unfold char_table_ok. cbn [get_charset_by_name rank_lib].
    destruct (char_rows t); [|done]. revert Ht. apply forallb_Forall. intros r Hr.
    by apply bool_decide_eq_true_1 in Hr.
  - vm_compute. reflexivity.
Qed.

Lemma rank_lib_meets cfg : meets_expectations cfg.
Proof.
  split_and!.
  - apply Forall_true. intros n. by split.
  - apply strcollsp_calls_mono, collsp_ok_all.
  - apply minmax_calls_mono, minmax_ok_all.
  - apply strnncollsp_char_calls_mono, char_ok_all.
Qed.

Lemma rank_lib_passes cfg : passes (main cfg).
Proof.
  destruct (main_verdicts cfg) as (b1 & b2 & b3 & b4 & Ho & E1 & E2 & E3 & E4).
  destruct (rank_lib_meets cfg) as (M1 & M2 & M3 & M4). eapply outcome_mono; [|exact Ho].
  intros _ t [-> ->]. split; [done|]. repeat constructor; [by apply E1|by apply E2|by apply E3|by apply E4].
Qed.

(** The tables are consistent: there is a library within the buffer bounds whose every collation, for whole
    strings and for prefixes of any number of characters, is a total preorder, and with which the program passes in
    every configuration.  No two rows ask for opposite signs, directly or through a chain of comparisons. *)
Theorem tables_consistent :
  ∃ lib : strings_lib, strings_lib_bounds lib ∧
    (∀ cs : CHARSET_INFO, preorder_cmp (my_ci_strnncollsp cs)) ∧
    (∀ (cs : CHARSET_INFO) n f, preorder_cmp (λ x y, strnncollsp_nchars cs x y n f)) ∧
    ∀ cfg, passes (main cfg).
Proof.
  exists rank_lib. split; [apply _|]. split; [intros cs; apply by_rank_preorder|].
  split; [intros cs n f; apply by_rank_preorder|]. intros cfg. apply rank_lib_passes.
Qed.

(** [main_passes_iff] at [rank_lib] with every character set. *)
Lemma main_passes_iff_witness : plan_kept (main all_configured) ∧ passes (main all_configured).
Proof.
  destruct (main_passes_iff (lib := rank_lib) all_configured) as [Hp Hi].
  split; [exact Hp|]. exact (proj2 Hi (rank_lib_meets all_configured)).
Defined.

(** [strcollsp_counts] at a table of three rows, all of which [rank_lib] meets. *)
Lemma strcollsp_counts_witness :
  ∃ rows, coll_rows strcoll_8181_A1_E0E0 = Some rows ∧
          gives (strcollsp (my_charset "sjis_bin") strcoll_8181_A1_E0E0) 0 [].
Proof.
  eexists. split; [vm_compute; reflexivity|].
  exact (proj1 (strcollsp_counts (my_charset "sjis_bin") strcoll_8181_A1_E0E0 _ eq_refl)).
Defined.
