(* ===== verification/JsonWriterSuite.v ===== *)
(** The tests of class Json_writer, src/references/mariadb/unittest/sql/my_json_writer-t.cc.

    The classes under test ([Json_writer], its scope wrappers and [String_with_limit], sql/my_json_writer.h and
    .cc) are not part of the sources: they are the parameter [json_writer_lib], a state and what each method call
    does to it.  A block of [main] is a definition: the calls it makes, in order, and the checks on the result.
    The state of a writer includes the [Json_writer_object] and [Json_writer_array] wrappers constructed on it
    and not yet destroyed; they are scoped, so a call on a wrapper is a call on the innermost one, and leaving a
    scope is the call [destroy]. *)

From S2P Require Import Prelude Tap.
Open Scope Z_scope.

(** A floating constant as it is written; its value is left to the compiler. *)
Inductive double_const :=
| decimal (mantissa exponent : Z)
| opp (d : double_const).

(** The method calls the program makes on a writer and on its wrappers. *)
Inductive call :=
| start_object | end_object | start_array | end_array
| add_member (name : bytes)
| add_member_len (name : bytes) (len : nat)
| add_str (s : bytes)
| add_str_len (s : bytes) (len : nat)
| add_String (s : bytes) (charset : option string)
| add_ll (v : Z)
| add_ull (v : Z)
| add_size (v : Z)
| add_bool (v : bool)
| add_null
| add_double (v : double_const)
| set_size_limit (n : Z)
| Json_writer_object (name : option bytes)
| Json_writer_array (name : option bytes)
| obj_add_str (name value : bytes)
| obj_add_str_len (name value : bytes) (num_bytes : nat)
| obj_add_ll (name : bytes) (v : Z)
| obj_add_ull (name : bytes) (v : Z)
| obj_add_bool (name : bytes) (v : bool)
| obj_end
| arr_add_str (s : bytes)
| arr_add_ull (v : Z)
| arr_end
| destroy.

(** The calls on a [String_with_limit]. *)
Inductive limit_call :=
| append (s : bytes)
| append_char (c : byte)
| limit (n : Z).

Class json_writer_lib := {
  Json_writer : Type;
  writer_init : Json_writer;
  writer_call : Json_writer → call → Json_writer;
  invalid_json : Json_writer → bool;
  output : Json_writer → bytes;
  get_truncated_bytes : Json_writer → Z;
  String_with_limit : Type;
  limit_init : String_with_limit;
  limit_step : String_with_limit → limit_call → String_with_limit;
  limit_string : String_with_limit → bytes;
  limit_truncated : String_with_limit → Z;
}.

Definition LLONG_MAX : Z := 9223372036854775807.
Definition LLONG_MIN : Z := -9223372036854775808.
Definition ULLONG_MAX : Z := 18446744073709551615.

(** The length the library reports for a string. *)
Definition len (s : bytes) : Z := Z.of_nat (length s).

Section suite.
Context `{lib : json_writer_lib}.

(** A fresh writer after a sequence of calls. *)
Definition run (calls : list call) : Json_writer := foldl writer_call writer_init calls.

Definition run_limit (calls : list limit_call) : String_with_limit := foldl limit_step limit_init calls.

Definition json_output_eq (w : Json_writer) (expected : bytes) : tap bool :=
  let s := output w in
  let exp_len := length (c_string expected) in
  if (length s =? exp_len)%nat && bool_decide (s = take exp_len expected) then mret true
  else
    diag "  Expected (%d bytes): [%s]" [ArgD (Z.of_nat exp_len); ArgS (c_string expected)] ;;
    diag "  Actual   (%d bytes): [%.*s]" [ArgD (len s); ArgD (len s); ArgS s] ;;
    mret false.

(** The loop of [json_output_eq_len]: the first of the [n] positions from [i] on where the strings differ. *)
Fixpoint first_mismatch (i : Z) (s expected : bytes) : tap () :=
  match s, expected with
  | actual :: s', exp :: expected' =>
      if decide (actual = exp) then first_mismatch (i + 1) s' expected'
      else diag "  First mismatch at byte %d: expected 0x%02x, actual 0x%02x"
             [ArgD i; ArgD (byte_val exp); ArgD (byte_val actual)]
  | _, _ => mret ()
  end.

Definition json_output_eq_len (w : Json_writer) (expected : bytes) (expected_len : nat) : tap bool :=
  let s := output w in
  if (length s =? expected_len)%nat && bool_decide (s = take expected_len expected) then mret true
  else
    diag "  Expected length: %d bytes" [ArgD (Z.of_nat expected_len)] ;;
    diag "  Actual length  : %d bytes" [ArgD (len s)] ;;
    let common_len := if (length s <? expected_len)%nat then length s else expected_len in
    first_mismatch 0 (take common_len s) (take common_len expected) ;;
    mret false.

Definition test_started_a_name_but_didn_t : tap () :=
  let w := run [start_object; add_member (c_lit "foo"); end_object] in
  ok (invalid_json w) "Started a name but didn't add a value" [].

Definition test_unnamed_value_in_an_object : tap () :=
  let w := run [start_object; add_ull 123] in
  ok (invalid_json w) "Unnamed value in an object" [].

Definition test_named_member_in_array : tap () :=
  let w := run [start_array; add_member (c_lit "bebebe"); add_ull 345] in
  ok (invalid_json w) "Named member in array" [].

Definition test_unnamed_array_in_an_object : tap () :=
  let w := run [start_object; start_array] in
  ok (invalid_json w) "Unnamed array in an object" [].

Definition test_unnamed_object_in_an_object : tap () :=
  let w := run [start_object; start_object] in
  ok (invalid_json w) "Unnamed object in an object" [].

Definition test_named_object_in_an_array : tap () :=
  let w := run [start_array; add_member (c_lit "zzz"); start_object] in
  ok (invalid_json w) "Named object in an array" [].

Definition test_named_array_in_an_array : tap () :=
  let w := run [start_array; add_member (c_lit "zzz"); start_array] in
  ok (invalid_json w) "Named array in an array" [].

Definition test_json_object_end_of_array : tap () :=
  let w := run [start_array; end_object] in
  ok (invalid_json w) "JSON object end of array" [].

Definition test_json_array_end_of_object : tap () :=
  let w := run [start_object; end_array] in
  ok (invalid_json w) "JSON array end of object" [].

Definition test_valid_json_nested_object_member_name : tap () :=
  let w := run [start_object; add_member (c_lit "name"); start_object; add_member (c_lit "name"); add_ll 2;
                end_object; end_object] in
  ok (negb (invalid_json w)) "Valid JSON: nested object member name is the same" [] ;;
  b ← json_output_eq w (c_lit "{\n  \qname\q: {\n    \qname\q: 2\n  }\n}");
  ok b "Nested same-name key output" [].

Definition test_empty_object : tap () :=
  let w := run [start_object; end_object] in
  b ← json_output_eq w (c_lit "{}");
  ok b "Empty object" [] ;;
  ok (negb (invalid_json w)) "Empty object is valid" [].

Definition test_empty_array : tap () :=
  let w := run [start_array; end_array] in
  b ← json_output_eq w (c_lit "[]");
  ok b "Empty array" [] ;;
  ok (negb (invalid_json w)) "Empty array is valid" [].

Definition test_string_value : tap () :=
  let w := run [start_object; add_member (c_lit "key"); add_str (c_lit "hello"); end_object] in
  b ← json_output_eq w (c_lit "{\n  \qkey\q: \qhello\q\n}");
  ok b "String value" [] ;;
  ok (negb (invalid_json w)) "String value is valid" [].

Definition test_empty_string_value : tap () :=
  let w := run [start_object; add_member (c_lit "s"); add_str (c_lit ""); end_object] in
  b ← json_output_eq w (c_lit "{\n  \qs\q: \q\q\n}");
  ok b "Empty string value" [] ;;
  ok (negb (invalid_json w)) "Empty string value is valid" [].

Definition test_string_with_embedded_quote_no_escaping : tap () :=
  let w := run [start_object; add_member (c_lit "s"); add_str (c_lit "with\qquote"); end_object] in
  b ← json_output_eq w (c_lit "{\n  \qs\q: \qwith\qquote\q\n}");
  ok b "String with embedded quote (no escaping)" [] ;;
  ok (negb (invalid_json w)) "String with embedded quote remains valid for this writer" [].

Definition test_latin_1_encoded_string : tap () :=
  let latin1_str := c_lit "\xe9\xf6\xfc" in
  let w := run [start_object; add_member (c_lit "s"); add_String (take 3 latin1_str) (Some "my_charset_latin1");
                end_object] in
  b ← json_output_eq w (c_lit "{\n  \qs\q: \q\xe9\xf6\xfc\q\n}");
  ok b "Latin-1 encoded string bytes pass through unchanged" [] ;;
  ok (negb (invalid_json w)) "Latin-1 encoded string bytes pass through unchanged and stay valid" [].

Definition test_utf_8_mb4_encoded_string : tap () :=
  let utf8mb4_str := c_lit "\xf0\x9f\x98\x80" in
  let w := run [start_object; add_member (c_lit "s");
                add_String (take 4 utf8mb4_str) (Some "my_charset_utf8mb4_general_ci"); end_object] in
  b ← json_output_eq w (c_lit "{\n  \qs\q: \q\xf0\x9f\x98\x80\q\n}");
  ok b "UTF-8 mb4 encoded string bytes pass through unchanged" [] ;;
  ok (negb (invalid_json w)) "UTF-8 mb4 encoded string bytes pass through unchanged and stay valid" [].

Definition test_positive_longlong_value : tap () :=
  let w := run [start_object; add_member (c_lit "num"); add_ll 42; end_object] in
  b ← json_output_eq w (c_lit "{\n  \qnum\q: 42\n}");
  ok b "Positive longlong value" [] ;;
  ok (negb (invalid_json w)) "Positive longlong value is valid" [].

Definition test_negative_longlong_value : tap () :=
  let w := run [start_object; add_member (c_lit "num"); add_ll (-100); end_object] in
  b ← json_output_eq w (c_lit "{\n  \qnum\q: -100\n}");
  ok b "Negative longlong value" [] ;;
  ok (negb (invalid_json w)) "Negative longlong value is valid" [].

Definition test_llong_max : tap () :=
  let w := run [start_object; add_member (c_lit "num"); add_ll LLONG_MAX; end_object] in
  b ← json_output_eq w (c_lit "{\n  \qnum\q: 9223372036854775807\n}");
  ok b "LLONG_MAX" [] ;;
  ok (negb (invalid_json w)) "LLONG_MAX is valid" [].

Definition test_llong_min : tap () :=
  let w := run [start_object; add_member (c_lit "num"); add_ll LLONG_MIN; end_object] in
  b ← json_output_eq w (c_lit "{\n  \qnum\q: -9223372036854775808\n}");
  ok b "LLONG_MIN" [] ;;
  ok (negb (invalid_json w)) "LLONG_MIN is valid" [].

Definition test_ullong_max : tap () :=
  let w := run [start_object; add_member (c_lit "num"); add_ull ULLONG_MAX; end_object] in
  b ← json_output_eq w (c_lit "{\n  \qnum\q: 18446744073709551615\n}");
  ok b "ULLONG_MAX" [] ;;
  ok (negb (invalid_json w)) "ULLONG_MAX is valid" [].

Definition test_bool_true : tap () :=
  let w := run [start_object; add_member (c_lit "flag"); add_bool true; end_object] in
  b ← json_output_eq w (c_lit "{\n  \qflag\q: true\n}");
  ok b "Bool true" [] ;;
  ok (negb (invalid_json w)) "Bool true is valid" [].

Definition test_null_value : tap () :=
  let w := run [start_object; add_member (c_lit "val"); add_null; end_object] in
  b ← json_output_eq w (c_lit "{\n  \qval\q: null\n}");
  ok b "Null value" [] ;;
  ok (negb (invalid_json w)) "Null value is valid" [].

Definition test_double_value : tap () :=
  let w := run [start_object; add_member (c_lit "pi"); add_double (decimal 314 (-2)); end_object] in
  b ← json_output_eq w (c_lit "{\n  \qpi\q: 3.14\n}");
  ok b "Double value" [] ;;
  ok (negb (invalid_json w)) "Double value is valid" [].

Definition test_double_zero : tap () :=
  let w := run [start_object; add_member (c_lit "d"); add_double (decimal 0 (-1)); end_object] in
  b ← json_output_eq w (c_lit "{\n  \qd\q: 0\n}");
  ok b "Double zero" [] ;;
  ok (negb (invalid_json w)) "Double zero is valid" [].

Definition test_double_negative_zero : tap () :=
  let w := run [start_object; add_member (c_lit "d"); add_double (opp (decimal 0 (-1))); end_object] in
  b ← json_output_eq w (c_lit "{\n  \qd\q: 0\n}");
  ok b "Double negative zero" [] ;;
  ok (negb (invalid_json w)) "Double negative zero is valid" [].

Definition test_double_very_small_value : tap () :=
  let w := run [start_object; add_member (c_lit "d"); add_double (decimal 1 (-10)); end_object] in
  b ← json_output_eq w (c_lit "{\n  \qd\q: 1e-10\n}");
  ok b "Double very small value" [] ;;
  ok (negb (invalid_json w)) "Double very small value is valid" [].

Definition test_double_very_large_value : tap () :=
  let w := run [start_object; add_member (c_lit "d"); add_double (decimal 1 15); end_object] in
  b ← json_output_eq w (c_lit "{\n  \qd\q: 1e15\n}");
  ok b "Double very large value" [] ;;
  ok (negb (invalid_json w)) "Double very large value is valid" [].

Definition test_object_with_multiple_typed_members : tap () :=
  let w := run [start_object; add_member (c_lit "a"); add_str (c_lit "hello"); add_member (c_lit "b"); add_ll 42;
                add_member (c_lit "c"); add_bool true; add_member (c_lit "d"); add_null; end_object] in
  b ← json_output_eq w (c_lit "{\n  \qa\q: \qhello\q,\n  \qb\q: 42,\n  \qc\q: true,\n  \qd\q: null\n}");
  ok b "Object with multiple typed members" [] ;;
  ok (negb (invalid_json w)) "Multiple members is valid" [].

Definition test_key_with_spaces : tap () :=
  let w := run [start_object; add_member (c_lit "key with spaces"); add_ll 1; end_object] in
  b ← json_output_eq w (c_lit "{\n  \qkey with spaces\q: 1\n}");
  ok b "Key with spaces" [] ;;
  ok (negb (invalid_json w)) "Key with spaces is valid" [].

Definition test_key_with_latin_1_byte : tap () :=
  let w := run [start_object; add_member (c_lit "cl\xe9"); add_ll 1; end_object] in
  b ← json_output_eq w (c_lit "{\n  \qcl\xe9\q: 1\n}");
  ok b "Key with Latin-1 byte" [] ;;
  ok (negb (invalid_json w)) "Key with Latin-1 byte is valid" [].

Definition test_key_with_embedded_quote_no_escaping : tap () :=
  let w := run [start_object; add_member (c_lit "has\qquote"); add_ll 1; end_object] in
  b ← json_output_eq w (c_lit "{\n  \qhas\qquote\q: 1\n}");
  ok b "Key with embedded quote (no escaping)" [] ;;
  ok (negb (invalid_json w)) "Key with embedded quote remains valid for this writer" [].

Definition test_empty_key_name : tap () :=
  let w := run [start_object; add_member (c_lit ""); add_ll 1; end_object] in
  b ← json_output_eq w (c_lit "{\n  \q\q: 1\n}");
  ok b "Empty key name" [] ;;
  ok (negb (invalid_json w)) "Empty key name is valid" [].

Definition test_add_member_uses_explicit_key_length : tap () :=
  let key := c_lit "prefix" in
  let w := run [start_object; add_member_len key 3; add_ll 7; end_object] in
  b ← json_output_eq w (c_lit "{\n  \qpre\q: 7\n}");
  ok b "add_member(name, len) uses explicit key length" [] ;;
  ok (negb (invalid_json w)) "add_member(name, len) remains valid" [].

Definition test_add_member_preserves_embedded_nul : tap () :=
  let key_with_nul := c_lit "k\0y" in
  let expected := c_lit "{\n  \qk\0y\q: 1\n}" in
  let w := run [start_object; add_member_len key_with_nul (length key_with_nul); add_ll 1; end_object] in
  b ← json_output_eq_len w expected (length expected);
  ok b "add_member(name, len) preserves embedded NUL in key" [] ;;
  ok (negb (invalid_json w)) "Embedded-NUL key does not mark writer invalid" [].

Definition test_duplicate_key_output : tap () :=
  let w := run [start_object; add_member (c_lit "name"); add_ll 1; add_member (c_lit "name"); add_ll 2; end_object] in
  b ← json_output_eq w (c_lit "{\n  \qname\q: 1,\n  \qname\q: 2\n}");
  ok b "Duplicate key output" [] ;;
  ok (invalid_json w) "Duplicate key is invalid JSON" [].

Definition test_named_string_array_single_line_format : tap () :=
  let w := run [start_object; add_member (c_lit "arr"); start_array; add_str (c_lit "a"); add_str (c_lit "b");
                add_str (c_lit "c"); end_array; end_object] in
  b ← json_output_eq w (c_lit "{\n  \qarr\q: [\qa\q, \qb\q, \qc\q]\n}");
  ok b "Named string array: single-line format" [] ;;
  ok (negb (invalid_json w)) "Named string array is valid" [].

Definition test_named_array_with_single_element : tap () :=
  let w := run [start_object; add_member (c_lit "one"); start_array; add_str (c_lit "only"); end_array; end_object] in
  b ← json_output_eq w (c_lit "{\n  \qone\q: [\qonly\q]\n}");
  ok b "Named array with single element" [] ;;
  ok (negb (invalid_json w)) "Named array with single element is valid" [].

Definition test_empty_named_array : tap () :=
  let w := run [start_object; add_member (c_lit "empty"); start_array; end_array; end_object] in
  b ← json_output_eq w (c_lit "{\n  \qempty\q: []\n}");
  ok b "Empty named array" [] ;;
  ok (negb (invalid_json w)) "Empty named array is valid" [].

Definition test_named_array_element_with_embedded_nul : tap () :=
  let value_with_nul := c_lit "a\0b" in
  let expected := c_lit "{\n  \qarr\q: [\n    \qa\0b\q\n  ]\n}" in
  let w := run [start_object; add_member (c_lit "arr"); start_array;
                add_str_len value_with_nul (length value_with_nul); end_array; end_object] in
  b ← json_output_eq_len w expected (length expected);
  ok b "Named array element with embedded NUL is preserved" [] ;;
  ok (negb (invalid_json w)) "Embedded-NUL array element keeps writer valid" [].

Definition test_single_line_helper_flushes_buffered_values : tap () :=
  let w := run [start_object; add_member (c_lit "arr"); start_array; add_str (c_lit "first"); start_object;
                add_member (c_lit "k"); add_ll 1; end_object; end_array; end_object] in
  b ← json_output_eq w (c_lit "{\n  \qarr\q: [\n    \qfirst\q,\n    {\n      \qk\q: 1\n    }\n  ]\n}");
  ok b "Single-line helper flushes buffered values before nested object" [] ;;
  ok (negb (invalid_json w)) "Nested object in named array stays valid" [].

Definition test_single_line_helper_falls_back : tap () :=
  let long_val := replicate 90 (byte_of 98) in
  let w := run [start_object; add_member (c_lit "arr"); start_array; add_str (c_lit "a"); add_str long_val;
                end_array; end_object] in
  let expected := c_lit "{\n  \qarr\q: [\n    \qa\q,\n    \q" ++ take 90 long_val ++ c_lit "\q\n  ]\n}" in
  b ← json_output_eq_len w expected (length expected);
  ok b "Single-line helper falls back when line length exceeds threshold" [] ;;
  ok (negb (invalid_json w)) "Long element fallback output stays valid" [].

Definition test_root_array_multi_line_format : tap () :=
  let w := run [start_array; add_str (c_lit "x"); add_str (c_lit "y"); end_array] in
  b ← json_output_eq w (c_lit "[\n  \qx\q,\n  \qy\q\n]");
  ok b "Root array: multi-line format" [] ;;
  ok (negb (invalid_json w)) "Root array is valid" [].

Definition test_nested_objects : tap () :=
  let w := run [start_object; add_member (c_lit "outer"); start_object; add_member (c_lit "inner"); add_str (c_lit
                "val"); end_object; end_object] in
  b ← json_output_eq w (c_lit "{\n  \qouter\q: {\n    \qinner\q: \qval\q\n  }\n}");
  ok b "Nested objects" [] ;;
  ok (negb (invalid_json w)) "Nested objects valid" [].

Definition test_object_with_array_of_objects : tap () :=
  let w := run [start_object; add_member (c_lit "items"); start_array; start_object; add_member (c_lit "x"); add_ll
                10; end_object; start_object; add_member (c_lit "x"); add_ll 20; end_object;
                end_array; end_object] in
  b ← json_output_eq w (c_lit "{\n  \qitems\q: [\n    {\n      \qx\q: 10\n    },\n    {\n      \qx\q: 20\n    }\n  ]\n}");
  ok b "Object with array of objects" [] ;;
  ok (negb (invalid_json w)) "Object with array of objects valid" [].

Definition test_complex_mixed_structure : tap () :=
  let w := run [start_object; add_member (c_lit "name"); add_str (c_lit "test"); add_member (c_lit "enabled");
                add_bool true; add_member (c_lit "config"); start_object; add_member (c_lit
                "timeout"); add_ll 30; add_member (c_lit "tags"); start_array; add_str (c_lit
                "fast"); add_str (c_lit "reliable"); end_array; end_object; add_member (c_lit
                "count"); add_ll 0; end_object] in
  b ← json_output_eq w (c_lit "{\n  \qname\q: \qtest\q,\n  \qenabled\q: true,\n  \qconfig\q: {\n    \qtimeout\q: 30,\n    \qtags\q: [\qfast\q, \qreliable\q]\n  },\n  \qcount\q: 0\n}");
  ok b "Complex mixed structure" [] ;;
  ok (negb (invalid_json w)) "Complex structure valid" [].

Definition test_json_writer_object_auto_closes_on : tap () :=
  let w := run [Json_writer_object None; add_member (c_lit "key"); add_str (c_lit "val"); destroy] in
  b ← json_output_eq w (c_lit "{\n  \qkey\q: \qval\q\n}");
  ok b "Json_writer_object auto-closes on destruction" [] ;;
  ok (negb (invalid_json w)) "RAII object valid" [].

Definition test_json_writer_object_fluent_add : tap () :=
  let w := run [Json_writer_object None; obj_add_str (c_lit "name") (c_lit "test"); obj_add_ll (c_lit "count") 7;
                obj_add_bool (c_lit "flag") true; destroy] in
  b ← json_output_eq w (c_lit "{\n  \qname\q: \qtest\q,\n  \qcount\q: 7,\n  \qflag\q: true\n}");
  ok b "Json_writer_object fluent add()" [] ;;
  ok (negb (invalid_json w)) "Fluent add valid" [].

Definition test_json_writer_object_add_ulonglong_preserves : tap () :=
  let w := run [Json_writer_object None; obj_add_ull (c_lit "u") ULLONG_MAX; destroy] in
  b ← json_output_eq w (c_lit "{\n  \qu\q: 18446744073709551615\n}");
  ok b "Json_writer_object add(ulonglong) preserves unsigned range" [] ;;
  ok (negb (invalid_json w)) "Json_writer_object add(ulonglong) stays valid" [].

Definition test_json_writer_object_explicit_end : tap () :=
  let w := run [Json_writer_object None; obj_add_ll (c_lit "a") 1; obj_end] in
  b ← json_output_eq w (c_lit "{\n  \qa\q: 1\n}");
  ok b "Json_writer_object explicit end()" [] ;;
  ok (negb (invalid_json w)) "Explicit end valid" [].

Definition test_json_writer_array_explicit_end : tap () :=
  let w := run [Json_writer_array None; arr_add_str (c_lit "x"); arr_end; destroy] in
  b ← json_output_eq w (c_lit "[\n  \qx\q\n]");
  ok b "Json_writer_array explicit end()" [] ;;
  ok (negb (invalid_json w)) "Json_writer_array explicit end stays valid" [].

Definition test_json_writer_array_auto_closes_on : tap () :=
  let w := run [Json_writer_array None; arr_add_str (c_lit "foo"); arr_add_str (c_lit "bar"); destroy] in
  b ← json_output_eq w (c_lit "[\n  \qfoo\q,\n  \qbar\q\n]");
  ok b "Json_writer_array auto-closes on destruction" [] ;;
  ok (negb (invalid_json w)) "RAII array valid" [].

Definition test_raii_array_add_ulonglong_output : tap () :=
  let w := run [Json_writer_array None; arr_add_ull 42; destroy] in
  b ← json_output_eq w (c_lit "[\n  42\n]");
  ok b "RAII array add(ulonglong) output" [] ;;
  ok (negb (invalid_json w)) "RAII array add(ulonglong) valid" [].

Definition test_nested_raii_json_writer_objects : tap () :=
  let w := run [Json_writer_object None; obj_add_str (c_lit "level") (c_lit "outer"); Json_writer_object (Some
                (c_lit "nested")); obj_add_str (c_lit "level") (c_lit "inner"); destroy; destroy] in
  b ← json_output_eq w (c_lit "{\n  \qlevel\q: \qouter\q,\n  \qnested\q: {\n    \qlevel\q: \qinner\q\n  }\n}");
  ok b "Nested RAII Json_writer_objects" [] ;;
  ok (negb (invalid_json w)) "Nested RAII valid" [].

Definition test_raii_array_inside_raii_object : tap () :=
  let w := run [Json_writer_object None; obj_add_str (c_lit "name") (c_lit "test"); Json_writer_array (Some (c_lit
                "values")); arr_add_str (c_lit "a"); arr_add_str (c_lit "b"); destroy; destroy] in
  b ← json_output_eq w (c_lit "{\n  \qname\q: \qtest\q,\n  \qvalues\q: [\qa\q, \qb\q]\n}");
  ok b "RAII array inside RAII object" [] ;;
  ok (negb (invalid_json w)) "RAII array in object valid" [].

Definition test_add_name_value_num_bytes_honors : tap () :=
  let w := run [Json_writer_object None; obj_add_str_len (c_lit "partial") (c_lit "hello world") 5; destroy] in
  b ← json_output_eq w (c_lit "{\n  \qpartial\q: \qhello\q\n}");
  ok b "add(name, value, num_bytes) honors length" [] ;;
  ok (negb (invalid_json w)) "add(name, value, num_bytes) produces valid JSON" [].

Definition test_limit_normal_append : tap () :=
  let sl := run_limit [append (c_lit "hello"); append (c_lit " world")] in
  ok (len (limit_string sl) =? 11) "Normal append: length == 11" [] ;;
  ok (limit_truncated sl =? 0) "Normal append: no truncation" [] ;;
  ok ((len (limit_string sl) =? 11) && bool_decide (limit_string sl = c_lit "hello world"))
    "Normal append: content correct" [].

Definition test_limit_truncation : tap () :=
  let sl := run_limit [limit 5; append (c_lit "hello world")] in
  ok (len (limit_string sl) =? 5) "Truncation: length capped at 5" [] ;;
  ok (limit_truncated sl =? 6) "Truncation: 6 bytes truncated" [] ;;
  ok ((len (limit_string sl) =? 5) && bool_decide (limit_string sl = c_lit "hello"))
    "Truncation: content is prefix" [].

Definition test_limit_multi_append : tap () :=
  let sl := run_limit [limit 5; append (c_lit "hi"); append (c_lit " there buddy")] in
  ok (len (limit_string sl) =? 5) "Multi-append truncation: length == 5" [] ;;
  ok (limit_truncated sl =? 9) "Multi-append truncation: 9 truncated" [] ;;
  ok ((len (limit_string sl) =? 5) && bool_decide (limit_string sl = c_lit "hi th"))
    "Multi-append truncation: correct partial content" [].

Definition test_limit_at_limit_overflow : tap () :=
  let sl := run_limit [limit 3; append (c_lit "abc"); append (c_lit "def")] in
  ok (len (limit_string sl) =? 3) "At-limit overflow: length == 3" [] ;;
  ok (limit_truncated sl =? 3) "At-limit overflow: 3 truncated" [].

Definition test_limit_char_append : tap () :=
  let sl := run_limit [limit 3; append_char (byte_of 97); append_char (byte_of 98); append_char (byte_of 99);
                       append_char (byte_of 100)] in
  ok (len (limit_string sl) =? 3) "Char append truncation: length == 3" [] ;;
  ok (limit_truncated sl =? 1) "Char append truncation: 1 truncated" [].

Definition test_size_limit : tap () :=
  let full := run [start_object; add_member (c_lit "longkey"); add_str (c_lit "longvalue"); end_object] in
  let limited := run [set_size_limit 10; start_object; add_member (c_lit "longkey"); add_str (c_lit "longvalue");
                      end_object] in
  ok (len (output limited) =? 10) "Size limit enforced on Json_writer" [] ;;
  ok (get_truncated_bytes limited =? (len (output full) - len (output limited)) mod 2 ^ 64)
    "Truncated byte count is exact" [].

Definition test_add_size_bytes_1024 : tap () :=
  let w := run [start_object; add_member (c_lit "size"); add_size 512; end_object] in
  b ← json_output_eq w (c_lit "{\n  \qsize\q: \q512\q\n}");
  ok b "add_size: bytes (< 1024)" [] ;;
  ok (negb (invalid_json w)) "add_size: bytes (< 1024) is valid" [].

Definition test_add_size_kib_value : tap () :=
  let w := run [start_object; add_member (c_lit "size"); add_size 2048; end_object] in
  b ← json_output_eq w (c_lit "{\n  \qsize\q: \q2KiB\q\n}");
  ok b "add_size: KiB value" [] ;;
  ok (negb (invalid_json w)) "add_size: KiB value is valid" [].

Definition test_add_size_mib_value : tap () :=
  let w := run [start_object; add_member (c_lit "size"); add_size (32 * 1024 * 1024); end_object] in
  b ← json_output_eq w (c_lit "{\n  \qsize\q: \q32MiB\q\n}");
  ok b "add_size: MiB value" [] ;;
  ok (negb (invalid_json w)) "add_size: MiB value is valid" [].

Definition test_add_size_boundary_formatting : tap () :=
  let mb16 := 16 * 1024 * 1024 in
  let w := run [start_object; add_member (c_lit "below_kb"); add_size 1023; add_member (c_lit "at_kb"); add_size 1024;
                add_member (c_lit "below_16mb"); add_size (mb16 - 1); add_member (c_lit "at_16mb"); add_size mb16;
                end_object] in
  b ← json_output_eq w (c_lit "{\n  \qbelow_kb\q: \q1023\q,\n  \qat_kb\q: \q1KiB\q,\n  \qbelow_16mb\q: \q16383KiB\q,\n  \qat_16mb\q: \q16MiB\q\n}");
  ok b "add_size boundary formatting" [] ;;
  ok (negb (invalid_json w)) "add_size boundary formatting is valid" [].

Definition test_add_str_with_string_object : tap () :=
  let s := take 5 (c_lit "hello") in
  let w := run [start_object; add_member (c_lit "msg"); add_String s None; end_object] in
  b ← json_output_eq w (c_lit "{\n  \qmsg\q: \qhello\q\n}");
  ok b "add_str with String object" [] ;;
  ok (negb (invalid_json w)) "add_str with String object is valid" [].

Definition main : tap () :=
  plan 130 ;;
  diag "Testing Json_writer checks" [] ;;
  test_started_a_name_but_didn_t ;;
  test_unnamed_value_in_an_object ;;
  test_named_member_in_array ;;
  test_unnamed_array_in_an_object ;;
  test_unnamed_object_in_an_object ;;
  test_named_object_in_an_array ;;
  test_named_array_in_an_array ;;
  test_json_object_end_of_array ;;
  test_json_array_end_of_object ;;
  test_valid_json_nested_object_member_name ;;
  diag "Testing Json_writer output" [] ;;
  test_empty_object ;;
  test_empty_array ;;
  test_string_value ;;
  test_empty_string_value ;;
  test_string_with_embedded_quote_no_escaping ;;
  test_latin_1_encoded_string ;;
  test_utf_8_mb4_encoded_string ;;
  test_positive_longlong_value ;;
  test_negative_longlong_value ;;
  test_llong_max ;;
  test_llong_min ;;
  test_ullong_max ;;
  test_bool_true ;;
  test_null_value ;;
  test_double_value ;;
  test_double_zero ;;
  test_double_negative_zero ;;
  test_double_very_small_value ;;
  test_double_very_large_value ;;
  test_object_with_multiple_typed_members ;;
  test_key_with_spaces ;;
  test_key_with_latin_1_byte ;;
  test_key_with_embedded_quote_no_escaping ;;
  test_empty_key_name ;;
  test_add_member_uses_explicit_key_length ;;
  test_add_member_preserves_embedded_nul ;;
  test_duplicate_key_output ;;
  test_named_string_array_single_line_format ;;
  test_named_array_with_single_element ;;
  test_empty_named_array ;;
  test_named_array_element_with_embedded_nul ;;
  test_single_line_helper_flushes_buffered_values ;;
  test_single_line_helper_falls_back ;;
  test_root_array_multi_line_format ;;
  test_nested_objects ;;
  test_object_with_array_of_objects ;;
  test_complex_mixed_structure ;;
  diag "Testing RAII wrappers" [] ;;
  test_json_writer_object_auto_closes_on ;;
  test_json_writer_object_fluent_add ;;
  test_json_writer_object_add_ulonglong_preserves ;;
  test_json_writer_object_explicit_end ;;
  test_json_writer_array_explicit_end ;;
  test_json_writer_array_auto_closes_on ;;
  test_raii_array_add_ulonglong_output ;;
  test_nested_raii_json_writer_objects ;;
  test_raii_array_inside_raii_object ;;
  test_add_name_value_num_bytes_honors ;;
  diag "Testing String_with_limit" [] ;;
  test_limit_normal_append ;;
  test_limit_truncation ;;
  test_limit_multi_append ;;
  test_limit_at_limit_overflow ;;
  test_limit_char_append ;;
  diag "Testing Json_writer size limit" [] ;;
  test_size_limit ;;
  diag "Testing add_size formatting" [] ;;
  test_add_size_bytes_1024 ;;
  test_add_size_kib_value ;;
  test_add_size_mib_value ;;
  test_add_size_boundary_formatting ;;
  diag "Testing add_str overloads" [] ;;
  test_add_str_with_string_object ;;
  diag "Done" [].

End suite.
