(* ===== verification/JsonWriterFacts.v ===== *)
(** The theorems on the tests of [JsonWriterSuite]: the comparison helpers decide equality and report the first
    difference, and the program makes the 130 checks it announces, whatever the writer does.  Nothing is shown of the
    outcome of the checks, which is the writer's. *)

From S2P Require Import Prelude Tap JsonWriterSuite.
Open Scope Z_scope.

(** * The comparison helpers *)

Section helpers.
Context `{lib : json_writer_lib}.

Lemma json_output_eq_gives w expected :
  gives (json_output_eq w expected)
    (bool_decide (output w = take (length (c_string expected)) expected)) [].
Proof.
  unfold json_output_eq. destruct (decide (output w = take (length (c_string expected)) expected)) as [H|H].
  - rewrite bool_decide_true by done. rewrite andb_true_r.
    assert (length (c_string expected) ≤ length expected)%nat.
    { clear. induction expected as [|c e IH]; [done|]. cbn. destruct (decide _); cbn; lia. }
    rewrite (proj2 (Nat.eqb_eq _ _)) by (rewrite H, length_take; lia). apply gives_ret.
  - rewrite bool_decide_false by done. rewrite andb_false_r. done.
Qed.

Lemma first_mismatch_gives i s e : gives (first_mismatch i s e) () [].
Proof.
  revert i e. induction s as [|c s IH]; intros i [|d e]; try apply gives_ret.
  cbn [first_mismatch]. destruct (decide (c = d)); [apply IH|apply gives_diag].
Qed.

Lemma json_output_eq_len_gives w expected n :
  (n ≤ length expected)%nat →
  gives (json_output_eq_len w expected n) (bool_decide (output w = take n expected)) [].
Proof.
  intros Hn. unfold json_output_eq_len. destruct (decide (output w = take n expected)) as [H|H].
  - rewrite bool_decide_true by done. rewrite andb_true_r.
    rewrite (proj2 (Nat.eqb_eq _ _)) by (rewrite H, length_take; lia). apply gives_ret.
  - rewrite bool_decide_false by done. rewrite andb_false_r.
    apply (gives_bind _ _ () _ []); [apply gives_diag|]. apply (gives_bind _ _ () _ []); [apply gives_diag|].
    apply (gives_bind _ _ () _ []); [apply first_mismatch_gives|apply gives_ret].
Qed.

(** The report of the loop: nothing if the strings agree, the first position where they differ otherwise. *)
Lemma first_mismatch_events i s e :
  length s = length e →
  outcome (first_mismatch i s e) (λ _ t,
    (s = e ∧ t = []) ∨
    ∃ k x y, s !! k = Some x ∧ e !! k = Some y ∧ x ≠ y ∧ take k s = take k e ∧
      t = [Diag "  First mismatch at byte %d: expected 0x%02x, actual 0x%02x"
             [ArgD (i + Z.of_nat k); ArgD (byte_val y); ArgD (byte_val x)]]).
Proof.
  revert i e. induction s as [|c s IH]; intros i [|d e] Hl; try done; [by left|].
  cbn [first_mismatch]. destruct (decide (c = d)) as [<-|Hne].
  - eapply outcome_mono; [|apply (IH (i + 1) e); by injection Hl]. intros _ t [[-> ->]|(k & x & y & Hx & Hy & Hxy & Ht & ->)].
    + by left.
    + right. exists (S k), x, y. cbn. rewrite Ht. split_and!; try done. do 4 f_equal. lia.
  - right. exists 0%nat, c, d. split_and!; try done. cbn. by rewrite Z.add_0_r.
Qed.

End helpers.

(** * The number of checks *)

(** A function that makes [n] checks whatever the outcome of each. *)
Definition makes_checks (n : nat) (m : tap ()) : Prop := ∃ vs, length vs = n ∧ gives m () vs.

Lemma makes_checks_seq n k (m m' : tap ()) :
  makes_checks n m → makes_checks k m' → makes_checks (n + k) (m ;; m').
Proof.
  intros (vs & <- & Hm) (ws & <- & Hm'). exists (vs ++ ws). split; [apply length_app|]. by eapply gives_bind.
Qed.

Lemma makes_checks_after {A} k (m : tap A) a (m' : A → tap ()) :
  gives m a [] → makes_checks k (m' a) → makes_checks k (m ≫= m').
Proof. intros Hm (ws & <- & Hm'). exists ws. split; [done|]. by apply (gives_bind m m' a () [] ws). Qed.

Lemma makes_checks_ok b fmt args : makes_checks 1 (ok b fmt args).
Proof. exists [b]. split; [done|apply gives_ok]. Qed.

Lemma makes_checks_diag fmt args : makes_checks 0 (diag fmt args).
Proof. exists []. split; [done|apply gives_diag]. Qed.

(** Counts the checks of a function, unfolding the blocks it is made of. *)
Ltac count_checks :=
  lazymatch goal with
  | |- makes_checks _ (ok _ _ _) => apply makes_checks_ok
  | |- makes_checks _ (diag _ _) => apply makes_checks_diag
  | |- makes_checks _ (json_output_eq _ _ ≫= _) =>
      eapply makes_checks_after; [apply json_output_eq_gives|count_checks]
  | |- makes_checks _ (json_output_eq_len _ _ _ ≫= _) =>
      eapply makes_checks_after; [apply json_output_eq_len_gives; done|count_checks]
  | |- makes_checks _ (_ ≫= _) => eapply makes_checks_seq; count_checks
  | |- makes_checks _ ?m => unfold_block m; cbv zeta; count_checks
  end
with unfold_block m :=
  lazymatch m with
  | ?f _ => unfold_block f
  | ?f => unfold f
  end.

(** * Theorems *)

Lemma main_plan_kept `{lib : json_writer_lib} :
  outcome main (λ _ t, plans t = [130] ∧ length (verdicts t) = 130%nat).
Proof.
  unfold main. assert (∀ k (m : tap ()), makes_checks k m →
    outcome (plan 130 ;; m) (λ _ t, plans t = [130] ∧ length (verdicts t) = k)) as Hp.
  { intros k m (vs & <- & Hm). eapply outcome_mono, (outcome_planned 130 _ _ _ Hm). by intros [] t (_ & -> & ->). }
  eapply outcome_mono; [|eapply Hp; count_checks]. intros _ t [-> ->]. done.
Qed.

(** [json_output_eq_len] decides equality of the writer's output with the first [expected_len] expected bytes; it
    makes no check, and if the texts differ inside their common prefix its last report names the first differing
    position with the two bytes found there, expected before actual. *)
Theorem json_output_eq_len_report `{lib : json_writer_lib} w expected n :
  (n ≤ length expected)%nat →
  outcome (json_output_eq_len w expected n) (λ b t,
    b = bool_decide (output w = take n expected) ∧ verdicts t = [] ∧
    ∀ k x y, output w !! k = Some x → take n expected !! k = Some y → x ≠ y →
      take k (output w) = take k expected →
      last t = Some (Diag "  First mismatch at byte %d: expected 0x%02x, actual 0x%02x"
                       [ArgD (Z.of_nat k); ArgD (byte_val y); ArgD (byte_val x)])).
Proof.
  intros Hn. unfold json_output_eq_len. set (s := output w).
  destruct (decide (s = take n expected)) as [Hs|Hs].
  { rewrite bool_decide_true, andb_true_r by done.
    rewrite (proj2 (Nat.eqb_eq _ _)) by (rewrite Hs, length_take; lia). apply outcome_ret.
    split_and!; try done. intros k x y Hx Hy Hne. rewrite Hs in Hx. congruence. }
  rewrite bool_decide_false, andb_false_r by done. apply outcome_bind, outcome_emit, outcome_bind, outcome_emit.
  set (m := if _ : bool then _ else _).
  assert (m ≤ length s ∧ m ≤ n ∧ (m = length s ∨ m = n))%nat as (Hms & Hmn & Hm).
  { unfold m. destruct (Nat.ltb_spec (length s) n); lia. }
  apply outcome_bind. eapply outcome_mono; [|apply first_mismatch_events; rewrite !length_take; lia].
  cbn beta. intros _ t Ht. apply outcome_ret. split; [done|]. rewrite app_nil_r. cbn [app].
  assert (∀ k x y, s !! k = Some x → take n expected !! k = Some y → k < m)%nat as Hk.
  { intros k x y Hx%lookup_lt_Some Hy%lookup_lt_Some. rewrite length_take in Hy. lia. }
  destruct Ht as [[Heq ->]|(k & x & y & Hx & Hy & Hne & Hpre & ->)].
  - split; [done|]. intros k x y Hx Hy Hne _. exfalso. apply Hne.
    pose proof (Hk _ _ _ Hx Hy). apply (f_equal (.!! k)) in Heq.
    rewrite !lookup_take in Heq. rewrite lookup_take in Hy. repeat case_decide; congruence || lia.
  - split; [done|]. cbn [last app]. intros k' x' y' Hx' Hy' Hne' Hpre'.
    pose proof (Hk _ _ _ Hx' Hy') as Hk'.
    rewrite lookup_take in Hx, Hy, Hy'. repeat case_decide; try done.
    rewrite !take_take, !Nat.min_l in Hpre by lia.
    assert (k = k') as ->.
    { apply Nat.le_antisymm; apply Nat.nlt_ge; intros Hlt.
      - apply Hne'. apply (f_equal (.!! k')) in Hpre. rewrite !lookup_take in Hpre.
        repeat case_decide; congruence || lia.
      - apply Hne. apply (f_equal (.!! k)) in Hpre'. rewrite !lookup_take in Hpre'.
        repeat case_decide; congruence || lia. }
    rewrite Z.add_0_l. congruence.
Qed.

(** A writer that shows the last string it was given, to run the helper on. *)
Definition last_string : json_writer_lib := {|
  Json_writer := bytes;
  writer_init := [];
  writer_call w c := match c with add_str s => s | _ => w end;
  invalid_json _ := false;
  output w := w;
  get_truncated_bytes _ := 0;
  String_with_limit := ();
  limit_init := ();
  limit_step l _ := l;
  limit_string _ := [];
  limit_truncated _ := 0;
|}.

(** [json_output_eq_len_report] on an output that differs from the expected text at its second byte. *)
Lemma json_output_eq_len_report_witness :
  outcome (@json_output_eq_len last_string (@run last_string [add_str (B "{}")]) (B "{]") 2) (λ b t,
    b = false ∧
    last t = Some (Diag "  First mismatch at byte %d: expected 0x%02x, actual 0x%02x" [ArgD 1; ArgD 93; ArgD 125])).
Proof.
  eapply outcome_mono; [|apply (@json_output_eq_len_report last_string (@run last_string [add_str (B "{}")])
                                  (B "{]") 2); cbn; lia].
  intros b t (-> & _ & H). split; [reflexivity|]. by apply (H 1%nat (byte_of 125) (byte_of 93)).
Defined.

(** Whatever the writer does, the program announces 130 checks and makes exactly 130, and never reaches undefined
    behaviour. *)
Theorem main_makes_130_checks `{lib : json_writer_lib} : plan_kept main.
Proof. eapply outcome_mono; [|apply main_plan_kept]. by intros _ t [-> ->]. Qed.
