(* ===== verification/SyncFacts.v ===== *)
(** The discipline of the thread functions of [SyncSuite] and what it gives: no assertion fails, two threads are
    never in a critical section at once, and every interleaving ends with all threads returned. *)

From S2P Require Import Prelude SyncSuite.
Open Scope nat_scope.

(** * The discipline *)

(** A thread that holds the lock in shared mode only does not wait for anything but leaves. *)
Definition shared_only (h : hold) : bool := (0 <? s_count h) && (u_count h =? 0) && (x_count h =? 0).

Definition releases (o : op) : bool := match o with rd_unlock | s_unlock => true | _ => false end.

(** The holdings and the position inside or outside the critical section after a piece of code, if at every
    statement the call is legal for the mode held, an assertion is made under the lock and outside the critical
    section, the critical section is entered under the exclusive lock and the exclusive lock is kept in it. *)
Fixpoint check_stmt (st : hold * bool) (t : stmt) {struct t} : option (hold * bool) :=
  match t with
  | Call o =>
      h' ← effect o st.1;
      if (negb st.2 || (0 <? x_count h')) && (negb (shared_only st.1) || releases o) then Some (h', st.2) else None
  | AssertNotCritical => if negb (bool_decide (st.1 = none)) && negb st.2 then Some st else None
  | Critical true => if (0 <? x_count st.1) && negb st.2 then Some (st.1, true) else None
  | Critical false => if st.2 then Some (st.1, false) else None
  | IfUpgradeTry body =>
      if bool_decide (st = (Hold 1 0 0, false)) then
        match (fix check_body (st : hold * bool) (k : list stmt) {struct k} : option (hold * bool) :=
                 match k with
                 | [] => Some st
                 | t :: k' => match check_stmt st t with Some st' => check_body st' k' | None => None end
                 end) (Hold 1 1 0, false) body with
        | Some r => if bool_decide (r = st) then Some st else None
        | None => None
        end
      else None
  | SXUpgrade => if bool_decide (st = (Hold 1 0 0, false)) then Some (Hold 0 0 1, false) else None
  end.

Fixpoint check (st : hold * bool) (k : list stmt) : option (hold * bool) :=
  match k with
  | [] => Some st
  | t :: k' => match check_stmt st t with Some st' => check st' k' | None => None end
  end.

(** A thread function that starts and ends without holding the lock. *)
Definition well_typed (code : list stmt) : Prop := check (none, false) code = Some (none, false).

Lemma check_app st k k' : check st (k ++ k') = check st k ≫= λ st', check st' k'.
Proof.
  revert st. induction k as [|t k IH]; intros st; [done|]. cbn. destruct (check_stmt st t); [|done]. cbn. apply IH.
Qed.

Lemma check_try st body k :
  check st (IfUpgradeTry body :: k) =
  if bool_decide (st = (Hold 1 0 0, false)) then
    r ← check (Hold 1 1 0, false) body; if bool_decide (r = st) then check st k else None
  else None.
Proof.
  cbn. destruct (bool_decide (st = (Hold 1 0 0, false))); [|done]. fold check.
  destruct (check (Hold 1 1 0, false) body) as [r|]; [|done]. cbn. by destruct (bool_decide (r = st)).
Qed.

Lemma check_repeat st n body : check st body = Some st → check st (repeat_body n body) = Some st.
Proof. intros H. induction n as [|n IH]; [done|]. cbn. rewrite check_app, H. done. Qed.

(** The recursive acquisitions and releases of [test_sux_lock]. *)
Lemma check_x_locks n x : check (Hold 0 0 (S x), true) (repeat_body n [Call x_lock]) = Some (Hold 0 0 (n + S x), true).
Proof. revert x. induction n as [|n IH]; intros x; [done|]. cbn in *. rewrite IH. do 3 f_equal. lia. Qed.

Lemma check_x_unlocks n x : check (Hold 0 0 (n + x), false) (repeat_body n [Call x_unlock]) = Some (Hold 0 0 x, false).
Proof. revert x. induction n as [|n IH]; intros x; [done|]. cbn in *. apply IH. Qed.

Lemma phases_typed : Forall (λ p, well_typed p.2) phases.
Proof.
  unfold phases. repeat apply Forall_cons_2; try apply Forall_nil_2; unfold well_typed; cbn [snd].
  - by apply check_repeat.
  - apply check_repeat. rewrite check_app. cbn [check check_stmt mbind option_bind effect]. by apply check_repeat.
  - apply check_repeat. rewrite check_app. change (check (none, false) [_; _; _; _; _]) with (Some (none, false)).
    cbn [mbind option_bind]. rewrite check_app, check_repeat by done. cbn [mbind option_bind].
    rewrite check_app, check_repeat by done. cbn [mbind option_bind]. by apply check_repeat.
  - apply check_repeat. rewrite check_app. change (check (none, false) [_; _; _]) with (Some (Hold 0 0 1, true)).
    cbn [mbind option_bind]. rewrite check_app, check_x_locks. cbn [mbind option_bind].
    rewrite check_app. change (check (Hold 0 0 (M_ROUNDS + 1), true) [Critical false])
      with (Some (Hold 0 0 (M_ROUNDS + 1), false)). cbn [mbind option_bind].
    pose proof (check_x_unlocks (M_ROUNDS + 1) 0) as Hu. rewrite Nat.add_0_r in Hu.
    rewrite check_app, Hu. cbn [mbind option_bind]. change (Hold 0 0 0) with none.
    rewrite check_app, check_repeat by done. cbn [mbind option_bind]. by apply check_repeat.
Qed.

(** * The invariant *)

Lemma compatible_none_r h : compatible h none.
Proof. unfold compatible, none. cbn. intuition lia. Qed.

Lemma compatible_sym h k : compatible h k → compatible k h.
Proof. unfold compatible. intuition. Qed.

Section soundness.
Context `{L : rw_lock} `{Hlaws : !rw_lock_laws L}.

(** [cs] says which threads are inside their critical section. *)
Record inv (C : config) (cs : nat → bool) : Prop := {
  inv_typed i k : threads C !! i = Some k → check (held (the_lock C) i, cs i) k = Some (none, false);
  inv_idle i : threads C !! i = None → held (the_lock C) i = none ∧ cs i = false;
  inv_compatible i j : i ≠ j → compatible (held (the_lock C) i) (held (the_lock C) j);
  inv_exclusive i : cs i = true → 0 < x_count (held (the_lock C) i);
  inv_flag : critical C = true ↔ ∃ i, cs i = true;
  inv_ok : aborted C = false;
}.

Lemma inv_start n code : well_typed code → inv (start n code) (λ _, false).
Proof.
  intros Hc. split; cbn; try done.
  - intros i k Hk. apply lookup_replicate in Hk as [-> _]. by rewrite fresh_free.
  - intros i _. by rewrite fresh_free.
  - intros i j _. rewrite !fresh_free. apply compatible_none_r.
  - split; [done|]. by intros [].
Qed.

(** Two threads are never in the critical section at once. *)
Lemma inv_unique C cs i j : inv C cs → cs i = true → cs j = true → i = j.
Proof.
  intros HI Hi Hj. destruct (decide (i = j)) as [|Hne]; [done|].
  pose proof (inv_exclusive _ _ HI i Hi) as Hx. pose proof (inv_exclusive _ _ HI j Hj) as Hy.
  destruct (inv_compatible _ _ HI i j Hne) as [Hc _]. rewrite (Hc Hx) in Hy. cbn in Hy. lia.
Qed.

(** A step of thread [i] that changes the lock and its remaining code. *)
Lemma inv_update σ σ' c a ts cs i k k' :
  inv (Config σ c a ts) cs → ts !! i = Some k →
  (∀ j, j ≠ i → held σ' j = held σ j) →
  (∀ j, j ≠ i → compatible (held σ i) (held σ j) → compatible (held σ' i) (held σ' j)) →
  check (held σ' i, cs i) k' = Some (none, false) →
  (cs i = true → 0 < x_count (held σ' i)) →
  inv (Config σ' c a (<[i := k']> ts)) cs.
Proof.
  intros [Ht Hi Hc He Hf Ho] Hk Hoth Hcomp Hck Hx. cbn in *. split; cbn; try done.
  - intros j kj. destruct (decide (j = i)) as [->|Hne].
    + rewrite list_lookup_insert_eq by (by eapply lookup_lt_Some). by intros [= <-].
    + rewrite list_lookup_insert_ne by done. rewrite Hoth by done. apply Ht.
  - intros j Hj. destruct (decide (j = i)) as [->|Hne].
    + rewrite list_lookup_insert_eq in Hj by (by eapply lookup_lt_Some). done.
    + rewrite list_lookup_insert_ne in Hj by done. rewrite Hoth by done. by apply Hi.
  - intros j l Hne. destruct (decide (j = i)) as [->|Hji]; [by apply Hcomp, Hc|].
    destruct (decide (l = i)) as [->|Hli]; [apply compatible_sym; by apply Hcomp, Hc|].
    rewrite !Hoth by done. by apply Hc.
  - intros j Hj. destruct (decide (j = i)) as [->|Hne]; [by apply Hx|]. rewrite Hoth by done. by apply He.
Qed.

(** The code of a thread whose next statement is a call. *)
Lemma check_call st o k r :
  check st (Call o :: k) = Some r →
  ∃ h, effect o st.1 = Some h ∧ (st.2 = true → 0 < x_count h) ∧ (shared_only st.1 = true → releases o = true) ∧
       check (h, st.2) k = Some r.
Proof.
  cbn. destruct (effect o st.1) as [h|]; [|done]. cbn.
  destruct ((_ || _) && _) eqn:Hg; [|done]. intros H. exists h. split; [done|].
  apply andb_true_iff in Hg as [Hg1 Hg2]. split; [|split; [|done]].
  - intros Hs. rewrite Hs in Hg1. by apply Nat.ltb_lt.
  - intros Hs. by rewrite Hs in Hg2.
Qed.

Lemma inv_call σ σ' c a ts cs i o k :
  inv (Config σ c a ts) cs → ts !! i = Some (Call o :: k) → call σ i o σ' →
  inv (Config σ' c a (<[i := k]> ts)) cs.
Proof.
  intros HI Hk Hc. destruct (check_call _ _ _ _ (inv_typed _ _ HI i _ Hk)) as (h & Hh & Hx & _ & Hck).
  cbn in *. rewrite (call_effect _ _ _ _ Hc) in Hh. injection Hh as <-.
  eapply inv_update; [exact HI|exact Hk| | |done|done].
  - intros j. by eapply call_others.
  - intros j. by eapply call_excludes.
Qed.

Lemma inv_assert σ c a ts cs i k :
  inv (Config σ c a ts) cs → ts !! i = Some (AssertNotCritical :: k) →
  inv (Config σ c (a || c) (<[i := k]> ts)) cs.
Proof.
  intros HI Hk. pose proof (inv_typed _ _ HI i _ Hk) as Ht. cbn in Ht.
  destruct (negb _ && negb _) eqn:Hg; [|done]. apply andb_true_iff in Hg as [Hn Hcs].
  apply negb_true_iff, bool_decide_eq_false_1 in Hn. apply negb_true_iff in Hcs.
  assert (c = false) as ->.
  { destruct c; [|done]. destruct (proj1 (inv_flag _ _ HI) eq_refl) as [j Hj].
    assert (j ≠ i) by (intros ->; congruence).
    destruct (inv_compatible _ _ HI j i) as [Hx _]; [done|]. contradict Hn. apply Hx. by apply (inv_exclusive _ _ HI). }
  rewrite orb_false_r. eapply inv_update; [exact HI|exact Hk|done|by auto|done|]. congruence.
Qed.

Lemma inv_critical σ c a ts cs i b k :
  inv (Config σ c a ts) cs → ts !! i = Some (Critical b :: k) →
  inv (Config σ b a (<[i := k]> ts)) (λ j, if decide (j = i) then b else cs j).
Proof.
  intros HI Hk. pose proof (inv_typed _ _ HI i _ Hk) as Ht. cbn in Ht.
  assert (check (held σ i, b) k = Some (none, false) ∧ (b = true → 0 < x_count (held σ i)) ∧ cs i = negb b)
    as (Hck & Hx & Hcs).
  { destruct b; cbn in Ht.
    - destruct (_ && _) eqn:Hg; [|done]. apply andb_true_iff in Hg as [Hg1 Hg2%negb_true_iff].
      split_and!; try done. intros _. by apply Nat.ltb_lt.
    - destruct (cs i) eqn:Hg; [|done]. done. }
  destruct HI as [HT HD HC HE HF HO]. cbn in *. split; cbn; try done.
  - intros j kj. destruct (decide (j = i)) as [->|Hne].
    + rewrite list_lookup_insert_eq by (by eapply lookup_lt_Some). by intros [= <-].
    + rewrite list_lookup_insert_ne by done. apply HT.
  - intros j Hj. destruct (decide (j = i)) as [->|Hne].
    + rewrite list_lookup_insert_eq in Hj by (by eapply lookup_lt_Some). done.
    + rewrite list_lookup_insert_ne in Hj by done. by apply HD.
  - intros j. destruct (decide (j = i)) as [->|]; [done|apply HE].
  - split.
    + intros ->. exists i. by rewrite decide_True.
    + intros [j Hj]. destruct (decide (j = i)); [done|]. destruct b; [done|]. exfalso.
      pose proof (HE i Hcs) as Hxi.
      destruct (HC i j) as [Hc _]; [done|]. pose proof (HE j Hj) as Hxj. rewrite Hc in Hxj by done. cbn in Hxj. lia.
Qed.

Lemma inv_try σ σ' c a ts cs i body k b :
  inv (Config σ c a ts) cs → ts !! i = Some (IfUpgradeTry body :: k) → rd_u_upgrade_try σ i b σ' →
  inv (Config σ' c a (<[i := if b : bool then body ++ k else k]> ts)) cs.
Proof.
  intros HI Hk Hc. pose proof (inv_typed _ _ HI i _ Hk) as Ht. rewrite check_try in Ht.
  case_bool_decide as Hst; [|done]. injection Hst as Hh Hcs. cbn in Hh, Hcs.
  destruct (check (Hold 1 1 0, false) body) as [r|] eqn:Hb; [|done]. cbn in Ht. case_bool_decide as Hr; [|done].
  pose proof (try_effect _ _ _ _ Hc) as Heff. rewrite Hh in Heff. cbn in Heff.
  eapply inv_update; [exact HI|exact Hk| | | |congruence].
  - intros j. by eapply try_others.
  - intros j. by eapply try_excludes.
  - rewrite Heff, Hcs in *. destruct b; [|by rewrite Hh in Ht]. rewrite check_app, Hb. cbn. by rewrite Hr, Hh in *.
Qed.

Lemma check_upgrade st k r :
  check st (SXUpgrade :: k) = Some r → st = (Hold 1 0 0, false) ∧ check (Hold 0 0 1, false) k = Some r.
Proof. cbn. case_bool_decide; [|done]. done. Qed.

Lemma inv_upgrade σ σ' c a ts cs i o k k' :
  inv (Config σ c a ts) cs → ts !! i = Some (SXUpgrade :: k) → call σ i o σ' →
  (o = s_u_upgrade ∧ k' = Call u_x_upgrade :: k) ∨ (o = s_unlock ∧ k' = Call x_lock :: k) →
  inv (Config σ' c a (<[i := k']> ts)) cs.
Proof.
  intros HI Hk Hc Hok. destruct (check_upgrade _ _ _ (inv_typed _ _ HI i _ Hk)) as [[= Hh Hcs] Hck]. cbn in *.
  pose proof (call_effect _ _ _ _ Hc) as Heff. rewrite Hh in Heff.
  eapply inv_update; [exact HI|exact Hk| | | |congruence].
  - intros j. by eapply call_others.
  - intros j. by eapply call_excludes.
  - rewrite Hcs. destruct Hok as [[-> ->]|[-> ->]]; cbn in Heff; injection Heff as <-; done.
Qed.

Lemma step_inv C C' cs : step C C' → inv C cs → ∃ cs', inv C' cs'.
Proof.
  destruct 1; intros HI.
  - exists cs. by eapply inv_call.
  - exists cs. by eapply inv_assert.
  - eexists. by eapply inv_critical.
  - exists cs. by eapply inv_try.
  - exists cs. eapply inv_upgrade; eauto.
  - exists cs. eapply inv_upgrade; eauto.
Qed.

Lemma reachable_inv n code C : well_typed code → reachable (start n code) C → ∃ cs, inv C cs.
Proof.
  intros Hc. induction 1 as [|C C' _ [cs HI] Hs]; [eexists; by apply inv_start|]. by eapply step_inv.
Qed.

(** * Progress *)

(** A thread that still holds the lock has something left to do. *)
Lemma holder_code C cs i : inv C cs → held (the_lock C) i ≠ none → ∃ t k, threads C !! i = Some (t :: k).
Proof.
  intros HI Hh. destruct (threads C !! i) as [[|t k]|] eqn:Hk; [|eauto|].
  - pose proof (inv_typed _ _ HI i _ Hk) as Ht. cbn in Ht. congruence.
  - destruct (inv_idle _ _ HI i Hk). done.
Qed.

(** The next statement of thread [i] can be executed if its call, should it be one, conflicts with nobody. *)
Lemma can_step C cs i t k :
  inv C cs → threads C !! i = Some (t :: k) →
  (∀ o h, t = Call o → effect o (held (the_lock C) i) = Some h →
    (held (the_lock C) i ≠ none ∨ ∀ j, held (the_lock C) j = none) ∧
    ∀ j, j ≠ i → compatible h (held (the_lock C) j)) →
  ∃ C', step C C'.
Proof.
  intros HI Hk Hcall. destruct C as [σ c a ts]. cbn in *.
  pose proof (inv_typed _ _ HI i _ Hk) as Ht. cbn [the_lock] in Ht. destruct t as [o| |b|body|].
  - destruct (check_call _ _ _ _ Ht) as (h & Hh & _). cbn in Hh. destruct (Hcall o h eq_refl Hh) as [Hor Hc].
    destruct (call_returns σ i o h Hh Hc Hor) as [σ' Hs]. eexists. by eapply step_call.
  - eexists. by apply (step_assert _ _ _ _ i k).
  - eexists. by apply (step_critical _ _ _ _ i b k).
  - destruct (try_returns σ i) as (b & σ' & Hs). eexists. by eapply step_try.
  - destruct (check_upgrade _ _ _ Ht) as [[= Hh _] _].
    destruct (call_returns σ i s_unlock none) as [σ' Hs].
    + by rewrite Hh.
    + intros j _. apply compatible_sym, compatible_none_r.
    + left. by rewrite Hh.
    + eexists. by eapply step_release.
Qed.

Lemma exclusive_holder_steps C cs i : inv C cs → 0 < x_count (held (the_lock C) i) → ∃ C', step C C'.
Proof.
  intros HI Hx. destruct (holder_code C cs i HI) as (t & k & Hk); [intros E; rewrite E in Hx; cbn in Hx; lia|].
  eapply can_step; [done..|]. intros o h -> Hh. split; [left; intros E; rewrite E in Hx; cbn in Hx; lia|].
  intros j Hj. destruct (inv_compatible _ _ HI i j) as [Hc _]; [done|]. rewrite Hc by done. apply compatible_none_r.
Qed.

Lemma releases_effect o h h' :
  releases o = true → shared_only h = true → effect o h = Some h' → u_count h' = 0 ∧ x_count h' = 0.
Proof.
  destruct h as [s u x]. unfold shared_only. cbn. intros Ho Hs.
  apply andb_true_iff in Hs as [Hs Hx%Nat.eqb_eq]. apply andb_true_iff in Hs as [Hs Hu%Nat.eqb_eq]. subst.
  destruct o; try done; cbn; destruct s; try done; by intros [= <-].
Qed.

(** A thread that holds the lock in shared mode only can always go on. *)
Lemma shared_holder_steps C cs i : inv C cs → shared_only (held (the_lock C) i) = true → ∃ C', step C C'.
Proof.
  intros HI Hs. assert (held (the_lock C) i ≠ none) as Hne by (intros E; by rewrite E in Hs).
  destruct (holder_code C cs i HI Hne) as (t & k & Hk).
  eapply can_step; [done..|]. intros o h -> Hh. split; [by left|]. intros j Hj.
  destruct (check_call _ _ _ _ (inv_typed _ _ HI i _ Hk)) as (_ & _ & _ & Hr & _).
  destruct (releases_effect o _ h (Hr Hs) Hs Hh) as [Hu Hx].
  destruct (inv_compatible _ _ HI i j) as (_ & Hc & _); [done|].
  split_and!; [lia| |by left]. intros Hxj. by destruct Hne; apply Hc.
Qed.

Lemma update_holder_steps C cs i :
  inv C cs → (∀ j, x_count (held (the_lock C) j) = 0) → 0 < u_count (held (the_lock C) i) → ∃ C', step C C'.
Proof.
  intros HI Hnx Hu. assert (held (the_lock C) i ≠ none) as Hne by (intros E; rewrite E in Hu; cbn in Hu; lia).
  destruct (holder_code C cs i HI Hne) as (t & k & Hk).
  destruct (decide (Exists (λ j, j ≠ i ∧ shared_only (held (the_lock C) j) = true) (seq 0 (length (threads C)))))
    as [Hex|Hnex].
  { apply Exists_exists in Hex as (j & _ & _ & Hj). by apply (shared_holder_steps C cs j). }
  assert (∀ j, j ≠ i → held (the_lock C) j = none) as Hothers.
  { intros j Hj. destruct (inv_compatible _ _ HI i j) as (_ & _ & Hc); [done|]. specialize (Hnx j).
    destruct (decide (shared_only (held (the_lock C) j) = true)) as [Hs|Hs].
    - destruct (threads C !! j) as [kj|] eqn:Hkj; [|by apply (inv_idle _ _ HI)].
      destruct Hnex. apply Exists_exists. exists j. split; [|done]. apply elem_of_seq.
      apply lookup_lt_Some in Hkj. lia.
    - unfold shared_only in Hs. destruct (held (the_lock C) j) as [s u x]. cbn in *.
      destruct Hc as [Hc0 | -> ]; [lia|]. subst. destruct s; [done|]. by destruct Hs. }
  eapply can_step; [done..|]. intros o h -> Hh. split; [by left|]. intros j Hj. rewrite Hothers by done.
  apply compatible_none_r.
Qed.

(** No deadlock: as long as some thread has not returned, some thread can go on. *)
Lemma progress C cs : inv C cs → finished C ∨ ∃ C', step C C'.
Proof.
  intros HI. destruct (decide (Exists (λ k, k ≠ []) (threads C))) as [Hex|Hnex].
  2: { left. apply Forall_forall. intros k Hk. destruct k; [done|]. destruct Hnex. apply Exists_exists. eauto. }
  right. set (ids := seq 0 (length (threads C))).
  assert (∀ i, held (the_lock C) i ≠ none → i ∈ ids) as Hids.
  { intros i Hi. apply elem_of_seq. destruct (threads C !! i) eqn:Hk.
    - apply lookup_lt_Some in Hk. lia.
    - by destruct (inv_idle _ _ HI i Hk). }
  destruct (decide (Exists (λ i, 0 < x_count (held (the_lock C) i)) ids)) as [Hx|Hx].
  { apply Exists_exists in Hx as (i & _ & Hi). by eapply exclusive_holder_steps. }
  assert (∀ j, x_count (held (the_lock C) j) = 0) as Hnx.
  { intros j. destruct (x_count (held (the_lock C) j)) eqn:E; [done|]. destruct Hx. apply Exists_exists. exists j.
    split; [apply Hids; intros F; by rewrite F in E|lia]. }
  destruct (decide (Exists (λ i, 0 < u_count (held (the_lock C) i)) ids)) as [Hu|Hu].
  { apply Exists_exists in Hu as (i & _ & Hi). by eapply update_holder_steps. }
  destruct (decide (Exists (λ i, shared_only (held (the_lock C) i) = true) ids)) as [Hs|Hs].
  { apply Exists_exists in Hs as (i & _ & Hi). by eapply shared_holder_steps. }
  assert (∀ j, held (the_lock C) j = none) as Hfree.
  { intros j. destruct (decide (held (the_lock C) j = none)) as [|Hne]; [done|]. exfalso.
    pose proof (Hids j Hne) as Hj. specialize (Hnx j).
    destruct (decide (u_count (held (the_lock C) j) = 0)) as [Hu0|Hu0].
    - apply Hs, Exists_exists. exists j. split; [done|]. unfold shared_only.
      destruct (held (the_lock C) j) as [s u x]. cbn in *. subst. destruct s; [by destruct Hne|done].
    - apply Hu, Exists_exists. exists j. split; [done|lia]. }
  apply Exists_exists in Hex as (k & Hk & Hne). apply list_elem_of_lookup in Hk as [i Hi]. destruct k as [|t k]; [done|].
  eapply can_step; [done..|]. intros o h _ _. split; [by right|]. intros j _. rewrite Hfree. apply compatible_none_r.
Qed.

(** * Termination *)

Fixpoint stmt_size (t : stmt) : nat :=
  match t with IfUpgradeTry body => S (sum_list_with stmt_size body) | SXUpgrade => 2 | _ => 1 end.

Definition code_size (k : list stmt) : nat := sum_list_with stmt_size k.

Definition config_size (C : config) : nat := sum_list_with code_size (threads C).

Lemma sum_list_with_insert {A} (f : A → nat) l i x y :
  l !! i = Some x → f y < f x → sum_list_with f (<[i := y]> l) < sum_list_with f l.
Proof.
  revert i. induction l as [|z l IH]; intros [|i] Hi Hlt; [done..| |]; [injection Hi as ->; cbn; lia|].
  change (f z + sum_list_with f (<[i := y]> l) < f z + sum_list_with f l). specialize (IH i Hi Hlt). lia.
Qed.

Lemma code_size_app k k' : code_size (k ++ k') = code_size k + code_size k'.
Proof. apply sum_list_with_app. Qed.

Lemma step_shrinks C C' : step C C' → config_size C' < config_size C.
Proof.
  destruct 1 as [| | |σ σ' c a ts i body k b Hk Ht| |]; (eapply sum_list_with_insert; [eassumption|]);
    unfold code_size; cbn; try lia.
  fold (code_size (if b then body ++ k else k)). destruct b; [|unfold code_size; lia]. rewrite code_size_app. unfold code_size. lia.
Qed.

Lemma inv_inevitable C cs : inv C cs → inevitably finished C.
Proof.
  remember (config_size C) as n eqn:Hn. revert C cs Hn. induction n as [n IH] using lt_wf_ind. intros C cs -> HI.
  destruct (progress C cs HI) as [Hf|Hs]; [by apply inevitably_now|].
  apply inevitably_later; [done|]. intros C' HC'. destruct (step_inv _ _ _ HC' HI) as [cs' HI'].
  eapply IH; [by apply step_shrinks|reflexivity|exact HI'].
Qed.

End soundness.

(** * A lock *)

Definition set_hold (σ : nat → hold) (i : nat) (h : hold) : nat → hold := λ j, if decide (j = i) then h else σ j.

(** A lock that is its holdings, and grants a call exactly when it conflicts with nobody. *)
Definition spec_lock : rw_lock := {|
  lock := nat → hold;
  fresh := λ _, none;
  held σ i := σ i;
  call σ i o σ' := ∃ h, effect o (σ i) = Some h ∧ σ' = set_hold σ i h ∧ ∀ j, j ≠ i → compatible h (σ j);
  rd_u_upgrade_try σ i b σ' :=
    let h := Hold (s_count (σ i)) (S (u_count (σ i))) (x_count (σ i)) in
    if b : bool then σ' = set_hold σ i h ∧ ∀ j, j ≠ i → compatible h (σ j) else σ' = σ;
|}.

Lemma set_hold_same σ i h : set_hold σ i h i = h.
Proof. unfold set_hold. by rewrite decide_True. Qed.

Lemma set_hold_other σ i h j : j ≠ i → set_hold σ i h j = σ j.
Proof. intros H. unfold set_hold. by rewrite decide_False. Qed.

Lemma spec_lock_laws : rw_lock_laws spec_lock.
Proof.
  split; cbn.
  - done.
  - intros σ i o σ' (h & Hh & -> & _). by rewrite set_hold_same.
  - intros σ i o σ' j (h & Hh & -> & _) Hj. by apply set_hold_other.
  - intros σ i o σ' j (h & Hh & -> & Hc) Hj _. rewrite set_hold_same, set_hold_other by done. by apply Hc.
  - intros σ i o h Hh Hc _. by exists (set_hold σ i h), h.
  - intros σ i [] σ'; [|by intros ->]. intros [-> _]. by rewrite set_hold_same.
  - intros σ i [] σ' j; [|by intros ->]. intros [-> _] Hj. by apply set_hold_other.
  - intros σ i [] σ' j; [|by intros ->]. intros [-> Hc] Hj _. rewrite set_hold_same, set_hold_other by done. by apply Hc.
  - intros σ i. by exists false, σ.
Qed.

(** * Theorems *)

(** C35: with any locks that behave as documented and any number of threads on one of the four functions, no interleaving
    makes an assertion fail; while a thread holds the lock exclusively no other holds it, and whenever [critical] is
    set some thread holds it exclusively. *)
Theorem no_assertion_fails `{L : rw_lock} `{!rw_lock_laws L} n p C :
  p ∈ phases → reachable (start n p.2) C →
  aborted C = false ∧
  (∀ i j, i ≠ j → 0 < x_count (held (the_lock C) i) → held (the_lock C) j = none) ∧
  (critical C = true → ∃ i, 0 < x_count (held (the_lock C) i)).
Proof.
  intros Hp Hr. destruct (reachable_inv n p.2 C) as [cs HI]; [|done|].
  { apply (proj1 (Forall_forall _ _) phases_typed p Hp). }
  split; [by apply (inv_ok _ _ HI)|]. split.
  - intros i j Hij. by apply (inv_compatible _ _ HI).
  - intros Hc. apply (inv_flag _ _ HI) in Hc as [i Hi]. exists i. by apply (inv_exclusive _ _ HI).
Qed.

(** [no_assertion_fails] after the first step of the first of thirty threads. *)
Lemma no_assertion_fails_witness :
  ∃ C, reachable (L := spec_lock) (start N_THREADS test_srw_mutex) C ∧
       aborted C = false ∧ 0 < x_count (held (the_lock C) 0).
Proof.
  pose (code := test_srw_mutex).
  pose (C := Config (L := spec_lock) (set_hold (λ _, none) 0 (Hold 0 0 1)) false false
               (<[0 := tail code]> (replicate N_THREADS code))).
  assert (reachable (L := spec_lock) (start N_THREADS code) C) as Hr.
  { eapply reach_step; [apply reach_refl|]. unfold start, C.
    apply (step_call (L := spec_lock) _ _ _ _ _ 0 wr_lock); [reflexivity|].
    exists (Hold 0 0 1). split; [done|]. split; [done|]. intros j _. apply compatible_none_r. }
  exists C. split; [exact Hr|]. split; [|unfold C; cbn [the_lock held spec_lock]; rewrite set_hold_same; cbn; lia].
  apply (proj1 (@no_assertion_fails spec_lock spec_lock_laws N_THREADS ("srw_mutex"%string, code) C
                  (list_elem_of_here _ _) Hr)).
Defined.

(** C36: with any locks that behave as documented, every interleaving of any number of threads on one of the four
    functions comes to an end with all threads returned: there is no deadlock and no infinite run, so each [join] of
    [main] returns and its four checks are reached. *)
Theorem threads_return `{L : rw_lock} `{!rw_lock_laws L} n p :
  p ∈ phases → inevitably finished (start n p.2).
Proof.
  intros Hp. eapply inv_inevitable, inv_start. apply (proj1 (Forall_forall _ _) phases_typed p Hp).
Qed.

(** [threads_return] for the thirty threads of the last round. *)
Lemma threads_return_witness : inevitably (L := spec_lock) finished (start N_THREADS test_sux_lock).
Proof.
  apply (@threads_return spec_lock spec_lock_laws N_THREADS ("sux_lock"%string, test_sux_lock)).
  unfold phases. do 3 apply list_elem_of_further. apply list_elem_of_here.
Defined.
