(* ===== verification/IoCacheSuite.v ===== *)
(** The IO_CACHE tests, src/references/mariadb/unittest/sql/mf_iocache-t.cc.

    The cache and file functions (mysys) are the parameter [iocache_lib] and the cipher behind the encryption stubs
    (mysys_ssl) is [aes_lib]; neither is part of the sources.  A test runs in a
    world with the one global cache [info], the file the last test copies to, the flag [encrypt_tmp_files] and the
    position in the sequence of random numbers, which is the parameter [rand].  Buffers are byte lists; a write
    past the end of one, a division by zero and a failed assertion are [undefined].  The theorems are in
    [IoCacheFacts]. *)

From S2P Require Import Prelude Tap.
Open Scope Z_scope.

(** * Stubs for the encryption service *)

Definition KEY_SIZE : Z := 128 / 8.

(** The result codes of [encryption_key_get_func] that the stub uses. *)
Inductive key_result := KEY_OK | ENCRYPTION_KEY_BUFFER_TOO_SMALL.

Definition encryption_key_get_latest_version_func (_ : Z) : Z := 1.
Definition encryption_key_id_exists_func (_ : Z) : Z := 1.
Definition encryption_key_version_exists_func (_ _ : Z) : Z := 1.

(** The key buffer and its size, before and after. *)
Definition encryption_key_get_func (_ _ : Z) (key : bytes) (size : Z) : key_result * bytes * Z :=
  if size <? KEY_SIZE then (ENCRYPTION_KEY_BUFFER_TOO_SMALL, key, KEY_SIZE)
  else (KEY_OK, replicate (Z.to_nat KEY_SIZE) (byte_of KEY_SIZE) ++ drop (Z.to_nat KEY_SIZE) key, KEY_SIZE).

(** The cipher (mysys_ssl, not part of the sources): a context is set up for a mode, a direction, a key and a nonce, then
    takes input in pieces.  Every function returns its result code; the context and the output are explicit. *)
Inductive my_aes_mode := MY_AES_ECB | MY_AES_CBC | MY_AES_GCM | MY_AES_CTR.

Class aes_lib := {
  AES_CTX : Type;
  MY_AES_CTX_SIZE : Z;
  HAVE_EncryptAes128Gcm : bool;
  my_aes_crypt_init : my_aes_mode → Z → bytes → bytes → Z * AES_CTX;
  my_aes_crypt_update : AES_CTX → bytes → Z * bytes * AES_CTX;
  my_aes_crypt_finish : AES_CTX → Z * bytes;
  my_aes_get_size : my_aes_mode → Z → Z;
}.

Section encryption_service.
Context {aes : aes_lib}.

Definition encryption_ctx_size_func (_ _ : Z) : Z := MY_AES_CTX_SIZE.

Definition aes_mode : my_aes_mode := if HAVE_EncryptAes128Gcm then MY_AES_GCM else MY_AES_CBC.

Definition encryption_ctx_init_func (key iv : bytes) (flags key_id key_version : Z) : Z * AES_CTX :=
  my_aes_crypt_init aes_mode flags key iv.

Definition encryption_encrypted_length_func (slen key_id key_version : Z) : Z := my_aes_get_size aes_mode slen.

(** [struct encryption_service_st] *)
Record encryption_service_st := EncryptionService {
  encryption_key_get_latest_version_ptr : Z → Z;
  encryption_key_get_ptr : Z → Z → bytes → Z → key_result * bytes * Z;
  encryption_ctx_size_ptr : Z → Z → Z;
  encryption_ctx_init_ptr : bytes → bytes → Z → Z → Z → Z * AES_CTX;
  encryption_ctx_update_ptr : AES_CTX → bytes → Z * bytes * AES_CTX;
  encryption_ctx_finish_ptr : AES_CTX → Z * bytes;
  encryption_encrypted_length_ptr : Z → Z → Z → Z;
}.

Definition encryption_handler : encryption_service_st :=
  EncryptionService encryption_key_get_latest_version_func encryption_key_get_func encryption_ctx_size_func
    encryption_ctx_init_func my_aes_crypt_update my_aes_crypt_finish encryption_encrypted_length_func.
End encryption_service.

(** * The library *)

Inductive cache_type := READ_CACHE | WRITE_CACHE.

Class iocache_lib := {
  IO_CACHE : Type;
  pos_in_file : IO_CACHE → Z;
  pos_in_mem : IO_CACHE → Z;
  end_of_file : IO_CACHE → Z;
  set_end_of_file : Z → IO_CACHE → IO_CACHE;
  read_used : IO_CACHE → Z;
  read_filled : IO_CACHE → Z;
  clear_buffer : Z → IO_CACHE → IO_CACHE;
  init_io_cache_encryption : bool → IO_CACHE → IO_CACHE;
  open_cached_file : Z → IO_CACHE → Z * IO_CACHE;
  close_cached_file : IO_CACHE → IO_CACHE;
  my_b_write : bytes → IO_CACHE → Z * IO_CACHE;
  my_b_read : nat → IO_CACHE → Z * bytes * IO_CACHE;
  my_b_fill : IO_CACHE → Z * IO_CACHE;
  my_b_flush_io_cache : IO_CACHE → Z * IO_CACHE;
  reinit_io_cache : cache_type → Z → IO_CACHE → Z * IO_CACHE;
  my_b_tell : IO_CACHE → Z;
  my_b_bytes_in_cache : IO_CACHE → Z;
  my_pread : nat → Z → IO_CACHE → Z * bytes;
  FILE : Type;
  my_fopen : string → FILE;
  my_fileno : FILE → Z;
  my_ftell : FILE → Z;
  rewind : FILE → FILE;
  my_b_copy_to_file : Z → IO_CACHE → FILE → Z * IO_CACHE * FILE;
}.

(** What the program relies on: a read stores at most what was asked for, the end of file it sets stays set while it
    reads and marks the buffer, and a cache just opened and then written without an error is positioned behind what was
    written. *)
Class iocache_laws (lib : iocache_lib) : Prop := {
  read_bound n io : (length (my_b_read n io).1.2 ≤ n)%nat;
  pread_bound n o io : (length (my_pread n o io).2 ≤ n)%nat;
  eof_set z io : end_of_file (set_end_of_file z io) = z;
  eof_read n io : end_of_file (my_b_read n io).2 = end_of_file io;
  eof_clear n io : end_of_file (clear_buffer n io) = end_of_file io;
  tell_written n buf io : (my_b_write buf (open_cached_file n io).2).1 = 0 →
    my_b_tell (my_b_write buf (open_cached_file n io).2).2 = Z.of_nat (length buf);
}.

(** * Worlds *)

Section suite.
Context `{lib : iocache_lib}.

(** The sequence of values of [rand()], the contents of fresh heap memory, and whether [MY_MIN] (my_global.h, not part
    of the sources) is a macro that evaluates the argument it returns a second time. *)
Context (rand : nat → Z) (junk : byte) (twice : bool).

Record world := World { info : IO_CACHE; file : FILE; encrypt_tmp_files : bool; drawn : nat }.

(** A test function: it changes the world, makes calls into TAP, and may be undefined. *)
Record io (A : Type) := Io { run_io : world → tap (A * world) }.
Arguments Io {A}.
Arguments run_io {A}.

#[global] Instance io_ret : MRet io := λ A a, Io (λ w, mret (a, w)).

#[global] Instance io_bind : MBind io := λ A B k m, Io (λ w, r ← run_io m w; run_io (k r.1) r.2).

Definition lift {A} (m : tap A) : io A := Io (λ w, a ← m; mret (a, w)).

Definition get_info : io IO_CACHE := Io (λ w, mret (info w, w)).

Definition set_info (c : IO_CACHE) : io () :=
  Io (λ w, mret ((), World c (file w) (encrypt_tmp_files w) (drawn w))).

(** A library call on the global cache. *)
Definition on_info {A} (f : IO_CACHE → A * IO_CACHE) : io A :=
  c ← get_info; let r := f c in set_info r.2 ;; mret r.1.

Definition get_encrypt : io bool := Io (λ w, mret (encrypt_tmp_files w, w)).

Definition set_encrypt (b : bool) : io () := Io (λ w, mret ((), World (info w) (file w) b (drawn w))).

Definition get_file : io FILE := Io (λ w, mret (file w, w)).

Definition set_file (f : FILE) : io () := Io (λ w, mret ((), World (info w) f (encrypt_tmp_files w) (drawn w))).

(** The next random number. *)
Definition draw : io Z :=
  Io (λ w, mret (rand (drawn w), World (info w) (file w) (encrypt_tmp_files w) (S (drawn w)))).

Definition io_undefined {A} : io A := Io (λ _, undefined).

(** A debug assertion. *)
Definition DBUG_ASSERT (b : bool) : io () := if b then mret () else io_undefined.

(** [x % n] in C. *)
Definition modulo (x n : Z) : io Z := if n =? 0 then io_undefined else mret (Z.rem x n).

Definition io_diag (fmt : string) (args : list arg) : io () := lift (diag fmt args).

Definition io_ok (b : bool) (fmt : string) (args : list arg) : io () := lift (ok b fmt args).

(** [ok(cond, msg INFO_TAIL)]: the message ends with the position in the file and in the buffer. *)
Definition ok_info (b : IO_CACHE → bool) (msg : string) : io () :=
  c ← get_info; io_ok (b c) (msg ++ ", pos_in_file = %llu, pos_in_mem = %lu") [ArgD (pos_in_file c); ArgD (pos_in_mem c)].

Definition CACHE_SIZE : Z := 16384.

Definition FILL : byte := byte_of 90.

(** [malloc(n)] and [memset(buf, c, n)] of a whole buffer. *)
Definition malloc (n : Z) : bytes := replicate (Z.to_nat n) junk.

Definition filled (c : byte) (n : Z) : bytes := replicate (Z.to_nat n) c.

(** Storing data at an offset of a buffer. *)
Definition blit (buf : bytes) (off : Z) (data : bytes) : io bytes :=
  if (0 <=? off) && (off + Z.of_nat (length data) <=? Z.of_nat (length buf))
  then mret (take (Z.to_nat off) buf ++ data ++ drop (Z.to_nat off + length data) buf)
  else io_undefined.

Fixpoint data_bad (buf : bytes) : Z :=
  match buf with
  | [] => 0
  | c :: buf' => if negb (bool_decide (c = FILL)) then 1 else data_bad buf'
  end.

(** [my_b_read(&info, buf + off, n)]: the result and the buffer. *)
Definition read_into (buf : bytes) (off n : Z) : io (Z * bytes) :=
  r ← on_info (my_b_read (Z.to_nat n));
  buf ← blit buf off r.2;
  mret (r.1, buf).

(** [my_b_read(..) || data_bad(..)] on the first [n] bytes. *)
Definition read_checked (buf : bytes) (n : Z) : io (Z * bytes) :=
  r ← read_into buf 0 n;
  mret (if negb (r.1 =? 0) then 1 else data_bad (take (Z.to_nat n) r.2), r.2).

Definition init_encryption : io () :=
  e ← get_encrypt; c ← get_info; set_info (init_io_cache_encryption e c).

(** * The tests *)

Definition temp_io_cache : io () :=
  let buf := filled FILL (CACHE_SIZE + 200) in
  e ← get_encrypt;
  io_diag "temp io_cache with%s encryption" [ArgS (if e : bool then [] else B "out")] ;;
  init_encryption ;;
  res ← on_info (open_cached_file CACHE_SIZE);
  ok_info (λ _, res =? 0) "open_cached_file" ;;
  res ← on_info (my_b_write (take 100 buf));
  ok_info (λ c, (res =? 0) && (pos_in_file c =? 0)) "small write" ;;
  res ← on_info (my_b_write buf);
  ok_info (λ c, (res =? 0) && (pos_in_file c =? CACHE_SIZE)) "large write" ;;
  res ← on_info (reinit_io_cache WRITE_CACHE 250);
  ok_info (λ _, res =? 0) "reinit with rewind" ;;
  res ← on_info (my_b_write buf);
  ok_info (λ _, res =? 0) "large write" ;;
  res ← on_info my_b_flush_io_cache;
  ok_info (λ _, res =? 0) "flush" ;;
  res ← on_info (reinit_io_cache READ_CACHE 0);
  ok_info (λ _, res =? 0) "reinit READ_CACHE" ;;
  c ← get_info;
  let r := my_pread 50 50 c in
  buf ← blit buf 0 r.2;
  io_ok ((r.1 =? 0) && (data_bad (take 50 buf) =? Z.b2z e)) "file must be %sreadable"
    [ArgS (if e : bool then B "un" else [])] ;;
  r ← read_checked buf 50;
  ok_info (λ c, (r.1 =? 0) && (pos_in_file c =? 0)) "small read" ;;
  r ← read_checked r.2 (CACHE_SIZE + 200);
  ok_info (λ c, (r.1 =? 0) && (pos_in_file c =? CACHE_SIZE)) "large read" ;;
  on_info (λ c, ((), close_cached_file c)).

Definition mdev9044 : io () :=
  let buf := malloc (CACHE_SIZE + 200) in
  io_diag "MDEV-9044 Binlog corruption in Galera" [] ;;
  res ← on_info (open_cached_file CACHE_SIZE);
  ok_info (λ _, res =? 0) "open_cached_file" ;;
  res ← on_info (my_b_write (c_lit "first write\0"));
  ok_info (λ _, res =? 0) "first write" ;;
  res ← on_info my_b_flush_io_cache;
  ok_info (λ _, res =? 0) "flush" ;;
  res ← on_info (reinit_io_cache WRITE_CACHE 0);
  ok_info (λ _, res =? 0) "reinit WRITE_CACHE" ;;
  res ← on_info (my_b_write (c_lit "second write\0"));
  ok_info (λ _, res =? 0) "second write" ;;
  res ← on_info (reinit_io_cache READ_CACHE 0);
  ok_info (λ _, res =? 0) "reinit READ_CACHE" ;;
  res ← on_info my_b_fill;
  ok_info (λ _, res =? 0) "fill" ;;
  res ← on_info (reinit_io_cache READ_CACHE 0);
  ok_info (λ _, res =? 0) "reinit READ_CACHE" ;;
  r ← read_into buf 0 (CACHE_SIZE + 200);
  io_ok ((r.1 =? 1) && bool_decide (c_string r.2 = c_lit "second write")) "read '%s'" [ArgS (c_string r.2)] ;;
  on_info (λ c, ((), close_cached_file c)).

Definition mdev10259 : io () :=
  let buf := filled FILL 200 in
  io_diag ("MDEV-10259- mysqld crash with certain statement length and order with" ++
           " Galera and encrypt-tmp-files=1") [] ;;
  init_encryption ;;
  res ← on_info (open_cached_file CACHE_SIZE);
  ok_info (λ _, res =? 0) "open_cached_file" ;;
  res ← on_info (my_b_write buf);
  ok_info (λ c, (res =? 0) && (pos_in_file c =? 0)) "200 write" ;;
  res ← on_info my_b_flush_io_cache;
  ok_info (λ _, res =? 0) "flush" ;;
  c ← get_info;
  let saved_pos := my_b_tell c in
  res ← on_info (reinit_io_cache READ_CACHE 0);
  ok_info (λ _, res =? 0) "reinit READ_CACHE" ;;
  s ← on_info my_b_fill;
  ok_info (λ _, s =? 200) "fill" ;;
  s ← on_info my_b_fill;
  ok_info (λ _, s =? 0) "fill" ;;
  s ← on_info my_b_fill;
  ok_info (λ _, s =? 0) "fill" ;;
  res ← on_info (reinit_io_cache WRITE_CACHE saved_pos);
  ok_info (λ _, res =? 0) "reinit WRITE_CACHE" ;;
  res ← on_info (reinit_io_cache READ_CACHE 0);
  ok_info (λ _, res =? 0) "reinit READ_CACHE" ;;
  c ← get_info;
  io_ok (200 =? my_b_bytes_in_cache c) "my_b_bytes_in_cache == 200" [] ;;
  s ← on_info my_b_fill;
  ok_info (λ _, s =? 0) "fill" ;;
  s ← on_info my_b_fill;
  ok_info (λ _, s =? 0) "fill" ;;
  s ← on_info my_b_fill;
  ok_info (λ _, s =? 0) "fill" ;;
  res ← on_info (reinit_io_cache WRITE_CACHE saved_pos);
  ok_info (λ _, res =? 0) "reinit WRITE_CACHE" ;;
  res ← on_info (reinit_io_cache READ_CACHE 0);
  ok_info (λ _, res =? 0) "reinit READ_CACHE" ;;
  c ← get_info;
  io_ok (200 =? my_b_bytes_in_cache c) "my_b_bytes_in_cache == 200" [] ;;
  r ← read_checked buf 200;
  ok_info (λ c, (r.1 =? 0) && (pos_in_file c =? 0)) "large read" ;;
  on_info (λ c, ((), close_cached_file c)).

Definition mdev14014 : io () :=
  let buf_i := filled Byte.x00 200 in
  let buf_o := filled FILL 200 in
  io_diag "MDEV-14014 Dump thread reads past last 'officially' written byte" [] ;;
  init_encryption ;;
  res ← on_info (open_cached_file CACHE_SIZE);
  ok_info (λ _, res =? 0) "open_cached_file" ;;
  res ← on_info (my_b_write buf_o);
  ok_info (λ _, res =? 0) "buffer is written" ;;
  res ← on_info my_b_flush_io_cache;
  ok_info (λ _, res =? 0) "flush" ;;
  res ← on_info (reinit_io_cache READ_CACHE 0);
  ok_info (λ _, res =? 0) "reinit READ_CACHE" ;;
  c ← get_info; set_info (set_end_of_file 100 c) ;;
  r ← read_into buf_i 0 200;
  io_ok ((r.1 =? 1) && bool_decide (r.2 !! 100%nat = Some Byte.x00) && bool_decide (r.2 !! 199%nat = Some Byte.x00))
    "short read leaves buf_i[100..200-1] == 0" [] ;;
  on_info (λ c, ((), close_cached_file c)).

(** ** MDEV-17133 *)

Definition BUFF_SIZE17133 : Z := 1024 * 256.
Definition eof_iter : Z := 4.
Definition read_iter : Z := 4.
Definition eof_block_size : Z := BUFF_SIZE17133 / eof_iter.
Definition read_size : Z := eof_block_size / read_iter.

(** One block: two reads, the part of the cache buffer already read marked after each, and the comparison.  The
    counter [left] is [read_iter - i]. *)
Definition read_block (left : nat) (st : bytes * Z) : io (bytes * Z) :=
  let buf_i := st.1 in let total := st.2 in
  let buf_check := malloc eof_block_size in
  c ← get_info;
  let a := end_of_file c - total in
  r ← draw;
  m ← modulo r (read_size / 2);
  let b := read_size + read_size / 4 - m in
  let curr_read_size := if (left =? 1)%nat then a else Z.min a b in
  DBUG_ASSERT (curr_read_size <=? end_of_file c - total) ;;
  r ← read_into buf_i total (Z.min 19 curr_read_size);
  io_ok (r.1 =? 0) "read of 19" [] ;;
  on_info (λ c, ((), clear_buffer (read_used c) c)) ;;
  r ← read_into r.2 (total + Z.min 19 curr_read_size) (if curr_read_size <=? 19 then 0 else curr_read_size - 19);
  io_ok (r.1 =? 0) "rest of read %zu" [ArgD ((curr_read_size - 19) mod 2 ^ 64)] ;;
  on_info (λ c, ((), clear_buffer (read_used c) c)) ;;
  buf_check ← blit buf_check 0 (filled FILL curr_read_size);
  io_ok (bool_decide (take (Z.to_nat curr_read_size) (drop (Z.to_nat total) r.2) =
                      take (Z.to_nat curr_read_size) buf_check)) "read correct data" [] ;;
  mret (r.2, total + curr_read_size).

Fixpoint read_blocks (left : nat) (st : bytes * Z) : io (bytes * Z) :=
  match left with
  | O => mret st
  | S left' => st ← read_block left st; read_blocks left' st
  end.

(** [MY_MIN(limit, base - rand() % n)]. *)
Definition my_min_rand (limit base n : Z) : io Z :=
  r ← draw; m ← modulo r n;
  if limit <? base - m then mret limit
  else if twice then r' ← draw; m' ← modulo r' n; mret (base - m')
  else mret (base - m).

(** One chunk up to a new end of file; the counter is [k]. *)
Definition read_chunk (k : nat) (st : bytes * Z) : io (bytes * Z) :=
  c ← get_info;
  eof ← (if (k =? 1)%nat then mret BUFF_SIZE17133
         else my_min_rand BUFF_SIZE17133 (end_of_file c + eof_block_size + eof_block_size / 4) (eof_block_size / 2));
  set_info (set_end_of_file eof c) ;;
  st ← read_blocks (Z.to_nat read_iter) st;
  c ← get_info;
  io_ok (pos_in_file c + read_filled c =? end_of_file c) "cache is read up to eof" [] ;;
  io_ok (st.2 =? end_of_file c) "total matches eof" [] ;;
  mret st.

Fixpoint read_chunks (k : nat) (st : bytes * Z) : io (bytes * Z) :=
  match k with
  | O => mret st
  | S k' => st ← read_chunk k st; read_chunks k' st
  end.

Definition mdev17133 : io () :=
  let buf_i := filled Byte.x00 BUFF_SIZE17133 in
  let buf_o := filled FILL BUFF_SIZE17133 in
  io_diag "MDEV-17133 Dump thread reads from the past" [] ;;
  init_encryption ;;
  res ← on_info (open_cached_file CACHE_SIZE);
  ok_info (λ _, res =? 0) "open_cached_file" ;;
  res ← on_info (my_b_write buf_o);
  ok_info (λ _, res =? 0) "buffer is written" ;;
  c ← get_info;
  io_ok (my_b_tell c =? BUFF_SIZE17133) "cache size as expected" [] ;;
  res ← on_info my_b_flush_io_cache;
  ok_info (λ _, res =? 0) "flush" ;;
  res ← on_info (reinit_io_cache READ_CACHE 0);
  ok_info (λ _, res =? 0) "reinit READ_CACHE" ;;
  c ← get_info; set_info (set_end_of_file 0 c) ;;
  st ← read_chunks (Z.to_nat eof_iter) (buf_i, 0);
  io_ok (st.2 =? BUFF_SIZE17133) "read total size match" [] ;;
  io_ok (bool_decide (st.1 !! Z.to_nat (BUFF_SIZE17133 - 1) = Some FILL)) "data read correctly" [] ;;
  on_info (λ c, ((), close_cached_file c)).

(** ** MDEV-10963 *)

Definition BUFF_SIZE10963 : Z := 1024 * 512.
Definition n_frag : Z := BUFF_SIZE10963 / (2 * CACHE_SIZE).

(** [my_b_copy_to_file(&info, file, n)]. *)
Definition copy_to_file (n : Z) : io Z :=
  c ← get_info; f ← get_file;
  let r := my_b_copy_to_file n c f in
  set_info r.1.2 ;; set_file r.2 ;; mret r.1.1.

(** The loop over the fragments; the counter [left] is [n_frag - i]. *)
Fixpoint copy_fragments (total_size : Z) (left : nat) (copied_size : Z) : io Z :=
  match left with
  | O => mret copied_size
  | S left' =>
      r ← draw;
      curr_size ← modulo r (2 * (total_size - copied_size) / Z.of_nat left);
      DBUG_ASSERT ((curr_size <=? total_size - copied_size) || (left =? 1)%nat) ;;
      res ← copy_to_file curr_size;
      io_ok (res =? 0) "%lu of the cache copied to file" [ArgD curr_size] ;;
      copy_fragments total_size left' (copied_size + curr_size)
  end.

(** One of the [n_checks] rounds. *)
Definition copy_round (total_size : Z) : io () :=
  res ← on_info (reinit_io_cache READ_CACHE 0);
  io_ok (res =? 0) "cache turned to read" [] ;;
  copied_size ← copy_fragments total_size (Z.to_nat n_frag) 0;
  res ← copy_to_file ((total_size - copied_size) mod 2 ^ 64);
  io_ok (res =? 0) "%llu of the cache copied to file" [ArgD ((total_size - copied_size) mod 2 ^ 64)] ;;
  f ← get_file;
  io_ok (my_ftell f =? BUFF_SIZE10963) "file written in %d fragments" [ArgD (n_frag + 1)] ;;
  res ← on_info (reinit_io_cache WRITE_CACHE total_size);
  c ← get_info;
  io_ok ((res =? 0) && (my_b_tell c =? BUFF_SIZE10963)) "cache turned to write" [].

Fixpoint copy_rounds (total_size : Z) (n_checks : nat) : io () :=
  match n_checks with
  | O => mret ()
  | S n' => copy_round total_size ;; f ← get_file; set_file (rewind f) ;; copy_rounds total_size n'
  end.

Definition mdev10963 : io () :=
  let buf := filled FILL BUFF_SIZE10963 in
  io_diag "MDEV-10963 Fragmented BINLOG query" [] ;;
  init_encryption ;;
  res ← on_info (open_cached_file CACHE_SIZE);
  ok_info (λ _, res =? 0) "open_cached_file" ;;
  res ← on_info (my_b_write buf);
  c ← get_info;
  let total_size := my_b_tell c in
  io_ok ((res =? 0) && (total_size =? BUFF_SIZE10963)) "cache is written" [] ;;
  set_file (my_fopen "cache.log") ;;
  f ← get_file;
  io_ok (0 <? my_fileno f) "opened file fd = %d" [ArgD (my_fileno f)] ;;
  copy_rounds total_size 8 ;;
  on_info (λ c, ((), close_cached_file c)).

Definition main : io () :=
  lift (plan 277) ;;
  set_encrypt true ;;
  temp_io_cache ;;
  set_encrypt false ;;
  temp_io_cache ;;
  mdev9044 ;;
  set_encrypt true ;;
  mdev10259 ;;
  set_encrypt false ;;
  mdev14014 ;;
  mdev17133 ;;
  mdev10963.

End suite.
