(* ===== verification/IoCacheFacts.v ===== *)
(** The theorems on the IO_CACHE tests of [IoCacheSuite]: the key stub, the buffer bounds of MDEV-17133 and when they
    are exceeded, the divisions of MDEV-10963, and the number of checks of the whole program. *)

From S2P Require Import Prelude Tap IoCacheSuite.
Open Scope Z_scope.

Section facts.
Context `{lib : iocache_lib} `{Hlaws : !iocache_laws lib}.
(** * Counting checks *)

(** From the world [w] the function is defined, makes [n] checks and no plan, and ends in [Q]. *)
Definition counts {A} (n : nat) (m : io A) (w : world) (Q : A → world → Prop) : Prop :=
  outcome (run_io _ m w) (λ r t, length (verdicts t) = n ∧ plans t = [] ∧ Q r.1 r.2).

Lemma counts_mono {A} n (m : io A) w (P Q : A → world → Prop) :
  counts n m w P → (∀ a w', P a w' → Q a w') → counts n m w Q.
Proof. intros Hm HQ. eapply outcome_mono; [|exact Hm]. naive_solver. Qed.

Lemma counts_eq {A} n k (m : io A) w (Q : A → world → Prop) : counts n m w Q → n = k → counts k m w Q.
Proof. by intros ? ->. Qed.

Lemma counts_ret {A} (a : A) w (Q : A → world → Prop) : Q a w → counts 0 (mret a) w Q.
Proof. intros H. by apply outcome_ret. Qed.

Lemma counts_seq {A B} n k (m : io A) (f : A → io B) w (P : A → world → Prop) (Q : B → world → Prop) :
  counts n m w P → (∀ a w', P a w' → counts k (f a) w' Q) → counts (n + k) (m ≫= f) w Q.
Proof.
  intros Hm Hf. unfold counts. change (run_io _ (m ≫= f) w) with (run_io _ m w ≫= λ r, run_io _ (f r.1) r.2).
  eapply outcome_seq; [exact Hm|]. intros [a w'] t (<- & Hp & HP). cbn [fst snd] in *.
  eapply outcome_mono; [|exact (Hf a w' HP)]. intros r t' (<- & Hp' & HQ).
  rewrite verdicts_app, plans_app, length_app, Hp, Hp'. done.
Qed.

Lemma counts_bind {A B} n k (m : io A) (f : A → io B) w Q :
  counts n m w (λ a w', counts k (f a) w' Q) → counts (n + k) (m ≫= f) w Q.
Proof. intros H. by eapply counts_seq. Qed.

Lemma counts_on_info {A} (f : IO_CACHE → A * IO_CACHE) w (Q : A → world → Prop) :
  Q (f (info w)).1 (World (f (info w)).2 (file w) (encrypt_tmp_files w) (drawn w)) → counts 0 (on_info f) w Q.
Proof. done. Qed.

(** A library call about whose result nothing is known. *)
Lemma counts_on_info_any {A} (f : IO_CACHE → A * IO_CACHE) w (Q : A → world → Prop) :
  (∀ a c, Q a (World c (file w) (encrypt_tmp_files w) (drawn w))) → counts 0 (on_info f) w Q.
Proof. intros H. apply counts_on_info, H. Qed.

Lemma counts_get_info w (Q : IO_CACHE → world → Prop) : Q (info w) w → counts 0 get_info w Q.
Proof. done. Qed.

Lemma counts_set_info c w (Q : () → world → Prop) :
  Q () (World c (file w) (encrypt_tmp_files w) (drawn w)) → counts 0 (set_info c) w Q.
Proof. done. Qed.

Lemma counts_get_encrypt w (Q : bool → world → Prop) : Q (encrypt_tmp_files w) w → counts 0 get_encrypt w Q.
Proof. done. Qed.

Lemma counts_set_encrypt b w (Q : () → world → Prop) :
  Q () (World (info w) (file w) b (drawn w)) → counts 0 (set_encrypt b) w Q.
Proof. done. Qed.

Lemma counts_get_file w (Q : FILE → world → Prop) : Q (file w) w → counts 0 get_file w Q.
Proof. done. Qed.

Lemma counts_set_file f w (Q : () → world → Prop) :
  Q () (World (info w) f (encrypt_tmp_files w) (drawn w)) → counts 0 (set_file f) w Q.
Proof. done. Qed.

Lemma counts_init_encryption w (Q : () → world → Prop) :
  Q () (World (init_io_cache_encryption (encrypt_tmp_files w) (info w)) (file w) (encrypt_tmp_files w) (drawn w)) →
  counts 0 init_encryption w Q.
Proof. done. Qed.

Lemma counts_draw (rand : nat → Z) w (Q : Z → world → Prop) :
  Q (rand (drawn w)) (World (info w) (file w) (encrypt_tmp_files w) (S (drawn w))) → counts 0 (draw rand) w Q.
Proof. done. Qed.

Lemma counts_diag fmt args w (Q : () → world → Prop) : Q () w → counts 0 (io_diag fmt args) w Q.
Proof. done. Qed.

Lemma counts_ok b fmt args w (Q : () → world → Prop) : Q () w → counts 1 (io_ok b fmt args) w Q.
Proof. done. Qed.

Lemma counts_ok_info b msg w (Q : () → world → Prop) : Q () w → counts 1 (ok_info b msg) w Q.
Proof. done. Qed.

Lemma counts_copy_to_file n w (Q : Z → world → Prop) :
  (∀ r w', drawn w' = drawn w → Q r w') → counts 0 (copy_to_file n) w Q.
Proof. intros H. split; [done|]. split; [done|]. by apply H. Qed.

Lemma counts_assert b w (Q : () → world → Prop) : b = true → Q () w → counts 0 (DBUG_ASSERT b) w Q.
Proof. by intros ->. Qed.

Lemma counts_modulo x n w (Q : Z → world → Prop) : n ≠ 0 → Q (Z.rem x n) w → counts 0 (modulo x n) w Q.
Proof. intros Hn HQ. unfold modulo. destruct (Z.eqb_spec n 0); [done|]. by apply counts_ret. Qed.

Lemma length_filled c n : Z.of_nat (length (filled c n)) = Z.max 0 n.
Proof. unfold filled. rewrite length_replicate. lia. Qed.

Lemma length_malloc junk n : Z.of_nat (length (malloc junk n)) = Z.max 0 n.
Proof. unfold malloc. rewrite length_replicate. lia. Qed.

Lemma counts_blit buf off data w (Q : bytes → world → Prop) :
  0 ≤ off → off + Z.of_nat (length data) ≤ Z.of_nat (length buf) →
  (∀ buf', length buf' = length buf → Q buf' w) → counts 0 (blit buf off data) w Q.
Proof.
  intros Ho Hl HQ. unfold blit.
  rewrite (proj2 (Z.leb_le 0 off)), (proj2 (Z.leb_le (off + _) _)) by lia. cbn [andb].
  apply counts_ret, HQ. rewrite !length_app, length_take, length_drop. lia.
Qed.

(** Reading into the middle of a buffer keeps its length and the end of file. *)
Lemma counts_read_into buf off n w (Q : Z * bytes → world → Prop) :
  0 ≤ off → 0 ≤ n → off + n ≤ Z.of_nat (length buf) →
  (∀ r c, length r.2 = length buf → end_of_file c = end_of_file (info w) →
     Q r (World c (file w) (encrypt_tmp_files w) (drawn w))) →
  counts 0 (read_into buf off n) w Q.
Proof.
  intros Ho Hn Hl HQ. unfold read_into. apply (counts_bind 0 0), counts_on_info. cbn [fst snd].
  pose proof (read_bound (Z.to_nat n) (info w)) as Hb.
  apply (counts_bind 0 0), counts_blit; [done|lia|]. intros buf' Hb'.
  apply counts_ret, HQ; [done|]. apply eof_read.
Qed.

Lemma counts_read_checked buf n w (Q : Z * bytes → world → Prop) :
  0 ≤ n → n ≤ Z.of_nat (length buf) →
  (∀ r w', length r.2 = length buf → drawn w' = drawn w → Q r w') → counts 0 (read_checked buf n) w Q.
Proof.
  intros Hn Hl HQ. unfold read_checked. apply (counts_bind 0 0), counts_read_into; [lia..|].
  intros r c Hr _. by apply counts_ret, HQ.
Qed.

End facts.

(** Runs through the statements of a test function whose buffers are large enough. *)
Ltac count_step :=
  lazymatch goal with
  | |- counts _ (_ ≫= _) _ _ => eapply counts_bind
  | |- counts _ (on_info _) _ _ => apply counts_on_info_any; intros ? ?
  | |- counts _ get_info _ _ => apply counts_get_info
  | |- counts _ (set_info _) _ _ => apply counts_set_info
  | |- counts _ get_encrypt _ _ => apply counts_get_encrypt
  | |- counts _ (set_encrypt _) _ _ => apply counts_set_encrypt
  | |- counts _ get_file _ _ => apply counts_get_file
  | |- counts _ (set_file _) _ _ => apply counts_set_file
  | |- counts _ init_encryption _ _ => apply counts_init_encryption
  | |- counts _ (draw _) _ _ => apply counts_draw
  | |- counts _ (io_diag _ _) _ _ => apply counts_diag
  | |- counts _ (io_ok _ _ _) _ _ => apply counts_ok
  | |- counts _ (ok_info _ _) _ _ => apply counts_ok_info
  | |- counts _ (mret _) _ _ => apply counts_ret
  end; cbv zeta; cbn [info file encrypt_tmp_files drawn].

Section counting.
Context `{lib : iocache_lib} `{Hlaws : !iocache_laws lib}.
Context (rand : nat → Z) (junk : byte) (twice : bool).

Lemma temp_io_cache_counts w (Q : () → world → Prop) : (∀ u w', drawn w' = drawn w → Q u w') → counts 10 temp_io_cache w Q.
Proof.
  intros HQ. unfold temp_io_cache. cbv zeta. change (CACHE_SIZE + 200) with 16584.
  pose proof (length_filled FILL 16584) as Hl. set (buf := filled FILL _) in *.
  eapply counts_eq.
  - repeat count_step. pose proof (pread_bound 50 50) as Hp.
    apply counts_blit; [lia|specialize (Hp c5); lia|]. intros buf' Hb. repeat count_step.
    apply counts_read_checked; [lia..|]. intros r w' Hr Hd. repeat count_step.
    apply counts_read_checked; [lia..|]. intros r' w'' _ Hd'. repeat count_step. apply HQ. cbn [drawn] in *. congruence.
  - reflexivity.
Qed.

Lemma mdev9044_counts w (Q : () → world → Prop) : (∀ u w', drawn w' = drawn w → Q u w') → counts 9 (mdev9044 junk) w Q.
Proof.
  intros HQ. unfold mdev9044. cbv zeta. change (CACHE_SIZE + 200) with 16584.
  pose proof (length_malloc junk 16584) as Hl. set (buf := malloc _ _) in *.
  eapply counts_eq.
  - repeat count_step. apply counts_read_into; [lia..|]. intros r c' Hr _. repeat count_step. apply HQ. cbn [drawn] in *. congruence.
  - reflexivity.
Qed.

Lemma mdev10259_counts w (Q : () → world → Prop) : (∀ u w', drawn w' = drawn w → Q u w') → counts 17 mdev10259 w Q.
Proof.
  intros HQ. unfold mdev10259. cbv zeta.
  pose proof (length_filled FILL 200) as Hl. set (buf := filled FILL _) in *.
  eapply counts_eq.
  - repeat count_step. apply counts_read_checked; [lia..|]. intros r w' Hr Hd. repeat count_step. apply HQ. cbn [drawn] in *. congruence.
  - reflexivity.
Qed.

Lemma mdev14014_counts w (Q : () → world → Prop) : (∀ u w', drawn w' = drawn w → Q u w') → counts 5 mdev14014 w Q.
Proof.
  intros HQ. unfold mdev14014. cbv zeta.
  pose proof (length_filled Byte.x00 200) as Hl. set (buf := filled Byte.x00 _) in *.
  eapply counts_eq.
  - repeat count_step. apply counts_read_into; [lia..|]. intros r c' Hr _. repeat count_step. apply HQ. cbn [drawn] in *. congruence.
  - reflexivity.
Qed.

(** * MDEV-17133 *)

(** The size of the block read with [left] blocks to go, [gap] bytes before the end of file. *)
Definition block_size (left d : nat) (gap : Z) : Z :=
  if (left =? 1)%nat then gap
  else Z.min gap (read_size + read_size / 4 - Z.rem (rand d) (read_size / 2)).

(** Every block of a chunk fits into the comparison buffer. *)
Fixpoint blocks_fit (left d : nat) (gap : Z) : bool :=
  match left with
  | O => true
  | S left' =>
      (block_size left d gap <=? eof_block_size) && blocks_fit left' (S d) (gap - block_size left d gap)
  end.

(** The end of file of the chunk with counter [k] after the end of file [eof]. *)
Definition next_eof (k d : nat) (eof : Z) : Z :=
  if (k =? 1)%nat then BUFF_SIZE17133
  else eof + eof_block_size + eof_block_size / 4 - Z.rem (rand (if twice then S d else d)) (eof_block_size / 2).

(** The random numbers used up when the blocks of a chunk begin. *)
Definition chunk_start (k d : nat) : nat := if (k =? 1)%nat then d else if twice then S (S d) else S d.

(** Every block of the remaining [k] chunks fits. *)
Fixpoint chunks_fit (k d : nat) (eof : Z) : bool :=
  match k with
  | O => true
  | S k' =>
      blocks_fit 4 (chunk_start k d) (next_eof k d eof - eof) &&
      chunks_fit k' (chunk_start k d + 4) (next_eof k d eof)
  end.

(** The run is undefined. *)
Definition undef {A} (m : io A) (w : world) : Prop := run_tap (run_io _ m w) = None.

Lemma undef_seq {A B} n (m : io A) (f : A → io B) w (P : A → world → Prop) :
  counts n m w P → (∀ a w', P a w' → undef (f a) w') → undef (m ≫= f) w.
Proof.
  unfold counts, outcome, undef. intros Hm Hf.
  change (run_io _ (m ≫= f) w) with (run_io _ m w ≫= λ r, run_io _ (f r.1) r.2).
  unfold mbind, tap_bind. cbn [run_tap]. destruct (run_tap (run_io _ m w)) as [[r t]|]; [|done].
  destruct Hm as (_ & _ & HP). by rewrite (Hf _ _ HP).
Qed.

Lemma undef_head {A B} (m : io A) (f : A → io B) w : undef m w → undef (m ≫= f) w.
Proof.
  unfold undef. intros Hm. change (run_io _ (m ≫= f) w) with (run_io _ m w ≫= λ r, run_io _ (f r.1) r.2).
  unfold mbind, tap_bind. cbn [run_tap]. by rewrite Hm.
Qed.

Lemma undef_blit buf off data w :
  Z.of_nat (length buf) < off + Z.of_nat (length data) → undef (blit buf off data) w.
Proof.
  intros Hl. unfold blit. rewrite (proj2 (Z.leb_gt (off + _) _)) by lia. by rewrite andb_false_r.
Qed.

Context (Hrand : ∀ n, 0 ≤ rand n).

Lemma rem_bounds n m : 0 < m → 0 ≤ Z.rem (rand n) m < m.
Proof. intros Hm. apply Z.rem_bound_pos; [apply Hrand|done]. Qed.

Lemma block_size_bounds left d gap : 0 ≤ gap → 0 ≤ block_size left d gap ≤ gap.
Proof.
  intros Hg. unfold block_size. pose proof (rem_bounds d (read_size / 2) ltac:(reflexivity)) as Hr.
  change (read_size / 2) with 8192 in *. change (read_size + read_size / 4) with 20480.
  destruct (left =? 1)%nat; lia.
Qed.

(** The state between two blocks. *)
Definition block_state (eof : Z) (d : nat) (total : Z) (st : bytes * Z) (w : world) : Prop :=
  Z.of_nat (length st.1) = BUFF_SIZE17133 ∧ st.2 = total ∧ end_of_file (info w) = eof ∧ drawn w = d.

(** The run counts [n] checks if [b] holds and is undefined otherwise. *)
Definition result {A} (b : bool) (n : nat) (m : io A) (w : world) (Q : A → world → Prop) : Prop :=
  if b then counts n m w Q else undef m w.

Lemma result_bind {A B} b n k (m : io A) (f : A → io B) w Q :
  counts n m w (λ a w', result b k (f a) w' Q) → result b (n + k) (m ≫= f) w Q.
Proof. destruct b; cbn; intros H; [by apply counts_bind|]. by eapply undef_seq. Qed.

Lemma result_after {A B} b c n k (m : io A) (f : A → io B) w P Q :
  result b n m w P → (b = true → ∀ a w', P a w' → result c k (f a) w' Q) → result (b && c) (n + k) (m ≫= f) w Q.
Proof.
  destruct b; cbn; intros Hm Hf; [|by apply undef_head]. apply result_bind. eapply counts_mono; [exact Hm|]. auto.
Qed.

Lemma result_eq {A} b n k (m : io A) w Q : result b n m w Q → n = k → result b k m w Q.
Proof. by intros ? ->. Qed.

(** The first step of a function, when it is one of the simple statements. *)
Ltac result_step := eapply result_bind; count_step.

(** A block makes three checks if it fits into the comparison buffer, and overflows it otherwise. *)
Lemma read_block_result left st w eof d total :
  block_state eof d total st w → 0 ≤ total ≤ eof → eof ≤ BUFF_SIZE17133 →
  let n := block_size left d (eof - total) in
  result (n <=? eof_block_size) 3 (read_block rand junk left st) w (block_state eof (S d) (total + n)).
Proof.
  intros (Hb & Ht & He & Hd) Htot Heof n. destruct st as [buf_i total']. cbn [fst snd] in *. subst total'.
  pose proof (block_size_bounds left d (eof - total) ltac:(lia)) as Hn. fold n in Hn.
  assert (Hcur : (if (left =? 1)%nat then end_of_file (info w) - total
                  else Z.min (end_of_file (info w) - total)
                         (read_size + read_size / 4 - Z.rem (rand (drawn w)) (read_size / 2))) = n).
  { unfold n, block_size. by rewrite He, Hd. }
  unfold read_block. cbv zeta. cbn [fst snd]. eapply result_eq.
  - result_step. result_step. eapply result_bind, counts_modulo; [by vm_compute|]. rewrite Hcur, He.
    eapply result_bind, counts_assert; [apply Z.leb_le; lia|].
    eapply result_bind, counts_read_into; [lia..|]. intros r c Hr Hc. cbn [info file encrypt_tmp_files drawn] in *.
    result_step. eapply result_bind, counts_on_info. cbn [fst snd info file encrypt_tmp_files drawn].
    eapply result_bind, counts_read_into; [lia| |rewrite Hr|]; [destruct (Z.leb_spec n 19); lia..|].
    intros r' c' Hr' Hc'. cbn [info file encrypt_tmp_files drawn] in *.
    result_step. eapply result_bind, counts_on_info. cbn [fst snd info file encrypt_tmp_files drawn].
    pose proof (length_malloc junk eof_block_size) as Hm. pose proof (length_filled FILL n) as Hf.
    destruct (Z.leb_spec n eof_block_size).
    + apply (result_bind true 0), counts_blit; [lia|lia|].
      intros buf' _. cbn [result]. eapply counts_eq; [repeat count_step|reflexivity].
      unfold block_state. cbn [fst snd info drawn]. rewrite eof_clear, Hc', eof_clear, Hc, Hr', Hr, Hd.
      split; [exact Hb|]. split; [reflexivity|]. split; [exact He|reflexivity].
    + apply undef_head, undef_blit. rewrite Hm, Hf. change (Z.max 0 eof_block_size) with eof_block_size. lia.
  - reflexivity.
Qed.

(** After the last block of a chunk everything up to the end of file is read. *)
Lemma read_blocks_result left : ∀ st w eof d total,
  block_state eof d total st w → 0 ≤ total ≤ eof → eof ≤ BUFF_SIZE17133 →
  result (blocks_fit left d (eof - total)) (left * 3) (read_blocks rand junk left st) w
    (block_state eof (d + left) (if (left =? 0)%nat then total else eof)).
Proof.
  induction left as [|left IH]; intros st w eof d total Hst Htot Heof.
  { cbn. apply counts_ret. by rewrite Nat.add_0_r. }
  cbn [blocks_fit read_blocks]. set (n := block_size (S left) d (eof - total)).
  pose proof (block_size_bounds (S left) d (eof - total) ltac:(lia)) as Hn. fold n in Hn.
  change (S left * 3)%nat with (3 + left * 3)%nat.
  eapply result_after; [exact (read_block_result (S left) st w eof d total Hst Htot Heof)|].
  intros _ st' w' Hst'. fold n in Hst'.
  specialize (IH st' w' eof (S d) (total + n) Hst' ltac:(lia) Heof).
  replace (eof - total - n) with (eof - (total + n)) by lia.
  replace (block_state eof (d + S left) (if (S left =? 0)%nat then total else eof))
    with (block_state eof (S d + left) (if (left =? 0)%nat then total + n else eof)); [exact IH|].
  f_equal; [lia|]. cbn. destruct left; [|done]. cbn. unfold n, block_size. cbn. lia.
Qed.

(** The end of file before the chunk with counter [k] leaves room for the longest chunks that follow. *)
Definition eof_room (k : nat) (eof : Z) : Prop := 0 ≤ eof ∧ (k ≠ 0%nat → eof + (Z.of_nat k - 1) * 81920 ≤ 245760).

Lemma next_eof_bounds k d eof :
  eof_room (S k) eof → eof ≤ next_eof (S k) d eof ≤ BUFF_SIZE17133 ∧ eof_room k (next_eof (S k) d eof).
Proof.
  intros [H0 He]. specialize (He ltac:(lia)). unfold next_eof, eof_room.
  pose proof (rem_bounds (if twice then S d else d) (eof_block_size / 2) ltac:(reflexivity)) as Hr.
  change (eof_block_size / 2) with 32768 in *. change eof_block_size with 65536. change (65536 / 4) with 16384.
  change BUFF_SIZE17133 with 262144. generalize dependent (Z.rem (rand (if twice then S d else d)) 32768). intros x Hx.
  destruct k; cbn [Nat.eqb]; split; lia.
Qed.

Lemma my_min_rand_counts base w (Q : Z → world → Prop) :
  base ≤ BUFF_SIZE17133 →
  (∀ w', info w' = info w → drawn w' = (if twice then S (S (drawn w)) else S (drawn w)) →
     Q (base - Z.rem (rand (if twice then S (drawn w) else drawn w)) (eof_block_size / 2)) w') →
  counts 0 (my_min_rand rand twice BUFF_SIZE17133 base (eof_block_size / 2)) w Q.
Proof.
  intros Hb HQ. unfold my_min_rand.
  apply (counts_bind 0 0), counts_draw, (counts_bind 0 0), counts_modulo; [by vm_compute|].
  pose proof (rem_bounds (drawn w) (eof_block_size / 2) ltac:(reflexivity)) as Hr.
  rewrite (proj2 (Z.ltb_ge _ _)) by lia. destruct twice.
  - apply (counts_bind 0 0), counts_draw, (counts_bind 0 0), counts_modulo; [by vm_compute|].
    cbn [info file encrypt_tmp_files drawn]. apply counts_ret. by apply HQ.
  - apply counts_ret. by apply HQ.
Qed.

Lemma read_chunk_result k st w eof d :
  block_state eof d eof st w → eof_room k eof → k ≠ 0%nat →
  result (blocks_fit 4 (chunk_start k d) (next_eof k d eof - eof)) 14 (read_chunk rand junk twice k st) w
    (block_state (next_eof k d eof) (chunk_start k d + 4) (next_eof k d eof)).
Proof.
  intros (Hb & Ht & He & Hd) Heof Hk. destruct k as [|k]; [done|].
  destruct (next_eof_bounds k d eof Heof) as [Hne _]. destruct Heof as [H0 Hroom].
  unfold read_chunk. eapply result_eq.
  - result_step. eapply (result_bind _ 0). eapply counts_mono with (P := λ e w',
      e = next_eof (S k) d eof ∧ info w' = info w ∧ drawn w' = chunk_start (S k) d).
    { unfold next_eof, chunk_start. destruct (Nat.eqb_spec (S k) 1).
      - apply counts_ret. by rewrite Hd.
      - apply my_min_rand_counts; [|by rewrite He, Hd].
        rewrite He. change (eof_block_size / 4) with 16384. change eof_block_size with 65536.
        change BUFF_SIZE17133 with 262144. lia. }
    intros e w' (-> & Hi & Hd'). result_step.
    rewrite <- (andb_true_r (blocks_fit _ _ _)). eapply result_after.
    + apply (read_blocks_result (Z.to_nat read_iter) st _ (next_eof (S k) d eof) (chunk_start (S k) d) eof); [|lia|lia].
      split; [exact Hb|]. split; [exact Ht|]. split; [apply eof_set|exact Hd'].
    + intros _ st' w'' Hst'. cbn [result]. eapply counts_eq; [repeat count_step|reflexivity]. exact Hst'.
  - reflexivity.
Qed.

Lemma read_chunks_result k : ∀ st w eof d,
  block_state eof d eof st w → eof_room k eof →
  result (chunks_fit k d eof) (k * 14) (read_chunks rand junk twice k st) w (λ st' w', Z.of_nat (length st'.1) = BUFF_SIZE17133).
Proof.
  induction k as [|k IH]; intros st w eof d Hst Heof.
  { apply counts_ret. apply Hst. }
  cbn [chunks_fit read_chunks]. change (S k * 14)%nat with (14 + k * 14)%nat.
  eapply result_after; [by apply read_chunk_result|].
  intros _ st' w' Hst'. apply IH; [done|]. apply (next_eof_bounds k d eof Heof).
Qed.

Lemma mdev17133_result w (Q : () → world → Prop) :
  (∀ u w', Q u w') →
  result (chunks_fit 4 (drawn w) 0) 63 (mdev17133 rand junk twice) w Q.
Proof.
  intros HQ. unfold mdev17133. cbv zeta. eapply result_eq.
  - do 14 result_step.
    rewrite <- (andb_true_r (chunks_fit _ _ _)). eapply result_after.
    + apply (read_chunks_result (Z.to_nat eof_iter) _ _ 0); [|split; [lia|by vm_compute]].
      split; [cbn [fst]; rewrite length_filled; reflexivity|]. split; [reflexivity|]. split; [apply eof_set|reflexivity].
    + intros _ st' w' _. cbn [result]. eapply counts_eq; [repeat count_step|reflexivity]. apply HQ.
  - reflexivity.
Qed.

(** * MDEV-10963 *)

(** Starting from at least [low] bytes to copy with [left] fragments to go, no divisor of the loop is zero. *)
Fixpoint fragments_ok (left : nat) (low : Z) : bool :=
  match left with
  | O => true
  | 1%nat => 1 <=? 2 * low
  | S left' => let q := 2 * low / Z.of_nat left in (1 <=? q) && fragments_ok left' (low - (q - 1))
  end.

Lemma fragment_low l low rest : 2 ≤ l → low ≤ rest → low - 2 * low / l ≤ rest - 2 * rest / l.
Proof.
  intros Hl Hle. assert (2 * rest / l ≤ (2 * low + (rest - low) * l) / l) as H.
  { apply Z.div_le_mono; [lia|]. nia. }
  rewrite Z.div_add in H by lia. lia.
Qed.

Lemma copy_fragments_counts total left : ∀ low copied w (Q : Z → world → Prop),
  fragments_ok left low = true → low ≤ total - copied → 0 ≤ low → (∀ n w', Q n w') →
  counts left (copy_fragments rand total left copied) w Q.
Proof.
  induction left as [|left IH]; intros low copied w Q Hok Hlow H0 HQ; [by apply counts_ret|].
  set (rest := total - copied) in *.
  assert (1 ≤ 2 * rest / Z.of_nat (S left) ∧
          (left ≠ 0%nat → fragments_ok left (low - (2 * low / Z.of_nat (S left) - 1)) = true)) as [Hq Hok'].
  { destruct left as [|left]; cbn [fragments_ok] in Hok.
    - apply Z.leb_le in Hok. rewrite Z.div_1_r. split; [lia|done].
    - apply andb_true_iff in Hok as [Hq%Z.leb_le Hok]. split; [|done].
      etransitivity; [exact Hq|]. apply Z.div_le_mono; lia. }
  cbn [copy_fragments]. fold rest. set (q := 2 * rest / Z.of_nat (S left)) in *.
  pose proof (rem_bounds (drawn w) q ltac:(lia)) as Hr.
  change (S left) with (0 + (0 + (0 + (0 + (1 + left)))))%nat at 1.
  apply counts_bind, counts_draw. apply counts_bind, counts_modulo; [lia|]. set (n := Z.rem _ _) in *.
  apply counts_bind, counts_assert.
  { destruct left as [|left]; [by rewrite orb_true_r|]. apply orb_true_iff. left. apply Z.leb_le.
    assert (q ≤ rest); [|lia]. apply Z.div_le_upper_bound; nia. }
  apply counts_bind, counts_copy_to_file. intros res w' _. apply counts_bind, counts_ok. destruct left as [|left]; [by apply counts_ret|].
  apply (IH (low - (2 * low / Z.of_nat (S (S left)) - 1))); [by apply Hok'| | |done].
  - pose proof (fragment_low (Z.of_nat (S (S left))) low rest ltac:(lia) Hlow). fold q in H. lia.
  - assert (2 * low / Z.of_nat (S (S left)) ≤ low); [|lia]. apply Z.div_le_upper_bound; nia.
Qed.

Lemma copy_rounds_counts n : ∀ w (Q : () → world → Prop),
  (∀ u w', Q u w') → counts (n * 20) (copy_rounds rand BUFF_SIZE10963 n) w Q.
Proof.
  induction n as [|n IH]; intros w Q HQ; [by apply counts_ret|].
  cbn [copy_rounds]. change (S n * 20)%nat with (20 + (n * 20))%nat. apply counts_bind.
  unfold copy_round. eapply counts_eq.
  - do 4 count_step. eapply counts_bind, (copy_fragments_counts _ (Z.to_nat n_frag) BUFF_SIZE10963);
      [vm_compute; reflexivity|lia|by vm_compute|].
    intros copied w'. eapply counts_bind, counts_copy_to_file. intros res w'' _. do 11 count_step.
    apply (counts_bind 0), counts_get_file, (counts_bind 0), counts_set_file, IH. exact HQ.
  - reflexivity.
Qed.

(** The half megabyte that MDEV-10963 copies can be written into a cache just opened. *)
Definition source_written : Prop := ∀ c, (my_b_write (filled FILL BUFF_SIZE10963) (open_cached_file CACHE_SIZE c).2).1 = 0.

Context (Hwrite : source_written).

Lemma mdev10963_counts w (Q : () → world → Prop) : (∀ u w', Q u w') → counts 163 (mdev10963 rand) w Q.
Proof.
  intros HQ. unfold mdev10963. cbv zeta. eapply counts_eq.
  - do 4 count_step. eapply counts_bind, counts_on_info. cbn [fst snd info file encrypt_tmp_files drawn].
    do 2 count_step. eapply counts_bind, counts_on_info. cbn [fst snd info file encrypt_tmp_files drawn].
    do 2 count_step. rewrite tell_written, length_filled by apply Hwrite.
    change (Z.max 0 BUFF_SIZE10963) with BUFF_SIZE10963. do 8 count_step.
    eapply counts_bind, copy_rounds_counts. intros u w'. repeat count_step. apply HQ.
  - reflexivity.
Qed.

(** Everything after the plan. *)
Lemma main_result w :
  result (chunks_fit 4 (drawn w) 0) 277
    (set_encrypt true ;; temp_io_cache ;; set_encrypt false ;; temp_io_cache ;; mdev9044 junk ;; set_encrypt true ;;
     mdev10259 ;; set_encrypt false ;; mdev14014 ;; mdev17133 rand junk twice ;; mdev10963 rand) w (λ _ _, True).
Proof.
  eapply result_eq.
  - eapply result_bind, counts_set_encrypt.
    eapply result_bind, temp_io_cache_counts. intros _ w1 H1. eapply result_bind, counts_set_encrypt.
    eapply result_bind, temp_io_cache_counts. intros _ w2 H2.
    eapply result_bind, mdev9044_counts. intros _ w3 H3. eapply result_bind, counts_set_encrypt.
    eapply result_bind, mdev10259_counts. intros _ w4 H4. eapply result_bind, counts_set_encrypt.
    eapply result_bind, mdev14014_counts. intros _ w5 H5. cbn [drawn] in *.
    replace (drawn w) with (drawn w5) by congruence. rewrite <- (andb_true_r (chunks_fit _ _ _)).
    eapply result_after; [apply (mdev17133_result w5 (λ _ _, True)); done|].
    intros _ u w6 _. apply mdev10963_counts. done.
  - reflexivity.
Qed.

Lemma planned_result {A} b n z (body : io A) w Q :
  result b n body w Q →
  if b then outcome (run_io _ (lift (plan z) ;; body) w) (λ _ t, plans t = [z] ∧ length (verdicts t) = n)
  else run_tap (run_io _ (lift (plan z) ;; body) w) = None.
Proof.
  change (run_io _ (lift (plan z) ;; body) w) with ((a ← plan z; mret (a, w)) ≫= λ r, run_io _ body r.2).
  destruct b; cbn [result].
  - intros Hm. apply outcome_bind, outcome_bind, outcome_emit, outcome_ret. eapply outcome_mono; [|exact Hm].
    intros r t (Hv & Hp & _). cbn [app plans verdicts]. by rewrite Hp, Hv.
  - unfold undef. intros Hm. unfold mbind, tap_bind. cbn. by rewrite Hm.
Qed.

(** The overall run. *)
Lemma main_outcome w :
  if chunks_fit 4 (drawn w) 0
  then outcome (run_io _ (main rand junk twice) w) (λ _ t, plans t = [277] ∧ length (verdicts t) = 277%nat)
  else run_tap (run_io _ (main rand junk twice) w) = None.
Proof. exact (planned_result _ _ 277 _ w _ (main_result w)). Qed.

End counting.

(** * A sufficient condition *)

(** Four blocks fit as long as the chunk is not longer than 102403 bytes. *)
Lemma blocks_fit_small (rand : nat → Z) d gap :
  (∀ n, 0 ≤ rand n) → 0 ≤ gap ≤ 102403 → blocks_fit rand 4 d gap = true.
Proof.
  intros Hr Hg. cbn [blocks_fit]. unfold block_size. cbn [Nat.eqb].
  change (read_size + read_size / 4) with 20480. change (read_size / 2) with 8192. change eof_block_size with 65536.
  pose proof (rem_bounds rand Hr d 8192 ltac:(lia)). pose proof (rem_bounds rand Hr (S d) 8192 ltac:(lia)).
  pose proof (rem_bounds rand Hr (S (S d)) 8192 ltac:(lia)).
  generalize dependent (Z.rem (rand d) 8192). generalize dependent (Z.rem (rand (S d)) 8192).
  generalize dependent (Z.rem (rand (S (S d))) 8192). intros x Hx y Hy z Hz.
  rewrite !andb_true_iff, !Z.leb_le. lia.
Qed.

(** Everything fits if no random shortening of the end of file exceeds 28673. *)
Lemma chunks_fit_moderate (rand : nat → Z) twice d :
  (∀ n, 0 ≤ rand n) → (∀ n, Z.rem (rand n) 32768 ≤ 28673) → chunks_fit rand twice 4 d 0 = true.
Proof.
  intros Hr Hm. cbn [chunks_fit]. unfold next_eof. cbn [Nat.eqb].
  change (eof_block_size / 2) with 32768. change (eof_block_size / 4) with 16384. change eof_block_size with 65536.
  change BUFF_SIZE17133 with 262144.
  assert (Hx : ∀ n, 0 ≤ Z.rem (rand n) 32768 ≤ 28673).
  { intros n. split; [|apply Hm]. by apply (rem_bounds rand Hr n 32768). }
  set (d1 := (chunk_start twice 4 d + 4)%nat). set (d2 := (chunk_start twice 3 d1 + 4)%nat).
  set (x := Z.rem (rand (if twice then S d else d)) 32768). set (y := Z.rem (rand (if twice then S d1 else d1)) 32768).
  set (z := Z.rem (rand (if twice then S d2 else d2)) 32768).
  assert (0 ≤ x ≤ 28673 ∧ 0 ≤ y ≤ 28673 ∧ 0 ≤ z ≤ 28673) as (? & ? & ?) by (split; [|split]; apply Hx).
  clearbody x y z.
  rewrite !blocks_fit_small by (done || lia). done.
Qed.

(** * A cache that only keeps its end of file *)

Definition null_lib : iocache_lib := {|
  IO_CACHE := Z * Z;
  pos_in_file _ := 0;
  pos_in_mem _ := 0;
  end_of_file c := c.1;
  set_end_of_file z c := (z, c.2);
  read_used _ := 0;
  read_filled _ := 0;
  clear_buffer _ c := c;
  init_io_cache_encryption _ c := c;
  open_cached_file _ c := (0, (c.1, 0));
  close_cached_file c := c;
  my_b_write s c := (0, (c.1, c.2 + Z.of_nat (length s)));
  my_b_read _ c := (1, [], c);
  my_b_fill c := (0, c);
  my_b_flush_io_cache c := (0, c);
  reinit_io_cache _ _ c := (0, c);
  my_b_tell c := c.2;
  my_b_bytes_in_cache _ := 0;
  my_pread _ _ _ := (1, []);
  FILE := ();
  my_fopen _ := ();
  my_fileno _ := 3;
  my_ftell _ := 0;
  rewind f := f;
  my_b_copy_to_file _ c f := (0, c, f);
|}.

Lemma null_lib_laws : iocache_laws null_lib.
Proof. split; intros; cbn; lia || done. Qed.

(** * Theorems *)

(** The key stub fills exactly the first sixteen bytes of a buffer that is large enough and changes nothing in one
    that is too small; in both cases it reports the key size, and asking again with that size succeeds. *)
Theorem key_get_retry a b key size :
  let r := encryption_key_get_func a b key size in
  r.2 = 16 ∧ (size < 16 → r.1.1 = ENCRYPTION_KEY_BUFFER_TOO_SMALL ∧ r.1.2 = key) ∧
  (16 ≤ size → r.1.1 = KEY_OK ∧ take 16 r.1.2 = replicate 16 (byte_of 16) ∧ drop 16 r.1.2 = drop 16 key) ∧
  (encryption_key_get_func a b key r.2).1.1 = KEY_OK.
Proof.
  unfold encryption_key_get_func. change KEY_SIZE with 16. destruct (Z.ltb_spec size 16); cbn [fst snd]; split_and!; try done; try lia.
Qed.

(** ** The encryption service *)
Section service.
Context {aes : aes_lib}.

(** What a caller of the service does with one block: the latest key, a context, the input, the end. *)
Definition service_crypt (s : encryption_service_st) (flags key_id : Z) (iv input : bytes) : option bytes :=
  let version := encryption_key_get_latest_version_ptr s key_id in
  match encryption_key_get_ptr s key_id version (replicate 16 Byte.x00) 16 with
  | (KEY_OK, key, _) =>
      let '(r0, ctx) := encryption_ctx_init_ptr s key iv flags key_id version in
      let '(r1, out, ctx) := encryption_ctx_update_ptr s ctx input in
      let '(r2, tail) := encryption_ctx_finish_ptr s ctx in
      if (r0 =? 0) && (r1 =? 0) && (r2 =? 0) then Some (out ++ tail) else None
  | _ => None
  end.

(** The cipher, used directly. *)
Definition aes_crypt (mode : my_aes_mode) (flags : Z) (key iv input : bytes) : option bytes :=
  let '(r0, ctx) := my_aes_crypt_init mode flags key iv in
  let '(r1, out, ctx) := my_aes_crypt_update ctx input in
  let '(r2, tail) := my_aes_crypt_finish ctx in
  if (r0 =? 0) && (r1 =? 0) && (r2 =? 0) then Some (out ++ tail) else None.

(** Through the handler every block is ciphered in one mode under one key, whatever key the caller names: what one caller
    encrypts every other can decrypt, if the cipher can. *)
Lemma service_crypt_key flags key_id iv input :
  service_crypt encryption_handler flags key_id iv input = aes_crypt aes_mode flags (replicate 16 (byte_of 16)) iv input.
Proof. reflexivity. Qed.
End service.

(** C38: the memory safety of the MDEV-17133 test depends on the random numbers alone: whatever the cache does, the run
    is defined and makes its 63 checks if every block fits into the 65536-byte comparison buffer, and writes past the
    end of that buffer otherwise.  It fits when no random shortening of the end of file exceeds 28673 of the
    possible 32767. *)
Theorem mdev17133_bounds `{lib : iocache_lib} `{!iocache_laws lib} rand junk twice w :
  (∀ n, 0 ≤ rand n) →
  (chunks_fit rand twice 4 (drawn w) 0 = true → counts 63 (mdev17133 rand junk twice) w (λ _ _, True)) ∧
  (chunks_fit rand twice 4 (drawn w) 0 = false → run_tap (run_io _ (mdev17133 rand junk twice) w) = None) ∧
  ((∀ n, Z.rem (rand n) 32768 ≤ 28673) → chunks_fit rand twice 4 (drawn w) 0 = true).
Proof.
  intros Hr. pose proof (mdev17133_result rand junk twice Hr w (λ _ _, True) (λ _ _, I)) as H. unfold result, undef in H.
  split; [|split].
  - intros E. rewrite E in H. exact H.
  - intros E. rewrite E in H. exact H.
  - exact (chunks_fit_moderate rand twice (drawn w) Hr).
Qed.

(** [mdev17133_bounds] where every random number is 16384. *)
Lemma mdev17133_bounds_witness :
  counts (lib := null_lib) 63 (mdev17133 (λ _, 16384) Byte.x00 true) (@World null_lib (0, 0) () false 0) (λ _ _, True).
Proof.
  pose proof (@mdev17133_bounds null_lib null_lib_laws (λ _, 16384) Byte.x00 true (@World null_lib (0, 0) () false 0)
                (λ _, ltac:(lia))) as (H & _ & Hm).
  exact (H (Hm (λ _, ltac:(vm_compute; discriminate)))).
Defined.

(** A run of MDEV-17133 that overflows: if every random number is 32767, the last block of the last chunk is 77818
    bytes long and is written into the 65536-byte buffer, whatever the cache does. *)
Theorem mdev17133_overflow `{lib : iocache_lib} `{!iocache_laws lib} junk twice w :
  run_tap (run_io _ (mdev17133 (λ _, 32767) junk twice) w) = None ∧
  block_size (λ _, 32767) 1 0 (BUFF_SIZE17133 - 3 * 49153 - 3 * 12289) = 77818 ∧ eof_block_size = 65536.
Proof.
  split; [|split; reflexivity]. pose proof (mdev17133_result (λ _, 32767) junk twice (λ _, ltac:(lia)) w (λ _ _, True) (λ _ _, I)) as H.
  unfold result, undef in H.
  assert (chunks_fit (λ _, 32767) twice 4 (drawn w) 0 = false) as E by (generalize (drawn w); destruct twice; reflexivity).
  rewrite E in H. exact H.
Qed.

(** [mdev17133_overflow] at the cache that only keeps its end of file. *)
Lemma mdev17133_overflow_witness :
  run_tap (run_io _ (mdev17133 (λ _, 32767) Byte.x00 true) (@World null_lib (0, 0) () false 0)) = None.
Proof.
  exact (proj1 (@mdev17133_overflow null_lib null_lib_laws Byte.x00 true (@World null_lib (0, 0) () false 0))).
Defined.

(** The fragment loop of MDEV-10963 never divides by zero and its assertion holds: once the source is written, whatever the
    random numbers, and whatever the cache and the file do, the test is defined and makes its 163 checks. *)
Theorem mdev10963_safe `{lib : iocache_lib} `{!iocache_laws lib} rand w :
  (∀ n, 0 ≤ rand n) → source_written → counts 163 (mdev10963 rand) w (λ _ _, True).
Proof. intros Hr Hw. exact (mdev10963_counts rand Hr Hw w (λ _ _, True) (λ _ _, I)). Qed.

(** [mdev10963_safe] where every random number is the largest one. *)
Lemma mdev10963_safe_witness :
  counts (lib := null_lib) 163 (mdev10963 (λ _, 2147483647)) (@World null_lib (0, 0) () false 0) (λ _ _, True).
Proof.
  exact (@mdev10963_safe null_lib null_lib_laws (λ _, 2147483647) (@World null_lib (0, 0) () false 0) (λ _, ltac:(lia)) (λ _, eq_refl)).
Defined.

(** For every cache library that can take the source of MDEV-10963, the program announces 277 checks and makes 277, provided the
    random numbers keep MDEV-17133 inside its buffer. *)
Theorem iocache_main_plan `{lib : iocache_lib} `{!iocache_laws lib} rand junk twice w :
  (∀ n, 0 ≤ rand n) → source_written → chunks_fit rand twice 4 (drawn w) 0 = true →
  outcome (run_io _ (main rand junk twice) w) (λ _ t, plans t = [277] ∧ length (verdicts t) = 277%nat).
Proof. intros Hr Hw Hf. pose proof (main_outcome rand junk twice Hr Hw w) as H. rewrite Hf in H. exact H. Qed.

(** [iocache_main_plan] where every random number is 16384. *)
Lemma iocache_main_plan_witness :
  outcome (run_io _ (main (λ _, 16384) Byte.x00 true) (@World null_lib (0, 0) () false 0))
    (λ _ t, plans t = [277] ∧ length (verdicts t) = 277%nat).
Proof.
  exact (@iocache_main_plan null_lib null_lib_laws (λ _, 16384) Byte.x00 true (@World null_lib (0, 0) () false 0)
           (λ _, ltac:(lia)) (λ _, eq_refl) eq_refl).
Defined.
