(* ===== verification/RbtSuite.v ===== *)
(** The red-black tree test, src/references/mariadb/storage/innobase/unittest/innodb_rbt-t.cc: the tree is filled with
    42 document ids under a correct and under a truncating comparator.

    The tree (ut0rbt, not part of the sources) is the parameter [rbt_lib]; what is documented of it ([rbt_laws]) holds
    for comparators that order the keys.  The theorems: the correct comparator orders 64-bit numbers, the truncating
    one does not even order the ids of the test, and the checks of the program pass exactly if the second loses an
    id. *)

From S2P Require Import Prelude Tap.
From stdpp Require Import gmap.
Open Scope Z_scope.

(** * The program *)

Definition doc_ids : list Z :=
  [103571; 104018; 106821; 108647; 109352; 109379;
   110325; 122868; 210682130; 231275441; 234172769; 366236849;
   526467159; 1675241735; 1675243405; 1947751899; 1949940363; 2033691953;
   2148227299; 2256289791; 2294223591; 2367501260; 2792700091; 2792701220;
   2817121627; 2820680352; 2821165664; 3253312130; 3404918378; 3532599429;
   3538712078; 3539373037; 3546479309; 3566641838; 3580209634; 3580871267;
   3693930556; 3693932734; 3693932983; 3781949558; 3839877411; 3930968983].

Definition fts_doc_id_cmp (a b : Z) : Z := if a <? b then -1 else Z.b2z (b <? a).

(** The conversion of an unsigned 64-bit number to [int]. *)
Definition to_int (x : Z) : Z := let y := x mod 2 ^ 32 in if y <? 2 ^ 31 then y else y - 2 ^ 32.

Definition fts_doc_id_buggy_cmp (a b : Z) : Z := to_int ((a - b) mod 2 ^ 64).

Definition comparator : Type := Z → Z → Z.

Class rbt_lib := {
  rbt : Type;
  rbt_bound : Type;
  rbt_create : comparator → rbt;
  rbt_search : rbt → Z → Z * rbt_bound;
  rbt_add_node : rbt → rbt_bound → Z → rbt;
  rbt_insert : rbt → Z → Z → rbt;
}.

Section program.
Context `{L : rbt_lib}.

Fixpoint rbt_populate_loop (ids : list Z) (t : rbt) : rbt :=
  match ids with
  | [] => t
  | doc_id :: ids' =>
      let r := rbt_search t doc_id in
      rbt_populate_loop ids' (if negb (r.1 =? 0) then rbt_add_node t r.2 doc_id else t)
  end.

Definition rbt_populate (t : rbt) : rbt := rbt_populate_loop doc_ids t.

Fixpoint rbt_populate2_loop (ids : list Z) (t : rbt) : rbt :=
  match ids with
  | [] => t
  | doc_id :: ids' => rbt_populate2_loop ids' (rbt_insert t doc_id doc_id)
  end.

Definition rbt_populate2 (t : rbt) : rbt := rbt_populate2_loop doc_ids t.

Fixpoint rbt_search_all_loop (ids : list Z) (t : rbt) : bool :=
  match ids with
  | [] => true
  | doc_id :: ids' => if negb ((rbt_search t doc_id).1 =? 0) then false else rbt_search_all_loop ids' t
  end.

Definition rbt_search_all (t : rbt) : bool := rbt_search_all_loop doc_ids t.

Definition rbt_test (cmp : comparator) (buggy : bool) : tap () :=
  let t := rbt_populate (rbt_create cmp) in
  ok (negb (Bool.eqb (rbt_search_all t) buggy)) "search after populate" [] ;;
  let t := rbt_populate2 (rbt_create cmp) in
  ok (negb (Bool.eqb (rbt_search_all t) buggy)) "search after populate2" [].

Definition main : tap () :=
  rbt_test fts_doc_id_buggy_cmp true ;;
  rbt_test fts_doc_id_cmp false.

End program.

(** * What is documented of the tree *)

Definition is_u64 (x : Z) : Prop := 0 ≤ x < 2 ^ 64.

(** A comparator as [bsearch] and [qsort] ask for: its sign is that of a strict total order of the 64-bit keys. *)
Record orders (cmp : comparator) : Prop := {
  cmp_zero a b : is_u64 a → is_u64 b → cmp a b = 0 ↔ a = b;
  cmp_antisym a b : is_u64 a → is_u64 b → cmp a b < 0 ↔ 0 < cmp b a;
  cmp_trans a b c : is_u64 a → is_u64 b → is_u64 c → cmp a b < 0 → cmp b c < 0 → cmp a c < 0;
}.

(** [holds cmp X t]: the tree [t], created with [cmp], contains the keys [X].  For a comparator that orders the keys, a
    search returns 0 exactly for a key of the tree and otherwise leaves the place where the key belongs. *)
Class rbt_laws (L : rbt_lib) (holds : comparator → gset Z → rbt → Prop) : Prop := {
  holds_create cmp : orders cmp → holds cmp ∅ (rbt_create cmp);
  holds_search cmp X t k : orders cmp → is_u64 k → holds cmp X t → (rbt_search t k).1 = 0 ↔ k ∈ X;
  holds_add cmp X t k : orders cmp → is_u64 k → holds cmp X t → (rbt_search t k).1 ≠ 0 →
    holds cmp ({[k]} ∪ X) (rbt_add_node t (rbt_search t k).2 k);
  holds_insert cmp X t k : orders cmp → is_u64 k → holds cmp X t → holds cmp ({[k]} ∪ X) (rbt_insert t k k);
}.

(** * Proofs *)

Lemma fts_doc_id_cmp_orders : orders fts_doc_id_cmp.
Proof.
  split; unfold fts_doc_id_cmp; intros *.
  - destruct (Z.ltb_spec a b), (Z.ltb_spec b a); cbn; lia.
  - destruct (Z.ltb_spec a b), (Z.ltb_spec b a); cbn; lia.
  - destruct (Z.ltb_spec a b), (Z.ltb_spec b a), (Z.ltb_spec b c), (Z.ltb_spec c b), (Z.ltb_spec a c), (Z.ltb_spec c a);
      cbn; lia.
Qed.

Lemma doc_ids_u64 : Forall is_u64 doc_ids.
Proof. apply (bool_decide_unpack (Forall (λ x, 0 ≤ x < 2 ^ 64) doc_ids)). by vm_compute. Qed.

Section proofs.
Context `{L : rbt_lib} `{!rbt_laws L holds}.

Lemma populate_holds cmp ids : ∀ X t,
  orders cmp → Forall is_u64 ids → holds cmp X t → holds cmp (list_to_set ids ∪ X) (rbt_populate_loop ids t).
Proof.
  induction ids as [|k ids IH]; intros X t Hc Hk Ht; csimpl; [by rewrite union_empty_l_L|].
  apply Forall_cons in Hk as [Hk Hks].
  destruct (Z.eqb_spec (rbt_search t k).1 0) as [E|E]; cbn [negb].
  - apply (holds_search cmp X t k Hc Hk Ht) in E.
    replace ({[k]} ∪ list_to_set ids ∪ X) with (list_to_set ids ∪ X) by set_solver. by apply IH.
  - replace ({[k]} ∪ list_to_set ids ∪ X) with (list_to_set ids ∪ ({[k]} ∪ X)) by set_solver. apply IH; [done..|].
    by apply holds_add.
Qed.

Lemma populate2_holds cmp ids : ∀ X t,
  orders cmp → Forall is_u64 ids → holds cmp X t → holds cmp (list_to_set ids ∪ X) (rbt_populate2_loop ids t).
Proof.
  induction ids as [|k ids IH]; intros X t Hc Hk Ht; csimpl; [by rewrite union_empty_l_L|].
  apply Forall_cons in Hk as [Hk Hks].
  replace ({[k]} ∪ list_to_set ids ∪ X) with (list_to_set ids ∪ ({[k]} ∪ X)) by set_solver.
  apply IH; [done..|]. by apply holds_insert.
Qed.

Lemma search_all_holds cmp ids X t :
  orders cmp → Forall is_u64 ids → holds cmp X t → list_to_set ids ⊆ X → rbt_search_all_loop ids t = true.
Proof.
  intros Hc Hk Ht. induction ids as [|k ids IH]; intros HX; [done|]. apply Forall_cons in Hk as [Hk Hks].
  csimpl in HX. cbn. rewrite (proj2 (holds_search cmp X t k Hc Hk Ht)) by set_solver. cbn. apply IH; set_solver.
Qed.

(** Under a comparator that orders the keys both ways of filling the tree keep every id. *)
Lemma ordered_test_finds cmp :
  orders cmp →
  rbt_search_all (rbt_populate (rbt_create cmp)) = true ∧ rbt_search_all (rbt_populate2 (rbt_create cmp)) = true.
Proof.
  intros Hc. pose proof (holds_create cmp Hc) as He. pose proof doc_ids_u64 as Hd.
  split; eapply search_all_holds; [done|done| | |done|done| |].
  - by apply (populate_holds cmp doc_ids ∅).
  - set_solver.
  - by apply (populate2_holds cmp doc_ids ∅).
  - set_solver.
Qed.

End proofs.

(** * A list as a tree *)

Definition list_lib : rbt_lib := {|
  rbt := comparator * list Z;
  rbt_bound := ();
  rbt_create cmp := (cmp, []);
  rbt_search t k := (if existsb (λ x, t.1 k x =? 0) t.2 then 0 else 1, ());
  rbt_add_node t _ k := (t.1, k :: t.2);
  rbt_insert t k _ := (t.1, k :: t.2);
|}.

Definition list_holds (cmp : comparator) (X : gset Z) (t : comparator * list Z) : Prop :=
  t.1 = cmp ∧ list_to_set t.2 = X ∧ Forall is_u64 t.2.

Lemma list_lib_laws : rbt_laws list_lib list_holds.
Proof.
  split; unfold list_holds; cbn.
  - intros cmp _. done.
  - intros cmp X [c l] k Hc Hk (-> & <- & Hl). cbn in *. rewrite elem_of_list_to_set.
    destruct (existsb _ l) eqn:E.
    + split; [intros _|done]. apply existsb_exists in E as (x & Hx%list_elem_of_In & Hz%Z.eqb_eq).
      rewrite Forall_forall in Hl. by rewrite (proj1 (cmp_zero _ Hc k x Hk (Hl _ Hx)) Hz).
    + split; [done|]. intros Hin. exfalso. apply not_true_iff_false in E. apply E, existsb_exists. exists k.
      split; [by apply list_elem_of_In|]. apply Z.eqb_eq. by apply (cmp_zero _ Hc).
  - intros cmp X [c l] k Hc Hk (-> & <- & Hl) _. cbn. split_and!; [done|done|by constructor].
  - intros cmp X [c l] k Hc Hk (-> & <- & Hl). cbn. split_and!; [done|done|by constructor].
Qed.

(** * Theorems *)

(** With any tree that behaves as documented, the program runs four checks without announcing a plan; the two with
    the correct comparator pass, and the two with the truncating comparator pass exactly if the tree loses an id under
    it. *)
Theorem rbt_main_checks `{L : rbt_lib} `{!rbt_laws L holds} :
  outcome main (λ _ t, plans t = [] ∧
    verdicts t = [negb (rbt_search_all (rbt_populate (rbt_create fts_doc_id_buggy_cmp)));
                  negb (rbt_search_all (rbt_populate2 (rbt_create fts_doc_id_buggy_cmp))); true; true]).
Proof.
  destruct (ordered_test_finds _ fts_doc_id_cmp_orders) as [H1 H2].
  unfold main, rbt_test. rewrite H1, H2.
  generalize (rbt_search_all (rbt_populate (rbt_create fts_doc_id_buggy_cmp)))
    (rbt_search_all (rbt_populate2 (rbt_create fts_doc_id_buggy_cmp))). by intros [] [].
Qed.

(** [rbt_main_checks] for the list in place of a tree, which loses nothing. *)
Lemma rbt_main_checks_witness :
  outcome (main (L := list_lib)) (λ _ t, plans t = [] ∧ verdicts t = [false; false; true; true]).
Proof.
  pose proof (@rbt_main_checks list_lib list_holds list_lib_laws) as H. exact H.
Defined.

(** The correct comparator orders all 64-bit numbers; the truncating one is the difference modulo 2^32 read as a signed
    number, orders pairs correctly when they are less than 2^31 apart, and fails to be transitive on three of the ids of
    the test. *)
Theorem comparators_order :
  orders fts_doc_id_cmp ∧
  (∀ a b, is_u64 a → is_u64 b → Z.abs (a - b) < 2 ^ 31 → fts_doc_id_buggy_cmp a b = a - b) ∧
  (∃ a b c, a ∈ doc_ids ∧ b ∈ doc_ids ∧ c ∈ doc_ids ∧ fts_doc_id_buggy_cmp a b < 0 ∧ fts_doc_id_buggy_cmp b c < 0 ∧
     0 < fts_doc_id_buggy_cmp a c) ∧ ~ orders fts_doc_id_buggy_cmp.
Proof.
  assert (∃ a b c, a ∈ doc_ids ∧ b ∈ doc_ids ∧ c ∈ doc_ids ∧ fts_doc_id_buggy_cmp a b < 0 ∧ fts_doc_id_buggy_cmp b c < 0 ∧
     0 < fts_doc_id_buggy_cmp a c) as Hn.
  { exists 103571, 1675241735, 2792700091.
    split_and!; [by apply (list_elem_of_lookup_2 _ 0)|by apply (list_elem_of_lookup_2 _ 13)|
      by apply (list_elem_of_lookup_2 _ 22)|by vm_compute..]. }
  split_and!; [apply fts_doc_id_cmp_orders| |done|].
  - intros a b Ha Hb Hd. unfold fts_doc_id_buggy_cmp, to_int.
    rewrite <- Znumtheory.Zmod_div_mod by (try lia; by exists (2 ^ 32)).
    destruct (Z.le_gt_cases b a) as [Hle|Hlt].
    + rewrite Z.mod_small by lia. by rewrite (proj2 (Z.ltb_lt _ _)) by lia.
    + rewrite <- (Z.mod_unique_pos (a - b) (2 ^ 32) (-1) (a - b + 2 ^ 32)) by lia.
      rewrite (proj2 (Z.ltb_ge _ _)) by lia. lia.
  - destruct Hn as (a & b & c & Ha & Hb & Hc & Hab & Hbc & Hac). intros Ho.
    pose proof doc_ids_u64 as Hu. rewrite Forall_forall in Hu.
    pose proof (cmp_trans _ Ho a b c (Hu _ Ha) (Hu _ Hb) (Hu _ Hc) Hab Hbc). lia.
Qed.
