(* ===== verification/FtsSuite.v ===== *)
(** The variable-length integer test, src/references/mariadb/storage/innobase/unittest/innodb_fts-t.cc: a table with the
    smallest and the largest number of each encoded length, encoded and decoded again.

    The coder (fts0vlc.h, not part of the sources) is the parameter [vlc_lib].  [vlc_encode] and [vlc_decode] are the
    reference the table is proved against: base 128, most significant digit first, the last byte marked. *)

From S2P Require Import Prelude Tap.
Open Scope Z_scope.

(** * The program *)

Record fts_encode_info := FtsInfo { buf : bytes; len : nat; val : Z }.

(** The initialiser of a [byte[10]]: what is not given is zero. *)
Definition bytes10 (l : list Z) : bytes := (byte_of <$> l) ++ replicate (10 - length l) Byte.x00.

Definition fts_info : list fts_encode_info :=
  [FtsInfo (bytes10 [0x80]) 1 0;
   FtsInfo (bytes10 [0xFF]) 1 (Z.shiftl 1 7 - 1);
   FtsInfo (bytes10 [0x01; 0x80]) 2 (Z.shiftl 1 7);
   FtsInfo (bytes10 [0x7F; 0xFF]) 2 (Z.shiftl 1 14 - 1);
   FtsInfo (bytes10 [0x01; 0x00; 0x80]) 3 (Z.shiftl 1 14);
   FtsInfo (bytes10 [0x7F; 0x7F; 0xFF]) 3 (Z.shiftl 1 21 - 1);
   FtsInfo (bytes10 [0x01; 0x00; 0x00; 0x80]) 4 (Z.shiftl 1 21);
   FtsInfo (bytes10 [0x7F; 0x7F; 0x7F; 0xFF]) 4 (Z.shiftl 1 28 - 1);
   FtsInfo (bytes10 [0x01; 0x00; 0x00; 0x00; 0x80]) 5 (Z.shiftl 1 28);
   FtsInfo (bytes10 [0x7F; 0x7F; 0x7F; 0x7F; 0xFF]) 5 (Z.shiftl 1 35 - 1);
   FtsInfo (bytes10 [0x01; 0x00; 0x00; 0x00; 0x00; 0x80]) 6 (Z.shiftl 1 35);
   FtsInfo (bytes10 [0x7F; 0x7F; 0x7F; 0x7F; 0x7F; 0xFF]) 6 (Z.shiftl 1 42 - 1);
   FtsInfo (bytes10 [0x01; 0x00; 0x00; 0x00; 0x00; 0x00; 0x80]) 7 (Z.shiftl 1 42);
   FtsInfo (bytes10 [0x7F; 0x7F; 0x7F; 0x7F; 0x7F; 0x7F; 0xFF]) 7 (Z.shiftl 1 49 - 1);
   FtsInfo (bytes10 [0x01; 0x00; 0x00; 0x00; 0x00; 0x00; 0x00; 0x80]) 8 (Z.shiftl 1 49);
   FtsInfo (bytes10 [0x7F; 0x7F; 0x7F; 0x7F; 0x7F; 0x7F; 0x7F; 0xFF]) 8 (Z.shiftl 1 56 - 1);
   FtsInfo (bytes10 [0x01; 0x00; 0x00; 0x00; 0x00; 0x00; 0x00; 0x00; 0x80]) 9 (Z.shiftl 1 56);
   FtsInfo (bytes10 [0x7F; 0x7F; 0x7F; 0x7F; 0x7F; 0x7F; 0x7F; 0x7F; 0xFF]) 9 (Z.shiftl 1 63 - 1);
   FtsInfo (bytes10 [0x01; 0x00; 0x00; 0x00; 0x00; 0x00; 0x00; 0x00; 0x00; 0x80]) 10 (Z.shiftl 1 63);
   FtsInfo (bytes10 [0x01; 0x7F; 0x7F; 0x7F; 0x7F; 0x7F; 0x7F; 0x7F; 0x7F; 0xFF]) 10 (Z.lxor 0 (2 ^ 64 - 1))].

(** The bytes [fts_encode_int] writes, and the value and the number of bytes [fts_decode_vlc] reads. *)
Class vlc_lib := {
  fts_encode_int : Z → bytes;
  fts_decode_vlc : bytes → Z * nat;
}.

Section program.
Context `{L : vlc_lib}.

(** The buffer is on the stack: what the encoder does not write is [junk]. *)
Context (junk : byte).

Definition check_info (info : fts_encode_info) : tap () :=
  let enc := fts_encode_int (val info) in
  if (10 <? length enc)%nat then undefined
  else
    let b := enc ++ replicate (10 - length enc) junk in
    let n := length enc in
    if (len info =? n)%nat && bool_decide (take n (buf info) = take n b) && ((fts_decode_vlc b).1 =? val info) &&
       ((fts_decode_vlc b).2 =? n)%nat
    then ok true "FTS Encoded for %zu bytes" [ArgD (Z.of_nat (len info))]
    else ok false "FTS Encoded for %zu bytes" [ArgD (Z.of_nat (len info))].

(** The loop counts down. *)
Definition main : tap () := each check_info (reverse fts_info).

End program.

(** * The reference coder *)

(** The digits of [v] in base 128, none for zero. *)
Fixpoint vlc_prefix (fuel : nat) (v : Z) : bytes :=
  match fuel with
  | O => []
  | S fuel' => if v =? 0 then [] else vlc_prefix fuel' (v / 128) ++ [byte_of (v mod 128)]
  end.

Definition vlc_encode (v : Z) : bytes := vlc_prefix 9 (v / 128) ++ [byte_of (v mod 128 + 128)].

(** The value of the digits up to the marked one, and how many there are. *)
Fixpoint vlc_decode (acc : Z) (n : nat) (b : bytes) : option (Z * nat) :=
  match b with
  | [] => None
  | c :: b' =>
      if 128 <=? byte_val c then Some (acc * 128 + (byte_val c - 128), S n)
      else vlc_decode (acc * 128 + byte_val c) (S n) b'
  end.

(** * Proofs *)

Lemma length_vlc_prefix k : ∀ fuel v,
  128 ^ Z.of_nat k ≤ v < 128 ^ Z.of_nat (S k) → (k < fuel)%nat → length (vlc_prefix fuel v) = S k.
Proof.
  induction k as [|k IH]; intros [|fuel] v Hv Hf; [lia| |lia|]; cbn [vlc_prefix].
  - rewrite (proj2 (Z.eqb_neq v 0)) by lia. change (128 ^ Z.of_nat 1) with 128 in Hv. rewrite Z.div_small by lia.
    rewrite length_app. by destruct fuel.
  - pose proof (Z.pow_pos_nonneg 128 (Z.of_nat k) ltac:(lia) ltac:(lia)).
    rewrite !Nat2Z.inj_succ, !Z.pow_succ_r in Hv by lia.
    rewrite (proj2 (Z.eqb_neq v 0)) by lia. rewrite length_app, (IH fuel (v / 128)); [cbn; lia| |lia].
    rewrite Nat2Z.inj_succ, Z.pow_succ_r by lia. split; [apply Z.div_le_lower_bound|apply Z.div_lt_upper_bound]; lia.
Qed.

(** Reading the digits of [v] before other bytes. *)
Lemma decode_prefix fuel : ∀ v acc n rest,
  0 ≤ v < 128 ^ Z.of_nat fuel →
  vlc_decode acc n (vlc_prefix fuel v ++ rest) =
  vlc_decode (acc * 128 ^ Z.of_nat (length (vlc_prefix fuel v)) + v) (n + length (vlc_prefix fuel v)) rest.
Proof.
  induction fuel as [|fuel IH]; intros v acc n rest Hv; cbn [vlc_prefix].
  { change (128 ^ Z.of_nat 0) with 1 in Hv. cbn [app length]. f_equal; lia. }
  destruct (Z.eqb_spec v 0) as [->|Hne]; [cbn [app length]; f_equal; lia|].
  rewrite Nat2Z.inj_succ, Z.pow_succ_r in Hv by lia.
  rewrite <- app_assoc, IH by (split; [apply Z.div_pos|apply Z.div_lt_upper_bound]; lia).
  rewrite length_app. set (k := length (vlc_prefix fuel (v / 128))). cbn [app length vlc_decode].
  pose proof (Z.mod_pos_bound v 128 ltac:(lia)). rewrite byte_of_val, (Z.mod_small (v mod 128) 256) by lia.
  rewrite (proj2 (Z.leb_gt _ _)) by lia.
  replace (Z.of_nat (k + 1)) with (Z.succ (Z.of_nat k)) by lia. rewrite Z.pow_succ_r by lia.
  pose proof (Z.div_mod v 128 ltac:(lia)). f_equal; lia.
Qed.

Lemma vlc_roundtrip v rest :
  0 ≤ v < 2 ^ 64 → vlc_decode 0 0 (vlc_encode v ++ rest) = Some (v, length (vlc_encode v)).
Proof.
  intros Hv. unfold vlc_encode. rewrite <- app_assoc, decode_prefix, length_app.
  - cbn [app vlc_decode length]. pose proof (Z.mod_pos_bound v 128 ltac:(lia)). rewrite byte_of_val, (Z.mod_small (v mod 128 + 128) 256) by lia.
    rewrite (proj2 (Z.leb_le _ _)) by lia. pose proof (Z.div_mod v 128 ltac:(lia)). repeat f_equal; lia.
  - split; [apply Z.div_pos; lia|apply Z.div_lt_upper_bound; [lia|]]. change (128 * 128 ^ Z.of_nat 9) with (2 ^ 70). lia.
Qed.

(** The encoded length of [v], by its size. *)
Lemma length_vlc_encode k v :
  (k ≤ 9)%nat → (k = 0%nat ∧ 0 ≤ v < 128) ∨ (k ≠ 0%nat ∧ 128 ^ Z.of_nat k ≤ v < 128 ^ Z.of_nat (S k)) →
  length (vlc_encode v) = S k.
Proof.
  intros Hk [[-> Hv]|[Hn Hv]]; unfold vlc_encode; rewrite length_app.
  - by rewrite Z.div_small by lia.
  - destruct k as [|k]; [done|]. rewrite (length_vlc_prefix k); [cbn; lia| |lia].
    rewrite !Nat2Z.inj_succ, !Z.pow_succ_r in * by lia.
    split; [apply Z.div_le_lower_bound|apply Z.div_lt_upper_bound]; lia.
Qed.

(** The rows for the encoded length [S i] are the smallest and the largest number of that length. *)
Definition bracket (i : nat) (v : Z) : Prop :=
  ∃ lo hi, fts_info !! (2 * i)%nat = Some lo ∧ fts_info !! (2 * i + 1)%nat = Some hi ∧ len lo = S i ∧ len hi = S i ∧
    val lo ≤ v ≤ val hi.

Lemma bracket_length i v : bracket i v → (i ≤ 9)%nat ∧ length (vlc_encode v) = S i.
Proof.
  intros (lo & hi & Hlo & Hhi & _ & _ & Hv).
  assert (Hi : (i ≤ 9)%nat) by (apply lookup_lt_Some in Hlo; cbn in Hlo; lia).
  split; [done|]. apply length_vlc_encode; [done|].
  do 10 (destruct i as [|i]; [injection Hlo as <-; injection Hhi as <-;
    cbv [val] in Hv; match type of Hv with ?a ≤ _ ≤ ?b => let a' := eval vm_compute in a in let b' := eval vm_compute in b in
      change (a' ≤ v ≤ b') in Hv end;
    (left; split; [reflexivity|lia]) || (right; split; [discriminate|lia])|]). lia.
Qed.

Lemma bracket_total v : 0 ≤ v < 2 ^ 64 → ∃ i, bracket i v.
Proof.
  intros Hv.
  assert (v < 2 ^ 7 ∨ 2 ^ 7 ≤ v < 2 ^ 14 ∨ 2 ^ 14 ≤ v < 2 ^ 21 ∨ 2 ^ 21 ≤ v < 2 ^ 28 ∨ 2 ^ 28 ≤ v < 2 ^ 35 ∨
          2 ^ 35 ≤ v < 2 ^ 42 ∨ 2 ^ 42 ≤ v < 2 ^ 49 ∨ 2 ^ 49 ≤ v < 2 ^ 56 ∨ 2 ^ 56 ≤ v < 2 ^ 63 ∨ 2 ^ 63 ≤ v) as H by lia.
  repeat (destruct H as [H|H]);
    [exists 0%nat|exists 1%nat|exists 2%nat|exists 3%nat|exists 4%nat|exists 5%nat|exists 6%nat|exists 7%nat|exists 8%nat|
     exists 9%nat]; eexists _, _; (split; [reflexivity|]); (split; [reflexivity|]); (split; [reflexivity|]);
     (split; [reflexivity|]); cbv [val];
     match goal with |- ?a ≤ _ ≤ ?b => let a' := eval vm_compute in a in let b' := eval vm_compute in b in
       change (a' ≤ v ≤ b') end; lia.
Qed.

(** * The checks *)

Section checks.
Context `{L : vlc_lib} (junk : byte).

(** The library writes the bytes of the row for its number and reads them back. *)
Definition meets (info : fts_encode_info) : Prop :=
  fts_encode_int (val info) = take (len info) (buf info) ∧
  fts_decode_vlc (take (len info) (buf info) ++ replicate (10 - len info) junk) = (val info, len info).

Lemma check_info_judges info :
  (length (fts_encode_int (val info)) ≤ 10)%nat → (len info ≤ length (buf info))%nat →
  judges (check_info junk info) 1 (meets info).
Proof.
  intros Hl Hb. unfold check_info, meets. cbv zeta. rewrite (proj2 (Nat.ltb_ge _ _) Hl).
  set (enc := fts_encode_int (val info)) in *.
  destruct (_ && _) eqn:E; (eapply judges_iff; [apply judges_ok|]); (split; [|]); try done.
  - intros _. rewrite !andb_true_iff in E. destruct E as [[[E1%Nat.eqb_eq E2%bool_decide_eq_true] E3%Z.eqb_eq] E4%Nat.eqb_eq].
    rewrite take_app_length in E2. rewrite E1, E2. split; [done|]. rewrite (surjective_pairing (fts_decode_vlc _)).
    by rewrite E3, E4.
  - intros [H1 H2]. exfalso. apply not_true_iff_false in E. apply E.
    assert (Hn : length enc = len info) by (rewrite H1, length_take; lia).
    rewrite !andb_true_iff, !Nat.eqb_eq, Z.eqb_eq, bool_decide_eq_true. rewrite take_app_length, Hn, H1, H2. done.
Qed.

End checks.

Lemma vlc_encode_bound v : (length (vlc_encode v) ≤ 10)%nat.
Proof.
  assert (∀ fuel v, length (vlc_prefix fuel v) ≤ fuel)%nat as Hp.
  { clear v. induction fuel as [|fuel IH]; intros v; cbn [vlc_prefix length]; [done|]. destruct (v =? 0); cbn [length]; [lia|].
    rewrite length_app. specialize (IH (v / 128)). cbn. lia. }
  unfold vlc_encode. rewrite length_app. specialize (Hp 9%nat (v / 128)). cbn [length]. lia.
Qed.

(** The reference coder as a library. *)
Definition spec_lib : vlc_lib := {|
  fts_encode_int := vlc_encode;
  fts_decode_vlc b := default (0, 0%nat) (vlc_decode 0 0 b);
|}.

(** * Theorems *)

(** The table holds, for each of the ten encoded lengths, the smallest and the largest 64-bit number of that length
    and its bytes: every 64-bit number lies between the two rows of exactly its length, and the reference coder reads
    it back whatever bytes follow. *)
Theorem fts_table_brackets :
  Forall (λ info, vlc_encode (val info) = take (len info) (buf info)) fts_info ∧
  ∀ v, 0 ≤ v < 2 ^ 64 →
    (∀ i, bracket i v ↔ length (vlc_encode v) = S i) ∧
    ∀ rest, vlc_decode 0 0 (vlc_encode v ++ rest) = Some (v, length (vlc_encode v)).
Proof.
  split; [repeat (constructor; [vm_compute; reflexivity|]); constructor|].
  intros v Hv. split; [|intros rest; by apply vlc_roundtrip].
  intros i. split; [intros Hb; apply (bracket_length _ _ Hb)|]. destruct (bracket_total v Hv) as (j & Hj). intros E.
  destruct (bracket_length _ _ Hj) as [_ E']. by replace i with j by congruence.
Qed.

(** For every coder that writes at most ten bytes, the program makes twenty checks without announcing a plan, and
    they all pass exactly if the coder writes and reads every row of the table as given. *)
Theorem fts_main_passes_iff `{L : vlc_lib} junk :
  (∀ v, length (fts_encode_int v) ≤ 10)%nat →
  outcome (main junk) (λ _ t, plans t = [] ∧ length (verdicts t) = 20%nat ∧
    (Forall (λ b, b = true) (verdicts t) ↔ Forall (meets junk) fts_info)).
Proof.
  intros Hl.
  destruct (judges_each (check_info junk) 1 (meets junk) (reverse fts_info)) as (vs & Hg & Hn & Hv).
  { assert (Forall (λ info, len info ≤ length (buf info))%nat (reverse fts_info)) as Hf
      by (repeat (constructor; [cbn; lia|]); constructor).
    intros info Hi. apply check_info_judges; [apply Hl|]. rewrite Forall_forall in Hf. by apply Hf. }
  eapply outcome_mono; [|exact Hg]. intros [] t (_ & -> & ->). split_and!; [done|by rewrite Hn|].
  by rewrite Hv, Forall_reverse.
Qed.

(** [fts_main_passes_iff] for the reference coder: all checks pass. *)
Lemma fts_main_passes_iff_witness :
  outcome (main (L := spec_lib) Byte.x00) (λ _ t, plans t = [] ∧ length (verdicts t) = 20%nat ∧
    (Forall (λ b, b = true) (verdicts t) ↔ Forall (meets (L := spec_lib) Byte.x00) fts_info)) ∧
  Forall (meets (L := spec_lib) Byte.x00) fts_info.
Proof.
  split; [apply (@fts_main_passes_iff spec_lib Byte.x00 vlc_encode_bound)|].
  repeat (constructor; [split; vm_compute; reflexivity|]). constructor.
Defined.
