(* ===== verification/ApcSuite.v ===== *)
(** The asynchronous procedure call test, src/references/mariadb/unittest/sql/my_apc-t.cc: requestor threads ask one
    service thread to store a number in a variable on their stack, and check afterwards whether the call's return value
    told the truth about it.

    The threads are interleaved by the step relation [step], one shared access or library call at a time; the counters
    are incremented under a mutex, in one step.  The call mechanism (sql/my_apc.cc, not part of the sources) is the
    parameter [apc_lib] with the laws [apc_laws]: where a request is ([request_status]) and how each library call moves
    it.  A call executed when the requestor's stack frame is gone sets [dangling].  The theorems are in [ApcFacts]. *)

From S2P Require Import Prelude Tap.
Open Scope Z_scope.

(** * The call mechanism *)

Inductive request_status := Absent | Queued | Running | Served.

#[global] Instance request_status_eq_dec : EqDecision request_status.
Proof. solve_decision. Defined.

(** What the threads do with the target: [Enable] and [Disable] by the service; [Submit], where [make_apc_call] puts
    its request into the queue and begins to wait; [Take] and [Finish], where [process_apc_requests] picks a request
    and is done with it; [Return], where [make_apc_call] returns false; [GiveUp], where it stops waiting and returns
    true; [Refuse], where it returns true at once. *)
Inductive label :=
| Enable
| Disable
| Submit (i : nat)
| Take (i : nat)
| Finish (i : nat)
| Return (i : nat)
| GiveUp (i : nat) (timed_out : bool)
| Refuse (i : nat).

(** The request a label is about, and where it is before and after. *)
Definition moves (l : label) : option (nat * request_status * request_status) :=
  match l with
  | Enable | Disable => None
  | Submit i => Some (i, Absent, Queued)
  | Take i => Some (i, Queued, Running)
  | Finish i => Some (i, Running, Served)
  | Return i => Some (i, Served, Absent)
  | GiveUp i _ => Some (i, Queued, Absent)
  | Refuse i => Some (i, Absent, Absent)
  end.

Class apc_lib := {
  Apc_target : Type;
  initialised : Apc_target;
  status : Apc_target → nat → request_status;
  apc_step : Apc_target → label → Apc_target → Prop;
}.

(** What is documented: a request is executed once by the target's thread, [make_apc_call] returns false after it was
    executed and true if it was withdrawn before that, and no call touches another thread's request. *)
Class apc_laws (L : apc_lib) : Prop := {
  initialised_empty i : status initialised i = Absent;
  apc_step_moves σ l σ' i s s' : apc_step σ l σ' → moves l = Some (i, s, s') → status σ i = s ∧ status σ' i = s';
  apc_step_others σ l σ' j : apc_step σ l σ' → (∀ s s', moves l ≠ Some (j, s, s')) → status σ' j = status σ j;
}.

(** * Threads *)

Definition N_THREADS : nat := 23.

(** Where a requestor is, with its [src_value] and the result of the call: at the head of the loop, before the call,
    inside [make_apc_call], before the counters, before the comparison, or returned. *)
Inductive requestor_pc :=
| RTest
| RCall (src_value : Z)
| RWait (src_value : Z)
| RCount (src_value : Z) (timed_out : bool)
| RVerify (src_value : Z) (res : bool)
| RExit.

(** A requestor with the variable [dst_value] of its current iteration. *)
Record requestor := Requestor { pc : requestor_pc; dst_value : Z }.

(** The part of [call_in_target_thread] that comes next. *)
Inductive call_pc := CWrite | CCount | CDone.

(** Where the service is: before its initialisation, at the head of the outer and of the inner loop with its counter,
    in [process_apc_requests], executing the call of a requestor there, shutting down, or returned. *)
Inductive service_pc :=
| SStart
| STest
| SLoop (i : nat)
| SProcess (i : nat)
| SRun (i : nat) (j : nat) (c : call_pc)
| SDisable
| SExit.

(** Where [main] is: before it creates the service, waiting for it, creating requestors, in the reporting loop, joining
    requestors, joining the service, or at its end. *)
Inductive main_pc :=
| MBegin
| MWait
| MCreate (i : nat)
| MReport (i : nat)
| MStop
| MJoin (i : nat)
| MStopService
| MJoinService
| MEnd
| MExit.

Record shared := Shared {
  started : bool;
  service_should_exit : bool;
  requestors_should_exit : bool;
  have_errors : bool;
  dangling : bool;
  apcs_served : Z;
  apcs_missed : Z;
  apcs_timed_out : Z;
}.

Definition set_started (s : shared) : shared :=
  Shared true (service_should_exit s) (requestors_should_exit s) (have_errors s) (dangling s) (apcs_served s)
    (apcs_missed s) (apcs_timed_out s).

Definition set_service_should_exit (s : shared) : shared :=
  Shared (started s) true (requestors_should_exit s) (have_errors s) (dangling s) (apcs_served s)
    (apcs_missed s) (apcs_timed_out s).

Definition set_requestors_should_exit (s : shared) : shared :=
  Shared (started s) (service_should_exit s) true (have_errors s) (dangling s) (apcs_served s)
    (apcs_missed s) (apcs_timed_out s).

Definition set_have_errors (s : shared) : shared :=
  Shared (started s) (service_should_exit s) (requestors_should_exit s) true (dangling s) (apcs_served s)
    (apcs_missed s) (apcs_timed_out s).

Definition set_dangling (s : shared) : shared :=
  Shared (started s) (service_should_exit s) (requestors_should_exit s) (have_errors s) true (apcs_served s)
    (apcs_missed s) (apcs_timed_out s).

(** [increment_counter(&apcs_served)] and the like, which lock and unlock the counters' mutex. *)
Definition increment_served (s : shared) : shared :=
  Shared (started s) (service_should_exit s) (requestors_should_exit s) (have_errors s) (dangling s) (apcs_served s + 1)
    (apcs_missed s) (apcs_timed_out s).

Definition increment_missed (s : shared) : shared :=
  Shared (started s) (service_should_exit s) (requestors_should_exit s) (have_errors s) (dangling s) (apcs_served s)
    (apcs_missed s + 1) (apcs_timed_out s).

Definition increment_timed_out (s : shared) : shared :=
  Shared (started s) (service_should_exit s) (requestors_should_exit s) (have_errors s) (dangling s) (apcs_served s)
    (apcs_missed s) (apcs_timed_out s + 1).

Definition initial_shared : shared := Shared false false false false false 0 0 0.

Section threads.
Context `{L : apc_lib}.

Record config := Config {
  apc_target : Apc_target;
  vars : shared;
  service : option service_pc;
  requestors : list requestor;
  main_at : main_pc;
  output : list event;
}.

(** ** The requestor thread *)

(** The comparison after the call, and what is reported. *)
Definition verify (src dst : Z) (res : bool) (s : shared) : shared * list event :=
  if res then
    if negb (dst =? 0)
    then (set_have_errors s, [Diag "APC was done even though return value says it wasnt!" []]) else (s, [])
  else
    if negb (dst =? src)
    then (set_have_errors s, [Diag "APC was not done even though return value says it was!" []]) else (s, []).

(** One step of requestor [i]; [int_rand] may return anything.  Its parts: the target, the variables, the requestor and
    the output. *)
Inductive test_apc_requestor_thread (i : nat) :
  option label → Apc_target * shared * requestor → Apc_target * shared * requestor * list event → Prop :=
| requestor_enter σ s d src :
    requestors_should_exit s = false →
    test_apc_requestor_thread i None (σ, s, Requestor RTest d) (σ, s, Requestor (RCall src) 0, [])
| requestor_leave σ s d :
    requestors_should_exit s = true →
    test_apc_requestor_thread i None (σ, s, Requestor RTest d)
      (σ, s, Requestor RExit d, [Diag "test_apc_requestor_thread exiting" []])
| requestor_submit σ σ' s d src :
    apc_step σ (Submit i) σ' →
    test_apc_requestor_thread i (Some (Submit i)) (σ, s, Requestor (RCall src) d) (σ', s, Requestor (RWait src) d, [])
| requestor_refuse σ σ' s d src :
    apc_step σ (Refuse i) σ' →
    test_apc_requestor_thread i (Some (Refuse i)) (σ, s, Requestor (RCall src) d)
      (σ', s, Requestor (RCount src false) d, [])
| requestor_return σ σ' s d src :
    apc_step σ (Return i) σ' →
    test_apc_requestor_thread i (Some (Return i)) (σ, s, Requestor (RWait src) d)
      (σ', s, Requestor (RVerify src false) d, [])
| requestor_give_up σ σ' s d src timed_out :
    apc_step σ (GiveUp i timed_out) σ' →
    test_apc_requestor_thread i (Some (GiveUp i timed_out)) (σ, s, Requestor (RWait src) d)
      (σ', s, Requestor (RCount src timed_out) d, [])
| requestor_count σ s d src timed_out :
    test_apc_requestor_thread i None (σ, s, Requestor (RCount src timed_out) d)
      (σ, if timed_out : bool then increment_timed_out s else increment_missed s, Requestor (RVerify src true) d, [])
| requestor_verify σ s d src res :
    test_apc_requestor_thread i None (σ, s, Requestor (RVerify src res) d)
      (σ, (verify src d res s).1, Requestor RTest d, (verify src d res s).2).

(** ** The service thread *)

(** [*where_to= value] of the call of requestor [j]: both are variables of the requestor's iteration, gone once its
    [make_apc_call] has returned. *)
Definition write_through (j : nat) (reqs : list requestor) (s : shared) : list requestor * shared :=
  match reqs !! j with
  | Some (Requestor (RWait src) _) => (<[j := Requestor (RWait src) src]> reqs, s)
  | _ => (reqs, set_dangling s)
  end.

(** One step of the service. *)
Inductive test_apc_service_thread :
  option label → Apc_target * shared * list requestor * service_pc →
  Apc_target * shared * list requestor * service_pc * list event → Prop :=
| service_start σ σ' s rs :
    apc_step σ Enable σ' →
    test_apc_service_thread (Some Enable) (σ, s, rs, SStart)
      (σ', set_started s, rs, STest, [Diag "test_apc_service_thread started" []])
| service_test σ s rs :
    test_apc_service_thread None (σ, s, rs, STest)
      (σ, s, rs, if service_should_exit s then SDisable else SLoop 0, [])
| service_loop σ s rs i :
    test_apc_service_thread None (σ, s, rs, SLoop i)
      (σ, s, rs, if (i <? 10)%nat && negb (service_should_exit s) then SProcess i else STest, [])
| service_take σ σ' s rs i j :
    apc_step σ (Take j) σ' →
    test_apc_service_thread (Some (Take j)) (σ, s, rs, SProcess i) (σ', s, rs, SRun i j CWrite, [])
| service_write σ s rs i j :
    test_apc_service_thread None (σ, s, rs, SRun i j CWrite)
      (σ, (write_through j rs s).2, (write_through j rs s).1, SRun i j CCount, [])
| service_count σ s rs i j :
    test_apc_service_thread None (σ, s, rs, SRun i j CCount) (σ, increment_served s, rs, SRun i j CDone, [])
| service_finish σ σ' s rs i j :
    apc_step σ (Finish j) σ' →
    test_apc_service_thread (Some (Finish j)) (σ, s, rs, SRun i j CDone) (σ', s, rs, SProcess i, [])
| service_processed σ s rs i :
    test_apc_service_thread None (σ, s, rs, SProcess i) (σ, s, rs, SLoop (S i), [])
| service_disable σ σ' s rs :
    apc_step σ Disable σ' →
    test_apc_service_thread (Some Disable) (σ, s, rs, SDisable) (σ', s, rs, SExit, []).

(** ** The main function *)

(** One step of [main] with [n] requestors: it reads the counters without their mutex. *)
Inductive main_step (n : nat) :
  shared * option service_pc * list requestor * main_pc →
  shared * option service_pc * list requestor * main_pc * list event → Prop :=
| main_begin s rs :
    main_step n (s, None, rs, MBegin)
      (s, Some SStart, rs, MWait, [Plan 1; Diag "Testing APC delivery and execution" []])
| main_wait s sv rs :
    started s = true → main_step n (s, sv, rs, MWait) (s, sv, rs, MCreate 0, [])
| main_create s sv rs i :
    (i < n)%nat →
    main_step n (s, sv, rs, MCreate i)
      (s, sv, rs ++ [Requestor RTest 0], MCreate (S i), [Diag "test_apc_requestor_thread started" []])
| main_created s sv rs i :
    ~ (i < n)%nat → main_step n (s, sv, rs, MCreate i) (s, sv, rs, MReport 0, [])
| main_report s sv rs i :
    (i < 15)%nat →
    main_step n (s, sv, rs, MReport i)
      (s, sv, rs, MReport (S i), [Diag "%d APCs served %d missed" [ArgD (apcs_served s); ArgD (apcs_missed s)]])
| main_reported s sv rs i :
    ~ (i < 15)%nat →
    main_step n (s, sv, rs, MReport i) (s, sv, rs, MStop, [Diag "Shutting down requestors" []])
| main_stop s sv rs :
    main_step n (s, sv, rs, MStop) (set_requestors_should_exit s, sv, rs, MJoin 0, [])
| main_join s sv rs i d :
    (i < n)%nat → rs !! i = Some (Requestor RExit d) →
    main_step n (s, sv, rs, MJoin i) (s, sv, rs, MJoin (S i), [])
| main_joined s sv rs i :
    ~ (i < n)%nat →
    main_step n (s, sv, rs, MJoin i) (s, sv, rs, MStopService, [Diag "Shutting down service" []])
| main_stop_service s sv rs :
    main_step n (s, sv, rs, MStopService) (set_service_should_exit s, sv, rs, MJoinService, [])
| main_join_service s rs :
    main_step n (s, Some SExit, rs, MJoinService) (s, Some SExit, rs, MEnd, [Diag "Done" []])
| main_end s sv rs :
    main_step n (s, sv, rs, MEnd) (s, sv, rs, MExit, [Check (negb (have_errors s)) "!have_errors" []]).

(** ** The program *)

Inductive step (n : nat) : option label → config → config → Prop :=
| step_requestor i l σ s sv rs m out r σ' s' r' es :
    rs !! i = Some r →
    test_apc_requestor_thread i l (σ, s, r) (σ', s', r', es) →
    step n l (Config σ s sv rs m out) (Config σ' s' sv (<[i := r']> rs) m (out ++ es))
| step_service l σ s p rs m out σ' s' rs' p' es :
    test_apc_service_thread l (σ, s, rs, p) (σ', s', rs', p', es) →
    step n l (Config σ s (Some p) rs m out) (Config σ' s' (Some p') rs' m (out ++ es))
| step_main σ s sv rs m out s' sv' rs' m' es :
    main_step n (s, sv, rs, m) (s', sv', rs', m', es) →
    step n None (Config σ s sv rs m out) (Config σ s' sv' rs' m' (out ++ es)).

Definition start : config := Config initialised initial_shared None [] MBegin [].

(** The configurations reached, with the calls into the library on the way. *)
Inductive run (n : nat) : list label → config → Prop :=
| run_start : run n [] start
| run_step ls l C C' : run n ls C → step n l C C' → run n (ls ++ option_list l) C'.

End threads.
