(* ===== verification/ApcFacts.v ===== *)
(** The theorems about the APC test of [ApcSuite]: the comparison of a requestor never fails, the service never writes
    through a pointer into a stack frame that is gone, and no call is lost or counted twice. *)

From S2P Require Import Prelude Tap ApcSuite.
Open Scope Z_scope.

(** * Sums over the threads *)

Lemma sum_imap_ext {A} (f g : nat → A → Z) (l : list A) :
  (∀ i x, l !! i = Some x → f i x = g i x) → foldr Z.add 0 (imap f l) = foldr Z.add 0 (imap g l).
Proof. intros H. f_equal. by apply imap_ext. Qed.

(** Replacing one thread changes the sum by the difference of its two contributions. *)
Lemma sum_imap_insert {A} (l : list A) : ∀ (f g : nat → A → Z) j x y,
  l !! j = Some x → (∀ i z, i ≠ j → l !! i = Some z → f i z = g i z) →
  foldr Z.add 0 (imap g (<[j := y]> l)) = foldr Z.add 0 (imap f l) - f j x + g j y.
Proof.
  induction l as [|a l IH]; intros f g j x y Hj Hfg; [done|]. destruct j as [|j]; csimpl in *; rewrite ?imap_cons; cbn [foldr].
  - injection Hj as ->. rewrite (sum_imap_ext (f ∘ S) (g ∘ S) l); [lia|]. intros i z Hz. by apply (Hfg (S i) z).
  - rewrite (IH (f ∘ S) (g ∘ S) j x y Hj); [|intros i z Hi Hz; apply (Hfg (S i) z); [lia|done]].
    pose proof (Hfg 0%nat a ltac:(lia) eq_refl) as H0. cbn. lia.
Qed.

Lemma sum_imap_range {A} (f : nat → A → Z) (l : list A) :
  (∀ i x, 0 ≤ f i x ≤ 1) → 0 ≤ foldr Z.add 0 (imap f l) ≤ Z.of_nat (length l).
Proof.
  revert f. induction l as [|a l IH]; intros f Hf; [done|]. rewrite imap_cons. cbn [foldr length].
  pose proof (IH (f ∘ S) (λ i x, Hf (S i) x)). pose proof (Hf 0%nat a). lia.
Qed.

(** * The invariant *)

Section facts.
Context `{L : apc_lib} `{Hlaws : !apc_laws L}.
Implicit Types (σ : Apc_target) (C : config).

Lemma status_after σ l σ' i s1 s2 j :
  apc_step σ l σ' → moves l = Some (i, s1, s2) → status σ' j = if decide (j = i) then s2 else status σ j.
Proof.
  intros Hs Hm. case_decide as E; [subst; by eapply apc_step_moves|].
  eapply apc_step_others; [done|]. rewrite Hm. congruence.
Qed.

Lemma status_before σ l σ' i s1 s2 : apc_step σ l σ' → moves l = Some (i, s1, s2) → status σ i = s1.
Proof. intros Hs Hm. exact (proj1 (apc_step_moves _ _ _ _ _ _ Hs Hm)). Qed.

(** What a thread knows: the place of its request and the value of [dst_value]. *)
Definition requestor_ok (σ : Apc_target) (sv : option service_pc) (i : nat) (r : requestor) : Prop :=
  match pc r with
  | RTest | RExit => status σ i = Absent
  | RCall _ | RCount _ _ | RVerify _ true => status σ i = Absent ∧ dst_value r = 0
  | RVerify src false => status σ i = Absent ∧ dst_value r = src
  | RWait src =>
      match status σ i with
      | Absent => False
      | Queued => dst_value r = 0
      | Running => ∃ k c, sv = Some (SRun k i c) ∧ dst_value r = match c with CWrite => 0 | _ => src end
      | Served => dst_value r = src
      end
  end.

(** The number of requestors created and joined when [main] is at [m], and what it has reported. *)
Definition created (n : nat) (m : main_pc) : nat :=
  match m with MBegin | MWait => 0 | MCreate i => i | _ => n end.

Definition joined (n : nat) (m : main_pc) : nat :=
  match m with MJoin i => i | MStopService | MJoinService | MEnd | MExit => n | _ => 0 end.

Definition planned (m : main_pc) : list Z := match m with MBegin => [] | _ => [1] end.

Definition reported (m : main_pc) : list bool := match m with MExit => [true] | _ => [] end.

Record inv (n : nat) (C : config) : Prop := {
  inv_errors : have_errors (vars C) = false;
  inv_dangling : dangling (vars C) = false;
  inv_requestors i r : requestors C !! i = Some r → requestor_ok (apc_target C) (service C) i r;
  inv_unborn i : (length (requestors C) ≤ i)%nat → status (apc_target C) i = Absent;
  inv_running k j c : service C = Some (SRun k j c) → status (apc_target C) j = Running;
  inv_created : length (requestors C) = created n (main_at C) ∧ (created n (main_at C) ≤ n)%nat;
  inv_joined i : (i < joined n (main_at C))%nat → ∃ d, requestors C !! i = Some (Requestor RExit d);
  inv_planned : plans (output C) = planned (main_at C);
  inv_reported : verdicts (output C) = reported (main_at C);
}.

Lemma inv_initial n : inv n start.
Proof. split; cbn; try done; try lia. intros i _. apply initialised_empty. Qed.

(** A request that is being executed belongs to a requestor that waits. *)
Lemma running_waits n C j :
  inv n C → status (apc_target C) j = Running →
  ∃ src d k c, requestors C !! j = Some (Requestor (RWait src) d) ∧ service C = Some (SRun k j c) ∧
    d = match c with CWrite => 0 | _ => src end.
Proof.
  intros HI Hj. destruct (requestors C !! j) as [[p d]|] eqn:E.
  - pose proof (inv_requestors _ _ HI j _ E) as Hr. unfold requestor_ok in Hr. cbn in Hr. rewrite Hj in Hr.
    destruct p as [| | | |? []|]; naive_solver.
  - apply lookup_ge_None in E. rewrite (inv_unborn _ _ HI j E) in Hj. done.
Qed.

(** ** Steps of a requestor *)

(** What a requestor does leaves the others and the service alone. *)
Lemma requestor_frame i l σ s r σ' s' r' es :
  test_apc_requestor_thread i l (σ, s, r) (σ', s', r', es) →
  (∀ j, j ≠ i → status σ' j = status σ j) ∧ (status σ' i = Running ↔ status σ i = Running) ∧
  plans es = [] ∧ verdicts es = [] ∧ dangling s' = dangling s ∧ pc r ≠ RExit.
Proof.
  intros Hst. inversion Hst; subst; try (split_and!; done);
    lazymatch goal with
    | H : apc_step _ _ _ |- _ =>
        pose proof (status_before _ _ _ _ _ _ H eq_refl) as Hb;
        pose proof (λ j, status_after _ _ _ _ _ _ j H eq_refl) as Ha;
        (split; [intros j Hne; rewrite Ha; by case_decide|]); rewrite Ha, Hb; by case_decide
    | |- _ => idtac
    end.
  - split_and!; try done. by destruct timed_out.
  - unfold verify. destruct res; case_match; split_and!; done.
Qed.

(** The requestor keeps its own invariant and finds no error. *)
Lemma requestor_step_ok i l σ s sv r σ' s' r' es :
  test_apc_requestor_thread i l (σ, s, r) (σ', s', r', es) → requestor_ok σ sv i r →
  requestor_ok σ' sv i r' ∧ have_errors s' = have_errors s.
Proof.
  intros Hst Hr. inversion Hst; subst; unfold requestor_ok in *; cbn [pc dst_value] in *; try (split; naive_solver);
    lazymatch goal with
    | H : apc_step _ _ _ |- _ =>
        pose proof (status_before _ _ _ _ _ _ H eq_refl) as Hb;
        pose proof (status_after _ _ _ _ _ _ i H eq_refl) as Ha; rewrite decide_True in Ha by done;
        rewrite Ha; rewrite Hb in Hr; naive_solver
    | |- _ => idtac
    end.
  - destruct Hr as [Ha Hd]. split; [done|]. by destruct timed_out.
  - unfold verify. destruct res, Hr as [Ha Hd]; rewrite Hd, Z.eqb_refl; by split.
Qed.

Lemma requestor_ok_frame σ σ' sv i r : status σ' i = status σ i → requestor_ok σ sv i r → requestor_ok σ' sv i r.
Proof. intros E. unfold requestor_ok. by rewrite E. Qed.

Lemma inv_requestor_step n σ s sv rs m out i l r σ' s' r' es :
  inv n (Config σ s sv rs m out) → rs !! i = Some r → test_apc_requestor_thread i l (σ, s, r) (σ', s', r', es) →
  inv n (Config σ' s' sv (<[i := r']> rs) m (out ++ es)).
Proof.
  intros [He Hd Hr Hu Hk [Hc Hc'] Hj Hp Hv] Hi Hst. cbn in *.
  destruct (requestor_frame _ _ _ _ _ _ _ _ _ Hst) as (Ho & Hrun & Hpe & Hve & Hde & Hx).
  destruct (requestor_step_ok _ _ _ _ sv _ _ _ _ _ Hst (Hr _ _ Hi)) as [Hok Her].
  split; cbn; rewrite ?length_insert.
  - by rewrite Her.
  - by rewrite Hde.
  - intros j q Hq. destruct (decide (j = i)) as [->|Hne].
    + rewrite list_lookup_insert_eq in Hq by (by eapply lookup_lt_Some). by injection Hq as <-.
    + rewrite list_lookup_insert_ne in Hq by done. eapply requestor_ok_frame; [by apply Ho|by apply Hr].
  - intros j Hl. rewrite Ho; [by apply Hu|]. apply lookup_lt_Some in Hi. lia.
  - intros k j c E. destruct (decide (j = i)) as [->|Hne]; [|rewrite Ho by done]; [apply Hrun|]; by eapply Hk.
  - done.
  - intros j Hlt. destruct (Hj j Hlt) as (d & E). exists d. rewrite list_lookup_insert_ne; [done|]. intros ->.
    rewrite Hi in E. by injection E as ->.
  - by rewrite plans_app, Hpe, app_nil_r.
  - by rewrite verdicts_app, Hve, app_nil_r.
Qed.

(** ** Steps of the service *)

Definition idle (p : service_pc) : Prop := match p with SRun _ _ _ => False | _ => True end.

Lemma requestor_ok_idle σ p sv' i r : requestor_ok σ (Some p) i r → idle p → requestor_ok σ sv' i r.
Proof. unfold requestor_ok. destruct (pc r) as [| | | |? []|]; try done. destruct (status σ i); naive_solver. Qed.

(** The invariant only speaks of the errors, the places of the requests and the service. *)
Lemma inv_change n σ s sv rs m out σ' s' sv' rs' es :
  inv n (Config σ s sv rs m out) →
  have_errors s' = false → dangling s' = false →
  (∀ i r, rs' !! i = Some r → requestor_ok σ' sv' i r) →
  (∀ i, (length rs ≤ i)%nat → status σ' i = status σ i) →
  (∀ k j c, sv' = Some (SRun k j c) → status σ' j = Running) →
  length rs' = length rs → (∀ i d, rs !! i = Some (Requestor RExit d) → rs' !! i = Some (Requestor RExit d)) →
  plans es = [] → verdicts es = [] → inv n (Config σ' s' sv' rs' m (out ++ es)).
Proof.
  intros [He Hd Hr Hu Hk [Hc Hc'] Hj Hp Hv] He' Hd' Hr' Hu' Hk' Hl Hx Hpe Hve. cbn in *. split; cbn; try done.
  - intros i Hi. rewrite Hl in Hi. rewrite Hu' by done. by apply Hu.
  - by rewrite Hl.
  - intros i Hi. destruct (Hj i Hi) as (d & E). eauto.
  - by rewrite plans_app, Hpe, app_nil_r.
  - by rewrite verdicts_app, Hve, app_nil_r.
Qed.

(** Steps that neither begin nor end the execution of a request. *)
Lemma inv_idle_step n σ s p rs m out σ' s' p' es :
  inv n (Config σ s (Some p) rs m out) → idle p → idle p' → (∀ i, status σ' i = status σ i) →
  have_errors s' = have_errors s → dangling s' = dangling s → plans es = [] → verdicts es = [] →
  inv n (Config σ' s' (Some p') rs m (out ++ es)).
Proof.
  intros HI Hp Hp' Hs He Hd Hpe Hve. pose proof (inv_errors _ _ HI) as Hne. pose proof (inv_dangling _ _ HI) as Hnd. cbn in *.
  eapply inv_change; [exact HI| | | | | |done|done|done|done]; [congruence|congruence| |done|naive_solver].
  intros i r Hi. apply (requestor_ok_frame σ); [done|]. eapply requestor_ok_idle; [|exact Hp].
  exact (inv_requestors _ _ HI i r Hi).
Qed.

(** A step of the service that concerns the waiting requestor [j]: the others are not being executed. *)
Lemma inv_run_step n σ s p rs m out σ' s' p' j r r' :
  inv n (Config σ s (Some p) rs m out) → rs !! j = Some r →
  (∀ i, i ≠ j → status σ' i = status σ i) → (∀ i, i ≠ j → status σ i ≠ Running) →
  requestor_ok σ' (Some p') j r' → pc r ≠ RExit →
  (∀ k i c, p' = SRun k i c → status σ' i = Running) →
  have_errors s' = have_errors s → dangling s' = dangling s →
  inv n (Config σ' s' (Some p') (<[j := r']> rs) m (out ++ [])).
Proof.
  intros HI Hj Hs Hrun Hok Hx Hk He Hd. pose proof (inv_errors _ _ HI) as Hne. pose proof (inv_dangling _ _ HI) as Hnd.
  pose proof (lookup_lt_Some _ _ _ Hj) as Hlt. cbn in *.
  eapply inv_change; [exact HI| | | | | | | |done|done]; [congruence|congruence| | |naive_solver| |].
  - intros i q Hq. destruct (decide (i = j)) as [->|Hn].
    + rewrite list_lookup_insert_eq in Hq by done. by injection Hq as <-.
    + rewrite list_lookup_insert_ne in Hq by done. pose proof (inv_requestors _ _ HI i q Hq) as Hq'. cbn in Hq'.
      unfold requestor_ok in *. rewrite Hs by done. specialize (Hrun i Hn).
      destruct (pc q) as [| | | |? []|]; try done. by destruct (status σ i).
  - intros i Hi. apply Hs. lia.
  - by rewrite length_insert.
  - intros i d Hi. rewrite list_lookup_insert_ne; [done|]. intros ->. rewrite Hj in Hi. by injection Hi as ->.
Qed.

(** While the service executes the request of [j], nobody else's is. *)
Lemma only_running n C k j c i : inv n C → service C = Some (SRun k j c) → i ≠ j → status (apc_target C) i ≠ Running.
Proof.
  intros HI Hk Hn Hr. destruct (running_waits n C i HI Hr) as (src & d & k' & c' & _ & E & _). congruence.
Qed.

Lemma idle_none_running n C p i : inv n C → service C = Some p → idle p → status (apc_target C) i ≠ Running.
Proof.
  intros HI Hk Hp Hr. destruct (running_waits n C i HI Hr) as (src & d & k' & c' & _ & E & _).
  rewrite Hk in E. by injection E as ->.
Qed.

(** The requestor whose call is being executed, and what is being executed besides. *)
Lemma executing n σ s i j c rs m out :
  inv n (Config σ s (Some (SRun i j c)) rs m out) →
  status σ j = Running ∧ (∀ k, k ≠ j → status σ k ≠ Running) ∧
  ∃ src, rs !! j = Some (Requestor (RWait src) (match c with CWrite => 0 | _ => src end)).
Proof.
  intros HI. pose proof (inv_running _ _ HI i j c eq_refl) as Hrun. cbn in Hrun.
  split; [done|]. split; [intros k Hk; by apply (only_running n _ i j c k HI)|].
  destruct (running_waits _ _ _ HI Hrun) as (src & d & k & c' & Hj & E & Hd). cbn in *. injection E as <- <-. subst. eauto.
Qed.

(** The owner of a request in the queue waits for it. *)
Lemma queued_waits n C j :
  inv n C → status (apc_target C) j = Queued → ∃ src, requestors C !! j = Some (Requestor (RWait src) 0).
Proof.
  intros HI Hb. destruct (requestors C !! j) as [[p d]|] eqn:E.
  - pose proof (inv_requestors _ _ HI j _ E) as Hr. unfold requestor_ok in Hr. cbn in Hr. rewrite Hb in Hr.
    destruct p as [| | | |? []|]; naive_solver.
  - apply lookup_ge_None in E. rewrite (inv_unborn _ _ HI j E) in Hb. done.
Qed.

Lemma inv_take n σ s i rs m out j σ' :
  inv n (Config σ s (Some (SProcess i)) rs m out) → apc_step σ (Take j) σ' →
  inv n (Config σ' s (Some (SRun i j CWrite)) rs m (out ++ [])).
Proof.
  intros HI Hs. pose proof (λ i, status_after _ _ _ _ _ _ i Hs eq_refl) as Ha.
  destruct (queued_waits _ _ j HI (status_before _ _ _ _ _ _ Hs eq_refl)) as (src & Hj). cbn in Hj.
  rewrite <- (list_insert_id rs j _ Hj). eapply inv_run_step; [exact HI|exact Hj| | | |done| |done|done].
  - intros k Hk. rewrite Ha. by case_decide.
  - intros k _. by apply (idle_none_running n _ (SProcess i) k HI).
  - unfold requestor_ok. cbn. rewrite Ha, decide_True by done. eauto.
  - intros k k' c [= <- <- <-]. by rewrite Ha, decide_True.
Qed.

Lemma inv_write n σ s i rs m out j :
  inv n (Config σ s (Some (SRun i j CWrite)) rs m out) →
  inv n (Config σ (write_through j rs s).2 (Some (SRun i j CCount)) (write_through j rs s).1 m (out ++ [])).
Proof.
  intros HI. destruct (executing _ _ _ _ _ _ _ _ _ HI) as (Hrun & Ho & src & Hj).
  unfold write_through. rewrite Hj. cbn [fst snd].
  eapply inv_run_step; [exact HI|exact Hj|done|done| |done| |done|done].
  - unfold requestor_ok. cbn. rewrite Hrun. eauto.
  - intros k k' c [= <- <- <-]. done.
Qed.

Lemma inv_count n σ s i rs m out j :
  inv n (Config σ s (Some (SRun i j CCount)) rs m out) →
  inv n (Config σ (increment_served s) (Some (SRun i j CDone)) rs m (out ++ [])).
Proof.
  intros HI. destruct (executing _ _ _ _ _ _ _ _ _ HI) as (Hrun & Ho & src & Hj).
  rewrite <- (list_insert_id rs j _ Hj).
  eapply inv_run_step; [exact HI|exact Hj|done|done| |done| |done|done].
  - unfold requestor_ok. cbn. rewrite Hrun. eauto.
  - intros k k' c [= <- <- <-]. done.
Qed.

Lemma inv_finish n σ s i rs m out j σ' :
  inv n (Config σ s (Some (SRun i j CDone)) rs m out) → apc_step σ (Finish j) σ' →
  inv n (Config σ' s (Some (SProcess i)) rs m (out ++ [])).
Proof.
  intros HI Hs. pose proof (λ i, status_after _ _ _ _ _ _ i Hs eq_refl) as Ha.
  destruct (executing _ _ _ _ _ _ _ _ _ HI) as (Hrun & Ho & src & Hj). rewrite <- (list_insert_id rs j _ Hj).
  eapply inv_run_step; [exact HI|exact Hj| |done| |done|done|done|done].
  - intros k Hk. rewrite Ha. by case_decide.
  - unfold requestor_ok. cbn. by rewrite Ha, decide_True.
Qed.

Lemma inv_service_step n σ s p rs m out l σ' s' rs' p' es :
  inv n (Config σ s (Some p) rs m out) → test_apc_service_thread l (σ, s, rs, p) (σ', s', rs', p', es) →
  inv n (Config σ' s' (Some p') rs' m (out ++ es)).
Proof.
  intros HI Hst. inversion Hst; subst.
  - eapply inv_idle_step; [exact HI|done|done| |done..]. intros i. eapply apc_step_others; [done|]. by intros.
  - eapply inv_idle_step; [exact HI|done| |done..]. by destruct (service_should_exit _).
  - eapply inv_idle_step; [exact HI|done| |done..]. by destruct (_ && _).
  - by eapply inv_take.
  - by apply inv_write.
  - by apply inv_count.
  - by eapply inv_finish.
  - by eapply inv_idle_step; [exact HI|done..].
  - eapply inv_idle_step; [exact HI|done|done| |done..]. intros i. eapply apc_step_others; [done|]. by intros.
Qed.

(** ** Steps of [main] *)

Lemma inv_main_same n σ s sv rs m out s' m' es :
  inv n (Config σ s sv rs m out) → have_errors s' = have_errors s → dangling s' = dangling s →
  created n m' = created n m → (∀ i, (i < joined n m')%nat → ∃ d, rs !! i = Some (Requestor RExit d)) →
  planned m ++ plans es = planned m' → reported m ++ verdicts es = reported m' →
  inv n (Config σ s' sv rs m' (out ++ es)).
Proof.
  intros [He Hd Hr Hu Hk [Hc Hc'] Hj Hp Hv] He' Hd' Hc2 Hj' Hp' Hv'. cbn in *.
  split; cbn; rewrite ?He', ?Hd', ?Hc2, ?plans_app, ?verdicts_app, ?Hp, ?Hv; done.
Qed.

Lemma inv_begin n σ s rs out es :
  inv n (Config σ s None rs MBegin out) → plans es = [1] → verdicts es = [] →
  inv n (Config σ s (Some SStart) rs MWait (out ++ es)).
Proof.
  intros [He Hd Hr Hu Hk [Hc Hc'] Hj Hp Hv] Hpe Hve. cbn in *. apply nil_length_inv in Hc as ->.
  split; cbn; rewrite ?plans_app, ?verdicts_app, ?Hp, ?Hv, ?Hpe, ?Hve; done.
Qed.

Lemma inv_create n σ s sv rs i out es :
  inv n (Config σ s sv rs (MCreate i) out) → (i < n)%nat → plans es = [] → verdicts es = [] →
  inv n (Config σ s sv (rs ++ [Requestor RTest 0]) (MCreate (S i)) (out ++ es)).
Proof.
  intros [He Hd Hr Hu Hk [Hc Hc'] Hj Hp Hv] Hi Hpe Hve. cbn in *.
  split; cbn; rewrite ?length_app, ?plans_app, ?verdicts_app, ?Hp, ?Hv, ?Hpe, ?Hve; try done.
  - intros k r [Hk'|[Hge Hk']]%lookup_app_Some; [by apply Hr|]. apply list_lookup_singleton_Some in Hk' as [? <-].
    unfold requestor_ok. cbn. apply Hu. lia.
  - intros k Hl. apply Hu. lia.
  - cbn. lia.
  - intros k Hl. lia.
Qed.

Lemma inv_main_step n σ s sv rs m out s' sv' rs' m' es :
  inv n (Config σ s sv rs m out) → main_step n (s, sv, rs, m) (s', sv', rs', m', es) →
  inv n (Config σ s' sv' rs' m' (out ++ es)).
Proof.
  intros HI Hst. pose proof (inv_created _ _ HI) as [Hc Hc']. pose proof (inv_joined _ _ HI) as Hj.
  pose proof (inv_errors _ _ HI) as He. cbn in Hc, Hc', Hj, He.
  inversion Hst; subst; cbn in Hc, Hc', Hj.
  - by eapply inv_begin.
  - by eapply inv_main_same.
  - by eapply inv_create.
  - eapply inv_main_same; [exact HI|done|done|cbn; lia|cbn; lia|done|done].
  - by eapply inv_main_same.
  - by eapply inv_main_same.
  - eapply inv_main_same; [exact HI|done|done|done|cbn; lia|done|done].
  - eapply inv_main_same; [exact HI|done|done|done| |done|done]. intros k Hk. cbn in Hk.
    destruct (decide (k = i)) as [->|]; [eauto|]. apply Hj. lia.
  - eapply inv_main_same; [exact HI|done|done|done| |done|done]. intros k Hk. cbn in Hk. apply Hj. lia.
  - by eapply inv_main_same.
  - by eapply inv_main_same.
  - eapply inv_main_same; [exact HI|done|done|done|done|done|]. cbn. by rewrite He.
Qed.

Lemma config_step_inv n l C C' : inv n C → step n l C C' → inv n C'.
Proof.
  intros HI Hst. inversion Hst; subst; [by eapply inv_requestor_step|by eapply inv_service_step|by eapply inv_main_step].
Qed.

Lemma run_inv n ls C : run n ls C → inv n C.
Proof. induction 1; [apply inv_initial|by eapply config_step_inv]. Qed.

(** * The account of the calls *)

(** The call of this thread is made and in no counter yet. *)
Definition pending_of (σ : Apc_target) (sv : option service_pc) (i : nat) (r : requestor) : Z :=
  match pc r with
  | RCount _ _ => 1
  | RWait _ =>
      match status σ i with
      | Queued => 1
      | Running => match sv with Some (SRun _ _ CDone) => 0 | _ => 1 end
      | _ => 0
      end
  | _ => 0
  end.

Lemma pending_of_range σ sv i r : 0 ≤ pending_of σ sv i r ≤ 1.
Proof.
  unfold pending_of. destruct (pc r); try lia. destruct (status σ i); try lia.
  destruct sv as [[| | | |? ? []| |]|]; lia.
Qed.

Definition pending (C : config) : Z :=
  foldr Z.add 0 (imap (pending_of (apc_target C) (service C)) (requestors C)).

Definition counted (s : shared) : Z := apcs_served s + apcs_missed s + apcs_timed_out s.

(** The calls of [make_apc_call] in a run. *)
Definition made (l : label) : Z := match l with Submit _ | Refuse _ => 1 | _ => 0 end.

Definition calls (ls : list label) : Z := foldr Z.add 0 (made <$> ls).

Lemma calls_app ls ls' : calls (ls ++ ls') = calls ls + calls ls'.
Proof. unfold calls. induction ls as [|l ls IH]; csimpl; lia. Qed.

Lemma requestor_pending i l σ s sv r σ' s' r' es :
  test_apc_requestor_thread i l (σ, s, r) (σ', s', r', es) → requestor_ok σ sv i r →
  counted s' + pending_of σ' sv i r' = counted s + pending_of σ sv i r + calls (option_list l).
Proof.
  intros Hst Hr. unfold counted, pending_of. inversion Hst; subst; cbn [pc] in *;
    try lazymatch goal with
    | H : apc_step _ _ _ |- _ =>
        pose proof (status_before _ _ _ _ _ _ H eq_refl) as Hb;
        pose proof (status_after _ _ _ _ _ _ i H eq_refl) as Ha; rewrite decide_True in Ha by done;
        rewrite ?Ha, ?Hb
    end; cbn; try lia.
  - destruct timed_out; cbn; lia.
  - unfold verify. destruct res; case_match; cbn; lia.
Qed.

Lemma pending_frame σ σ' sv j q : status σ' j = status σ j → pending_of σ' sv j q = pending_of σ sv j q.
Proof. intros E. unfold pending_of. by rewrite E. Qed.

(** Without a request in execution the service does not matter. *)
Lemma pending_idle σ sv sv' j q : status σ j ≠ Running → pending_of σ sv j q = pending_of σ sv' j q.
Proof. intros Hn. unfold pending_of. destruct (pc q); try done. by destruct (status σ j). Qed.

(** What is counted or pending. *)
Definition account (σ : Apc_target) (s : shared) (sv : option service_pc) (rs : list requestor) : Z :=
  counted s + foldr Z.add 0 (imap (pending_of σ sv) rs).

Lemma account_idle n σ s p rs m out σ' s' p' :
  inv n (Config σ s (Some p) rs m out) → idle p → (∀ i, status σ' i = status σ i) → counted s' = counted s →
  account σ' s' (Some p') rs = account σ s (Some p) rs.
Proof.
  intros HI Hp Hs Hc. unfold account. rewrite Hc. f_equal. apply sum_imap_ext. intros i q _.
  rewrite (pending_frame σ) by done. apply pending_idle. by apply (idle_none_running n _ p i HI).
Qed.

(** A step that concerns requestor [j] only. *)
Lemma account_one σ s sv rs σ' s' sv' j q q' :
  rs !! j = Some q → (∀ i, i ≠ j → status σ' i = status σ i) → sv' = sv ∨ (∀ i, i ≠ j → status σ i ≠ Running) →
  account σ' s' sv' (<[j := q']> rs) - account σ s sv rs =
  counted s' + pending_of σ' sv' j q' - (counted s + pending_of σ sv j q).
Proof.
  intros Hj Hs Hn. unfold account. rewrite (sum_imap_insert rs (pending_of σ sv) _ j q q' Hj); [lia|].
  intros i z Hi _. rewrite (pending_frame σ σ') by auto. destruct Hn as [->|Hn]; [done|]. apply pending_idle. auto.
Qed.

Lemma account_take n σ s i rs m out j σ' :
  inv n (Config σ s (Some (SProcess i)) rs m out) → apc_step σ (Take j) σ' →
  account σ' s (Some (SRun i j CWrite)) rs = account σ s (Some (SProcess i)) rs.
Proof.
  intros HI Hs. pose proof (λ i, status_after _ _ _ _ _ _ i Hs eq_refl) as Ha.
  pose proof (status_before _ _ _ _ _ _ Hs eq_refl) as Hb.
  destruct (queued_waits _ _ j HI Hb) as (src & Hj). cbn in Hj.
  pose proof (account_one σ s (Some (SProcess i)) rs σ' s (Some (SRun i j CWrite)) j _ (Requestor (RWait src) 0) Hj) as H.
  rewrite list_insert_id in H by done. unfold pending_of in H. cbn in H. rewrite Ha, Hb, decide_True in H by done.
  enough (account σ' s (Some (SRun i j CWrite)) rs - account σ s (Some (SProcess i)) rs = 0) by lia.
  rewrite H; [lia|intros k Hk; rewrite Ha; by case_decide|]. right. intros k _. by apply (idle_none_running n _ (SProcess i) k HI).
Qed.

Lemma account_run n σ s i rs m out j c σ' s' p' r' :
  inv n (Config σ s (Some (SRun i j c)) rs m out) → (∀ k, k ≠ j → status σ' k = status σ k) → c ≠ CDone →
  account σ' s' (Some p') (<[j := r']> rs) =
  account σ s (Some (SRun i j c)) rs + (counted s' + pending_of σ' (Some p') j r' - counted s - 1).
Proof.
  intros HI Hs Hc. destruct (executing _ _ _ _ _ _ _ _ _ HI) as (Hrun & Ho & src & Hj).
  pose proof (account_one σ s (Some (SRun i j c)) rs σ' s' (Some p') j _ r' Hj Hs (or_intror Ho)) as H.
  unfold pending_of in H at 2. cbn in H. rewrite Hrun in H. destruct c; [lia|lia|done].
Qed.

Lemma account_finish n σ s i rs m out j σ' :
  inv n (Config σ s (Some (SRun i j CDone)) rs m out) → apc_step σ (Finish j) σ' →
  account σ' s (Some (SProcess i)) rs = account σ s (Some (SRun i j CDone)) rs.
Proof.
  intros HI Hs. pose proof (λ i, status_after _ _ _ _ _ _ i Hs eq_refl) as Ha.
  destruct (executing _ _ _ _ _ _ _ _ _ HI) as (Hrun & Ho & src & Hj).
  pose proof (account_one σ s (Some (SRun i j CDone)) rs σ' s (Some (SProcess i)) j _ (Requestor (RWait src) src) Hj) as H.
  rewrite list_insert_id in H by done. unfold pending_of in H. cbn in H. rewrite Ha, Hrun, decide_True in H by done.
  enough (account σ' s (Some (SProcess i)) rs - account σ s (Some (SRun i j CDone)) rs = 0) by lia.
  rewrite H; [lia|intros k Hk; rewrite Ha; by case_decide|by right].
Qed.

Lemma account_service n σ s p rs m out l σ' s' rs' p' es :
  inv n (Config σ s (Some p) rs m out) → test_apc_service_thread l (σ, s, rs, p) (σ', s', rs', p', es) →
  account σ' s' (Some p') rs' = account σ s (Some p) rs + calls (option_list l).
Proof.
  intros HI Hst. inversion Hst; subst; cbn [option_list].
  all: try (rewrite Z.add_0_r; eapply account_idle; [exact HI|done| |done]; done ||
            (intros ?; eapply apc_step_others; [done|by intros])).
  - rewrite Z.add_0_r. by eapply account_take.
  - destruct (executing _ _ _ _ _ _ _ _ _ HI) as (Hrun & Ho & src & Hj). unfold write_through. rewrite Hj. cbn [fst snd].
    rewrite (account_run _ _ _ _ _ _ _ _ _ σ' s (SRun i j CCount) (Requestor (RWait src) src) HI) by done.
    unfold pending_of. cbn. rewrite Hrun. lia.
  - destruct (executing _ _ _ _ _ _ _ _ _ HI) as (Hrun & Ho & src & Hj). rewrite <- (list_insert_id rs' j _ Hj) at 1.
    rewrite (account_run _ _ _ _ _ _ _ _ _ σ' (increment_served s) (SRun i j CDone) _ HI) by done.
    unfold pending_of, counted. cbn. rewrite Hrun. lia.
  - rewrite Z.add_0_r. by eapply account_finish.
Qed.

Lemma account_requestor σ s sv rs i l r σ' s' r' es :
  rs !! i = Some r → test_apc_requestor_thread i l (σ, s, r) (σ', s', r', es) → requestor_ok σ sv i r →
  account σ' s' sv (<[i := r']> rs) = account σ s sv rs + calls (option_list l).
Proof.
  intros Hi Hst Hr. destruct (requestor_frame _ _ _ _ _ _ _ _ _ Hst) as (Ho & _).
  pose proof (account_one σ s sv rs σ' s' sv i r r' Hi Ho (or_introl eq_refl)).
  pose proof (requestor_pending _ _ _ _ _ _ _ _ _ _ Hst Hr). lia.
Qed.

Lemma account_main n σ s sv rs m s' sv' rs' m' es :
  main_step n (s, sv, rs, m) (s', sv', rs', m', es) → account σ s' sv' rs' = account σ s sv rs.
Proof.
  intros Hst. inversion Hst; subst; try done. unfold account. rewrite imap_app, foldr_app. cbn. done.
Qed.

Lemma run_account n ls C :
  run n ls C → calls ls = account (apc_target C) (vars C) (service C) (requestors C).
Proof.
  induction 1 as [|ls l C C' Hr IH Hs]; [done|]. pose proof (run_inv _ _ _ Hr) as HI. rewrite calls_app, IH.
  inversion Hs; subst; cbn.
  - symmetry. eapply account_requestor; [done|done|]. by apply (inv_requestors _ _ HI).
  - symmetry. by eapply account_service.
  - rewrite Z.add_0_r. symmetry. by eapply account_main.
Qed.

End facts.

(** * A library *)

(** The places of the requests, and nothing else. *)
Definition spec_apc : apc_lib := {|
  Apc_target := nat → request_status;
  initialised _ := Absent;
  status σ i := σ i;
  apc_step σ l σ' :=
    match moves l with
    | None => σ' = σ
    | Some (i, s, s') => σ i = s ∧ σ' = λ j, if decide (j = i) then s' else σ j
    end;
|}.

Lemma spec_apc_laws : apc_laws spec_apc.
Proof.
  split; cbn.
  - done.
  - intros σ l σ' i s s' Hs Hm. rewrite Hm in Hs. destruct Hs as [Hs ->]. by rewrite decide_True.
  - intros σ l σ' j Hs Hj. destruct (moves l) as [[[i s] s']|]; [|by subst]. destruct Hs as [_ ->].
    rewrite decide_False; [done|]. intros ->. by apply (Hj s s').
Qed.

(** ** A run *)

Lemma run_then `{L : apc_lib} n ls C (P : Prop) :
  run n ls C → (∃ l C', step n l C C' ∧ (run n (ls ++ option_list l) C' → P)) → P.
Proof. intros Hr (l & C' & Hs & HP). apply HP. by eapply run_step. Qed.

(** One more step of the run in the context, by the given rule. *)
Ltac advance rule :=
  lazymatch goal with
  | H : run _ _ _ |- _ =>
      eapply (run_then _ _ _ _ H); clear H; eexists _, _;
      split; [rule; cbn; try lia; try reflexivity; try (split; reflexivity)|cbn; intros H]
  end.

Ltac main_does := advance ltac:(apply step_main; econstructor).
Ltac service_does := advance ltac:(apply step_service; econstructor).
Ltac requestor_does rule := advance ltac:(eapply (step_requestor _ 0%nat); [reflexivity|rule]).

(** One requestor makes one call, which is served, and everybody leaves. *)
Lemma one_call :
  ∃ ls C, run (L := spec_apc) 1 ls C ∧ main_at C = MExit ∧ calls ls = 1 ∧ apcs_served (vars C) = 1.
Proof.
  pose proof (run_start (L := spec_apc) 1) as H. unfold start in H.
  main_does. service_does. main_does. main_does.
  advance ltac:(apply step_main; apply main_created).
  requestor_does ltac:(eapply (requestor_enter _ _ _ _ 5)).
  requestor_does ltac:(eapply requestor_submit).
  service_does. service_does. advance ltac:(apply step_service; apply (service_take _ _ _ _ _ 0)).
  do 3 service_does. requestor_does ltac:(eapply requestor_return). requestor_does ltac:(eapply requestor_verify).
  do 15 main_does. advance ltac:(apply step_main; apply main_reported). main_does. requestor_does ltac:(eapply requestor_leave).
  main_does. advance ltac:(apply step_main; apply main_joined). main_does.
  advance ltac:(apply step_service; apply service_processed). do 3 service_does. main_does. main_does.
  eexists _, _. split; [exact H|]. by split_and!.
Qed.

(** * Theorems *)

(** C39: with any call mechanism that behaves as documented and any number of requestors, in every interleaving
    [have_errors] stays false, and the service writes through the pointer of a call only while the frame it points into
    is alive; when [main] ends, its one planned check has passed, every requestor has returned and no request is left. *)
Theorem apc_no_errors `{L : apc_lib} `{!apc_laws L} n ls C :
  run n ls C →
  have_errors (vars C) = false ∧ dangling (vars C) = false ∧
  (main_at C = MExit →
    plans (output C) = [1] ∧ verdicts (output C) = [true] ∧ length (requestors C) = n ∧
    Forall (λ r, pc r = RExit) (requestors C) ∧ ∀ i, status (apc_target C) i = Absent).
Proof.
  intros HI%run_inv. split; [apply (inv_errors _ _ HI)|]. split; [apply (inv_dangling _ _ HI)|]. intros Hm.
  destruct (inv_created _ _ HI) as [Hc _]. pose proof (inv_planned _ _ HI) as Hp. pose proof (inv_reported _ _ HI) as Hv.
  pose proof (inv_joined _ _ HI) as Hj. rewrite Hm in *. cbn in *.
  assert (Hx : ∀ i r, requestors C !! i = Some r → pc r = RExit).
  { intros i r Hi. destruct (Hj i) as (d & E); [apply lookup_lt_Some in Hi; lia|]. rewrite Hi in E. by injection E as ->. }
  split_and!; [done|done|done| |].
  - apply Forall_lookup. exact Hx.
  - intros i. destruct (requestors C !! i) as [r|] eqn:E; [|by apply (inv_unborn _ _ HI), lookup_ge_None].
    pose proof (inv_requestors _ _ HI i r E) as Hr. unfold requestor_ok in Hr. by rewrite (Hx i r E) in Hr.
Qed.

(** No call is lost or counted twice: at every moment the calls made so far are those in the three counters and those
    still pending, at most one for each requestor; when [main] ends, the counters account for every call. *)
Theorem apc_accounting `{L : apc_lib} `{!apc_laws L} n ls C :
  run n ls C →
  calls ls = apcs_served (vars C) + apcs_missed (vars C) + apcs_timed_out (vars C) + pending C ∧
  0 ≤ pending C ≤ Z.of_nat (length (requestors C)) ∧ (main_at C = MExit → pending C = 0).
Proof.
  intros Hr. pose proof (run_inv _ _ _ Hr) as HI.
  split; [by rewrite (run_account _ _ _ Hr)|]. split; [apply sum_imap_range, pending_of_range|].
  intros Hm. destruct (inv_created _ _ HI) as [Hc _]. pose proof (inv_joined _ _ HI) as Hj. rewrite Hm in *. cbn in *.
  unfold pending. rewrite (sum_imap_ext _ (λ _ _, 0)).
  - clear. induction (requestors C) as [|r rs IH]; [done|]. by rewrite imap_cons.
  - intros i r Hi. destruct (Hj i) as (d & E); [apply lookup_lt_Some in Hi; lia|]. rewrite Hi in E. by injection E as ->.
Qed.

(** [apc_no_errors] and [apc_accounting] at the end of the run with one call. *)
Lemma apc_no_errors_witness :
  ∃ C, main_at C = MExit ∧ plans (output (L := spec_apc) C) = [1] ∧ verdicts (output C) = [true].
Proof.
  destruct one_call as (ls & C & Hr & Hm & _). exists C. split; [done|].
  destruct (@apc_no_errors spec_apc spec_apc_laws 1 ls C Hr) as (_ & _ & H).
  destruct (H Hm) as (Hp & Hv & _). by split.
Defined.

Lemma apc_accounting_witness :
  ∃ ls C, run (L := spec_apc) 1 ls C ∧ calls ls = 1 ∧
    calls ls = apcs_served (vars C) + apcs_missed (vars C) + apcs_timed_out (vars C) + pending C.
Proof.
  destruct one_call as (ls & C & Hr & _ & Hc & _). exists ls, C. split; [done|]. split; [done|].
  apply (@apc_accounting spec_apc spec_apc_laws 1 ls C Hr).
Defined.
