(* ===== verification/JsonLibSuite.v ===== *)
(** The tests of the JSON scanner, src/references/mariadb/unittest/json_lib/json_lib-t.c, and of the key and item lookup,
    src/references/mariadb/unittest/strings/json-t.c.

    The library (json_lib, not part of the sources) is the parameter [json_lib].  The scanning loops are not bounded by
    the program: they are modelled with fuel, and [json_laws] says what makes them end (the scanner gets closer to the
    end of its text with every step).  The theorems are in [JsonLibFacts]. *)

From S2P Require Import Prelude Tap.
Open Scope Z_scope.

(** * The library *)

(** The scanner states the program distinguishes. *)
Inductive json_states := JST_KEY | JST_VALUE | JST_OBJ_START | JST_ARRAY_START | JST_OTHER.

#[global] Instance json_states_eq_dec : EqDecision json_states.
Proof. solve_decision. Defined.

Inductive json_path_step_types := JSON_PATH_KEY | JSON_PATH_ARRAY | JSON_PATH_KEY_WILD | JSON_PATH_ARRAY_WILD | JSON_PATH_OTHER.

#[global] Instance json_path_step_types_eq_dec : EqDecision json_path_step_types.
Proof. solve_decision. Defined.

Record json_path_step := PathStep { type : json_path_step_types; n_item : Z }.

(** [json_cursor] is the position of a search: the step pointer and the array counters. *)
Class json_lib := {
  json_engine : Type;
  json_path : Type;
  json_cursor : Type;
  json_scan_start : bytes → json_engine → Z * json_engine;
  state : json_engine → json_states;
  s_error : json_engine → Z;
  c_next : json_engine → Z;
  json_read_keyname_chr : json_engine → Z * json_engine;
  json_scan_next : json_engine → Z * json_engine;
  json_path_setup : bytes → json_path → Z * json_path;
  last_step_idx : json_path → Z;
  path_step : json_path → nat → json_path_step;
  first_step : json_path → json_cursor;
  json_find_path : json_engine → json_path → json_cursor → Z * json_engine * json_cursor;
  json_read_value : json_engine → Z * json_engine;
  json_value_scalar : json_engine → bool;
  json_skip_level : json_engine → Z * json_engine;
  json_get_object_key : bytes → bytes → Z * bytes * Z;
  json_get_array_item : bytes → Z → Z * bytes * Z;
  json_locate_key : json_engine → bytes → bytes → Z * option (Z * Z) * Z * json_engine;
}.

(** [work] measures what the scanner has left to read: a successful step or key character reduces it, and nothing
    increases it. *)
Class json_laws (L : json_lib) (work : json_engine → nat) : Prop := {
  work_next je : (json_scan_next je).1 = 0 → (work (json_scan_next je).2 < work je)%nat;
  work_keyname je : (json_read_keyname_chr je).1 = 0 → (work (json_read_keyname_chr je).2 < work je)%nat;
  work_keyname_end je : (work (json_read_keyname_chr je).2 ≤ work je)%nat;
  work_find je p c : (work (json_find_path je p c).1.2 ≤ work je)%nat;
  work_value je : (work (json_read_value je).2 ≤ work je)%nat;
  work_skip je : (work (json_skip_level je).2 ≤ work je)%nat;
}.

(** * json_lib-t.c *)

Record st_parse_result := ParseResult {
  n_keys : Z; n_values : Z; n_arrays : Z; n_objects : Z; n_steps : Z; error : Z; keyname_csum : Z }.

Definition zero_result : st_parse_result := ParseResult 0 0 0 0 0 0 0.

Definition js0 : bytes := c_lit "123".
Definition js1 : bytes := c_lit "[123, \qtext\q]".
Definition js2 : bytes := c_lit "{\qkey1\q:123, \qkey2\q:\qtext\q}".
Definition js3 : bytes := c_lit "{\qkey1\q:{\qikey1\q:321},\qkey2\q:[\qtext\q, 321]}".
Definition p0 : bytes := c_lit "$.key1[12].*[*]".
Definition fj0 : bytes :=
  c_lit "[{\qk0\q:123, \qk1\q:123, \qk1\q:123}, {\qk3\q:321, \qk4\q:\qtext\q}, {\qk1\q:[\qtext\q], \qk2\q:123}]".
Definition fp0 : bytes := c_lit "$[*].k1".

Section program.
Context `{L : json_lib}.

(** [while (json_read_keyname_chr(je) == 0) result->keyname_csum^= je->s.c_next;] on an [uchar]. *)
Fixpoint read_keyname (fuel : nat) (je : json_engine) (csum : Z) : option (json_engine * Z) :=
  match fuel with
  | O => None
  | S fuel' =>
      let r := json_read_keyname_chr je in
      if r.1 =? 0 then read_keyname fuel' r.2 (Z.lxor csum (c_next r.2) mod 256) else Some (r.2, csum)
  end.

(** The body of the loop of [parse_json]: the result, the engine, and whether to return at once. *)
Definition parse_state (fuel : nat) (je : json_engine) (r : st_parse_result) :
    option (st_parse_result * json_engine * bool) :=
  let r := ParseResult (n_keys r) (n_values r) (n_arrays r) (n_objects r) (n_steps r + 1) (error r) (keyname_csum r) in
  match state je with
  | JST_KEY =>
      '(je, csum) ← read_keyname fuel je (keyname_csum r);
      Some (ParseResult (n_keys r + 1) (n_values r) (n_arrays r) (n_objects r) (n_steps r) (error r) csum, je,
            negb (s_error je =? 0))
  | JST_VALUE =>
      Some (ParseResult (n_keys r) (n_values r + 1) (n_arrays r) (n_objects r) (n_steps r) (error r) (keyname_csum r),
            je, false)
  | JST_OBJ_START =>
      Some (ParseResult (n_keys r) (n_values r) (n_arrays r) (n_objects r + 1) (n_steps r) (error r) (keyname_csum r),
            je, false)
  | JST_ARRAY_START =>
      Some (ParseResult (n_keys r) (n_values r) (n_arrays r + 1) (n_objects r) (n_steps r) (error r) (keyname_csum r),
            je, false)
  | JST_OTHER => Some (r, je, false)
  end.

Fixpoint parse_loop (fuel : nat) (je : json_engine) (r : st_parse_result) : option (st_parse_result * json_engine) :=
  match fuel with
  | O => None
  | S fuel' =>
      '(r, je, returns) ← parse_state fuel je r;
      if returns : bool then Some (r, je)
      else
        let next := json_scan_next je in
        if next.1 =? 0 then parse_loop fuel' next.2 r
        else Some (ParseResult (n_keys r) (n_values r) (n_arrays r) (n_objects r) (n_steps r) (s_error next.2)
                     (keyname_csum r), next.2)
  end.

Definition parse_json (fuel : nat) (j : bytes) (je : json_engine) : option (st_parse_result * json_engine) :=
  let start := json_scan_start j je in
  if negb (start.1 =? 0) then Some (zero_result, start.2) else parse_loop fuel start.2 zero_result.

(** A loop that does not end within its fuel has no outcome. *)
Definition ended {A} (x : option A) : tap A := match x with Some a => mret a | None => undefined end.

Definition test_json_parsing (fuel : nat) (je : json_engine) : tap json_engine :=
  '(r, je) ← ended (parse_json fuel js0 je);
  ok ((n_steps r =? 1) && (n_values r =? 1)) "simple value" [] ;;
  '(r, je) ← ended (parse_json fuel js1 je);
  ok ((n_steps r =? 5) && (n_values r =? 3) && (n_arrays r =? 1)) "array" [] ;;
  '(r, je) ← ended (parse_json fuel js2 je);
  ok ((n_steps r =? 5) && (n_keys r =? 2) && (n_objects r =? 1) && (keyname_csum r =? 3)) "object" [] ;;
  '(r, je) ← ended (parse_json fuel js3 je);
  ok ((n_steps r =? 12) && (n_keys r =? 3) && (n_objects r =? 2) && (n_arrays r =? 1) && (keyname_csum r =? 44))
    "complex json" [] ;;
  mret je.

Definition has_type (s : json_path_step) (t : json_path_step_types) : bool := bool_decide (type s = t).

Definition test_path_parsing (p : json_path) : tap json_path :=
  let setup := json_path_setup p0 p in
  let p := setup.2 in
  if negb (setup.1 =? 0) then mret p
  else
    ok ((last_step_idx p =? 4) && has_type (path_step p 0) JSON_PATH_ARRAY_WILD && has_type (path_step p 1) JSON_PATH_KEY &&
        has_type (path_step p 2) JSON_PATH_ARRAY && (n_item (path_step p 2) =? 12) &&
        has_type (path_step p 3) JSON_PATH_KEY_WILD && has_type (path_step p 4) JSON_PATH_ARRAY_WILD) "path" [] ;;
    mret p.

(** The loop of [test_search]: [Some None] where it jumps to the end, otherwise the number of matches and of scalars. *)
Fixpoint search_loop (fuel : nat) (je : json_engine) (p : json_path) (c : json_cursor) (n_matches scal_values : Z) :
    option (option (Z * Z)) :=
  match fuel with
  | O => None
  | S fuel' =>
      let found := json_find_path je p c in
      if negb (found.1.1 =? 0) then Some (Some (n_matches, scal_values))
      else
        let value := json_read_value found.1.2 in
        if negb (value.1 =? 0) then Some None
        else if json_value_scalar value.2 then
          let next := json_scan_next value.2 in
          if negb (next.1 =? 0) then Some None
          else search_loop fuel' next.2 p found.2 (n_matches + 1) (scal_values + 1)
        else
          let skip := json_skip_level value.2 in
          if negb (skip.1 =? 0) then Some None
          else
            let next := json_scan_next skip.2 in
            if negb (next.1 =? 0) then Some None
            else search_loop fuel' next.2 p found.2 (n_matches + 1) scal_values
  end.

Definition test_search (fuel : nat) (je : json_engine) (p : json_path) : tap () :=
  let start := json_scan_start fj0 je in
  if negb (start.1 =? 0) then mret ()
  else
    let setup := json_path_setup fp0 p in
    if negb (setup.1 =? 0) then mret ()
    else
      r ← ended (search_loop fuel start.2 setup.2 (first_step setup.2) 0 0);
      match r with
      | None => mret ()
      | Some (n_matches, _) => ok (n_matches =? 3) "search" []
      end.

Definition main (fuel : nat) (je : json_engine) (p : json_path) : tap () :=
  plan 6 ;;
  diag "Testing json_lib functions." [] ;;
  je ← test_json_parsing fuel je;
  p ← test_path_parsing p;
  test_search fuel je p.

End program.

(** * json-t.c *)

Definition json : bytes := c_lit "{\qint\q:1,\qstr\q:\qfoo bar\q,\qarray\q:[10,20,{\qc\q:\qd\q}],\qbool\q:false}".
Definition json_ar : bytes := c_lit "[1,\qfoo bar\q,[10,20,{\qc\q:\qd\q}],false]".
Definition json_w : bytes := c_lit "{\qint\q : 1 ,  \qarray\q : [10,20,{\qc\q:\qd\q}]  , \qbool\q : false  }".
Definition json_1 : bytes := c_lit "{ \qstr\q : \qfoo bar\q   }".

Section lookups.
Context `{L : json_lib}.

(** The comparison of [do_json] and [do_json_ar]: the type, the text from the start of the value and its length against
    the expected type and text; [memcmp] must not read past the end of the document. *)
Definition compare_value (r : Z * bytes * Z) (type : Z) (value : bytes) (fmt fmt_missing : string) (what : arg) : tap () :=
  let value_type := r.1.1 in let value_start := r.1.2 in let value_len := r.2 in
  if negb (type =? 0) then
    if (value_type =? type) && (value_len =? Z.of_nat (length value)) then
      if (length value_start <? length value)%nat then undefined
      else ok (bool_decide (take (length value) value_start = value)) fmt
             [what; ArgD value_type; ArgD value_len; ArgS (take (Z.to_nat value_len) value_start)]
    else ok false fmt [what; ArgD value_type; ArgD value_len; ArgS (take (Z.to_nat value_len) value_start)]
  else
    ok ((value_type =? type) && (value_len =? Z.of_nat (length value))) fmt_missing
      [what; ArgD value_type; ArgD value_len; ArgS value_start].

Definition do_json (row : bytes * Z * bytes) : tap () :=
  let '(key, type, value) := row in
  compare_value (json_get_object_key json key) type value
    "%s: type=%u, value(%d)=\q%.*s\q" "%s: type=%u keys=%u end=\q%s\q" (ArgS key).

Definition do_json_ar (row : Z * Z * bytes) : tap () :=
  let '(n, type, value) := row in
  compare_value (json_get_array_item json_ar n) type value
    "%i: type=%u, value(%d)=\q%.*s\q" "%i: type=%u keys=%u end=\q%s\q" (ArgD n).

Definition do_json_locate (je : json_engine) (doc key : bytes) (from to cp : Z) : tap json_engine :=
  let '(res, pos, comma_pos, je) := json_locate_key je doc key in
  match pos with
  | Some (key_start, key_end) =>
      ok ((res =? 0) && (key_start =? from) && (key_end =? to) && (comma_pos =? cp)) "%s: [%d,%d,%d] %.*s%s"
        [ArgS key; ArgD key_start; ArgD key_end; ArgD comma_pos; ArgS (take (Z.to_nat key_start) doc);
         ArgS (drop (Z.to_nat key_end) doc)]
  | None => ok ((res =? 0) && (from =? -1)) "%s: key not found" [ArgS key]
  end ;;
  mret je.

Definition key_rows : list (bytes * Z * bytes) :=
  [(c_lit "int", 4, c_lit "1"); (c_lit "str", 3, c_lit "foo bar"); (c_lit "bool", 6, c_lit "false");
   (c_lit "c", 0, c_lit "1234"); (c_lit "array", 2, c_lit "[10,20,{\qc\q:\qd\q}]")].

Definition item_rows : list (Z * Z * bytes) :=
  [(0, 4, c_lit "1"); (1, 3, c_lit "foo bar"); (2, 2, c_lit "[10,20,{\qc\q:\qd\q}]"); (3, 6, c_lit "false");
   (4, 0, c_lit "1234")].

Definition locate_rows : list (bytes * bytes * Z * Z * Z) :=
  [(json, c_lit "bool", 50, 63, 1); (json, c_lit "int", 1, 9, 2); (json, c_lit "array", 24, 50, 1);
   (json_w, c_lit "bool", 43, 61, 1); (json_w, c_lit "int", 1, 12, 2); (json_w, c_lit "array", 11, 43, 1);
   (json_w, c_lit "c", -1, -1, -1); (json_1, c_lit "str", 1, 22, 0)].

(** The calls of [do_json_locate] pass the engine on. *)
Fixpoint locate_all (je : json_engine) (rows : list (bytes * bytes * Z * Z * Z)) : tap () :=
  match rows with
  | [] => mret ()
  | (doc, key, from, to, cp) :: rows' => je ← do_json_locate je doc key from to cp; locate_all je rows'
  end.

Definition main_lookup (je : json_engine) : tap () :=
  plan 18 ;;
  diag "%s" [ArgS json] ;;
  each do_json key_rows ;;
  diag "%s" [ArgS json_ar] ;;
  each do_json_ar item_rows ;;
  locate_all je locate_rows.

End lookups.
