(* ===== verification/JsonLibFacts.v ===== *)
(** The theorems about the JSON tests of [JsonLibSuite]: the scanning loops end, [parse_json] tallies exactly the states
    the scanner visits and forgets an error inside a key, and which checks the programs make. *)

From S2P Require Import Prelude Tap JsonLibSuite.
Open Scope Z_scope.

(** * What a scan tallies *)

Section tally.
Context `{L : json_lib}.

(** Reading a key name: the characters, and the engine behind them. *)
Inductive key_chars : json_engine → list Z → json_engine → Prop :=
| key_chars_end je : (json_read_keyname_chr je).1 ≠ 0 → key_chars je [] (json_read_keyname_chr je).2
| key_chars_next je cs je' :
    (json_read_keyname_chr je).1 = 0 → key_chars (json_read_keyname_chr je).2 cs je' →
    key_chars je (c_next (json_read_keyname_chr je).2 :: cs) je'.

(** Handling the current state: only a key reads anything. *)
Inductive visit (je : json_engine) : list Z → json_engine → Prop :=
| visit_key cs je' : state je = JST_KEY → key_chars je cs je' → visit je cs je'
| visit_other : state je ≠ JST_KEY → visit je [] je.

Definition key_failed (je je' : json_engine) : Prop := state je = JST_KEY ∧ s_error je' ≠ 0.

(** The states a scan visits with the characters of the keys, where it ends, and the error it leaves in the result. *)
Inductive visits : json_engine → list (json_states * list Z) → json_engine → Z → Prop :=
| visits_key_error je cs je' : visit je cs je' → key_failed je je' → visits je [(state je, cs)] je' 0
| visits_last je cs je' :
    visit je cs je' → ~ key_failed je je' → (json_scan_next je').1 ≠ 0 →
    visits je [(state je, cs)] (json_scan_next je').2 (s_error (json_scan_next je').2)
| visits_next je cs je' tr je'' e :
    visit je cs je' → ~ key_failed je je' → (json_scan_next je').1 = 0 → visits (json_scan_next je').2 tr je'' e →
    visits je ((state je, cs) :: tr) je'' e.

Lemma visits_error je tr je' e :
  visits je tr je' e → e = s_error je' ∨ e = 0 ∧ s_error je' ≠ 0 ∧ ∃ tr' cs, tr = tr' ++ [(JST_KEY, cs)].
Proof.
  induction 1 as [je cs je' Hv [Hs He]| |je cs je' tr je'' e Hv Hf Hn Hr IH].
  - right. split; [done|]. split; [done|]. exists [], cs. by rewrite Hs.
  - by left.
  - destruct IH as [IH|(-> & Hne & tr' & cs' & ->)]; [by left|]. right. split; [done|]. split; [done|].
    by exists ((state je, cs) :: tr'), cs'.
Qed.

End tally.

(** How often a state occurs. *)
Definition occurrences (s : json_states) (tr : list (json_states * list Z)) : Z :=
  foldr (λ v n, if decide (v.1 = s) then n + 1 else n) 0 tr.

Definition checksum (csum : Z) (tr : list (json_states * list Z)) : Z :=
  foldl (λ a c, Z.lxor a c mod 256) csum (tr ≫= snd).

(** The result of a scan that had [r] in its result before. *)
Definition tally (r : st_parse_result) (tr : list (json_states * list Z)) (e : Z) : st_parse_result :=
  ParseResult (n_keys r + occurrences JST_KEY tr) (n_values r + occurrences JST_VALUE tr)
    (n_arrays r + occurrences JST_ARRAY_START tr) (n_objects r + occurrences JST_OBJ_START tr)
    (n_steps r + Z.of_nat (length tr)) e (checksum (keyname_csum r) tr).

Section proofs.
Context `{L : json_lib} {work} `{!json_laws L work}.

Lemma read_keyname_ends fuel : ∀ je csum,
  (work je < fuel)%nat →
  ∃ cs je', read_keyname fuel je csum = Some (je', foldl (λ a c, Z.lxor a c mod 256) csum cs) ∧ key_chars je cs je' ∧
    (work je' ≤ work je)%nat.
Proof.
  induction fuel as [|fuel IH]; intros je csum Hw; [lia|]. cbn [read_keyname].
  destruct (Z.eqb_spec (json_read_keyname_chr je).1 0) as [E|E].
  - pose proof (work_keyname je E) as Hl.
    destruct (IH (json_read_keyname_chr je).2 (Z.lxor csum (c_next (json_read_keyname_chr je).2) mod 256) ltac:(lia))
      as (cs & je' & Hr & Hk & Hle).
    eexists (_ :: cs), je'. split; [exact Hr|]. split; [by constructor|lia].
  - exists [], (json_read_keyname_chr je).2. split; [done|]. split; [by constructor|]. apply work_keyname_end.
Qed.

(** One visit: what is added to the result, before the error is set. *)
Lemma parse_state_visit fuel je r :
  (work je < fuel)%nat →
  ∃ cs je', parse_state fuel je r = Some (tally r [(state je, cs)] (error r), je',
                                          bool_decide (key_failed je je')) ∧
    visit je cs je' ∧ (work je' ≤ work je)%nat.
Proof.
  intros Hw. unfold parse_state, key_failed. destruct (state je) eqn:Es.
  2-5: exists [], je; (split; [|split; [by apply visit_other; rewrite Es|done]]);
    rewrite bool_decide_false by naive_solver; unfold tally, occurrences, checksum; cbn; do 4 f_equal; repeat case_decide;
    done || lia.
  destruct (read_keyname_ends fuel je (keyname_csum r) Hw) as (cs & je' & Hr & Hk & Hle).
  exists cs, je'. split; [|split; [by apply visit_key|done]]. cbn [keyname_csum]. rewrite Hr. cbn.
  unfold tally, occurrences, checksum. cbn. rewrite app_nil_r.
  f_equal. f_equal; [|destruct (Z.eqb_spec (s_error je') 0); symmetry; [apply bool_decide_false|apply bool_decide_true]; naive_solver].
  do 2 f_equal; repeat case_decide; done || lia.
Qed.

Lemma tally_cons r v tr e e' : tally (tally r [v] e) tr e' = tally r (v :: tr) e'.
Proof.
  unfold tally, occurrences, checksum. cbn. rewrite app_nil_r, foldl_app.
  f_equal; try (repeat case_decide; lia); lia.
Qed.

Lemma parse_loop_visits fuel : ∀ je r,
  (work je < fuel)%nat → error r = 0 →
  ∃ tr je' e, parse_loop fuel je r = Some (tally r tr e, je') ∧ visits je tr je' e.
Proof.
  induction fuel as [|fuel IH]; intros je r Hw He; [lia|]. cbn [parse_loop].
  destruct (parse_state_visit (S fuel) je r Hw) as (cs & je' & Hp & Hv & Hle). rewrite Hp. cbn.
  case_bool_decide as Hf.
  { exists [(state je, cs)], je', 0. rewrite He. split; [done|]. by apply visits_key_error. }
  destruct (Z.eqb_spec (json_scan_next je').1 0) as [E|E].
  - pose proof (work_next je' E) as Hn.
    destruct (IH (json_scan_next je').2 (tally r [(state je, cs)] (error r)) ltac:(lia) He) as (tr & je'' & e & Hl & Ht).
    rewrite Hl, tally_cons. eexists _, _, _. split; [done|]. by eapply visits_next.
  - eexists _, _, _. split; [|by eapply visits_last]. done.
Qed.

Lemma parse_json_ends fuel j je :
  (work (json_scan_start j je).2 < fuel)%nat → ∃ r je', parse_json fuel j je = Some (r, je').
Proof.
  intros Hw. unfold parse_json. destruct (_ =? 0); cbn; [|eauto].
  destruct (parse_loop_visits fuel _ zero_result Hw eq_refl) as (tr & je' & e & -> & _). eauto.
Qed.

Lemma search_loop_ends fuel : ∀ je p c n m, (work je < fuel)%nat → ∃ x, search_loop fuel je p c n m = Some x.
Proof.
  induction fuel as [|fuel IH]; intros je p c n m Hw; [lia|]. cbn [search_loop].
  pose proof (work_find je p c) as H1. set (found := json_find_path je p c) in *.
  destruct (negb (found.1.1 =? 0)); [eauto|].
  pose proof (work_value found.1.2) as H2. set (value := json_read_value found.1.2) in *.
  destruct (negb (value.1 =? 0)); [eauto|]. destruct (json_value_scalar value.2).
  - destruct (Z.eqb_spec (json_scan_next value.2).1 0) as [E|E]; cbn; [|eauto].
    pose proof (work_next _ E). apply IH. lia.
  - pose proof (work_skip value.2) as H3. set (skip := json_skip_level value.2) in *.
    destruct (negb (skip.1 =? 0)); [eauto|].
    destruct (Z.eqb_spec (json_scan_next skip.2).1 0) as [E|E]; cbn; [|eauto].
    pose proof (work_next _ E). apply IH. lia.
Qed.

(** * The checks of json_lib-t.c *)

(** One document: parsed, then checked. *)
Lemma gives_parsed {A} fuel j je (k : st_parse_result * json_engine → tap A) (Q : A → list event → Prop) :
  (work (json_scan_start j je).2 < fuel)%nat → (∀ x, outcome (k x) Q) → outcome (ended (parse_json fuel j je) ≫= k) Q.
Proof.
  intros Hw Hk. destruct (parse_json_ends fuel j je Hw) as (r & je' & ->). apply outcome_bind. cbn. apply Hk.
Qed.

Lemma outcome_checked {A} b fmt args (k : () → tap A) (Q : A → list event → Prop) :
  outcome (k ()) (λ a t, Q a (Check b fmt args :: t)) → outcome (ok b fmt args ≫= k) Q.
Proof. intros H. by apply outcome_bind, outcome_emit. Qed.

Lemma test_json_parsing_checks fuel je :
  (∀ j je, work (json_scan_start j je).2 < fuel)%nat →
  outcome (test_json_parsing fuel je) (λ _ t, plans t = [] ∧ length (verdicts t) = 4%nat).
Proof.
  intros Hw. unfold test_json_parsing.
  do 4 (apply gives_parsed; [done|]; intros [? ?]; apply outcome_checked). by apply outcome_ret.
Qed.

Lemma test_path_parsing_checks p :
  outcome (test_path_parsing p) (λ _ t,
    plans t = [] ∧ length (verdicts t) = if (json_path_setup p0 p).1 =? 0 then 1%nat else 0%nat).
Proof. unfold test_path_parsing. destruct (_ =? 0); cbn [negb]; [|by apply outcome_ret]. by apply outcome_checked, outcome_ret. Qed.

Lemma test_search_checks fuel je p :
  (∀ j je, work (json_scan_start j je).2 < fuel)%nat →
  outcome (test_search fuel je p) (λ _ t, plans t = [] ∧ (length (verdicts t) ≤ 1)%nat).
Proof.
  intros Hw. unfold test_search. destruct (negb _); [by apply outcome_ret; split; [|cbn; lia]|].
  destruct (negb _); [by apply outcome_ret; split; [|cbn; lia]|].
  destruct (search_loop_ends fuel (json_scan_start fj0 je).2 (json_path_setup fp0 p).2
              (first_step (json_path_setup fp0 p).2) 0 0 (Hw _ _)) as ([[n m]|] & ->).
  - apply outcome_bind. cbn. split; [done|lia].
  - apply outcome_bind. cbn. split; [done|lia].
Qed.

Lemma json_lib_outcome fuel je p :
  (∀ j je, work (json_scan_start j je).2 < fuel)%nat →
  outcome (main fuel je p) (λ _ t, plans t = [6] ∧ (4 ≤ length (verdicts t) ≤ 6)%nat ∧
    (length (verdicts t) = 6%nat → (json_path_setup p0 p).1 = 0)).
Proof.
  intros Hw. unfold main. apply outcome_bind, outcome_emit, outcome_bind, outcome_emit.
  eapply outcome_seq; [by apply test_json_parsing_checks|]. intros je' t1 [Hp1 Hv1].
  eapply outcome_seq; [apply test_path_parsing_checks|]. intros p' t2 [Hp2 Hv2].
  eapply outcome_mono; [|by apply test_search_checks]. intros [] t3 [Hp3 Hv3]. cbn [app plans verdicts].
  rewrite !plans_app, !verdicts_app, !length_app, Hp1, Hp2, Hp3, Hv1, Hv2.
  destruct (Z.eqb_spec (json_path_setup p0 p).1 0); split_and!; try done; lia.
Qed.

End proofs.

(** * The checks of json-t.c *)

Section lookups.
Context `{L : json_lib}.

(** The answer is the expected type and, unless nothing was to be found, the expected text. *)
Definition meets_value (r : Z * bytes * Z) (type : Z) (value : bytes) : Prop :=
  r.1.1 = type ∧ r.2 = Z.of_nat (length value) ∧ (type ≠ 0 → take (length value) r.1.2 = value).

Fixpoint meets_locate (je : json_engine) (rows : list (bytes * bytes * Z * Z * Z)) : Prop :=
  match rows with
  | [] => True
  | (doc, key, from, to, cp) :: rows' =>
      let r := json_locate_key je doc key in
      r.1.1.1 = 0 ∧
      match r.1.1.2 with
      | Some (key_start, key_end) => key_start = from ∧ key_end = to ∧ r.1.2 = cp
      | None => from = -1
      end ∧ meets_locate r.2 rows'
  end.

Definition within (r : Z * bytes * Z) : Prop := r.1.1 ≠ 0 → r.2 ≤ Z.of_nat (length r.1.2).

Lemma compare_value_judges r type value f g w : within r → judges (compare_value r type value f g w) 1 (meets_value r type value).
Proof.
  intros Hr. unfold compare_value, meets_value. cbv zeta. destruct (Z.eqb_spec type 0) as [Ht|Ht]; cbn [negb].
  - eapply judges_iff; [apply judges_ok|]. rewrite andb_true_iff, !Z.eqb_eq. naive_solver.
  - destruct (Z.eqb_spec r.1.1 type) as [E|E]; cbn [andb]; [|eapply judges_iff; [apply judges_ok|]; naive_solver].
    destruct (Z.eqb_spec r.2 (Z.of_nat (length value))) as [E'|E']; [|eapply judges_iff; [apply judges_ok|]; naive_solver].
    unfold within in Hr. destruct (Nat.ltb_spec (length r.1.2) (length value)); [lia|].
    eapply judges_iff; [apply judges_ok|]. rewrite bool_decide_eq_true. naive_solver.
Qed.

Lemma locate_all_judges rows : ∀ je, judges (locate_all je rows) (length rows) (meets_locate je rows).
Proof.
  induction rows as [|[[[[doc key] from] to] cp] rows IH]; intros je; [apply judges_ret|].
  cbn [locate_all meets_locate length]. unfold do_json_locate.
  destruct (json_locate_key je doc key) as [[[res pos] comma] je'] eqn:E. cbn [fst snd].
  destruct (IH je') as (vs & Hg & Hn & Hv).
  destruct pos as [[ks ke]|].
  - exists (((res =? 0) && (ks =? from) && (ke =? to) && (comma =? cp)) :: vs). split; [|split; [cbn; lia|]].
    + eapply (gives_bind _ _ je' () [_] vs); [|exact Hg]. eapply (gives_bind _ _ () je' [_] []); [apply gives_ok|apply gives_ret].
    + rewrite Forall_cons, Hv, !andb_true_iff, !Z.eqb_eq. naive_solver.
  - exists (((res =? 0) && (from =? -1)) :: vs). split; [|split; [cbn; lia|]].
    + eapply (gives_bind _ _ je' () [_] vs); [|exact Hg]. eapply (gives_bind _ _ () je' [_] []); [apply gives_ok|apply gives_ret].
    + rewrite Forall_cons, Hv, !andb_true_iff, !Z.eqb_eq. naive_solver.
Qed.

End lookups.

(** * A library *)

(** A scanner that finds a value at every byte, and nothing else. *)
Definition byte_scanner : json_lib := {|
  json_engine := bytes;
  json_path := ();
  json_cursor := ();
  json_scan_start j _ := (0, j);
  state _ := JST_VALUE;
  s_error _ := 0;
  c_next _ := 0;
  json_read_keyname_chr je := (1, je);
  json_scan_next je := match je with [] => (1, []) | _ :: je' => (0, je') end;
  json_path_setup _ p := (0, p);
  last_step_idx _ := 0;
  path_step _ _ := PathStep JSON_PATH_OTHER 0;
  first_step _ := ();
  json_find_path je _ c := (1, je, c);
  json_read_value je := (0, je);
  json_value_scalar _ := true;
  json_skip_level je := (0, je);
  json_get_object_key _ _ := (0, [], 0);
  json_get_array_item _ _ := (0, [], 0);
  json_locate_key je _ _ := (0, None, 0, je);
|}.

Lemma byte_scanner_laws : json_laws byte_scanner (@length byte).
Proof. split; cbn; intros; try done. by destruct je; cbn in *; [|lia]. Qed.

(** * Theorems *)

(** [parse_json] ends for every scanner that gets closer to the end of its text, and its result is the tally of the
    states the scan visits: their number, how many were keys, values, arrays and objects, and the exclusive or of the key
    characters.  Its [error] is the scanner's, except that a scan that fails inside a key leaves 0 there. *)
Theorem parse_json_tallies `{L : json_lib} {work} `{!json_laws L work} fuel j je :
  (work (json_scan_start j je).2 < fuel)%nat →
  if (json_scan_start j je).1 =? 0
  then ∃ tr je' e,
    parse_json fuel j je = Some (tally zero_result tr e, je') ∧ visits (json_scan_start j je).2 tr je' e ∧
    (e = s_error je' ∨ e = 0 ∧ s_error je' ≠ 0 ∧ ∃ tr' cs, tr = tr' ++ [(JST_KEY, cs)])
  else parse_json fuel j je = Some (zero_result, (json_scan_start j je).2).
Proof.
  intros Hw. unfold parse_json. destruct (_ =? 0); cbn [negb]; [|done].
  destruct (parse_loop_visits fuel _ zero_result Hw eq_refl) as (tr & je' & e & -> & Hv).
  eexists _, _, _. split; [done|]. split; [done|]. by eapply visits_error.
Qed.

(** [parse_json_tallies] for a scanner that sees four values in the text 123: one at each byte and one at its end. *)
Lemma parse_json_tallies_witness :
  ∃ tr je' e, parse_json (L := byte_scanner) 5 js0 [] = Some (tally zero_result tr e, je') ∧ length tr = 4%nat.
Proof.
  destruct (@parse_json_tallies byte_scanner _ byte_scanner_laws 5 js0 [] ltac:(vm_compute; lia)) as (tr & je' & e & Hp & _).
  exists tr, je', e. split; [exact Hp|].
  assert (Some (ParseResult 0 4 0 0 4 0 0, []) = Some (tally zero_result tr e, je')) as [= _ _ _ _ Hn _ _ _] by exact Hp.
  lia.
Defined.

(** For every scanner as above the program announces six checks and makes at least four of them; the other two are
    skipped if the library reports an error, which a run with fewer checks than planned makes visible. *)
Theorem json_lib_main_checks `{L : json_lib} {work} `{!json_laws L work} fuel je p :
  (∀ j je, work (json_scan_start j je).2 < fuel)%nat →
  outcome (main fuel je p) (λ _ t, plans t = [6] ∧ (4 ≤ length (verdicts t) ≤ 6)%nat ∧
    (length (verdicts t) = 6%nat → (json_path_setup p0 p).1 = 0)).
Proof. apply json_lib_outcome. Qed.

(** The eighteen checks of the lookup tests pass exactly if the library answers every row of the three tables. *)
Theorem lookup_main_passes_iff `{L : json_lib} je :
  (∀ doc key, within (json_get_object_key doc key)) → (∀ doc n, within (json_get_array_item doc n)) →
  plan_kept (main_lookup je) ∧
  (passes (main_lookup je) ↔
   Forall (λ row, meets_value (json_get_object_key json row.1.1) row.1.2 row.2) key_rows ∧
   Forall (λ row, meets_value (json_get_array_item json_ar row.1.1) row.1.2 row.2) item_rows ∧
   meets_locate je locate_rows).
Proof.
  intros Hk Hi. unfold main_lookup. apply (judges_planned _ _ 18); [|reflexivity]. eapply judges_iff.
  - eapply (judges_seq _ _ 0); [apply judges_diag|].
    eapply (judges_seq _ _ 5).
    { apply (judges_each _ 1 (λ row, meets_value (json_get_object_key json row.1.1) row.1.2 row.2)).
      intros [[? ?] ?] _. by apply compare_value_judges. }
    eapply (judges_seq _ _ 0); [apply judges_diag|].
    eapply (judges_seq _ _ 5).
    { apply (judges_each _ 1 (λ row, meets_value (json_get_array_item json_ar row.1.1) row.1.2 row.2)).
      intros [[? ?] ?] _. by apply compare_value_judges. }
    apply locate_all_judges.
  - cbn [fst snd]. tauto.
Qed.
