(* ===== verification/JsonNormSuite.v ===== *)
(** The JSON normalisation tests, src/references/mariadb/unittest/json_lib/json_normalize-t.c.

    The library (json_normalize, not part of the sources) is the parameter [norm_lib]: a function of the character set,
    of whether the memory root it is given was initialised, and of the text; the scanner and the stack it is given are
    scratch memory.  The theorems: the program makes the 88 checks it announces, they pass exactly if the library answers
    every row, the number rows are what a reference normaliser of decimal numbers gives, and most calls pass a memory
    root that was never initialised. *)

From S2P Require Import Prelude Tap.
Open Scope Z_scope.

(** * The program *)

Inductive charset := my_charset_utf8mb4_general_ci | my_charset_utf8mb4_bin | my_charset_latin1.

(** [json_normalize] and [json_normalize_number]: the error code and the resulting string.  A text is [None] for the
    null pointer. *)
Class norm_lib := {
  json_normalize : charset → bool → option bytes → Z * bytes;
  json_normalize_number : bytes → Z * bytes;
}.

Section program.
Context `{L : norm_lib}.

(** The memory root of this function is a local variable that is not initialised. *)
Definition check_json_normalize (input expected : bytes) : tap () :=
  let r := json_normalize my_charset_utf8mb4_general_ci false (Some input) in
  ok (r.1 =? 0) "normalize err: %d" [ArgD r.1] ;;
  ok (bool_decide (expected = c_string r.2)) "from '%s'\n expect: '%s'\n actual: '%s'" [ArgS input; ArgS expected; ArgS r.2].

Definition test_json_normalize_invalid : tap () :=
  let invalid text := negb ((json_normalize my_charset_utf8mb4_general_ci true text).1 =? 0) in
  ok (invalid (Some (c_lit ""))) "expected normalized error" [] ;;
  ok (invalid (Some (c_lit "["))) "expected normalized error" [] ;;
  ok (invalid (Some (c_lit "}"))) "expected normalized error" [] ;;
  ok (invalid None) "expected normalized error" [].

Definition single_kv_row : bytes * bytes :=
  (c_lit "{\n  \qfoo\q: \qvalue\q\n}\n",
   c_lit "{\qfoo\q:\qvalue\q}").

Definition test_json_normalize_single_kv : tap () := check_json_normalize single_kv_row.1 single_kv_row.2.

Definition multi_kv_row : bytes * bytes :=
  (c_lit "{\n  \qbar\q: \qbaz\q,\n  \qfoo\q: \qvalue\q\n}\n",
   c_lit "{\qbar\q:\qbaz\q,\qfoo\q:\qvalue\q}").

Definition test_json_normalize_multi_kv : tap () := check_json_normalize multi_kv_row.1 multi_kv_row.2.

Definition array_row : bytes * bytes :=
  (c_lit "[ \qa\q, \qb\q, true, false, null ]",
   c_lit "[\qa\q,\qb\q,true,false,null]").

Definition test_json_normalize_array : tap () := check_json_normalize array_row.1 array_row.2.

Definition nested_objects_row : bytes * bytes :=
  (c_lit "{\n  \qwiz\q: {\n\t\t\qbang\q: \qa\q,\n\t\t\qalpha\q: false\n\t},\n  \qfoo\q: {\qvalue\q:true}\n}",
   c_lit "{\qfoo\q:{\qvalue\q:true},\qwiz\q:{\qalpha\q:false,\qbang\q:\qa\q}}").

Definition test_json_normalize_nested_objects : tap () := check_json_normalize nested_objects_row.1 nested_objects_row.2.

Definition nested_arrays_row : bytes * bytes :=
  (c_lit "[\n  \qwiz\q,\n [\qbang\q, \t\t\qalpha\q\t]\n]",
   c_lit "[\qwiz\q,[\qbang\q,\qalpha\q]]").

Definition test_json_normalize_nested_arrays : tap () := check_json_normalize nested_arrays_row.1 nested_arrays_row.2.

Definition nested_deep_row : bytes * bytes :=
  (c_lit "{\n  \qfoo\q: \qvalue\q,\n  \qwiz\q: [true, false, {\n\t\t\qbang\q: \qa\q,\n\t\t\qalpha\q: 12345.67890\n\t},\n  \qstring\q,\n\t{ \qb\q: \qone\q, \qa\q: \qtwo\q, \qc\q: \qthree\q}, false,\n\t\t[-1.20, \qw\q, \qx\q]],\n  \qbar\q: \qvalue2\q\n}\n",
   c_lit "{\qbar\q:\qvalue2\q,\qfoo\q:\qvalue\q,\qwiz\q:[true,false,{\qalpha\q:1.23456789E4,\qbang\q:\qa\q},\qstring\q,{\qa\q:\qtwo\q,\qb\q:\qone\q,\qc\q:\qthree\q},false,[-1.2E0,\qw\q,\qx\q]]}").

Definition test_json_normalize_nested_deep : tap () := check_json_normalize nested_deep_row.1 nested_deep_row.2.

Definition value_rows : list (bytes * bytes) :=
  [(c_lit "\qfoo\q", c_lit "\qfoo\q");
   (c_lit "true", c_lit "true");
   (c_lit "false", c_lit "false");
   (c_lit "null", c_lit "null");
   (c_lit "\q\q", c_lit "\q\q");
   (c_lit "{}", c_lit "{}");
   (c_lit "[]", c_lit "[]");
   (c_lit "5", c_lit "5.0E0");
   (c_lit "5.1", c_lit "5.1E0");
   (c_lit "-5.1", c_lit "-5.1E0");
   (c_lit "12345.67890", c_lit "1.23456789E4");
   (c_lit "2.99792458e8", c_lit "2.99792458E8");
   (c_lit "6.02214076e23", c_lit "6.02214076E23");
   (c_lit "6.62607015e-34", c_lit "6.62607015E-34");
   (c_lit "-6.62607015e-34", c_lit "-6.62607015E-34")].

Definition test_json_normalize_values : tap () := each (λ row, check_json_normalize row.1 row.2) value_rows.

Definition utf8 : bytes := byte_of <$> [0x22; 0xC3; 0x8A; 0x22].
Definition latin : bytes := byte_of <$> [0x22; 0xCA; 0x22].

Definition test_json_normalize_non_utf8 : tap () :=
  let r := json_normalize my_charset_utf8mb4_bin true (Some utf8) in
  ok (r.1 =? 0) "normalize err?" [] ;;
  ok (bool_decide (utf8 = c_string r.2)) "utf8 round trip" [] ;;
  let r := json_normalize my_charset_latin1 true (Some latin) in
  ok (r.1 =? 0) "normalize err?" [] ;;
  ok (bool_decide (utf8 = c_string r.2)) "latin to utf8 round trip" [].

Definition check_number_normalize (input expected : bytes) : tap () :=
  let r := json_normalize_number input in
  ok (r.1 =? 0) "normalize number err: %d" [ArgD r.1] ;;
  ok (bool_decide (c_string r.2 = expected)) "    from: %s\nexpected: %s\n  actual: %s\n" [ArgS input; ArgS expected; ArgS r.2].

Definition number_rows : list (bytes * bytes) :=
  [(c_lit "0", c_lit "0.0E0");
   (c_lit "-0.0", c_lit "0.0E0");
   (c_lit "0E100", c_lit "0.0E0");
   (c_lit "0.000000E100", c_lit "0.0E0");
   (c_lit "-0E100", c_lit "0.0E0");
   (c_lit "-0.000E100", c_lit "0.0E0");
   (c_lit "1", c_lit "1.0E0");
   (c_lit "-1", c_lit "-1.0E0");
   (c_lit "36", c_lit "3.6E1");
   (c_lit "37.000", c_lit "3.7E1");
   (c_lit "3.000", c_lit "3.0E0");
   (c_lit "0.00012345", c_lit "1.2345E-4");
   (c_lit "32.14e234", c_lit "3.214E235");
   (c_lit "0.00357e-23", c_lit "3.57E-26");
   (c_lit "0.00357e23", c_lit "3.57E20");
   (c_lit "123.456e10", c_lit "1.23456E12");
   (c_lit "123.456e-9", c_lit "1.23456E-7");
   (c_lit "0000123.456000000e-9", c_lit "1.23456E-7");
   (c_lit "0000123.456000000e+9", c_lit "1.23456E11")].

Definition main : tap () :=
  plan 88 ;;
  diag "Testing json_normalization." [] ;;
  each (λ row, check_number_normalize row.1 row.2) number_rows ;;
  test_json_normalize_invalid ;;
  test_json_normalize_values ;;
  test_json_normalize_single_kv ;;
  test_json_normalize_multi_kv ;;
  test_json_normalize_array ;;
  test_json_normalize_nested_objects ;;
  test_json_normalize_nested_arrays ;;
  test_json_normalize_nested_deep ;;
  test_json_normalize_non_utf8.

End program.

(** * A reference normaliser of numbers *)

(** The value of the leading digits after [acc], how many there are, and the rest. *)
Fixpoint read_digits (acc : Z) (n : nat) (b : bytes) : Z * nat * bytes :=
  match b with
  | c :: b' =>
      let d := byte_val c - 48 in
      if (0 <=? d) && (d <=? 9) then read_digits (acc * 10 + d) (S n) b' else (acc, n, b)
  | [] => (acc, n, [])
  end.

Definition read_sign (b : bytes) : Z * bytes :=
  match b with
  | c :: b' => if byte_val c =? 45 then (-1, b') else if byte_val c =? 43 then (1, b') else (1, b)
  | [] => (1, [])
  end.

(** A decimal number as its integer digits and the power of ten they are to be multiplied with. *)
Definition read_number (b : bytes) : Z * Z :=
  let '(s, b) := read_sign b in
  let '(m, _, b) := read_digits 0 0 b in
  let '(m, k, b) :=
    match b with c :: b' => if byte_val c =? 46 then read_digits m 0 b' else (m, 0%nat, b) | [] => (m, 0%nat, []) end in
  let e :=
    match b with
    | c :: b' => if (byte_val c =? 69) || (byte_val c =? 101) then let '(t, b') := read_sign b' in t * (read_digits 0 0 b').1.1 else 0
    | [] => 0
    end in
  (s * m, e - Z.of_nat k).

(** Without factors of ten in the digits. *)
Fixpoint reduce (fuel : nat) (m e : Z) : Z * Z :=
  match fuel with
  | O => (m, e)
  | S fuel' => if m =? 0 then (0, 0) else if m mod 10 =? 0 then reduce fuel' (m / 10) (e + 1) else (m, e)
  end.

Fixpoint digits (fuel : nat) (m : Z) : bytes :=
  match fuel with
  | O => []
  | S fuel' => (if m <? 10 then [] else digits fuel' (m / 10)) ++ [byte_of (48 + m mod 10)]
  end.

Definition sign_of (z : Z) : bytes := if z <? 0 then c_lit "-" else [].

(** One digit, the point, the other digits or a zero, and the exponent. *)
Definition print_number (n : nat) (m e : Z) : bytes :=
  let ds := digits n (Z.abs m) in
  let x := e + Z.of_nat (length ds) - 1 in
  sign_of m ++ take 1 ds ++ c_lit "." ++ (if (length ds =? 1)%nat then c_lit "0" else drop 1 ds) ++ c_lit "E" ++
  sign_of x ++ digits n (Z.abs x).

(** A number has no more digits than its text has bytes. *)
Definition normal_number (b : bytes) : bytes :=
  let '(m, e) := read_number b in
  let '(m, e) := reduce (length b) m e in
  print_number (length b + 1) m e.

(** * Theorems *)

(** The two answers a row asks for. *)
Definition meets (r : Z * bytes) (expected : bytes) : Prop := r.1 = 0 ∧ c_string r.2 = expected.

(** The texts normalised in the general collation, each with a memory root that is not initialised. *)
Definition text_rows : list (bytes * bytes) :=
  value_rows ++ [single_kv_row; multi_kv_row; array_row; nested_objects_row; nested_arrays_row; nested_deep_row].

Lemma check_json_normalize_judges `{L : norm_lib} input expected :
  judges (check_json_normalize input expected) 2
    (meets (json_normalize my_charset_utf8mb4_general_ci false (Some input)) expected).
Proof.
  unfold check_json_normalize. cbv zeta. eapply judges_iff; [judge|].
  unfold meets. rewrite Z.eqb_eq, bool_decide_eq_true. naive_solver.
Qed.

Lemma check_number_normalize_judges `{L : norm_lib} input expected :
  judges (check_number_normalize input expected) 2 (meets (json_normalize_number input) expected).
Proof.
  unfold check_number_normalize. cbv zeta. eapply judges_iff; [judge|].
  unfold meets. by rewrite Z.eqb_eq, bool_decide_eq_true.
Qed.

(** The number rows ask for the exact decimal value in scientific notation without superfluous digits. *)
Theorem number_rows_normal : Forall (λ row, normal_number row.1 = row.2 ∧ normal_number row.2 = row.2) number_rows.
Proof. repeat (constructor; [split; vm_compute; reflexivity|]). constructor. Qed.

(** For every library the program makes the 88 checks it announces, and they pass exactly if the library normalises every
    number and every text as expected, the latter given a memory root that was never initialised, rejects the four
    invalid texts, and converts to UTF-8. *)
Theorem normalize_main_passes_iff `{L : norm_lib} :
  plan_kept main ∧
  (passes main ↔
   Forall (λ row, meets (json_normalize_number row.1) row.2) number_rows ∧
   Forall (λ text, (json_normalize my_charset_utf8mb4_general_ci true text).1 ≠ 0)
     [Some (c_lit ""); Some (c_lit "["); Some (c_lit "}"); None] ∧
   Forall (λ row, meets (json_normalize my_charset_utf8mb4_general_ci false (Some row.1)) row.2) text_rows ∧
   meets (json_normalize my_charset_utf8mb4_bin true (Some utf8)) utf8 ∧
   meets (json_normalize my_charset_latin1 true (Some latin)) utf8).
Proof.
  unfold main. apply (judges_planned _ _ 88); [|reflexivity]. eapply judges_iff.
  - eapply (judges_seq _ _ 0); [apply judges_diag|].
    eapply (judges_seq _ _ 38).
    { apply (judges_each _ 2 (λ row, meets (json_normalize_number row.1) row.2)). intros row _. apply check_number_normalize_judges. }
    eapply (judges_seq _ _ 4); [unfold test_json_normalize_invalid; cbv zeta; judge|].
    eapply (judges_seq _ _ 30).
    { apply (judges_each _ 2 (λ row, meets (json_normalize my_charset_utf8mb4_general_ci false (Some row.1)) row.2)).
      intros row _. apply check_json_normalize_judges. }
    do 6 (eapply (judges_seq _ _ 2); [apply check_json_normalize_judges|]).
    unfold test_json_normalize_non_utf8. cbv zeta. judge.
  - unfold text_rows. rewrite Forall_app, !Forall_cons, !negb_true_iff, !Z.eqb_neq, !Z.eqb_eq, !bool_decide_eq_true.
    unfold meets. rewrite !Forall_nil. naive_solver.
Qed.
