(* ===== verification/AhiSuite.v ===== *)
(** The adaptive hash index test, src/references/mariadb/storage/innobase/unittest/innodb_ahi-t.cc: the folds of a data
    tuple and of records in the three record formats, compared with constants.

    What the test sets up and changes between its checks is the state [setup]; the two fold functions and the layout
    constants (btr0sea.cc and the headers, not part of the sources) are the parameter [ahi_lib].  [main] is the sequence of its
    statements.  The theorems: the constants are the CRC-32C checksums of the bytes the messages name, no statement
    writes outside the page, and the 42 planned checks pass exactly if the library gives the expected folds. *)

From S2P Require Import Prelude Tap.
Open Scope Z_scope.

(** * Data *)

Inductive mtype := DATA_VARCHAR | DATA_CHAR.

(** The variables of the test: [table.flags], [fields[0].type.mtype], [cursor.n_bytes_fields], the column and the fixed
    length of [ifields[1]], and the page with the record at offset 256. *)
Record setup := Setup {
  table_flags : Z;
  field0_mtype : mtype;
  n_bytes_fields : Z;
  field1_col : nat;
  field1_fixed_len : Z;
  page : bytes;
}.

Class ahi_lib := {
  DICT_TF_COMPACT : Z;
  PAGE_HEADER : Z;
  PAGE_HEAP_TOP : Z;
  PAGE_N_HEAP : Z;
  dtuple_fold : setup → Z;
  rec_fold : setup → Z → Z → bool → Z;
}.

(** The fields of the page header that the test writes lie inside the page. *)
Class ahi_laws (L : ahi_lib) : Prop := {
  heap_top_in_page : 0 ≤ PAGE_HEADER + PAGE_HEAP_TOP < 16383;
  n_heap_in_page : 0 ≤ PAGE_HEADER + PAGE_N_HEAP < 16384;
}.

Definition crc42 : Z := 0x2e7d3dcb.
Definition crc3z42 : Z := 0x9a6e3c2c.
Definition crc2z : Z := 0xf16177d2.
Definition crc3z : Z := 0x6064a37a.

Definition r1_varchar : bytes := byte_of <$> [2; 0x80; 0; 0; 0; Z.lor (Z.shiftl 2 1) 1; 0; 0; 52; 50].
Definition r2_varchar : bytes := byte_of <$> [0; 2; 0x80; 0; 0; 0; 0; Z.shiftl 2 1; 0; 0; 52; 50].
Definition r1_var3 : bytes := byte_of <$> [2; 0x80; 0x80; 0; 0; 0; Z.lor (Z.shiftl 3 1) 1; 0; 0; 52; 50].
Definition r2_var3 : bytes := byte_of <$> [0; 2; 0x80; 0; 0x80; 0; 0; 0; 0; Z.shiftl 3 1; 0; 0; 52; 50].
Definition r1_char : bytes := byte_of <$> [2 + 3; 0x83; 0; 0; 0; Z.lor (Z.shiftl 2 1) 1; 0; 0; 0; 0; 0; 52; 50].
Definition r2_char : bytes := byte_of <$> [0; 2 + 3; 0x80; 3; 0; 0; 0; Z.shiftl 2 1; 0; 0; 0; 0; 0; 52; 50].
Definition c : bytes := byte_of <$> [0; 1; 0; 0; 0; 0; 0; 52; 50].
Definition c3 : bytes := byte_of <$> [0; 3; 0; 0; 0; 0; 0; 52; 50].

(** The position of the record in the page. *)
Definition rec : Z := 256.

(** * Statements *)

Inductive statement :=
| SetFlags (z : Z)
| SetMtype (t : mtype)
| SetNBytesFields (z : Z)
| SetField1Col (col : nat)
| SetField1FixedLen (z : Z)
| SetPage (at_ v : Z)
| CopyRec (r : bytes) (behind : Z)
| CheckTuple (fold : Z) (msg : string)
| CheckRec (n : Z) (comp : bool) (fold : Z) (msg : string).

(** A write of bytes into the page. *)
Definition write (at_ : Z) (data : bytes) (p : bytes) : option bytes :=
  if (0 <=? at_) && (at_ + Z.of_nat (length data) <=? Z.of_nat (length p))
  then Some (take (Z.to_nat at_) p ++ data ++ drop (Z.to_nat at_ + length data) p)
  else None.

Section program.
Context `{L : ahi_lib}.

Definition set_page (s : setup) (p : option bytes) : tap setup :=
  match p with
  | Some p => mret (Setup (table_flags s) (field0_mtype s) (n_bytes_fields s) (field1_col s) (field1_fixed_len s) p)
  | None => undefined
  end.

Definition exec (s : setup) (c : statement) : tap setup :=
  match c with
  | SetFlags z =>
      mret (Setup z (field0_mtype s) (n_bytes_fields s) (field1_col s) (field1_fixed_len s) (page s))
  | SetMtype t =>
      mret (Setup (table_flags s) t (n_bytes_fields s) (field1_col s) (field1_fixed_len s) (page s))
  | SetNBytesFields z =>
      mret (Setup (table_flags s) (field0_mtype s) z (field1_col s) (field1_fixed_len s) (page s))
  | SetField1Col col =>
      mret (Setup (table_flags s) (field0_mtype s) (n_bytes_fields s) col (field1_fixed_len s) (page s))
  | SetField1FixedLen z =>
      mret (Setup (table_flags s) (field0_mtype s) (n_bytes_fields s) (field1_col s) z (page s))
  | SetPage at_ v => set_page s (write at_ [byte_of v] (page s))
  | CopyRec r behind => set_page s (write (rec - Z.of_nat (length r) + behind) r (page s))
  | CheckTuple fold msg => ok (dtuple_fold s =? fold) msg [] ;; mret s
  | CheckRec n comp fold msg => ok (rec_fold s rec n comp =? fold) msg [] ;; mret s
  end.

Fixpoint exec_all (s : setup) (cs : list statement) : tap () :=
  match cs with
  | [] => mret ()
  | c :: cs' => s ← exec s c; exec_all s cs'
  end.

Definition initial : setup := Setup 0 DATA_VARCHAR 0 2 2 (replicate (Z.to_nat 16384) Byte.x00).

Definition statements : list statement :=
  [SetNBytesFields 2;
   CheckTuple crc42 "dtuple_fold(NULL,'42')";
   SetFlags DICT_TF_COMPACT;
   CheckTuple crc42 "dtuple_fold(NULL,'42')";
   SetMtype DATA_CHAR;
   CheckTuple crc42 "dtuple_fold(NULL,'42')";
   SetFlags 0;
   CheckTuple crc3z42 "dtuple_fold('\\0\\0\\0','42')";
   SetMtype DATA_VARCHAR;
   SetNBytesFields 1;
   CheckTuple 0 "dtuple_fold(NULL)";
   SetFlags DICT_TF_COMPACT;
   CheckTuple 0 "dtuple_fold(NULL)";
   SetMtype DATA_CHAR;
   CheckTuple 0 "dtuple_fold(NULL)";
   SetFlags 0;
   CheckTuple crc3z "dtuple_fold('\\0\\0\\0')";
   SetMtype DATA_VARCHAR;
   SetNBytesFields (Z.shiftl 2 16);
   CheckTuple 0 "dtuple_fold(NULL)";
   SetFlags DICT_TF_COMPACT;
   CheckTuple 0 "dtuple_fold(NULL)";
   SetMtype DATA_CHAR;
   CheckTuple 0 "dtuple_fold(NULL)";
   SetFlags 0;
   CheckTuple crc2z "dtuple_fold('\\0\\0')";
   SetMtype DATA_VARCHAR;
   SetPage (PAGE_HEADER + PAGE_HEAP_TOP) 1;
   SetPage (PAGE_HEADER + PAGE_HEAP_TOP + 1) (4 + 2);
   CopyRec r1_varchar 2;
   CheckRec 2 false crc42 "rec_fold(NULL, '42')";
   CheckRec 1 false 0 "rec_fold(NULL)";
   CheckRec (Z.shiftl 2 16) false 0 "rec_fold(NULL)";
   CopyRec r2_varchar 2;
   CheckRec 2 false crc42 "rec_fold(NULL, '42')";
   CheckRec 1 false 0 "rec_fold(NULL)";
   CheckRec (Z.shiftl 2 16) false 0 "rec_fold(NULL)";
   CopyRec r1_var3 2;
   CheckRec 3 false crc42 "rec_fold(NULL, NULL, '42')";
   CheckRec 2 false 0 "rec_fold(NULL,NULL)";
   CheckRec (Z.lor 1 (Z.shiftl 2 16)) false 0 "rec_fold(NULL,NULL)";
   CopyRec r2_var3 2;
   CheckRec 3 false crc42 "rec_fold(NULL, NULL, '42')";
   CheckRec 2 false 0 "rec_fold(NULL,NULL)";
   CheckRec (Z.lor 1 (Z.shiftl 2 16)) false 0 "rec_fold(NULL,NULL)";
   SetMtype DATA_CHAR;
   CopyRec r1_char (3 + 2);
   CheckRec 2 false crc3z42 "rec_fold('\\0\\0\\0', '42')";
   CheckRec 1 false crc3z "rec_fold('\\0\\0\\0')";
   CheckRec (Z.shiftl 2 16) false crc2z "rec_fold('\\0\\0')";
   CopyRec r2_char (3 + 2);
   CheckRec 2 false crc3z42 "rec_fold('\\0\\0\\0', '42')";
   CheckRec 1 false crc3z "rec_fold('\\0\\0\\0')";
   CheckRec (Z.shiftl 2 16) false crc2z "rec_fold('\\0\\0')";
   SetPage (PAGE_HEADER + PAGE_N_HEAP) 0x80;
   SetFlags DICT_TF_COMPACT;
   CopyRec c 2;
   CheckRec 2 true crc42 "rec_fold(NULL, '42')";
   CheckRec 1 true 0 "rec_fold(NULL)";
   CheckRec (Z.shiftl 2 16) true 0 "rec_fold(NULL)";
   SetMtype DATA_VARCHAR;
   CheckRec 2 true crc42 "rec_fold(NULL, '42')";
   CheckRec 1 true 0 "rec_fold(NULL)";
   CheckRec (Z.shiftl 2 16) true 0 "rec_fold(NULL)";
   CopyRec c3 2;
   SetMtype DATA_CHAR;
   SetField1Col 1;
   SetField1FixedLen 0;
   CheckRec 3 true crc42 "rec_fold(NULL, NULL, '42')";
   CheckRec 2 true 0 "rec_fold(NULL, NULL)";
   CheckRec (Z.lor 1 (Z.shiftl 2 16)) true 0 "rec_fold(NULL, NULL)";
   SetMtype DATA_VARCHAR;
   CheckRec 3 true crc42 "rec_fold(NULL, NULL, '42')";
   CheckRec 2 true 0 "rec_fold(NULL, NULL)";
   CheckRec (Z.lor 1 (Z.shiftl 2 16)) true 0 "rec_fold(NULL, NULL)"].

Definition main : tap () :=
  plan 42 ;;
  exec_all initial statements.

End program.

(** * Checksums *)

(** CRC-32C, bit by bit, least significant bit first. *)
Definition crc32c_bit (c : Z) : Z := Z.lxor (Z.shiftr c 1) (if Z.odd c then 0x82f63b78 else 0).

Definition crc32c (data : bytes) : Z :=
  Z.lxor (fold_left (λ c b, Nat.iter 8 crc32c_bit (Z.lxor c (byte_val b))) data 0xffffffff) 0xffffffff.

(** The bytes a message names: what stands between single quotes, where an escaped zero stands for a zero byte. *)
Fixpoint quoted (inside : bool) (msg : bytes) : bytes :=
  match msg with
  | [] => []
  | c :: msg' =>
      if byte_val c =? 39 then quoted (negb inside) msg'
      else if negb inside then quoted inside msg'
      else if byte_val c =? 92 then
        match msg' with
        | _ :: msg'' => Byte.x00 :: quoted inside msg''
        | [] => []
        end
      else c :: quoted inside msg'
  end.

(** The expected fold and the bytes the message names, of a check. *)
Definition expectation (c : statement) : option (Z * bytes) :=
  match c with
  | CheckTuple fold msg | CheckRec _ _ fold msg => Some (fold, quoted false (c_lit msg))
  | _ => None
  end.

(** * Proofs *)

Section proofs.
Context `{L : ahi_lib}.

Definition in_bounds (c : statement) : Prop :=
  match c with
  | SetPage at_ _ => 0 ≤ at_ < 16384
  | CopyRec r behind => 0 ≤ rec - Z.of_nat (length r) + behind ∧ rec + behind ≤ 16384
  | _ => True
  end.

Lemma write_in at_ data p :
  0 ≤ at_ → at_ + Z.of_nat (length data) ≤ Z.of_nat (length p) → ∃ p', write at_ data p = Some p' ∧ length p' = length p.
Proof.
  intros H0 Hl. unfold write. rewrite (proj2 (Z.leb_le _ _) H0), (proj2 (Z.leb_le _ _) Hl). eexists. split; [done|].
  rewrite !length_app, length_take, length_drop. lia.
Qed.

(** The library gives the expected folds in the states the statements lead to. *)
Fixpoint meets (s : setup) (cs : list statement) : Prop :=
  match cs with
  | [] => True
  | c :: cs' =>
      match c with
      | CheckTuple fold _ => dtuple_fold s = fold
      | CheckRec n comp fold _ => rec_fold s rec n comp = fold
      | _ => True
      end ∧ ∀ s' t, run_tap (exec s c) = Some (s', t) → meets s' cs'
  end.

(** A statement without a check, or with one. *)
Lemma exec_judges s c cs :
  in_bounds c → Z.of_nat (length (page s)) = 16384 →
  (∀ s', Z.of_nat (length (page s')) = 16384 → judges (exec_all s' cs) (length (omap expectation cs)) (meets s' cs)) →
  judges (exec_all s (c :: cs)) (length (omap expectation (c :: cs))) (meets s (c :: cs)).
Proof.
  intros Hb Hp IH. cbn [exec_all meets].
  assert (Hquiet : ∀ s', run_tap (exec s c) = Some (s', []) → expectation c = None →
    Z.of_nat (length (page s')) = 16384 →
    judges (s' ← exec s c; exec_all s' cs) (length (omap expectation (c :: cs)))
      (True ∧ ∀ s' t, run_tap (exec s c) = Some (s', t) → meets s' cs)).
  { intros s' Hr Hn Hl. destruct (IH s' Hl) as (vs & Hg & Hv & Hm). exists vs. cbn [omap list_omap]. rewrite Hn. split_and!; [|done|].
    - eapply (gives_bind _ _ s' () []); [|exact Hg]. unfold gives, outcome. by rewrite Hr.
    - rewrite Hm, Hr. naive_solver. }
  assert (Hcheck : ∀ b fmt e, exec s c = (ok b fmt [] ;; mret s) → expectation c = Some e →
    judges (s' ← exec s c; exec_all s' cs) (length (omap expectation (c :: cs)))
      (b = true ∧ ∀ s' t, run_tap (exec s c) = Some (s', t) → meets s' cs)).
  { intros b fmt e Hr Hn. destruct (IH s Hp) as (vs & Hg & Hv & Hm). exists ([b] ++ vs). cbn [omap list_omap]. rewrite Hn, Hr.
    split_and!; [|cbn; lia|].
    - eapply gives_bind; [|exact Hg]. eapply (gives_bind _ _ () s [b] []); [apply gives_ok|apply gives_ret].
    - cbn [app]. rewrite Forall_cons, Hm. cbn. naive_solver. }
  destruct c; cbn [in_bounds] in Hb; try (eapply Hquiet; done).
  - destruct (write_in at_ [byte_of v] (page s)) as (p' & E & El); [lia|cbn; lia|].
    eapply (Hquiet (Setup _ _ _ _ _ p')); [cbn; by rewrite E|done|cbn; lia].
  - destruct (write_in (rec - Z.of_nat (length r) + behind) r (page s)) as (p' & E & El); [lia|lia|].
    eapply (Hquiet (Setup _ _ _ _ _ p')); [cbn; by rewrite E|done|cbn; lia].
  - eapply judges_iff; [by eapply Hcheck|]. by rewrite Z.eqb_eq.
  - eapply judges_iff; [by eapply Hcheck|]. by rewrite Z.eqb_eq.
Qed.

Lemma exec_all_judges cs : ∀ s,
  Forall in_bounds cs → Z.of_nat (length (page s)) = 16384 →
  judges (exec_all s cs) (length (omap expectation cs)) (meets s cs).
Proof.
  induction cs as [|c cs IH]; intros s Hb Hp; [apply judges_ret|]. apply Forall_cons in Hb as [Hc Hb].
  apply exec_judges; [done|done|]. intros s' Hp'. by apply IH.
Qed.

Lemma statements_in_bounds `{!ahi_laws L} : Forall in_bounds statements.
Proof.
  pose proof heap_top_in_page. pose proof n_heap_in_page. unfold statements.
  repeat (constructor; [cbn [in_bounds]; first [exact I|lia|vm_compute; split; discriminate]|]). constructor.
Qed.

End proofs.

(** * Theorems *)

(** The expected value of each of the 42 checks is the CRC-32C checksum of the bytes its message names, nulls
    contributing nothing: the four constants are those of "42", three zero bytes and "42", two and three zero bytes. *)
Theorem folds_are_checksums `{L : ahi_lib} :
  length (omap expectation statements) = 42%nat ∧
  Forall (λ e, e.1 = crc32c e.2) (omap expectation statements).
Proof.
  split; [vm_compute; reflexivity|].
  assert (forallb (λ e, e.1 =? crc32c e.2) (omap expectation statements) = true) as H by (vm_compute; reflexivity).
  rewrite forallb_forall in H. apply Forall_forall. intros e He%list_elem_of_In. by apply Z.eqb_eq, H.
Qed.

(** The program writes only inside its page, makes the 42 checks it announces, and they pass exactly if the library gives
    the expected fold in each of the states. *)
Theorem ahi_main_passes_iff `{L : ahi_lib} `{!ahi_laws L} :
  plan_kept main ∧ (passes main ↔ meets initial statements).
Proof.
  unfold main. eapply (judges_planned _ _ (length (omap expectation statements))); [|reflexivity].
  apply exec_all_judges; [apply statements_in_bounds|]. cbn [page initial]. rewrite length_replicate. lia.
Qed.
