(* ===== verification/ExplainSuite.v ===== *)
(** The file name explanation test, src/references/mariadb/unittest/sql/explain_filename-t.cc.

    [explain_filename] (sql_table.cc, not part of the sources) is the parameter [explain_lib]: the text and the length it
    returns for a name, a mode and the message table [setup] fills in.  The theorems: the 22 checks pass exactly if every
    row is answered, and the rows do not contradict each other. *)

From S2P Require Import Prelude Tap.
Open Scope Z_scope.

Inductive enum_explain_filename_mode :=
| EXPLAIN_ALL_VERBOSE | EXPLAIN_PARTITIONS_VERBOSE | EXPLAIN_PARTITIONS_AS_COMMENT.

#[global] Instance explain_mode_eq_dec : EqDecision enum_explain_filename_mode.
Proof. solve_decision. Defined.

(** The messages the function looks up. *)
Inductive message :=
| ER_DATABASE_NAME | ER_TABLE_NAME | ER_PARTITION_NAME | ER_SUBPARTITION_NAME | ER_TEMPORARY_NAME | ER_RENAMED_NAME.

Definition BUFLEN : Z := 1000.

(** The text left in the output buffer and the length returned; the number of a mode. *)
Class explain_lib := {
  explain_filename : (message → bytes) → bytes → Z → enum_explain_filename_mode → bytes * Z;
  mode_number : enum_explain_filename_mode → Z;
}.

Definition setup (m : message) : bytes :=
  match m with
  | ER_DATABASE_NAME => c_lit "Database"
  | ER_TABLE_NAME => c_lit "Table"
  | ER_PARTITION_NAME => c_lit "Partition"
  | ER_SUBPARTITION_NAME => c_lit "Subpartition"
  | ER_TEMPORARY_NAME => c_lit "Temporary"
  | ER_RENAMED_NAME => c_lit "Renamed"
  end.

Section program.
Context `{L : explain_lib}.

Definition test_1 (row : bytes * bytes * enum_explain_filename_mode) : tap () :=
  let '(input, exp, mode) := row in
  let r := explain_filename setup input BUFLEN mode in
  let pass := bool_decide (exp = c_string r.1) in
  let length := r.2 =? Z.of_nat (length exp) in
  ok (pass && length) "(%d): %s => %s" [ArgD (mode_number mode); ArgS input; ArgS (c_string r.1)].

Definition rows : list (bytes * bytes * enum_explain_filename_mode) :=
  [(c_lit "test/t1.ibd", c_lit "Database `test`, Table `t1.ibd`", EXPLAIN_ALL_VERBOSE);
   (c_lit "test/t1.ibd", c_lit "`test`.`t1.ibd`", EXPLAIN_PARTITIONS_VERBOSE);
   (c_lit "test/t1.ibd", c_lit "`test`.`t1.ibd`", EXPLAIN_PARTITIONS_AS_COMMENT);
   (c_lit "test/t1#TMP#", c_lit "Database `test`, Table `t1#TMP#`", EXPLAIN_ALL_VERBOSE);
   (c_lit "test/#sql-2882.ibd", c_lit "Database `test`, Table `#sql-2882.ibd`", EXPLAIN_ALL_VERBOSE);
   (c_lit "test/t1#REN#", c_lit "Database `test`, Table `t1#REN#`", EXPLAIN_ALL_VERBOSE);
   (c_lit "test/t1@0023REN@0023", c_lit "Database `test`, Table `t1#REN#`", EXPLAIN_ALL_VERBOSE);
   (c_lit "test/t1#p#p1", c_lit "Database `test`, Table `t1`, Partition `p1`", EXPLAIN_ALL_VERBOSE);
   (c_lit "test/t1#P#p1", c_lit "`test`.`t1` /* Partition `p1` */", EXPLAIN_PARTITIONS_AS_COMMENT);
   (c_lit "test/t1#P#p1@00231", c_lit "`test`.`t1` /* Partition `p1#1` */", EXPLAIN_PARTITIONS_AS_COMMENT);
   (c_lit "test/t1#P#p1#SP#sp1", c_lit "`test`.`t1` /* Partition `p1`, Subpartition `sp1` */", EXPLAIN_PARTITIONS_AS_COMMENT);
   (c_lit "test/t1#p1#SP#sp1", c_lit "`test`.`t1#p1#SP#sp1`", EXPLAIN_PARTITIONS_AS_COMMENT);
   (c_lit "test/t1#p#p1@00232#SP#sp1@00231#REN#", c_lit "`test`.`t1` /* Renamed Partition `p1#2`, Subpartition `sp1#1` */", EXPLAIN_PARTITIONS_AS_COMMENT);
   (c_lit "test/t1#p#p1#SP#sp1#TMP#", c_lit "`test`.`t1` /* Temporary Partition `p1`, Subpartition `sp1` */", EXPLAIN_PARTITIONS_AS_COMMENT);
   (c_lit "test/#sql-t1#P#p1#SP#sp1#TMP#", c_lit "`test`.`#sql-t1#P#p1#SP#sp1#TMP#` /* Temporary Partition `p1`, Subpartition `sp1` */", EXPLAIN_PARTITIONS_AS_COMMENT);
   (c_lit "test/#sql-t1#P#p1#SP#sp1", c_lit "`test`.`#sql-t1#P#p1#SP#sp1` /* Partition `p1`, Subpartition `sp1` */", EXPLAIN_PARTITIONS_AS_COMMENT);
   (c_lit "test/#sqlx-33", c_lit "`test`.`#sqlx-33`", EXPLAIN_PARTITIONS_AS_COMMENT);
   (c_lit "test/#mysql50#t", c_lit "`test`.`#mysql50#t`", EXPLAIN_PARTITIONS_AS_COMMENT);
   (c_lit "#mysql50#t", c_lit "`#mysql50#t`", EXPLAIN_PARTITIONS_AS_COMMENT);
   (c_lit "@0023t", c_lit "`#t`", EXPLAIN_PARTITIONS_AS_COMMENT);
   (c_lit "test/t@0023", c_lit "`test`.`t#`", EXPLAIN_PARTITIONS_AS_COMMENT);
   (c_lit "test/t@0023#", c_lit "`test`.`t@0023#`", EXPLAIN_PARTITIONS_AS_COMMENT)].

Definition main : tap () :=
  plan 22 ;;
  each test_1 rows.

End program.

(** * Theorems *)

(** The library answers a row with the expected text and its length. *)
Definition meets `{L : explain_lib} (row : bytes * bytes * enum_explain_filename_mode) : Prop :=
  let r := explain_filename setup row.1.1 BUFLEN row.2 in c_string r.1 = row.1.2 ∧ r.2 = Z.of_nat (length row.1.2).

(** The 22 checks announced are made, and they pass exactly if the library answers every row. *)
Theorem explain_main_passes_iff `{L : explain_lib} : plan_kept main ∧ (passes main ↔ Forall meets rows).
Proof.
  unfold main. apply (judges_planned _ _ 22); [|reflexivity]. apply (judges_each _ 1 meets).
  intros [[input exp] mode] _. unfold test_1, meets. cbn [fst snd]. eapply judges_iff; [apply judges_ok|].
  rewrite andb_true_iff, bool_decide_eq_true, Z.eqb_eq. naive_solver.
Qed.

(** The answers of the rows themselves. *)
Definition table_lib : explain_lib := {|
  explain_filename _ input _ mode :=
    match find (λ row, bool_decide (row.1.1 = input) && bool_decide (row.2 = mode)) rows with
    | Some row => (row.1.2, Z.of_nat (length row.1.2))
    | None => ([], 0)
    end;
  mode_number _ := 0;
|}.

(** No two rows contradict each other: some function of the name and the mode passes every check, within the output
    buffer. *)
Theorem explain_rows_consistent :
  passes (main (L := table_lib)) ∧ Forall (λ row, Z.of_nat (length row.1.2) < BUFLEN) rows.
Proof.
  split; [|repeat (constructor; [vm_compute; reflexivity|]); constructor].
  apply explain_main_passes_iff. repeat (constructor; [vm_compute; split; reflexivity|]). constructor.
Qed.
