(* ===== verification/DecimalSuite.v ===== *)
(** The decimal tests, src/references/mariadb/unittest/my_decimal/my_decimal-t.cc.

    A [my_decimal] holds its digits in a buffer of its own and reaches them through a pointer, so a test that copies
    decimals depends on what the copy does with the pointer: the store is modelled with one buffer and one pointer for
    each variable, and the copy operation is the parameter [copy].  The arithmetic (decimal.c, not part of the sources) is
    the parameter [decimal_lib].  The theorems: with a copy that keeps the pointers apart all copy checks pass; with the
    copy the compiler would generate exactly the last two fail, as the comment in the test says. *)

From S2P Require Import Prelude Tap.
Open Scope Z_scope.

(** * The library *)

(** [digits] is the contents of a buffer. *)
Class decimal_lib := {
  digits : Type;
  blank : digits;
  ulonglong2decimal : Z → digits → Z * digits;
  my_decimal_cmp : digits → digits → Z;
  decimal2ulonglong : digits → Z * Z;
  string2decimal : bytes → digits;
  decimal2string : digits → bytes → Z → bytes;
}.

(** A number that was stored is read back, and stored numbers compare as the numbers do.  The text of a decimal is
    written into the buffer it is given, which keeps its size. *)
Class decimal_laws (L : decimal_lib) : Prop := {
  store_ok v d : 0 ≤ v < 2 ^ 64 → (ulonglong2decimal v d).1 = 0;
  load_stored v d : 0 ≤ v < 2 ^ 64 → decimal2ulonglong (ulonglong2decimal v d).2 = (0, v);
  cmp_stored v w d e : 0 ≤ v < 2 ^ 64 → 0 ≤ w < 2 ^ 64 →
    my_decimal_cmp (ulonglong2decimal v d).2 (ulonglong2decimal w e).2 = Z.sgn (v - w);
  text_size d buf n : length (decimal2string d buf n) = length buf;
}.

(** * Variables *)

Section program.
Context `{L : decimal_lib}.

(** The buffers of the three variables and, for each, the variable whose buffer its pointer leads to. *)
Record store := Store { buffer : nat → digits; points_to : nat → nat }.

Definition put (i : nat) (d : digits) (m : store) : store :=
  Store (λ j, if decide (j = i) then d else buffer m j) (points_to m).

(** The value of a variable, and an update of it, through its pointer. *)
Definition value (m : store) (i : nat) : digits := buffer m (points_to m i).

Definition assign (i : nat) (d : digits) (m : store) : store := put (points_to m i) d m.

(** Declared without an initialiser: the pointer leads to the variable's own buffer. *)
Definition fresh : store := Store (λ _, blank) (λ i, i).

(** The copy of [my_decimal]: the buffer is copied and the pointer fixed to it. *)
Definition deep_copy (dst src : nat) (m : store) : store :=
  Store (λ j, if decide (j = dst) then value m src else buffer m j) (λ j, if decide (j = dst) then dst else points_to m j).

(** The copy a compiler generates: every member is copied, the pointer included. *)
Definition memberwise_copy (dst src : nat) (m : store) : store :=
  Store (λ j, if decide (j = dst) then buffer m src else buffer m j)
        (λ j, if decide (j = dst) then points_to m src else points_to m j).

(** * The tests *)

Context (copy : nat → nat → store → store).

(** The variables [d1], [d2] and [d3] are 1, 2 and 3. *)
Definition test_copy_and_compare : tap () :=
  let m := fresh in
  let val := 42 in
  let r := ulonglong2decimal val (value m 1) in
  ok (r.1 =? 0) "Pass" [] ;;
  let m := assign 1 r.2 m in
  let m := copy 2 1 m in
  let m := copy 3 1 m in
  ok (my_decimal_cmp (value m 1) (value m 2) =? 0) "Pass" [] ;;
  ok (my_decimal_cmp (value m 2) (value m 3) =? 0) "Pass" [] ;;
  ok (my_decimal_cmp (value m 3) (value m 1) =? 0) "Pass" [] ;;
  let r1 := decimal2ulonglong (value m 1) in
  let r2 := decimal2ulonglong (value m 2) in
  let r3 := decimal2ulonglong (value m 3) in
  ok (r1.1 =? 0) "Pass" [] ;;
  ok (r2.1 =? 0) "Pass" [] ;;
  ok (r3.1 =? 0) "Pass" [] ;;
  ok (val =? r1.2) "Pass" [] ;;
  ok (val =? r2.2) "Pass" [] ;;
  ok (val =? r3.2) "Pass" [] ;;
  let val := 45 in
  let r := ulonglong2decimal val (value m 1) in
  ok (r.1 =? 0) "Pass" [] ;;
  let m := assign 1 r.2 m in
  ok (my_decimal_cmp (value m 1) (value m 2) =? 1) "Pass" [] ;;
  ok (my_decimal_cmp (value m 1) (value m 3) =? 1) "Pass" [].

(** [for (i= from; i < to && p i; i++);]: the value of [i] behind the loop; the counter is [to - i]. *)
Fixpoint scan (p : Z → bool) (left : nat) (i : Z) : Z :=
  match left with
  | O => i
  | S left' => if p i then scan p left' (i + 1) else i
  end.

Definition strnum : bytes := c_lit "0.1234567890123456789012345678901234567890123467\0".

Definition byte_at (b : bytes) (i : Z) : option byte := b !! Z.to_nat i.

Definition test_decimal2string : tap () :=
  let strbuff := replicate 50 Byte.x00 in
  let d1 := string2decimal strnum in
  let strbuff := decimal2string d1 strbuff 40 in
  ok (scan (λ i, bool_decide (byte_at strbuff i = byte_at strnum i)) 38 0 =? 38) "Number" [] ;;
  ok (scan (λ i, bool_decide (byte_at strbuff i = Some Byte.x00)) 11 39 =? 50) "No overrun" [].

Definition main : tap () :=
  plan 15 ;;
  diag "Testing my_decimal constructor and assignment operators" [] ;;
  test_copy_and_compare ;;
  test_decimal2string.

End program.

(** * Proofs *)

(** The loop runs to its end exactly if the condition holds on the way. *)
Lemma scan_end p left : ∀ i, scan p left i = i + Z.of_nat left ↔ ∀ k, (k < left)%nat → p (i + Z.of_nat k) = true.
Proof.
  induction left as [|left IH]; intros i; cbn [scan]; [split; [lia|]; intros _; lia|].
  destruct (p i) eqn:E.
  - replace (i + Z.of_nat (S left)) with (i + 1 + Z.of_nat left) by lia. rewrite IH. split.
    + intros H [|k] Hk; [by rewrite Z.add_0_r|]. replace (i + Z.of_nat (S k)) with (i + 1 + Z.of_nat k) by lia. apply H. lia.
    + intros H k Hk. replace (i + 1 + Z.of_nat k) with (i + Z.of_nat (S k)) by lia. apply H. lia.
  - split; [lia|]. intros H. specialize (H 0%nat ltac:(lia)). rewrite Z.add_0_r in H. congruence.
Qed.

Section proofs.
Context `{L : decimal_lib} `{!decimal_laws L}.

(** The verdicts of the copy test for a copy that gives the same value at once and either follows the next assignment to
    [d1] or does not. *)
Lemma copy_test_gives copy (follows : bool) :
  (∀ d, let m := copy 3%nat 1%nat (copy 2%nat 1%nat (assign 1 d fresh)) in
     value m 1 = d ∧ value m 2 = d ∧ value m 3 = d ∧
     ∀ e, let m' := assign 1 e m in
       value m' 1 = e ∧ value m' 2 = (if follows then e else d) ∧ value m' 3 = if follows then e else d) →
  gives (test_copy_and_compare copy) () (replicate 11 true ++ [negb follows; negb follows]).
Proof.
  intros Hc. unfold test_copy_and_compare. cbv zeta.
  set (d := (ulonglong2decimal 42 (value fresh 1)).2). destruct (Hc d) as (H1 & H2 & H3 & Hm).
  set (m := copy 3%nat 1%nat (copy 2%nat 1%nat (assign 1 d fresh))) in *.
  set (e := (ulonglong2decimal 45 (value m 1)).2). destruct (Hm e) as (E1 & E2 & E3).
  rewrite !E1, E2, E3, !H1, !H2, !H3. unfold d, e at 1.
  rewrite !(store_ok (L := L)), !(load_stored (L := L)), !(cmp_stored (L := L)) by lia.
  destruct follows; unfold e; rewrite !(cmp_stored (L := L)) by lia; done.
Qed.

Lemma deep_copy_gives : gives (test_copy_and_compare deep_copy) () (replicate 13 true).
Proof. apply (copy_test_gives deep_copy false). intros d. by split_and!. Qed.

Lemma memberwise_copy_gives : gives (test_copy_and_compare memberwise_copy) () (replicate 11 true ++ [false; false]).
Proof. apply (copy_test_gives memberwise_copy true). intros d. by split_and!. Qed.

End proofs.

(** Numbers as their own digits. *)
Definition number_lib : decimal_lib := {|
  digits := Z;
  blank := 0;
  ulonglong2decimal v _ := (0, v);
  my_decimal_cmp d e := Z.sgn (d - e);
  decimal2ulonglong d := (0, d);
  string2decimal _ := 0;
  decimal2string _ buf _ := buf;
|}.

Lemma number_lib_laws : decimal_laws number_lib.
Proof. by split. Qed.

(** * Theorems *)

(** The copy test tells the two copies apart: with any arithmetic that behaves as documented, a copy that moves the
    pointer to its own buffer passes all thirteen checks, and the memberwise copy of a compiler passes the first eleven and
    fails the two that follow the second assignment. *)
Theorem copy_test_distinguishes `{L : decimal_lib} `{!decimal_laws L} :
  gives (test_copy_and_compare deep_copy) () (replicate 13 true) ∧
  gives (test_copy_and_compare memberwise_copy) () (replicate 11 true ++ [false; false]).
Proof. split; [apply deep_copy_gives|apply memberwise_copy_gives]. Qed.

(** [copy_test_distinguishes] for numbers as their own digits. *)
Lemma copy_test_distinguishes_witness :
  gives (test_copy_and_compare (L := number_lib) memberwise_copy) () (replicate 11 true ++ [false; false]).
Proof. apply (@copy_test_distinguishes number_lib number_lib_laws). Defined.

(** The program makes the fifteen checks it announces; with the copy of [my_decimal] they pass exactly if the text of the
    number agrees with it in its first 38 bytes and leaves everything from byte 39 on untouched. *)
Theorem decimal_main_passes_iff `{L : decimal_lib} `{!decimal_laws L} :
  let text := decimal2string (string2decimal strnum) (replicate 50 Byte.x00) 40 in
  plan_kept (main deep_copy) ∧
  (passes (main deep_copy) ↔
   (∀ k, (k < 38)%nat → text !! k = strnum !! k) ∧ (∀ k, (39 ≤ k < 50)%nat → text !! k = Some Byte.x00)).
Proof.
  intros text. unfold main. apply (judges_planned _ _ 15); [|reflexivity]. eapply judges_iff.
  - eapply (judges_seq _ _ 0); [apply judges_diag|]. eapply (judges_seq _ _ 13 2).
    + exists (replicate 13 true). split; [apply deep_copy_gives|]. split; [done|]. split; [intros _; exact I|].
      intros _. apply Forall_replicate. done.
    + unfold test_decimal2string. cbv zeta. judge.
  - fold text. rewrite !Z.eqb_eq. rewrite (scan_end _ 38 0), (scan_end _ 11 39). unfold byte_at.
    split; [intros (_ & _ & H1 & H2)|intros [H1 H2]; split_and!; try done].
    + split; intros k Hk.
      * specialize (H1 k Hk). apply bool_decide_eq_true in H1. by rewrite Z.add_0_l, Nat2Z.id in H1.
      * specialize (H2 (k - 39)%nat ltac:(lia)). apply bool_decide_eq_true in H2.
        by replace (Z.to_nat (39 + Z.of_nat (k - 39))) with k in H2 by lia.
    + intros k Hk. apply bool_decide_eq_true. rewrite Z.add_0_l, Nat2Z.id. by apply H1.
    + intros k Hk. apply bool_decide_eq_true. apply H2. lia.
Qed.
